(* ===== verification/_CoqProject ===== *)
-Q . S2P
Prelude.v
Codec.v
Rlp.v
RlpEncoder.v
Storage.v
IterableMap.v
DposData.v
Validators.v
Delegations.v
Undelegations.v
YieldCurve.v
DposStore.v
DposWorld.v
Dpos.v
DposRewards.v
DposQueries.v
DposRun.v
DposFrame.v
DposFunds.v
DposSupply.v
DposModel.v
DposRefine.v
DposAccounts.v
DposQueriesFacts.v
DposErrors.v
DposInvariants.v
DposContract.v
DposExamples.v
Slashing.v
SlashingFacts.v
SlashingExamples.v
DposApi.v
DposApiExamples.v
Uint256.v
EvmMemory.v
EvmAnalysis.v
EvmInterface.v
EvmMachine.v
EvmInstructions.v
EvmRun.v
EvmFacts.v
EvmGas.v
EvmTermination.v
EvmStack.v
EvmJournal.v
StateEvm.v
StateEvmFacts.v
StateEvmJournal.v
EvmPrecompiles.v
EvmPrecompilesFacts.v
EvmExamples.v
TrieEncoding.v
Trie.v
TrieMap.v
TrieHash.v
TrieRep.v
TrieFacts.v
TrieCommit.v
TrieBuild.v
TrieRun.v
TrieReader.v
TrieHistory.v
TrieSchemas.v
TrieExamples.v
StateDb.v
TrieSink.v
TrieSinkMaps.v
TrieSinkRun.v
TrieSinkRefine.v
TrieSinkExamples.v
StateDbFacts.v
StateDbMemory.v
StateDbPrune.v
StateDbExamples.v
Schedules.v
GoroutineGroup.v
TaskGroups.v
Pool.v
HasherPool.v
ConcurrencyExamples.v
