(* ===== verification/Prelude.v ===== *)
(** * The EBLA virtual machine and its state, verified

    The program (a Go library behind a C interface) executes the blocks of a proof-of-stake
    chain.  A node hands it blocks: [StateTransition] runs their transactions on an Ethereum
    virtual machine, then the rewards and the end of the block on two contracts that are part of
    the program (DPoS and slashing), and writes the changed accounts to Merkle-Patricia tries in a
    key-value database.  This development models, component by component, what the Go code
    computes, and proves the properties that make each component correct.

    ** How the code is rendered
    State is passed explicitly in the monad [M S A := S → outcome A * S] of this file.  An
    [outcome] is [Ret], [Err] (a Go [error] that is returned) or [Panic] (a Go panic, [asserts]
    included); the state is kept in all three cases, because the code does not roll back what it
    has written.  Integers are in [Z]; those of a machine width are wrapped where the code wraps
    them ([u8], [u16], [u32], [u64]; 256-bit words are wrapped by [Uint256.v]'s class).
    [big.Int] is [Z].  Bytes, addresses (20 bytes) and hashes (32 bytes) are [list Z].  Pointers
    are the keys of what they point to (accounts by address, memory cells by index) wherever the
    code shares them.  A loop that is not structural takes fuel, and a theorem says how much is
    enough; with enough fuel the result never is the panic that means it ran out.
    Not code of the repository, and parameters everywhere: Keccak-256 ([Keccak]; its collision
    resistance is [KeccakInj] where it is used), 256-bit arithmetic of holiman/uint256 with its
    documented laws ([Uint256.v]), elliptic curves, SHA and RIPEMD, signature recovery, ABI
    decoding and RocksDB.

    ** The files and the code they model
    Foundations:
    - [Prelude.v] (this file): machine widths, the monad, loops, the program logic [wp] and the
      tactics shared by all files.
    - [Codec.v]: ebla/util/bin and the integer helpers of the storage.
    - [Rlp.v], [RlpEncoder.v]: rlp/encode.go, decode.go (the field types the program stores),
      raw.go; the encoder's buffer with its list headers.
    Contract storage (ebla/state/contracts/storage):
    - [Storage.v]: storage.go, the read and write cache of a precompiled contract; interface
      [KVStore], stored lists.
    - [IterableMap.v]: iterable_map.go, addresses_imap.go, ids_imap.go.
    The DPoS contract (contracts/dpos/precompiled):
    - [DposData.v]: the stored structs, their codecs, the configuration, every storage key.
    - [Validators.v], [Delegations.v], [Undelegations.v], [YieldCurve.v]: the files of those names.
    - [DposStore.v]: the operations the handlers use, as the typeclass [DposStore], instantiated by
      contract storage (here) and by typed data ([DposModel.v]).
    - [DposWorld.v], [Dpos.v], [DposRewards.v], [DposQueries.v], [DposRun.v]: dpos_contract.go:
      fields and helpers; the transaction methods; rewards, penalties, evictions, genesis; getters
      and reader.go; [Run], [RequiredGas] and the call of a precompiled contract (evm.go).
    - [DposFrame.v], [DposFunds.v], [DposSupply.v], [DposRefine.v], [DposAccounts.v],
      [DposQueriesFacts.v], [DposErrors.v], [DposInvariants.v], [DposContract.v]: proofs.
      [DposExamples.v]: the properties and the findings on a concrete chain.
    The slashing contract and the configuration:
    - [Slashing.v], [SlashingFacts.v], [SlashingExamples.v]: slashing_contract.go, reader.go.
    - [DposApi.v], [DposApiExamples.v]: api.go of the contract and of ebla/state: the changes of
      the configuration by block, and their replay at start-up.  The initial validators are slices
      of arrays that configurations share, and the decoder writes into them.
    The virtual machine (core/vm):
    - [Uint256.v], [EvmMemory.v], [EvmAnalysis.v], [EvmInterface.v], [EvmMachine.v],
      [EvmInstructions.v], [EvmRun.v]: words; memory.go; analysis.go; constants, errors and the
      interface to the accounts ([EvmState], a class); stack.go, gas.go, memory_table.go;
      instructions.go, eips.go; jump_table.go, opcodes.go, evm.go.
    - [EvmFacts.v], [EvmGas.v], [EvmTermination.v], [EvmStack.v], [EvmJournal.v]: proofs against
      the interface to the accounts.  [EvmExamples.v]: concrete programs.
    - [EvmPrecompiles.v], [EvmPrecompilesFacts.v]: contracts.go.
    The accounts under execution (ebla/state/state_evm):
    - [StateEvm.v], [StateEvmFacts.v], [StateEvmJournal.v]: account.go, transition_state.go: the
      instance of [EvmState], and that its journal keeps what the machine was promised, either with
      the slots that are written past it ([SetStateRawIrreversibly]) or without them.
    The state trie (ebla/trie, ebla/state/state_db):
    - [TrieEncoding.v]: encoding.go.  [Trie.v]: layout.go, reader.go, writer.go, hash_encoder.go,
      commit_context.go; the nodes are values, a node that the code changes in place is the node
      the operation returns.  [TrieSchemas.v]: main_trie.go, account_trie.go, block_reader.go.
    - [TrieMap.v]: the abstract trie, canonical for its map.  [TrieHash.v]: its encodings.
      [TrieRep.v]: which nodes stand for a trie, and reading one back from the store.
      [TrieFacts.v]: insertion and deletion.  [TrieCommit.v]: the commit.  [TrieBuild.v]: the trie
      of a map as the yellow paper defines it.  [TrieRun.v], [TrieReader.v], [TrieHistory.v]:
      blocks, listing, histories.  [TrieExamples.v]: a history of four blocks.
    The output of a block (ebla/state/state_transition):
    - [TrieSink.v]: trie_sink.go with the calls that account.go and transition_state.go make on it.
      [TrieSinkMaps.v]: tries, tasks and puts as maps.  [TrieSinkRun.v]: a block's updates and
      deletions.  [TrieSinkRefine.v]: its commit, its puts, and blocks one after the other.
      [TrieSinkExamples.v]: two blocks.

    The database (ebla/state/state_db_rocksdb, state_db/db.go):
    - [StateDb.v]: db.go, latest_state.go, misc.go: versioned values, the pending block, commit,
      start-up, pruning; RocksDB is the class [RocksDB] with its laws [RocksLaws].
    - [StateDbFacts.v]: the database refines the list of its blocks.  [StateDbPrune.v]: pruning.
      [StateDbMemory.v]: an instance of the class.  [StateDbExamples.v]: a pruned chain.

    Threads (ebla/util):
    - [Schedules.v]: programs of atomic steps and their schedules.  [GoroutineGroup.v],
      [TaskGroups.v]: goroutines/goroutine_group.go and sequential_group_executor.go.  [Pool.v]:
      pool.go.  [HasherPool.v]: keccak256/keccak256.go.  Every interleaving is considered.
      [ConcurrencyExamples.v]: schedules that are run.

    ** What the theorems show
    - DPoS.  The contract on its storage refines the typed model, for whole histories from genesis
      that stay in the representable range ([contract_refines_model]); in every state reached
      without a cancellation that failed on a full validator the stakes and the amount delegated
      agree ([contract_stakes_agree], [reachable_stakes_agree]), and inside an epoch the votes do
      ([reachable_votes_agree]); calls move funds and create none ([call_moves_funds]), failing
      calls change nothing but for two methods and the start of the contract
      ([failed_call_changes_nothing]), rewards respect the supply cap, for consistent statistics,
      and the pools ([supply_cap], [distribution_creates_minted],
      [delegator_rewards_within_pool], [block_reward_exact], [yield_schedule_is_formula]),
      listings visit everybody once.
    - Storage.  Codecs and RLP round trips, the wrapper as a map, the iterable map as a list, no
      collision in the layout ([codec_roundtrip], [rlp_split_encoded], [encoder_buffer_exact],
      [storage_wrapper_refines_map], [iterable_map_refines_list], [stored_structs_roundtrip],
      [storage_layout_collision_free], [delegations_refine_map], [undelegations_refine_map]).
    - Virtual machine.  Runs end ([call_terminates], [transaction_terminates]), never leave the
      stack ([stack_is_safe]), failing calls and creations restore the accounts
      ([failed_call_restores], [failed_creation_restores]), static calls change nothing
      ([static_call_changes_nothing]).  The last three ask the precompiled contracts to journal
      what they change and to change nothing in a static call: the standard ones do; the DPoS and
      the slashing contract write past the journal, in static calls too.  The memory is a list of bytes, the bitmap of a code marks
      its data, the modular exponentiation is the mathematical one.
    - Slashing and configuration: [double_voting_jails], [double_voting_once],
      [cleanup_keeps_jailed], [cleanup_depends_on_memory], [config_survives_restart].
    - Trie.  Whatever the history of insertions, deletions, commits and restarts, the root is the
      one the yellow paper defines from the map, and the store holds exactly the map
      ([trie_history_refines_map]); the listing of a trie is the map's ([ForEach_lists_map]);
      keys and accounts survive their encodings ([hex_compact_roundtrip],
      [account_encoding_roundtrip]).
    - Output of a block.  Blocks written through the sink are updates of a map of accounts: the
      roots are those of the maps and the database reads back as the last one
      ([blocks_refine_accounts]).  Asked for: a deleted account had no storage before the block (the
      code leaves its storage in the database), and one string per hash of a node or a code.
    - Database.  Every committed block stays readable, through failed writes, crashes and restarts
      ([database_keeps_every_block]); pruning keeps what it promises, when it returns
      ([prune_keeps_blocks]), which it does not once an account was deleted
      ([prune_fails_after_deletion]).
    - Threads.  No scheduler can avoid the tasks of the groups ([every_task_runs]); a group's tasks
      run one at a time and in order ([tasks_of_a_group_in_order]), so that the models of the trie
      and of the database, where a task runs when it is submitted, lose nothing; the pools give
      what they promise ([hash_results_stand], [pool_gives_current_items]).

    ** Fuel and bounds
    The interpreter's fuel is more than the gas; a call takes from the gas it is given.  A trie
    operation takes at most two steps per nibble of a key: [trie_fuel] is 132 for 65 nibbles.  The
    reader's fuel for a node is the length of its bytes.  The loops of the DPoS contract take the
    number of entries.  A commit keeps its two buffers below 2^32 bytes when the hashed encoding of
    no value exceeds 2^31 bytes.

    ** Not modelled
    The C interface (cgo), RocksDB itself (third-party; its interface is a parameter),
    ABI encoding and decoding (vendored; the handlers take decoded arguments), the cryptographic
    libraries, the tracer and debug output, the dot drawing of a trie, state_transition.go as a
    whole (its parts are modelled: the machine, the contracts' system calls, the journal, the sink,
    the pending block), and the use of threads inside a component (the tasks of a queue run in its
    order).  Texts of errors
    leave out the numbers formatted into them.  The column of the configuration changes holds the configurations that its
    bytes decode to. *)
From Stdlib Require Export ZArith Lia.
From stdpp Require Export base list gmap numbers strings.

#[export] Set Default Proof Using "Type*".

Declare Scope go_scope.
Delimit Scope go_scope with go.
#[global] Open Scope Z_scope.

(** Bytes are integers of [0, 255]; a Go byte slice is a list of them. *)
Abbreviation byte := Z.
Abbreviation bytes := (list Z).

(** * Unsigned machine integers: the wrapped value *)
Definition wrap (w x : Z) : Z := x mod 2 ^ w.
Definition u8 (x : Z) : Z := x mod 2 ^ 8.
Definition u16 (x : Z) : Z := x mod 2 ^ 16.
Definition u32 (x : Z) : Z := x mod 2 ^ 32.
Definition u64 (x : Z) : Z := x mod 2 ^ 64.
Definition u256 (x : Z) : Z := x mod 2 ^ 256.
(** Go's [int64(x)] on a 64-bit pattern: two's complement. *)
Definition to_int64 (x : Z) : Z :=
  let y := u64 x in if y <? 2 ^ 63 then y else y - 2 ^ 64.

Definition is_byte (b : Z) : Prop := 0 <= b < 256.
Definition is_u16 (x : Z) : Prop := 0 <= x < 2 ^ 16.
Definition is_u32 (x : Z) : Prop := 0 <= x < 2 ^ 32.
Definition is_u64 (x : Z) : Prop := 0 <= x < 2 ^ 64.
Definition is_u256 (x : Z) : Prop := 0 <= x < 2 ^ 256.
Definition is_bytes (l : bytes) : Prop := Forall is_byte l.

(** [uint256.Int]'s division: zero when the divisor is zero. *)
Definition u256_div (x y : Z) : Z := if y =? 0 then 0 else x / y.
(** [big.Int.Div]: Euclidean division. *)
Definition big_quot (x y : Z) : Z := if y <? 0 then - (x / - y) else x / y.

Create HintDb width.
Create Rewrite HintDb widthrw.
Ltac width_unfold :=
  unfold u8, u16, u32, u64, u256, wrap, is_byte, is_u16, is_u32, is_u64, is_u256 in *.
(** Decide a goal about wrapped values by [lia], with the powers evaluated. *)
Ltac width_lia :=
  width_unfold;
  repeat match goal with
  | |- context [2 ^ Zpos ?w] => let v := eval vm_compute in (2 ^ Zpos w) in change (2 ^ Zpos w) with v
  | H : context [2 ^ Zpos ?w] |- _ =>
      let v := eval vm_compute in (2 ^ Zpos w) in change (2 ^ Zpos w) with v in H
  end;
  try (Z.div_mod_to_equations; lia).

Lemma u16_id x : is_u16 x → u16 x = x.
Proof. intros H. apply Z.mod_small, H. Qed.
Lemma u32_id x : is_u32 x → u32 x = x.
Proof. intros H. apply Z.mod_small, H. Qed.
Lemma u64_id x : is_u64 x → u64 x = x.
Proof. intros H. apply Z.mod_small, H. Qed.
Lemma u256_id x : is_u256 x → u256 x = x.
Proof. intros H. apply Z.mod_small, H. Qed.
Lemma u16_range x : is_u16 (u16 x).
Proof. apply Z.mod_pos_bound. lia. Qed.
Lemma u32_range x : is_u32 (u32 x).
Proof. apply Z.mod_pos_bound. lia. Qed.
Lemma u64_range x : is_u64 (u64 x).
Proof. apply Z.mod_pos_bound. lia. Qed.
Lemma u256_range x : is_u256 (u256 x).
Proof. apply Z.mod_pos_bound. lia. Qed.
#[export] Hint Resolve u16_range u32_range u64_range u256_range : width.
#[export] Hint Rewrite u16_id u32_id u64_id u256_id using (assumption || solve [auto with width]) : widthrw.

Lemma big_quot_pos x y : 0 < y → big_quot x y = x / y.
Proof. intros. unfold big_quot. destruct (Z.ltb_spec y 0); [lia | done]. Qed.
Lemma u256_div_pos x y : 0 < y → u256_div x y = x / y.
Proof. intros. unfold u256_div. destruct (Z.eqb_spec y 0); [lia | done]. Qed.
#[export] Hint Rewrite big_quot_pos u256_div_pos using lia : widthrw.

(** * Effects: state, Go errors, Go panics
    A handler returns a value, an [error] (a string, [util.ErrorString]) or panics;
    the state reached so far is kept in every case, as Go keeps it. *)
Inductive outcome (A : Type) : Type :=
| Ret (a : A)
| Err (e : string)
| Panic (msg : string).
Arguments Ret {_} _.
Arguments Err {_} _.
Arguments Panic {_} _.

Definition M (S A : Type) : Type := S → outcome A * S.

#[export] Instance M_ret (S : Type) : MRet (M S) := λ A a s, (Ret a, s).
#[export] Instance M_bind (S : Type) : MBind (M S) := λ A B k m s,
  match m s with
  | (Ret a, s') => k a s'
  | (Err e, s') => (Err e, s')
  | (Panic p, s') => (Panic p, s')
  end.

Definition throw {S A} (e : string) : M S A := λ s, (Err e, s).
Definition go_panic {S A} (msg : string) : M S A := λ s, (Panic msg, s).
Definition of_outcome {S A} (o : outcome A) : M S A := λ s, (o, s).
(** [if b { return ..., e }] *)
Definition fail_if {S} (b : bool) (e : string) : M S unit :=
  if b then throw e else mret tt.
(** [if b { panic(msg) }] *)
Definition panic_if {S} (b : bool) (msg : string) : M S unit :=
  if b then go_panic msg else mret tt.
(** [if b { m }] *)
Definition when {S} (b : bool) (m : M S unit) : M S unit :=
  if b then m else mret tt.
(** A Go pointer that the code dereferences. *)
Definition deref {S A} (o : option A) : M S A :=
  match o with
  | Some a => mret a
  | None => go_panic "invalid memory address or nil pointer dereference"
  end.
(** [big.Int.Div] panics on a zero divisor. *)
Definition big_div (x y : Z) : outcome Z :=
  if y =? 0 then Panic "division by zero" else Ret (big_quot x y).

Fixpoint for_each {S A} (l : list A) (f : A → M S unit) : M S unit :=
  match l with
  | [] => mret tt
  | x :: l' => f x ;; for_each l' f
  end.
Fixpoint map_m {S A B} (l : list A) (f : A → M S B) : M S (list B) :=
  match l with
  | [] => mret []
  | x :: l' => y ← f x; ys ← map_m l' f; mret (y :: ys)
  end.
Fixpoint fold_m {S A B} (f : B → A → M S B) (b : B) (l : list A) : M S B :=
  match l with
  | [] => mret b
  | x :: l' => b' ← f b x; fold_m f b' l'
  end.

(** The monad laws, pointwise in the state. *)
Lemma bind_ret_l {S A B} (a : A) (k : A → M S B) s : (mret a ≫= k) s = k a s.
Proof. done. Qed.
Lemma bind_assoc {S A B C} (m : M S A) (k : A → M S B) (h : B → M S C) s :
  ((m ≫= k) ≫= h) s = (m ≫= (λ a, k a ≫= h)) s.
Proof. unfold mbind, M_bind. destruct (m s) as [[a | e | p] s']; done. Qed.

Lemma bind_ret_r {S A} (m : M S A) s : (m ≫= mret) s = m s.
Proof. unfold mbind, M_bind. by destruct (m s) as [[] ?]. Qed.
Lemma fold_m_app {S A B} (f : B → A → M S B) b l1 l2 s :
  fold_m f b (l1 ++ l2) s = (fold_m f b l1 ≫= λ b, fold_m f b l2) s.
Proof.
  revert b s. induction l1 as [|x l1 IH]; intros b s; [done|]. simpl. unfold mbind, M_bind.
  destruct (f b x s) as [[b'|e|p] s']; [apply IH|done|done].
Qed.

(** * Simulation
    [sim abs m1 m2]: [m2] does on the image of a state under [abs] what [m1] does on the
    state: the same outcome, and the image of the state [m1] ends in. *)
Section sim.
Context {S V : Type} (abs : S → V).

Definition sim {A} (m1 : M S A) (m2 : M V A) : Prop :=
  ∀ s, m2 (abs s) = ((m1 s).1, abs (m1 s).2).

(** A run of the second copy is the image of a run of the first. *)
Lemma sim_run {A} (m1 : M S A) (m2 : M V A) s o v :
  sim m1 m2 → m2 (abs s) = (o, v) → ∃ s', m1 s = (o, s') ∧ abs s' = v.
Proof.
  intros Hs E. rewrite Hs in E. destruct (m1 s) as [r s']. simpl in E. exists s'.
  split; congruence.
Qed.
Lemma sim_ret {A} (a : A) : sim (mret a) (mret a).
Proof. done. Qed.
Lemma sim_throw {A} e : sim (throw e : M S A) (throw e).
Proof. done. Qed.
Lemma sim_panic {A} e : sim (go_panic e : M S A) (go_panic e).
Proof. done. Qed.
Lemma sim_outcome {A} (o : outcome A) : sim (of_outcome o) (of_outcome o).
Proof. done. Qed.
Lemma sim_fail_if b e : sim (fail_if b e) (fail_if b e).
Proof. by destruct b. Qed.
Lemma sim_panic_if b e : sim (panic_if b e) (panic_if b e).
Proof. by destruct b. Qed.
Lemma sim_deref {A} (o : option A) : sim (deref o) (deref o).
Proof. by destruct o. Qed.
Lemma sim_bind {A B} (m1 : M S A) m2 (k1 : A → M S B) k2 :
  sim m1 m2 → (∀ a, sim (k1 a) (k2 a)) → sim (m1 ≫= k1) (m2 ≫= k2).
Proof.
  intros Hm Hk s. unfold mbind, M_bind. rewrite Hm.
  destruct (m1 s) as [[a | e | p] s']; simpl; [apply Hk | done | done].
Qed.
Lemma sim_when b m1 m2 : sim m1 m2 → sim (when b m1) (when b m2).
Proof. by destruct b. Qed.
Lemma sim_for_each {A} (l : list A) f1 f2 :
  (∀ a, sim (f1 a) (f2 a)) → sim (for_each l f1) (for_each l f2).
Proof. intros Hf. induction l; simpl; [done|]. by apply sim_bind. Qed.
Lemma sim_map_m {A B} (l : list A) (f1 : A → M S B) f2 :
  (∀ a, sim (f1 a) (f2 a)) → sim (map_m l f1) (map_m l f2).
Proof.
  intros Hf. induction l; simpl; [done|]. apply sim_bind; [done|]. intros y.
  apply sim_bind; [done|]. by intros.
Qed.
Lemma sim_fold_m {A B} (f1 : B → A → M S B) f2 l :
  (∀ b a, sim (f1 b a) (f2 b a)) → ∀ b, sim (fold_m f1 b l) (fold_m f2 b l).
Proof. intros Hf. induction l; intros b; simpl; [done|]. by apply sim_bind. Qed.
End sim.

(** * Where a computation may change the state, and where it may fail *)
Section no_err.
Context {S : Type}.

(** No Go [error] is returned. *)
Definition no_err {A} (m : M S A) : Prop := ∀ s e, (m s).1 ≠ Err e.
Lemma no_err_ret {A} (a : A) : no_err (mret a).
Proof. done. Qed.
Lemma no_err_panic {A} e : no_err (go_panic e : M S A).
Proof. done. Qed.
Lemma no_err_panic_if b e : no_err (panic_if b e).
Proof. by destruct b. Qed.
Lemma no_err_deref {A} (o : option A) : no_err (deref o).
Proof. by destruct o. Qed.
Lemma no_err_bind {A B} (m : M S A) (k : A → M S B) :
  no_err m → (∀ a, no_err (k a)) → no_err (m ≫= k).
Proof.
  intros Hm Hk s e. unfold mbind, M_bind. pose proof (Hm s e) as E.
  destruct (m s) as [[a | e' | p] s']; simpl in *; [|congruence|done]. apply Hk.
Qed.
Lemma no_err_when b m : no_err m → no_err (when b m).
Proof. by destruct b. Qed.
Lemma no_err_for_each {A} (l : list A) (f : A → M S unit) :
  (∀ a, no_err (f a)) → no_err (for_each l f).
Proof. intros Hf. induction l; simpl; [done|]. by apply no_err_bind. Qed.
Lemma no_err_fold_m {A B} (f : B → A → M S B) l :
  (∀ b a, no_err (f b a)) → ∀ b, no_err (fold_m f b l).
Proof. intros Hf. induction l as [|x l IH]; [done|]. intros b. simpl. by apply no_err_bind. Qed.
Lemma no_err_map_m {A B} (l : list A) (f : A → M S B) :
  (∀ a, no_err (f a)) → no_err (map_m l f).
Proof.
  intros Hf. induction l as [|x l IH]; [done|]. simpl.
  apply no_err_bind; [done|]. intros y. apply no_err_bind; [done|]. by intros.
Qed.
End no_err.
Section effects.
Context {S V : Type} (abs : S → V).

(** The abstract state is never changed. *)
Definition read_only {A} (m : M S A) : Prop := ∀ s, abs (m s).2 = abs s.
(** A returned [error] leaves the abstract state as it was. *)
Definition err_pure {A} (m : M S A) : Prop :=
  ∀ s e s', m s = (Err e, s') → abs s' = abs s.

Lemma read_only_ret {A} (a : A) : read_only (mret a).
Proof. done. Qed.
Lemma read_only_throw {A} e : read_only (throw e : M S A).
Proof. done. Qed.
Lemma read_only_panic {A} e : read_only (go_panic e : M S A).
Proof. done. Qed.
Lemma read_only_outcome {A} (o : outcome A) : read_only (of_outcome o).
Proof. done. Qed.
Lemma read_only_fail_if b e : read_only (fail_if b e).
Proof. by destruct b. Qed.
Lemma read_only_panic_if b e : read_only (panic_if b e).
Proof. by destruct b. Qed.
Lemma read_only_deref {A} (o : option A) : read_only (deref o).
Proof. by destruct o. Qed.
Lemma read_only_bind {A B} (m : M S A) (k : A → M S B) :
  read_only m → (∀ a, read_only (k a)) → read_only (m ≫= k).
Proof.
  intros Hm Hk s. unfold mbind, M_bind. pose proof (Hm s) as E.
  destruct (m s) as [[a | e | p] s']; simpl in *; [|done|done]. by rewrite Hk.
Qed.
Lemma read_only_when b m : read_only m → read_only (when b m).
Proof. by destruct b. Qed.
Lemma read_only_map_m {A B} (l : list A) (f : A → M S B) :
  (∀ a, read_only (f a)) → read_only (map_m l f).
Proof.
  intros Hf. induction l as [|x l IH]; [done|]. simpl.
  apply read_only_bind; [done|]. intros y. apply read_only_bind; [done|]. by intros.
Qed.
Lemma read_only_fold_m {A B} (f : B → A → M S B) l :
  (∀ b a, read_only (f b a)) → ∀ b, read_only (fold_m f b l).
Proof.
  intros Hf. induction l as [|x l IH]; [done|]. intros b. simpl.
  by apply read_only_bind.
Qed.

Lemma err_pure_read_only {A} (m : M S A) : read_only m → err_pure m.
Proof. intros Hm s e s' E. pose proof (Hm s) as H. by rewrite E in H. Qed.
Lemma err_pure_no_err {A} (m : M S A) : no_err m → err_pure m.
Proof. intros Hm s e s' E. pose proof (Hm s e) as H. by rewrite E in H. Qed.
Lemma err_pure_bind_ro {A B} (m : M S A) (k : A → M S B) :
  read_only m → (∀ a, err_pure (k a)) → err_pure (m ≫= k).
Proof.
  intros Hm Hk s e s'. unfold mbind, M_bind. pose proof (Hm s) as E.
  destruct (m s) as [[a | e' | p] s1]; simpl in *; intros H; simplify_eq; [|done].
  rewrite <-E. by eapply Hk.
Qed.
Lemma err_pure_bind {A B} (m : M S A) (k : A → M S B) :
  err_pure m → (∀ a, no_err (k a)) → err_pure (m ≫= k).
Proof.
  intros Hm Hk s e s'. unfold mbind, M_bind. specialize (Hm s).
  destruct (m s) as [[a | e' | p] s1]; simpl in *; intros H; simplify_eq.
  - pose proof (Hk a s1 e) as N. by rewrite H in N.
  - by eapply Hm.
Qed.
(** Neither changes the abstract state nor returns an [error]. *)
Definition quiet {A} (m : M S A) : Prop := read_only m ∧ no_err m.
Lemma quiet_intro {A} (m : M S A) : read_only m → no_err m → quiet m.
Proof. by split. Qed.
Lemma quiet_read_only {A} (m : M S A) : quiet m → read_only m.
Proof. by intros []. Qed.
Lemma quiet_no_err {A} (m : M S A) : quiet m → no_err m.
Proof. by intros []. Qed.
Lemma quiet_bind {A B} (m : M S A) (k : A → M S B) :
  quiet m → (∀ a, quiet (k a)) → quiet (m ≫= k).
Proof. intros [? ?] Hk. split; [apply read_only_bind|apply no_err_bind]; try done; apply Hk. Qed.
Lemma quiet_when b m : quiet m → quiet (when b m).
Proof. by destruct b. Qed.
Lemma quiet_fold_m {A B} (f : B → A → M S B) l :
  (∀ b a, quiet (f b a)) → ∀ b, quiet (fold_m f b l).
Proof. intros Hf b. split; [apply read_only_fold_m|apply no_err_fold_m]; intros; apply Hf. Qed.
End effects.

Create HintDb effects.
#[export] Hint Resolve read_only_ret read_only_throw read_only_panic read_only_outcome
  read_only_fail_if read_only_panic_if read_only_deref
  no_err_ret no_err_panic no_err_panic_if no_err_deref : effects.

Create HintDb sim.
#[export] Hint Resolve sim_ret sim_throw sim_panic sim_outcome sim_fail_if sim_panic_if
  sim_deref : sim.
(** Walk two copies of the same code; the leaves are solved from the hint database. *)
Ltac sim_step :=
  lazymatch goal with
  | |- sim _ (mbind _ _) (mbind _ _) => apply sim_bind; [|intros ?]
  | |- sim _ (when _ _) (when _ _) => apply sim_when
  | |- sim _ (for_each _ _) (for_each _ _) => apply sim_for_each; intros ?
  | |- sim _ (map_m _ _) (map_m _ _) => apply sim_map_m; intros ?
  | |- sim _ (fold_m _ _ _) (fold_m _ _ _) => apply sim_fold_m; intros ? ?
  | |- sim _ (if ?b then _ else _) (if ?b then _ else _) => destruct b
  | |- sim _ (match ?x with _ => _ end) (match ?x with _ => _ end) => destruct x
  | |- sim _ (let '_ := ?x in _) (let '_ := ?x in _) => destruct x
  | |- _ => solve [eauto 3 with sim]
  end.
Ltac sim_solve := intros; repeat (cbv beta zeta; sim_step).

(** Symbolic execution of a concrete run: [run_bind H] pushes the equation [H] of the first
    action through the bind. *)
Lemma bind_run {S A B} (m : M S A) (k : A → M S B) s a s' :
  m s = (Ret a, s') → (m ≫= k) s = k a s'.
Proof. unfold mbind, M_bind. by intros ->. Qed.
Lemma bind_ret_inv {S A B} (m : M S A) (k : A → M S B) s b s' :
  (m ≫= k) s = (Ret b, s') → ∃ a s1, m s = (Ret a, s1) ∧ k a s1 = (Ret b, s').
Proof. unfold mbind, M_bind. destruct (m s) as [[a|e|p] s1]; intros E; [by exists a, s1|done..]. Qed.
Lemma bind_run_err {S A B} (m : M S A) (k : A → M S B) s e s' :
  m s = (Err e, s') → (m ≫= k) s = (Err e, s').
Proof. unfold mbind, M_bind. by intros ->. Qed.
Lemma bind_run_panic {S A B} (m : M S A) (k : A → M S B) s e s' :
  m s = (Panic e, s') → (m ≫= k) s = (Panic e, s').
Proof. unfold mbind, M_bind. by intros ->. Qed.
Lemma fail_if_false {S} (s : S) b e : b = false → fail_if b e s = (Ret tt, s).
Proof. by intros ->. Qed.
Lemma fail_if_true {S} (s : S) b e : b = true → fail_if b e s = (Err e, s).
Proof. by intros ->. Qed.
Lemma panic_if_false {S} (s : S) b e : b = false → panic_if b e s = (Ret tt, s).
Proof. by intros ->. Qed.
Lemma panic_if_true {S} (s : S) b e : b = true → panic_if b e s = (Panic e, s).
Proof. by intros ->. Qed.

(** * Lists: removal by swapping in the last element *)
Definition swap_remove {A} (i : nat) (l : list A) : list A :=
  match last l with
  | Some x => take (pred (length l)) (<[i := x]> l)
  | None => []
  end.

Lemma swap_remove_length {A} i (l : list A) : length (swap_remove i l) = pred (length l).
Proof.
  unfold swap_remove. destruct (last l) eqn:E.
  - rewrite length_take, length_insert. lia.
  - apply last_None in E. by subst.
Qed.
Lemma swap_remove_lookup {A} i (l : list A) j :
  (j < pred (length l))%nat →
  swap_remove i l !! j = if decide (j = i) then last l else l !! j.
Proof.
  intros Hj. unfold swap_remove. destruct (last l) as [x|] eqn:E.
  - rewrite lookup_take_lt by done. case_decide as D; subst.
    + apply list_lookup_insert_eq. lia.
    + by apply list_lookup_insert_ne.
  - apply last_None in E. subst. simpl in Hj. lia.
Qed.
Lemma swap_remove_last {A} (l : list A) x : swap_remove (length l) (l ++ [x]) = l.
Proof.
  unfold swap_remove. rewrite last_snoc, length_app. simpl.
  rewrite Nat.add_1_r. simpl. rewrite insert_app_r_alt, Nat.sub_diag by lia. simpl.
  by rewrite take_app_length.
Qed.
Lemma swap_remove_perm {A} i (l : list A) x :
  l !! i = Some x → x :: swap_remove i l ≡ₚ l.
Proof.
  intros Hi. destruct l as [|y k _] using rev_ind; [done|].
  apply lookup_app_Some in Hi as [Hi|[Hi Hx]].
  - unfold swap_remove. rewrite last_snoc, length_app. simpl. rewrite Nat.add_1_r. simpl.
    pose proof (lookup_lt_Some _ _ _ Hi). rewrite insert_app_l by done.
    replace (length k) with (length (<[i:=y]> k)) by apply length_insert.
    rewrite take_app_length.
    rewrite insert_take_drop by done.
    rewrite <-(take_drop_middle k i x Hi) at 3. solve_Permutation.
  - assert (i = length k) as -> by (apply list_lookup_singleton_Some in Hx; lia).
    rewrite Nat.sub_diag in Hx. simpl in Hx. injection Hx as ->.
    rewrite swap_remove_last. solve_Permutation.
Qed.
Lemma swap_remove_NoDup {A} i (l : list A) x :
  l !! i = Some x → NoDup l → NoDup (swap_remove i l) ∧ x ∉ swap_remove i l.
Proof.
  intros Hi Hn. rewrite <-(swap_remove_perm i l x Hi) in Hn.
  apply NoDup_cons in Hn. tauto.
Qed.
Lemma swap_remove_elem {A} i (l : list A) x y :
  l !! i = Some x → NoDup l → y ∈ swap_remove i l ↔ y ∈ l ∧ y ≠ x.
Proof.
  intros Hi Hn. pose proof (swap_remove_NoDup i l x Hi Hn) as [_ Hx].
  assert (y ∈ l ↔ y ∈ x :: swap_remove i l) as -> by (by rewrite (swap_remove_perm i l x Hi)).
  rewrite elem_of_cons. split; [|tauto]. intros Hy. split; [tauto|]. by intros ->.
Qed.
Lemma swap_remove_fmap {A B} (f : A → B) i l :
  swap_remove i (f <$> l) = f <$> swap_remove i l.
Proof.
  unfold swap_remove. rewrite fmap_last. destruct (last l); simpl; [|done].
  by rewrite length_fmap, <-list_fmap_insert, fmap_take.
Qed.

(** * Sums over finite maps *)
Section sums.
Context {K A : Type} `{Countable K}.
Implicit Types (f : K → A → Z) (m : gmap K A).

Definition sum_map f m : Z := map_fold (λ k x acc, f k x + acc) 0 m.

Lemma sum_map_empty f : sum_map f ∅ = 0.
Proof. apply map_fold_empty. Qed.
Lemma sum_map_insert f m k x : m !! k = None → sum_map f (<[k := x]> m) = f k x + sum_map f m.
Proof. intros Hk. unfold sum_map. apply (map_fold_insert_L (λ k x acc, f k x + acc)); [intros; lia|done]. Qed.
Lemma sum_map_delete f m k x : m !! k = Some x → sum_map f (delete k m) = sum_map f m - f k x.
Proof.
  intros Hk. rewrite <-(insert_delete_id m k x Hk) at 2.
  rewrite sum_map_insert by apply lookup_delete_eq. lia.
Qed.
Lemma sum_map_update f m k x y :
  m !! k = Some x → sum_map f (<[k := y]> m) = sum_map f m - f k x + f k y.
Proof.
  intros Hk. rewrite <-insert_delete_eq, sum_map_insert by apply lookup_delete_eq.
  rewrite (sum_map_delete f m k x Hk). lia.
Qed.
Lemma sum_map_ext f g m : (∀ k x, m !! k = Some x → f k x = g k x) → sum_map f m = sum_map g m.
Proof.
  revert f g. induction m as [|k x m Hk IH] using map_ind; intros f g E; [by rewrite !sum_map_empty|].
  rewrite !sum_map_insert by done. rewrite (E k x) by apply lookup_insert_eq.
  f_equal. apply IH. intros k' x' Hk'. apply E. rewrite lookup_insert_ne; [done|]. congruence.
Qed.
Lemma sum_map_nonneg f m : (∀ k x, m !! k = Some x → 0 <= f k x) → 0 <= sum_map f m.
Proof.
  induction m as [|k x m Hk IH] using map_ind; intros Hf; [by rewrite sum_map_empty|].
  rewrite sum_map_insert by done. assert (0 <= f k x) by (apply Hf, lookup_insert_eq).
  assert (0 <= sum_map f m); [|lia]. apply IH. intros k' x' Hk'. apply Hf.
  rewrite lookup_insert_ne; [done|]. congruence.
Qed.
(** One term of a sum of non-negative terms. *)
Lemma sum_map_le f m k x :
  (∀ k x, m !! k = Some x → 0 <= f k x) → m !! k = Some x → f k x <= sum_map f m.
Proof.
  intros Hf Hk. pose proof (sum_map_delete f m k x Hk) as E.
  assert (0 <= sum_map f (delete k m)); [|lia]. apply sum_map_nonneg.
  intros k' x' [_ Hk']%lookup_delete_Some. by apply Hf.
Qed.
(** The term of a key that may be absent. *)
Lemma sum_map_set f m k y :
  sum_map f (<[k := y]> m) =
    sum_map f m - match m !! k with Some x => f k x | None => 0 end + f k y.
Proof.
  destruct (m !! k) as [x|] eqn:E; [by apply sum_map_update|]. rewrite sum_map_insert by done. lia.
Qed.
End sums.

(** * Refinement up to a relation
    [refines R m1 m2]: from related states, [m1] has the outcome of [m2] and ends in a related
    state, unless [m2] leaves the range its model is defined on ([oob], a panic that no code
    raises). *)
Definition oob : string := "(out of the modelled range)".
Section refines.
Context {S1 S2 : Type} (R : S1 → S2 → Prop).

Definition refines {A} (m1 : M S1 A) (m2 : M S2 A) : Prop :=
  ∀ s1 s2, R s1 s2 → (m2 s2).1 ≠ Panic oob →
  (m1 s1).1 = (m2 s2).1 ∧ R (m1 s1).2 (m2 s2).2.

Lemma refines_ret {A} (a : A) : refines (mret a) (mret a).
Proof. done. Qed.
Lemma refines_throw {A} e : refines (throw e : M S1 A) (throw e).
Proof. done. Qed.
Lemma refines_panic {A} e : refines (go_panic e : M S1 A) (go_panic e).
Proof. done. Qed.
Lemma refines_outcome {A} (o : outcome A) : refines (of_outcome o) (of_outcome o).
Proof. done. Qed.
Lemma refines_fail_if b e : refines (fail_if b e) (fail_if b e).
Proof. by destruct b. Qed.
Lemma refines_panic_if b e : refines (panic_if b e) (panic_if b e).
Proof. by destruct b. Qed.
Lemma refines_deref {A} (o : option A) : refines (deref o) (deref o).
Proof. by destruct o. Qed.
Lemma refines_bind {A B} (m1 : M S1 A) m2 (k1 : A → M S1 B) k2 :
  refines m1 m2 → (∀ a, refines (k1 a) (k2 a)) → refines (m1 ≫= k1) (m2 ≫= k2).
Proof.
  intros Hm Hk s1 s2 Hs. unfold mbind, M_bind. specialize (Hm s1 s2 Hs).
  destruct (m2 s2) as [o2 s2'], (m1 s1) as [o1 s1']. simpl in *.
  destruct o2 as [a|e|p]; simpl; intros Ho.
  - destruct Hm as [-> HR]; [done|]. by apply Hk.
  - by destruct Hm as [-> HR].
  - destruct Hm as [-> HR]; [|done]. intros [= ->]. done.
Qed.
Lemma refines_when b m1 m2 : refines m1 m2 → refines (when b m1) (when b m2).
Proof. by destruct b. Qed.
Lemma refines_for_each {A} (l : list A) f1 f2 :
  (∀ a, refines (f1 a) (f2 a)) → refines (for_each l f1) (for_each l f2).
Proof. intros Hf. induction l; simpl; [done|]. by apply refines_bind. Qed.
Lemma refines_map_m {A B} (l : list A) (f1 : A → M S1 B) f2 :
  (∀ a, refines (f1 a) (f2 a)) → refines (map_m l f1) (map_m l f2).
Proof.
  intros Hf. induction l; simpl; [done|]. apply refines_bind; [done|]. intros y.
  apply refines_bind; [done|]. by intros.
Qed.
Lemma refines_fold_m {A B} (f1 : B → A → M S1 B) f2 l :
  (∀ b a, refines (f1 b a) (f2 b a)) → ∀ b, refines (fold_m f1 b l) (fold_m f2 b l).
Proof. intros Hf. induction l; intros b; simpl; [done|]. by apply refines_bind. Qed.
(** A guard of the second copy alone. *)
Lemma refines_guard {A} (m1 : M S1 A) b m2 :
  (b = false → refines m1 m2) → refines m1 (panic_if b oob ;; m2).
Proof. intros Hm s1 s2 Hs. destruct b; [done|]. by apply Hm. Qed.
End refines.

Lemma sim_refines {S V A} (abs : S → V) (m1 : M S A) m2 :
  sim abs m1 m2 → refines (λ s v, abs s = v) m1 m2.
Proof. intros Hm s ? <- _. by rewrite Hm. Qed.
Lemma refines_comp {S1 S2 S3 A} (R1 : S1 → S2 → Prop) (R2 : S2 → S3 → Prop)
    (m1 : M S1 A) m2 m3 :
  (∀ s1 s2, R1 s1 s2 → (m1 s1).1 = (m2 s2).1 ∧ R1 (m1 s1).2 (m2 s2).2) → refines R2 m2 m3 →
  refines (λ s1 s3, ∃ s2, R1 s1 s2 ∧ R2 s2 s3) m1 m3.
Proof.
  intros H1 H2 s1 s3 (s2 & HR1 & HR2) Ho. destruct (H1 s1 s2 HR1) as [-> ?].
  destruct (H2 s2 s3 HR2 Ho) as [-> ?]. split; [done|]. by exists (m2 s2).2.
Qed.

Create HintDb refines.
#[export] Hint Resolve refines_ret refines_throw refines_panic refines_outcome refines_fail_if
  refines_panic_if refines_deref : refines.
Ltac refines_step :=
  lazymatch goal with
  | |- refines _ (mbind _ _) (mbind _ _) => apply refines_bind; [|intros ?]
  | |- refines _ (when _ _) (when _ _) => apply refines_when
  | |- refines _ (for_each _ _) (for_each _ _) => apply refines_for_each; intros ?
  | |- refines _ (map_m _ _) (map_m _ _) => apply refines_map_m; intros ?
  | |- refines _ (fold_m _ _ _) (fold_m _ _ _) => apply refines_fold_m; intros ? ?
  | |- refines _ (if ?b then _ else _) (if ?b then _ else _) => destruct b
  | |- refines _ (match ?x with _ => _ end) (match ?x with _ => _ end) => destruct x
  | |- refines _ (let '_ := ?x in _) (let '_ := ?x in _) => destruct x
  | |- _ => solve [eauto 3 with refines]
  end.
Ltac refines_solve := intros; repeat (cbv beta zeta; refines_step).

(** * Partial correctness
    [wp m Q E s]: a run of [m] from [s] that returns satisfies [Q], one that returns an error
    satisfies [E]; nothing is claimed of a panic, which stops the node. *)
Section wp.
Context {S : Type}.

Definition wp {A} (m : M S A) (Q : A → S → Prop) (E : string → S → Prop) (s : S) : Prop :=
  match m s with
  | (Ret a, s') => Q a s'
  | (Err e, s') => E e s'
  | (Panic _, _) => True
  end.

Lemma wp_mono {A} (m : M S A) (Q Q' : A → S → Prop) E E' s :
  wp m Q E s → (∀ a s', Q a s' → Q' a s') → (∀ e s', E e s' → E' e s') → wp m Q' E' s.
Proof. unfold wp. destruct (m s) as [[] ?]; auto. Qed.
Lemma wp_ret {A} (a : A) (Q : A → S → Prop) E s : Q a s → wp (mret a) Q E s.
Proof. done. Qed.
Lemma wp_throw {A} e (Q : A → S → Prop) E s : E e s → wp (throw e) Q E s.
Proof. done. Qed.
Lemma wp_panic {A} p (Q : A → S → Prop) E s : wp (go_panic p) Q E s.
Proof. done. Qed.
Lemma wp_outcome {A} (o : outcome A) (Q : A → S → Prop) E s :
  (∀ a, o = Ret a → Q a s) → (∀ e, o = Err e → E e s) → wp (of_outcome o) Q E s.
Proof. unfold wp, of_outcome. destruct o; auto. Qed.
Lemma wp_fail_if b e (Q : unit → S → Prop) E s :
  (b = true → E e s) → (b = false → Q tt s) → wp (fail_if b e) Q E s.
Proof. intros H1 H2. destruct b; [by apply H1|by apply H2]. Qed.
Lemma wp_panic_if b e (Q : unit → S → Prop) E s :
  (b = false → Q tt s) → wp (panic_if b e) Q E s.
Proof. intros H1. destruct b; [done|by apply H1]. Qed.
Lemma wp_deref {A} (o : option A) (Q : A → S → Prop) E s :
  (∀ a, o = Some a → Q a s) → wp (deref o) Q E s.
Proof. intros H1. destruct o; [by apply H1|done]. Qed.
Lemma wp_when b m (Q : unit → S → Prop) E s :
  (b = true → wp m Q E s) → (b = false → Q tt s) → wp (when b m) Q E s.
Proof. intros H1 H2. destruct b; [by apply H1|by apply H2]. Qed.
Lemma wp_bind {A B} (m : M S A) (k : A → M S B) Q E s :
  wp m (λ a, wp (k a) Q E) E s → wp (m ≫= k) Q E s.
Proof. unfold wp, mbind, M_bind. by destruct (m s) as [[] ?]. Qed.
(** An invariant of a loop. *)
Lemma wp_for_each {A} (I : S → Prop) (l : list A) f E s :
  I s → (∀ a s, a ∈ l → I s → wp (f a) (λ _, I) E s) → wp (for_each l f) (λ _, I) E s.
Proof.
  intros Hs Hf. revert s Hs. induction l as [|x l IH]; intros s Hs; [done|]. simpl.
  apply wp_bind. eapply wp_mono; [apply Hf; [left|done]| |done]. intros u s' Hs'.
  apply IH; [|done]. intros a s'' Ha. apply Hf. by right.
Qed.
Lemma wp_fold_m {A B} (I : B → S → Prop) (f : B → A → M S B) l E b s :
  I b s → (∀ b a s, a ∈ l → I b s → wp (f b a) I E s) → wp (fold_m f b l) I E s.
Proof.
  revert b s. induction l as [|x l IH]; intros b s Hs Hf; [done|]. simpl.
  apply wp_bind. eapply wp_mono; [apply Hf; [left|done]| |done]. intros b' s' Hs'.
  apply IH; [done|]. intros b'' a s'' Ha. apply Hf. by right.
Qed.
(** A step that does not change the abstraction of the state. *)
Lemma wp_read_only {V A} (abs : S → V) (m : M S A) (Q : A → S → Prop) (E : string → S → Prop) s :
  read_only abs m → (∀ a s', abs s' = abs s → Q a s') → (∀ e s', abs s' = abs s → E e s') →
  wp m Q E s.
Proof. intros Hm HQ HE. unfold wp. specialize (Hm s). destruct (m s) as [[] ?]; auto. Qed.
Lemma wp_no_err {A} (m : M S A) Q E E' s : no_err m → wp m Q E s → wp m Q E' s.
Proof. intros Hm. unfold wp. specialize (Hm s). destruct (m s) as [[|e|] ?]; [done| |done]. by destruct (Hm e). Qed.
End wp.

Ltac ro_step :=
  lazymatch goal with
  | |- read_only _ (mbind _ _) => apply read_only_bind; [|intros ?]
  | |- read_only _ (when _ _) => apply read_only_when
  | |- read_only _ (map_m _ _) => apply read_only_map_m; intros ?
  | |- read_only _ (fold_m _ _ _) => apply read_only_fold_m; intros ? ?
  | |- read_only _ (if ?b then _ else _) => destruct b
  | |- read_only _ (match ?x with _ => _ end) => destruct x
  | |- read_only _ (let '_ := ?x in _) => destruct x
  | |- _ => solve [eauto 3 with effects]
  end.
#[export] Hint Resolve quiet_read_only quiet_no_err : effects.
Ltac no_err_step :=
  lazymatch goal with
  | |- no_err (mbind _ _) => apply no_err_bind; [|intros ?]
  | |- no_err (when _ _) => apply no_err_when
  | |- no_err (for_each _ _) => apply no_err_for_each; intros ?
  | |- no_err (fold_m _ _ _) => apply no_err_fold_m; intros ? ?
  | |- no_err (map_m _ _) => apply no_err_map_m; intros ?
  | |- no_err (if ?b then _ else _) => destruct b
  | |- no_err (match ?x with _ => _ end) => destruct x
  | |- no_err (let '_ := ?x in _) => destruct x
  | |- _ => solve [eauto 3 with effects]
  end.
Ltac no_err_solve := intros; repeat (cbv beta zeta; no_err_step).
Ltac quiet_step :=
  lazymatch goal with
  | |- quiet _ (mbind _ _) => apply quiet_bind; [|intros ?]
  | |- quiet _ (when _ _) => apply quiet_when
  | |- quiet _ (fold_m _ _ _) => apply quiet_fold_m; intros ? ?
  | |- quiet _ (if ?b then _ else _) => destruct b
  | |- quiet _ (match ?x with _ => _ end) => destruct x
  | |- quiet _ (let '_ := ?x in _) => destruct x
  | |- _ => solve [eauto 3 with effects | apply quiet_intro; eauto 2 with effects]
  end.
Ltac quiet_solve := intros; repeat (cbv beta zeta; quiet_step).
Ltac ro_solve := intros; repeat (cbv beta zeta; ro_step).

(** * Steps within a relation
    [moves R P m]: from any state, [m] returns or fails in a state related by [R] to the first
    one, or panics with a message in [P]. *)
Section moves.
Context {S : Type} (R : relation S) `{!PreOrder R} (P : string → Prop).
Definition moves {A} (m : M S A) : Prop :=
  ∀ s, match m s with (Panic p, _) => P p | (_, s') => R s s' end.

Lemma moves_ret {A} (a : A) : moves (mret a).
Proof. intros s. simpl. reflexivity. Qed.
Lemma moves_throw {A} e : moves (throw e : M S A).
Proof. intros s. simpl. reflexivity. Qed.
Lemma moves_panic {A} p : P p → moves (go_panic p : M S A).
Proof. by intros Hp s. Qed.
Lemma moves_outcome {A} (o : outcome A) : (∀ p, o = Panic p → P p) → moves (of_outcome o).
Proof. intros Ho s. unfold of_outcome. destruct o; [reflexivity..|by apply Ho]. Qed.
Lemma moves_fail_if b e : moves (fail_if b e).
Proof. destruct b; [apply moves_throw|apply moves_ret]. Qed.
Lemma moves_panic_if b p : P p → moves (panic_if b p).
Proof. intros Hp. destruct b; [by apply moves_panic|apply moves_ret]. Qed.
Lemma moves_deref {A} (o : option A) :
  P "invalid memory address or nil pointer dereference" → moves (deref o).
Proof. intros Hp. destruct o; [apply moves_ret|by apply moves_panic]. Qed.
Lemma moves_bind {A B} (m : M S A) (k : A → M S B) :
  moves m → (∀ a, moves (k a)) → moves (m ≫= k).
Proof.
  intros Hm Hk s. unfold mbind, M_bind. specialize (Hm s).
  destruct (m s) as [[a|e|p] s1]; [|done|done]. specialize (Hk a s1).
  destruct (k a s1) as [[b|e|p] s2]; [by etrans..|done].
Qed.
Lemma moves_when b m : moves m → moves (when b m).
Proof. intros Hm. destruct b; [done|apply moves_ret]. Qed.
Lemma moves_for_each {A} (l : list A) (f : A → M S unit) :
  (∀ a, moves (f a)) → moves (for_each l f).
Proof.
  intros Hf. induction l as [|x l IH]; [apply moves_ret|]. simpl. by apply moves_bind.
Qed.
End moves.
Ltac moves_step :=
  lazymatch goal with
  | |- moves _ _ (mbind _ _) => apply moves_bind; [try apply _| |intros ?]
  | |- moves _ _ (when _ _) => apply moves_when; [try apply _|]
  | |- moves _ _ (for_each _ _) => apply moves_for_each; [try apply _|intros ?]
  | |- moves _ _ (if ?b then _ else _) => destruct b
  | |- moves _ _ (match ?x with _ => _ end) => destruct x
  | |- moves _ _ (let '_ := ?x in _) => destruct x
  | |- moves _ _ (mret _) => apply moves_ret; apply _
  | |- moves _ _ (throw _) => apply moves_throw; apply _
  | |- moves _ _ (fail_if _ _) => apply moves_fail_if; apply _
  | |- moves _ _ (panic_if _ _) => apply moves_panic_if; [try apply _|done]
  | |- moves _ _ (deref _) => apply moves_deref; [try apply _|done]
  | |- moves _ _ (go_panic _) => apply moves_panic; [try apply _|done]
  | |- _ => solve [eauto 3 with moves]
  end.
Create HintDb moves.
Ltac moves_solve := intros; repeat (cbv beta zeta; moves_step).

(** * Outcomes of a step from a given state
    [wpp P m Q E s]: from [s], [m] returns a value and a state in [Q], fails in a state in [E], or
    panics with a message in [P]. *)
Section wpp.
Context {S : Type} (P : string → Prop).
Definition wpp {A} (m : M S A) (Q : A → S → Prop) (E : S → Prop) (s : S) : Prop :=
  match m s with
  | (Ret a, s') => Q a s'
  | (Err _, s') => E s'
  | (Panic p, _) => P p
  end.
Lemma wpp_bind {A B} (m : M S A) (k : A → M S B) Q E s :
  wpp m (λ a, wpp (k a) Q E) E s → wpp (m ≫= k) Q E s.
Proof. unfold wpp, mbind, M_bind. by destruct (m s) as [[] ?]. Qed.
Lemma wpp_mono {A} (m : M S A) (Q Q' : A → S → Prop) (E E' : S → Prop) s :
  wpp m Q E s → (∀ a s', Q a s' → Q' a s') → (∀ s', E s' → E' s') → wpp m Q' E' s.
Proof. unfold wpp. destruct (m s) as [[] ?]; auto. Qed.
Lemma wpp_ret {A} (a : A) (Q : A → S → Prop) E s : Q a s → wpp (mret a) Q E s.
Proof. done. Qed.
Lemma wpp_throw {A} x (Q : A → S → Prop) (E : S → Prop) s : E s → wpp (throw x) Q E s.
Proof. done. Qed.
(** A step known to stay within a relation. *)
Lemma wpp_moves (R : relation S) {A} (m : M S A) (Q : A → S → Prop) (E : S → Prop) s :
  moves R P m → (∀ a s', R s s' → Q a s') → (∀ s', R s s' → E s') → wpp m Q E s.
Proof. intros Hm HQ HE. specialize (Hm s). unfold wpp. destruct (m s) as [[] ?]; auto. Qed.
Lemma wpp_moves_any {A} (m : M S A) (Q : A → S → Prop) (E : S → Prop) s :
  moves (λ _ _, True) P m → (∀ a s', Q a s') → (∀ s', E s') → wpp m Q E s.
Proof. intros Hm HQ HE. by eapply wpp_moves. Qed.
End wpp.
