(* ===== verification/Codec.v ===== *)
(** Fixed-width and compact integer codecs: [ebla/util/bin], the little-endian helpers
    of [storage/iterable_map.go] and [storage/ids_imap.go], and [big.Int.Bytes]. *)
From S2P Require Import Prelude.

(** * Reference digits *)
Fixpoint le_enc (n : nat) (x : Z) : bytes :=
  match n with
  | O => []
  | S n => x mod 256 :: le_enc n (x / 256)
  end.
Fixpoint le_dec (l : bytes) : Z :=
  match l with
  | [] => 0
  | b :: l => b + 256 * le_dec l
  end.

(** [big.Int.SetBytes] / [uint256.Int.SetBytes]: a big-endian natural. *)
Definition be_val (l : bytes) : Z := foldl (λ a b, 256 * a + b) 0 l.
(** [big.Int.Bytes] / [uint256.Int.Bytes]: the big-endian bytes of the absolute value,
    without leading zeros. *)
Fixpoint be_digits (fuel : nat) (x : Z) (acc : bytes) : bytes :=
  match fuel with
  | O => acc
  | S fuel => if x =? 0 then acc else be_digits fuel (x / 256) (x mod 256 :: acc)
  end.
Definition big_Bytes (x : Z) : bytes :=
  be_digits (S (Z.to_nat (Z.log2 (Z.abs x)))) (Z.abs x) [].

(** * Little-endian words of the iterable maps *)
Definition index_panic : string := "runtime error: index out of range".

Definition uint32ToBytes (val : Z) : bytes :=
  map (λ i, Z.land (Z.shiftr val (8 * i)) 0xff) [0; 1; 2; 3].
Definition bytesToUint32 (val : bytes) : outcome Z :=
  match val with
  | b0 :: b1 :: b2 :: b3 :: _ =>
      Ret (Z.lor (Z.lor (Z.lor (Z.lor 0 (Z.shiftl b0 0)) (Z.shiftl b1 8))
             (Z.shiftl b2 16)) (Z.shiftl b3 24))
  | _ => Panic index_panic
  end.
Definition Uint64ToBytes (val : Z) : bytes :=
  map (λ i, Z.land (Z.shiftr val (8 * i)) 0xff) [0; 1; 2; 3; 4; 5; 6; 7].
Definition BytesToUint64 (val : bytes) : outcome Z :=
  match val with
  | b0 :: b1 :: b2 :: b3 :: b4 :: b5 :: b6 :: b7 :: _ =>
      Ret (Z.lor (Z.lor (Z.lor (Z.lor (Z.lor (Z.lor (Z.lor (Z.lor 0 (Z.shiftl b0 0))
        (Z.shiftl b1 8)) (Z.shiftl b2 16)) (Z.shiftl b3 24)) (Z.shiftl b4 32))
        (Z.shiftl b5 40)) (Z.shiftl b6 48)) (Z.shiftl b7 56))
  | _ => Panic index_panic
  end.

(** * Big-endian words of [ebla/util/bin] *)
Definition ENC_b_endian_64 (v : Z) : bytes :=
  map (λ s, u8 (Z.shiftr v s)) [56; 48; 40; 32; 24; 16; 8; 0].
Definition DEC_b_endian_64 (b : bytes) : outcome Z :=
  match b with
  | [b0; b1; b2; b3; b4; b5; b6; b7] =>
      Ret (Z.lor (Z.lor (Z.lor (Z.lor (Z.lor (Z.lor (Z.lor (Z.shiftl b0 56)
        (Z.shiftl b1 48)) (Z.shiftl b2 40)) (Z.shiftl b3 32)) (Z.shiftl b4 24))
        (Z.shiftl b5 16)) (Z.shiftl b6 8)) b7)
  | _ => Panic "invalid uint64 length"
  end.
Definition ENC_b_endian_compact_64 (i : Z) : bytes :=
  if i <? Z.shiftl 1 8 then map (λ s, u8 (Z.shiftr i s)) [0]
  else if i <? Z.shiftl 1 16 then map (λ s, u8 (Z.shiftr i s)) [8; 0]
  else if i <? Z.shiftl 1 24 then map (λ s, u8 (Z.shiftr i s)) [16; 8; 0]
  else if i <? Z.shiftl 1 32 then map (λ s, u8 (Z.shiftr i s)) [24; 16; 8; 0]
  else if i <? Z.shiftl 1 40 then map (λ s, u8 (Z.shiftr i s)) [32; 24; 16; 8; 0]
  else if i <? Z.shiftl 1 48 then map (λ s, u8 (Z.shiftr i s)) [40; 32; 24; 16; 8; 0]
  else if i <? Z.shiftl 1 56 then map (λ s, u8 (Z.shiftr i s)) [48; 40; 32; 24; 16; 8; 0]
  else map (λ s, u8 (Z.shiftr i s)) [56; 48; 40; 32; 24; 16; 8; 0].
Definition ENC_b_endian_compact_64_1 (i : Z) : bytes := ENC_b_endian_compact_64 i.
Definition DEC_b_endian_compact_64 (b : bytes) : outcome Z :=
  match b with
  | [] => Ret 0
  | [b0] => Ret b0
  | [b0; b1] => Ret (Z.lor (Z.shiftl b0 8) b1)
  | [b0; b1; b2] => Ret (Z.lor (Z.lor (Z.shiftl b0 16) (Z.shiftl b1 8)) b2)
  | [b0; b1; b2; b3] =>
      Ret (Z.lor (Z.lor (Z.lor (Z.shiftl b0 24) (Z.shiftl b1 16)) (Z.shiftl b2 8)) b3)
  | [b0; b1; b2; b3; b4] =>
      Ret (Z.lor (Z.lor (Z.lor (Z.lor (Z.shiftl b0 32) (Z.shiftl b1 24)) (Z.shiftl b2 16))
        (Z.shiftl b3 8)) b4)
  | [b0; b1; b2; b3; b4; b5] =>
      Ret (Z.lor (Z.lor (Z.lor (Z.lor (Z.lor (Z.shiftl b0 40) (Z.shiftl b1 32))
        (Z.shiftl b2 24)) (Z.shiftl b3 16)) (Z.shiftl b4 8)) b5)
  | [b0; b1; b2; b3; b4; b5; b6] =>
      Ret (Z.lor (Z.lor (Z.lor (Z.lor (Z.lor (Z.lor (Z.shiftl b0 48) (Z.shiftl b1 40))
        (Z.shiftl b2 32)) (Z.shiftl b3 24)) (Z.shiftl b4 16)) (Z.shiftl b5 8)) b6)
  | [b0; b1; b2; b3; b4; b5; b6; b7] => DEC_b_endian_64 b
  | _ => Panic "impossible"
  end.
Definition SizeInBytes (i : Z) : Z :=
  if i <? Z.shiftl 1 8 then 1
  else if i <? Z.shiftl 1 16 then 2
  else if i <? Z.shiftl 1 24 then 3
  else if i <? Z.shiftl 1 32 then 4
  else if i <? Z.shiftl 1 40 then 5
  else if i <? Z.shiftl 1 48 then 6
  else if i <? Z.shiftl 1 56 then 7
  else 8.

(** [BlockToBytes] of the DPoS contract. *)
Definition BlockToBytes (number : Z) : bytes := big_Bytes number.

(** * Digits *)
Lemma le_dec_enc n x : le_dec (le_enc n x) = x mod 256 ^ Z.of_nat n.
Proof.
  revert x. induction n as [|n IH]; intros x; [by rewrite Z.mod_1_r|].
  cbn [le_enc le_dec]. rewrite IH, Nat2Z.inj_succ, Z.pow_succ_r by lia.
  rewrite Z.rem_mul_r by lia. done.
Qed.
Lemma length_le_enc n x : length (le_enc n x) = n.
Proof. revert x. induction n; intros; simpl; auto. Qed.
Lemma le_enc_dec l : is_bytes l → le_enc (length l) (le_dec l) = l.
Proof.
  induction 1 as [|b l Hb _ IH]; [done|]. cbn [length le_enc le_dec].
  destruct Hb. rewrite Z.add_comm, Z.mul_comm.
  rewrite Z.div_add_l, Z.add_comm, Z.mod_add, Z.mod_small by lia.
  by rewrite Z.div_small, Z.add_0_r, IH by lia.
Qed.
Lemma le_enc_bytes n x : is_bytes (le_enc n x).
Proof.
  revert x. induction n as [|n IH]; intros x; [constructor|].
  constructor; [|apply IH]. unfold is_byte. pose proof (Z.mod_pos_bound x 256). lia.
Qed.
Lemma be_val_app l1 l2 : be_val (l1 ++ l2) = be_val l1 * 256 ^ Z.of_nat (length l2) + be_val l2.
Proof.
  unfold be_val. rewrite foldl_app. generalize (foldl (λ a b, 256 * a + b) 0 l1) as a.
  induction l2 as [|b l2 IH] using rev_ind; intros a; [simpl; lia|].
  rewrite !foldl_app, length_app, Nat2Z.inj_add, Z.pow_add_r by lia. simpl. rewrite IH. lia.
Qed.
Lemma be_val_rev l : be_val (rev l) = le_dec l.
Proof.
  induction l as [|b l IH]; [done|]. cbn [rev le_dec]. rewrite be_val_app, IH.
  cbn. lia.
Qed.
Lemma be_val_bound l : is_bytes l → 0 <= be_val l < 256 ^ Z.of_nat (length l).
Proof.
  induction l as [|b l IH] using rev_ind; [done|].
  unfold is_bytes. rewrite Forall_app, Forall_singleton. intros [Hl Hb].
  rewrite be_val_app, length_app, Nat2Z.inj_add, Z.pow_add_r by lia.
  specialize (IH Hl). unfold is_byte in Hb. cbn. lia.
Qed.
Lemma is_bytes_rev l : is_bytes l → is_bytes (rev l).
Proof. apply Forall_rev. Qed.
(** Equal-length byte strings with the same value are equal. *)
Lemma be_val_inj l1 l2 :
  is_bytes l1 → is_bytes l2 → length l1 = length l2 → be_val l1 = be_val l2 → l1 = l2.
Proof.
  intros H1 H2 Hlen Hv. rewrite <-(rev_involutive l1), <-(rev_involutive l2). f_equal.
  rewrite <-(le_enc_dec (rev l1)), <-(le_enc_dec (rev l2)) by auto using is_bytes_rev.
  rewrite !length_rev, Hlen. f_equal. by rewrite <-!be_val_rev, !rev_involutive.
Qed.

(** * [big.Int.Bytes] *)
Lemma be_digits_app fuel x acc : be_digits fuel x acc = be_digits fuel x [] ++ acc.
Proof.
  revert x acc. induction fuel as [|f IH]; intros x acc; [done|]. simpl.
  destruct (x =? 0); [done|]. rewrite IH, (IH _ [_]), <-app_assoc. done.
Qed.
Lemma be_digits_val fuel x :
  0 <= x < 2 ^ Z.of_nat fuel → be_val (be_digits fuel x []) = x.
Proof.
  revert x. induction fuel as [|f IH]; intros x Hx.
  { change (2 ^ Z.of_nat 0) with 1 in Hx. cbn. lia. }
  rewrite Nat2Z.inj_succ, Z.pow_succ_r in Hx by lia. simpl.
  destruct (Z.eqb_spec x 0) as [->|]; [done|].
  rewrite be_digits_app, be_val_app, IH.
  - cbn. pose proof (Z.div_mod x 256). lia.
  - split; [apply Z.div_pos; lia|]. apply Z.div_lt_upper_bound; lia.
Qed.
Lemma be_digits_bytes fuel x : is_bytes (be_digits fuel x []).
Proof.
  revert x. induction fuel as [|f IH]; intros x; [constructor|]. simpl.
  destruct (x =? 0); [constructor|]. rewrite be_digits_app. apply Forall_app_2; [apply IH|].
  constructor; [|constructor]. unfold is_byte. pose proof (Z.mod_pos_bound x 256). lia.
Qed.
Lemma be_digits_head fuel x :
  0 <= x < 2 ^ Z.of_nat fuel → head (be_digits fuel x []) ≠ Some 0.
Proof.
  revert x. induction fuel as [|f IH]; intros x Hx; [done|].
  rewrite Nat2Z.inj_succ, Z.pow_succ_r in Hx by lia. simpl.
  destruct (Z.eqb_spec x 0) as [->|Hne]; [done|]. rewrite be_digits_app.
  destruct (Z.eq_dec (x / 256) 0) as [E|E].
  - rewrite E. assert (be_digits f 0 [] = []) as -> by (by destruct f). simpl.
    intros [= H0]. pose proof (Z.div_mod x 256). lia.
  - assert (0 <= x / 256 < 2 ^ Z.of_nat f) as Hq.
    { split; [apply Z.div_pos; lia|]. apply Z.div_lt_upper_bound; lia. }
    specialize (IH _ Hq). pose proof (be_digits_val f _ Hq) as Hv.
    destruct (be_digits f (x / 256) []) as [|b l]; [done|]. exact IH.
Qed.
Lemma big_Bytes_fuel x : 0 <= x → 0 <= x < 2 ^ Z.of_nat (S (Z.to_nat (Z.log2 x))).
Proof.
  intros H. split; [done|]. rewrite Nat2Z.inj_succ, Z2Nat.id by apply Z.log2_nonneg.
  destruct (Z.eq_dec x 0) as [->|]; [done|]. apply Z.log2_spec. lia.
Qed.
Lemma be_val_big_Bytes x : 0 <= x → be_val (big_Bytes x) = x.
Proof.
  intros H. unfold big_Bytes. rewrite Z.abs_eq by done.
  by apply be_digits_val, big_Bytes_fuel.
Qed.
Lemma big_Bytes_bytes x : is_bytes (big_Bytes x).
Proof. apply be_digits_bytes. Qed.
Lemma big_Bytes_head x : 0 <= x → head (big_Bytes x) ≠ Some 0.
Proof.
  intros H. unfold big_Bytes. rewrite Z.abs_eq by done.
  by apply be_digits_head, big_Bytes_fuel.
Qed.
Lemma big_Bytes_inj x y : 0 <= x → 0 <= y → big_Bytes x = big_Bytes y → x = y.
Proof. intros Hx Hy E. rewrite <-(be_val_big_Bytes x), <-(be_val_big_Bytes y), E; done. Qed.
Lemma be_digits_length fuel x (n : nat) :
  0 <= x < 256 ^ Z.of_nat n → (length (be_digits fuel x []) <= n)%nat.
Proof.
  revert x n. induction fuel as [|f IH]; intros x n Hx; simpl; [lia|].
  destruct (Z.eqb_spec x 0) as [->|Hne]; [simpl; lia|].
  destruct n as [|n]; [change (256 ^ Z.of_nat 0) with 1 in Hx; lia|].
  rewrite Nat2Z.inj_succ, Z.pow_succ_r in Hx by lia.
  rewrite be_digits_app, length_app. simpl.
  enough (length (be_digits f (x / 256) []) <= n)%nat by lia. apply IH.
  split; [apply Z.div_pos; lia|]. apply Z.div_lt_upper_bound; lia.
Qed.
Lemma big_Bytes_length x (n : nat) :
  0 <= x < 256 ^ Z.of_nat n → (length (big_Bytes x) <= n)%nat.
Proof. intros H. unfold big_Bytes. rewrite Z.abs_eq by lia. by apply be_digits_length. Qed.
Lemma big_Bytes_nil x : 0 <= x → big_Bytes x = [] ↔ x = 0.
Proof.
  intros H. split; [|by intros ->]. intros E. rewrite <-(be_val_big_Bytes x), E; done.
Qed.

(** * The words of the code are the reference digits *)
Lemma lor_add a b k : 0 <= k → a mod 2 ^ k = 0 → 0 <= b < 2 ^ k → Z.lor a b = a + b.
Proof.
  intros Hk Ha Hb. rewrite <-Z.add_lor_land.
  assert (Z.land a b = 0) as ->; [|lia].
  apply Z.bits_inj'. intros n Hn. rewrite Z.land_spec, Z.bits_0.
  destruct (Z.lt_ge_cases n k) as [Hlt|Hge].
  - rewrite <-(Z.mod_pow2_bits_low a k n), Ha, Z.bits_0 by lia. done.
  - rewrite <-(Z.mod_small b (2 ^ k)), Z.mod_pow2_bits_high by lia. by rewrite andb_false_r.
Qed.
Lemma byte_of_shift x i : 0 <= i → Z.land (Z.shiftr x i) 0xff = (x / 2 ^ i) mod 256.
Proof. intros. change 0xff with (Z.ones 8). by rewrite Z.land_ones, Z.shiftr_div_pow2 by lia. Qed.

Lemma uint32ToBytes_le val : uint32ToBytes val = le_enc 4 val.
Proof.
  unfold uint32ToBytes. cbn [map le_enc].
  rewrite !byte_of_shift, !Z.div_div, Z.div_1_r by lia. done.
Qed.
Lemma Uint64ToBytes_le val : Uint64ToBytes val = le_enc 8 val.
Proof.
  unfold Uint64ToBytes. cbn [map le_enc].
  rewrite !byte_of_shift, !Z.div_div, Z.div_1_r by lia. done.
Qed.
Lemma u8_shift x i : 0 <= i → u8 (Z.shiftr x i) = (x / 2 ^ i) mod 256.
Proof. intros. unfold u8. by rewrite Z.shiftr_div_pow2 by lia. Qed.
Lemma ENC_b_endian_64_be v : ENC_b_endian_64 v = rev (le_enc 8 v).
Proof.
  unfold ENC_b_endian_64. cbn [map le_enc rev app].
  rewrite !u8_shift, !Z.div_div, Z.div_1_r by lia. done.
Qed.

Lemma lor_shl a b k : 0 <= k → 0 <= b < 2 ^ k → Z.lor (Z.shiftl a k) b = a * 2 ^ k + b.
Proof.
  intros Hk Hb. rewrite Z.shiftl_mul_pow2 by done. apply lor_add with k; [done| |done].
  by apply Z.mod_mul, Z.pow_nonzero.
Qed.
Lemma lor_shl' a b k : 0 <= k → 0 <= a < 2 ^ k → Z.lor a (Z.shiftl b k) = a + b * 2 ^ k.
Proof. intros. rewrite Z.lor_comm, lor_shl by done. lia. Qed.

(** Evaluate a little-endian chain of [|] from the inside. *)
Ltac lor_le :=
  repeat match goal with
  | |- context [Z.lor ?a (Z.shiftl ?b ?k)] =>
      lazymatch a with
      | context [Z.lor] => fail
      | _ => rewrite (lor_shl' a b k) by lia
      end
  end.

Lemma is_bytes_cons b l : is_bytes (b :: l) ↔ is_byte b ∧ is_bytes l.
Proof. apply Forall_cons. Qed.

(** Horner form of a big-endian chain. *)
Lemma lor_be_step a n b : 0 <= n → is_byte b →
  Z.lor (Z.shiftl a (8 + n)) (Z.shiftl b n) = Z.shiftl (256 * a + b) n.
Proof.
  intros Hn Hb. unfold is_byte in Hb.
  rewrite <-Z.shiftl_shiftl, <-Z.shiftl_lor, lor_shl by lia.
  f_equal. lia.
Qed.
Lemma lor_be_shift a m n b :
  m = 8 + n → 0 <= n → is_byte b →
  Z.lor (Z.shiftl a m) (Z.shiftl b n) = Z.shiftl (256 * a + b) n.
Proof. intros ->. apply lor_be_step. Qed.
Lemma lor_be_last a b : is_byte b → Z.lor (Z.shiftl a 8) b = 256 * a + b.
Proof. intros Hb. unfold is_byte in Hb. rewrite lor_shl by lia. lia. Qed.

Lemma DEC_b_endian_compact_64_spec b :
  is_bytes b → (length b <= 8)%nat → DEC_b_endian_compact_64 b = Ret (be_val b).
Proof.
  intros Hb Hlen.
  do 9 (destruct b as [|? b];
    [repeat match goal with H : is_bytes (_ :: _) |- _ => apply is_bytes_cons in H as [??] end;
     cbn [DEC_b_endian_compact_64 DEC_b_endian_64 be_val foldl]; f_equal;
     repeat first [rewrite lor_be_last by assumption
       | erewrite lor_be_shift by first [reflexivity | lia | assumption]]; lia|]).
  simpl in Hlen. lia.
Qed.
Lemma DEC_b_endian_64_spec b :
  is_bytes b → length b = 8%nat → DEC_b_endian_64 b = Ret (be_val b).
Proof.
  intros Hb Hlen. rewrite <-(DEC_b_endian_compact_64_spec b) by (done || lia).
  by do 9 (destruct b as [|? b]; try discriminate Hlen).
Qed.
Lemma bytesToUint32_spec l :
  is_bytes l → length l = 4%nat → bytesToUint32 l = Ret (le_dec l).
Proof.
  intros Hb Hlen. do 5 (destruct l as [|? l]; try discriminate Hlen).
  repeat match goal with H : is_bytes (_ :: _) |- _ => apply is_bytes_cons in H as [??] end.
  unfold is_byte in *. cbn [bytesToUint32 le_dec]. f_equal.
  rewrite Z.lor_0_l, Z.shiftl_0_r. lor_le. lia.
Qed.
Lemma BytesToUint64_spec l :
  is_bytes l → length l = 8%nat → BytesToUint64 l = Ret (le_dec l).
Proof.
  intros Hb Hlen. do 9 (destruct l as [|? l]; try discriminate Hlen).
  repeat match goal with H : is_bytes (_ :: _) |- _ => apply is_bytes_cons in H as [??] end.
  unfold is_byte in *. cbn [BytesToUint64 le_dec]. f_equal.
  rewrite Z.lor_0_l, Z.shiftl_0_r. lor_le. lia.
Qed.

Lemma SizeInBytes_range i : 1 <= SizeInBytes i <= 8.
Proof. unfold SizeInBytes. repeat case_match; lia. Qed.
(** The compact encoding of a word is its [SizeInBytes] big-endian bytes. *)
Lemma ENC_b_endian_compact_64_be i :
  ENC_b_endian_compact_64 i = rev (le_enc (Z.to_nat (SizeInBytes i)) i).
Proof.
  unfold ENC_b_endian_compact_64, SizeInBytes.
  repeat match goal with |- context [if ?b then _ else _] => destruct b end;
    match goal with |- context [Z.to_nat ?n] =>
      let v := eval vm_compute in (Z.to_nat n) in change (Z.to_nat n) with v end;
    cbn [map le_enc rev app]; rewrite !u8_shift, ?Z.div_div, ?Z.div_1_r by lia; done.
Qed.
Lemma SizeInBytes_fits i : is_u64 i → 0 <= i < 256 ^ SizeInBytes i.
Proof.
  unfold is_u64, SizeInBytes. rewrite !Z.shiftl_1_l. intros H.
  repeat match goal with |- context [?a <? ?b] => destruct (Z.ltb_spec a b) end;
    match goal with |- context [256 ^ ?k] =>
      let v := eval vm_compute in (256 ^ k) in change (256 ^ k) with v end;
    width_lia.
Qed.

(** * Round trips *)
Lemma bytesToUint32_ToBytes v : is_u32 v → bytesToUint32 (uint32ToBytes v) = Ret v.
Proof.
  intros H. rewrite uint32ToBytes_le, bytesToUint32_spec, le_dec_enc
    by (apply le_enc_bytes || apply length_le_enc).
  f_equal. by apply Z.mod_small.
Qed.
Lemma uint32ToBytes_length v : length (uint32ToBytes v) = 4%nat.
Proof. done. Qed.
Lemma uint32ToBytes_inj v w : is_u32 v → is_u32 w → uint32ToBytes v = uint32ToBytes w → v = w.
Proof.
  intros Hv Hw E. pose proof (bytesToUint32_ToBytes v Hv) as H.
  rewrite E, bytesToUint32_ToBytes in H by done. congruence.
Qed.
Lemma BytesToUint64_ToBytes v : is_u64 v → BytesToUint64 (Uint64ToBytes v) = Ret v.
Proof.
  intros H. rewrite Uint64ToBytes_le, BytesToUint64_spec, le_dec_enc
    by (apply le_enc_bytes || apply length_le_enc).
  f_equal. by apply Z.mod_small.
Qed.
Lemma Uint64ToBytes_length v : length (Uint64ToBytes v) = 8%nat.
Proof. done. Qed.
Lemma Uint64ToBytes_inj v w : is_u64 v → is_u64 w → Uint64ToBytes v = Uint64ToBytes w → v = w.
Proof.
  intros Hv Hw E. pose proof (BytesToUint64_ToBytes v Hv) as H.
  rewrite E, BytesToUint64_ToBytes in H by done. congruence.
Qed.
Lemma uint32ToBytes_bytes v : is_bytes (uint32ToBytes v).
Proof. rewrite uint32ToBytes_le. apply le_enc_bytes. Qed.
Lemma Uint64ToBytes_bytes v : is_bytes (Uint64ToBytes v).
Proof. rewrite Uint64ToBytes_le. apply le_enc_bytes. Qed.
Lemma ENC_compact_bytes v : is_bytes (ENC_b_endian_compact_64 v).
Proof. rewrite ENC_b_endian_compact_64_be. apply is_bytes_rev, le_enc_bytes. Qed.
Lemma ENC_compact_length v :
  length (ENC_b_endian_compact_64 v) = Z.to_nat (SizeInBytes v).
Proof. by rewrite ENC_b_endian_compact_64_be, length_rev, length_le_enc. Qed.
Lemma ENC_compact_nonempty v : ENC_b_endian_compact_64 v ≠ [].
Proof.
  intros E. pose proof (ENC_compact_length v) as H. rewrite E in H.
  pose proof (SizeInBytes_range v). simpl in H. lia.
Qed.
Lemma compact_64_roundtrip v :
  is_u64 v → DEC_b_endian_compact_64 (ENC_b_endian_compact_64_1 v) = Ret v.
Proof.
  intros H. unfold ENC_b_endian_compact_64_1. pose proof (SizeInBytes_range v).
  rewrite DEC_b_endian_compact_64_spec; [|apply ENC_compact_bytes|rewrite ENC_compact_length; lia].
  rewrite ENC_b_endian_compact_64_be, be_val_rev, le_dec_enc, Z2Nat.id by lia.
  f_equal. by apply Z.mod_small, SizeInBytes_fits.
Qed.
#[export] Hint Resolve uint32ToBytes_bytes Uint64ToBytes_bytes ENC_compact_bytes
  big_Bytes_bytes : width.

(** C30: the three integer codecs of the contract storage (little-endian 32- and 64-bit
    words of the iterable maps, compact big-endian words of [ebla/util/bin]) round trip on
    every value of their width, whatever the number of bytes the compact one chooses. *)
Theorem codec_roundtrip v w :
  is_u64 v → is_u32 w →
  bytesToUint32 (uint32ToBytes w) = Ret w ∧
  BytesToUint64 (Uint64ToBytes v) = Ret v ∧
  DEC_b_endian_64 (ENC_b_endian_64 v) = Ret v ∧
  DEC_b_endian_compact_64 (ENC_b_endian_compact_64_1 v) = Ret v ∧
  length (ENC_b_endian_compact_64_1 v) = Z.to_nat (SizeInBytes v) ∧
  be_val (BlockToBytes v) = v.
Proof.
  intros Hv Hw. repeat split_and!.
  - by apply bytesToUint32_ToBytes.
  - by apply BytesToUint64_ToBytes.
  - rewrite ENC_b_endian_64_be, DEC_b_endian_64_spec, be_val_rev, le_dec_enc
      by (apply is_bytes_rev, le_enc_bytes || done).
    f_equal. by apply Z.mod_small.
  - by apply compact_64_roundtrip.
  - apply ENC_compact_length.
  - apply be_val_big_Bytes. by destruct Hv.
Qed.
Lemma codec_roundtrip_witness :
  DEC_b_endian_compact_64 (ENC_b_endian_compact_64_1 70000) = Ret 70000.
Proof. apply (codec_roundtrip 70000 7); unfold is_u64, is_u32; lia. Defined.
