(* ===== verification/Rlp.v ===== *)
(** RLP: the encoder primitives of [rlp/encode.go], the stream decoder of
    [rlp/decode.go] for the field types the contracts store, and the splitting functions
    of [rlp/raw.go].  A [Stream] is the bytes that remain in the innermost list; the code's
    several "too large" errors are one error here. *)
From S2P Require Import Prelude Codec.

(** * Encoder *)
Definition EmptyString : Z := 0x80.
Definition putint (i tag : Z) : bytes :=
  if i <? Z.shiftl 1 8 then u8 (1 + tag) :: map (λ s, u8 (Z.shiftr i s)) [0]
  else if i <? Z.shiftl 1 16 then u8 (2 + tag) :: map (λ s, u8 (Z.shiftr i s)) [8; 0]
  else if i <? Z.shiftl 1 24 then u8 (3 + tag) :: map (λ s, u8 (Z.shiftr i s)) [16; 8; 0]
  else if i <? Z.shiftl 1 32 then u8 (4 + tag) :: map (λ s, u8 (Z.shiftr i s)) [24; 16; 8; 0]
  else if i <? Z.shiftl 1 40 then u8 (5 + tag) :: map (λ s, u8 (Z.shiftr i s)) [32; 24; 16; 8; 0]
  else if i <? Z.shiftl 1 48 then
    u8 (6 + tag) :: map (λ s, u8 (Z.shiftr i s)) [40; 32; 24; 16; 8; 0]
  else if i <? Z.shiftl 1 56 then
    u8 (7 + tag) :: map (λ s, u8 (Z.shiftr i s)) [48; 40; 32; 24; 16; 8; 0]
  else u8 (8 + tag) :: map (λ s, u8 (Z.shiftr i s)) [56; 48; 40; 32; 24; 16; 8; 0].
Definition puthead (smalltag largetag size : Z) : bytes :=
  if size <? 56 then [u8 (smalltag + u8 size)] else putint size largetag.
Definition headsize (size : Z) : Z := if size <? 56 then 1 else 1 + SizeInBytes size.
Definition blen (l : bytes) : Z := Z.of_nat (length l).
Definition ToRLPString (str : bytes) : bytes :=
  match str with
  | [b] => if b <=? 0x7F then [b] else [u8 (EmptyString + 1); b]
  | _ => (if blen str <? 56 then [u8 (EmptyString + u8 (blen str))]
          else putint (blen str) 0xB7) ++ str
  end.
Definition AppendString (str : bytes) : bytes :=
  match str with [] => [EmptyString] | _ => ToRLPString str end.
Definition AppendUint (i : Z) : bytes :=
  if i =? 0 then [EmptyString] else if i <? 128 then [u8 i] else putint i EmptyString.
Definition AppendBigInt (i : Z) : outcome bytes :=
  if i =? 0 then Ret [EmptyString]
  else if 0 <? i then Ret (AppendString (big_Bytes i))
  else Err "rlp: cannot encode negative *big.Int".
Definition writeBool (b : bool) : bytes := if b then [0x01] else [EmptyString].
(** A struct or slice: [ListStart], the fields in order, [ListEnd]; the list header is
    written in front of the payload when the buffer is flushed. *)
Definition enc_list (payload : bytes) : bytes := puthead 0xC0 0xF7 (blen payload) ++ payload.
Fixpoint enc_fields (l : list (outcome bytes)) : outcome bytes :=
  match l with
  | [] => Ret []
  | Ret b :: l =>
      match enc_fields l with Ret p => Ret (b ++ p) | e => e end
  | e :: _ => e
  end.
Definition enc_struct (l : list (outcome bytes)) : outcome bytes :=
  match enc_fields l with Ret p => Ret (enc_list p) | e => e end.
Definition MustEncode (o : outcome bytes) : outcome bytes :=
  match o with Err e => Panic e | _ => o end.

(** * Stream decoder *)
Inductive Kind := KByte | KString | KList.
Definition ErrCanonSize : string := "rlp: non-canonical size information".
Definition ErrCanonInt : string := "rlp: non-canonical integer (leading zero bytes)".
Definition ErrValueTooLarge : string := "rlp: value size exceeds available input length".
Definition ErrExpectedString : string := "rlp: expected String or Byte".
Definition ErrExpectedList : string := "rlp: expected List".
Definition ErrMoreThanOneValue : string := "rlp: input contains more than one value".
Definition errUintOverflow : string := "rlp: uint overflow".
Definition errNotAtEOL : string := "rlp: call of ListEnd not positioned at EOL".

Abbreviation Stream := (M bytes).

Definition remaining : Stream Z := λ s, (Ret (blen s), s).
Definition readByte : Stream Z := λ s,
  match s with
  | [] => (Err ErrValueTooLarge, s)
  | b :: r => (Ret b, r)
  end.
Definition readFull (n : Z) : Stream bytes := λ s,
  if blen s <? n then (Err ErrValueTooLarge, s)
  else (Ret (take (Z.to_nat n) s), drop (Z.to_nat n) s).
Definition readUint (size : Z) : Stream Z :=
  if size =? 0 then mret 0
  else if size =? 1 then readByte
  else
    buf ← readFull size;
    fail_if (match head buf with Some b => b =? 0 | None => false end) ErrCanonSize ;;
    mret (be_val buf).
Definition readSizedUint (size : Z) : Stream Z :=
  n ← readUint size; fail_if (n <? 56) ErrCanonSize ;; mret n.
(** [readKind]: kind, content size and, for a single byte, its value. *)
Definition readKind : Stream (Kind * Z * Z) :=
  b ← readByte;
  if b <? 0x80 then mret (KByte, 0, b)
  else if b <? 0xB8 then mret (KString, b - 0x80, 0)
  else if b <? 0xC0 then size ← readSizedUint (b - 0xB7); mret (KString, size, 0)
  else if b <? 0xF8 then mret (KList, b - 0xC0, 0)
  else size ← readSizedUint (b - 0xF7); mret (KList, size, 0).
Definition Stream_Kind : Stream (Kind * Z * Z) :=
  k ← readKind; rem ← remaining; fail_if (rem <? k.1.2) ErrValueTooLarge ;; mret k.
Definition Stream_Bytes : Stream bytes :=
  k ← Stream_Kind;
  match k with
  | (KByte, _, bv) => mret [bv]
  | (KString, size, _) =>
      b ← readFull size;
      fail_if ((size =? 1) && match head b with Some x => x <? 128 | None => false end)
        ErrCanonSize ;;
      mret b
  | (KList, _, _) => throw ErrExpectedString
  end.
Definition Stream_uint (maxbits : Z) : Stream Z :=
  k ← Stream_Kind;
  match k with
  | (KByte, _, bv) => fail_if (bv =? 0) ErrCanonInt ;; mret bv
  | (KString, size, _) =>
      fail_if (maxbits / 8 <? size) errUintOverflow ;;
      v ← readUint size;
      fail_if ((0 <? size) && (v <? 128)) ErrCanonSize ;;
      mret v
  | (KList, _, _) => throw ErrExpectedString
  end.
Definition Stream_Bool : Stream bool :=
  num ← Stream_uint 8;
  if num =? 0 then mret false else if num =? 1 then mret true
  else throw "rlp: invalid boolean value".
Definition decodeBigInt : Stream Z :=
  b ← Stream_Bytes;
  fail_if (match head b with Some x => x =? 0 | None => false end) ErrCanonInt ;;
  mret (be_val b).
Definition decodeByteArray (vlen : Z) : Stream bytes :=
  k ← Stream_Kind;
  match k with
  | (KByte, _, bv) =>
      fail_if (vlen =? 0) "input string too long" ;;
      fail_if (1 <? vlen) "input string too short" ;;
      mret [bv]
  | (KString, size, _) =>
      fail_if (vlen <? size) "input string too long" ;;
      fail_if (size <? vlen) "input string too short" ;;
      b ← readFull vlen;
      fail_if ((size =? 1) && match head b with Some x => x <? 128 | None => false end)
        ErrCanonSize ;;
      mret b
  | (KList, _, _) => throw ErrExpectedString
  end.
(** [Stream.List] .. [Stream.ListEnd] around the fields of a struct. *)
Definition decodeStruct {A} (fields : Stream A) : Stream A :=
  k ← Stream_Kind;
  match k with
  | (KList, size, _) => λ s,
      match fields (take (Z.to_nat size) s) with
      | (Ret a, []) => (Ret a, drop (Z.to_nat size) s)
      | (Ret _, _) => (Err errNotAtEOL, s)
      | (Err e, _) => (Err e, s)
      | (Panic p, _) => (Panic p, s)
      end
  | _ => throw ErrExpectedList
  end.
(** [decodeListSlice]: elements until the end of the list. *)
Fixpoint decodeSliceElems {A} (fuel : nat) (elemdec : Stream A) : Stream (list A) := λ s,
  match fuel, s with
  | _, [] => (Ret [], [])
  | O, _ => (Panic "out of fuel", s)
  | S fuel, _ => (x ← elemdec; xs ← decodeSliceElems fuel elemdec; mret (x :: xs)) s
  end.
Definition decodeListSlice {A} (elemdec : Stream A) : Stream (list A) :=
  decodeStruct (λ s, decodeSliceElems (length s) elemdec s).
Definition DecodeBytes {A} (dec : Stream A) (b : bytes) : outcome A :=
  match dec b with
  | (Ret a, []) => Ret a
  | (Ret _, _) => Err ErrMoreThanOneValue
  | (o, _) => o
  end.
Definition MustDecodeBytes {A} (dec : Stream A) (b : bytes) : outcome A :=
  match DecodeBytes dec b with Err e => Panic e | o => o end.

(** * Splitting ([rlp/raw.go]) *)
Definition readSize (b : bytes) (slen : Z) : outcome Z :=
  if blen b <? slen then Err "unexpected EOF"
  else
    let s := be_val (take (Z.to_nat slen) b) in
    if (s <? 56) || (match head b with Some x => x =? 0 | None => false end)
    then Err ErrCanonSize else Ret s.
Definition ReadKind (buf : bytes) : outcome (Kind * Z * Z) :=
  match buf with
  | [] => Err "unexpected EOF"
  | b :: rest =>
      let buflen := blen buf in
      let finish k tagsize (contentsize : outcome Z) :=
        match contentsize with
        | Ret c =>
            if u64 (buflen - tagsize) <? c then Err ErrValueTooLarge
            else Ret (k, tagsize, u64 (tagsize + c))
        | Err e => Err e
        | Panic p => Panic p
        end in
      if b <? 0x80 then finish KByte 0 (Ret 1)
      else if b <? 0xB8 then
        let contentsize := b - 0x80 in
        if (contentsize =? 1) && (1 <? buflen)
             && match rest with x :: _ => x <? 128 | [] => false end
        then Err ErrCanonSize else finish KString 1 (Ret contentsize)
      else if b <? 0xC0 then finish KString (b - 0xB7 + 1) (readSize rest (b - 0xB7))
      else if b <? 0xF8 then finish KList 1 (Ret (b - 0xC0))
      else finish KList (b - 0xF7 + 1) (readSize rest (b - 0xF7))
  end.
Definition Split (b : bytes) : outcome (Kind * bytes * bytes) :=
  match ReadKind b with
  | Ret (k, tagsize, total) =>
      Ret (k, drop (Z.to_nat tagsize) (take (Z.to_nat total) b), drop (Z.to_nat total) b)
  | Err e => Err e
  | Panic p => Panic p
  end.
Definition SplitString (b : bytes) : outcome (bytes * bytes) :=
  match Split b with
  | Ret (KList, _, _) => Err ErrExpectedString
  | Ret (_, content, rest) => Ret (content, rest)
  | Err e => Err e
  | Panic p => Panic p
  end.
Definition SplitList (b : bytes) : outcome (bytes * bytes) :=
  match Split b with
  | Ret (KList, content, rest) => Ret (content, rest)
  | Ret _ => Err ErrExpectedList
  | Err e => Err e
  | Panic p => Panic p
  end.
(** [CountValues]: each turn consumes at least one byte, so [length b] turns are enough. *)
Fixpoint CountValues_fuel (fuel : nat) (b : bytes) (i : Z) : outcome Z :=
  match fuel, b with
  | _, [] => Ret i
  | O, _ => Panic "out of fuel"
  | S fuel, _ =>
      match ReadKind b with
      | Ret (_, _, total) => CountValues_fuel fuel (drop (Z.to_nat total) b) (i + 1)
      | Err e => Err e
      | Panic p => Panic p
      end
  end.
Definition CountValues (b : bytes) : outcome Z := CountValues_fuel (length b) b 0.

(** * Header lemmas *)
Lemma putint_be i tag : putint i tag = u8 (SizeInBytes i + tag) :: ENC_b_endian_compact_64 i.
Proof.
  unfold putint, SizeInBytes, ENC_b_endian_compact_64.
  repeat match goal with |- context [if ?b then _ else _] => destruct b end; done.
Qed.
Lemma ENC_compact_head i :
  is_u64 i → 256 <= i → head (ENC_b_endian_compact_64 i) ≠ Some 0.
Proof.
  unfold is_u64, ENC_b_endian_compact_64. rewrite !Z.shiftl_1_l. intros H Hi.
  repeat match goal with |- context [?a <? ?b] => destruct (Z.ltb_spec a b) end;
    cbn [map head]; rewrite ?u8_shift by lia; intros [= E]; width_lia.
Qed.
Lemma blen_app l1 l2 : blen (l1 ++ l2) = blen l1 + blen l2.
Proof. unfold blen. rewrite length_app. lia. Qed.
Lemma blen_nonneg l : 0 <= blen l.
Proof. unfold blen. lia. Qed.
Lemma blen_cons b l : blen (b :: l) = 1 + blen l.
Proof. unfold blen. simpl. lia. Qed.
#[export] Hint Rewrite blen_app blen_cons : widthrw.

Lemma readFull_app l r : readFull (blen l) (l ++ r) = (Ret l, r).
Proof.
  unfold readFull. rewrite blen_app. pose proof (blen_nonneg r).
  destruct (Z.ltb_spec (blen l + blen r) (blen l)); [lia|].
  unfold blen. rewrite Nat2Z.id, take_app_length, drop_app_length. done.
Qed.
(** [readUint] reads back the compact word it was given the size of. *)
Lemma readUint_compact i r :
  is_u64 i → readUint (SizeInBytes i) (ENC_b_endian_compact_64 i ++ r) = (Ret i, r).
Proof.
  intros Hi. unfold readUint. pose proof (SizeInBytes_range i) as Hs.
  destruct (Z.eqb_spec (SizeInBytes i) 0) as [|_]; [lia|].
  pose proof (ENC_compact_length i) as Hl.
  assert (be_val (ENC_b_endian_compact_64 i) = i) as Hv.
  { pose proof (compact_64_roundtrip i Hi) as R. unfold ENC_b_endian_compact_64_1 in R.
    rewrite DEC_b_endian_compact_64_spec in R by (auto with width || lia). congruence. }
  destruct (Z.eqb_spec (SizeInBytes i) 1) as [E|E].
  - rewrite E in Hl. destruct (ENC_b_endian_compact_64 i) as [|b [|? ?]]; try discriminate.
    cbn in Hv |- *. unfold readByte. repeat f_equal. lia.
  - assert (256 <= i) as H256.
    { unfold SizeInBytes in E. rewrite Z.shiftl_1_l in E.
      destruct (Z.ltb_spec i (2 ^ 8)); [done|lia]. }
    pose proof (ENC_compact_head i Hi H256) as Hh.
    replace (SizeInBytes i) with (blen (ENC_b_endian_compact_64 i))
      by (unfold blen; rewrite Hl; lia).
    unfold mbind, M_bind. rewrite readFull_app.
    destruct (ENC_b_endian_compact_64 i) as [|b l] eqn:El.
    { by apply ENC_compact_nonempty in El. }
    cbn [head] in Hh |- *. destruct (Z.eqb_spec b 0) as [->|]; [done|].
    unfold fail_if, mret, M_ret. by rewrite Hv.
Qed.
Lemma u8_id x : is_byte x → u8 x = x.
Proof. intros H. by apply Z.mod_small. Qed.

(** The header of a list of [size] payload bytes, and of a string of [size <> 1] bytes. *)
Lemma readKind_list size r :
  is_u64 size → readKind (puthead 0xC0 0xF7 size ++ r) = (Ret (KList, size, 0), r).
Proof.
  intros Hs. unfold puthead. pose proof (SizeInBytes_range size) as Hr.
  unfold is_u64 in Hs. destruct (Z.ltb_spec size 56) as [H|H].
  - rewrite (u8_id size), u8_id by (unfold is_byte; lia).
    cbn [app]. unfold readKind, mbind, M_bind, readByte.
    destruct (Z.ltb_spec (0xC0 + size) 0x80); [lia|].
    destruct (Z.ltb_spec (0xC0 + size) 0xB8); [lia|].
    destruct (Z.ltb_spec (0xC0 + size) 0xC0); [lia|].
    destruct (Z.ltb_spec (0xC0 + size) 0xF8); [|lia].
    replace (0xC0 + size - 0xC0) with size by lia. done.
  - rewrite putint_be, u8_id by (unfold is_byte; lia).
    cbn [app]. unfold readKind, mbind, M_bind, readByte.
    destruct (Z.ltb_spec (SizeInBytes size + 0xF7) 0x80); [lia|].
    destruct (Z.ltb_spec (SizeInBytes size + 0xF7) 0xB8); [lia|].
    destruct (Z.ltb_spec (SizeInBytes size + 0xF7) 0xC0); [lia|].
    destruct (Z.ltb_spec (SizeInBytes size + 0xF7) 0xF8); [lia|].
    unfold readSizedUint, mbind, M_bind. rewrite Z.add_simpl_r.
    rewrite readUint_compact by done. destruct (Z.ltb_spec size 56); [lia|]. done.
Qed.
Definition string_head (size : Z) : bytes :=
  if size <? 56 then [u8 (EmptyString + u8 size)] else putint size 0xB7.
Lemma readKind_string size r :
  is_u64 size → readKind (string_head size ++ r) = (Ret (KString, size, 0), r).
Proof.
  intros Hs. unfold string_head, EmptyString. pose proof (SizeInBytes_range size) as Hr.
  unfold is_u64 in Hs. destruct (Z.ltb_spec size 56) as [H|H].
  - rewrite (u8_id size), u8_id by (unfold is_byte; lia).
    cbn [app]. unfold readKind, mbind, M_bind, readByte.
    destruct (Z.ltb_spec (0x80 + size) 0x80); [lia|].
    destruct (Z.ltb_spec (0x80 + size) 0xB8); [|lia].
    replace (0x80 + size - 0x80) with size by lia. done.
  - rewrite putint_be, u8_id by (unfold is_byte; lia).
    cbn [app]. unfold readKind, mbind, M_bind, readByte.
    destruct (Z.ltb_spec (SizeInBytes size + 0xB7) 0x80); [lia|].
    destruct (Z.ltb_spec (SizeInBytes size + 0xB7) 0xB8); [lia|].
    destruct (Z.ltb_spec (SizeInBytes size + 0xB7) 0xC0); [|lia].
    unfold readSizedUint, mbind, M_bind. rewrite Z.add_simpl_r.
    rewrite readUint_compact by done. destruct (Z.ltb_spec size 56); [lia|]. done.
Qed.

(** * Round trips of the primitives *)
Lemma Stream_Kind_list p r :
  blen p < 2 ^ 64 → Stream_Kind (enc_list p ++ r) = (Ret (KList, blen p, 0), p ++ r).
Proof.
  intros Hp. pose proof (blen_nonneg p). pose proof (blen_nonneg r).
  unfold Stream_Kind, enc_list, mbind, M_bind. rewrite <-app_assoc, readKind_list by done.
  unfold remaining. rewrite blen_app. cbn [fst snd].
  destruct (Z.ltb_spec (blen p + blen r) (blen p)); [lia|done].
Qed.
Lemma Stream_Kind_string str r :
  blen str < 2 ^ 64 →
  Stream_Kind (string_head (blen str) ++ str ++ r) = (Ret (KString, blen str, 0), str ++ r).
Proof.
  intros Hp. pose proof (blen_nonneg str). pose proof (blen_nonneg r).
  unfold Stream_Kind, mbind, M_bind. rewrite readKind_string by done.
  unfold remaining. rewrite blen_app. cbn [fst snd].
  destruct (Z.ltb_spec (blen str + blen r) (blen str)); [lia|done].
Qed.
Lemma Stream_Kind_byte b r : b < 0x80 → Stream_Kind (b :: r) = (Ret (KByte, 0, b), r).
Proof.
  intros Hb. pose proof (blen_nonneg r). unfold Stream_Kind, readKind, mbind, M_bind, readByte.
  destruct (Z.ltb_spec b 0x80); [|lia]. cbn [fst snd].
  unfold mret, M_ret, remaining. cbn [fst snd].
  destruct (Z.ltb_spec (blen r) 0); [lia|done].
Qed.
Lemma AppendString_cases str :
  (∃ b, str = [b] ∧ b < 0x80 ∧ AppendString str = [b]) ∨
  (AppendString str = string_head (blen str) ++ str ∧
   ∀ b, str = [b] → 0x80 <= b).
Proof.
  destruct str as [|b [|c l]].
  - right. split; [done|]. by intros.
  - cbn. destruct (Z.leb_spec b 0x7F); [left; exists b; split_and!; [done|lia|done]|].
    right. split; [done|]. intros ? [= <-]. lia.
  - right. split; [done|]. by intros.
Qed.
Lemma Stream_Bytes_AppendString str r :
  blen str < 2 ^ 64 → Stream_Bytes (AppendString str ++ r) = (Ret str, r).
Proof.
  intros Hs. unfold Stream_Bytes, mbind, M_bind.
  destruct (AppendString_cases str) as [(b & -> & Hb & ->) | [-> Hb]].
  - cbn [app]. by rewrite Stream_Kind_byte.
  - rewrite <-app_assoc, Stream_Kind_string, readFull_app by done.
    destruct str as [|x [|y l]]; [done| |].
    + specialize (Hb x eq_refl). cbn [head]. destruct (Z.ltb_spec x 128); [lia|done].
    + rewrite !blen_cons. pose proof (blen_nonneg l).
      destruct (Z.eqb_spec (1 + (1 + blen l)) 1); [lia|done].
Qed.
Lemma decodeBigInt_AppendBigInt i e r :
  AppendBigInt i = Ret e → i < 2 ^ 4096 → decodeBigInt (e ++ r) = (Ret i, r).
Proof.
  intros He Hi. assert (0 <= i ∧ e = AppendString (big_Bytes i)) as [Hp ->].
  { unfold AppendBigInt in He. destruct (Z.eqb_spec i 0) as [->|]; [by injection He as <-|].
    destruct (Z.ltb_spec 0 i); [|done]. injection He as <-. split; [lia|done]. }
  unfold decodeBigInt, mbind, M_bind. rewrite Stream_Bytes_AppendString.
  - pose proof (big_Bytes_head i Hp) as Hh. pose proof (be_val_big_Bytes i Hp) as Hv.
    destruct (big_Bytes i) as [|b l]; cbn [head] in *.
    + unfold fail_if, mret, M_ret. by rewrite Hv.
    + destruct (Z.eqb_spec b 0) as [->|]; [done|].
      unfold fail_if, mret, M_ret. by rewrite Hv.
  - pose proof (big_Bytes_length i 512) as Hl. unfold blen.
    enough (length (big_Bytes i) <= 512)%nat by lia.
    apply Hl. change (256 ^ Z.of_nat 512) with ((2 ^ 8) ^ 512).
    rewrite <-Z.pow_mul_r by lia. done.
Qed.
Lemma Stream_uint_AppendUint bits i r :
  (bits = 8 ∨ bits = 16 ∨ bits = 32 ∨ bits = 64) → 0 <= i < 2 ^ bits →
  Stream_uint bits (AppendUint i ++ r) = (Ret i, r).
Proof.
  intros Hbits Hi. unfold AppendUint, Stream_uint, mbind, M_bind.
  assert (is_u64 i) as H64.
  { unfold is_u64. assert (2 ^ bits <= 2 ^ 64) by (apply Z.pow_le_mono_r; lia). lia. }
  destruct (Z.eqb_spec i 0) as [->|Hne].
  { change ([EmptyString] ++ r) with (string_head (blen []) ++ [] ++ r).
    rewrite Stream_Kind_string by done. cbn.
    destruct Hbits as [-> | [-> | [-> | ->]]]; done. }
  destruct (Z.ltb_spec i 128) as [H128|H128].
  { rewrite u8_id by (unfold is_byte; lia). cbn [app].
    rewrite Stream_Kind_byte by lia. cbn. destruct (Z.eqb_spec i 0); [done|done]. }
  pose proof (SizeInBytes_range i) as Hr. pose proof (ENC_compact_length i) as Hl.
  set (c := ENC_b_endian_compact_64 i) in *.
  assert (blen c = SizeInBytes i) as Hbl by (unfold blen; rewrite Hl; lia).
  replace (putint i EmptyString ++ r) with (string_head (blen c) ++ c ++ r).
  2:{ rewrite putint_be, Hbl. unfold string_head.
      destruct (Z.ltb_spec (SizeInBytes i) 56); [|lia].
      rewrite (u8_id (SizeInBytes i)) by (unfold is_byte; lia). cbn. by rewrite Z.add_comm. }
  rewrite Stream_Kind_string by (rewrite Hbl; lia). rewrite Hbl.
  assert (SizeInBytes i <= bits / 8) as Hsz.
  { unfold SizeInBytes. rewrite !Z.shiftl_1_l.
    destruct Hbits as [-> | [-> | [-> | ->]]];
      repeat match goal with |- context [?a <? ?b] => destruct (Z.ltb_spec a b) end; width_lia. }
  destruct (Z.ltb_spec (bits / 8) (SizeInBytes i)); [lia|].
  cbn [fail_if]. unfold mret, M_ret. subst c. rewrite readUint_compact by done.
  destruct (Z.ltb_spec i 128); [lia|]. by rewrite andb_false_r.
Qed.
Lemma Stream_Bool_writeBool b r : Stream_Bool (writeBool b ++ r) = (Ret b, r).
Proof.
  unfold Stream_Bool, mbind, M_bind.
  replace (writeBool b) with (AppendUint (if b then 1 else 0)) by (by destruct b).
  rewrite Stream_uint_AppendUint by (destruct b; auto; lia). by destruct b.
Qed.
Lemma decodeByteArray_AppendString str r :
  1 < blen str < 2 ^ 64 → decodeByteArray (blen str) (AppendString str ++ r) = (Ret str, r).
Proof.
  intros Hs. unfold decodeByteArray, mbind, M_bind.
  destruct (AppendString_cases str) as [(b & -> & Hb & ->) | [-> Hb]].
  { rewrite blen_cons in Hs. unfold blen in Hs. simpl in Hs. lia. }
  rewrite <-app_assoc, Stream_Kind_string by lia.
  destruct (Z.ltb_spec (blen str) (blen str)); [lia|]. cbn [fail_if]. unfold mret, M_ret.
  rewrite readFull_app. destruct (Z.eqb_spec (blen str) 1); [lia|]. done.
Qed.
Lemma decodeStruct_enc_list {A} (fields : Stream A) p a r :
  blen p < 2 ^ 64 → fields p = (Ret a, []) →
  decodeStruct fields (enc_list p ++ r) = (Ret a, r).
Proof.
  intros Hp Hf. unfold decodeStruct, mbind, M_bind. rewrite Stream_Kind_list by done.
  unfold blen. rewrite Nat2Z.id, take_app_length, drop_app_length. by rewrite Hf.
Qed.

(** Every element takes at least one byte, so the fuel of [decodeListSlice] is enough. *)
Lemma decodeSliceElems_concat {A} (elemdec : Stream A) (e : A → bytes) l fuel :
  (∀ x r, x ∈ l → e x ≠ [] ∧ elemdec (e x ++ r) = (Ret x, r)) → (length l <= fuel)%nat →
  decodeSliceElems fuel elemdec (concat (map e l)) = (Ret l, []).
Proof.
  revert fuel. induction l as [|x l IH]; intros fuel He Hf; [by destruct fuel|].
  destruct fuel as [|fuel]; [simpl in Hf; lia|]. cbn [map concat].
  destruct (He x (concat (map e l))) as [Hne Hd]; [by left|].
  destruct (e x ++ concat (map e l)) as [|b r] eqn:E; [by apply app_nil in E as [? _]|].
  cbn [decodeSliceElems]. erewrite bind_run by exact Hd.
  erewrite bind_run by (apply IH; [intros; apply He; by right|simpl in Hf; lia]). done.
Qed.
Lemma decodeListSlice_enc_list {A} (elemdec : Stream A) (e : A → bytes) l r :
  (∀ x r, x ∈ l → e x ≠ [] ∧ elemdec (e x ++ r) = (Ret x, r)) →
  blen (concat (map e l)) < 2 ^ 64 →
  decodeListSlice elemdec (enc_list (concat (map e l)) ++ r) = (Ret l, r).
Proof.
  intros He Hl. apply decodeStruct_enc_list; [done|]. apply decodeSliceElems_concat; [done|].
  clear Hl. induction l as [|x l IH]; simpl; [lia|]. rewrite length_app.
  destruct (He x []) as [Hne _]; [by left|]. assert (length (e x) ≠ 0)%nat by (by destruct (e x)).
  assert (length l <= length (concat (map e l)))%nat; [|lia]. apply IH. intros. apply He. by right.
Qed.

(** * Splitting inverts the encoder *)
Lemma readSize_compact n r :
  is_u64 n → 56 <= n → readSize (ENC_b_endian_compact_64 n ++ r) (SizeInBytes n) = Ret n.
Proof.
  intros Hn H56. unfold readSize. pose proof (ENC_compact_length n) as Hl.
  pose proof (SizeInBytes_range n) as Hr. pose proof (blen_nonneg r).
  rewrite blen_app. replace (blen (ENC_b_endian_compact_64 n)) with (SizeInBytes n)
    by (unfold blen; rewrite Hl; lia).
  destruct (Z.ltb_spec (SizeInBytes n + blen r) (SizeInBytes n)); [lia|].
  rewrite <-Hl, take_app_length.
  assert (be_val (ENC_b_endian_compact_64 n) = n) as ->.
  { pose proof (compact_64_roundtrip n Hn) as R. unfold ENC_b_endian_compact_64_1 in R.
    rewrite DEC_b_endian_compact_64_spec in R by (auto with width || lia). congruence. }
  destruct (Z.ltb_spec n 56); [lia|]. cbn [orb].
  assert (head (ENC_b_endian_compact_64 n) ≠ Some 0) as Hh.
  { destruct (Z.ltb_spec n 256); [|by apply ENC_compact_head].
    unfold ENC_b_endian_compact_64. rewrite Z.shiftl_1_l.
    destruct (Z.ltb_spec n (2 ^ 8)); [|lia]. cbn [map head].
    intros [= E]. rewrite u8_shift in E by lia. width_lia. }
  destruct (ENC_b_endian_compact_64 n) as [|b l] eqn:E; [by apply ENC_compact_nonempty in E|].
  cbn [app head] in *. by destruct (Z.eqb_spec b 0) as [->|].
Qed.
Lemma headsize_range n : 1 <= headsize n <= 9.
Proof. unfold headsize. pose proof (SizeInBytes_range n). destruct (n <? 56); lia. Qed.
Lemma putint_length i tag : blen (putint i tag) = 1 + SizeInBytes i.
Proof.
  rewrite putint_be, blen_cons. unfold blen. rewrite ENC_compact_length.
  pose proof (SizeInBytes_range i). lia.
Qed.
Lemma puthead_length s l n : blen (puthead s l n) = headsize n.
Proof. unfold puthead, headsize. destruct (n <? 56); [done|apply putint_length]. Qed.
Lemma string_head_length n : blen (string_head n) = headsize n.
Proof. unfold string_head, headsize. destruct (n <? 56); [done|apply putint_length]. Qed.

Ltac kind_eq :=
  match goal with
  | |- Ret (?k, ?a, ?b) = Ret (?k, ?c, ?d) =>
      replace c with a by lia; replace d with b by lia; reflexivity
  end.
Lemma ReadKind_list p r :
  blen p + blen r < 2 ^ 63 →
  ReadKind (enc_list p ++ r) = Ret (KList, headsize (blen p), headsize (blen p) + blen p).
Proof.
  intros Hlen. pose proof (blen_nonneg p). pose proof (blen_nonneg r).
  pose proof (SizeInBytes_range (blen p)) as Hr. unfold enc_list. rewrite <-app_assoc.
  unfold puthead, headsize. destruct (Z.ltb_spec (blen p) 56) as [H56|H56].
  - rewrite (u8_id (blen p)), u8_id by (unfold is_byte; lia). cbn [app ReadKind].
    destruct (Z.ltb_spec (0xC0 + blen p) 0x80); [lia|].
    destruct (Z.ltb_spec (0xC0 + blen p) 0xB8); [lia|].
    destruct (Z.ltb_spec (0xC0 + blen p) 0xC0); [lia|].
    destruct (Z.ltb_spec (0xC0 + blen p) 0xF8); [|lia].
    rewrite blen_cons, blen_app, !u64_id by (unfold is_u64; lia).
    destruct (Z.ltb_spec (1 + (blen p + blen r) - 1) (0xC0 + blen p - 0xC0)); [lia|].
    kind_eq.
  - rewrite putint_be, u8_id by (unfold is_byte; lia). cbn [app ReadKind].
    destruct (Z.ltb_spec (SizeInBytes (blen p) + 0xF7) 0x80); [lia|].
    destruct (Z.ltb_spec (SizeInBytes (blen p) + 0xF7) 0xB8); [lia|].
    destruct (Z.ltb_spec (SizeInBytes (blen p) + 0xF7) 0xC0); [lia|].
    destruct (Z.ltb_spec (SizeInBytes (blen p) + 0xF7) 0xF8); [lia|].
    rewrite Z.add_simpl_r, readSize_compact by (unfold is_u64; lia).
    rewrite blen_cons, !blen_app. unfold blen at 1. rewrite ENC_compact_length, Z2Nat.id by lia.
    rewrite !u64_id by (unfold is_u64; lia).
    match goal with |- context [?a <? ?b] => destruct (Z.ltb_spec a b) end; [lia|].
    kind_eq.
Qed.
Lemma ReadKind_string str r :
  blen str + blen r < 2 ^ 63 →
  match ReadKind (AppendString str ++ r) with
  | Ret (k, t, n) => k ≠ KList ∧ AppendString str = take (Z.to_nat t) (AppendString str) ++ str ∧
      t = blen (AppendString str) - blen str ∧ n = blen (AppendString str)
  | _ => False
  end.
Proof.
  intros Hlen. pose proof (blen_nonneg str). pose proof (blen_nonneg r).
  pose proof (SizeInBytes_range (blen str)) as Hr.
  destruct (AppendString_cases str) as [(b & -> & Hb & ->) | [-> Hb]].
  { cbn [app ReadKind]. destruct (Z.ltb_spec b 0x80); [|lia].
    rewrite blen_cons, !u64_id by (unfold is_u64; rewrite ?blen_cons in *; lia).
    destruct (Z.ltb_spec (1 + blen r - 0) 1); [lia|]. done. }
  assert (ReadKind ((string_head (blen str) ++ str) ++ r) =
    Ret (KString, headsize (blen str), headsize (blen str) + blen str)) as ->.
  2:{ rewrite blen_app, string_head_length. split_and!; [done| |lia|done].
      rewrite take_app_length'; [done|]. pose proof (string_head_length (blen str)).
      unfold blen in *. lia. }
  rewrite <-app_assoc. unfold string_head, headsize, EmptyString.
  destruct (Z.ltb_spec (blen str) 56) as [H56|H56].
  - rewrite (u8_id (blen str)), u8_id by (unfold is_byte; lia). cbn [app ReadKind].
    destruct (Z.ltb_spec (0x80 + blen str) 0x80); [lia|].
    destruct (Z.ltb_spec (0x80 + blen str) 0xB8); [|lia].
    replace (0x80 + blen str - 0x80) with (blen str) by lia.
    assert ((blen str =? 1) && (1 <? blen (0x80 + blen str :: str ++ r)) &&
      match str ++ r with x :: _ => x <? 128 | [] => false end = false) as ->.
    { destruct str as [|x [|y l]]; [done| |].
      - specialize (Hb x eq_refl). cbn [app]. destruct (Z.ltb_spec x 128); [lia|].
        apply andb_false_r.
      - rewrite !blen_cons in *. pose proof (blen_nonneg l).
        destruct (Z.eqb_spec (1 + (1 + blen l)) 1); [lia|done]. }
    rewrite blen_cons, blen_app, !u64_id by (unfold is_u64; lia).
    destruct (Z.ltb_spec (1 + (blen str + blen r) - 1) (blen str)); [lia|done].
  - rewrite putint_be, u8_id by (unfold is_byte; lia). cbn [app ReadKind].
    destruct (Z.ltb_spec (SizeInBytes (blen str) + 0xB7) 0x80); [lia|].
    destruct (Z.ltb_spec (SizeInBytes (blen str) + 0xB7) 0xB8); [lia|].
    destruct (Z.ltb_spec (SizeInBytes (blen str) + 0xB7) 0xC0); [|lia].
    rewrite Z.add_simpl_r, readSize_compact by (unfold is_u64; lia).
    rewrite blen_cons, !blen_app. unfold blen at 1. rewrite ENC_compact_length, Z2Nat.id by lia.
    rewrite !u64_id by (unfold is_u64; lia).
    match goal with |- context [?a <? ?b] => destruct (Z.ltb_spec a b) end; [lia|].
    kind_eq.
Qed.
Lemma SplitList_enc_list p r :
  blen p + blen r < 2 ^ 63 → SplitList (enc_list p ++ r) = Ret (p, r).
Proof.
  intros H. pose proof (blen_nonneg p). pose proof (headsize_range (blen p)).
  pose proof (puthead_length 0xC0 0xF7 (blen p)) as Hh.
  unfold SplitList, Split. rewrite ReadKind_list by done. unfold enc_list.
  assert (Z.to_nat (headsize (blen p)) = length (puthead 0xC0 0xF7 (blen p))) as E1
    by (unfold blen in *; lia).
  assert (Z.to_nat (headsize (blen p) + blen p) = length (puthead 0xC0 0xF7 (blen p) ++ p)) as E2
    by (rewrite length_app; unfold blen in *; lia).
  by rewrite E2, take_app_length, drop_app_length, E1, drop_app_length.
Qed.
Lemma SplitString_AppendString str r :
  blen str + blen r < 2 ^ 63 → SplitString (AppendString str ++ r) = Ret (str, r).
Proof.
  intros H. pose proof (ReadKind_string str r H) as HK. unfold SplitString, Split.
  destruct (ReadKind (AppendString str ++ r)) as [[[k t] n] | |]; [|done|done].
  destruct HK as (Hk & Hs & -> & ->).
  replace (Z.to_nat (blen (AppendString str))) with (length (AppendString str))
    by (unfold blen; lia).
  rewrite take_app_length, drop_app_length.
  assert (drop (Z.to_nat (blen (AppendString str) - blen str)) (AppendString str) = str) as ->.
  { rewrite Hs at 2. apply drop_app_length'. rewrite length_take.
    apply (f_equal length) in Hs. rewrite length_app, length_take in Hs. unfold blen in *. lia. }
  by destruct k.
Qed.

(** * The interface of a stored type *)
Class RlpCodec (A : Type) := {
  rlp_wf : A → Prop;
  rlp_encode : A → outcome bytes;
  rlp_decode : Stream A;
  rlp_law a : rlp_wf a →
    ∃ b, rlp_encode a = Ret b ∧ b ≠ [] ∧ ∀ r, rlp_decode (b ++ r) = (Ret a, r)
}.
Definition MustEncodeToBytes `{RlpCodec A} (a : A) : outcome bytes := MustEncode (rlp_encode a).

Lemma rlp_roundtrip `{RlpCodec A} a :
  rlp_wf a → ∃ b, MustEncodeToBytes a = Ret b ∧ b ≠ [] ∧ MustDecodeBytes rlp_decode b = Ret a.
Proof.
  intros Ha. destruct (rlp_law a Ha) as (b & E & Hne & Hd). exists b.
  unfold MustEncodeToBytes, MustDecodeBytes, DecodeBytes. rewrite E. split_and!; [done..|].
  specialize (Hd []). rewrite app_nil_r in Hd. by rewrite Hd.
Qed.

(** * Counting the values of a payload *)
Inductive item := IString (s : bytes) | IList (payload : bytes).
Definition enc_item (i : item) : bytes :=
  match i with IString s => AppendString s | IList p => enc_list p end.
Definition enc_items (l : list item) : bytes := concat (map enc_item l).

Lemma enc_item_length i : 1 <= blen (enc_item i).
Proof.
  destruct i as [s|p]; cbn [enc_item].
  - destruct (AppendString_cases s) as [(b & _ & _ & ->) | [-> _]]; [done|].
    rewrite blen_app, string_head_length. pose proof (headsize_range (blen s)).
    pose proof (blen_nonneg s). lia.
  - unfold enc_list. rewrite blen_app, puthead_length. pose proof (headsize_range (blen p)).
    pose proof (blen_nonneg p). lia.
Qed.
Lemma ReadKind_item i r :
  blen (enc_item i) + blen r < 2 ^ 63 →
  ∃ k t, ReadKind (enc_item i ++ r) = Ret (k, t, blen (enc_item i)).
Proof.
  intros H. destruct i as [s|p]; cbn [enc_item] in *.
  - assert (blen s <= blen (AppendString s)) as Hs.
    { destruct (AppendString_cases s) as [(b & -> & _ & ->) | [-> _]]; [done|].
      rewrite blen_app. pose proof (blen_nonneg (string_head (blen s))). lia. }
    pose proof (ReadKind_string s r ltac:(lia)) as HK.
    destruct (ReadKind (AppendString s ++ r)) as [[[k t] n] | |]; [|done|done].
    destruct HK as (_ & _ & _ & ->). eauto.
  - unfold enc_list in H. rewrite blen_app, puthead_length in H.
    pose proof (headsize_range (blen p)).
    rewrite ReadKind_list by lia. do 2 eexists. unfold enc_list.
    by rewrite blen_app, puthead_length.
Qed.
Lemma CountValues_fuel_items l fuel i :
  blen (enc_items l) < 2 ^ 63 → (length (enc_items l) <= fuel)%nat →
  CountValues_fuel fuel (enc_items l) i = Ret (i + Z.of_nat (length l)).
Proof.
  revert fuel i. induction l as [|x l IH]; intros fuel i Hl Hf.
  { destruct fuel; cbn; f_equal; lia. }
  unfold enc_items in *. cbn [map concat] in *. rewrite blen_app in Hl.
  pose proof (enc_item_length x) as Hx. pose proof (blen_nonneg (concat (map enc_item l))).
  destruct (ReadKind_item x (concat (map enc_item l)) ltac:(lia)) as (k & t & HK).
  rewrite length_app in Hf.
  destruct fuel as [|fuel]; [unfold blen in *; lia|]. cbn [CountValues_fuel].
  destruct (enc_item x ++ concat (map enc_item l)) as [|b r] eqn:E.
  { apply (f_equal length) in E. rewrite length_app in E. simpl in E. unfold blen in *. lia. }
  rewrite HK, <-E. unfold blen. rewrite Nat2Z.id, drop_app_length, IH by (unfold blen in *; lia).
  f_equal. cbn [length]. lia.
Qed.

(** C31: [SplitString], [SplitList] and [CountValues] invert the encoder: from an encoding
    followed by anything they return the encoded content and exactly the rest, and a list
    payload is counted item by item, for every input of less than 2^63 bytes; in particular
    the counting loop ends. *)
Theorem rlp_split_encoded s p l r :
  blen s + blen r < 2 ^ 63 → blen p + blen r < 2 ^ 63 → blen (enc_items l) < 2 ^ 63 →
  SplitString (AppendString s ++ r) = Ret (s, r) ∧
  SplitList (enc_list p ++ r) = Ret (p, r) ∧
  CountValues (enc_items l) = Ret (Z.of_nat (length l)).
Proof.
  intros Hs Hp Hl. split_and!.
  - by apply SplitString_AppendString.
  - by apply SplitList_enc_list.
  - unfold CountValues. by rewrite CountValues_fuel_items.
Qed.
Lemma rlp_split_encoded_witness :
  SplitString (AppendString [200; 7] ++ [9]) = Ret ([200; 7], [9]) ∧
  SplitList (enc_list [0x80] ++ [9]) = Ret ([0x80], [9]) ∧
  CountValues (enc_items [IString [1]; IList [0x80]]) = Ret 2.
Proof.
  apply (rlp_split_encoded [200; 7] [0x80] [IString [1]; IList [0x80]] [9]); vm_compute; done.
Defined.
