(* ===== verification/RlpEncoder.v ===== *)
(** The RLP encoder's buffer ([Encoder] of [rlp/encode.go]): string data without the list
    headers, the headers apart with the positions they belong to, their sizes accumulated in
    32 bits; lists are opened, closed, measured, flushed and taken back.  The facts say that
    the buffer holds what the direct encoding of [Rlp.v] writes. *)
From S2P Require Import Prelude Codec Rlp.

Record ListHead : Type := {
  strpos : Z;
  base_lhsize : Z;
  elems_size : Z;
  closed : bool
}.
Record Encoder : Type := {
  str : bytes;
  lheads : list ListHead;
  lhsize : Z
}.
Definition encoder_nil : Encoder := {| str := []; lheads := []; lhsize := 0 |}.
Abbreviation Enc := (M Encoder).

(** * The operations *)
Definition Reset : Enc unit := λ _, (Ret tt, encoder_nil).
Definition Size (e : Encoder) : Z := u32 (u32 (blen (str e)) + lhsize e).
Definition list_head (list_pos : nat) : Enc ListHead := λ e,
  match lheads e !! list_pos with
  | Some lh => (Ret lh, e)
  | None => (Panic index_panic, e)
  end.
Definition ListSize (list_pos : nat) : Enc Z :=
  lh ← list_head list_pos;
  if closed lh then mret (u32 (elems_size lh + headsize (elems_size lh)))
  else go_panic "list is not closed".
Definition ListStart : Enc nat := λ e,
  (Ret (length (lheads e)),
   {| str := str e;
      lheads := lheads e ++ [{| strpos := u32 (blen (str e)); base_lhsize := lhsize e;
                                elems_size := 0; closed := false |}];
      lhsize := lhsize e |}).
Definition close_head (list_pos : nat) (lh : ListHead) : Enc unit := λ e,
  let elems := u32 (Size e - strpos lh - base_lhsize lh) in
  (Ret tt,
   {| str := str e;
      lheads := <[list_pos := {| strpos := strpos lh; base_lhsize := base_lhsize lh;
                                 elems_size := elems; closed := true |}]> (lheads e);
      lhsize := u32 (lhsize e + headsize elems) |}).
Definition ListEnd (list_pos : nat) : Enc unit :=
  lh ← list_head list_pos;
  if closed lh then go_panic "list is already closed" else close_head list_pos lh.
Definition revert_to (list_pos : nat) (lh : ListHead) : Enc unit := λ e,
  (Ret tt,
   {| str := take (Z.to_nat (strpos lh)) (str e);
      lheads := take list_pos (lheads e);
      lhsize := base_lhsize lh |}).
Definition RevertToListStart (list_pos : nat) : Enc unit :=
  lh ← list_head list_pos; revert_to list_pos lh.

(** What [Flush] hands to its appender, from [strpos0] on: the string data up to each header's
    position, and the header. *)
Fixpoint flush (strdata : bytes) (strpos0 : Z) (heads : list ListHead) : outcome bytes :=
  match heads with
  | [] => Ret (drop (Z.to_nat strpos0) strdata)
  | lh :: heads =>
      if (strpos lh <? strpos0) || (blen strdata <? strpos lh) then
        Panic "runtime error: slice bounds out of range"
      else if negb (closed lh) then Panic "the list is not closed"
      else
        match flush strdata (strpos lh) heads with
        | Ret rest =>
            Ret (drop (Z.to_nat strpos0) (take (Z.to_nat (strpos lh)) strdata) ++
                 puthead 0xC0 0xF7 (elems_size lh) ++ rest)
        | Err e => Err e
        | Panic p => Panic p
        end
  end.
Definition Flush (list_pos : nat) : Enc bytes := λ e,
  match lheads e !! list_pos with
  | Some lh => (flush (str e) (strpos lh) (drop list_pos (lheads e)), e)
  | None => (Panic index_panic, e)
  end.
(** [Flush(-1, _)]: the whole buffer. *)
Definition Flush_all : Enc bytes := λ e, (flush (str e) 0 (lheads e), e).
Definition ToBytes (since_list_pos : nat) : Enc bytes := Flush since_list_pos.
Definition ToBytes_all : Enc bytes := Flush_all.

Definition AppendRaw (b : bytes) : Enc unit := λ e,
  if blen b <? 2 ^ 32 - 1 - blen (str e) then
    (Ret tt, {| str := str e ++ b; lheads := lheads e; lhsize := lhsize e |})
  else (Panic "assertion error", e).
(** [ToRLPString(str, self.AppendRaw)]: the header and the string are appended apart. *)
Definition AppendRLPString (s : bytes) : Enc unit :=
  match s with
  | [b] => if b <=? 0x7F then AppendRaw [b]
           else AppendRaw [u8 (EmptyString + 1)] ;; AppendRaw [b]
  | _ =>
      (if blen s <? 56 then AppendRaw [u8 (EmptyString + u8 (blen s))]
       else AppendRaw (putint (blen s) 0xB7)) ;;
      AppendRaw s
  end.
Definition Append (s : bytes) : Enc unit :=
  match s with [] => AppendRaw [EmptyString] | _ => AppendRLPString s end.
Definition AppendEmptyString : Enc unit := AppendRaw [EmptyString].
Definition Append_Uint (i : Z) : Enc unit :=
  if i =? 0 then AppendEmptyString
  else if i <? 128 then AppendRaw [u8 i] else AppendRaw (putint i EmptyString).
(** [AppendBigInt]: the error of a negative integer is returned, nothing is appended. *)
Definition Append_BigInt (i : Z) : Enc unit :=
  if i =? 0 then AppendEmptyString
  else if 0 <? i then Append (big_Bytes i)
  else throw "rlp: cannot encode negative *big.Int".

(** [makeSliceWriter], [makeStructWriter]: a list is opened, its elements written in order,
    the list closed. *)
#[warnings="-register-all"]
Inductive rlp_value := RString (s : bytes) | RList (l : list rlp_value).
Fixpoint append_value (v : rlp_value) : Enc unit :=
  match v with
  | RString s => Append s
  | RList l =>
      pos ← ListStart;
      (fix elems (l : list rlp_value) : Enc unit :=
         match l with [] => mret tt | v :: l => append_value v ;; elems l end) l ;;
      ListEnd pos
  end.
Definition EncodeToBytes (v : rlp_value) : outcome bytes :=
  ((append_value v ;; ToBytes_all) encoder_nil).1.
(** The direct encoding. *)
Fixpoint encoding (v : rlp_value) : bytes :=
  match v with
  | RString s => AppendString s
  | RList l => enc_list (concat (map encoding l))
  end.

(** * What the buffer holds
    [render off s hs]: the bytes of the string data [s], which begins at offset [off] of the
    buffer, with the headers [hs] at their positions. *)
Fixpoint render (off : Z) (s : bytes) (hs : list ListHead) : bytes :=
  match hs with
  | [] => s
  | h :: hs =>
      take (Z.to_nat (strpos h - off)) s ++ puthead 0xC0 0xF7 (elems_size h) ++
      render (strpos h) (drop (Z.to_nat (strpos h - off)) s) hs
  end.
Fixpoint heads_ok (off : Z) (len : Z) (hs : list ListHead) : Prop :=
  match hs with
  | [] => True
  | h :: hs =>
      closed h = true ∧ off <= strpos h <= off + len ∧
      heads_ok (strpos h) (len - (strpos h - off)) hs
  end.

Lemma blen_drop n s : 0 <= n <= blen s → blen (drop (Z.to_nat n) s) = blen s - n.
Proof. unfold blen. rewrite length_drop. lia. Qed.
Lemma render_app hs1 hs2 off s1 s2 :
  heads_ok off (blen s1) hs1 → heads_ok (off + blen s1) (blen s2) hs2 →
  render off (s1 ++ s2) (hs1 ++ hs2) = render off s1 hs1 ++ render (off + blen s1) s2 hs2 ∧
  heads_ok off (blen (s1 ++ s2)) (hs1 ++ hs2).
Proof.
  revert off s1. induction hs1 as [|h hs1 IH]; intros off s1 H1 H2; simpl in *.
  - destruct hs2 as [|h hs2]; simpl in *; [done|]. destruct H2 as (Hc & Hp & H2).
    assert (Z.to_nat (strpos h - off) =
      length s1 + Z.to_nat (strpos h - (off + blen s1)))%nat as -> by (unfold blen in *; lia).
    rewrite take_app, drop_app, take_ge, (drop_ge s1) by lia.
    replace (length s1 + Z.to_nat (strpos h - (off + blen s1)) - length s1)%nat
      with (Z.to_nat (strpos h - (off + blen s1))) by lia.
    rewrite <-app_assoc, blen_app. pose proof (blen_nonneg s1). split_and!; try (done || lia).
    by replace (blen s1 + blen s2 - (strpos h - off)) with
        (blen s2 - (strpos h - (off + blen s1))) by lia.
  - destruct H1 as (Hc & Hp & H1).
    assert (Z.to_nat (strpos h - off) <= length s1)%nat as Hn by (unfold blen in *; lia).
    rewrite take_app_le, drop_app_le by lia.
    destruct (IH (strpos h) (drop (Z.to_nat (strpos h - off)) s1)) as [-> IH2].
    + by rewrite blen_drop by lia.
    + rewrite blen_drop by lia.
      by replace (strpos h + (blen s1 - (strpos h - off))) with (off + blen s1) by lia.
    + rewrite <-!app_assoc, blen_drop in * by lia.
      replace (strpos h + (blen s1 - (strpos h - off))) with (off + blen s1) by lia.
      split_and!; try done; rewrite ?blen_app in *; pose proof (blen_nonneg s2); try lia.
      rewrite blen_drop in IH2 by lia.
      by replace (blen s1 + blen s2 - (strpos h - off)) with
        (blen s1 - (strpos h - off) + blen s2) by lia.
Qed.
Lemma flush_render hs strdata off :
  0 <= off <= blen strdata → heads_ok off (blen strdata - off) hs →
  flush strdata off hs = Ret (render off (drop (Z.to_nat off) strdata) hs).
Proof.
  revert off. induction hs as [|h hs IH]; intros off Ho H; simpl in *; [done|].
  destruct H as (Hc & Hp & H). rewrite Hc.
  destruct (Z.ltb_spec (strpos h) off), (Z.ltb_spec (blen strdata) (strpos h)); try lia.
  cbn [orb negb]. rewrite IH; [|lia|].
  - rewrite drop_drop. do 2 f_equal.
    + rewrite take_drop_commute. do 2 f_equal. lia.
    + do 3 f_equal. lia.
  - by replace (blen strdata - strpos h) with (blen strdata - off - (strpos h - off)) by lia.
Qed.

(** [appended e e' b]: [e'] is [e] with the encoding [b] added. *)
Definition room (e : Encoder) : Z := 2 ^ 32 - 1 - (blen (str e) + lhsize e).
Definition valid (e : Encoder) : Prop := 0 <= lhsize e ∧ 0 < room e.
Definition appended (e e' : Encoder) (b : bytes) : Prop :=
  ∃ s hs, str e' = str e ++ s ∧ lheads e' = lheads e ++ hs ∧
    heads_ok (blen (str e)) (blen s) hs ∧ render (blen (str e)) s hs = b ∧
    blen s + lhsize e' = lhsize e + blen b ∧ lhsize e <= lhsize e'.

Lemma appended_nil e : appended e e [].
Proof. exists [], []. rewrite !app_nil_r. cbn. split_and!; try done; lia. Qed.
Lemma appended_raw e s :
  appended e {| str := str e ++ s; lheads := lheads e; lhsize := lhsize e |} s.
Proof. exists s, []. rewrite app_nil_r. cbn. split_and!; try done; lia. Qed.
Lemma appended_app e e1 e2 b1 b2 :
  appended e e1 b1 → appended e1 e2 b2 → appended e e2 (b1 ++ b2).
Proof.
  intros (s1 & hs1 & Es1 & Eh1 & Hok1 & Hr1 & Hl1 & Hle1)
    (s2 & hs2 & Es2 & Eh2 & Hok2 & Hr2 & Hl2 & Hle2).
  rewrite Es1, blen_app in Hok2, Hr2.
  destruct (render_app hs1 hs2 (blen (str e)) s1 s2 Hok1 Hok2) as [Hr Hok].
  exists (s1 ++ s2), (hs1 ++ hs2). rewrite Es2, Es1, Eh2, Eh1, !app_assoc.
  rewrite Hr, Hr1, Hr2, !blen_app in *. split_and!; try done; lia.
Qed.
Lemma appended_room e e' b : appended e e' b → room e' = room e - blen b.
Proof. intros (s & hs & Es & _ & _ & _ & Hl & _). unfold room. rewrite Es, blen_app. lia. Qed.
Lemma appended_valid e e' b : appended e e' b → valid e → blen b < room e → valid e'.
Proof.
  intros H [Hv _] Hb. split; [|rewrite (appended_room _ _ _ H); lia].
  destruct H as (s & hs & _ & _ & _ & _ & _ & ?). lia.
Qed.

(** * The operations on what the buffer holds *)
Lemma AppendRaw_spec e b :
  valid e → blen b < room e → ∃ e', AppendRaw b e = (Ret tt, e') ∧ appended e e' b.
Proof.
  intros [Hl _] Hb. unfold AppendRaw, room in *.
  destruct (Z.ltb_spec (blen b) (2 ^ 32 - 1 - blen (str e))); [|lia].
  eexists. split; [done|]. apply appended_raw.
Qed.
Lemma AppendRaw_then e b1 b2 :
  valid e → blen (b1 ++ b2) < room e →
  ∃ e', (AppendRaw b1 ;; AppendRaw b2) e = (Ret tt, e') ∧ appended e e' (b1 ++ b2).
Proof.
  intros Hv Hb. rewrite blen_app in Hb. pose proof (blen_nonneg b2).
  destruct (AppendRaw_spec e b1 Hv ltac:(lia)) as (e1 & E1 & A1).
  destruct (AppendRaw_spec e1 b2) as (e2 & E2 & A2).
  { apply (appended_valid e e1 b1); [done..|lia]. }
  { rewrite (appended_room _ _ _ A1). lia. }
  exists e2. split; [|by eapply appended_app]. unfold mbind, M_bind. by rewrite E1.
Qed.
Lemma Append_spec e s :
  valid e → blen (AppendString s) < room e →
  ∃ e', Append s e = (Ret tt, e') ∧ appended e e' (AppendString s).
Proof.
  intros Hv Hb. destruct s as [|x s]; [by apply AppendRaw_spec|].
  unfold Append, AppendRLPString, AppendString, ToRLPString in *.
  destruct s as [|y s].
  - destruct (x <=? 0x7F); [by apply AppendRaw_spec|by apply (AppendRaw_then e [_] [x])].
  - destruct (blen (x :: y :: s) <? 56); by apply AppendRaw_then.
Qed.

Definition started (e : Encoder) : Encoder :=
  {| str := str e;
     lheads := lheads e ++ [{| strpos := u32 (blen (str e)); base_lhsize := lhsize e;
                               elems_size := 0; closed := false |}];
     lhsize := lhsize e |}.
Lemma ListStart_run e : ListStart e = (Ret (length (lheads e)), started e).
Proof. done. Qed.
Lemma started_room e : room (started e) = room e.
Proof. done. Qed.
Lemma started_valid e : valid e → valid (started e).
Proof. done. Qed.
Lemma enc_list_blen b : blen (enc_list b) = headsize (blen b) + blen b.
Proof. unfold enc_list. by rewrite blen_app, puthead_length. Qed.

(** The list [b] closed at [pos]: what every reader of the closed list sees. *)
Record list_closed (e e2 : Encoder) (pos : nat) (b : bytes) : Prop := {
  lc_appended : appended e e2 (enc_list b);
  lc_size : ListSize pos e2 = (Ret (blen (enc_list b)), e2);
  lc_flush : Flush pos e2 = (Ret (enc_list b), e2);
  lc_revert : RevertToListStart pos e2 = (Ret tt, e)
}.
Lemma ListEnd_spec e e1 b :
  valid e → appended (started e) e1 b → blen (enc_list b) < room e →
  ∃ e2, ListEnd (length (lheads e)) e1 = (Ret tt, e2) ∧
    list_closed e e2 (length (lheads e)) b.
Proof.
  intros [Hv Hr] (s & hs & Es & Eh & Hok & Hrd & Hl & Hle) Hb.
  set (pos := length (lheads e)). cbn [started str lheads lhsize] in *.
  rewrite enc_list_blen in Hb. unfold room in Hb, Hr. pose proof (blen_nonneg (str e)).
  pose proof (blen_nonneg s). pose proof (blen_nonneg b). pose proof (headsize_range (blen b)).
  set (h0 := {| strpos := _; base_lhsize := _; elems_size := _; closed := false |}) in *.
  set (h := {| strpos := blen (str e); base_lhsize := lhsize e; elems_size := blen b;
               closed := true |}).
  assert (lheads e1 !! pos = Some h0) as Hlook.
  { rewrite Eh, <-app_assoc. apply list_lookup_middle. done. }
  assert (<[pos := h]> (lheads e1) = lheads e ++ h :: hs) as Hins.
  { rewrite Eh, <-app_assoc. unfold pos. rewrite insert_app_r_alt, Nat.sub_diag by lia. done. }
  set (e2 := {| str := str e1; lheads := lheads e ++ h :: hs;
                lhsize := lhsize e1 + headsize (blen b) |}).
  assert (lheads e2 !! pos = Some h) as Hlook2 by by apply list_lookup_middle.
  exists e2. split; [|split].
  - unfold ListEnd, list_head, mbind, M_bind. rewrite Hlook. cbn [closed h0]. unfold close_head.
    assert (u32 (Size e1 - strpos h0 - base_lhsize h0) = blen b) as ->.
    { cbn [h0 strpos base_lhsize]. unfold Size, u32. rewrite Es, blen_app.
      rewrite !(Z.mod_small (blen (str e))), !(Z.mod_small (blen (str e) + blen s)) by lia.
      rewrite !Z.mod_small; rewrite ?Z.mod_small; lia. }
    assert (u32 (lhsize e1 + headsize (blen b)) = lhsize e1 + headsize (blen b)) as ->
      by (apply u32_id; split; lia).
    assert ({| strpos := strpos h0; base_lhsize := base_lhsize h0; elems_size := blen b;
               closed := true |} = h) as ->.
    { unfold h. f_equal. cbn. apply u32_id. unfold is_u32. lia. }
    by rewrite Hins.
  - exists s, (h :: hs). cbn [e2 str lheads lhsize]. rewrite Es. cbn [heads_ok render h strpos].
    replace (blen (str e) - blen (str e)) with 0 by lia. rewrite Z.sub_0_r, drop_0.
    rewrite Hrd, enc_list_blen. split_and!; try done; lia.
  - unfold ListSize, mbind, M_bind, list_head. rewrite Hlook2. cbn [h closed elems_size].
    rewrite enc_list_blen, u32_id by (unfold is_u32; lia). unfold mret, M_ret.
    do 2 f_equal. lia.
  - unfold Flush. rewrite Hlook2. cbn [e2 lheads str h strpos].
    assert (drop pos (lheads e ++ h :: hs) = h :: hs) as -> by (apply drop_app_length).
    rewrite Es, flush_render.
    + rewrite drop_app_le by (unfold blen; lia). rewrite drop_ge by (unfold blen; lia).
      cbn [render strpos h]. replace (blen (str e) - blen (str e)) with 0 by lia.
      rewrite drop_0, !(app_nil_l s). by rewrite Hrd.
    + rewrite blen_app. lia.
    + cbn [heads_ok strpos closed h]. rewrite blen_app.
      replace (blen (str e) + blen s - blen (str e)) with (blen s) by lia.
      replace (blen (str e) - blen (str e)) with 0 by lia. rewrite Z.sub_0_r.
      split_and!; try done; lia.
  - unfold RevertToListStart, mbind, M_bind, list_head. rewrite Hlook2. unfold revert_to.
    cbn [e2 str lheads h strpos base_lhsize]. rewrite Es. unfold pos. rewrite take_app_length.
    rewrite take_app_le, take_ge by (unfold blen; lia). by destruct e.
Qed.

(** * The buffer writes the encoding *)
Lemma rlp_value_ind' (P : rlp_value → Prop) :
  (∀ s, P (RString s)) → (∀ l, Forall P l → P (RList l)) → ∀ v, P v.
Proof.
  intros Hs Hl. fix IH 1. intros [s|l]; [apply Hs|]. apply Hl.
  induction l as [|v l IHl]; constructor; [apply IH|apply IHl].
Qed.
Fixpoint append_elems (l : list rlp_value) : Enc unit :=
  match l with [] => mret tt | v :: l => append_value v ;; append_elems l end.
Lemma append_value_list l :
  append_value (RList l) = (pos ← ListStart; append_elems l ;; ListEnd pos).
Proof. done. Qed.
Lemma encoding_list l : encoding (RList l) = enc_list (concat (map encoding l)).
Proof. done. Qed.
(** A list: [m] appends its elements between [ListStart] and [ListEnd]. *)
Lemma list_spec (m : Enc unit) b :
  (∀ e, valid e → blen b < room e → ∃ e', m e = (Ret tt, e') ∧ appended e e' b) →
  ∀ e, valid e → blen (enc_list b) < room e →
  ∃ e', (pos ← ListStart; m ;; ListEnd pos) e = (Ret tt, e') ∧ appended e e' (enc_list b).
Proof.
  intros Hm e Hv Hr. pose proof Hr as Hr'. rewrite enc_list_blen in Hr'.
  pose proof (headsize_range (blen b)).
  destruct (Hm (started e) (started_valid e Hv)) as (e1 & E1 & A1).
  { rewrite started_room. lia. }
  destruct (ListEnd_spec e e1 b Hv A1 Hr) as (e2 & E2 & [A2 _ _ _]).
  exists e2. split; [|done]. unfold mbind, M_bind. rewrite ListStart_run. by rewrite E1.
Qed.
Lemma append_value_spec v e :
  valid e → blen (encoding v) < room e →
  ∃ e', append_value v e = (Ret tt, e') ∧ appended e e' (encoding v).
Proof.
  revert e. induction v as [s|l IH] using rlp_value_ind'; intros e Hv Hr; [by apply Append_spec|].
  rewrite append_value_list. rewrite encoding_list in *.
  apply list_spec; [|done..]. clear e Hv Hr.
  induction IH as [|v l Hx _ IHl]; intros e Hv Hr; cbn [append_elems].
  { exists e. split; [done|apply appended_nil]. }
  assert (concat (map encoding (v :: l)) = encoding v ++ concat (map encoding l)) as Hcat by done.
  rewrite Hcat in *. clear Hcat.
  rewrite blen_app in Hr. pose proof (blen_nonneg (concat (map encoding l))).
  pose proof (blen_nonneg (encoding v)).
  destruct (Hx e Hv ltac:(lia)) as (e1 & E1 & A1).
  destruct (IHl e1) as (e2 & E2 & A2).
  { by apply (appended_valid _ _ _ A1); [|lia]. }
  { rewrite (appended_room _ _ _ A1). lia. }
  exists e2. split; [|by eapply appended_app]. unfold mbind, M_bind. by rewrite E1.
Qed.

(** The whole buffer, begun empty. *)
Lemma ToBytes_all_spec e b :
  appended encoder_nil e b → ToBytes_all e = (Ret b, e).
Proof.
  intros (s & hs & Es & Eh & Hok & Hr & _). unfold ToBytes_all, Flush_all.
  rewrite Es, Eh. cbn [encoder_nil str lheads] in *.
  rewrite !app_nil_l. change (blen []) with 0 in *. rewrite flush_render.
  - by rewrite drop_0, Hr.
  - pose proof (blen_nonneg s). lia.
  - by rewrite Z.sub_0_r.
Qed.

(** C33: encoder_buffer_exact.  The buffered encoder (string data and list headers kept apart,
    headers closed inside out, sizes in 32 bits) writes exactly the direct RLP encoding of every
    nested value whose encoding is shorter than 2^32 - 1 bytes, and no write of it panics. *)
Theorem encoder_buffer_exact v :
  blen (encoding v) < 2 ^ 32 - 1 → EncodeToBytes v = Ret (encoding v).
Proof.
  intros Hv. destruct (append_value_spec v encoder_nil) as (e & E1 & A1); [done|done|].
  unfold EncodeToBytes, mbind, M_bind. rewrite E1. by rewrite (ToBytes_all_spec e _ A1).
Qed.
Lemma encoder_buffer_exact_witness :
  EncodeToBytes (RList [RString [7]; RList [RString (replicate 60 1); RString []]; RString [200]]) =
  Ret (encoding (RList [RString [7]; RList [RString (replicate 60 1); RString []]; RString [200]])).
Proof. apply encoder_buffer_exact. vm_compute. reflexivity. Defined.
