(* ===== verification/Storage.v ===== *)
(** Contract storage ([ebla/state/contracts/storage/storage.go]): the caching reader and
    writer a precompiled contract uses, the raw storage of the contract's account behind it,
    and the stored lists.  Keccak-256 is a parameter; the interface [KVStore] is what the
    other components know of the storage. *)
From S2P Require Import Prelude Codec.

(** Keccak-256 is not code of the repository (golang.org/x/crypto/sha3). *)
Class Keccak := keccak : bytes → bytes.
(** Collision resistance, idealised to injectivity. *)
Class KeccakInj `{Keccak} := keccak_inj : ∀ a b : bytes, keccak a = keccak b → a = b.

Definition Stor_k_1 `{Keccak} (parts : list bytes) : bytes := keccak (concat parts).
Definition Stor_k_2 `{Keccak} (parts : list bytes) : bytes := keccak (concat parts).
Lemma Stor_k_1_inj `{KeccakInj} p q : Stor_k_1 p = Stor_k_1 q → concat p = concat q.
Proof. apply keccak_inj. Qed.
Lemma Stor_k_2_inj `{KeccakInj} p q : Stor_k_2 p = Stor_k_2 q → concat p = concat q.
Proof. apply keccak_inj. Qed.
Lemma Stor_k_12_inj `{KeccakInj} p q : Stor_k_2 p = Stor_k_1 q → concat p = concat q.
Proof. apply keccak_inj. Qed.

(** A hash for the examples: the identity, which is injective. *)
Definition id_keccak : Keccak := λ b, b.
Lemma id_keccak_inj : KeccakInj (H := id_keccak).
Proof. intros a b E. exact E. Qed.

(** * The cached storage *)
(** [cache]: the wrapper's map (a nil map reads as the empty one); [dirty]: what the account
    wrote since the last commit ([RawStorageDirty] and the trie writer it is flushed into);
    [db]: the committed storage, the only one [GetAccountStorage] reads. *)
Record StorageWrapper : Type := {
  cache : gmap bytes bytes;
  dirty : gmap bytes bytes;
  db : gmap bytes bytes
}.

Definition SW_Get (k : bytes) : M StorageWrapper bytes := λ s,
  match cache s !! k with
  | Some v => (Ret v, s)
  | None =>
      match db s !! k with
      | Some (b :: v) =>
          (Ret (b :: v), {| cache := <[k := b :: v]> (cache s); dirty := dirty s; db := db s |})
      | _ => (Ret [], s)
      end
  end.
Definition SW_Put (k v : bytes) : M StorageWrapper unit := λ s,
  (Ret tt, {| cache := <[k := v]> (cache s); dirty := <[k := v]> (dirty s); db := db s |}).
Definition SW_ClearCache : M StorageWrapper unit := λ s,
  (Ret tt, {| cache := ∅; dirty := dirty s; db := db s |}).

(** An empty value is no value: [TrieSinkAccountMutation.Update] deletes the key. *)
Definition nonempty (v : bytes) : option bytes := match v with [] => None | _ => Some v end.
Definition clean (m : gmap bytes bytes) : gmap bytes bytes := omap nonempty m.
Definition SW_Update : M StorageWrapper unit := λ s,
  (Ret tt, {| cache := cache s; dirty := ∅; db := clean (dirty s ∪ db s) |}).
(** [StateTransition.Commit]: the block's writes reach the database, then [CommitCall] drops
    the cache. *)
Definition SW_CommitCall : M StorageWrapper unit := SW_Update ;; SW_ClearCache.

(** * The interface *)
Definition view_put (k v : bytes) (m : gmap bytes bytes) : gmap bytes bytes :=
  match v with [] => delete k m | _ => <[k := v]> m end.

Definition map_get (k : bytes) : M (gmap bytes bytes) bytes := λ m, (Ret (default [] (m !! k)), m).
Definition map_put (k v : bytes) : M (gmap bytes bytes) unit := λ m, (Ret tt, view_put k v m).

(** A store behaves like the finite map [kv_view] shows: reading returns the entry (the empty
    value when there is none) and writing replaces it. *)
Class KVStore (St : Type) := {
  kv_view : St → gmap bytes bytes;
  kv_get : bytes → M St bytes;
  kv_put : bytes → bytes → M St unit;
  kv_get_sim k : sim kv_view (kv_get k) (map_get k);
  kv_put_sim k v : sim kv_view (kv_put k v) (map_put k v)
}.

#[export] Program Instance map_store : KVStore (gmap bytes bytes) := {
  kv_view m := m; kv_get := map_get; kv_put := map_put
}.
Solve All Obligations with done.

Definition SW_view (s : StorageWrapper) : gmap bytes bytes := clean (cache s ∪ db s).

Lemma lookup_clean m k : clean m !! k = m !! k ≫= nonempty.
Proof. apply lookup_omap. Qed.
Lemma clean_lookup_default m k : default [] (clean m !! k) = default [] (m !! k).
Proof. rewrite lookup_clean. by destruct (m !! k) as [[|]|]. Qed.
Lemma clean_insert m k v : clean (<[k := v]> m) = view_put k v (clean m).
Proof.
  apply map_eq. intros i. rewrite lookup_clean. destruct (decide (k = i)) as [<-|N].
  - rewrite lookup_insert_eq. destruct v; simpl.
    + by rewrite lookup_delete_eq.
    + by rewrite lookup_insert_eq.
  - rewrite lookup_insert_ne by done. rewrite <-lookup_clean. destruct v; simpl.
    + by rewrite lookup_delete_ne.
    + by rewrite lookup_insert_ne.
Qed.
Lemma clean_idemp m : clean (clean m) = clean m.
Proof. apply map_eq. intros i. rewrite !lookup_clean. by destruct (m !! i) as [[|]|]. Qed.
Lemma clean_union_l m1 m2 : clean (m1 ∪ clean m2) = clean (m1 ∪ m2).
Proof.
  apply map_eq. intros i. rewrite !lookup_clean, !lookup_union, lookup_clean.
  by destruct (m1 !! i) as [[|]|], (m2 !! i) as [[|]|].
Qed.

Lemma SW_get_sim k : sim SW_view (SW_Get k) (map_get k).
Proof.
  intros s. unfold map_get, SW_Get, SW_view. rewrite clean_lookup_default, lookup_union.
  destruct (cache s !! k) as [v|] eqn:Ec.
  { by destruct (db s !! k). }
  destruct (db s !! k) as [[|b v]|] eqn:Ed; simpl; [done| |done].
  f_equal. f_equal. rewrite <-insert_union_l. symmetry. apply insert_id.
  rewrite lookup_union, Ec, Ed. done.
Qed.
Lemma SW_put_sim k v : sim SW_view (SW_Put k v) (map_put k v).
Proof.
  intros s. unfold map_put, SW_Put, SW_view. simpl. by rewrite <-insert_union_l, clean_insert.
Qed.
#[export] Instance wrapper_store : KVStore StorageWrapper := {
  kv_view := SW_view; kv_get := SW_Get; kv_put := SW_Put;
  kv_get_sim := SW_get_sim; kv_put_sim := SW_put_sim
}.

#[export] Hint Resolve kv_get_sim kv_put_sim : sim.

(** * Coherence of the cache across blocks *)
(** Every cached entry is what the account holds, and every write of the block is cached. *)
Definition SW_coherent (s : StorageWrapper) : Prop :=
  (∀ k v, cache s !! k = Some v → default [] ((dirty s ∪ db s) !! k) = v) ∧
  (∀ k v, dirty s !! k = Some v → is_Some (cache s !! k)).

Inductive SW_op : Type :=
| OpGet (k : bytes)
| OpPut (k v : bytes)
| OpCommit.
Definition SW_exec (o : SW_op) : M StorageWrapper (list bytes) :=
  match o with
  | OpGet k => v ← SW_Get k; mret [v]
  | OpPut k v => SW_Put k v ;; mret []
  | OpCommit => SW_CommitCall ;; mret []
  end.
Definition map_exec (o : SW_op) : M (gmap bytes bytes) (list bytes) :=
  match o with
  | OpGet k => v ← map_get k; mret [v]
  | OpPut k v => map_put k v ;; mret []
  | OpCommit => mret []
  end.

Lemma coherent_view s : SW_coherent s → SW_view s = clean (dirty s ∪ db s).
Proof.
  intros [Hc Hd]. apply map_eq. intros k. unfold SW_view. rewrite !lookup_clean, lookup_union.
  destruct (cache s !! k) as [v|] eqn:E.
  - specialize (Hc k v E). destruct ((dirty s ∪ db s) !! k) as [w|]; simpl in Hc; subst.
    + by destruct (db s !! k).
    + by destruct (db s !! k).
  - rewrite lookup_union. destruct (dirty s !! k) eqn:D; [|by destruct (db s !! k)].
    destruct (Hd _ _ D); congruence.
Qed.
Lemma SW_exec_coherent o s : SW_coherent s → SW_coherent (SW_exec o s).2.
Proof.
  intros [Hc Hd]. destruct o as [k|k v|]; simpl.
  - unfold mbind, M_bind, SW_Get. destruct (cache s !! k) eqn:Ek; [by split|].
    destruct (db s !! k) as [[|b v]|] eqn:Ed; [by split| |by split].
    split; simpl; intros k' w.
    + rewrite lookup_insert_Some, lookup_union. intros [[<- <-]|[N E]].
      * destruct (dirty s !! k) eqn:D; [|by rewrite Ed].
        destruct (Hd _ _ D); congruence.
      * rewrite <-lookup_union. by apply Hc.
    + intros D. destruct (decide (k = k')) as [<-|N].
      * rewrite lookup_insert_eq. done.
      * rewrite lookup_insert_ne by done. by eapply Hd.
  - split; simpl; intros k' w.
    + rewrite lookup_insert_Some, <-insert_union_l. intros [[<- <-]|[N E]].
      * by rewrite lookup_insert_eq.
      * rewrite lookup_insert_ne by done. by apply Hc.
    + rewrite !lookup_insert_Some. intros [[<- <-]|[N E]].
      * rewrite lookup_insert_eq. done.
      * rewrite lookup_insert_ne by done. by eapply Hd.
  - by split.
Qed.
Lemma SW_exec_sim o s :
  SW_coherent s → map_exec o (SW_view s) = ((SW_exec o s).1, SW_view (SW_exec o s).2).
Proof.
  intros Hs. destruct o as [k|k v|]; simpl.
  - assert (sim SW_view (v ← SW_Get k; mret [v]) (v ← map_get k; mret [v])) as ->; [|done].
    apply sim_bind; [apply SW_get_sim|done].
  - assert (sim SW_view (SW_Put k v ;; mret ([] : list bytes)) (map_put k v ;; mret [])) as ->; [|done].
    apply sim_bind; [apply SW_put_sim|done].
  - rewrite coherent_view by done. unfold mret, M_ret, SW_view. simpl.
    rewrite !(left_id_L ∅ (∪)), clean_idemp. done.
Qed.

Definition run_ops {S} (exec : SW_op → M S (list bytes)) : list SW_op → M S (list bytes) :=
  fold_m (λ out o, r ← exec o; mret (out ++ r)) [].

Lemma run_ops_from l out s :
  SW_coherent s →
  fold_m (λ out o, r ← map_exec o; mret (out ++ r)) out l (SW_view s) =
    ((fold_m (λ out o, r ← SW_exec o; mret (out ++ r)) out l s).1,
     SW_view (fold_m (λ out o, r ← SW_exec o; mret (out ++ r)) out l s).2) ∧
  SW_coherent (fold_m (λ out o, r ← SW_exec o; mret (out ++ r)) out l s).2.
Proof.
  revert out s. induction l as [|o l IH]; intros out s Hs; [done|]. simpl.
  pose proof (SW_exec_sim o s Hs) as E. pose proof (SW_exec_coherent o s Hs) as Hs'.
  rewrite !bind_assoc. unfold mbind, M_bind. rewrite E.
  destruct (SW_exec o s) as [[r | e | p] s']; simpl in *; [|done|done].
  apply IH. done.
Qed.

(** C34: storage_wrapper_refines_map.  Over any sequence of reads, writes and block commits,
    the caching wrapper over the committed database returns exactly what a plain finite map
    returns (reads see the block's own writes although the backend only shows the last
    committed block, an empty value reads as absent, a commit changes nothing), and the cache
    stays coherent. *)
Theorem storage_wrapper_refines_map ops s :
  SW_coherent s →
  run_ops map_exec ops (SW_view s) = ((run_ops SW_exec ops s).1, SW_view (run_ops SW_exec ops s).2)
  ∧ SW_coherent (run_ops SW_exec ops s).2.
Proof. apply run_ops_from. Qed.

Definition storage_example : StorageWrapper := {| cache := ∅; dirty := ∅; db := {[ [1] := [7] ]} |}.
Lemma storage_wrapper_refines_map_witness :
  run_ops map_exec [OpGet [1]; OpPut [1] [8]; OpPut [2] [9]; OpPut [2] []; OpGet [1]; OpCommit;
    OpGet [1]; OpGet [2]] (SW_view storage_example) = (Ret [[7]; [8]; [8]; []], {[ [1] := [8] ]}).
Proof.
  assert (SW_coherent storage_example) as H by (split; intros k v Hk; inversion Hk).
  rewrite (proj1 (storage_wrapper_refines_map _ _ H)). vm_compute. reflexivity.
Defined.

(** * Stored lists *)
Section lists.
Context `{Keccak} {St : Type} `{!KVStore St}.

Definition length_key (prefix : bytes) : bytes := Stor_k_2 [prefix; [108; 101; 110; 103; 116; 104]].
Definition list_pos_key (prefix : bytes) (pos : Z) : bytes :=
  Stor_k_1 [prefix; ENC_b_endian_64 pos].
(** [self.Get(&len_k, ...)]: the callback runs only on a non-empty value. *)
Definition list_length (prefix : bytes) : M St Z :=
  b ← kv_get (length_key prefix);
  match b with [] => mret 0 | _ => of_outcome (DEC_b_endian_compact_64 b) end.
(** The values handed to the callback, in order. *)
Definition ListForEach (prefix : bytes) : M St (list bytes) :=
  length ← list_length prefix;
  vs ← map_m (seqZ 0 length) (λ i, kv_get (list_pos_key prefix i));
  mret (omap nonempty vs).
Definition ListAppend (prefix val : bytes) : M St Z :=
  pos ← list_length prefix;
  kv_put (list_pos_key prefix pos) val ;;
  kv_put (length_key prefix) (ENC_b_endian_compact_64_1 (u64 (pos + 1))) ;;
  mret pos.
Definition ListRemove (prefix : bytes) (pos : Z) : M St bytes :=
  length ← list_length prefix;
  panic_if (negb (0 <? length)) "assertion error" ;;
  last_element ← (if negb (length =? 1) then
      let lastpos_k := list_pos_key prefix (length - 1) in
      last_element ← kv_get lastpos_k;
      kv_put lastpos_k [] ;; mret last_element
    else mret []);
  kv_put (list_pos_key prefix pos) last_element ;;
  kv_put (length_key prefix) (ENC_b_endian_compact_64_1 (length - 1)) ;;
  mret last_element.
End lists.

Section lists_refine.
Context `{Keccak} {St : Type} `{!KVStore St}.

Lemma list_length_sim p : sim (kv_view (St := St)) (list_length p) (list_length p).
Proof. unfold list_length. sim_solve. Qed.
#[local] Hint Resolve list_length_sim : sim.
Lemma ListForEach_sim p : sim (kv_view (St := St)) (ListForEach p) (ListForEach p).
Proof. unfold ListForEach. sim_solve. Qed.
Lemma ListAppend_sim p v : sim (kv_view (St := St)) (ListAppend p v) (ListAppend p v).
Proof. unfold ListAppend. sim_solve. Qed.
Lemma ListRemove_sim p i : sim (kv_view (St := St)) (ListRemove p i) (ListRemove p i).
Proof. unfold ListRemove. sim_solve. Qed.
End lists_refine.

(** ** The stored list as a list *)
Definition get (m : gmap bytes bytes) (k : bytes) : bytes := default [] (m !! k).

Lemma map_get_run (k : bytes) (m : gmap bytes bytes) : kv_get k m = (Ret (get m k), m).
Proof. done. Qed.
Lemma map_put_run (k v : bytes) (m : gmap bytes bytes) : kv_put k v m = (Ret tt, view_put k v m).
Proof. done. Qed.
Lemma get_put_eq k v m : get (view_put k v m) k = v.
Proof. unfold get, view_put. destruct v; [by rewrite lookup_delete_eq|by rewrite lookup_insert_eq]. Qed.
Lemma get_put_ne k k' v m : k ≠ k' → get (view_put k v m) k' = get m k'.
Proof.
  intros. unfold get, view_put. destruct v; [by rewrite lookup_delete_ne|by rewrite lookup_insert_ne].
Qed.

Section list_spec.
Context `{KeccakInj}.

Record list_rep (p : bytes) (l : list bytes) (m : gmap bytes bytes) : Prop := {
  lr_length : list_length p m = (Ret (Z.of_nat (length l)), m);
  lr_u64 : is_u64 (Z.of_nat (length l));
  lr_values : ∀ i v, l !! i = Some v → get m (list_pos_key p (Z.of_nat i)) = v;
  lr_nonempty : Forall (.≠ []) l
}.

Lemma list_pos_key_ne p i j :
  is_u64 i → is_u64 j → i ≠ j → list_pos_key p i ≠ list_pos_key p j.
Proof.
  intros Hi Hj N E. apply Stor_k_1_inj in E. cbn [concat] in E.
  rewrite !app_nil_r in E. apply app_inv_head in E.
  rewrite !ENC_b_endian_64_be in E. apply (f_equal (@rev Z)) in E. rewrite !rev_involutive in E.
  apply N. apply (f_equal le_dec) in E. rewrite !le_dec_enc in E.
  change (256 ^ Z.of_nat 8) with (2 ^ 64) in E. fold (u64 i) (u64 j) in E.
  by rewrite !u64_id in E.
Qed.
Lemma list_length_pos_ne p i : length_key p ≠ list_pos_key p i.
Proof.
  intros E. apply Stor_k_12_inj in E. cbn [concat] in E.
  rewrite !app_nil_r in E. apply app_inv_head in E.
  apply (f_equal length) in E. rewrite ENC_b_endian_64_be, length_rev, length_le_enc in E. done.
Qed.
Lemma list_length_put p n m :
  is_u64 n → list_length p (view_put (length_key p) (ENC_b_endian_compact_64_1 n) m) =
    (Ret n, view_put (length_key p) (ENC_b_endian_compact_64_1 n) m).
Proof.
  intros Hn. unfold list_length. erewrite bind_run; [|reflexivity].
  change (default [] (?m !! ?k)) with (get m k). rewrite get_put_eq.
  pose proof (compact_64_roundtrip n Hn) as R. pose proof (ENC_compact_nonempty n) as N.
  unfold ENC_b_endian_compact_64_1 in *.
  destruct (ENC_b_endian_compact_64 n); [done|]. by rewrite R.
Qed.

Lemma ListForEach_spec p l m : list_rep p l m → ListForEach p m = (Ret l, m).
Proof.
  intros [Hl Hu Hv Hn]. unfold ListForEach. erewrite bind_run by done.
  assert (∀ vs start, (∀ i v, vs !! i = Some v → get m (list_pos_key p (start + Z.of_nat i)) = v) →
    map_m (seqZ start (Z.of_nat (length vs))) (λ i, kv_get (list_pos_key p i)) m = (Ret vs, m))
    as G.
  { clear. induction vs as [|v vs IH]; intros start Hv; [done|].
    rewrite seqZ_cons by (simpl; lia). simpl. erewrite bind_run; [|reflexivity].
    replace (Z.pred (Z.of_nat (S (length vs)))) with (Z.of_nat (length vs)) by lia.
    erewrite bind_run.
    2:{ apply IH. intros i w Hw. rewrite <-(Hv (S i) w Hw). f_equal. f_equal. lia. }
    pose proof (Hv 0%nat v eq_refl) as E. rewrite Z.add_0_r in E. unfold get in E. by rewrite E. }
  erewrite bind_run.
  2:{ apply G. intros i v Hi. by apply Hv. }
  unfold mret, M_ret. f_equal. f_equal. clear Hl Hu Hv G.
  induction Hn as [|v l Hv _ IH]; [done|].
  destruct v; [done|]. cbn [omap list_omap nonempty]. f_equal. exact IH.
Qed.

Lemma ListAppend_spec p l v m :
  list_rep p l m → v ≠ [] → is_u64 (Z.of_nat (length l) + 1) →
  ∃ m', ListAppend p v m = (Ret (Z.of_nat (length l)), m') ∧ list_rep p (l ++ [v]) m'.
Proof.
  intros [Hl Hu Hv Hn] Hne Hn1. unfold ListAppend. erewrite bind_run by done.
  eexists. split; [reflexivity|]. rewrite u64_id by done. split.
  - rewrite list_length_put by done. rewrite length_app. simpl. do 2 f_equal. lia.
  - rewrite length_app. simpl. unfold is_u64 in *. lia.
  - intros i w Hi. rewrite get_put_ne by apply list_length_pos_ne.
    apply lookup_app_Some in Hi as [Hi|[Hi Hw]].
    + pose proof (lookup_lt_Some _ _ _ Hi).
      rewrite get_put_ne; [by apply Hv|]. apply list_pos_key_ne; unfold is_u64 in *; lia.
    + apply list_lookup_singleton_Some in Hw as [Hi' <-].
      replace i with (length l) by lia. apply get_put_eq.
  - apply Forall_app. by repeat constructor.
Qed.

Lemma ListRemove_spec p l i m :
  list_rep p l m → (i < length l)%nat →
  ∃ m', ListRemove p (Z.of_nat i) m =
      (Ret (if (1 <? length l)%nat then default [] (last l) else []), m')
    ∧ list_rep p (swap_remove i l) m'.
Proof.
  intros [Hl Hu Hv Hn] Hi. unfold ListRemove. erewrite bind_run by done.
  destruct (Z.ltb_spec 0 (Z.of_nat (length l))); [|lia]. erewrite bind_run by done.
  unfold is_u64 in Hu.
  assert (Hf : ∀ x m',
    (∀ j, (j < pred (length l))%nat →
      get (view_put (list_pos_key p (Z.of_nat i)) x m') (list_pos_key p (Z.of_nat j)) =
      default [] (swap_remove i l !! j)) →
    list_rep p (swap_remove i l)
      (view_put (length_key p) (ENC_b_endian_compact_64_1 (Z.of_nat (length l) - 1))
        (view_put (list_pos_key p (Z.of_nat i)) x m'))).
  { intros x m' Hj. split.
    - rewrite list_length_put by (unfold is_u64; lia). rewrite swap_remove_length.
      f_equal. f_equal. lia.
    - rewrite swap_remove_length. unfold is_u64. lia.
    - intros j w E. rewrite get_put_ne by apply list_length_pos_ne. rewrite Hj.
      + by rewrite E.
      + apply lookup_lt_Some in E. by rewrite swap_remove_length in E.
    - destruct (lookup_lt_is_Some_2 l i Hi) as [y Ey].
      pose proof (swap_remove_perm i l y Ey) as Hp. rewrite <-Hp in Hn. by inversion Hn. }
  destruct (Z.eqb_spec (Z.of_nat (length l)) 1) as [E1|N1]; cbn [negb].
  - erewrite bind_run by done. destruct (Nat.ltb_spec 1 (length l)); [lia|].
    eexists. split; [reflexivity|]. apply Hf. intros j Hj. lia.
  - destruct (Nat.ltb_spec 1 (length l)); [|lia].
    destruct (last l) as [x|] eqn:El; [|apply last_None in El; subst; simpl in *; lia].
    rewrite last_lookup in El. pose proof (Hv _ _ El) as Hx.
    replace (Z.of_nat (pred (length l))) with (Z.of_nat (length l) - 1) in Hx by lia.
    erewrite bind_run; [|erewrite bind_run; reflexivity].
    change (default [] (?m !! ?k)) with (get m k). rewrite Hx.
    eexists. split; [reflexivity|]. apply Hf. intros j Hj.
    rewrite swap_remove_lookup by done. rewrite last_lookup. case_decide as D; subst.
    + by rewrite get_put_eq, El.
    + rewrite get_put_ne by (apply list_pos_key_ne; unfold is_u64; lia).
      rewrite get_put_ne by (apply list_pos_key_ne; unfold is_u64; lia).
      destruct (lookup_lt_is_Some_2 l j) as [w Ew]; [lia|]. rewrite Ew. by apply Hv.
Qed.
End list_spec.
