(* ===== verification/IterableMap.v ===== *)
(** The iterable map ([iterable_map.go]) with its two typed views, of addresses
    ([addresses_imap.go]) and of 64-bit identifiers ([ids_imap.go]): a set kept in contract
    storage as an array of items with a reverse index, so that it can be enumerated in pages.
    Positions are 1-based, removal swaps in the last item. *)
From S2P Require Import Prelude Codec Storage.

(** * Keys
    [Init] appends one byte to the same [prefix] slice twice.  When the slice has spare
    capacity both appends write the same backing array, so that the second byte is what both
    prefixes end in; [spare] says whether [cap(prefix) > len(prefix)]. *)
Definition field_items : bytes := [0].
Definition field_items_count : bytes := [1].
Definition field_items_pos : bytes := [2].

Record IterableMap : Type := {
  items_storage_prefix : bytes;
  items_count_storage_key : bytes;
  items_pos_storage_prefix : bytes
}.

Definition append2 (spare : bool) (prefix a b : bytes) : bytes * bytes :=
  if spare then (prefix ++ b, prefix ++ b) else (prefix ++ a, prefix ++ b).

Definition IterableMap_Init `{Keccak} (prefix : bytes) (spare : bool) : IterableMap :=
  let '(items, items_pos) := append2 spare prefix field_items field_items_pos in
  {| items_storage_prefix := items;
     items_count_storage_key := Stor_k_1 [prefix; field_items_count];
     items_pos_storage_prefix := items_pos |}.

Section operations.
Context `{Keccak} {St : Type} `{!KVStore St} (self : IterableMap).

Definition items_k (pos : Z) : bytes := Stor_k_1 [items_storage_prefix self; uint32ToBytes pos].
Definition items_pos_k (item : bytes) : bytes := Stor_k_1 [items_pos_storage_prefix self; item].

(** A callback that decodes a position; it does not run on an absent value. *)
Definition read_uint32 (b : bytes) : outcome Z :=
  match b with [] => Ret 0 | _ => bytesToUint32 b end.

Definition GetCount : M St Z :=
  b ← kv_get (items_count_storage_key self); of_outcome (read_uint32 b).
Definition itemExists (item : bytes) : M St (bool * Z) :=
  b ← kv_get (items_pos_k item);
  item_pos ← of_outcome (read_uint32 b);
  mret (negb (item_pos =? 0), item_pos).
Definition ItemExists (item : bytes) : M St bool :=
  r ← itemExists item; mret r.1.

Definition get_item (idx : Z) : M St bytes :=
  item ← kv_get (items_k idx);
  panic_if (match item with [] => true | _ => false end) "Unable to find item" ;;
  mret item.
Definition GetItems (start_idx count : Z) : M St (list bytes * bool) :=
  items_count ← GetCount;
  if items_count =? 0 then mret ([], true)
  else
    let end_idx := u32 (start_idx + count) in
    if items_count <=? start_idx then mret ([], true)
    else
      let '(result_len, end_) :=
        if items_count <=? end_idx then (items_count - start_idx, true) else (count, false) in
      items ← map_m (seqZ (start_idx + 1) (Z.min end_idx items_count - start_idx)) get_item;
      mret (items ++ replicate (Z.to_nat result_len - length items) [], end_).

Definition CreateItem (item : bytes) : M St Z :=
  r ← itemExists item;
  panic_if r.1 "Item already exists" ;;
  items_count ← GetCount;
  let new_item_pos := u32 (items_count + 1) in
  kv_put (items_k new_item_pos) item ;;
  kv_put (items_pos_k item) (uint32ToBytes new_item_pos) ;;
  kv_put (items_count_storage_key self) (uint32ToBytes new_item_pos) ;;
  mret new_item_pos.

Definition RemoveItem (item : bytes) : M St Z :=
  items_count ← GetCount;
  panic_if (items_count =? 0) "Unable to delete item. No items in iterable map" ;;
  r ← itemExists item;
  panic_if (negb r.1) "Item does not exist" ;;
  let delete_item_pos := r.2 in
  let delete_item_at_pos_k := items_k delete_item_pos in
  let delete_item_pos_k := items_pos_k item in
  if delete_item_pos =? items_count then
    kv_put delete_item_at_pos_k [] ;;
    kv_put delete_item_pos_k [] ;;
    kv_put (items_count_storage_key self) (uint32ToBytes (items_count - 1)) ;;
    mret (items_count - 1)
  else
    let last_item_at_pos_k := items_k items_count in
    last_item ← kv_get last_item_at_pos_k;
    panic_if (match last_item with [] => true | _ => false end)
      "Unable to delete item. item not found" ;;
    let last_item_pos_k := items_pos_k last_item in
    kv_put last_item_pos_k (uint32ToBytes delete_item_pos) ;;
    kv_put delete_item_at_pos_k last_item ;;
    kv_put delete_item_pos_k [] ;;
    kv_put last_item_at_pos_k [] ;;
    kv_put (items_count_storage_key self) (uint32ToBytes (items_count - 1)) ;;
    mret (items_count - 1).
End operations.

(** * Addresses and identifiers *)
(** [common.BytesToAddress]: the last 20 bytes, padded with zeros on the left. *)
Definition BytesToAddress (b : bytes) : bytes :=
  let b := drop (length b - 20) b in replicate (20 - length b) 0 ++ b.

Section views.
Context `{Keccak} {St : Type} `{!KVStore St} (self : IterableMap).

Definition AccountExists (account : bytes) : M St bool := ItemExists self account.
Definition GetAccounts (batch count : Z) : M St (list bytes * bool) :=
  r ← GetItems self (u32 (batch * count)) count;
  mret (map BytesToAddress r.1, r.2).
Definition GetAllAccounts : M St (list bytes) :=
  count ← GetCount self;
  r ← GetItems self 0 count;
  mret (map BytesToAddress r.1).
Definition CreateAccount (account : bytes) : M St Z := CreateItem self account.
Definition RemoveAccount (account : bytes) : M St Z := RemoveItem self account.

Definition IdExists (id : Z) : M St bool := ItemExists self (Uint64ToBytes id).
Definition GetIdsFromIdx (start_idx count : Z) : M St (list Z * bool) :=
  r ← GetItems self start_idx count;
  ids ← map_m r.1 (λ b, of_outcome (BytesToUint64 b));
  mret (ids, r.2).
Definition GetAllIds : M St (list Z) :=
  count ← GetCount self;
  r ← GetItems self 0 count;
  map_m r.1 (λ b, of_outcome (BytesToUint64 b)).
Definition CreateId (id : Z) : M St Z := CreateItem self (Uint64ToBytes id).
Definition RemoveId (id : Z) : M St Z := RemoveItem self (Uint64ToBytes id).
End views.

(** * The operations do not depend on the store *)
Section refine.
Context `{Keccak} {St : Type} `{!KVStore St} (self : IterableMap).
Abbreviation view := (kv_view (St := St)).

Lemma GetCount_sim : sim view (GetCount self) (GetCount self).
Proof. unfold GetCount. sim_solve. Qed.
Lemma itemExists_sim item : sim view (itemExists self item) (itemExists self item).
Proof. unfold itemExists. sim_solve. Qed.
#[local] Hint Resolve GetCount_sim itemExists_sim : sim.
Lemma ItemExists_sim item : sim view (ItemExists self item) (ItemExists self item).
Proof. unfold ItemExists. sim_solve. Qed.
Lemma get_item_sim i : sim view (get_item self i) (get_item self i).
Proof. unfold get_item. sim_solve. Qed.
#[local] Hint Resolve get_item_sim : sim.
Lemma GetItems_sim i n : sim view (GetItems self i n) (GetItems self i n).
Proof. unfold GetItems. sim_solve. Qed.
Lemma CreateItem_sim item : sim view (CreateItem self item) (CreateItem self item).
Proof. unfold CreateItem. sim_solve. Qed.
Lemma RemoveItem_sim item : sim view (RemoveItem self item) (RemoveItem self item).
Proof. unfold RemoveItem. sim_solve. Qed.
#[local] Hint Resolve ItemExists_sim GetItems_sim CreateItem_sim RemoveItem_sim : sim.
Lemma GetAccounts_sim i n : sim view (GetAccounts self i n) (GetAccounts self i n).
Proof. unfold GetAccounts. sim_solve. Qed.
Lemma GetAllAccounts_sim : sim view (GetAllAccounts self) (GetAllAccounts self).
Proof. unfold GetAllAccounts. sim_solve. Qed.
Lemma GetIdsFromIdx_sim i n : sim view (GetIdsFromIdx self i n) (GetIdsFromIdx self i n).
Proof. unfold GetIdsFromIdx. sim_solve. Qed.
Lemma GetAllIds_sim : sim view (GetAllIds self) (GetAllIds self).
Proof. unfold GetAllIds. sim_solve. Qed.
Lemma AccountExists_sim a : sim view (AccountExists self a) (AccountExists self a).
Proof. apply ItemExists_sim. Qed.
Lemma CreateAccount_sim a : sim view (CreateAccount self a) (CreateAccount self a).
Proof. apply CreateItem_sim. Qed.
Lemma RemoveAccount_sim a : sim view (RemoveAccount self a) (RemoveAccount self a).
Proof. apply RemoveItem_sim. Qed.
Lemma IdExists_sim i : sim view (IdExists self i) (IdExists self i).
Proof. apply ItemExists_sim. Qed.
Lemma CreateId_sim i : sim view (CreateId self i) (CreateId self i).
Proof. apply CreateItem_sim. Qed.
Lemma RemoveId_sim i : sim view (RemoveId self i) (RemoveId self i).
Proof. apply RemoveItem_sim. Qed.
End refine.
#[export] Hint Resolve GetCount_sim itemExists_sim ItemExists_sim GetItems_sim CreateItem_sim
  RemoveItem_sim GetAccounts_sim GetAllAccounts_sim GetIdsFromIdx_sim GetAllIds_sim
  AccountExists_sim CreateAccount_sim RemoveAccount_sim IdExists_sim CreateId_sim RemoveId_sim
  : sim.

(** * The map as a list *)
(** What an item may be: it is not empty, and not as long as a position (both kinds of key
    end up under the same prefix when the slice was shared). *)
Definition item_ok (item : bytes) : Prop := item ≠ [] ∧ length item ≠ 4%nat.

Record imap_rep `{Keccak} (self : IterableMap) (l : list bytes) (m : gmap bytes bytes) : Prop := {
  ir_count : GetCount self m = (Ret (Z.of_nat (length l)), m);
  ir_u32 : is_u32 (Z.of_nat (length l));
  ir_ok : Forall item_ok l;
  ir_NoDup : NoDup l;
  ir_items i item : l !! i = Some item → get m (items_k self (Z.of_nat i + 1)) = item;
  ir_pos i item : l !! i = Some item →
    get m (items_pos_k self item) = uint32ToBytes (Z.of_nat i + 1);
  ir_absent item : item_ok item → item ∉ l → get m (items_pos_k self item) = []
}.
(** The storage keys the map may write. *)
Definition imap_owns `{Keccak} (self : IterableMap) (k : bytes) : Prop :=
  k = items_count_storage_key self ∨ (∃ pos, k = items_k self pos) ∨
  (∃ item, item_ok item ∧ k = items_pos_k self item).

Lemma read_uint32_ToBytes v : is_u32 v → read_uint32 (uint32ToBytes v) = Ret v.
Proof.
  intros Hv. pose proof (bytesToUint32_ToBytes v Hv) as E.
  pose proof (uint32ToBytes_length v) as L. unfold read_uint32.
  by destruct (uint32ToBytes v).
Qed.

Section spec.
Context `{KeccakInj} (prefix : bytes) (spare : bool).
Abbreviation self := (IterableMap_Init prefix spare).

(** The bytes behind the prefix distinguish the three kinds of key. *)
Lemma items_k_inj i j : is_u32 i → is_u32 j → items_k self i = items_k self j → i = j.
Proof.
  intros Hi Hj E. apply Stor_k_1_inj in E. cbn [concat] in E. rewrite !app_nil_r in E.
  apply app_inv_head in E. by apply uint32ToBytes_inj.
Qed.
Lemma items_pos_k_inj a b : items_pos_k self a = items_pos_k self b → a = b.
Proof.
  intros E. apply Stor_k_1_inj in E. cbn [concat] in E. rewrite !app_nil_r in E.
  by apply app_inv_head in E.
Qed.
Ltac same_prefix E :=
  apply Stor_k_1_inj in E; unfold IterableMap_Init, append2 in E;
  destruct spare; cbn in E; rewrite ?app_nil_r, <-?app_assoc in E; apply app_inv_head in E.
Lemma items_k_pos_k i a : item_ok a → items_k self i ≠ items_pos_k self a.
Proof.
  intros [_ Ha] E. same_prefix E; [|done].
  apply (f_equal length) in E. simpl in E. lia.
Qed.
Lemma count_k_items_k i : items_count_storage_key self ≠ items_k self i.
Proof.
  intros E. unfold IterableMap_Init, append2 in E. destruct spare; cbn in E; same_prefix E; done.
Qed.
Lemma count_k_pos_k a : items_count_storage_key self ≠ items_pos_k self a.
Proof.
  intros E. unfold IterableMap_Init, append2 in E. destruct spare; cbn in E; same_prefix E; done.
Qed.

Lemma GetCount_eq m : GetCount self m = (read_uint32 (get m (items_count_storage_key self)), m).
Proof. reflexivity. Qed.
Lemma GetCount_put n m :
  is_u32 n → GetCount self (view_put (items_count_storage_key self) (uint32ToBytes n) m) =
    (Ret n, view_put (items_count_storage_key self) (uint32ToBytes n) m).
Proof. intros Hn. rewrite GetCount_eq, get_put_eq, read_uint32_ToBytes by done. done. Qed.
Lemma imap_rep_empty m :
  (∀ k, imap_owns self k → get m k = []) → imap_rep self [] m.
Proof.
  intros Hm. split; try done.
  - rewrite GetCount_eq, Hm by (by left). done.
  - constructor.
  - intros item Hi _. apply Hm. right. right. by exists item.
Qed.
(** Writes to other keys leave the map as it is. *)
Lemma imap_rep_frame l m m' :
  (∀ k, imap_owns self k → get m' k = get m k) → imap_rep self l m → imap_rep self l m'.
Proof.
  intros Hf [Hc Hu Ho Hn Hi Hp Ha]. split; try done.
  - rewrite GetCount_eq in *. rewrite Hf by (by left). congruence.
  - intros i item E. rewrite Hf; [by apply Hi|]. right. left. by eexists.
  - intros i item E. rewrite Hf; [by apply Hp|]. right. right. exists item.
    rewrite Forall_lookup in Ho. eauto.
  - intros item Hok E. rewrite Hf; [by apply Ha|]. right. right. eauto.
Qed.

Lemma itemExists_in l m i item :
  imap_rep self l m → l !! i = Some item → itemExists self item m = (Ret (true, Z.of_nat i + 1), m).
Proof.
  intros Hr Hi. pose proof (lookup_lt_Some _ _ _ Hi). pose proof (ir_u32 _ _ _ Hr) as Hu.
  unfold is_u32 in Hu. unfold itemExists. erewrite bind_run; [|reflexivity].
  change (default [] (?m !! ?k)) with (get m k). rewrite (ir_pos _ _ _ Hr i item Hi).
  rewrite read_uint32_ToBytes by (unfold is_u32; lia). erewrite bind_run; [|reflexivity].
  destruct (Z.eqb_spec (Z.of_nat i + 1) 0); [lia|done].
Qed.
Lemma itemExists_out l m item :
  imap_rep self l m → item_ok item → item ∉ l → itemExists self item m = (Ret (false, 0), m).
Proof.
  intros Hr Hok Hi. unfold itemExists. erewrite bind_run; [|reflexivity].
  change (default [] (?m !! ?k)) with (get m k). by rewrite (ir_absent _ _ _ Hr item Hok Hi).
Qed.
Lemma ItemExists_spec l m item :
  imap_rep self l m → item_ok item → ItemExists self item m = (Ret (bool_decide (item ∈ l)), m).
Proof.
  intros Hr Hok. unfold ItemExists. case_bool_decide as D.
  - apply list_elem_of_lookup in D as [i Hi]. by erewrite bind_run by (by eapply itemExists_in).
  - by erewrite bind_run by (by eapply itemExists_out).
Qed.

Lemma CreateItem_exists l m item :
  imap_rep self l m → item ∈ l → CreateItem self item m = (Panic "Item already exists", m).
Proof.
  intros Hr [i Hi]%list_elem_of_lookup. unfold CreateItem.
  erewrite bind_run by (by eapply itemExists_in). done.
Qed.
Lemma CreateItem_spec l m item :
  imap_rep self l m → item_ok item → item ∉ l → Z.of_nat (length l) + 1 < 2 ^ 32 →
  ∃ m', CreateItem self item m = (Ret (Z.of_nat (length l) + 1), m')
    ∧ imap_rep self (l ++ [item]) m'
    ∧ ∀ k, ¬ imap_owns self k → get m' k = get m k.
Proof.
  intros Hr Hok Hni Hlen. destruct Hr as [Hc Hu Ho Hn Hi Hp Ha] eqn:Er. clear Er.
  unfold CreateItem. erewrite bind_run by (by eapply itemExists_out).
  erewrite bind_run by reflexivity. erewrite bind_run by done.
  rewrite u32_id by (unfold is_u32 in *; lia).
  eexists. split; [reflexivity|]. rewrite Forall_forall in Ho.
  assert (Hlt : ∀ i x, l !! i = Some x → (i < length l)%nat) by (intros; by eapply lookup_lt_Some).
  split.
  2:{ intros k Hk. rewrite !get_put_ne; [done|..]; intros <-; apply Hk; unfold imap_owns; eauto. }
  split.
  - rewrite GetCount_put, length_app by (unfold is_u32 in *; lia). simpl. do 2 f_equal. lia.
  - rewrite length_app. simpl. unfold is_u32 in *. lia.
  - apply Forall_app. split; [by apply Forall_forall|]. by constructor.
  - apply NoDup_app. split_and!; [done| |apply NoDup_singleton].
    intros x Hx ->%list_elem_of_singleton. done.
  - intros i x Hx. rewrite get_put_ne by apply count_k_items_k.
    rewrite get_put_ne by (intros E; by eapply items_k_pos_k).
    apply lookup_app_Some in Hx as [Hx|[Hl Hx]].
    + rewrite get_put_ne; [by apply Hi|]. intros E. apply Hlt in Hx.
      apply items_k_inj in E; unfold is_u32 in *; lia.
    + apply list_lookup_singleton_Some in Hx as [Hl' <-].
      replace i with (length l) by lia. apply get_put_eq.
  - intros i x Hx. rewrite get_put_ne by apply count_k_pos_k.
    apply lookup_app_Some in Hx as [Hx|[Hl Hx]].
    + assert (x ∈ l) by (apply list_elem_of_lookup; eauto).
      rewrite !get_put_ne; [by apply Hp| |].
      * by apply items_k_pos_k, Ho.
      * by intros <-%items_pos_k_inj.
    + apply list_lookup_singleton_Some in Hx as [Hl' <-].
      replace i with (length l) by lia. apply get_put_eq.
  - intros x Hx Hxl. rewrite not_elem_of_app, list_elem_of_singleton in Hxl.
    destruct Hxl as [Hxl Hne]. rewrite get_put_ne by apply count_k_pos_k.
    rewrite !get_put_ne; [by apply Ha| |].
    + by apply items_k_pos_k.
    + by intros <-%items_pos_k_inj.
Qed.

Lemma RemoveItem_absent l m item :
  imap_rep self l m → item_ok item → item ∉ l →
  ∃ msg, RemoveItem self item m = (Panic msg, m).
Proof.
  intros Hr Hok Hni. unfold RemoveItem. erewrite bind_run by apply Hr.
  destruct (Z.eqb_spec (Z.of_nat (length l)) 0); [by eexists|].
  erewrite bind_run by reflexivity. erewrite bind_run by (by eapply itemExists_out).
  by eexists.
Qed.

(** What the storage must show for a removed item; shared by both ways of removing. *)
Lemma remove_rep l m m' i item :
  imap_rep self l m → l !! i = Some item →
  GetCount self m' = (Ret (Z.of_nat (pred (length l))), m') →
  (∀ j, (j < pred (length l))%nat → get m' (items_k self (Z.of_nat j + 1)) =
     default [] (swap_remove i l !! j)) →
  (∀ x, item_ok x → x ≠ item → l !! pred (length l) ≠ Some x →
     get m' (items_pos_k self x) = get m (items_pos_k self x)) →
  get m' (items_pos_k self item) = [] →
  (∀ x, l !! pred (length l) = Some x → x ≠ item →
     get m' (items_pos_k self x) = uint32ToBytes (Z.of_nat i + 1)) →
  imap_rep self (swap_remove i l) m'.
Proof.
  intros Hr Hi Hcount Hitems Hother Hitem Hlast.
  pose proof (ir_NoDup _ _ _ Hr) as Hn. pose proof (ir_ok _ _ _ Hr) as Ho.
  pose proof (ir_u32 _ _ _ Hr) as Hu. rewrite Forall_forall in Ho.
  pose proof (lookup_lt_Some _ _ _ Hi) as Hlt. unfold is_u32 in *.
  pose proof (swap_remove_NoDup i l item Hi Hn) as [Hn' Hx'].
  split; try (rewrite swap_remove_length); try done.
  - unfold is_u32. lia.
  - apply Forall_forall. intros x Hx. apply Ho.
    by apply (swap_remove_elem i l item x Hi Hn) in Hx as [? _].
  - intros j x Hj. pose proof (lookup_lt_Some _ _ _ Hj) as Hjl.
    rewrite swap_remove_length in Hjl. rewrite Hitems by done. by rewrite Hj.
  - intros j x Hj. pose proof (lookup_lt_Some _ _ _ Hj) as Hjl.
    rewrite swap_remove_length in Hjl.
    assert (x ≠ item) as Hne by (intros ->; apply Hx'; apply list_elem_of_lookup; eauto).
    rewrite swap_remove_lookup in Hj by done. case_decide as D.
    + subst j. rewrite last_lookup in Hj. by apply Hlast.
    + rewrite Hother; [by apply Hr| |done|].
      * apply Ho, list_elem_of_lookup. eauto.
      * intros E. eapply NoDup_lookup in E; [|done|exact Hj]. lia.
  - intros x Hx Hni. rewrite (swap_remove_elem i l item x Hi Hn) in Hni.
    destruct (decide (x = item)) as [->|Hne]; [done|].
    assert (x ∉ l) by tauto. rewrite Hother; [by apply Hr|done|done|].
    intros E. apply H1, list_elem_of_lookup. eauto.
Qed.

Lemma RemoveItem_spec l m i item :
  imap_rep self l m → l !! i = Some item →
  ∃ m', RemoveItem self item m = (Ret (Z.of_nat (length l) - 1), m')
    ∧ imap_rep self (swap_remove i l) m'
    ∧ ∀ k, ¬ imap_owns self k → get m' k = get m k.
Proof.
  intros Hr Hi. pose proof (lookup_lt_Some _ _ _ Hi) as Hlt.
  pose proof (ir_u32 _ _ _ Hr) as Hu. pose proof (ir_NoDup _ _ _ Hr) as Hn.
  pose proof (ir_ok _ _ _ Hr) as Ho. rewrite Forall_lookup in Ho. unfold is_u32 in Hu.
  unfold RemoveItem. erewrite bind_run by apply Hr.
  destruct (Z.eqb_spec (Z.of_nat (length l)) 0); [lia|]. erewrite bind_run by reflexivity.
  erewrite bind_run by (by eapply itemExists_in). erewrite bind_run by reflexivity. cbn [snd].
  pose proof (Ho _ _ Hi) as Hok.
  destruct (Z.eqb_spec (Z.of_nat i + 1) (Z.of_nat (length l))) as [E|E].
  - eexists. split; [reflexivity|]. split.
    2:{ intros k Hk. rewrite !get_put_ne; [done|..]; intros <-; apply Hk; unfold imap_owns; eauto. }
    eapply remove_rep; try done.
    + rewrite GetCount_put by (unfold is_u32; lia). do 2 f_equal. lia.
    + intros j Hj. rewrite get_put_ne by apply count_k_items_k.
      rewrite get_put_ne by (intros X; symmetry in X; eapply items_k_pos_k in X; eauto).
      rewrite get_put_ne by (intros X; apply items_k_inj in X; unfold is_u32; lia).
      rewrite swap_remove_lookup by done. rewrite decide_False by lia.
      destruct (lookup_lt_is_Some_2 l j) as [y Ey]; [lia|]. rewrite Ey. by apply Hr.
    + intros x Hx Hne _. rewrite get_put_ne by apply count_k_pos_k.
      rewrite get_put_ne by (by intros <-%items_pos_k_inj).
      rewrite get_put_ne; [done|]. by apply items_k_pos_k.
    + rewrite get_put_ne by apply count_k_pos_k. apply get_put_eq.
    + intros x Hx Hne. replace (pred (length l)) with i in Hx by lia. congruence.
  - destruct (lookup_lt_is_Some_2 l (pred (length l))) as [y Ey]; [lia|].
    pose proof (ir_items _ _ _ Hr _ _ Ey) as Hy.
    replace (Z.of_nat (pred (length l)) + 1) with (Z.of_nat (length l)) in Hy by lia.
    assert (y ≠ item) as Hyi by (intros ->; eapply NoDup_lookup in Ey; [|done|exact Hi]; lia).
    erewrite bind_run by apply map_get_run. rewrite Hy.
    pose proof (Ho _ _ Ey) as Hyo.
    erewrite bind_run by (by destruct y; [destruct Hyo|]).
    eexists. split; [reflexivity|]. split.
    2:{ intros k Hk. rewrite !get_put_ne; [done|..]; intros <-; apply Hk; unfold imap_owns; eauto. }
    eapply remove_rep; try done.
    + rewrite GetCount_put by (unfold is_u32; lia). do 2 f_equal. lia.
    + intros j Hj. rewrite get_put_ne by apply count_k_items_k.
      rewrite get_put_ne by (intros X; apply items_k_inj in X; unfold is_u32; lia).
      rewrite get_put_ne by (intros X; symmetry in X; eapply items_k_pos_k in X; eauto).
      rewrite swap_remove_lookup, last_lookup by done. case_decide as D.
      * subst j. rewrite Ey. apply get_put_eq.
      * rewrite get_put_ne by (intros X; apply items_k_inj in X; unfold is_u32; lia).
        rewrite get_put_ne by (intros X; symmetry in X; by eapply items_k_pos_k in X).
        destruct (lookup_lt_is_Some_2 l j) as [z Ez]; [lia|]. rewrite Ez. by apply Hr.
    + intros x Hx Hne Hnl. rewrite get_put_ne by apply count_k_pos_k.
      rewrite get_put_ne by (by apply items_k_pos_k).
      rewrite get_put_ne by (by intros <-%items_pos_k_inj).
      rewrite get_put_ne by (by apply items_k_pos_k).
      rewrite get_put_ne; [done|]. intros <-%items_pos_k_inj. congruence.
    + rewrite get_put_ne by apply count_k_pos_k.
      rewrite get_put_ne by (eapply items_k_pos_k; eauto). apply get_put_eq.
    + intros x Hx Hne. assert (x = y) as -> by congruence.
      rewrite get_put_ne by apply count_k_pos_k.
      rewrite get_put_ne by (by apply items_k_pos_k).
      rewrite get_put_ne by (by intros <-%items_pos_k_inj).
      rewrite get_put_ne by (by apply items_k_pos_k). apply get_put_eq.
Qed.

Lemma get_items_run l m start n :
  imap_rep self l m → 0 <= start → start + Z.of_nat n <= Z.of_nat (length l) →
  map_m (seqZ (start + 1) (Z.of_nat n)) (get_item self) m =
    (Ret (take n (drop (Z.to_nat start) l)), m).
Proof.
  intros Hr Hs. revert start Hs. induction n as [|n IH]; intros start Hs Hn.
  { by rewrite take_0. }
  rewrite seqZ_cons by lia. simpl. replace (Z.pred (Z.of_nat (S n))) with (Z.of_nat n) by lia.
  destruct (lookup_lt_is_Some_2 l (Z.to_nat start)) as [x Ex]; [lia|].
  pose proof (ir_items _ _ _ Hr _ _ Ex) as Hx. rewrite Z2Nat.id in Hx by lia.
  pose proof (ir_ok _ _ _ Hr) as Ho. rewrite Forall_lookup in Ho. destruct (Ho _ _ Ex) as [Hne _].
  assert (get_item self (start + 1) m = (Ret x, m)) as E.
  { unfold get_item. erewrite bind_run by apply map_get_run. rewrite Hx. by destruct x. }
  erewrite bind_run by exact E.
  replace (Z.succ (start + 1)) with ((start + 1) + 1) by lia.
  erewrite bind_run by (apply IH; lia).
  rewrite (drop_S l x _ Ex). rewrite Z2Nat.inj_add by lia.
  replace (Z.to_nat start + Z.to_nat 1)%nat with (S (Z.to_nat start)) by lia. done.
Qed.

Lemma GetItems_spec l m start count :
  imap_rep self l m → is_u32 start → is_u32 count → start + count < 2 ^ 32 →
  GetItems self start count m =
    (Ret (take (Z.to_nat count) (drop (Z.to_nat start) l),
          bool_decide (Z.of_nat (length l) <= start + count)), m).
Proof.
  intros Hr Hs Hc Hsc. unfold is_u32 in *. unfold GetItems. erewrite bind_run by apply Hr.
  destruct (Z.eqb_spec (Z.of_nat (length l)) 0) as [E|E].
  { destruct l; [|simpl in E; lia]. rewrite drop_nil, take_nil, bool_decide_true by (simpl; lia). done. }
  rewrite u32_id by (unfold is_u32; lia).
  destruct (Z.leb_spec (Z.of_nat (length l)) start) as [L|L].
  { rewrite drop_ge, take_nil, bool_decide_true by lia. done. }
  destruct (Z.leb_spec (Z.of_nat (length l)) (start + count)) as [L'|L'].
  - rewrite Z.min_r, bool_decide_true by lia.
    replace (Z.of_nat (length l) - start) with (Z.of_nat (length l - Z.to_nat start)) by lia.
    erewrite bind_run by (apply (get_items_run l); [done|lia..]).
    rewrite length_take, length_drop, Nat2Z.id.
    rewrite Nat.min_l, Nat.sub_diag by lia. simpl. rewrite app_nil_r.
    rewrite take_ge, take_ge by (rewrite length_drop; lia). done.
  - rewrite Z.min_l, bool_decide_false by lia.
    replace (start + count - start) with (Z.of_nat (Z.to_nat count)) by lia.
    erewrite bind_run by (apply (get_items_run l); [done|lia..]).
    rewrite length_take, length_drop, Nat.min_l, Nat.sub_diag by lia. simpl.
    by rewrite app_nil_r.
Qed.
(** A page behind the end is empty; one whose end passes 2^32 while its start is inside has its
    length and no items. *)
Lemma GetItems_past l m start count :
  imap_rep self l m → is_u32 start → Z.of_nat (length l) <= start →
  GetItems self start count m = (Ret ([], true), m).
Proof.
  intros Hr Hs Hl. unfold GetItems. erewrite bind_run by apply Hr.
  destruct (_ =? 0); [done|]. cbv zeta. by rewrite (proj2 (Z.leb_le _ _) Hl).
Qed.
Lemma GetItems_wrapped l m start count :
  imap_rep self l m → is_u32 start → is_u32 count → start < Z.of_nat (length l) →
  2 ^ 32 <= start + count →
  GetItems self start count m = (Ret (replicate (Z.to_nat count) [], false), m).
Proof.
  intros Hr Hs Hc Hl Hw. unfold is_u32 in *. unfold GetItems. erewrite bind_run by apply Hr.
  rewrite (proj2 (Z.eqb_neq _ _)) by lia. cbv zeta. rewrite (proj2 (Z.leb_gt _ _) Hl).
  assert (u32 (start + count) = start + count - 2 ^ 32) as ->.
  { unfold u32. symmetry. apply (Z.mod_unique _ _ 1); lia. }
  rewrite (proj2 (Z.leb_gt _ _)) by lia.
  rewrite seqZ_nil by lia. cbn [map_m]. rewrite bind_ret_l. simpl. by rewrite Nat.sub_0_r.
Qed.
End spec.

(** * Refinement: the stored map is the list of its items *)
Inductive imap_op : Type :=
| ImCreate (item : bytes)
| ImRemove (item : bytes)
| ImExists (item : bytes)
| ImGet (start count : Z).
Inductive imap_res : Type :=
| ImCount (n : Z)
| ImBool (b : bool)
| ImPage (items : list bytes) (end_ : bool).

Definition imap_exec `{Keccak} {St} `{!KVStore St} (self : IterableMap) (o : imap_op)
  : M St imap_res :=
  match o with
  | ImCreate item => n ← CreateItem self item; mret (ImCount n)
  | ImRemove item => n ← RemoveItem self item; mret (ImCount n)
  | ImExists item => b ← ItemExists self item; mret (ImBool b)
  | ImGet start count => r ← GetItems self start count; mret (ImPage r.1 r.2)
  end.
(** The specification: a list without duplicates, extended at the end, from which an item is
    removed by moving the last one into its place. *)
Definition list_exec (o : imap_op) : M (list bytes) imap_res := λ l,
  match o with
  | ImCreate item =>
      if decide (item ∈ l) then (Panic "Item already exists", l)
      else (Ret (ImCount (Z.of_nat (length l) + 1)), l ++ [item])
  | ImRemove item =>
      if decide (l = []) then (Panic "Unable to delete item. No items in iterable map", l)
      else match list_find (item =.) l with
           | Some (i, _) => (Ret (ImCount (Z.of_nat (length l) - 1)), swap_remove i l)
           | None => (Panic "Item does not exist", l)
           end
  | ImExists item => (Ret (ImBool (bool_decide (item ∈ l))), l)
  | ImGet start count =>
      (Ret (ImPage (take (Z.to_nat count) (drop (Z.to_nat start) l))
         (bool_decide (Z.of_nat (length l) <= start + count))), l)
  end.
(** The calls the refinement covers: proper items, and positions that fit in 32 bits. *)
Definition imap_pre (o : imap_op) (l : list bytes) : Prop :=
  match o with
  | ImCreate item => item_ok item ∧ Z.of_nat (length l) + 1 < 2 ^ 32
  | ImRemove item | ImExists item => item_ok item
  | ImGet start count => is_u32 start ∧ is_u32 count ∧ start + count < 2 ^ 32
  end.

Section refinement.
Context `{KeccakInj} (prefix : bytes) (spare : bool).
Abbreviation self := (IterableMap_Init prefix spare).

Lemma imap_exec_sim {St} `{!KVStore St} o :
  sim (kv_view (St := St)) (imap_exec self o) (imap_exec self o).
Proof. unfold imap_exec. sim_solve. Qed.

Lemma imap_exec_map o l m :
  imap_rep self l m → imap_pre o l →
  ∃ m', imap_exec self o m = ((list_exec o l).1, m') ∧ imap_rep self (list_exec o l).2 m'
    ∧ ∀ k, ¬ imap_owns self k → get m' k = get m k.
Proof.
  intros Hr Hp. destruct o as [item|item|item|start count]; simpl in *.
  - destruct Hp as [Hok Hlen]. case_decide as D.
    + exists m. by erewrite bind_run_panic by (by eapply CreateItem_exists).
    + destruct (CreateItem_spec prefix spare l m item) as (m' & E & Hr' & Hf); try done.
      exists m'. by erewrite bind_run by exact E.
  - destruct (list_find (item =.) l) as [[i y]|] eqn:F.
    + apply list_find_Some in F as (Hi & <- & _).
      destruct (RemoveItem_spec prefix spare l m i item) as (m' & E & Hr' & Hf); try done.
      exists m'. rewrite decide_False by (by intros ->). by erewrite bind_run by exact E.
    + apply list_find_None in F. assert (item ∉ l) as Hni.
      { intros Hi. rewrite Forall_forall in F. by apply (F item Hi). }
      exists m. case_decide as D; subst; simpl.
      * split; [|done]. erewrite bind_run_panic; [reflexivity|].
        unfold RemoveItem. erewrite bind_run by apply Hr. done.
      * split; [|done]. erewrite bind_run_panic; [reflexivity|].
        unfold RemoveItem. erewrite bind_run by apply Hr.
        destruct (Z.eqb_spec (Z.of_nat (length l)) 0); [by destruct l|].
        erewrite bind_run by reflexivity. erewrite bind_run by (by eapply itemExists_out). done.
  - exists m. by erewrite bind_run by (by eapply ItemExists_spec).
  - destruct Hp as (? & ? & ?). exists m.
    by erewrite bind_run by (by eapply GetItems_spec).
Qed.

(** C35: iterable_map_refines_list.  On any store, an iterable map over a prefix, whether or
    not the prefix slice has spare capacity, implements a duplicate-free list: creating an
    item appends it and returns the new count (or panics when it exists), removing one moves
    the last item into its place (or panics when it does not exist), membership and pages
    are those of the list, and no storage key outside the map's own is touched. *)
Theorem iterable_map_refines_list {St} `{!KVStore St} o l (s : St) :
  imap_rep self l (kv_view s) → imap_pre o l →
  ∃ s', imap_exec self o s = ((list_exec o l).1, s')
    ∧ imap_rep self (list_exec o l).2 (kv_view s')
    ∧ ∀ k, ¬ imap_owns self k → get (kv_view s') k = get (kv_view s) k.
Proof.
  intros Hr Hp. destruct (imap_exec_map o l (kv_view s) Hr Hp) as (m' & E & Hr' & Hf).
  destruct (sim_run _ _ _ s _ _ (imap_exec_sim o) E) as (s' & E' & <-). by exists s'.
Qed.
End refinement.

Section example.
#[local] Existing Instances id_keccak id_keccak_inj.
Lemma iterable_map_refines_list_witness :
∃ s', imap_exec (IterableMap_Init [0; 5] true) (ImCreate [7; 7])
    {| cache := ∅; dirty := ∅; db := ∅ |} = (Ret (ImCount 1), s')
  ∧ imap_rep (IterableMap_Init [0; 5] true) [ [7; 7] ] (kv_view s').
Proof.
edestruct (iterable_map_refines_list [0; 5] true (ImCreate [7; 7]) []
  {| cache := ∅; dirty := ∅; db := ∅ |}) as (s' & E & Hr & _).
- apply imap_rep_empty. reflexivity.
- split; [by split|]. simpl. lia.
- exists s'. split; [exact E|exact Hr].
Defined.
End example.

(** shared_prefix_overwritten.  When the prefix slice has spare capacity, the second
    [append] of [Init] overwrites the first one's byte: items are stored under
    [prefix ++ [2] ++ pos] (not [prefix ++ [0] ++ pos] as the comments say), in the key space
    of the positions; the two kinds of key meet exactly at an item of four bytes. *)
Theorem shared_prefix_overwritten `{KeccakInj} prefix pos item :
  let self := IterableMap_Init prefix true in
  items_storage_prefix self = prefix ++ field_items_pos
  ∧ items_storage_prefix self = items_pos_storage_prefix self
  ∧ (items_k self pos = items_pos_k self item ↔ item = uint32ToBytes pos).
Proof.
  split_and!; [done|done|]. split; [|by intros ->].
  intros E. apply Stor_k_1_inj in E. cbn in E. rewrite !app_nil_r in E.
  by apply app_inv_head in E.
Qed.

Section example_shared.
#[local] Existing Instances id_keccak id_keccak_inj.
Lemma shared_prefix_overwritten_witness :
items_k (IterableMap_Init [0; 5] true) 1 = items_pos_k (IterableMap_Init [0; 5] true) [1; 0; 0; 0].
Proof. apply (shared_prefix_overwritten [0; 5] 1 [1; 0; 0; 0]). reflexivity. Defined.
End example_shared.
