(* ===== verification/DposData.v ===== *)
(** Data of the DPoS contract: the stored structs with their RLP codecs ([validators.go],
    [delegations.go], [undelegations.go], the [State] of [dpos_contract.go]), the
    configuration ([chain_config.go]), and the layout of the contract's storage: every key the
    contract uses, and that no two of them collide. *)
From S2P Require Import Prelude Codec Rlp Storage IterableMap.

(** Addresses are byte slices of length 20. *)
Abbreviation address := (list Z).
Definition is_address (a : address) : Prop := length a = 20%nat.

(** * Stored structs *)
Record Validator : Type := {
  TotalStake : Z;
  Commission : Z;
  LastCommissionChange : Z;
  Validator_LastUpdated : Z;
  UndelegationsCount : Z
}.
Record ValidatorInfo : Type := { Description : bytes; Endpoint : bytes }.
Record ValidatorRewards : Type := { RewardsPool : Z; CommissionRewardsPool : Z }.
Record Delegation : Type := { Stake : Z; Delegation_LastUpdated : Z }.
Record Undelegation : Type := { Amount : Z; Block : Z; Id : Z }.
Record State : Type := { RewardsPer1Stake : Z; Count : Z }.

(** A [big.Int] field: what the theorems assume of it is that it is not negative (the encoder
    panics otherwise) and fits in 4096 bits. *)
Definition is_big (x : Z) : Prop := 0 <= x < 2 ^ 4096.
Definition is_str (s : bytes) : Prop := blen s < 2 ^ 20.

Lemma AppendBigInt_big x : is_big x → ∃ e, AppendBigInt x = Ret e ∧ blen e <= 600 ∧
  ∀ r, decodeBigInt (e ++ r) = (Ret x, r).
Proof.
  intros Hx. assert (∃ e, AppendBigInt x = Ret e ∧ blen e <= 600) as (e & E & L).
  { unfold AppendBigInt. destruct (Z.eqb_spec x 0); [eexists; by split|].
    destruct (Z.ltb_spec 0 x); [|unfold is_big in *; lia]. eexists. split; [done|].
    assert (length (big_Bytes x) <= 512)%nat as Hl.
    { apply big_Bytes_length. change (256 ^ Z.of_nat 512) with ((2 ^ 8) ^ 512).
      rewrite <-Z.pow_mul_r by lia. apply Hx. }
    destruct (AppendString_cases (big_Bytes x)) as [(b & _ & _ & ->) | [-> _]]; [done|].
    rewrite blen_app, string_head_length. pose proof (headsize_range (blen (big_Bytes x))).
    unfold blen in *. lia. }
  exists e. split_and!; [done..|]. intros r. apply decodeBigInt_AppendBigInt; [done|apply Hx].
Qed.
Lemma AppendUint_length i : blen (AppendUint i) <= 9.
Proof.
  unfold AppendUint. destruct (i =? 0); [done|]. destruct (i <? 128); [done|].
  rewrite putint_length. pose proof (SizeInBytes_range i). lia.
Qed.
Lemma AppendString_length s : blen (AppendString s) <= 9 + blen s.
Proof.
  destruct (AppendString_cases s) as [(b & -> & _ & ->) | [-> _]]; [done|].
  rewrite blen_app, string_head_length. pose proof (headsize_range (blen s)). lia.
Qed.
Lemma enc_list_nonempty p : enc_list p ≠ [].
Proof.
  unfold enc_list, puthead. destruct (blen p <? 56); [done|].
  rewrite putint_be. done.
Qed.

(** Decode the fields of a struct one after the other. *)
Ltac decode_field :=
  rewrite <-?app_assoc;
  erewrite bind_run by
    (first [ apply Stream_uint_AppendUint; [auto | unfold is_u16, is_u32, is_u64 in *; lia]
           | apply Stream_Bytes_AppendString; unfold is_str, blen in *; lia
           | match goal with H : ∀ r, decodeBigInt (_ ++ r) = _ |- _ => apply H end ]).
Ltac struct_law :=
  eexists; split; [reflexivity|]; split; [apply enc_list_nonempty|];
  intros ?; apply decodeStruct_enc_list;
  [ rewrite ?blen_app; rewrite ?blen_app; unfold is_str in *;
    repeat match goal with |- context [blen (AppendUint ?i)] =>
      pose proof (AppendUint_length i); generalize dependent (blen (AppendUint i)); intros end;
    repeat match goal with |- context [blen (AppendString ?i)] =>
      pose proof (AppendString_length i); generalize dependent (blen (AppendString i)); intros end;
    unfold blen in *; simpl length; lia
  | repeat decode_field; reflexivity ].

#[export] Program Instance Validator_codec : RlpCodec Validator := {
  rlp_wf v := is_big (TotalStake v) ∧ is_u16 (Commission v) ∧ is_u64 (LastCommissionChange v) ∧
    is_u64 (Validator_LastUpdated v) ∧ is_u16 (UndelegationsCount v);
  rlp_encode v := enc_struct [AppendBigInt (TotalStake v); Ret (AppendUint (Commission v));
    Ret (AppendUint (LastCommissionChange v)); Ret (AppendUint (Validator_LastUpdated v));
    Ret (AppendUint (UndelegationsCount v))];
  rlp_decode := decodeStruct (
    ts ← decodeBigInt; c ← Stream_uint 16; lc ← Stream_uint 64; lu ← Stream_uint 64;
    uc ← Stream_uint 16;
    mret {| TotalStake := ts; Commission := c; LastCommissionChange := lc;
            Validator_LastUpdated := lu; UndelegationsCount := uc |})
}.
Next Obligation.
  intros [ts c lc lu uc] (Hts & Hc & Hlc & Hlu & Huc). simpl in *.
  destruct (AppendBigInt_big ts Hts) as (e & E & L & D). unfold enc_struct. simpl. rewrite E.
  struct_law.
Qed.
#[export] Program Instance ValidatorInfo_codec : RlpCodec ValidatorInfo := {
  rlp_wf v := is_str (Description v) ∧ is_str (Endpoint v);
  rlp_encode v :=
    enc_struct [Ret (AppendString (Description v)); Ret (AppendString (Endpoint v))];
  rlp_decode := decodeStruct (
    d ← Stream_Bytes; e ← Stream_Bytes; mret {| Description := d; Endpoint := e |})
}.
Next Obligation. intros [d e] (Hd & He). simpl in *. unfold enc_struct. simpl. struct_law. Qed.
#[export] Program Instance ValidatorRewards_codec : RlpCodec ValidatorRewards := {
  rlp_wf v := is_big (RewardsPool v) ∧ is_big (CommissionRewardsPool v);
  rlp_encode v :=
    enc_struct [AppendBigInt (RewardsPool v); AppendBigInt (CommissionRewardsPool v)];
  rlp_decode := decodeStruct (
    r ← decodeBigInt; c ← decodeBigInt;
    mret {| RewardsPool := r; CommissionRewardsPool := c |})
}.
Next Obligation.
  intros [r c] (Hr & Hc). simpl in *. destruct (AppendBigInt_big r Hr) as (e1 & E1 & L1 & D1).
  destruct (AppendBigInt_big c Hc) as (e2 & E2 & L2 & D2).
  unfold enc_struct. simpl. rewrite E1, E2. struct_law.
Qed.
#[export] Program Instance Delegation_codec : RlpCodec Delegation := {
  rlp_wf v := is_big (Stake v) ∧ is_u64 (Delegation_LastUpdated v);
  rlp_encode v :=
    enc_struct [AppendBigInt (Stake v); Ret (AppendUint (Delegation_LastUpdated v))];
  rlp_decode := decodeStruct (
    s ← decodeBigInt; lu ← Stream_uint 64; mret {| Stake := s; Delegation_LastUpdated := lu |})
}.
Next Obligation.
  intros [s lu] (Hs & Hlu). simpl in *. destruct (AppendBigInt_big s Hs) as (e & E & L & D).
  unfold enc_struct. simpl. rewrite E. struct_law.
Qed.
#[export] Program Instance Undelegation_codec : RlpCodec Undelegation := {
  rlp_wf v := is_big (Amount v) ∧ is_u64 (Block v) ∧ is_u64 (Id v);
  rlp_encode v :=
    enc_struct [AppendBigInt (Amount v); Ret (AppendUint (Block v)); Ret (AppendUint (Id v))];
  rlp_decode := decodeStruct (
    a ← decodeBigInt; b ← Stream_uint 64; i ← Stream_uint 64;
    mret {| Amount := a; Block := b; Id := i |})
}.
Next Obligation.
  intros [a b i] (Ha & Hb & Hi). simpl in *. destruct (AppendBigInt_big a Ha) as (e & E & L & D).
  unfold enc_struct. simpl. rewrite E. struct_law.
Qed.
#[export] Program Instance State_codec : RlpCodec State := {
  rlp_wf v := is_big (RewardsPer1Stake v) ∧ is_u32 (Count v);
  rlp_encode v := enc_struct [AppendBigInt (RewardsPer1Stake v); Ret (AppendUint (Count v))];
  rlp_decode := decodeStruct (
    r ← decodeBigInt; c ← Stream_uint 32; mret {| RewardsPer1Stake := r; Count := c |})
}.
Next Obligation.
  intros [r c] (Hr & Hc). simpl in *. destruct (AppendBigInt_big r Hr) as (e & E & L & D).
  unfold enc_struct. simpl. rewrite E. struct_law.
Qed.

(** C36: stored_structs_roundtrip.  Every struct the DPoS contract stores is decoded, in the
    declared field order, to the value that was encoded, and its encoding is never empty (an
    empty value would read as absent). *)
Theorem stored_structs_roundtrip (v : Validator) (i : ValidatorInfo) (r : ValidatorRewards)
    (d : Delegation) (u : Undelegation) (s : State) :
  rlp_wf v → rlp_wf i → rlp_wf r → rlp_wf d → rlp_wf u → rlp_wf s →
  (∃ b, MustEncodeToBytes v = Ret b ∧ b ≠ [] ∧ MustDecodeBytes rlp_decode b = Ret v) ∧
  (∃ b, MustEncodeToBytes i = Ret b ∧ b ≠ [] ∧ MustDecodeBytes rlp_decode b = Ret i) ∧
  (∃ b, MustEncodeToBytes r = Ret b ∧ b ≠ [] ∧ MustDecodeBytes rlp_decode b = Ret r) ∧
  (∃ b, MustEncodeToBytes d = Ret b ∧ b ≠ [] ∧ MustDecodeBytes rlp_decode b = Ret d) ∧
  (∃ b, MustEncodeToBytes u = Ret b ∧ b ≠ [] ∧ MustDecodeBytes rlp_decode b = Ret u) ∧
  (∃ b, MustEncodeToBytes s = Ret b ∧ b ≠ [] ∧ MustDecodeBytes rlp_decode b = Ret s).
Proof. intros. split_and!; by apply rlp_roundtrip. Qed.
Lemma stored_structs_roundtrip_witness :
  ∃ b, MustEncodeToBytes {| RewardsPer1Stake := 300; Count := 2 |} = Ret b ∧ b ≠ [] ∧
    MustDecodeBytes rlp_decode b = Ret {| RewardsPer1Stake := 300; Count := 2 |}.
Proof.
  apply (stored_structs_roundtrip
    {| TotalStake := 1000; Commission := 1500; LastCommissionChange := 7;
       Validator_LastUpdated := 9; UndelegationsCount := 0 |}
    {| Description := [72; 105]; Endpoint := [] |}
    {| RewardsPool := 5; CommissionRewardsPool := 0 |}
    {| Stake := 500; Delegation_LastUpdated := 9 |}
    {| Amount := 1; Block := 2; Id := 3 |}
    {| RewardsPer1Stake := 300; Count := 2 |});
  repeat split; vm_compute; first [reflexivity | discriminate].
Defined.

(** * Configuration
    [DPOSConfig]; its last field, [InitialValidators], is a field of [ChainConfig] here. *)
Record DPOSConfig : Type := {
  EligibilityBalanceThreshold : Z;
  VoteEligibilityBalanceStep : Z;
  ValidatorMaximumStake : Z;
  MinimumDeposit : Z;
  MaxBlockAuthorReward : Z;
  DagProposersReward : Z;
  CommissionChangeDelta : Z;
  CommissionChangeFrequency : Z;
  DelegationDelay : Z;
  DelegationLockingPeriod : Z;
  BlocksPerYear : Z;
  TrxMinGasPrice : Z;
  TrxMaxGasLimit : Z
}.
Record GenesisValidator : Type := {
  GV_Address : address;
  GV_Owner : address;
  GV_VrfKey : bytes;
  GV_Commission : Z;
  GV_Endpoint : bytes;
  GV_Description : bytes;
  GV_Delegations : list (address * Z)  (** in the order the Go map is iterated *)
}.
Record ChainConfig : Type := {
  GenesisBalances : list (address * Z);
  DPOS : DPOSConfig;
  InitialValidators : list GenesisValidator;
  JailTime : Z;
  MaxSupply : Z;
  GeneratedRewards : Z
}.
Definition GenesisBalancesSum (self : ChainConfig) : Z :=
  foldl (λ sum b, sum + b.2) 0 (GenesisBalances self).

(** * Storage layout *)
(** Every key of the contract besides those of its iterable maps. *)
Inductive dkey : Type :=
| KValidator (validator : address)
| KValidatorInfo (validator : address)
| KValidatorRewards (validator : address)
| KOwner (validator : address)
| KVrfKey (validator : address)
| KState (validator : address) (block : Z)
| KDelegation (delegator validator : address)
| KUndelegation (delegator validator : address) (undelegation_id : Z)
| KLastUniqueId (delegator : address)
| KEligibleVoteCount
| KAmountDelegated
| KMintedTokens
| KTotalSupply
| KYield
| KVotingPowerFactor (validator : address)
| KLastActiveBlock (validator : address)
| KEvictionCursor (validator : address)
| KLastProcessedEpochBlock.

(** The parts the code hashes: [field_validators] .. [field_last_processed_epoch_block], the
    per-component sub-fields, the addresses, block numbers and identifiers. *)
Definition dk_parts (k : dkey) : list bytes :=
  match k with
  | KValidator v => [ [0; 0]; v ]
  | KValidatorInfo v => [ [0; 1]; v ]
  | KValidatorRewards v => [ [0; 2]; v ]
  | KOwner v => [ [0; 3]; v ]
  | KVrfKey v => [ [0; 4]; v ]
  | KState v block => [ [1]; v; BlockToBytes block ]
  | KDelegation del val => [ [2; 0]; val; del ]
  | KUndelegation del val id => [ [3; 0]; del; val; Uint64ToBytes id ]
  | KLastUniqueId del => [ [3; 4]; del ]
  | KEligibleVoteCount => [ [4] ]
  | KAmountDelegated => [ [5] ]
  | KMintedTokens => [ [6] ]
  | KTotalSupply => [ [7] ]
  | KYield => [ [8] ]
  | KVotingPowerFactor v => [ [9]; v ]
  | KLastActiveBlock v => [ [10]; v ]
  | KEvictionCursor v => [ [11]; v ]
  | KLastProcessedEpochBlock => [ [12] ]
  end.
(** The contract's iterable maps: the list of validators, the forward and the reverse index of
    the delegations, the validators a delegator undelegates from and the identifiers of the
    undelegations. *)
Inductive dmap : Type :=
| MValidators
| MDelegatorValidators (delegator : address)
| MValidatorDelegators (validator : address)
| MUndelegationValidators (delegator : address)
| MUndelegationIds (delegator validator : address).
Definition dm_prefix (d : dmap) : bytes :=
  match d with
  | MValidators => [0; 5]
  | MDelegatorValidators del => [2; 1] ++ del
  | MValidatorDelegators val => [2; 2] ++ val
  | MUndelegationValidators del => [3; 2] ++ del
  | MUndelegationIds del val => [3; 3] ++ del ++ val
  end.

Definition dk_wf (k : dkey) : Prop :=
  match k with
  | KValidator v | KValidatorInfo v | KValidatorRewards v | KOwner v | KVrfKey v
  | KLastUniqueId v | KVotingPowerFactor v | KLastActiveBlock v | KEvictionCursor v =>
      is_address v
  | KState v block => is_address v ∧ is_u64 block
  | KDelegation del val => is_address del ∧ is_address val
  | KUndelegation del val id => is_address del ∧ is_address val ∧ is_u64 id
  | _ => True
  end.
Definition dm_wf (d : dmap) : Prop :=
  match d with
  | MValidators => True
  | MDelegatorValidators a | MValidatorDelegators a | MUndelegationValidators a => is_address a
  | MUndelegationIds del val => is_address del ∧ is_address val
  end.

Section layout.
Context `{Keccak}.

Definition dk (k : dkey) : bytes := Stor_k_1 (dk_parts k).
(** The prefix slices the code passes to [Init] all have spare capacity: they come from an
    [append] that outgrew its array (lengths 2, 22 and 42; capacities 8, 24 and 48). *)
Definition dm (d : dmap) : IterableMap := IterableMap_Init (dm_prefix d) true.
End layout.

Lemma dk_parts_inj k1 k2 :
  dk_wf k1 → dk_wf k2 → concat (dk_parts k1) = concat (dk_parts k2) → k1 = k2.
Proof.
  intros H1 H2 E. unfold is_address in *.
  destruct k1, k2; cbn [dk_parts concat app] in E; try discriminate E;
    unfold dk_wf, is_address in *; rewrite ?app_nil_r in E;
    repeat match type of E with _ :: _ = _ :: _ => injection E as E end;
    repeat match goal with
    | H : _ ∧ _ |- _ => destruct H
    | H : ?a ++ _ = ?b ++ _ |- _ => apply app_inj_1 in H as [? H]; [|congruence]
    end; try congruence.
  - apply big_Bytes_inj in E; unfold is_u64 in *; [congruence|lia..].
  - apply Uint64ToBytes_inj in E; [congruence|done..].
Qed.
Lemma dm_prefix_key d k r : dm_prefix d ++ r ≠ concat (dk_parts k).
Proof. by destruct d, k. Qed.
Lemma dm_prefix_inj d1 d2 r1 r2 :
  dm_wf d1 → dm_wf d2 → dm_prefix d1 ++ r1 = dm_prefix d2 ++ r2 → d1 = d2.
Proof.
  intros H1 H2 E. unfold is_address in *.
  destruct d1, d2; cbn [dm_prefix app] in E; try discriminate E;
    unfold dm_wf, is_address in *; rewrite <-?app_assoc in E;
    repeat match type of E with _ :: _ = _ :: _ => injection E as E end;
    repeat match goal with
    | H : _ ∧ _ |- _ => destruct H
    | H : ?a ++ _ = ?b ++ _ |- _ => apply app_inj_1 in H as [? H]; [|congruence]
    end; congruence.
Qed.

Section layout_facts.
Context `{KeccakInj}.

Lemma dk_inj k1 k2 : dk_wf k1 → dk_wf k2 → dk k1 = dk k2 → k1 = k2.
Proof. intros W1 W2 E. apply dk_parts_inj; [done..|]. by apply Stor_k_1_inj. Qed.
Lemma dk_ne k1 k2 : dk_wf k1 → dk_wf k2 → k1 ≠ k2 → dk k1 ≠ dk k2.
Proof. intros W1 W2 N E. by apply N, dk_inj. Qed.
Lemma imap_owns_prefix d k : imap_owns (dm d) k → ∃ r, k = keccak (dm_prefix d ++ r).
Proof.
  intros [-> | [[pos ->] | (item & _ & ->)]].
  - exists field_items_count. cbn. unfold Stor_k_1. simpl. done.
  - exists (field_items_pos ++ uint32ToBytes pos). unfold items_k, Stor_k_1.
    change (items_storage_prefix (dm d)) with (dm_prefix d ++ field_items_pos).
    cbn [concat]. by rewrite app_nil_r, <-app_assoc.
  - exists (field_items_pos ++ item). unfold items_pos_k, Stor_k_1.
    change (items_pos_storage_prefix (dm d)) with (dm_prefix d ++ field_items_pos).
    cbn [concat]. by rewrite app_nil_r, <-app_assoc.
Qed.
Lemma dm_not_key d k : ¬ imap_owns (dm d) (dk k).
Proof.
  intros (r & E)%imap_owns_prefix. apply (keccak_inj (concat (dk_parts k))) in E.
  symmetry in E. by apply dm_prefix_key in E.
Qed.
Lemma dm_disjoint d1 d2 k :
  dm_wf d1 → dm_wf d2 → d1 ≠ d2 → imap_owns (dm d1) k → ¬ imap_owns (dm d2) k.
Proof.
  intros W1 W2 N (r1 & ->)%imap_owns_prefix (r2 & E)%imap_owns_prefix.
  apply keccak_inj in E. by apply N, (dm_prefix_inj d1 d2 r1 r2).
Qed.
End layout_facts.

(** * Reading and writing a stored struct *)
Section structs.
Context {St : Type} `{!KVStore St} {A : Type} `{!RlpCodec A}.

(** [self.storage.Get(key, func(bytes) { x = new(T); rlp.MustDecodeBytes(bytes, x) })]. *)
Definition load (key : bytes) : M St (option A) :=
  b ← kv_get key;
  match b with
  | [] => mret None
  | _ => a ← of_outcome (MustDecodeBytes rlp_decode b); mret (Some a)
  end.
(** The same with [rlp.DecodeBytes] and the caller's own panic. *)
Definition load_or_panic (msg : string) (key : bytes) : M St (option A) :=
  b ← kv_get key;
  match b with
  | [] => mret None
  | _ => a ← of_outcome (match DecodeBytes rlp_decode b with Err _ => Panic msg | o => o end);
         mret (Some a)
  end.
Definition save (key : bytes) (a : A) : M St unit :=
  b ← of_outcome (MustEncodeToBytes a); kv_put key b.
End structs.

Section structs_refine.
Context {St : Type} `{!KVStore St} {A : Type} `{!RlpCodec A}.

Lemma load_sim k : sim (kv_view (St := St)) (load (A := A) k) (load k).
Proof. unfold load. sim_solve. Qed.
Lemma load_or_panic_sim msg k :
  sim (kv_view (St := St)) (load_or_panic (A := A) msg k) (load_or_panic msg k).
Proof. unfold load_or_panic. sim_solve. Qed.
Lemma save_sim k (a : A) : sim (kv_view (St := St)) (save k a) (save k a).
Proof. unfold save. sim_solve. Qed.
End structs_refine.
#[export] Hint Resolve load_sim load_or_panic_sim save_sim : sim.

(** [slot m k o]: the slot [k] holds the struct [o], or nothing. *)
Definition enc `{RlpCodec A} (a : A) : bytes :=
  match MustEncodeToBytes a with Ret b => b | _ => [] end.
Definition slot `{RlpCodec A} (m : gmap bytes bytes) (k : bytes) (o : option A) : Prop :=
  match o with
  | Some a => rlp_wf a ∧ get m k = enc a
  | None => get m k = []
  end.

Section slots.
Context {A : Type} `{!RlpCodec A}.

Lemma enc_spec (a : A) :
  rlp_wf a → MustEncodeToBytes a = Ret (enc a) ∧ enc a ≠ [] ∧
    MustDecodeBytes rlp_decode (enc a) = Ret a ∧ DecodeBytes rlp_decode (enc a) = Ret a.
Proof.
  intros Ha. destruct (rlp_roundtrip a Ha) as (b & E & N & D). unfold enc. rewrite E.
  split_and!; [done..|]. unfold MustDecodeBytes in D. by destruct (DecodeBytes _ b).
Qed.
Lemma load_slot m k (o : option A) : slot m k o → load k m = (Ret o, m).
Proof.
  intros Hs. unfold load. erewrite bind_run by apply map_get_run. destruct o as [a|].
  - destruct Hs as [Ha ->]. destruct (enc_spec a Ha) as (_ & N & D & _).
    destruct (enc a) as [|x y] eqn:E; [done|]. rewrite <-E in *. by rewrite D.
  - simpl in Hs. by rewrite Hs.
Qed.
Lemma load_or_panic_slot msg m k (o : option A) :
  slot m k o → load_or_panic msg k m = (Ret o, m).
Proof.
  intros Hs. unfold load_or_panic. erewrite bind_run by apply map_get_run. destruct o as [a|].
  - destruct Hs as [Ha ->]. destruct (enc_spec a Ha) as (_ & N & _ & D).
    destruct (enc a) as [|x y] eqn:E; [done|]. rewrite <-E in *. by rewrite D.
  - simpl in Hs. by rewrite Hs.
Qed.
Lemma save_run m k (a : A) : rlp_wf a → save k a m = (Ret tt, view_put k (enc a) m).
Proof. intros Ha. unfold save. destruct (enc_spec a Ha) as (-> & _). done. Qed.
Lemma slot_put_eq m k (a : A) : rlp_wf a → slot (view_put k (enc a) m) k (Some a).
Proof. intros Ha. split; [done|]. apply get_put_eq. Qed.
Lemma slot_del_eq m k : slot (A := A) (view_put k [] m) k None.
Proof. apply get_put_eq. Qed.
Lemma slot_frame m m' k (o : option A) : get m' k = get m k → slot m k o → slot m' k o.
Proof. intros E. unfold slot. rewrite E. done. Qed.
Lemma slot_put_ne m k k' v (o : option A) : k ≠ k' → slot m k' o → slot (view_put k v m) k' o.
Proof. intros N. apply slot_frame. by apply get_put_ne. Qed.
End slots.

(** ** Framing: what an operation on one part of the layout leaves alone *)
Section framing.
Context `{KeccakInj}.

Lemma imap_rep_put_key d l m k v :
  imap_rep (dm d) l m → imap_rep (dm d) l (view_put (dk k) v m).
Proof.
  apply imap_rep_frame. intros k' Hk. apply get_put_ne. intros <-. by apply dm_not_key in Hk.
Qed.
Lemma imap_rep_other d1 d2 l m m' :
  dm_wf d1 → dm_wf d2 → d1 ≠ d2 → (∀ k, ¬ imap_owns (dm d1) k → get m' k = get m k) →
  imap_rep (dm d2) l m → imap_rep (dm d2) l m'.
Proof.
  intros W1 W2 N Hf. apply imap_rep_frame. intros k Hk. apply Hf. intros Hk1.
  by eapply (dm_disjoint d1 d2).
Qed.
Lemma slot_imap {A} `{!RlpCodec A} d k m m' (o : option A) :
  (∀ k, ¬ imap_owns (dm d) k → get m' k = get m k) → slot m (dk k) o → slot m' (dk k) o.
Proof. intros Hf. apply slot_frame, Hf, dm_not_key. Qed.
Lemma slot_put_key {A} `{!RlpCodec A} k k' v m (o : option A) :
  dk_wf k → dk_wf k' → k ≠ k' → slot m (dk k') o → slot (view_put (dk k) v m) (dk k') o.
Proof. intros W W' N. by apply slot_put_ne, dk_ne. Qed.
Lemma get_put_key k k' v m :
  dk_wf k → dk_wf k' → k ≠ k' → get (view_put (dk k) v m) (dk k') = get m (dk k').
Proof. intros W W' N. by apply get_put_ne, dk_ne. Qed.
End framing.

(** ** The iterable maps of addresses and identifiers *)
Lemma address_item_ok a : is_address a → item_ok a.
Proof. unfold is_address, item_ok. intros E. split; [by destruct a|lia]. Qed.
Lemma id_item_ok i : item_ok (Uint64ToBytes i).
Proof.
  pose proof (Uint64ToBytes_length i) as L. split; [|lia]. intros E. by rewrite E in L.
Qed.
Lemma BytesToAddress_id a : is_address a → BytesToAddress a = a.
Proof.
  unfold is_address, BytesToAddress. intros E.
  rewrite E, Nat.sub_diag, drop_0, E, Nat.sub_diag. done.
Qed.
Lemma BytesToAddress_map l : Forall is_address l → map BytesToAddress l = l.
Proof. induction 1; simpl; [done|]. f_equal; [by apply BytesToAddress_id|done]. Qed.

(** Update of a function at one point. *)
Definition set_at {A B} `{EqDecision A} (f : A → B) (a : A) (x : B) : A → B :=
  λ b, if decide (b = a) then x else f b.
Lemma set_at_eq {A B} `{EqDecision A} (f : A → B) a x : set_at f a x a = x.
Proof. unfold set_at. by rewrite decide_True. Qed.
Lemma set_at_ne {A B} `{EqDecision A} (f : A → B) a b x : b ≠ a → set_at f a x b = f b.
Proof. intros. unfold set_at. by rewrite decide_False. Qed.

(** A list without repetition that injects into the keys of a map is not longer than it. *)
Lemma index_size {K V B} `{Countable K} (D : gmap K V) (l : list B) (f : B → K) :
  NoDup l → Inj (=) (=) f → (∀ a, a ∈ l → is_Some (D !! f a)) → (length l <= size D)%nat.
Proof.
  intros Hn Hf Hl. rewrite <-size_dom, <-(length_fmap f l).
  rewrite <-(size_list_to_set (C := gset K)) by by apply NoDup_fmap_2.
  apply subseteq_size. intros p. rewrite elem_of_list_to_set, list_elem_of_fmap.
  intros (a & -> & Ha). by apply elem_of_dom, Hl.
Qed.

Section maps.
Context `{KeccakInj} (d : dmap).
Implicit Types (l : list bytes) (m : gmap bytes bytes).

Lemma dm_AccountExists l m a :
  imap_rep (dm d) l m → is_address a → AccountExists (dm d) a m = (Ret (bool_decide (a ∈ l)), m).
Proof. intros Hr Ha. apply (ItemExists_spec (dm_prefix d) true); [done|by apply address_item_ok]. Qed.
Lemma dm_GetCount l m : imap_rep (dm d) l m → GetCount (dm d) m = (Ret (Z.of_nat (length l)), m).
Proof. intros Hr. apply Hr. Qed.
Lemma dm_CreateAccount l m a :
  imap_rep (dm d) l m → is_address a → a ∉ l → Z.of_nat (length l) + 1 < 2 ^ 32 →
  ∃ m', CreateAccount (dm d) a m = (Ret (Z.of_nat (length l) + 1), m')
    ∧ imap_rep (dm d) (l ++ [a]) m' ∧ ∀ k, ¬ imap_owns (dm d) k → get m' k = get m k.
Proof. intros. apply (CreateItem_spec (dm_prefix d) true); [done|by apply address_item_ok|done..]. Qed.
Lemma dm_RemoveAccount l m i a :
  imap_rep (dm d) l m → l !! i = Some a →
  ∃ m', RemoveAccount (dm d) a m = (Ret (Z.of_nat (length l) - 1), m')
    ∧ imap_rep (dm d) (swap_remove i l) m' ∧ ∀ k, ¬ imap_owns (dm d) k → get m' k = get m k.
Proof. intros. by apply (RemoveItem_spec (dm_prefix d) true). Qed.
Lemma dm_IdExists l m i :
  imap_rep (dm d) l m → IdExists (dm d) i m = (Ret (bool_decide (Uint64ToBytes i ∈ l)), m).
Proof. intros Hr. apply (ItemExists_spec (dm_prefix d) true); [done|by apply id_item_ok]. Qed.
Lemma dm_CreateId l m i :
  imap_rep (dm d) l m → Uint64ToBytes i ∉ l → Z.of_nat (length l) + 1 < 2 ^ 32 →
  ∃ m', CreateId (dm d) i m = (Ret (Z.of_nat (length l) + 1), m')
    ∧ imap_rep (dm d) (l ++ [Uint64ToBytes i]) m'
    ∧ ∀ k, ¬ imap_owns (dm d) k → get m' k = get m k.
Proof. intros. apply (CreateItem_spec (dm_prefix d) true); [done|by apply id_item_ok|done..]. Qed.
Lemma dm_RemoveId l m j i :
  imap_rep (dm d) l m → l !! j = Some (Uint64ToBytes i) →
  ∃ m', RemoveId (dm d) i m = (Ret (Z.of_nat (length l) - 1), m')
    ∧ imap_rep (dm d) (swap_remove j l) m' ∧ ∀ k, ¬ imap_owns (dm d) k → get m' k = get m k.
Proof. intros. by apply (RemoveItem_spec (dm_prefix d) true). Qed.

(** Pages of addresses; the page size times the page number has to fit in 32 bits. *)
Lemma dm_GetAccounts l m batch count :
  imap_rep (dm d) l m → Forall is_address l → 0 <= batch → 0 <= count →
  batch * count + count < 2 ^ 32 →
  GetAccounts (dm d) batch count m =
    (Ret (take (Z.to_nat count) (drop (Z.to_nat (batch * count)) l),
          bool_decide (Z.of_nat (length l) <= batch * count + count)), m).
Proof.
  intros Hr Ha Hb Hc Hbc. unfold GetAccounts.
  rewrite u32_id by (unfold is_u32; nia).
  erewrite bind_run by (by apply (GetItems_spec (dm_prefix d) true l); [|unfold is_u32; nia..]).
  simpl. rewrite BytesToAddress_map; [done|]. by apply Forall_take, Forall_drop.
Qed.
Lemma dm_GetAllAccounts l m :
  imap_rep (dm d) l m → Forall is_address l → GetAllAccounts (dm d) m = (Ret l, m).
Proof.
  intros Hr Ha. pose proof (ir_u32 _ _ _ Hr) as Hu. unfold is_u32 in Hu. unfold GetAllAccounts.
  erewrite bind_run by (by apply dm_GetCount).
  erewrite bind_run by (apply (GetItems_spec (dm_prefix d) true l); [done|unfold is_u32; lia..]).
  simpl. rewrite drop_0, Nat2Z.id, take_ge, BytesToAddress_map by done. done.
Qed.
End maps.

(** C37: storage_layout_collision_free.  With a collision-free hash, two different fields of
    the DPoS contract never share a storage slot: not two plain keys (for 20-byte addresses and
    64-bit numbers, although the block number is encoded without padding), not a plain key and
    a slot of an iterable map, and not slots of two different iterable maps. *)
Theorem storage_layout_collision_free `{KeccakInj} k1 k2 d1 d2 k :
  dk_wf k1 → dk_wf k2 → dm_wf d1 → dm_wf d2 →
  (dk k1 = dk k2 → k1 = k2) ∧ ¬ imap_owns (dm d1) (dk k1) ∧
  (imap_owns (dm d1) k → imap_owns (dm d2) k → d1 = d2).
Proof.
  intros W1 W2 V1 V2. split_and!; [by apply dk_inj|apply dm_not_key|].
  intros O1 (r2 & E)%imap_owns_prefix. apply imap_owns_prefix in O1 as (r1 & ->).
  apply keccak_inj in E. by apply (dm_prefix_inj d1 d2 r1 r2).
Qed.
Section example.
#[local] Existing Instances id_keccak id_keccak_inj.
Lemma storage_layout_collision_free_witness :
dk (KState (replicate 20 1) 5) ≠ dk (KState (replicate 20 1) 0) ∧
¬ imap_owns (dm MValidators) (dk (KState (replicate 20 1) 5)).
Proof.
destruct (storage_layout_collision_free (KState (replicate 20 1) 5) (KState (replicate 20 1) 0)
  MValidators MValidators []) as (T & N & _); [done..|].
split; [|exact N]. intros E. apply T in E. discriminate E.
Defined.
End example.
