(* ===== verification/Validators.v ===== *)
(** [validators.go]: the validators of the DPoS contract.  A validator is four stored structs
    and fields under its address and an entry of the list of validators; the operations keep
    them together. *)
From S2P Require Import Prelude Codec Rlp Storage IterableMap DposData.

Section operations.
Context `{Keccak} {St : Type} `{!KVStore St}.

Definition GetValidatorOwner (validator : address) : M St address :=
  b ← kv_get (dk (KOwner validator));
  mret (match b with [] => replicate 20 0 | _ => BytesToAddress b end).
Definition CheckValidatorOwner (owner validator : address) : M St bool :=
  saved_addr ← GetValidatorOwner validator; mret (bool_decide (owner = saved_addr)).
Definition Validators_GetVrfKey (validator : address) : M St bytes :=
  kv_get (dk (KVrfKey validator)).
Definition ValidatorExists (validator_address : address) : M St bool :=
  AccountExists (dm MValidators) validator_address.
Definition GetValidatorsAddresses (batch count : Z) : M St (list address * bool) :=
  GetAccounts (dm MValidators) batch count.
Definition GetValidatorsCount : M St Z := GetCount (dm MValidators).

Definition GetValidator (validator_address : address) : M St (option Validator) :=
  load_or_panic "Unable to decode validator rlp" (dk (KValidator validator_address)).
Definition GetValidatorInfo (validator_address : address) : M St (option ValidatorInfo) :=
  load (dk (KValidatorInfo validator_address)).
Definition GetValidatorRewards (validator_address : address) : M St (option ValidatorRewards) :=
  load (dk (KValidatorRewards validator_address)).

(** [Modify[T]]: the validator has to be in the list. *)
Definition Modify {A} `{RlpCodec A} (address : address) (key : bytes) (data : A) : M St unit :=
  exists_ ← ValidatorExists address;
  panic_if (negb exists_) "Modify: non existent validator" ;;
  save key data.
Definition ModifyValidator (validator_address : address) (validator : Validator) : M St unit :=
  Modify validator_address (dk (KValidator validator_address)) validator.
Definition ModifyValidatorInfo (validator_address : address) (info : ValidatorInfo) : M St unit :=
  Modify validator_address (dk (KValidatorInfo validator_address)) info.
Definition ModifyValidatorRewards (validator_address : address) (rewards : ValidatorRewards)
  : M St unit :=
  Modify validator_address (dk (KValidatorRewards validator_address)) rewards.

Definition CreateValidator (owner_address validator_address : address) (vrf_key : bytes)
    (block commission : Z) (description endpoint : bytes) : M St Validator :=
  let validator := {| TotalStake := 0; Commission := commission; LastCommissionChange := block;
                      Validator_LastUpdated := block; UndelegationsCount := 0 |} in
  save (dk (KValidator validator_address)) validator ;;
  save (dk (KValidatorInfo validator_address))
    {| Description := description; Endpoint := endpoint |} ;;
  save (dk (KValidatorRewards validator_address))
    {| RewardsPool := 0; CommissionRewardsPool := 0 |} ;;
  kv_put (dk (KOwner validator_address)) owner_address ;;
  kv_put (dk (KVrfKey validator_address)) vrf_key ;;
  CreateAccount (dm MValidators) validator_address ;;
  mret validator.
Definition DeleteValidator (validator_address : address) : M St unit :=
  kv_put (dk (KValidator validator_address)) [] ;;
  kv_put (dk (KValidatorInfo validator_address)) [] ;;
  kv_put (dk (KOwner validator_address)) [] ;;
  kv_put (dk (KVrfKey validator_address)) [] ;;
  kv_put (dk (KValidatorRewards validator_address)) [] ;;
  RemoveAccount (dm MValidators) validator_address ;;
  mret tt.

Definition ValidatorRewards_Empty (self : ValidatorRewards) : bool :=
  (RewardsPool self =? 0) && (CommissionRewardsPool self =? 0).

Definition AddValidatorRewards (validator_address : address) (commission_reward reward : Z)
  : M St unit :=
  exists_ ← ValidatorExists validator_address;
  panic_if (negb exists_) "AddValidatorRewards: non existent validator" ;;
  rewards ← GetValidatorRewards validator_address;
  rewards ← deref rewards;
  ModifyValidatorRewards validator_address
    {| RewardsPool := RewardsPool rewards + reward;
       CommissionRewardsPool := CommissionRewardsPool rewards + commission_reward |}.
End operations.

Section refine.
Context `{Keccak} {St : Type} `{!KVStore St}.
Abbreviation view := (kv_view (St := St)).

Lemma GetValidatorOwner_sim v : sim view (GetValidatorOwner v) (GetValidatorOwner v).
Proof. unfold GetValidatorOwner. sim_solve. Qed.
#[local] Hint Resolve GetValidatorOwner_sim : sim.
Lemma CheckValidatorOwner_sim o v : sim view (CheckValidatorOwner o v) (CheckValidatorOwner o v).
Proof. unfold CheckValidatorOwner. sim_solve. Qed.
Lemma ValidatorExists_sim v : sim view (ValidatorExists v) (ValidatorExists v).
Proof. apply AccountExists_sim. Qed.
Lemma GetValidatorsAddresses_sim i n :
  sim view (GetValidatorsAddresses i n) (GetValidatorsAddresses i n).
Proof. apply GetAccounts_sim. Qed.
Lemma GetValidatorsCount_sim : sim view GetValidatorsCount GetValidatorsCount.
Proof. apply GetCount_sim. Qed.
Lemma GetValidator_sim v : sim view (GetValidator v) (GetValidator v).
Proof. apply load_or_panic_sim. Qed.
Lemma GetValidatorInfo_sim v : sim view (GetValidatorInfo v) (GetValidatorInfo v).
Proof. apply load_sim. Qed.
Lemma GetValidatorRewards_sim v : sim view (GetValidatorRewards v) (GetValidatorRewards v).
Proof. apply load_sim. Qed.
#[local] Hint Resolve ValidatorExists_sim GetValidatorRewards_sim : sim.
Lemma Modify_sim {A} `{RlpCodec A} a k (x : A) : sim view (Modify a k x) (Modify a k x).
Proof. unfold Modify. sim_solve. Qed.
Lemma ModifyValidator_sim a x : sim view (ModifyValidator a x) (ModifyValidator a x).
Proof. apply Modify_sim. Qed.
Lemma ModifyValidatorInfo_sim a x : sim view (ModifyValidatorInfo a x) (ModifyValidatorInfo a x).
Proof. apply Modify_sim. Qed.
Lemma ModifyValidatorRewards_sim a x :
  sim view (ModifyValidatorRewards a x) (ModifyValidatorRewards a x).
Proof. apply Modify_sim. Qed.
#[local] Hint Resolve ModifyValidatorRewards_sim : sim.
Lemma CreateValidator_sim o v k b c d e :
  sim view (CreateValidator o v k b c d e) (CreateValidator o v k b c d e).
Proof. unfold CreateValidator. sim_solve. Qed.
Lemma DeleteValidator_sim v : sim view (DeleteValidator v) (DeleteValidator v).
Proof. unfold DeleteValidator. sim_solve. Qed.
Lemma AddValidatorRewards_sim v c r :
  sim view (AddValidatorRewards v c r) (AddValidatorRewards v c r).
Proof. unfold AddValidatorRewards. sim_solve. Qed.
End refine.
#[export] Hint Resolve GetValidatorOwner_sim CheckValidatorOwner_sim ValidatorExists_sim
  GetValidatorsAddresses_sim GetValidatorsCount_sim GetValidator_sim GetValidatorInfo_sim
  GetValidatorRewards_sim ModifyValidator_sim ModifyValidatorInfo_sim ModifyValidatorRewards_sim
  CreateValidator_sim DeleteValidator_sim AddValidatorRewards_sim : sim.
