(* ===== verification/Delegations.v ===== *)
(** [delegations.go]: the delegations of the DPoS contract, a stored struct per (delegator,
    validator) pair with a forward index (the validators of a delegator) and a reverse index
    (the delegators of a validator).  The refinement at the end states what the operations
    promise together: they implement a finite map, and the two indexes enumerate it. *)
From S2P Require Import Prelude Codec Rlp Storage IterableMap DposData.

Section operations.
Context `{Keccak} {St : Type} `{!KVStore St}.

Definition getDelegatorValidatorsList (delegator_address : address) : IterableMap :=
  dm (MDelegatorValidators delegator_address).
Definition getValidatorDelegatorsList (validator_address : address) : IterableMap :=
  dm (MValidatorDelegators validator_address).
Definition genDelegationKey (delegator_address validator_address : address) : bytes :=
  dk (KDelegation delegator_address validator_address).

Definition DelegationExists (delegator_address validator_address : address) : M St bool :=
  AccountExists (getDelegatorValidatorsList delegator_address) validator_address.
Definition GetDelegationsCount (delegator_address : address) : M St Z :=
  GetCount (getDelegatorValidatorsList delegator_address).
Definition GetDelegation (delegator_address validator_address : address)
  : M St (option Delegation) :=
  load (genDelegationKey delegator_address validator_address).
Definition ModifyDelegation (delegator_address validator_address : address)
    (delegation : Delegation) : M St unit :=
  exists_ ← AccountExists (getDelegatorValidatorsList delegator_address) validator_address;
  panic_if (negb exists_) "ModifyDelegation: non existent delegation" ;;
  save (genDelegationKey delegator_address validator_address) delegation.
Definition CreateDelegation (delegator_address validator_address : address) (block stake : Z)
  : M St unit :=
  save (genDelegationKey delegator_address validator_address)
    {| Stake := stake; Delegation_LastUpdated := block |} ;;
  CreateAccount (getDelegatorValidatorsList delegator_address) validator_address ;;
  CreateAccount (getValidatorDelegatorsList validator_address) delegator_address ;;
  mret tt.
Definition RemoveDelegation (delegator_address validator_address : address) : M St unit :=
  kv_put (genDelegationKey delegator_address validator_address) [] ;;
  RemoveAccount (getDelegatorValidatorsList delegator_address) validator_address ;;
  RemoveAccount (getValidatorDelegatorsList validator_address) delegator_address ;;
  mret tt.
Definition GetDelegatorValidatorsAddresses (delegator_address : address) (batch count : Z)
  : M St (list address * bool) :=
  GetAccounts (getDelegatorValidatorsList delegator_address) batch count.
Definition GetValidatorDelegators (validator_address : address) (batch count : Z)
  : M St (list address * bool) :=
  GetAccounts (getValidatorDelegatorsList validator_address) batch count.
Definition GetAllDelegatorValidatorsAddresses (delegator_address : address)
  : M St (list address) :=
  GetAllAccounts (getDelegatorValidatorsList delegator_address).
End operations.

Section refine.
Context `{Keccak} {St : Type} `{!KVStore St}.
Abbreviation view := (kv_view (St := St)).

Lemma DelegationExists_sim d v : sim view (DelegationExists d v) (DelegationExists d v).
Proof. apply AccountExists_sim. Qed.
Lemma GetDelegationsCount_sim d : sim view (GetDelegationsCount d) (GetDelegationsCount d).
Proof. apply GetCount_sim. Qed.
Lemma GetDelegation_sim d v : sim view (GetDelegation d v) (GetDelegation d v).
Proof. apply load_sim. Qed.
Lemma ModifyDelegation_sim d v x : sim view (ModifyDelegation d v x) (ModifyDelegation d v x).
Proof. unfold ModifyDelegation. sim_solve. Qed.
Lemma CreateDelegation_sim d v b s :
  sim view (CreateDelegation d v b s) (CreateDelegation d v b s).
Proof. unfold CreateDelegation. sim_solve. Qed.
Lemma RemoveDelegation_sim d v : sim view (RemoveDelegation d v) (RemoveDelegation d v).
Proof. unfold RemoveDelegation. sim_solve. Qed.
Lemma GetDelegatorValidatorsAddresses_sim d b c :
  sim view (GetDelegatorValidatorsAddresses d b c) (GetDelegatorValidatorsAddresses d b c).
Proof. apply GetAccounts_sim. Qed.
Lemma GetValidatorDelegators_sim d b c :
  sim view (GetValidatorDelegators d b c) (GetValidatorDelegators d b c).
Proof. apply GetAccounts_sim. Qed.
Lemma GetAllDelegatorValidatorsAddresses_sim d :
  sim view (GetAllDelegatorValidatorsAddresses d) (GetAllDelegatorValidatorsAddresses d).
Proof. apply GetAllAccounts_sim. Qed.
End refine.
#[export] Hint Resolve DelegationExists_sim GetDelegationsCount_sim GetDelegation_sim
  ModifyDelegation_sim CreateDelegation_sim RemoveDelegation_sim
  GetDelegatorValidatorsAddresses_sim GetValidatorDelegators_sim
  GetAllDelegatorValidatorsAddresses_sim : sim.

(** * The delegations as a finite map *)
Definition pair_ok (p : address * address) : Prop := is_address p.1 ∧ is_address p.2.

(** [fwd] and [rev] are the contents of the two indexes. *)
Record delegations_rep `{Keccak} (D : gmap (address * address) Delegation)
    (fwd rev : address → list address) (m : gmap bytes bytes) : Prop := {
  dr_slot del val : is_address del → is_address val →
    slot m (genDelegationKey del val) (D !! (del, val));
  dr_dom p : is_Some (D !! p) → pair_ok p;
  dr_fwd del : is_address del → imap_rep (getDelegatorValidatorsList del) (fwd del) m;
  dr_rev val : is_address val → imap_rep (getValidatorDelegatorsList val) (rev val) m;
  dr_fwd_dom del val : is_address del → val ∈ fwd del ↔ is_Some (D !! (del, val));
  dr_rev_dom del val : is_address val → del ∈ rev val ↔ is_Some (D !! (del, val))
}.
(** The storage the delegations own. *)
Definition delegations_own `{Keccak} (k : bytes) : Prop :=
  (∃ del val, is_address del ∧ is_address val ∧ k = genDelegationKey del val) ∨
  (∃ a, is_address a ∧ (imap_owns (getDelegatorValidatorsList a) k
                        ∨ imap_owns (getValidatorDelegatorsList a) k)).

Section spec.
Context `{KeccakInj}.
Implicit Types (D : gmap (address * address) Delegation) (m : gmap bytes bytes).

Lemma GetDelegation_spec D fwd rev m del val :
  delegations_rep D fwd rev m → is_address del → is_address val →
  GetDelegation del val m = (Ret (D !! (del, val)), m).
Proof. intros Hr Hd Hv. by apply load_slot, (dr_slot _ _ _ _ Hr). Qed.

Lemma DelegationExists_spec D fwd rev m del val :
  delegations_rep D fwd rev m → is_address del → is_address val →
  DelegationExists del val m = (Ret (bool_decide (is_Some (D !! (del, val)))), m).
Proof.
  intros Hr Hd Hv. unfold DelegationExists.
  etrans; [by eapply dm_AccountExists; [apply (dr_fwd _ _ _ _ Hr)|]|].
  f_equal. f_equal. apply bool_decide_ext, (dr_fwd_dom _ _ _ _ Hr). done.
Qed.

(** Storage the delegations do not own may change. *)
Lemma delegations_rep_frame D fwd rev m m' :
  (∀ k, delegations_own k → get m' k = get m k) →
  delegations_rep D fwd rev m → delegations_rep D fwd rev m'.
Proof.
  intros Hf [Hs Hp Hfw Hrv Hfd Hrd]. split; try done.
  - intros del val Hd Hv. eapply slot_frame; [|by apply Hs]. apply Hf. left. eauto.
  - intros del Hd. eapply imap_rep_frame; [|by apply Hfw]. intros k Hk. apply Hf. right.
    exists del. auto.
  - intros val Hv. eapply imap_rep_frame; [|by apply Hrv]. intros k Hk. apply Hf. right.
    exists val. auto.
Qed.

Lemma CreateDelegation_spec D fwd rev m del val d :
  delegations_rep D fwd rev m → pair_ok (del, val) → rlp_wf d → D !! (del, val) = None →
  Z.of_nat (length (fwd del)) + 1 < 2 ^ 32 → Z.of_nat (length (rev val)) + 1 < 2 ^ 32 →
  ∃ m', CreateDelegation del val (Delegation_LastUpdated d) (Stake d) m = (Ret tt, m')
    ∧ delegations_rep (<[(del, val) := d]> D) (set_at fwd del (fwd del ++ [val]))
        (set_at rev val (rev val ++ [del])) m'
    ∧ ∀ k, ¬ delegations_own k → get m' k = get m k.
Proof.
  intros Hr [Hd Hv] Hwf HN Lf Lr. simpl in Hd, Hv. destruct d as [stake block].
  destruct Hr as [Hs Hp Hfw Hrv Hfd Hrd]. unfold CreateDelegation. simpl.
  set (m1 := view_put (genDelegationKey del val) (enc {| Stake := stake; Delegation_LastUpdated := block |}) m).
  erewrite bind_run by (by apply save_run). fold m1.
  destruct (dm_CreateAccount (MDelegatorValidators del) (fwd del) m1 val)
    as (m2 & E2 & R2 & F2);
    [by apply imap_rep_put_key, Hfw|done|rewrite Hfd, HN by done; by intros [??]|done|].
  erewrite bind_run by exact E2.
  destruct (dm_CreateAccount (MValidatorDelegators val) (rev val) m2 del)
    as (m3 & E3 & R3 & F3); [|done|rewrite Hrd, HN by done; by intros [??]|done|].
  { eapply (imap_rep_other (MDelegatorValidators del)); [done..|]. by apply imap_rep_put_key, Hrv. }
  erewrite bind_run by exact E3. exists m3. split; [done|]. split; [split|].
  - intros del' val' Hd' Hv'.
    apply (slot_imap (MValidatorDelegators val) (KDelegation del' val') m2); [done|].
    apply (slot_imap (MDelegatorValidators del) (KDelegation del' val') m1); [done|].
    destruct (decide ((del', val') = (del, val))) as [E|N].
    + injection E as -> ->. rewrite lookup_insert_eq. by apply slot_put_eq.
    + rewrite lookup_insert_ne by congruence.
      apply slot_put_key; [done|done|congruence|]. by apply Hs.
  - intros p. rewrite lookup_insert_is_Some. intros [<-|[_ ?]]; [done|auto].
  - intros del' Hd'. apply (imap_rep_other (MValidatorDelegators val) _ _ m2); [done..|].
    destruct (decide (del' = del)) as [->|N]; [by rewrite set_at_eq|rewrite set_at_ne by done].
    eapply (imap_rep_other (MDelegatorValidators del)); [done|done|congruence|done|].
    by apply imap_rep_put_key, Hfw.
  - intros val' Hv'.
    destruct (decide (val' = val)) as [->|N]; [by rewrite set_at_eq|rewrite set_at_ne by done].
    eapply (imap_rep_other (MValidatorDelegators val)); [done|done|congruence|done|].
    eapply (imap_rep_other (MDelegatorValidators del)); [done..|].
    by apply imap_rep_put_key, Hrv.
  - intros del' val' Hd'. rewrite lookup_insert_is_Some'.
    destruct (decide (del' = del)) as [->|N].
    + rewrite set_at_eq, elem_of_app, list_elem_of_singleton, Hfd by done.
      split; [intros [|]; [by right|left; congruence]|intros [|]; [right; congruence|by left]].
    + rewrite set_at_ne, Hfd by done. split; [by right|intros [|]; [congruence|done]].
  - intros del' val' Hv'. rewrite lookup_insert_is_Some'.
    destruct (decide (val' = val)) as [->|N].
    + rewrite set_at_eq, elem_of_app, list_elem_of_singleton, Hrd by done.
      split; [intros [|]; [by right|left; congruence]|intros [|]; [right; congruence|by left]].
    + rewrite set_at_ne, Hrd by done. split; [by right|intros [|]; [congruence|done]].
  - intros k Hk. rewrite F3, F2; [apply get_put_ne|..]; try intros X; subst; apply Hk;
      unfold delegations_own; eauto 6.
Qed.

Lemma RemoveDelegation_spec D fwd rev m del val :
  delegations_rep D fwd rev m → pair_ok (del, val) → is_Some (D !! (del, val)) →
  ∃ m' i j, RemoveDelegation del val m = (Ret tt, m')
    ∧ fwd del !! i = Some val ∧ rev val !! j = Some del
    ∧ delegations_rep (delete (del, val) D) (set_at fwd del (swap_remove i (fwd del)))
        (set_at rev val (swap_remove j (rev val))) m'
    ∧ ∀ k, ¬ delegations_own k → get m' k = get m k.
Proof.
  intros Hr [Hd Hv] HS. simpl in Hd, Hv. destruct Hr as [Hs Hp Hfw Hrv Hfd Hrd].
  destruct (proj1 (list_elem_of_lookup _ _) (proj2 (Hfd _ _ Hd) HS)) as [i Hi].
  destruct (proj1 (list_elem_of_lookup _ _) (proj2 (Hrd _ _ Hv) HS)) as [j Hj].
  unfold RemoveDelegation. erewrite bind_run by apply map_put_run.
  set (m1 := view_put (genDelegationKey del val) [] m).
  destruct (dm_RemoveAccount (MDelegatorValidators del) (fwd del) m1 i val)
    as (m2 & E2 & R2 & F2); [by apply imap_rep_put_key, Hfw|done|].
  erewrite bind_run by exact E2.
  destruct (dm_RemoveAccount (MValidatorDelegators val) (rev val) m2 j del)
    as (m3 & E3 & R3 & F3); [|done|].
  { eapply (imap_rep_other (MDelegatorValidators del)); [done..|]. by apply imap_rep_put_key, Hrv. }
  erewrite bind_run by exact E3. exists m3, i, j. split_and!; [done..| |]; [split|].
  - intros del' val' Hd' Hv'.
    apply (slot_imap (MValidatorDelegators val) (KDelegation del' val') m2); [done|].
    apply (slot_imap (MDelegatorValidators del) (KDelegation del' val') m1); [done|].
    destruct (decide ((del', val') = (del, val))) as [E|N].
    + injection E as -> ->. rewrite lookup_delete_eq. by apply slot_del_eq.
    + rewrite lookup_delete_ne by congruence.
      apply slot_put_key; [done|done|congruence|]. by apply Hs.
  - intros p. rewrite lookup_delete_is_Some. intros [_ ?]. auto.
  - intros del' Hd'. apply (imap_rep_other (MValidatorDelegators val) _ _ m2); [done..|].
    destruct (decide (del' = del)) as [->|N]; [by rewrite set_at_eq|rewrite set_at_ne by done].
    eapply (imap_rep_other (MDelegatorValidators del)); [done|done|congruence|done|].
    by apply imap_rep_put_key, Hfw.
  - intros val' Hv'.
    destruct (decide (val' = val)) as [->|N]; [by rewrite set_at_eq|rewrite set_at_ne by done].
    eapply (imap_rep_other (MValidatorDelegators val)); [done|done|congruence|done|].
    eapply (imap_rep_other (MDelegatorValidators del)); [done..|].
    by apply imap_rep_put_key, Hrv.
  - intros del' val' Hd'. rewrite lookup_delete_is_Some.
    destruct (decide (del' = del)) as [->|N].
    + rewrite set_at_eq, (swap_remove_elem i (fwd del) val), Hfd; [|done..|apply (Hfw _ Hd)].
      split; intros [? ?]; split; congruence.
    + rewrite set_at_ne, Hfd by done. split; [intros; split; congruence|by intros []].
  - intros del' val' Hv'. rewrite lookup_delete_is_Some.
    destruct (decide (val' = val)) as [->|N].
    + rewrite set_at_eq, (swap_remove_elem j (rev val) del), Hrd; [|done..|apply (Hrv _ Hv)].
      split; intros [? ?]; split; congruence.
    + rewrite set_at_ne, Hrd by done. split; [intros; split; congruence|by intros []].
  - intros k Hk. rewrite F3, F2; [apply get_put_ne|..]; try intros X; subst; apply Hk;
      unfold delegations_own; eauto 6.
Qed.

Lemma ModifyDelegation_spec D fwd rev m del val d :
  delegations_rep D fwd rev m → pair_ok (del, val) → rlp_wf d →
  if decide (is_Some (D !! (del, val))) then
    ∃ m', ModifyDelegation del val d m = (Ret tt, m')
      ∧ delegations_rep (<[(del, val) := d]> D) fwd rev m'
      ∧ ∀ k, ¬ delegations_own k → get m' k = get m k
  else ModifyDelegation del val d m = (Panic "ModifyDelegation: non existent delegation", m).
Proof.
  intros Hr [Hd Hv] Hwf. simpl in Hd, Hv. unfold ModifyDelegation.
  pose proof (DelegationExists_spec _ _ _ _ del val Hr Hd Hv) as E.
  unfold DelegationExists in E. case_decide as C; [rewrite bool_decide_true in E by done|
    rewrite bool_decide_false in E by done; erewrite bind_run by exact E; done].
  erewrite bind_run by exact E. erewrite bind_run by done.
  rewrite save_run by done. eexists. split; [done|]. split.
  - destruct Hr as [Hs Hp Hfw Hrv Hfd Hrd]. split.
    + intros del' val' Hd' Hv'. destruct (decide ((del', val') = (del, val))) as [X|N].
      * injection X as -> ->. rewrite lookup_insert_eq. by apply slot_put_eq.
      * rewrite lookup_insert_ne by congruence.
        apply slot_put_key; [done|done|congruence|]. by apply Hs.
    + intros p. rewrite lookup_insert_is_Some. intros [<-|[_ ?]]; [done|auto].
    + intros. by apply imap_rep_put_key, Hfw.
    + intros. by apply imap_rep_put_key, Hrv.
    + intros del' val' Hd'. rewrite Hfd, lookup_insert_is_Some' by done.
      split; [by right|intros [|]; [congruence|done]].
    + intros del' val' Hv'. rewrite Hrd, lookup_insert_is_Some' by done.
      split; [by right|intros [|]; [congruence|done]].
  - intros k Hk. apply get_put_ne. intros <-. apply Hk. left. eauto.
Qed.
End spec.

(** * Refinement *)
Inductive delegation_op : Type :=
| DlGet (del val : address)
| DlExists (del val : address)
| DlCreate (del val : address) (block stake : Z)
| DlModify (del val : address) (d : Delegation)
| DlRemove (del val : address).
Inductive delegation_res : Type :=
| DlOption (d : option Delegation)
| DlBool (b : bool)
| DlUnit.

Definition delegation_exec `{Keccak} {St} `{!KVStore St} (o : delegation_op)
  : M St delegation_res :=
  match o with
  | DlGet del val => d ← GetDelegation del val; mret (DlOption d)
  | DlExists del val => b ← DelegationExists del val; mret (DlBool b)
  | DlCreate del val block stake => CreateDelegation del val block stake ;; mret DlUnit
  | DlModify del val d => ModifyDelegation del val d ;; mret DlUnit
  | DlRemove del val => RemoveDelegation del val ;; mret DlUnit
  end.
(** What the operations promise: a finite map from pairs of addresses to delegations. *)
Definition delegation_spec (o : delegation_op)
  : M (gmap (address * address) Delegation) delegation_res := λ D,
  match o with
  | DlGet del val => (Ret (DlOption (D !! (del, val))), D)
  | DlExists del val => (Ret (DlBool (bool_decide (is_Some (D !! (del, val))))), D)
  | DlCreate del val block stake =>
      (Ret DlUnit, <[(del, val) := {| Stake := stake; Delegation_LastUpdated := block |}]> D)
  | DlModify del val d =>
      if decide (is_Some (D !! (del, val))) then (Ret DlUnit, <[(del, val) := d]> D)
      else (Panic "ModifyDelegation: non existent delegation", D)
  | DlRemove del val => (Ret DlUnit, delete (del, val) D)
  end.
(** The callers create a delegation that is absent and remove one that is present. *)
Definition delegation_pre (o : delegation_op) (D : gmap (address * address) Delegation) : Prop :=
  match o with
  | DlGet del val | DlExists del val => pair_ok (del, val)
  | DlCreate del val block stake =>
      pair_ok (del, val) ∧ rlp_wf {| Stake := stake; Delegation_LastUpdated := block |} ∧
      D !! (del, val) = None ∧ Z.of_nat (size D) + 1 < 2 ^ 32
  | DlModify del val d => pair_ok (del, val) ∧ rlp_wf d
  | DlRemove del val => pair_ok (del, val) ∧ is_Some (D !! (del, val))
  end.
Definition delegations_inv `{Keccak} (D : gmap (address * address) Delegation)
    (m : gmap bytes bytes) : Prop := ∃ fwd rev, delegations_rep D fwd rev m.

Section refinement.
Context `{KeccakInj}.

Lemma delegation_exec_sim {St} `{!KVStore St} o :
  sim (kv_view (St := St)) (delegation_exec o) (delegation_exec o).
Proof. unfold delegation_exec. sim_solve. Qed.

Lemma delegation_exec_map o D m :
  delegations_inv D m → delegation_pre o D →
  ∃ m', delegation_exec o m = ((delegation_spec o D).1, m')
    ∧ delegations_inv (delegation_spec o D).2 m'
    ∧ ∀ k, ¬ delegations_own k → get m' k = get m k.
Proof.
  intros (fwd & rev & Hr) Hp. assert (delegations_inv D m) as Hinv by (by exists fwd, rev).
  destruct o as [del val|del val|del val block stake|del val d|del val]; simpl in *.
  - exists m. by erewrite bind_run by (eapply GetDelegation_spec; [exact Hr|apply Hp..]).
  - exists m. by erewrite bind_run by (eapply DelegationExists_spec; [exact Hr|apply Hp..]).
  - destruct Hp as (Hok & Hwf & HN & Hsz).
    destruct (CreateDelegation_spec D fwd rev m del val
      {| Stake := stake; Delegation_LastUpdated := block |}) as (m' & E & Hr' & Hf); [done..| | |].
    + enough (length (fwd del) <= size D)%nat by lia.
      apply (index_size D _ (λ v, (del, v))); [apply (dr_fwd _ _ _ _ Hr), Hok| |].
      * intros ?? [=]. done.
      * intros a Ha. by apply (dr_fwd_dom _ _ _ _ Hr), Ha; apply Hok.
    + enough (length (rev val) <= size D)%nat by lia.
      apply (index_size D _ (λ v, (v, val))); [apply (dr_rev _ _ _ _ Hr), Hok| |].
      * intros ?? [=]. done.
      * intros a Ha. by apply (dr_rev_dom _ _ _ _ Hr), Ha; apply Hok.
    + exists m'. erewrite bind_run by exact E. split_and!; [done| |done]. by do 2 eexists.
  - destruct Hp as [Hok Hwf]. pose proof (ModifyDelegation_spec D fwd rev m del val d Hr Hok Hwf) as S.
    case_decide.
    + destruct S as (m' & E & Hr' & Hf). exists m'. erewrite bind_run by exact E.
      split_and!; [done| |done]. by do 2 eexists.
    + exists m. by erewrite bind_run_panic by exact S.
  - destruct Hp as [Hok HS].
    destruct (RemoveDelegation_spec D fwd rev m del val Hr Hok HS) as (m' & i & j & E & _ & _ & Hr' & Hf).
    exists m'. erewrite bind_run by exact E. split_and!; [done| |done]. by do 2 eexists.
Qed.

Lemma delegations_inv_empty m :
  (∀ k, delegations_own k → get m k = []) → delegations_inv ∅ m.
Proof.
  intros Hm. exists (λ _, []), (λ _, []). split.
  - intros del val Hd Hv. apply Hm. left. eauto.
  - intros p. rewrite lookup_empty. by intros [].
  - intros del Hd. apply imap_rep_empty. intros k Hk. apply Hm. right. eauto.
  - intros val Hv. apply imap_rep_empty. intros k Hk. apply Hm. right. eauto.
  - intros del val _. rewrite lookup_empty. split; [by intros ?%elem_of_nil|by intros []].
  - intros del val _. rewrite lookup_empty. split; [by intros ?%elem_of_nil|by intros []].
Qed.

(** On any store, the delegation operations implement a finite
    map from (delegator, validator) to delegations: creating, modifying, reading and removing
    are insertion, update, lookup and deletion, the forward and the reverse index stay in
    step with it, and no storage slot of another part of the contract changes. *)
Theorem delegations_refine_map {St} `{!KVStore St} o D (s : St) :
  delegations_inv D (kv_view s) → delegation_pre o D →
  ∃ s', delegation_exec o s = ((delegation_spec o D).1, s')
    ∧ delegations_inv (delegation_spec o D).2 (kv_view s')
    ∧ ∀ k, ¬ delegations_own k → get (kv_view s') k = get (kv_view s) k.
Proof.
  intros Hr Hp. destruct (delegation_exec_map o D (kv_view s) Hr Hp) as (m' & E & Hr' & Hf).
  destruct (sim_run _ _ _ s _ _ (delegation_exec_sim o) E) as (s' & E' & <-). by exists s'.
Qed.

(** The forward index of a delegator lists, without
    repetition, exactly the validators it has a delegation with, and the pages of the reverse
    index of a validator are the slices of one list without repetition of exactly the
    delegators that have a delegation with it; this is what a forced eviction walks. *)
Theorem delegation_indexes_enumerate {St} `{!KVStore St} D (s : St) del val batch count :
  delegations_inv D (kv_view s) → pair_ok (del, val) → 0 <= batch → 0 <= count →
  batch * count + count < 2 ^ 32 →
  (∃ s' vs, GetAllDelegatorValidatorsAddresses del s = (Ret vs, s') ∧ kv_view s' = kv_view s
     ∧ NoDup vs ∧ ∀ v, v ∈ vs ↔ is_Some (D !! (del, v))) ∧
  (∃ s' ds, GetValidatorDelegators val batch count s =
       (Ret (take (Z.to_nat count) (drop (Z.to_nat (batch * count)) ds),
             bool_decide (Z.of_nat (length ds) <= batch * count + count)), s')
     ∧ kv_view s' = kv_view s ∧ NoDup ds ∧ ∀ d, d ∈ ds ↔ is_Some (D !! (d, val))).
Proof.
  intros (fwd & rev & Hr) [Hd Hv] Hb Hc Hbc. simpl in Hd, Hv.
  assert (∀ l f, (∀ a, a ∈ l → is_Some (D !! f a)) →
    (∀ p, is_Some (D !! f p) → is_address p) → Forall is_address l) as Haddr.
  { intros l f Hl Hf. apply Forall_forall. auto. }
  assert (∀ p, is_Some (D !! p) → pair_ok p) as Hdom by apply (dr_dom _ _ _ _ Hr). split.
  - assert (GetAllDelegatorValidatorsAddresses del (kv_view s) = (Ret (fwd del), kv_view s)) as E.
    { apply (dm_GetAllAccounts (MDelegatorValidators del)); [by apply (dr_fwd _ _ _ _ Hr)|].
      apply (Haddr _ (λ v, (del, v))).
      - intros a Ha. by apply (dr_fwd_dom _ _ _ _ Hr).
      - intros p Hp. by apply Hdom in Hp as [_ ?]. }
    destruct (sim_run _ _ _ s _ _ (GetAllDelegatorValidatorsAddresses_sim del) E) as (s' & E' & HS).
    exists s', (fwd del). split_and!; [done|done| |].
    + apply (dr_fwd _ _ _ _ Hr _ Hd).
    + intros v. by apply (dr_fwd_dom _ _ _ _ Hr).
  - pose proof (dm_GetAccounts (MValidatorDelegators val) (rev val) (kv_view s) batch count
      (dr_rev _ _ _ _ Hr _ Hv)) as E.
    destruct (sim_run _ _ _ s _ _ (GetValidatorDelegators_sim val batch count) (E
      ltac:(apply (Haddr _ (λ v, (v, val)));
        [intros a Ha; by apply (dr_rev_dom _ _ _ _ Hr)
        |intros p Hp; by apply Hdom in Hp as [? _] ]) Hb Hc Hbc)) as (s' & E' & HS).
    exists s', (rev val). split_and!; [done|done| |].
    + apply (dr_rev _ _ _ _ Hr _ Hv).
    + intros v. by apply (dr_rev_dom _ _ _ _ Hr).
Qed.
End refinement.

Section example.
#[local] Existing Instances id_keccak id_keccak_inj.
Lemma delegations_refine_map_witness :
∃ s', delegation_exec (DlCreate (replicate 20 1) (replicate 20 2) 7 500) (∅ : gmap bytes bytes) =
    (Ret DlUnit, s')
  ∧ delegations_inv {[ (replicate 20 1, replicate 20 2) :=
      {| Stake := 500; Delegation_LastUpdated := 7 |} ]} s'.
Proof.
destruct (delegations_refine_map (DlCreate (replicate 20 1) (replicate 20 2) 7 500) ∅
  (∅ : gmap bytes bytes)) as (s' & E & Hr & _).
- by apply delegations_inv_empty.
- split_and!; [by split| |done|done]. by repeat split; vm_compute.
- exists s'. split; [exact E|]. exact Hr.
Defined.
Lemma delegation_indexes_enumerate_witness :
∃ s' ds, GetValidatorDelegators (replicate 20 2) 0 100 (∅ : gmap bytes bytes) =
    (Ret (take 100 ds, bool_decide (Z.of_nat (length ds) <= 100)), s')
  ∧ kv_view s' = ∅ ∧ NoDup ds.
Proof.
destruct (delegation_indexes_enumerate ∅ (∅ : gmap bytes bytes) (replicate 20 1) (replicate 20 2)
  0 100) as [_ (s' & ds & E & Hs & Hn & _)]; [by apply delegations_inv_empty|by split|lia..|].
exists s', ds. split_and!; [exact E|exact Hs|exact Hn].
Defined.
End example.
