(* ===== verification/Undelegations.v ===== *)
(** [undelegations.go]: the pending undelegations of the DPoS contract.  A delegator's
    undelegations carry identifiers that are unique per delegator; they are indexed by the
    validators undelegated from and, per validator, by the identifiers. *)
From S2P Require Import Prelude Codec Rlp Storage IterableMap DposData.

Section operations.
Context `{Keccak} {St : Type} `{!KVStore St}.

Definition genUndelegationKey (delegator_address validator_address : address)
    (undelegation_id : Z) : bytes :=
  dk (KUndelegation delegator_address validator_address undelegation_id).
(** [GetUndelegationsMaps]: the cache of maps it consults is always empty. *)
Definition validators_map (delegator_address : address) : IterableMap :=
  dm (MUndelegationValidators delegator_address).
Definition ids_map (delegator_address validator_address : address) : IterableMap :=
  dm (MUndelegationIds delegator_address validator_address).

Definition UndelegationExists (delegator_address validator_address : address)
    (undelegation_id : Z) : M St bool :=
  IdExists (ids_map delegator_address validator_address) undelegation_id.
Definition GetUndelegation (delegator_address validator_address : address)
    (undelegation_id : Z) : M St (option Undelegation) :=
  load (genUndelegationKey delegator_address validator_address undelegation_id).
Definition GetUndelegationsCount (delegator_address : address) : M St Z :=
  validators ← GetAllAccounts (validators_map delegator_address);
  fold_m (λ count v,
    n ← GetCount (ids_map delegator_address v); mret (u32 (count + n))) 0 validators.
Definition genUniqueId (delegator_address : address) : M St Z :=
  b ← kv_get (dk (KLastUniqueId delegator_address));
  unique_id ← of_outcome (match b with [] => Ret 0 | _ => BytesToUint64 b end);
  let unique_id := u64 (unique_id + 1) in
  kv_put (dk (KLastUniqueId delegator_address)) (Uint64ToBytes unique_id) ;;
  mret unique_id.
Definition CreateUndelegation (delegator_address validator_address : address)
    (block amount : Z) : M St Z :=
  id ← genUniqueId delegator_address;
  save (genUndelegationKey delegator_address validator_address id)
    {| Amount := amount; Block := block; Id := id |} ;;
  n ← CreateId (ids_map delegator_address validator_address) id;
  when (n =? 1)
    (CreateAccount (validators_map delegator_address) validator_address ;; mret tt) ;;
  mret id.
Definition RemoveUndelegation (delegator_address validator_address : address)
    (undelegation_id : Z) : M St unit :=
  kv_put (genUndelegationKey delegator_address validator_address undelegation_id) [] ;;
  n ← RemoveId (ids_map delegator_address validator_address) undelegation_id;
  when (n =? 0)
    (RemoveAccount (validators_map delegator_address) validator_address ;; mret tt).
Definition GetUndelegationsValidator (delegator_address : address) (validator_idx : Z)
  : M St (option address * bool) :=
  r ← GetAccounts (validators_map delegator_address) validator_idx 1;
  mret (head r.1, r.2).
(** The identifiers a caller reads through [GetUndelegationsMaps]. *)
Definition GetUndelegationIdsCount (delegator_address validator_address : address) : M St Z :=
  GetCount (ids_map delegator_address validator_address).
Definition GetUndelegationIds (delegator_address validator_address : address)
    (start_idx count : Z) : M St (list Z * bool) :=
  GetIdsFromIdx (ids_map delegator_address validator_address) start_idx count.
End operations.

Section refine.
Context `{Keccak} {St : Type} `{!KVStore St}.
Abbreviation view := (kv_view (St := St)).

Lemma UndelegationExists_sim d v i : sim view (UndelegationExists d v i) (UndelegationExists d v i).
Proof. apply IdExists_sim. Qed.
Lemma GetUndelegation_sim d v i : sim view (GetUndelegation d v i) (GetUndelegation d v i).
Proof. apply load_sim. Qed.
Lemma GetUndelegationsCount_sim d : sim view (GetUndelegationsCount d) (GetUndelegationsCount d).
Proof. unfold GetUndelegationsCount. sim_solve. Qed.
Lemma genUniqueId_sim d : sim view (genUniqueId d) (genUniqueId d).
Proof. unfold genUniqueId. sim_solve. Qed.
#[local] Hint Resolve genUniqueId_sim : sim.
Lemma CreateUndelegation_sim d v b a :
  sim view (CreateUndelegation d v b a) (CreateUndelegation d v b a).
Proof. unfold CreateUndelegation. sim_solve. Qed.
Lemma RemoveUndelegation_sim d v i :
  sim view (RemoveUndelegation d v i) (RemoveUndelegation d v i).
Proof. unfold RemoveUndelegation. sim_solve. Qed.
Lemma GetUndelegationsValidator_sim d i :
  sim view (GetUndelegationsValidator d i) (GetUndelegationsValidator d i).
Proof. unfold GetUndelegationsValidator. sim_solve. Qed.
Lemma GetUndelegationIdsCount_sim d v :
  sim view (GetUndelegationIdsCount d v) (GetUndelegationIdsCount d v).
Proof. apply GetCount_sim. Qed.
Lemma GetUndelegationIds_sim d v i n :
  sim view (GetUndelegationIds d v i n) (GetUndelegationIds d v i n).
Proof. apply GetIdsFromIdx_sim. Qed.
End refine.
#[export] Hint Resolve UndelegationExists_sim GetUndelegation_sim GetUndelegationsCount_sim
  CreateUndelegation_sim RemoveUndelegation_sim GetUndelegationsValidator_sim GetUndelegationIdsCount_sim
  GetUndelegationIds_sim : sim.

(** * The undelegations as a finite map *)
Abbreviation ukey := (address * address * Z)%type.
Definition ukey_ok (k : ukey) : Prop := is_address k.1.1 ∧ is_address k.1.2 ∧ is_u64 k.2.
(** The abstract state: the undelegations and the last identifier given to each delegator. *)
Record undelegations : Type := { u_map : gmap ukey Undelegation; u_last : address → Z }.

Record undelegations_rep `{Keccak} (U : undelegations) (ids : address * address → list Z)
    (vals : address → list address) (m : gmap bytes bytes) : Prop := {
  ur_slot k : ukey_ok k → slot m (genUndelegationKey k.1.1 k.1.2 k.2) (u_map U !! k);
  ur_dom k : is_Some (u_map U !! k) → ukey_ok k ∧ 1 <= k.2 <= u_last U k.1.1;
  ur_ids del val : is_address del → is_address val →
    imap_rep (ids_map del val) (Uint64ToBytes <$> ids (del, val)) m;
  ur_ids_dom del val id : is_address del → is_address val →
    id ∈ ids (del, val) ↔ is_Some (u_map U !! (del, val, id));
  ur_vals del : is_address del → imap_rep (validators_map del) (vals del) m;
  ur_vals_dom del val : is_address del →
    val ∈ vals del ↔ is_address val ∧ ids (del, val) ≠ [];
  ur_last del : is_address del → is_u64 (u_last U del) ∧
    get m (dk (KLastUniqueId del)) = (if u_last U del =? 0 then [] else Uint64ToBytes (u_last U del))
}.
Definition undelegations_own `{Keccak} (k : bytes) : Prop :=
  (∃ u, ukey_ok u ∧ k = genUndelegationKey u.1.1 u.1.2 u.2) ∨
  (∃ a, is_address a ∧ (k = dk (KLastUniqueId a) ∨ imap_owns (validators_map a) k)) ∨
  (∃ a b, is_address a ∧ is_address b ∧ imap_owns (ids_map a b) k).

Section spec.
Context `{KeccakInj}.
Implicit Types (U : undelegations) (m : gmap bytes bytes).

Lemma GetUndelegation_spec U ids vals m del val id :
  undelegations_rep U ids vals m → ukey_ok (del, val, id) →
  GetUndelegation del val id m = (Ret (u_map U !! (del, val, id)), m).
Proof. intros Hr Hk. apply load_slot, (ur_slot _ _ _ _ Hr (del, val, id) Hk). Qed.
Lemma UndelegationExists_spec U ids vals m del val id :
  undelegations_rep U ids vals m → ukey_ok (del, val, id) →
  UndelegationExists del val id m = (Ret (bool_decide (is_Some (u_map U !! (del, val, id)))), m).
Proof.
  intros Hr (Hd & Hv & Hi). simpl in *. unfold UndelegationExists.
  etrans; [eapply dm_IdExists, (ur_ids _ _ _ _ Hr); done|]. f_equal. f_equal.
  apply bool_decide_ext. rewrite <-(ur_ids_dom _ _ _ _ Hr) by done.
  rewrite list_elem_of_fmap. split; [|eauto]. intros (j & E & Hj).
  assert (j = id) as ->; [|done]. symmetry. apply Uint64ToBytes_inj; [done| |done].
  apply (ur_ids_dom _ _ _ _ Hr) in Hj; [|done..]. by apply (ur_dom _ _ _ _ Hr) in Hj as [(_ & _ & ?) _].
Qed.

(** The identifier given out is the successor of the last one. *)
Lemma genUniqueId_run U ids vals m del :
  undelegations_rep U ids vals m → is_address del → u_last U del + 1 < 2 ^ 64 →
  genUniqueId del m = (Ret (u_last U del + 1),
    view_put (dk (KLastUniqueId del)) (Uint64ToBytes (u_last U del + 1)) m).
Proof.
  intros Hr Hd Hlt. destruct (ur_last _ _ _ _ Hr del Hd) as [Hu E]. unfold genUniqueId.
  erewrite bind_run by apply map_get_run. rewrite E. unfold is_u64 in Hu.
  destruct (Z.eqb_spec (u_last U del) 0) as [Z0|Z0].
  - rewrite Z0. done.
  - pose proof (BytesToUint64_ToBytes _ Hu) as B. pose proof (Uint64ToBytes_length (u_last U del)) as L.
    destruct (Uint64ToBytes (u_last U del)) as [|x y] eqn:Ex; [done|]. rewrite <-Ex in *.
    erewrite bind_run by (by rewrite B). rewrite u64_id by (unfold is_u64; lia). done.
Qed.

Lemma ids_fresh U ids vals m del val :
  undelegations_rep U ids vals m → is_address del → is_address val → u_last U del + 1 < 2 ^ 64 →
  Uint64ToBytes (u_last U del + 1) ∉ Uint64ToBytes <$> ids (del, val).
Proof.
  intros Hr Hd Hv Hlt (j & E & Hj)%list_elem_of_fmap.
  apply (ur_ids_dom _ _ _ _ Hr) in Hj; [|done..].
  apply (ur_dom _ _ _ _ Hr) in Hj as [(_ & _ & Hj) Hj']. simpl in *.
  destruct (ur_last _ _ _ _ Hr del Hd) as [Hu _]. unfold is_u64 in *.
  apply Uint64ToBytes_inj in E; unfold is_u64; lia.
Qed.

Lemma imap_rep_ids_other del val del' val' l m m' :
  is_address del → is_address val → is_address del' → is_address val' →
  (∀ k, ¬ imap_owns (ids_map del val) k → get m' k = get m k) → (del', val') ≠ (del, val) →
  imap_rep (ids_map del' val') l m → imap_rep (ids_map del' val') l m'.
Proof.
  intros ???? Hf N. apply (imap_rep_other (MUndelegationIds del val) (MUndelegationIds del' val'));
    [done|done|congruence|done].
Qed.

(** What [CreateUndelegation] and [RemoveUndelegation] share: from the storage after the
    struct and the identifiers are written to the storage after the list of validators is. *)
Lemma undelegations_rep_step U U' ids vals l ls m m1 m2 m3 del val id :
  undelegations_rep U ids vals m → ukey_ok (del, val, id) →
  (∀ k, ukey_ok k → k ≠ (del, val, id) → u_map U' !! k = u_map U !! k) →
  (∀ a, a ≠ del → u_last U' a = u_last U a) →
  (∀ k, is_Some (u_map U' !! k) → ukey_ok k ∧ 1 <= k.2 <= u_last U' k.1.1) →
  (∀ k, k ≠ dk (KLastUniqueId del) → k ≠ genUndelegationKey del val id → get m1 k = get m k) →
  slot m1 (genUndelegationKey del val id) (u_map U' !! (del, val, id)) →
  (∀ i, i ∈ l ↔ is_Some (u_map U' !! (del, val, i))) →
  is_u64 (u_last U' del) ∧ get m1 (dk (KLastUniqueId del)) =
    (if u_last U' del =? 0 then [] else Uint64ToBytes (u_last U' del)) →
  imap_rep (ids_map del val) (Uint64ToBytes <$> l) m2 →
  (∀ k, ¬ imap_owns (ids_map del val) k → get m2 k = get m1 k) →
  imap_rep (validators_map del) ls m3 →
  (∀ k, ¬ imap_owns (validators_map del) k → get m3 k = get m2 k) →
  (∀ v, v ∈ ls ↔ is_address v ∧ set_at ids (del, val) l (del, v) ≠ []) →
  undelegations_rep U' (set_at ids (del, val) l) (set_at vals del ls) m3.
Proof.
  intros Hr (Hd & Hv & Hi) Hmap Hla Hdom Hf1 Hslot Hl Hlast R2 F2 R3 F3 Hls. simpl in *.
  destruct Hr as [Us Ud Ui Uid Uv Uvd Ul]. split.
  - intros [[a b] i] Hk. simpl.
    apply (slot_imap (MUndelegationValidators del) (KUndelegation a b i) m2); [done|].
    apply (slot_imap (MUndelegationIds del val) (KUndelegation a b i) m1); [done|].
    destruct (decide ((a, b, i) = (del, val, id))) as [E|N].
    + injection E as -> -> ->. done.
    + rewrite Hmap by done. eapply slot_frame; [|by apply (Us (a, b, i))]. apply Hf1.
      * apply dk_ne; [apply Hk|done|done].
      * apply dk_ne; [apply Hk|done|congruence].
  - done.
  - intros a b Ha Hb. apply (imap_rep_other (MUndelegationValidators del) _ _ m2); [done..|].
    destruct (decide ((a, b) = (del, val))) as [E|N].
    + injection E as -> ->. by rewrite set_at_eq.
    + rewrite set_at_ne by done. eapply (imap_rep_ids_other del val _ _ _ m1); [done..|].
      eapply imap_rep_frame; [|by apply Ui]. intros k Hk.
      apply Hf1; intros ->; by apply (dm_not_key (MUndelegationIds a b)) in Hk.
  - intros a b i Ha Hb. destruct (decide ((a, b) = (del, val))) as [E|N].
    + injection E as -> ->. by rewrite set_at_eq.
    + rewrite set_at_ne, Uid by done. destruct (decide (is_u64 i)) as [Wi|Wi].
      { rewrite Hmap; [done|by split|]. intros [= -> -> ->]. done. }
      split; [intros HS; by apply Ud in HS as [(_ & _ & ?) _]|
              intros HS; by apply Hdom in HS as [(_ & _ & ?) _] ].
  - intros a Ha. destruct (decide (a = del)) as [->|N]; [by rewrite set_at_eq|].
    rewrite set_at_ne by done.
    eapply (imap_rep_other (MUndelegationValidators del)); [done|done|congruence|done|].
    eapply (imap_rep_other (MUndelegationIds del val)); [done..|].
    eapply imap_rep_frame; [|by apply Uv]. intros k Hk.
    apply Hf1; intros ->; by apply (dm_not_key (MUndelegationValidators a)) in Hk.
  - intros a b Ha. destruct (decide (a = del)) as [->|N]; [by rewrite set_at_eq|].
    rewrite set_at_ne by done. rewrite set_at_ne by congruence. by apply Uvd.
  - intros a Ha. rewrite F3 by apply dm_not_key. rewrite F2 by apply dm_not_key.
    destruct (decide (a = del)) as [->|N]; [done|]. rewrite Hla by done.
    destruct (Ul a Ha) as [? E]. split; [done|]. rewrite <-E. apply Hf1.
    + apply dk_ne; [done|done|congruence].
    + by apply dk_ne.
Qed.

(** [if ids_map.CreateId(id) == 1 { validators_map.CreateAccount(validator) }]. *)
Lemma create_validator_entry U ids vals m m2 del val id :
  undelegations_rep U ids vals m → is_address del → is_address val →
  Z.of_nat (size (u_map U)) + 1 < 2 ^ 32 → imap_rep (validators_map del) (vals del) m2 →
  ∃ m3 ls, when (Z.of_nat (length (ids (del, val))) + 1 =? 1)
      (CreateAccount (validators_map del) val ;; mret tt) m2 = (Ret tt, m3)
    ∧ imap_rep (validators_map del) ls m3
    ∧ (∀ k, ¬ imap_owns (validators_map del) k → get m3 k = get m2 k)
    ∧ ∀ v, v ∈ ls ↔ is_address v ∧ set_at ids (del, val) (ids (del, val) ++ [id]) (del, v) ≠ [].
Proof.
  intros [Us Ud Ui Uid Uv Uvd Ul] Hd Hv Hsz Rv.
  assert (Hset : ∀ v, set_at ids (del, val) (ids (del, val) ++ [id]) (del, v) ≠ [] ↔
    v = val ∨ ids (del, v) ≠ []).
  { intros v. destruct (decide (v = val)) as [->|N].
    - rewrite set_at_eq. split; [by left|]. intros _ E. by apply app_nil in E as [_ ?].
    - rewrite set_at_ne by congruence. tauto. }
  destruct (Z.eqb_spec (Z.of_nat (length (ids (del, val))) + 1) 1) as [E|E]; simpl.
  - assert (ids (del, val) = []) as E0 by (destruct (ids (del, val)); [done|simpl in E; lia]).
    assert (Hlv : (length (vals del) <= size (u_map U))%nat).
    { apply (index_size (u_map U) _ (λ v, (del, v, default 0 (head (ids (del, v))))));
        [apply (Uv _ Hd)|intros ?? [=]; done|].
      intros v Hin. apply Uvd in Hin as [Hav Hne]; [|done].
      destruct (ids (del, v)) as [|i r] eqn:Ev; [done|]. simpl. apply Uid; [done|done|].
      rewrite Ev. by left. }
    destruct (dm_CreateAccount (MUndelegationValidators del) (vals del) m2 val) as (m3 & E3 & R3 & F3);
      [done|done| |lia|].
    { rewrite Uvd by done. by intros [_ ?]. }
    exists m3, (vals del ++ [val]). split_and!; [|done|done|].
    + by erewrite bind_run by exact E3.
    + intros v. rewrite Hset, elem_of_app, list_elem_of_singleton, Uvd by done.
      split; [intros [[]| ->]; tauto|intros [? [->|?]]; tauto].
  - exists m2, (vals del). split_and!; [done..|]. intros v. rewrite Hset, Uvd by done.
    split; [tauto|]. intros [? [->|?]]; [|done]. split; [done|]. intros E0. rewrite E0 in E. done.
Qed.

Lemma CreateUndelegation_spec U ids vals m del val block amount :
  let id := u_last U del + 1 in
  let u := {| Amount := amount; Block := block; Id := id |} in
  undelegations_rep U ids vals m → is_address del → is_address val → rlp_wf u →
  id < 2 ^ 64 → Z.of_nat (size (u_map U)) + 1 < 2 ^ 32 →
  ∃ m' ids' vals', CreateUndelegation del val block amount m = (Ret id, m')
    ∧ undelegations_rep {| u_map := <[(del, val, id) := u]> (u_map U);
                           u_last := set_at (u_last U) del id |} ids' vals' m'
    ∧ ∀ k, ¬ undelegations_own k → get m' k = get m k.
Proof.
  intros id u Hr Hd Hv Hwf Hlt Hsz. pose proof Hr as [Us Ud Ui Uid Uv Uvd Ul].
  destruct (Ul del Hd) as [Hlu Hlm]. unfold is_u64 in Hlu.
  assert (ukey_ok (del, val, id)) as Hk by (split_and!; [done|done|unfold is_u64; simpl; lia]).
  unfold CreateUndelegation. erewrite bind_run by (by eapply genUniqueId_run). fold id u.
  erewrite bind_run by (by apply save_run).
  set (m1 := view_put (genUndelegationKey del val id) (enc u)
    (view_put (dk (KLastUniqueId del)) (Uint64ToBytes id) m)).
  assert (Hlen : (length (ids (del, val)) <= size (u_map U))%nat).
  { apply (index_size (u_map U) _ (λ i, (del, val, i))); [|intros ?? [=]; done|].
    - eapply NoDup_fmap_1, (Ui del val Hd Hv).
    - intros i Hi. by apply Uid. }
  destruct (dm_CreateId (MUndelegationIds del val) (Uint64ToBytes <$> ids (del, val)) m1 id)
    as (m2 & E2 & R2 & F2).
  { apply imap_rep_put_key, imap_rep_put_key, Ui; done. }
  { by eapply ids_fresh. }
  { rewrite length_fmap. lia. }
  erewrite bind_run by exact E2. rewrite length_fmap.
  destruct (create_validator_entry U ids vals m m2 del val id) as (m3 & ls & E3 & R3 & F3 & Hls);
    [done..| |].
  { eapply (imap_rep_other (MUndelegationIds del val)); [done..|].
    by apply imap_rep_put_key, imap_rep_put_key, Uv. }
  erewrite bind_run by exact E3. exists m3, (set_at ids (del, val) (ids (del, val) ++ [id])),
    (set_at vals del ls). split; [done|]. split.
  - eapply (undelegations_rep_step U _ ids vals _ ls m m1 m2 m3 del val id); simpl; try done.
    + intros k _ N. by rewrite lookup_insert_ne by congruence.
    + intros a N. by rewrite set_at_ne.
    + intros k. rewrite lookup_insert_is_Some. intros [<-|[N HS]].
      { split; [done|]. simpl. rewrite set_at_eq. unfold id. lia. }
      apply Ud in HS as [? ?]. split; [done|]. destruct (decide (k.1.1 = del)) as [E|?].
      * rewrite E in *. rewrite set_at_eq. unfold id. lia.
      * by rewrite set_at_ne.
    + intros k N1 N2. unfold m1. by rewrite !get_put_ne.
    + rewrite lookup_insert_eq. by apply slot_put_eq.
    + intros i. rewrite elem_of_app, list_elem_of_singleton, Uid, lookup_insert_is_Some' by done.
      split; [intros [|]; [by right|left; congruence]|intros [|]; [right; congruence|by left]].
    + rewrite set_at_eq. split; [unfold is_u64, id; lia|]. unfold m1.
      rewrite get_put_ne, get_put_eq by (by apply dk_ne).
      destruct (Z.eqb_spec id 0); [unfold id in *; lia|done].
    + by rewrite fmap_app.
  - intros k Hno. rewrite F3, F2; unfold m1; [rewrite !get_put_ne; [done|..]|..];
      try intros X; subst; apply Hno; unfold undelegations_own; eauto 8.
Qed.

(** [if ids_map.RemoveId(id) == 0 { validators_map.RemoveAccount(validator) }]. *)
Lemma remove_validator_entry U ids vals m m2 del val j id :
  undelegations_rep U ids vals m → is_address del → is_address val →
  ids (del, val) !! j = Some id → imap_rep (validators_map del) (vals del) m2 →
  ∃ m3 ls, when (Z.of_nat (length (ids (del, val))) - 1 =? 0)
      (RemoveAccount (validators_map del) val ;; mret tt) m2 = (Ret tt, m3)
    ∧ imap_rep (validators_map del) ls m3
    ∧ (∀ k, ¬ imap_owns (validators_map del) k → get m3 k = get m2 k)
    ∧ ∀ v, v ∈ ls ↔ is_address v ∧
        set_at ids (del, val) (swap_remove j (ids (del, val))) (del, v) ≠ [].
Proof.
  intros [Us Ud Ui Uid Uv Uvd Ul] Hd Hv Hj Rv.
  assert (val ∈ vals del) as Hin by (apply Uvd; [done|]; split; [done|]; intros E; by rewrite E in Hj).
  pose proof (swap_remove_length j (ids (del, val))) as Hlen.
  destruct (Z.eqb_spec (Z.of_nat (length (ids (del, val))) - 1) 0) as [E|E]; simpl.
  - apply list_elem_of_lookup in Hin as [i Hi].
    destruct (dm_RemoveAccount (MUndelegationValidators del) (vals del) m2 i val)
      as (m3 & E3 & R3 & F3); [done..|].
    exists m3, (swap_remove i (vals del)). split_and!; [|done|done|].
    + by erewrite bind_run by exact E3.
    + intros v. rewrite (swap_remove_elem i (vals del) val), Uvd; [|done|done|apply (Uv _ Hd)].
      destruct (decide (v = val)) as [->|N].
      * rewrite set_at_eq. split; [by intros [_ ?]|]. intros [_ Hne]. exfalso. apply Hne.
        apply length_zero_iff_nil. lia.
      * rewrite set_at_ne by congruence. tauto.
  - exists m2, (vals del). split_and!; [done..|]. intros v. rewrite Uvd by done.
    destruct (decide (v = val)) as [->|N].
    + rewrite set_at_eq. split; intros [? _]; (split; [done|]).
      * intros E0. rewrite E0 in Hlen. apply lookup_lt_Some in Hj. simpl in Hlen. lia.
      * intros E0. by rewrite E0 in Hj.
    + by rewrite set_at_ne by congruence.
Qed.

Lemma RemoveUndelegation_spec U ids vals m del val id :
  undelegations_rep U ids vals m → ukey_ok (del, val, id) →
  is_Some (u_map U !! (del, val, id)) →
  ∃ m' ids' vals', RemoveUndelegation del val id m = (Ret tt, m')
    ∧ undelegations_rep {| u_map := delete (del, val, id) (u_map U); u_last := u_last U |}
        ids' vals' m'
    ∧ ∀ k, ¬ undelegations_own k → get m' k = get m k.
Proof.
  intros Hr Hk HS. pose proof Hr as [Us Ud Ui Uid Uv Uvd Ul]. pose proof Hk as (Hd & Hv & Hi).
  simpl in Hd, Hv, Hi. unfold RemoveUndelegation. erewrite bind_run by apply map_put_run.
  set (m1 := view_put (genUndelegationKey del val id) [] m).
  apply Uid in HS as HSi; [|done..]. apply list_elem_of_lookup in HSi as [j Hj].
  destruct (dm_RemoveId (MUndelegationIds del val) (Uint64ToBytes <$> ids (del, val)) m1 j id)
    as (m2 & E2 & R2 & F2).
  { by apply imap_rep_put_key, Ui. }
  { by rewrite list_lookup_fmap, Hj. }
  erewrite bind_run by exact E2. rewrite length_fmap.
  destruct (remove_validator_entry U ids vals m m2 del val j id) as (m3 & ls & E3 & R3 & F3 & Hls);
    [done..| |].
  { eapply (imap_rep_other (MUndelegationIds del val)); [done..|]. by apply imap_rep_put_key, Uv. }
  assert (NoDup (ids (del, val))) as Hn by (eapply NoDup_fmap_1, (Ui del val Hd Hv)).
  exists m3, (set_at ids (del, val) (swap_remove j (ids (del, val)))), (set_at vals del ls).
  split; [done|]. split.
  - eapply (undelegations_rep_step U _ ids vals _ ls m m1 m2 m3 del val id); simpl; try done.
    + intros k _ N. by rewrite lookup_delete_ne by congruence.
    + intros k. rewrite lookup_delete_is_Some. intros [_ ?]. auto.
    + intros k _ N. unfold m1. by rewrite get_put_ne.
    + rewrite lookup_delete_eq. by apply slot_del_eq.
    + intros i. rewrite (swap_remove_elem j _ id), Uid, lookup_delete_is_Some by done.
      split; intros [? ?]; split; congruence.
    + destruct (Ul del Hd) as [? E]. split; [done|]. rewrite <-E. apply get_put_ne. by apply dk_ne.
    + by rewrite <-swap_remove_fmap.
  - intros k Hno. rewrite F3, F2; unfold m1; [rewrite get_put_ne; [done|]|..];
      try intros X; subst; apply Hno; unfold undelegations_own; eauto 8.
Qed.
End spec.

(** * Refinement *)
Inductive undelegation_op : Type :=
| UdGet (del val : address) (id : Z)
| UdExists (del val : address) (id : Z)
| UdCreate (del val : address) (block amount : Z)
| UdRemove (del val : address) (id : Z).
Inductive undelegation_res : Type :=
| UdOption (u : option Undelegation)
| UdBool (b : bool)
| UdId (id : Z)
| UdUnit.
Definition undelegation_exec `{Keccak} {St} `{!KVStore St} (o : undelegation_op)
  : M St undelegation_res :=
  match o with
  | UdGet del val id => u ← GetUndelegation del val id; mret (UdOption u)
  | UdExists del val id => b ← UndelegationExists del val id; mret (UdBool b)
  | UdCreate del val block amount => id ← CreateUndelegation del val block amount; mret (UdId id)
  | UdRemove del val id => RemoveUndelegation del val id ;; mret UdUnit
  end.
(** What the operations promise: a finite map and, per delegator, a counter whose successor
    names the next undelegation. *)
Definition undelegation_spec (o : undelegation_op) : M undelegations undelegation_res := λ U,
  match o with
  | UdGet del val id => (Ret (UdOption (u_map U !! (del, val, id))), U)
  | UdExists del val id => (Ret (UdBool (bool_decide (is_Some (u_map U !! (del, val, id))))), U)
  | UdCreate del val block amount =>
      let id := u_last U del + 1 in
      (Ret (UdId id),
       {| u_map := <[(del, val, id) := {| Amount := amount; Block := block; Id := id |}]> (u_map U);
          u_last := set_at (u_last U) del id |})
  | UdRemove del val id =>
      (Ret UdUnit, {| u_map := delete (del, val, id) (u_map U); u_last := u_last U |})
  end.
Definition undelegation_pre (o : undelegation_op) (U : undelegations) : Prop :=
  match o with
  | UdGet del val id | UdExists del val id => ukey_ok (del, val, id)
  | UdCreate del val block amount =>
      is_address del ∧ is_address val ∧ is_big amount ∧ is_u64 block ∧
      u_last U del + 1 < 2 ^ 64 ∧ Z.of_nat (size (u_map U)) + 1 < 2 ^ 32
  | UdRemove del val id => ukey_ok (del, val, id) ∧ is_Some (u_map U !! (del, val, id))
  end.
Definition undelegations_inv `{Keccak} (U : undelegations) (m : gmap bytes bytes) : Prop :=
  ∃ ids vals, undelegations_rep U ids vals m.
Definition no_undelegations : undelegations := {| u_map := ∅; u_last := λ _, 0 |}.

Section refinement.
Context `{KeccakInj}.

Lemma undelegation_exec_sim {St} `{!KVStore St} o :
  sim (kv_view (St := St)) (undelegation_exec o) (undelegation_exec o).
Proof. unfold undelegation_exec. sim_solve. Qed.

Lemma undelegations_inv_empty m :
  (∀ k, undelegations_own k → get m k = []) → undelegations_inv no_undelegations m.
Proof.
  intros Hm. exists (λ _, []), (λ _, []). split; simpl.
  - intros k Hk. apply Hm. left. eauto.
  - intros k. rewrite lookup_empty. by intros [].
  - intros del val Hd Hv. apply imap_rep_empty. intros k Hk. apply Hm. right. right. eauto.
  - intros del val id _ _. rewrite lookup_empty. split; [by intros ?%elem_of_nil|by intros []].
  - intros del Hd. apply imap_rep_empty. intros k Hk. apply Hm. right. left. eauto.
  - intros del val _. split; [by intros ?%elem_of_nil|by intros []].
  - intros del Hd. split; [done|]. apply Hm. right. left. eauto.
Qed.

Lemma undelegation_exec_map o U m :
  undelegations_inv U m → undelegation_pre o U →
  ∃ m', undelegation_exec o m = ((undelegation_spec o U).1, m')
    ∧ undelegations_inv (undelegation_spec o U).2 m'
    ∧ ∀ k, ¬ undelegations_own k → get m' k = get m k.
Proof.
  intros (ids & vals & Hr) Hp. assert (undelegations_inv U m) as Hinv by (by exists ids, vals).
  destruct o as [del val id|del val id|del val block amount|del val id]; simpl in *.
  - exists m. by erewrite bind_run by (by eapply GetUndelegation_spec).
  - exists m. by erewrite bind_run by (by eapply UndelegationExists_spec).
  - destruct Hp as (Hd & Hv & Ha & Hb & Hlt & Hsz).
    destruct (ur_last _ _ _ _ Hr del Hd) as [Hu _]. unfold is_u64 in Hu.
    destruct (CreateUndelegation_spec U ids vals m del val block amount)
      as (m' & ids' & vals' & E & Hr' & Hf); [done..| |done|done|].
    + split_and!; [done|done|]. unfold is_u64. simpl. lia.
    + exists m'. erewrite bind_run by exact E. split_and!; [done| |done]. by exists ids', vals'.
  - destruct Hp as [Hk HS].
    destruct (RemoveUndelegation_spec U ids vals m del val id)
      as (m' & ids' & vals' & E & Hr' & Hf); [done..|].
    exists m'. erewrite bind_run by exact E. split_and!; [done| |done]. by exists ids', vals'.
Qed.

(** On any store, the undelegation operations implement a
    finite map from (delegator, validator, id) to undelegations with a counter per delegator:
    a new undelegation gets the successor of the delegator's last identifier (so that
    identifiers are never reused, whatever was removed, across all validators), removal
    deletes exactly one entry, the two indexes stay in step, and no storage slot of another
    part of the contract changes. *)
Theorem undelegations_refine_map {St} `{!KVStore St} o U (s : St) :
  undelegations_inv U (kv_view s) → undelegation_pre o U →
  ∃ s', undelegation_exec o s = ((undelegation_spec o U).1, s')
    ∧ undelegations_inv (undelegation_spec o U).2 (kv_view s')
    ∧ ∀ k, ¬ undelegations_own k → get (kv_view s') k = get (kv_view s) k.
Proof.
  intros Hr Hp. destruct (undelegation_exec_map o U (kv_view s) Hr Hp) as (m' & E & Hr' & Hf).
  destruct (sim_run _ _ _ s _ _ (undelegation_exec_sim o) E) as (s' & E' & <-). by exists s'.
Qed.
End refinement.

Section example.
#[local] Existing Instances id_keccak id_keccak_inj.
Lemma undelegations_refine_map_witness :
∃ s', undelegation_exec (UdCreate (replicate 20 1) (replicate 20 2) 7 500) (∅ : gmap bytes bytes) =
    (Ret (UdId 1), s').
Proof.
destruct (undelegations_refine_map (UdCreate (replicate 20 1) (replicate 20 2) 7 500)
  no_undelegations (∅ : gmap bytes bytes)) as (s' & E & _).
- by apply undelegations_inv_empty.
- repeat split; vm_compute; first [reflexivity | discriminate].
- exists s'. exact E.
Defined.
End example.
