(* ===== verification/YieldCurve.v ===== *)
(** [yield_curve.go]: the emission schedule.  The table of yields per epoch, the block reward
    computed from it with 256-bit wrapping arithmetic, and the initial total supply. *)
From S2P Require Import Prelude DposData.

Definition YieldFractionDecimalPrecision : Z := 1000000.
Definition MinYieldValue : Z := 10000.
Definition EpochLength : Z := 10000000.
Definition MaxEpoch : Z := 37.
Definition EblaYieldTable : list Z :=
  [70000; 66500; 63175; 60016; 57015; 54164; 51456; 48883; 46439; 44117; 41911; 39816; 37825;
   35933; 34137; 32430; 30808; 29268; 27805; 26414; 25094; 23839; 22647; 21514; 20439; 19417;
   18446; 17524; 16647; 15815; 15024; 14273; 13559; 12881; 12237; 11625; 11044; 10492].

Section yield_curve.
Context (cfg : ChainConfig).

(** [Init]: the maximal supply has to fit in 256 bits and the year has to have blocks. *)
Definition YieldCurve_Init : outcome Z :=
  if negb (MaxSupply cfg <? 2 ^ 256) then Panic "YieldCurve max supply overflow"
  else if negb (0 <? BlocksPerYear (DPOS cfg)) then Panic "BlocksPerYear must be > 0"
  else Ret (MaxSupply cfg).
Definition GetMaxSupply : Z := u256 (MaxSupply cfg).

Definition calculateCurrentYield (block_num : Z) : Z :=
  let epoch := block_num / EpochLength in
  if MaxEpoch <? epoch then MinYieldValue
  else default 0 (EblaYieldTable !! Z.to_nat epoch).
Definition CalculateBlockReward (current_total_delegation block_num : Z) : Z * Z :=
  let yield := calculateCurrentYield block_num in
  let block_reward := u256 (current_total_delegation * yield) in
  let blocks_per_year := u64 (BlocksPerYear (DPOS cfg)) in
  (u256_div block_reward (u256 (YieldFractionDecimalPrecision * blocks_per_year)), yield).
Definition CalculateTotalSupply (minted_tokens : Z) : outcome Z :=
  let total_supply := GenesisBalancesSum cfg + minted_tokens in
  let total_supply := total_supply + GeneratedRewards cfg in
  if negb (total_supply <? 2 ^ 256)
  then Panic "CalculateTotalSupply: Genesis balances sum overflow"
  else Ret total_supply.
End yield_curve.

(** * The schedule is the documented formula *)
(** [floor(70000 × 95^epoch / 100^epoch)], bounded below by the 1% floor. *)
Definition reference_yield (epoch : Z) : Z :=
  Z.max MinYieldValue (70000 * 95 ^ epoch / 100 ^ epoch).

Lemma table_is_formula :
  EblaYieldTable = map (λ e, 70000 * 95 ^ e / 100 ^ e) (seqZ 0 38).
Proof. vm_compute. reflexivity. Qed.
Lemma formula_below_floor e : 38 <= e → 70000 * 95 ^ e / 100 ^ e < 10000.
Proof.
  intros He. apply Z.div_lt_upper_bound; [apply Z.pow_pos_nonneg; lia|].
  replace e with (38 + (e - 38)) by lia. rewrite !Z.pow_add_r by lia.
  assert (95 ^ (e - 38) <= 100 ^ (e - 38)) by (apply Z.pow_le_mono_l; lia).
  assert (0 < 95 ^ (e - 38)) by (apply Z.pow_pos_nonneg; lia).
  assert (70000 * 95 ^ 38 < 10000 * 100 ^ 38) by (vm_compute; reflexivity).
  set (a := 95 ^ (e - 38)) in *. set (b := 100 ^ (e - 38)) in *.
  assert (0 < 100 ^ 38) by (vm_compute; reflexivity).
  set (p := 95 ^ 38) in *. set (q := 100 ^ 38) in *. clearbody a b p q.
  assert (70000 * p * a < 10000 * q * a) by (apply Z.mul_lt_mono_pos_r; lia).
  assert (10000 * q * a <= 10000 * q * b) by (apply Z.mul_le_mono_nonneg_l; lia).
  lia.
Qed.
Lemma formula_above_floor e : 0 <= e <= 37 → 10000 <= 70000 * 95 ^ e / 100 ^ e.
Proof.
  intros He. assert (Forall (λ e, 10000 <= 70000 * 95 ^ e / 100 ^ e) (seqZ 0 38)) as F.
  { apply Forall_forall. intros x Hx%elem_of_seqZ.
    assert (forallb (λ e, 10000 <=? 70000 * 95 ^ e / 100 ^ e) (seqZ 0 38) = true) as T
      by (vm_compute; reflexivity).
    rewrite forallb_forall in T. apply Z.leb_le, T, list_elem_of_In, elem_of_seqZ. lia. }
  rewrite Forall_forall in F. apply F, elem_of_seqZ. lia.
Qed.
Lemma calculateCurrentYield_reference block_num :
  0 <= block_num → calculateCurrentYield block_num = reference_yield (block_num / EpochLength).
Proof.
  intros Hb. assert (0 <= block_num / EpochLength) by (apply Z.div_pos; [done|unfold EpochLength; lia]).
  unfold calculateCurrentYield, reference_yield, MaxEpoch, MinYieldValue.
  set (e := block_num / EpochLength) in *.
  destruct (Z.ltb_spec 37 e) as [L|L].
  - pose proof (formula_below_floor e). lia.
  - assert (EblaYieldTable !! Z.to_nat e = Some (70000 * 95 ^ e / 100 ^ e)) as ->.
    { rewrite table_is_formula, list_lookup_fmap, lookup_seqZ_lt by lia.
      rewrite Z2Nat.id, Z.add_0_l by lia. done. }
    pose proof (formula_above_floor e). cbn [default from_option]. unfold id. lia.
Qed.
Lemma reference_yield_anti e1 e2 : 0 <= e1 <= e2 → reference_yield e2 <= reference_yield e1.
Proof.
  intros He. unfold reference_yield. apply Z.max_le_compat_l.
  assert (0 < 100 ^ e1) by (apply Z.pow_pos_nonneg; lia).
  assert (0 < 100 ^ (e2 - e1)) by (apply Z.pow_pos_nonneg; lia).
  assert (0 < 95 ^ e1) by (apply Z.pow_pos_nonneg; lia).
  assert (95 ^ (e2 - e1) <= 100 ^ (e2 - e1)) by (apply Z.pow_le_mono_l; lia).
  replace e2 with (e1 + (e2 - e1)) by lia. rewrite !Z.pow_add_r by lia.
  rewrite <-(Z.div_mul_cancel_r (70000 * 95 ^ e1) (100 ^ e1) (100 ^ (e2 - e1))) by lia.
  apply Z.div_le_mono; [by apply Z.mul_pos_pos|].
  assert (95 ^ e1 * 95 ^ (e2 - e1) <= 95 ^ e1 * 100 ^ (e2 - e1))
    by (apply Z.mul_le_mono_nonneg_l; lia).
  lia.
Qed.

Lemma yield_bounds b : 0 <= b → MinYieldValue <= calculateCurrentYield b <= 70000.
Proof.
  intros Hb. rewrite calculateCurrentYield_reference by done. split; [unfold reference_yield; lia|].
  assert (0 <= b / EpochLength) by (apply Z.div_pos; unfold EpochLength; lia).
  etrans; [apply (reference_yield_anti 0); lia|]. vm_compute. congruence.
Qed.

(** C38: yield_schedule_is_formula.  For every block the yield is
    floor(70000 × 95^epoch / 100^epoch) of its epoch (the table has no wrong entry), never
    below the 1% floor; it never grows from one block to a later one and never exceeds 7%. *)
Theorem yield_schedule_is_formula b1 b2 :
  0 <= b1 <= b2 →
  calculateCurrentYield b1 = reference_yield (b1 / EpochLength) ∧
  calculateCurrentYield b2 <= calculateCurrentYield b1 ∧
  MinYieldValue <= calculateCurrentYield b2 ∧ calculateCurrentYield b1 <= 70000.
Proof.
  intros Hb. pose proof (yield_bounds b1). pose proof (yield_bounds b2).
  rewrite !calculateCurrentYield_reference in * by lia.
  assert (0 <= b1 / EpochLength) by (apply Z.div_pos; unfold EpochLength; lia).
  assert (b1 / EpochLength <= b2 / EpochLength) by (apply Z.div_le_mono; unfold EpochLength; lia).
  split_and!; [done|by apply reference_yield_anti|lia|lia].
Qed.
Lemma yield_schedule_is_formula_witness :
  calculateCurrentYield 29999999 = reference_yield 2 ∧ calculateCurrentYield 29999999 = 63175.
Proof.
  split; [|vm_compute; reflexivity].
  apply (yield_schedule_is_formula 29999999 29999999). lia.
Defined.

(** For a total delegation of up to 2^200 wei the 256-bit product
    does not wrap: the block reward is the rounded-down share of the delegation that the yield
    and the number of blocks per year say, and a year of blocks of one epoch pays at most 7% of
    the delegation. *)
Theorem block_reward_exact cfg td block_num :
  0 <= td < 2 ^ 200 → 0 <= block_num → 0 < BlocksPerYear (DPOS cfg) < 2 ^ 32 →
  let '(reward, yield) := CalculateBlockReward cfg td block_num in
  yield = calculateCurrentYield block_num ∧
  reward = td * yield / (YieldFractionDecimalPrecision * BlocksPerYear (DPOS cfg)) ∧
  reward * BlocksPerYear (DPOS cfg) * 100 <= 7 * td.
Proof.
  intros Htd Hb Hy. unfold CalculateBlockReward.
  destruct (yield_bounds block_num Hb) as [Hlo Hhi].
  set (y := calculateCurrentYield block_num) in *. unfold MinYieldValue in Hlo.
  set (bpy := BlocksPerYear (DPOS cfg)) in *. unfold YieldFractionDecimalPrecision.
  rewrite (u64_id bpy) by (unfold is_u64; lia).
  rewrite (u256_id (td * y)) by (unfold is_u256; nia).
  rewrite (u256_id (1000000 * bpy)) by (unfold is_u256; lia).
  rewrite u256_div_pos by lia. split_and!; [done..|].
  pose proof (Z.mul_div_le (td * y) (1000000 * bpy)). nia.
Qed.
Definition example_dpos : DPOSConfig := {|
  EligibilityBalanceThreshold := 1000; VoteEligibilityBalanceStep := 1000;
  ValidatorMaximumStake := 100000000; MinimumDeposit := 10; MaxBlockAuthorReward := 10;
  DagProposersReward := 50; CommissionChangeDelta := 500; CommissionChangeFrequency := 5;
  DelegationDelay := 5; DelegationLockingPeriod := 10; BlocksPerYear := 1000;
  TrxMinGasPrice := 1000000000; TrxMaxGasLimit := 30000000 |}.
Definition example_cfg : ChainConfig := {|
  GenesisBalances := []; DPOS := example_dpos; InitialValidators := []; JailTime := 100;
  MaxSupply := 12000000000; GeneratedRewards := 0 |}.
Lemma block_reward_exact_witness :
  let '(reward, yield) := CalculateBlockReward example_cfg 1000000 5 in
  yield = calculateCurrentYield 5 ∧
  reward = 1000000 * yield / (YieldFractionDecimalPrecision * 1000) ∧
  reward * 1000 * 100 <= 7 * 1000000.
Proof. apply (block_reward_exact example_cfg 1000000 5); simpl; lia. Defined.
