(* ===== verification/DposStore.v ===== *)
(** The storage of the DPoS contract as an interface.  The handlers of [dpos_contract.go] use the
    storage through [validators.go], [delegations.go], [undelegations.go] and the getters and
    setters of the per-validator and chain-wide slots: [DposStore] lists these operations, so
    that a handler is one definition over any implementation.  This file has the slots, the
    interface, its implementation on contract storage, and [DposSim], what it means for one
    implementation to simulate another. *)
From S2P Require Import Prelude Codec Rlp Storage IterableMap DposData Validators Delegations.
From S2P Require Import Undelegations.

Definition BasisPointsScale : Z := 10000.

(** * The slots of [dpos_contract.go] *)
Definition u256_bytes (x : Z) : bytes := big_Bytes x.
Definition u256_of_bytes (b : bytes) : Z := u256 (be_val b).

Module Slots.
Section slots.
Context `{Keccak} {St : Type} `{!KVStore St}.

Definition decode_compact (b : bytes) : outcome Z :=
  match b with [] => Ret 0 | _ => DEC_b_endian_compact_64 b end.
Definition getVotingPowerFactor (validator : address) : M St Z :=
  b ← kv_get (dk (KVotingPowerFactor validator));
  stored ← of_outcome (decode_compact b);
  mret (if stored =? 0 then BasisPointsScale else stored - 1).
Definition setVotingPowerFactor (validator : address) (factor : Z) : M St unit :=
  kv_put (dk (KVotingPowerFactor validator)) (ENC_b_endian_compact_64_1 (u64 (factor + 1))).
Definition clearVotingPowerFactor (validator : address) : M St unit :=
  kv_put (dk (KVotingPowerFactor validator)) [].
Definition getLastActiveBlock (validator : address) : M St Z :=
  b ← kv_get (dk (KLastActiveBlock validator)); of_outcome (decode_compact b).
Definition setLastActiveBlock (validator : address) (block : Z) : M St unit :=
  kv_put (dk (KLastActiveBlock validator)) (ENC_b_endian_compact_64_1 block).
Definition clearLastActiveBlock (validator : address) : M St unit :=
  kv_put (dk (KLastActiveBlock validator)) [].
Definition getLastProcessedEpochBlock : M St Z :=
  b ← kv_get (dk KLastProcessedEpochBlock); of_outcome (decode_compact b).
Definition setLastProcessedEpochBlock (block : Z) : M St unit :=
  kv_put (dk KLastProcessedEpochBlock) (ENC_b_endian_compact_64_1 block).
Definition getEvictionCursor (validator : address) : M St (bool * Z) :=
  b ← kv_get (dk (KEvictionCursor validator));
  mret (match b with
  | [] => (false, 0)
  | b0 :: b1 :: b2 :: b3 :: _ =>
      (true, u32 (Z.lor (Z.lor (Z.lor (Z.shiftl b0 24) (Z.shiftl b1 16)) (Z.shiftl b2 8)) b3))
  | _ => (true, 0)
  end).
Definition setEvictionCursor (validator : address) (cursor : Z) : M St unit :=
  kv_put (dk (KEvictionCursor validator))
    [u8 (Z.shiftr cursor 24); u8 (Z.shiftr cursor 16); u8 (Z.shiftr cursor 8); u8 cursor].
Definition clearEvictionCursor (validator : address) : M St unit :=
  kv_put (dk (KEvictionCursor validator)) [].

Definition state_get (validator_addr : address) (block : Z) : M St (option State) :=
  load (dk (KState validator_addr block)).
Definition state_put (validator_addr : address) (block : Z) (state : option State) : M St unit :=
  match state with
  | Some state => save (dk (KState validator_addr block)) state
  | None => kv_put (dk (KState validator_addr block)) []
  end.

(** The chain-wide values; nothing is returned for an absent one. *)
Definition read_eligible_vote_count : M St (option Z) :=
  b ← kv_get (dk KEligibleVoteCount);
  match b with
  | [] => mret None
  | _ => n ← of_outcome (DEC_b_endian_compact_64 b); mret (Some n)
  end.
Definition write_eligible_vote_count (n : Z) : M St unit :=
  kv_put (dk KEligibleVoteCount) (ENC_b_endian_compact_64_1 n).
Definition read_uint256 (k : dkey) : M St (option Z) :=
  b ← kv_get (dk k);
  mret (match b with [] => None | _ => Some (u256_of_bytes b) end).
Definition write_uint256 (k : dkey) (x : Z) : M St unit := kv_put (dk k) (u256_bytes x).
Definition read_amount_delegated : M St (option Z) := read_uint256 KAmountDelegated.
Definition write_amount_delegated (x : Z) : M St unit := write_uint256 KAmountDelegated x.
Definition read_total_supply : M St (option Z) := read_uint256 KTotalSupply.
Definition saveTotalSupplyDb (x : Z) : M St unit := write_uint256 KTotalSupply x.
Definition read_minted_tokens : M St (option Z) := read_uint256 KMintedTokens.
Definition eraseMintedTokensDb : M St unit := kv_put (dk KMintedTokens) [].
Definition saveYieldDb (yield : Z) : M St unit := kv_put (dk KYield) (AppendUint yield).
Definition read_yield : M St (option Z) :=
  b ← kv_get (dk KYield);
  match b with
  | [] => mret None
  | _ => n ← of_outcome (MustDecodeBytes (Stream_uint 64) b); mret (Some n)
  end.
End slots.

Section refine.
Context `{Keccak} {St : Type} `{!KVStore St}.
Abbreviation view := (kv_view (St := St)).

Lemma getVotingPowerFactor_sim v : sim view (getVotingPowerFactor v) (getVotingPowerFactor v).
Proof. unfold getVotingPowerFactor. sim_solve. Qed.
Lemma setVotingPowerFactor_sim v f :
  sim view (setVotingPowerFactor v f) (setVotingPowerFactor v f).
Proof. apply kv_put_sim. Qed.
Lemma clearVotingPowerFactor_sim v : sim view (clearVotingPowerFactor v) (clearVotingPowerFactor v).
Proof. apply kv_put_sim. Qed.
Lemma getLastActiveBlock_sim v : sim view (getLastActiveBlock v) (getLastActiveBlock v).
Proof. unfold getLastActiveBlock. sim_solve. Qed.
Lemma setLastActiveBlock_sim v b : sim view (setLastActiveBlock v b) (setLastActiveBlock v b).
Proof. apply kv_put_sim. Qed.
Lemma clearLastActiveBlock_sim v : sim view (clearLastActiveBlock v) (clearLastActiveBlock v).
Proof. apply kv_put_sim. Qed.
Lemma getLastProcessedEpochBlock_sim : sim view getLastProcessedEpochBlock getLastProcessedEpochBlock.
Proof. unfold getLastProcessedEpochBlock. sim_solve. Qed.
Lemma setLastProcessedEpochBlock_sim b :
  sim view (setLastProcessedEpochBlock b) (setLastProcessedEpochBlock b).
Proof. apply kv_put_sim. Qed.
Lemma getEvictionCursor_sim v : sim view (getEvictionCursor v) (getEvictionCursor v).
Proof. unfold getEvictionCursor. apply sim_bind; [apply kv_get_sim|]. intros. apply sim_ret. Qed.
Lemma setEvictionCursor_sim v c : sim view (setEvictionCursor v c) (setEvictionCursor v c).
Proof. apply kv_put_sim. Qed.
Lemma clearEvictionCursor_sim v : sim view (clearEvictionCursor v) (clearEvictionCursor v).
Proof. apply kv_put_sim. Qed.
Lemma state_get_sim v b : sim view (state_get v b) (state_get v b).
Proof. apply load_sim. Qed.
Lemma state_put_sim v b s : sim view (state_put v b s) (state_put v b s).
Proof. unfold state_put. sim_solve. Qed.
Lemma read_eligible_vote_count_sim : sim view read_eligible_vote_count read_eligible_vote_count.
Proof. unfold read_eligible_vote_count. sim_solve. Qed.
Lemma read_uint256_sim k : sim view (read_uint256 k) (read_uint256 k).
Proof. unfold read_uint256. apply sim_bind; [apply kv_get_sim|]. intros. apply sim_ret. Qed.
Lemma read_yield_sim : sim view read_yield read_yield.
Proof. unfold read_yield. sim_solve. Qed.
Lemma put_sim k v : sim view (kv_put k v) (kv_put k v).
Proof. apply kv_put_sim. Qed.
End refine.
End Slots.

(** * The interface *)
Class DposStore (St : Type) := {
  (** [validators.go] *)
  GetValidatorOwner (validator : address) : M St address;
  CheckValidatorOwner (owner validator : address) : M St bool;
  GetVrfKey (validator : address) : M St bytes;
  ValidatorExists (validator : address) : M St bool;
  GetValidatorsAddresses (batch count : Z) : M St (list address * bool);
  GetValidatorsCount : M St Z;
  GetValidator (validator : address) : M St (option Validator);
  GetValidatorInfo (validator : address) : M St (option ValidatorInfo);
  GetValidatorRewards (validator : address) : M St (option ValidatorRewards);
  ModifyValidator (validator : address) (data : Validator) : M St unit;
  ModifyValidatorInfo (validator : address) (data : ValidatorInfo) : M St unit;
  ModifyValidatorRewards (validator : address) (data : ValidatorRewards) : M St unit;
  CreateValidator (owner validator : address) (vrf_key : bytes) (block commission : Z)
    (description endpoint : bytes) : M St Validator;
  DeleteValidator (validator : address) : M St unit;
  AddValidatorRewards (validator : address) (commission_reward reward : Z) : M St unit;
  (** [delegations.go] *)
  DelegationExists (delegator validator : address) : M St bool;
  GetDelegationsCount (delegator : address) : M St Z;
  GetDelegation (delegator validator : address) : M St (option Delegation);
  ModifyDelegation (delegator validator : address) (data : Delegation) : M St unit;
  CreateDelegation (delegator validator : address) (block stake : Z) : M St unit;
  RemoveDelegation (delegator validator : address) : M St unit;
  GetDelegatorValidatorsAddresses (delegator : address) (batch count : Z) : M St (list address *
    bool);
  GetValidatorDelegators (validator : address) (batch count : Z) : M St (list address * bool);
  GetAllDelegatorValidatorsAddresses (delegator : address) : M St (list address);
  (** [undelegations.go] *)
  UndelegationExists (delegator validator : address) (id : Z) : M St bool;
  GetUndelegation (delegator validator : address) (id : Z) : M St (option Undelegation);
  GetUndelegationsCount (delegator : address) : M St Z;
  CreateUndelegation (delegator validator : address) (block amount : Z) : M St Z;
  RemoveUndelegation (delegator validator : address) (id : Z) : M St unit;
  GetUndelegationsValidator (delegator : address) (validator_idx : Z) : M St (option address *
    bool);
  GetUndelegationIdsCount (delegator validator : address) : M St Z;
  GetUndelegationIds (delegator validator : address) (start_idx count : Z) : M St (list Z * bool);
  (** [dpos_contract.go] *)
  getVotingPowerFactor (validator : address) : M St Z;
  setVotingPowerFactor (validator : address) (factor : Z) : M St unit;
  clearVotingPowerFactor (validator : address) : M St unit;
  getLastActiveBlock (validator : address) : M St Z;
  setLastActiveBlock (validator : address) (block : Z) : M St unit;
  clearLastActiveBlock (validator : address) : M St unit;
  getLastProcessedEpochBlock : M St Z;
  setLastProcessedEpochBlock (block : Z) : M St unit;
  getEvictionCursor (validator : address) : M St (bool * Z);
  setEvictionCursor (validator : address) (cursor : Z) : M St unit;
  clearEvictionCursor (validator : address) : M St unit;
  state_get (validator : address) (block : Z) : M St (option State);
  state_put (validator : address) (block : Z) (state : option State) : M St unit;
  read_eligible_vote_count : M St (option Z);
  write_eligible_vote_count (n : Z) : M St unit;
  read_amount_delegated : M St (option Z);
  write_amount_delegated (x : Z) : M St unit;
  read_total_supply : M St (option Z);
  saveTotalSupplyDb (x : Z) : M St unit;
  read_minted_tokens : M St (option Z);
  eraseMintedTokensDb : M St unit;
  saveYieldDb (yield : Z) : M St unit;
  read_yield : M St (option Z)
}.

(** The implementation on contract storage. *)
#[export] Instance bytes_dpos `{Keccak} {St} `{!KVStore St} : DposStore St := {
  GetValidatorOwner := Validators.GetValidatorOwner;
  CheckValidatorOwner := Validators.CheckValidatorOwner;
  GetVrfKey := Validators.Validators_GetVrfKey;
  ValidatorExists := Validators.ValidatorExists;
  GetValidatorsAddresses := Validators.GetValidatorsAddresses;
  GetValidatorsCount := Validators.GetValidatorsCount;
  GetValidator := Validators.GetValidator;
  GetValidatorInfo := Validators.GetValidatorInfo;
  GetValidatorRewards := Validators.GetValidatorRewards;
  ModifyValidator := Validators.ModifyValidator;
  ModifyValidatorInfo := Validators.ModifyValidatorInfo;
  ModifyValidatorRewards := Validators.ModifyValidatorRewards;
  CreateValidator := Validators.CreateValidator;
  DeleteValidator := Validators.DeleteValidator;
  AddValidatorRewards := Validators.AddValidatorRewards;
  DelegationExists := Delegations.DelegationExists;
  GetDelegationsCount := Delegations.GetDelegationsCount;
  GetDelegation := Delegations.GetDelegation;
  ModifyDelegation := Delegations.ModifyDelegation;
  CreateDelegation := Delegations.CreateDelegation;
  RemoveDelegation := Delegations.RemoveDelegation;
  GetDelegatorValidatorsAddresses := Delegations.GetDelegatorValidatorsAddresses;
  GetValidatorDelegators := Delegations.GetValidatorDelegators;
  GetAllDelegatorValidatorsAddresses := Delegations.GetAllDelegatorValidatorsAddresses;
  UndelegationExists := Undelegations.UndelegationExists;
  GetUndelegation := Undelegations.GetUndelegation;
  GetUndelegationsCount := Undelegations.GetUndelegationsCount;
  CreateUndelegation := Undelegations.CreateUndelegation;
  RemoveUndelegation := Undelegations.RemoveUndelegation;
  GetUndelegationsValidator := Undelegations.GetUndelegationsValidator;
  GetUndelegationIdsCount := Undelegations.GetUndelegationIdsCount;
  GetUndelegationIds := Undelegations.GetUndelegationIds;
  getVotingPowerFactor := Slots.getVotingPowerFactor;
  setVotingPowerFactor := Slots.setVotingPowerFactor;
  clearVotingPowerFactor := Slots.clearVotingPowerFactor;
  getLastActiveBlock := Slots.getLastActiveBlock;
  setLastActiveBlock := Slots.setLastActiveBlock;
  clearLastActiveBlock := Slots.clearLastActiveBlock;
  getLastProcessedEpochBlock := Slots.getLastProcessedEpochBlock;
  setLastProcessedEpochBlock := Slots.setLastProcessedEpochBlock;
  getEvictionCursor := Slots.getEvictionCursor;
  setEvictionCursor := Slots.setEvictionCursor;
  clearEvictionCursor := Slots.clearEvictionCursor;
  state_get := Slots.state_get;
  state_put := Slots.state_put;
  read_eligible_vote_count := Slots.read_eligible_vote_count;
  write_eligible_vote_count := Slots.write_eligible_vote_count;
  read_amount_delegated := Slots.read_amount_delegated;
  write_amount_delegated := Slots.write_amount_delegated;
  read_total_supply := Slots.read_total_supply;
  saveTotalSupplyDb := Slots.saveTotalSupplyDb;
  read_minted_tokens := Slots.read_minted_tokens;
  eraseMintedTokensDb := Slots.eraseMintedTokensDb;
  saveYieldDb := Slots.saveYieldDb;
  read_yield := Slots.read_yield
}.

(** * Simulation of stores
    Every operation of the first store does what the operation of the second does on related
    states; when the second leaves the range it is defined on, nothing is claimed. *)
#[local] Abbreviation same R x := (refines R x x) (only parsing).
Class DposSim {S1 S2 : Type} `{!DposStore S1} `{!DposStore S2} (R : S1 → S2 → Prop) : Prop := {
  GetValidatorOwner_ref validator : same R (GetValidatorOwner validator);
  CheckValidatorOwner_ref owner validator : same R (CheckValidatorOwner owner validator);
  GetVrfKey_ref validator : same R (GetVrfKey validator);
  ValidatorExists_ref validator : same R (ValidatorExists validator);
  GetValidatorsAddresses_ref batch count : same R (GetValidatorsAddresses batch count);
  GetValidatorsCount_ref : same R GetValidatorsCount;
  GetValidator_ref validator : same R (GetValidator validator);
  GetValidatorInfo_ref validator : same R (GetValidatorInfo validator);
  GetValidatorRewards_ref validator : same R (GetValidatorRewards validator);
  ModifyValidator_ref validator data : same R (ModifyValidator validator data);
  ModifyValidatorInfo_ref validator data : same R (ModifyValidatorInfo validator data);
  ModifyValidatorRewards_ref validator data : same R (ModifyValidatorRewards validator data);
  CreateValidator_ref owner validator vrf_key block commission description endpoint : same R
    (CreateValidator owner validator vrf_key block commission description endpoint);
  DeleteValidator_ref validator : same R (DeleteValidator validator);
  AddValidatorRewards_ref validator commission_reward reward : same R (AddValidatorRewards
    validator commission_reward reward);
  DelegationExists_ref delegator validator : same R (DelegationExists delegator validator);
  GetDelegationsCount_ref delegator : same R (GetDelegationsCount delegator);
  GetDelegation_ref delegator validator : same R (GetDelegation delegator validator);
  ModifyDelegation_ref delegator validator data : same R (ModifyDelegation delegator validator
    data);
  CreateDelegation_ref delegator validator block stake : same R (CreateDelegation delegator
    validator block stake);
  RemoveDelegation_ref delegator validator : same R (RemoveDelegation delegator validator);
  GetDelegatorValidatorsAddresses_ref delegator batch count : same R
    (GetDelegatorValidatorsAddresses delegator batch count);
  GetValidatorDelegators_ref validator batch count : same R (GetValidatorDelegators validator
    batch count);
  GetAllDelegatorValidatorsAddresses_ref delegator : same R (GetAllDelegatorValidatorsAddresses
    delegator);
  UndelegationExists_ref delegator validator id : same R (UndelegationExists delegator validator
    id);
  GetUndelegation_ref delegator validator id : same R (GetUndelegation delegator validator id);
  GetUndelegationsCount_ref delegator : same R (GetUndelegationsCount delegator);
  CreateUndelegation_ref delegator validator block amount : same R (CreateUndelegation delegator
    validator block amount);
  RemoveUndelegation_ref delegator validator id : same R (RemoveUndelegation delegator validator
    id);
  GetUndelegationsValidator_ref delegator validator_idx : same R (GetUndelegationsValidator
    delegator validator_idx);
  GetUndelegationIdsCount_ref delegator validator : same R (GetUndelegationIdsCount delegator
    validator);
  GetUndelegationIds_ref delegator validator start_idx count : same R (GetUndelegationIds
    delegator validator start_idx count);
  getVotingPowerFactor_ref validator : same R (getVotingPowerFactor validator);
  setVotingPowerFactor_ref validator factor : same R (setVotingPowerFactor validator factor);
  clearVotingPowerFactor_ref validator : same R (clearVotingPowerFactor validator);
  getLastActiveBlock_ref validator : same R (getLastActiveBlock validator);
  setLastActiveBlock_ref validator block : same R (setLastActiveBlock validator block);
  clearLastActiveBlock_ref validator : same R (clearLastActiveBlock validator);
  getLastProcessedEpochBlock_ref : same R getLastProcessedEpochBlock;
  setLastProcessedEpochBlock_ref block : same R (setLastProcessedEpochBlock block);
  getEvictionCursor_ref validator : same R (getEvictionCursor validator);
  setEvictionCursor_ref validator cursor : same R (setEvictionCursor validator cursor);
  clearEvictionCursor_ref validator : same R (clearEvictionCursor validator);
  state_get_ref validator block : same R (state_get validator block);
  state_put_ref validator block state : same R (state_put validator block state);
  read_eligible_vote_count_ref : same R read_eligible_vote_count;
  write_eligible_vote_count_ref n : same R (write_eligible_vote_count n);
  read_amount_delegated_ref : same R read_amount_delegated;
  write_amount_delegated_ref x : same R (write_amount_delegated x);
  read_total_supply_ref : same R read_total_supply;
  saveTotalSupplyDb_ref x : same R (saveTotalSupplyDb x);
  read_minted_tokens_ref : same R read_minted_tokens;
  eraseMintedTokensDb_ref : same R eraseMintedTokensDb;
  saveYieldDb_ref yield : same R (saveYieldDb yield);
  read_yield_ref : same R read_yield
}.
#[export] Hint Resolve GetValidatorOwner_ref CheckValidatorOwner_ref GetVrfKey_ref
    ValidatorExists_ref GetValidatorsAddresses_ref GetValidatorsCount_ref GetValidator_ref
    GetValidatorInfo_ref GetValidatorRewards_ref ModifyValidator_ref ModifyValidatorInfo_ref
    ModifyValidatorRewards_ref CreateValidator_ref DeleteValidator_ref AddValidatorRewards_ref
    DelegationExists_ref GetDelegationsCount_ref GetDelegation_ref ModifyDelegation_ref
    CreateDelegation_ref RemoveDelegation_ref GetDelegatorValidatorsAddresses_ref
    GetValidatorDelegators_ref GetAllDelegatorValidatorsAddresses_ref UndelegationExists_ref
    GetUndelegation_ref GetUndelegationsCount_ref CreateUndelegation_ref RemoveUndelegation_ref
    GetUndelegationsValidator_ref GetUndelegationIdsCount_ref GetUndelegationIds_ref
    getVotingPowerFactor_ref setVotingPowerFactor_ref clearVotingPowerFactor_ref
    getLastActiveBlock_ref setLastActiveBlock_ref clearLastActiveBlock_ref
    getLastProcessedEpochBlock_ref setLastProcessedEpochBlock_ref getEvictionCursor_ref
    setEvictionCursor_ref clearEvictionCursor_ref state_get_ref state_put_ref
    read_eligible_vote_count_ref write_eligible_vote_count_ref read_amount_delegated_ref
    write_amount_delegated_ref read_total_supply_ref saveTotalSupplyDb_ref read_minted_tokens_ref
    eraseMintedTokensDb_ref saveYieldDb_ref read_yield_ref : refines.

(** ** The contract storage over a key-value store simulates the one over a plain map *)
Section bytes_sim.
Context `{Keccak} {St : Type} `{!KVStore St}.

#[export] Instance bytes_dpos_sim : DposSim (λ (s : St) (m : gmap bytes bytes), kv_view s = m).
Proof.
  split; intros; apply sim_refines.
  - apply GetValidatorOwner_sim.
  - apply CheckValidatorOwner_sim.
  - apply kv_get_sim.
  - apply ValidatorExists_sim.
  - apply GetValidatorsAddresses_sim.
  - apply GetValidatorsCount_sim.
  - apply GetValidator_sim.
  - apply GetValidatorInfo_sim.
  - apply GetValidatorRewards_sim.
  - apply ModifyValidator_sim.
  - apply ModifyValidatorInfo_sim.
  - apply ModifyValidatorRewards_sim.
  - apply CreateValidator_sim.
  - apply DeleteValidator_sim.
  - apply AddValidatorRewards_sim.
  - apply DelegationExists_sim.
  - apply GetDelegationsCount_sim.
  - apply GetDelegation_sim.
  - apply ModifyDelegation_sim.
  - apply CreateDelegation_sim.
  - apply RemoveDelegation_sim.
  - apply GetDelegatorValidatorsAddresses_sim.
  - apply GetValidatorDelegators_sim.
  - apply GetAllDelegatorValidatorsAddresses_sim.
  - apply UndelegationExists_sim.
  - apply GetUndelegation_sim.
  - apply GetUndelegationsCount_sim.
  - apply CreateUndelegation_sim.
  - apply RemoveUndelegation_sim.
  - apply GetUndelegationsValidator_sim.
  - apply GetUndelegationIdsCount_sim.
  - apply GetUndelegationIds_sim.
  - apply Slots.getVotingPowerFactor_sim.
  - apply Slots.setVotingPowerFactor_sim.
  - apply Slots.clearVotingPowerFactor_sim.
  - apply Slots.getLastActiveBlock_sim.
  - apply Slots.setLastActiveBlock_sim.
  - apply Slots.clearLastActiveBlock_sim.
  - apply Slots.getLastProcessedEpochBlock_sim.
  - apply Slots.setLastProcessedEpochBlock_sim.
  - apply Slots.getEvictionCursor_sim.
  - apply Slots.setEvictionCursor_sim.
  - apply Slots.clearEvictionCursor_sim.
  - apply Slots.state_get_sim.
  - apply Slots.state_put_sim.
  - apply Slots.read_eligible_vote_count_sim.
  - apply Slots.put_sim.
  - apply Slots.read_uint256_sim.
  - apply Slots.put_sim.
  - apply Slots.read_uint256_sim.
  - apply Slots.put_sim.
  - apply Slots.read_uint256_sim.
  - apply Slots.put_sim.
  - apply Slots.put_sim.
  - apply Slots.read_yield_sim.
Qed.
End bytes_sim.
