(* ===== verification/DposWorld.v ===== *)
(** The state a DPoS call works on and its elementary steps: the contract's storage, the
    account balances, the logs and the in-memory fields of [Contract]
    ([dpos_contract.go]), with the voting-power, reward-state and balance helpers every handler
    uses. *)
From S2P Require Import Prelude Codec Rlp Storage DposData YieldCurve DposStore.

(** [dpos_contract_address]. *)
Definition dpos_contract_address : address := replicate 19 0 ++ [0xFE].

Inductive LogRecord : Type :=
| DelegatedLog (delegator validator : address) (amount : Z)
| UndelegatedLog (delegator validator : address) (undelegation_id amount : Z)
| UndelegateConfirmedLog (delegator validator : address) (undelegation_id amount : Z)
| UndelegateCanceledLog (delegator validator : address) (undelegation_id amount : Z)
| RedelegatedLog (delegator from to : address) (amount : Z)
| RewardsClaimedLog (account validator : address) (amount : Z)
| CommissionRewardsClaimedLog (account validator : address) (amount : Z)
| CommissionSetLog (validator : address) (commission : Z)
| ValidatorRegisteredLog (validator : address)
| ValidatorInfoSetLog (validator : address)
| InactivityPenaltyLog (validator : address) (new_factor : Z)
| ValidatorEvictedLog (validator : address)
| VotingPowerRecoveredLog (validator : address).

(** The fields of [Contract] that change; [total_supply] is nil until it is known. *)
Record Fields : Type := {
  eligible_vote_count_orig : Z;
  eligible_vote_count : Z;
  amount_delegated_orig : Z;
  amount_delegated : Z;
  minted_tokens : Z;
  total_supply : option Z;
  lazy_init_done : bool
}.
Definition new_fields : Fields := {|
  eligible_vote_count_orig := 0; eligible_vote_count := 0; amount_delegated_orig := 0;
  amount_delegated := 0; minted_tokens := 0; total_supply := None; lazy_init_done := false |}.
Definition set_eligible_vote_count (n : Z) (f : Fields) : Fields := {|
  eligible_vote_count_orig := eligible_vote_count_orig f; eligible_vote_count := n;
  amount_delegated_orig := amount_delegated_orig f; amount_delegated := amount_delegated f;
  minted_tokens := minted_tokens f; total_supply := total_supply f;
  lazy_init_done := lazy_init_done f |}.
Definition set_amount_delegated (n : Z) (f : Fields) : Fields := {|
  eligible_vote_count_orig := eligible_vote_count_orig f;
  eligible_vote_count := eligible_vote_count f;
  amount_delegated_orig := amount_delegated_orig f; amount_delegated := n;
  minted_tokens := minted_tokens f; total_supply := total_supply f;
  lazy_init_done := lazy_init_done f |}.
Definition set_total_supply (n : Z) (f : Fields) : Fields := {|
  eligible_vote_count_orig := eligible_vote_count_orig f;
  eligible_vote_count := eligible_vote_count f;
  amount_delegated_orig := amount_delegated_orig f; amount_delegated := amount_delegated f;
  minted_tokens := minted_tokens f; total_supply := Some n;
  lazy_init_done := lazy_init_done f |}.

Record World (St : Type) : Type := {
  w_store : St;
  w_balances : gmap address Z;
  w_logs : list LogRecord;
  w_fields : Fields
}.
Arguments w_store {_} _.
Arguments w_balances {_} _.
Arguments w_logs {_} _.
Arguments w_fields {_} _.

(** The part of [vm.CallFrame] the contract uses.  [Account] is the account the call runs on:
    the contract's own for a plain call, another one for the delegating kinds of call. *)
Record CallFrame : Type := { CallerAccount : address; Account : address; Value : Z }.

Definition ErrInsufficientBalance : string := "Insufficient balance".
Definition ErrNonExistentValidator : string := "Validator does not exist".
Definition ErrNonExistentDelegation : string := "Delegation does not exist".
Definition ErrExistentDelegation : string := "Delegation already exist".
Definition ErrNonExistentUndelegation : string := "Undelegation does not exist".
Definition ErrLockedUndelegation : string := "Undelegation is not yet ready to be withdrawn".
Definition ErrExistentValidator : string := "Validator already exist".
Definition ErrSameValidator : string := "From and to validators are the same".
Definition ErrInvalidRedelegation : string := "Redelegation has to be more than 0".
Definition ErrBrokenState : string := "Fatal error state is broken".
Definition ErrValidatorsMaxStakeExceeded : string := "Validator's max stake exceeded".
Definition ErrInsufficientDelegation : string := "Insufficient delegation".
Definition ErrWrongProof : string := "Wrong proof, validator address could not be recovered".
Definition ErrWrongOwnerAcc : string := "This account is not owner of specified validator".
Definition ErrWrongVrfKey : string := "Wrong vrf key specified in validator arguments".
Definition ErrForbiddenCommissionChange : string := "Forbidden commission change".
Definition ErrCommissionBelowMinimum : string := "Commission is below minimum of 10%".
Definition ErrCommissionOverflow : string := "Commission is bigger than maximum value".
Definition ErrMaxEndpointLengthExceeded : string := "Max endpoint length exceeded".
Definition ErrMaxDescriptionLengthExceeded : string := "Max description length exceeded".
Definition ErrNonPayableMethod : string := "Method is not payable".

Definition InactivityEpochBlocks : Z := 10000.
Definition MaxEndpointLength : Z := 50.
Definition MaxDescriptionLength : Z := 100.
Definition MaxCommission : Z := BasisPointsScale.
Definition MinimumCommission : Z := 1000.
Definition VrfKeyLength : Z := 32.
Definition MaxEvictionsPerBlock : Z := 1000.

(** [if x == nil { return e }]. *)
Definition require {S A} (o : option A) (e : string) : M S A :=
  match o with Some a => mret a | None => throw e end.
(** [Modify(..., nil)] panics. *)
Definition non_nil {S A} (o : option A) : M S A :=
  match o with Some a => mret a | None => go_panic "Modify: data to modify cannot be nil" end.

(** * Arithmetic helpers *)
Definition add64p (a b : Z) : outcome Z :=
  let c := u64 (a + b) in
  if (c <? a) || (c <? b) then Panic "addition overflow" else Ret c.
Definition getDelta (x y : Z) : Z := if x <? y then u16 (y - x) else u16 (x - y).
Definition Max (x y : Z) : Z := if x <? y then y else x.

Section pure.
Context (cfg : ChainConfig).

Definition voteCountWithFactor (staking_balance factor : Z) : outcome Z :=
  if factor =? 0 then Ret 0
  else
    let effective_balance := staking_balance * to_int64 factor in
    let effective_balance := big_quot effective_balance BasisPointsScale in
    if EligibilityBalanceThreshold (DPOS cfg) <=? effective_balance then
      match big_div effective_balance (VoteEligibilityBalanceStep (DPOS cfg)) with
      | Ret q => Ret (u64 q)
      | o => o
      end
    else Ret 0.
Definition calculateRewardPer1Stake (rewardsPool stake : Z) : outcome Z :=
  big_div (rewardsPool * ValidatorMaximumStake (DPOS cfg)) stake.
Definition calculateDelegatorReward (rewardPer1Stake stake : Z) : outcome Z :=
  big_div (rewardPer1Stake * stake) (ValidatorMaximumStake (DPOS cfg)).
End pure.

(** * Reward states *)
Section states.
Context {St : Type} `{!DposStore St}.

Definition state_get_and_decrement (validator_addr : address) (block : Z) : M St State :=
  state ← state_get validator_addr block;
  match state with
  | None => go_panic "state_get_and_decrement - unable to fetch undelegation data"
  | Some state =>
      let state := {| RewardsPer1Stake := RewardsPer1Stake state;
                      Count := u32 (Count state - 1) |} in
      (if Count state =? 0 then state_put validator_addr block None
       else state_put validator_addr block (Some state)) ;;
      mret state
  end.
End states.

(** * Steps on the world *)
Section steps.
Context {St : Type} `{!DposStore St} (cfg : ChainConfig).
Abbreviation W := (World St).

Definition lift {A} (m : M St A) : M W A := λ w,
  let '(o, s) := m (w_store w) in
  (o, {| w_store := s; w_balances := w_balances w; w_logs := w_logs w; w_fields := w_fields w |}).
Definition get_fields : M W Fields := λ w, (Ret (w_fields w), w).
Definition modify_fields (f : Fields → Fields) : M W unit := λ w,
  (Ret tt, {| w_store := w_store w; w_balances := w_balances w; w_logs := w_logs w;
              w_fields := f (w_fields w) |}).
Definition AddLog (log : LogRecord) : M W unit := λ w,
  (Ret tt, {| w_store := w_store w; w_balances := w_balances w; w_logs := w_logs w ++ [log];
              w_fields := w_fields w |}).
Definition GetBalance (addr : address) : M W Z := λ w,
  (Ret (default 0 (w_balances w !! addr)), w).
(** [Account.AddBalance]; [Account.SubBalance] adds the opposite. *)
Definition AddBalance (addr : address) (amount : Z) : M W unit := λ w,
  (Ret tt, if amount =? 0 then w else
    {| w_store := w_store w;
       w_balances := <[addr := default 0 (w_balances w !! addr) + amount]> (w_balances w);
       w_logs := w_logs w; w_fields := w_fields w |}).
(** [EVMStateStorage.SubBalance]. *)
Definition Storage_SubBalance (addr : address) (b : Z) : M W bool :=
  bal ← GetBalance addr;
  if b <=? bal then AddBalance addr (- b) ;; mret true else mret false.

Definition transferContractBalance (ctx : CallFrame) (balance : Z) : M W unit :=
  availableBalance ← GetBalance (Account ctx);
  panic_if (availableBalance <? balance) "Contract balance is smaller than required amount" ;;
  AddBalance (Account ctx) (- balance) ;;
  AddBalance (CallerAccount ctx) balance.

(** [if prev != new { eligible_vote_count -= prev; eligible_vote_count = add64p(.., new) }]. *)
Definition update_eligible_vote_count (prev_vote_count new_vote_count : Z) : M W unit :=
  when (negb (prev_vote_count =? new_vote_count))
    (f ← get_fields;
     modify_fields (set_eligible_vote_count (u64 (eligible_vote_count f - prev_vote_count))) ;;
     n ← of_outcome (add64p (u64 (eligible_vote_count f - prev_vote_count)) new_vote_count);
     modify_fields (set_eligible_vote_count n)).
Definition add_amount_delegated (amount : Z) : M W unit :=
  modify_fields (λ f, set_amount_delegated (u256 (amount_delegated f + u256 amount)) f).
Definition sub_amount_delegated (amount : Z) : M W unit :=
  modify_fields (λ f, set_amount_delegated (u256 (amount_delegated f - u256 amount)) f).

(** The block [delegate], [undelegate], [cancelUndelegate], [redelegate] and [claimRewards]
    share: the reward state of the current block, when there is none yet, is created from the
    validator's last one (which loses a reference) by distributing the rewards pool over the
    stake; the validator references the new one. *)
Definition new_state (validator_addr : address) (block : Z) (validator : Validator)
    (validator_rewards : option ValidatorRewards)
  : M W (State * Validator * option ValidatorRewards) :=
  old_state ← lift (state_get_and_decrement validator_addr (Validator_LastUpdated validator));
  rewards ← deref validator_rewards;
  rewards_per_1_stake ← (if 0 <? TotalStake validator then
      r ← of_outcome (calculateRewardPer1Stake cfg (RewardsPool rewards) (TotalStake validator));
      mret (RewardsPer1Stake old_state + r)
    else mret (RewardsPer1Stake old_state));
  mret ({| RewardsPer1Stake := rewards_per_1_stake; Count := 1 |},
        {| TotalStake := TotalStake validator; Commission := Commission validator;
           LastCommissionChange := LastCommissionChange validator;
           Validator_LastUpdated := block;
           UndelegationsCount := UndelegationsCount validator |},
        Some {| RewardsPool := 0; CommissionRewardsPool := CommissionRewardsPool rewards |}).
Definition current_state (validator_addr : address) (block : Z) (validator : Validator)
    (validator_rewards : option ValidatorRewards)
  : M W (State * Validator * option ValidatorRewards) :=
  state ← lift (state_get validator_addr block);
  match state with
  | Some state => mret (state, validator, validator_rewards)
  | None => new_state validator_addr block validator validator_rewards
  end.
(** "We need to claim rewards first": pay the delegation what its stake earned since it was
    last updated. *)
Definition claim_delegation (ctx : CallFrame) (validator_addr : address) (state : State)
    (delegation : Delegation) : M W unit :=
  old_state ← lift (state_get_and_decrement validator_addr (Delegation_LastUpdated delegation));
  let reward_per_stake := RewardsPer1Stake state - RewardsPer1Stake old_state in
  reward ← of_outcome (calculateDelegatorReward cfg reward_per_stake (Stake delegation));
  when (0 <? reward)
    (transferContractBalance ctx reward ;;
     AddLog (RewardsClaimedLog (CallerAccount ctx) validator_addr reward)).

Definition put_counted_state (validator_addr : address) (block : Z) (state : State) : M W unit :=
  lift (state_put validator_addr block
    (Some {| RewardsPer1Stake := RewardsPer1Stake state; Count := u32 (Count state + 1) |})).

Definition with_stake (v : Validator) (stake : Z) : Validator :=
  {| TotalStake := stake; Commission := Commission v;
     LastCommissionChange := LastCommissionChange v;
     Validator_LastUpdated := Validator_LastUpdated v;
     UndelegationsCount := UndelegationsCount v |}.
Definition with_undelegations (v : Validator) (n : Z) : Validator :=
  {| TotalStake := TotalStake v; Commission := Commission v;
     LastCommissionChange := LastCommissionChange v;
     Validator_LastUpdated := Validator_LastUpdated v; UndelegationsCount := n |}.
(** The deletion of a drained validator and of its per-validator slots. *)
Definition delete_validator (validator : address) : M W unit :=
  lift (DeleteValidator validator) ;;
  lift (clearVotingPowerFactor validator) ;;
  lift (clearLastActiveBlock validator) ;;
  lift (clearEvictionCursor validator).
Definition modify_validator (validator_addr : address) (validator : Validator)
    (validator_rewards : option ValidatorRewards) : M W unit :=
  lift (ModifyValidator validator_addr validator) ;;
  rewards ← non_nil validator_rewards;
  lift (ModifyValidatorRewards validator_addr rewards).
End steps.

(** * The steps do not depend on the store
    Worlds over two stores are related when the stores are and everything else is equal. *)
Definition world_rel {S1 S2} (R : S1 → S2 → Prop) (w1 : World S1) (w2 : World S2) : Prop :=
  R (w_store w1) (w_store w2) ∧ w_balances w1 = w_balances w2 ∧ w_logs w1 = w_logs w2 ∧
  w_fields w1 = w_fields w2.

Section refine.
Context `{HS : DposSim S1 S2 R} (cfg : ChainConfig).
Abbreviation W := (world_rel R).

Lemma state_get_and_decrement_ref v b :
  refines R (state_get_and_decrement v b) (state_get_and_decrement v b).
Proof. unfold state_get_and_decrement. refines_solve. Qed.

Lemma lift_ref {A} (m1 : M S1 A) m2 : refines R m1 m2 → refines W (lift m1) (lift m2).
Proof.
  intros Hm [s1 b1 l1 f1] [s2 b2 l2 f2] (HR & Hb & Hl & Hf) Ho. unfold lift in *. simpl in *.
  specialize (Hm s1 s2 HR). destruct (m2 s2) as [o2 s2'], (m1 s1) as [o1 s1']. simpl in *.
  by destruct Hm as [-> ?].
Qed.
Ltac world_eq := intros [s1 b1 l1 f1] [s2 b2 l2 f2] (HR & Hb & Hl & Hf) _; simpl in *; subst.
Lemma get_fields_ref : refines W get_fields get_fields.
Proof. by world_eq. Qed.
Lemma modify_fields_ref f : refines W (modify_fields f) (modify_fields f).
Proof. by world_eq. Qed.
Lemma AddLog_ref l : refines W (AddLog l) (AddLog l).
Proof. by world_eq. Qed.
Lemma GetBalance_ref a : refines W (GetBalance a) (GetBalance a).
Proof. by world_eq. Qed.
Lemma AddBalance_ref a x : refines W (AddBalance a x) (AddBalance a x).
Proof. world_eq. unfold AddBalance. by destruct (x =? 0). Qed.
Lemma require_ref {A} (o : option A) e : refines W (require o e) (require o e).
Proof. by destruct o. Qed.
Lemma non_nil_ref {A} (o : option A) : refines W (non_nil o) (non_nil o).
Proof. by destruct o. Qed.
End refine.
#[export] Hint Resolve state_get_and_decrement_ref lift_ref get_fields_ref modify_fields_ref
  AddLog_ref GetBalance_ref AddBalance_ref require_ref non_nil_ref : refines.

Section refine_steps.
Context `{HS : DposSim S1 S2 R} (cfg : ChainConfig).
Abbreviation W := (world_rel R).
Abbreviation same x := (refines W x x) (only parsing).

Lemma Storage_SubBalance_ref a x : same (Storage_SubBalance a x).
Proof. unfold Storage_SubBalance. refines_solve. Qed.
Lemma transferContractBalance_ref c x : same (transferContractBalance c x).
Proof. unfold transferContractBalance. refines_solve. Qed.
Lemma update_eligible_vote_count_ref p n : same (update_eligible_vote_count p n).
Proof. unfold update_eligible_vote_count. refines_solve. Qed.
Lemma add_amount_delegated_ref a : same (add_amount_delegated a).
Proof. apply modify_fields_ref. Qed.
Lemma sub_amount_delegated_ref a : same (sub_amount_delegated a).
Proof. apply modify_fields_ref. Qed.
Lemma new_state_ref a b v r : same (new_state cfg a b v r).
Proof. unfold new_state. refines_solve. Qed.
#[local] Hint Resolve new_state_ref : refines.
Lemma current_state_ref a b v r : same (current_state cfg a b v r).
Proof. unfold current_state. refines_solve. Qed.
#[local] Hint Resolve transferContractBalance_ref : refines.
Lemma claim_delegation_ref c a s d : same (claim_delegation cfg c a s d).
Proof. unfold claim_delegation. refines_solve. Qed.
Lemma put_counted_state_ref a b s : same (put_counted_state a b s).
Proof. apply lift_ref, state_put_ref. Qed.
Lemma delete_validator_ref v : same (delete_validator v).
Proof. unfold delete_validator. refines_solve. Qed.
Lemma modify_validator_ref a v r : same (modify_validator a v r).
Proof. unfold modify_validator. refines_solve. Qed.
End refine_steps.
#[export] Hint Resolve Storage_SubBalance_ref transferContractBalance_ref
  update_eligible_vote_count_ref add_amount_delegated_ref sub_amount_delegated_ref
  new_state_ref current_state_ref claim_delegation_ref put_counted_state_ref delete_validator_ref
  modify_validator_ref : refines.
