(* ===== verification/Dpos.v ===== *)
(** The DPoS contract's state-changing methods ([dpos_contract.go]): one definition per
    handler, with the handler's checks in the handler's order, over any store.  An [error] is
    [Err], a Go panic is [Panic]; the state reached so far is returned in every case. *)
From S2P Require Import Prelude Codec Rlp Storage IterableMap DposData YieldCurve DposStore DposWorld.

(** [crypto.Ecrecover] (libsecp256k1) is not code of the repository's own. *)
Class EcrecoverFn := Ecrecover : bytes → bytes → outcome bytes.

Section handlers.
Context {St : Type} `{!DposStore St} (cfg : ChainConfig).
Abbreviation W := (World St).

(** The new vote count is computed and [eligible_vote_count] follows it. *)
Definition change_votes (prev_vote_count stake factor : Z) : M W unit :=
  new_vote_count ← of_outcome (voteCountWithFactor cfg stake factor);
  update_eligible_vote_count prev_vote_count new_vote_count.

Definition delegate_update_values (ctx : CallFrame) (validator : Validator)
    (prev_vote_count factor : Z) : M W Validator :=
  let validator := with_stake validator (TotalStake validator + Value ctx) in
  add_amount_delegated (Value ctx) ;;
  change_votes prev_vote_count (TotalStake validator) factor ;;
  mret validator.

Definition delegate (ctx : CallFrame) (block : Z) (val : address) : M W unit :=
  validator ← lift (GetValidator val);
  validator ← require validator ErrNonExistentValidator;
  validator_rewards ← lift (GetValidatorRewards val);
  fail_if (ValidatorMaximumStake (DPOS cfg) <? Value ctx + TotalStake validator)
    ErrValidatorsMaxStakeExceeded ;;
  delegation ← lift (GetDelegation (CallerAccount ctx) val);
  fail_if (bool_decide (delegation = None) && (Value ctx <? MinimumDeposit (DPOS cfg)))
    ErrInsufficientDelegation ;;
  '(state, validator, validator_rewards) ← current_state cfg val block validator validator_rewards;
  factor ← lift (getVotingPowerFactor val);
  prev_vote_count ← of_outcome (voteCountWithFactor cfg (TotalStake validator) factor);
  match delegation with
  | None => lift (CreateDelegation (CallerAccount ctx) val block (Value ctx))
  | Some delegation =>
      claim_delegation cfg ctx val state delegation ;;
      lift (ModifyDelegation (CallerAccount ctx) val
        {| Stake := Stake delegation + Value ctx; Delegation_LastUpdated := block |})
  end ;;
  validator ← delegate_update_values ctx validator prev_vote_count factor;
  put_counted_state val block state ;;
  modify_validator val validator validator_rewards ;;
  AddLog (DelegatedLog (CallerAccount ctx) val (Value ctx)).

(** Take [amount] off a delegation: remove it when nothing is left, otherwise it references
    the current state.  Returns the state with the reference counted. *)
Definition shrink_delegation (delegator val : address) (block : Z) (state : State)
    (delegation : Delegation) (amount : Z) : M W State :=
  let stake := Stake delegation - amount in
  if stake =? 0 then lift (RemoveDelegation delegator val) ;; mret state
  else
    lift (ModifyDelegation delegator val {| Stake := stake; Delegation_LastUpdated := block |}) ;;
    mret {| RewardsPer1Stake := RewardsPer1Stake state; Count := u32 (Count state + 1) |}.

(** The checks on the amount taken off a delegation. *)
Definition check_amount (delegation : Delegation) (amount : Z) : M W unit :=
  fail_if (Stake delegation <? amount) ErrInsufficientDelegation ;;
  fail_if (negb (Stake delegation =? amount) &&
           (Stake delegation - amount <? MinimumDeposit (DPOS cfg))) ErrInsufficientDelegation.

Definition undelegate (ctx : CallFrame) (block : Z) (val : address) (amount : Z) : M W Z :=
  validator ← lift (GetValidator val);
  validator ← require validator ErrNonExistentValidator;
  validator_rewards ← lift (GetValidatorRewards val);
  delegation ← lift (GetDelegation (CallerAccount ctx) val);
  delegation ← require delegation ErrNonExistentDelegation;
  check_amount delegation amount ;;
  factor ← lift (getVotingPowerFactor val);
  prev_vote_count ← of_outcome (voteCountWithFactor cfg (TotalStake validator) factor);
  '(state, validator, validator_rewards) ← current_state cfg val block validator validator_rewards;
  claim_delegation cfg ctx val state delegation ;;
  let validator := with_undelegations (with_stake validator (TotalStake validator - amount))
                     (u16 (UndelegationsCount validator + 1)) in
  state ← shrink_delegation (CallerAccount ctx) val block state delegation amount;
  sub_amount_delegated amount ;;
  change_votes prev_vote_count (TotalStake validator) factor ;;
  lift (state_put val block (Some state)) ;;
  modify_validator val validator validator_rewards ;;
  undelegation_id ← lift (CreateUndelegation (CallerAccount ctx) val
    (u64 (block + DelegationLockingPeriod (DPOS cfg))) amount);
  AddLog (UndelegatedLog (CallerAccount ctx) val undelegation_id amount) ;;
  mret undelegation_id.

Definition confirmUndelegate (ctx : CallFrame) (block : Z) (validator_addr : address)
    (undelegation_id : Z) : M W unit :=
  exists_ ← lift (UndelegationExists (CallerAccount ctx) validator_addr undelegation_id);
  fail_if (negb exists_) ErrNonExistentUndelegation ;;
  undelegation ← lift (GetUndelegation (CallerAccount ctx) validator_addr undelegation_id);
  undelegation ← deref undelegation;
  fail_if (block <? Block undelegation) ErrLockedUndelegation ;;
  lift (RemoveUndelegation (CallerAccount ctx) validator_addr undelegation_id) ;;
  validator ← lift (GetValidator validator_addr);
  match validator with
  | None => mret tt
  | Some validator =>
      let validator := if 0 <? UndelegationsCount validator
        then with_undelegations validator (UndelegationsCount validator - 1) else validator in
      validator_rewards ← lift (GetValidatorRewards validator_addr);
      drained ← (if (UndelegationsCount validator =? 0) && (TotalStake validator =? 0)
        then rewards ← deref validator_rewards; mret (CommissionRewardsPool rewards =? 0)
        else mret false);
      if (drained : bool) then
        delete_validator validator_addr ;;
        lift (state_get_and_decrement validator_addr (Validator_LastUpdated validator)) ;;
        mret tt
      else lift (ModifyValidator validator_addr validator)
  end ;;
  transferContractBalance ctx (Amount undelegation) ;;
  AddLog (UndelegateConfirmedLog (CallerAccount ctx) validator_addr undelegation_id
            (Amount undelegation)).

Definition cancelUndelegate (ctx : CallFrame) (block : Z) (validator_addr : address)
    (undelegation_id : Z) : M W unit :=
  exists_ ← lift (UndelegationExists (CallerAccount ctx) validator_addr undelegation_id);
  fail_if (negb exists_) ErrNonExistentUndelegation ;;
  validator ← lift (GetValidator validator_addr);
  validator ← require validator ErrNonExistentValidator;
  validator_rewards ← lift (GetValidatorRewards validator_addr);
  factor ← lift (getVotingPowerFactor validator_addr);
  prev_vote_count ← of_outcome (voteCountWithFactor cfg (TotalStake validator) factor);
  undelegation ← lift (GetUndelegation (CallerAccount ctx) validator_addr undelegation_id);
  lift (RemoveUndelegation (CallerAccount ctx) validator_addr undelegation_id) ;;
  '(state, validator, validator_rewards) ←
    current_state cfg validator_addr block validator validator_rewards;
  delegation ← lift (GetDelegation (CallerAccount ctx) validator_addr);
  undelegation ← deref undelegation;
  match delegation with
  | None => lift (CreateDelegation (CallerAccount ctx) validator_addr block (Amount undelegation))
  | Some delegation =>
      claim_delegation cfg ctx validator_addr state delegation ;;
      lift (ModifyDelegation (CallerAccount ctx) validator_addr
        {| Stake := Stake delegation + Amount undelegation; Delegation_LastUpdated := block |})
  end ;;
  fail_if (ValidatorMaximumStake (DPOS cfg) <? Amount undelegation + TotalStake validator)
    ErrValidatorsMaxStakeExceeded ;;
  let validator := with_stake validator (TotalStake validator + Amount undelegation) in
  let validator := if 0 <? UndelegationsCount validator
    then with_undelegations validator (UndelegationsCount validator - 1) else validator in
  add_amount_delegated (Amount undelegation) ;;
  change_votes prev_vote_count (TotalStake validator) factor ;;
  put_counted_state validator_addr block state ;;
  modify_validator validator_addr validator validator_rewards ;;
  AddLog (UndelegateCanceledLog (CallerAccount ctx) validator_addr undelegation_id
            (Amount undelegation)).

(** "First we undelegate". *)
Definition redelegate_from (ctx : CallFrame) (block : Z) (from : address)
    (validator_from : Validator) (validator_rewards_from : option ValidatorRewards)
    (amount prev_vote_count_from factor_from : Z) : M W unit :=
  delegation ← lift (GetDelegation (CallerAccount ctx) from);
  delegation ← require delegation ErrNonExistentDelegation;
  check_amount delegation amount ;;
  '(state, validator_from, validator_rewards_from) ←
    current_state cfg from block validator_from validator_rewards_from;
  claim_delegation cfg ctx from state delegation ;;
  let validator_from := with_stake validator_from (TotalStake validator_from - amount) in
  state ← shrink_delegation (CallerAccount ctx) from block state delegation amount;
  drained ← (if TotalStake validator_from =? 0
    then rewards ← deref validator_rewards_from; mret (CommissionRewardsPool rewards =? 0)
    else mret false);
  (if (drained : bool) then
     if UndelegationsCount validator_from =? 0 then
       delete_validator from ;;
       lift (state_put from block None)
     else lift (ModifyValidator from validator_from)
   else
     lift (state_put from block (Some state)) ;;
     modify_validator from validator_from validator_rewards_from) ;;
  change_votes prev_vote_count_from (TotalStake validator_from) factor_from.
(** "Now we delegate". *)
Definition redelegate_to (ctx : CallFrame) (block : Z) (to : address)
    (validator_to : Validator) (validator_rewards_to : option ValidatorRewards)
    (amount prev_vote_count_to factor_to : Z) : M W unit :=
  '(state, validator_to, validator_rewards_to) ←
    current_state cfg to block validator_to validator_rewards_to;
  delegation ← lift (GetDelegation (CallerAccount ctx) to);
  match delegation with
  | None => lift (CreateDelegation (CallerAccount ctx) to block amount)
  | Some delegation =>
      claim_delegation cfg ctx to state delegation ;;
      lift (ModifyDelegation (CallerAccount ctx) to
        {| Stake := Stake delegation + amount; Delegation_LastUpdated := block |})
  end ;;
  let validator_to := with_stake validator_to (TotalStake validator_to + amount) in
  change_votes prev_vote_count_to (TotalStake validator_to) factor_to ;;
  put_counted_state to block state ;;
  modify_validator to validator_to validator_rewards_to.

Definition redelegate (ctx : CallFrame) (block : Z) (from to : address) (amount : Z)
  : M W unit :=
  fail_if (bool_decide (from = to)) ErrSameValidator ;;
  fail_if (amount <=? 0) ErrInvalidRedelegation ;;
  validator_from ← lift (GetValidator from);
  validator_from ← require validator_from ErrNonExistentValidator;
  validator_rewards_from ← lift (GetValidatorRewards from);
  validator_to ← lift (GetValidator to);
  validator_to ← require validator_to ErrNonExistentValidator;
  validator_rewards_to ← lift (GetValidatorRewards to);
  fail_if (negb (ValidatorMaximumStake (DPOS cfg) =? 0) &&
           (ValidatorMaximumStake (DPOS cfg) <? amount + TotalStake validator_to))
    ErrValidatorsMaxStakeExceeded ;;
  factor_from ← lift (getVotingPowerFactor from);
  factor_to ← lift (getVotingPowerFactor to);
  prev_vote_count_from ← of_outcome (voteCountWithFactor cfg (TotalStake validator_from) factor_from);
  prev_vote_count_to ← of_outcome (voteCountWithFactor cfg (TotalStake validator_to) factor_to);
  redelegate_from ctx block from validator_from validator_rewards_from amount
    prev_vote_count_from factor_from ;;
  redelegate_to ctx block to validator_to validator_rewards_to amount
    prev_vote_count_to factor_to ;;
  AddLog (RedelegatedLog (CallerAccount ctx) from to amount).

Definition claimRewards (ctx : CallFrame) (block : Z) (val : address) : M W unit :=
  delegation ← lift (GetDelegation (CallerAccount ctx) val);
  delegation ← require delegation ErrNonExistentDelegation;
  state ← lift (state_get val block);
  state ← (match state with
    | Some state => mret state
    | None =>
        validator ← lift (GetValidator val);
        validator ← require validator ErrNonExistentValidator;
        validator_rewards ← lift (GetValidatorRewards val);
        '(state, validator, validator_rewards) ←
          new_state cfg val block validator validator_rewards;
        modify_validator val validator validator_rewards ;;
        mret state
    end);
  claim_delegation cfg ctx val state delegation ;;
  lift (ModifyDelegation (CallerAccount ctx) val
    {| Stake := Stake delegation; Delegation_LastUpdated := block |}) ;;
  put_counted_state val block state.

(** An error is passed on with its validator (the printed address is left out here). *)
Definition wrap_error {A} (m : M W A) : M W A := λ w,
  match m w with
  | (Err e, w') => (Err (e ++ " -> validator: ")%string, w')
  | r => r
  end.
Definition claimAllRewards (ctx : CallFrame) (block : Z) : M W unit :=
  validators ← lift (GetAllDelegatorValidatorsAddresses (CallerAccount ctx));
  for_each validators (λ val, wrap_error (claimRewards ctx block val)).

Definition claimCommissionRewards (ctx : CallFrame) (block : Z) (val : address) : M W unit :=
  is_owner ← lift (CheckValidatorOwner (CallerAccount ctx) val);
  fail_if (negb is_owner) ErrWrongOwnerAcc ;;
  validator ← lift (GetValidator val);
  validator ← require validator ErrNonExistentValidator;
  validator_rewards ← lift (GetValidatorRewards val);
  rewards ← deref validator_rewards;
  transferContractBalance ctx (CommissionRewardsPool rewards) ;;
  AddLog (CommissionRewardsClaimedLog (CallerAccount ctx) val (CommissionRewardsPool rewards)) ;;
  let rewards := {| RewardsPool := RewardsPool rewards; CommissionRewardsPool := 0 |} in
  if (TotalStake validator =? 0) && (UndelegationsCount validator =? 0) then
    delete_validator val ;;
    lift (state_get_and_decrement val (Validator_LastUpdated validator)) ;;
    mret tt
  else lift (ModifyValidatorRewards val rewards).

Context `{Keccak} `{EcrecoverFn}.
(** The proof of a registration is the validator's signature of its own address. *)
Definition validateProof (proof validator : bytes) : outcome unit :=
  if negb (length proof =? 65)%nat then Err ErrWrongProof
  else
    match Ecrecover (keccak validator) (take 64 proof ++ [u8 (nth 64 proof 0 - 27)]) with
    | Ret pubKey =>
        if bool_decide (BytesToAddress (drop 12 (keccak (drop 1 pubKey))) = validator) then Ret tt
        else Err ErrWrongProof
    | Err e => Err e
    | Panic p => Panic p
    end.

Record RegisterValidatorArgs : Type := {
  R_Validator : address; R_Proof : bytes; R_VrfKey : bytes; R_Commission : Z;
  R_Description : bytes; R_Endpoint : bytes
}.
Definition registerValidatorWithoutChecks (ctx : CallFrame) (block : Z)
    (args : RegisterValidatorArgs) : M W unit :=
  fail_if (MaxEndpointLength <? blen (R_Endpoint args)) ErrMaxEndpointLengthExceeded ;;
  fail_if (MaxDescriptionLength <? blen (R_Description args)) ErrMaxDescriptionLengthExceeded ;;
  fail_if (negb (blen (R_VrfKey args) =? VrfKeyLength)) ErrWrongVrfKey ;;
  fail_if (MaxCommission <? R_Commission args) ErrCommissionOverflow ;;
  exists_ ← lift (ValidatorExists (R_Validator args));
  fail_if exists_ ErrExistentValidator ;;
  let owner_address := CallerAccount ctx in
  delegation ← lift (GetDelegation owner_address (R_Validator args));
  fail_if (bool_decide (is_Some delegation)) ErrExistentDelegation ;;
  state ← lift (state_get (R_Validator args) block);
  fail_if (bool_decide (is_Some state)) ErrBrokenState ;;
  fail_if (ValidatorMaximumStake (DPOS cfg) <? Value ctx) ErrValidatorsMaxStakeExceeded ;;
  validator ← lift (CreateValidator owner_address (R_Validator args) (R_VrfKey args) block
    (R_Commission args) (R_Description args) (R_Endpoint args));
  AddLog (ValidatorRegisteredLog (R_Validator args)) ;;
  (if 0 <? Value ctx then
     AddLog (DelegatedLog owner_address (R_Validator args) (Value ctx)) ;;
     lift (CreateDelegation owner_address (R_Validator args) block (Value ctx)) ;;
     validator ← delegate_update_values ctx validator 0 BasisPointsScale;
     lift (ModifyValidator (R_Validator args) validator) ;;
     lift (state_put (R_Validator args) block (Some {| RewardsPer1Stake := 0; Count := 2 |}))
   else lift (state_put (R_Validator args) block (Some {| RewardsPer1Stake := 0; Count := 1 |}))).
Definition registerValidator (ctx : CallFrame) (block : Z) (args : RegisterValidatorArgs)
  : M W unit :=
  of_outcome (validateProof (R_Proof args) (R_Validator args)) ;;
  fail_if (Value ctx <? MinimumDeposit (DPOS cfg)) ErrInsufficientDelegation ;;
  registerValidatorWithoutChecks ctx block args.

Definition setValidatorInfo (ctx : CallFrame) (val : address) (description endpoint : bytes)
  : M W unit :=
  fail_if (MaxEndpointLength <? blen endpoint) ErrMaxEndpointLengthExceeded ;;
  fail_if (MaxDescriptionLength <? blen description) ErrMaxDescriptionLengthExceeded ;;
  is_owner ← lift (CheckValidatorOwner (CallerAccount ctx) val);
  fail_if (negb is_owner) ErrWrongOwnerAcc ;;
  validator_info ← lift (GetValidatorInfo val);
  _ ← require validator_info ErrNonExistentValidator;
  lift (ModifyValidatorInfo val {| Description := description; Endpoint := endpoint |}) ;;
  AddLog (ValidatorInfoSetLog val).

Definition setCommission (ctx : CallFrame) (block : Z) (val : address) (commission : Z)
  : M W unit :=
  is_owner ← lift (CheckValidatorOwner (CallerAccount ctx) val);
  fail_if (negb is_owner) ErrWrongOwnerAcc ;;
  fail_if (MaxCommission <? commission) ErrCommissionOverflow ;;
  fail_if (commission <? MinimumCommission) ErrCommissionBelowMinimum ;;
  validator ← lift (GetValidator val);
  validator ← require validator ErrNonExistentValidator;
  fail_if (negb (CommissionChangeFrequency (DPOS cfg) =? 0) &&
           (u64 (block - LastCommissionChange validator) <? CommissionChangeFrequency (DPOS cfg)))
    ErrForbiddenCommissionChange ;;
  fail_if (negb (CommissionChangeDelta (DPOS cfg) =? 0) &&
           (CommissionChangeDelta (DPOS cfg) <? getDelta (Commission validator) commission))
    ErrForbiddenCommissionChange ;;
  lift (ModifyValidator val
    {| TotalStake := TotalStake validator; Commission := commission;
       LastCommissionChange := block;
       Validator_LastUpdated := Validator_LastUpdated validator;
       UndelegationsCount := UndelegationsCount validator |}) ;;
  AddLog (CommissionSetLog val commission).
End handlers.

(** * The handlers do not depend on the store *)
Section refine.
Context `{HS : DposSim S1 S2 R} `{Keccak} `{EcrecoverFn} (cfg : ChainConfig).
Abbreviation W := (world_rel R).
Abbreviation same x := (refines W x x) (only parsing).

Lemma change_votes_ref p s f : same (change_votes cfg p s f).
Proof. unfold change_votes. refines_solve. Qed.
#[local] Hint Resolve change_votes_ref : refines.
Lemma delegate_update_values_ref c v p f : same (delegate_update_values cfg c v p f).
Proof. unfold delegate_update_values. refines_solve. Qed.
#[local] Hint Resolve delegate_update_values_ref : refines.
Lemma delegate_ref c b v : same (delegate cfg c b v).
Proof. unfold delegate. refines_solve. Qed.
Lemma shrink_delegation_ref c v b s d a : same (shrink_delegation c v b s d a).
Proof. unfold shrink_delegation. refines_solve. Qed.
Lemma check_amount_ref d a : same (check_amount cfg d a).
Proof. unfold check_amount. refines_solve. Qed.
#[local] Hint Resolve shrink_delegation_ref check_amount_ref : refines.
Lemma undelegate_ref c b v a : same (undelegate cfg c b v a).
Proof. unfold undelegate. refines_solve. Qed.
Lemma confirmUndelegate_ref c b v i : same (confirmUndelegate c b v i).
Proof. unfold confirmUndelegate. refines_solve. Qed.
Lemma cancelUndelegate_ref c b v i : same (cancelUndelegate cfg c b v i).
Proof. unfold cancelUndelegate. refines_solve. Qed.
Lemma redelegate_from_ref c b f v r a p x : same (redelegate_from cfg c b f v r a p x).
Proof. unfold redelegate_from. refines_solve. Qed.
Lemma redelegate_to_ref c b f v r a p x : same (redelegate_to cfg c b f v r a p x).
Proof. unfold redelegate_to. refines_solve. Qed.
#[local] Hint Resolve redelegate_from_ref redelegate_to_ref : refines.
Lemma redelegate_ref c b f t a : same (redelegate cfg c b f t a).
Proof. unfold redelegate. refines_solve. Qed.
Lemma claimRewards_ref c b v : same (claimRewards cfg c b v).
Proof. unfold claimRewards. refines_solve. Qed.
Lemma wrap_error_ref {A} (m1 : M (World S1) A) m2 :
  refines W m1 m2 → refines W (wrap_error m1) (wrap_error m2).
Proof.
  intros Hm w1 w2 Hw. specialize (Hm w1 w2 Hw). unfold wrap_error.
  destruct (m2 w2) as [[] ?], (m1 w1) as [[] ?]; simpl in *; intros Ho;
    destruct Hm as [? ?]; simplify_eq; done.
Qed.
#[local] Hint Resolve claimRewards_ref wrap_error_ref : refines.
Lemma claimAllRewards_ref c b : same (claimAllRewards cfg c b).
Proof. unfold claimAllRewards. refines_solve. Qed.
Lemma claimCommissionRewards_ref c b v : same (claimCommissionRewards c b v).
Proof. unfold claimCommissionRewards. refines_solve. Qed.
Lemma registerValidatorWithoutChecks_ref c b a : same (registerValidatorWithoutChecks cfg c b a).
Proof. unfold registerValidatorWithoutChecks. refines_solve. Qed.
#[local] Hint Resolve registerValidatorWithoutChecks_ref : refines.
Lemma registerValidator_ref c b a : same (registerValidator cfg c b a).
Proof. unfold registerValidator. refines_solve. Qed.
Lemma setValidatorInfo_ref c v d e : same (setValidatorInfo c v d e).
Proof. unfold setValidatorInfo. refines_solve. Qed.
Lemma setCommission_ref c b v x : same (setCommission cfg c b v x).
Proof. unfold setCommission. refines_solve. Qed.
End refine.
#[export] Hint Resolve change_votes_ref delegate_update_values_ref delegate_ref undelegate_ref
  confirmUndelegate_ref cancelUndelegate_ref redelegate_ref claimRewards_ref claimAllRewards_ref
  claimCommissionRewards_ref registerValidatorWithoutChecks_ref registerValidator_ref
  setValidatorInfo_ref setCommission_ref : refines.
