(* ===== verification/DposRewards.v ===== *)
(** The consensus side of the DPoS contract ([dpos_contract.go]): start-up, block rewards under
    the supply cap, their distribution, the inactivity penalties of an epoch boundary and the
    forced evictions they trigger, the end of a block and the genesis.  A Go map is given as the
    list of its entries in the order the loop visits them; what the code prints is left out. *)
From S2P Require Import Prelude Codec Rlp Storage DposData YieldCurve DposStore DposWorld Dpos.

(** [rewards_stats.go]. *)
Record ValidatorStats : Type := {
  DagBlocksCount : Z;
  VoteWeight : Z;
  FeesRewards : option Z
}.
Record RewardsStats : Type := {
  BlockAuthor : address;
  ValidatorsStats : list (address * ValidatorStats);
  TotalDagBlocksCount : Z;
  TotalVotesWeight : Z;
  MaxVotesWeight : Z
}.

(** ** Shares of a block reward *)
Section shares.
Context (cfg : ChainConfig).

(** The proposers' part, the votes' part and the author's bonus of a block reward. *)
Definition split_block_reward (s : RewardsStats) (blockReward : Z) : Z * Z * Z :=
  if 0 <? TotalVotesWeight s then
    let dagProposersReward :=
      u256_div (u256 (blockReward * u64 (DagProposersReward (DPOS cfg)))) 100 in
    let votesReward := u256 (blockReward - dagProposersReward) in
    let bonusReward :=
      u256_div (u256 (blockReward * u64 (MaxBlockAuthorReward (DPOS cfg)))) 100 in
    let votesReward := u256 (votesReward - bonusReward) in
    let maxVotesWeigh := Max (MaxVotesWeight s) (TotalVotesWeight s) in
    let blockAuthorReward :=
      if maxVotesWeigh =? TotalVotesWeight s then bonusReward
      else
        let fiveOfEight := u64 (u64 (maxVotesWeigh * 5) + 7) / 8 in
        let bonusVotesWeight :=
          if fiveOfEight <=? TotalVotesWeight s then TotalVotesWeight s - fiveOfEight else 0 in
        if fiveOfEight <? maxVotesWeigh then
          u256_div (u256 (bonusReward * bonusVotesWeight)) (maxVotesWeigh - fiveOfEight)
        else bonusReward in
    (dagProposersReward, votesReward, blockAuthorReward)
  else (blockReward, 0, 0).

(** What one validator earned with its blocks and its votes. *)
Definition validator_share (s : RewardsStats) (dagProposersReward votesReward : Z)
    (stats : ValidatorStats) : Z :=
  let validatorReward :=
    if 0 <? DagBlocksCount stats then
      u256_div (u256 (DagBlocksCount stats * dagProposersReward)) (TotalDagBlocksCount s)
    else 0 in
  if 0 <? VoteWeight stats then
    u256 (validatorReward +
      u256_div (u256 (VoteWeight stats * votesReward)) (TotalVotesWeight s))
  else validatorReward.

Definition commission_of (reward commission : Z) : Z :=
  u256_div (u256 (reward * commission)) MaxCommission.
End shares.

Section operations.
Context {St : Type} `{!DposStore St} (cfg : ChainConfig).
Abbreviation W := (World St).

(** ** Start-up and end of a block *)
Definition lazy_init : M W unit :=
  f ← get_fields;
  if lazy_init_done f then mret tt
  else
    _ ← of_outcome (YieldCurve_Init cfg);
    eligible ← lift read_eligible_vote_count;
    amount ← lift read_amount_delegated;
    supply ← lift read_total_supply;
    let supply := match supply with None => total_supply f | Some _ => supply end in
    minted ← (match supply with
      | None => lift read_minted_tokens
      | Some _ => mret None
      end);
    let eligible := default (eligible_vote_count_orig f) eligible in
    let amount := default 0 amount in
    modify_fields (λ _, {|
      eligible_vote_count_orig := eligible; eligible_vote_count := eligible;
      amount_delegated_orig := amount; amount_delegated := amount;
      minted_tokens := default 0 minted; total_supply := supply; lazy_init_done := true |}).

Definition EndBlockCall : M W unit :=
  f ← get_fields;
  if negb (lazy_init_done f) then mret tt
  else
    when (negb (eligible_vote_count_orig f =? eligible_vote_count f))
      (lift (write_eligible_vote_count (eligible_vote_count f))) ;;
    when (negb (amount_delegated_orig f =? amount_delegated f))
      (lift (write_amount_delegated (amount_delegated f))) ;;
    modify_fields (λ f, {|
      eligible_vote_count_orig := eligible_vote_count f;
      eligible_vote_count := eligible_vote_count f;
      amount_delegated_orig := amount_delegated f; amount_delegated := amount_delegated f;
      minted_tokens := minted_tokens f; total_supply := total_supply f;
      lazy_init_done := lazy_init_done f |}).

(** ** The reward of a block *)
Definition processBlockReward (block_num : Z) : M W Z :=
  f ← get_fields;
  supply ← (match total_supply f with
    | Some supply => mret supply
    | None =>
        supply ← of_outcome (CalculateTotalSupply cfg (minted_tokens f));
        modify_fields (set_total_supply supply) ;;
        lift (saveTotalSupplyDb supply) ;;
        lift eraseMintedTokensDb ;;
        mret supply
    end);
  let '(blockReward, yield) := CalculateBlockReward cfg (amount_delegated f) block_num in
  let max_supply := GetMaxSupply cfg in
  if max_supply <=? supply then lift (saveYieldDb 0) ;; mret 0
  else
    let remaining := u256 (max_supply - supply) in
    let blockReward := if remaining <? blockReward then remaining else blockReward in
    lift (saveYieldDb (u64 yield)) ;; mret blockReward.

(** ** Forced evictions *)
Definition undelegateInternal (block : Z) (validator_addr delegator_addr : address)
    (amount : Z) : M W Z :=
  validator ← lift (GetValidator validator_addr);
  validator ← require validator ErrNonExistentValidator;
  delegation ← lift (GetDelegation delegator_addr validator_addr);
  delegation ← require delegation ErrNonExistentDelegation;
  fail_if (Stake delegation <? amount) ErrInsufficientDelegation ;;
  let validator := with_stake validator (TotalStake validator - amount) in
  sub_amount_delegated amount ;;
  lift (RemoveDelegation delegator_addr validator_addr) ;;
  undelegation_id ← lift (CreateUndelegation delegator_addr validator_addr block amount);
  let validator := with_undelegations validator (u16 (UndelegationsCount validator + 1)) in
  lift (ModifyValidator validator_addr validator) ;;
  AddLog (UndelegatedLog delegator_addr validator_addr undelegation_id amount) ;;
  mret undelegation_id.

(** The caller prints the error and goes on. *)
Definition ignore_error {A} (m : M W A) : M W unit := λ w,
  match m w with
  | (Panic p, w') => (Panic p, w')
  | (_, w') => (Ret tt, w')
  end.

(** Voting power is taken away at once; [toEvict] entries past the budget get this alone. *)
Definition zero_voting_power (val : address) (validator : Validator) (factor : Z) : M W unit :=
  remaining_votes ← of_outcome (voteCountWithFactor cfg (TotalStake validator) factor);
  f ← get_fields;
  when ((0 <? remaining_votes) && (remaining_votes <=? eligible_vote_count f))
    (modify_fields (set_eligible_vote_count (eligible_vote_count f - remaining_votes))) ;;
  lift (setVotingPowerFactor val 0) ;;
  AddLog (ValidatorEvictedLog val) ;;
  lift (setEvictionCursor val 0).

Definition evict_delegator (block : Z) (val : address) (processed : Z) (delegator : address)
  : M W Z :=
  delegation ← lift (GetDelegation delegator val);
  match delegation with
  | None => mret processed
  | Some delegation =>
      ignore_error (undelegateInternal block val delegator (Stake delegation)) ;;
      mret (u32 (processed + 1))
  end.

Definition forceEvictValidator (val : address) (block budget : Z) : M W Z :=
  validator ← lift (GetValidator val);
  match validator with
  | None => lift (clearEvictionCursor val) ;; mret 0
  | Some validator =>
      '(in_progress, _) ← lift (getEvictionCursor val);
      when (negb in_progress)
        (factor ← lift (getVotingPowerFactor val); zero_voting_power val validator factor) ;;
      let page_size := if MaxEvictionsPerBlock <? budget then MaxEvictionsPerBlock else budget in
      if page_size =? 0 then mret 0
      else
        '(delegators, end_) ← lift (GetValidatorDelegators val 0 page_size);
        processed ← fold_m (evict_delegator block val) 0 delegators;
        (if (end_ : bool) then lift (clearEvictionCursor val) else lift (setEvictionCursor val 0)) ;;
        mret processed
  end.

(** ** Inactivity penalties *)
(** [ForEachValidator]: pages of 100 until the last one; the callback's captured variables are
    threaded as [a].  The fuel bounds the number of pages. *)
Fixpoint ForEachValidator {A} (fuel : nat) (batch : Z) (cb : A → address → M W A) (a : A)
  : M W A :=
  match fuel with
  | O => go_panic "out of fuel"
  | S fuel =>
      '(addrs, end_) ← lift (GetValidatorsAddresses batch 100);
      a ← fold_m cb a addrs;
      if (end_ : bool) then mret a else ForEachValidator fuel (u32 (batch + 1)) cb a
  end.

Definition spend (remaining_budget processed : Z) : Z :=
  if remaining_budget <? processed then 0 else remaining_budget - processed.

(** Step 1: resume the evictions in progress. *)
Definition resume_eviction (current_block : Z) (remaining_budget : Z) (val : address) : M W Z :=
  if remaining_budget =? 0 then mret 0
  else
    '(in_progress, _) ← lift (getEvictionCursor val);
    if (in_progress : bool) then
      processed ← forceEvictValidator val current_block remaining_budget;
      mret (spend remaining_budget processed)
    else mret remaining_budget.

(** Step 2: decay the factor of a validator that was inactive for the whole epoch and collect
    it when its effective stake falls below the threshold. *)
Definition penalize (current_block : Z) (toEvict : list address) (val : address)
  : M W (list address) :=
  let epoch_start := u64 (current_block - InactivityEpochBlocks) in
  validator ← lift (GetValidator val);
  match validator with
  | None => mret toEvict
  | Some validator =>
      if TotalStake validator =? 0 then mret toEvict
      else
        '(in_progress, _) ← lift (getEvictionCursor val);
        if (in_progress : bool) then mret toEvict
        else
          last_active ← lift (getLastActiveBlock val);
          if last_active =? 0 then lift (setLastActiveBlock val current_block) ;; mret toEvict
          else if epoch_start <=? last_active then mret toEvict
          else
            current_factor ← lift (getVotingPowerFactor val);
            prev_vote_count ←
              of_outcome (voteCountWithFactor cfg (TotalStake validator) current_factor);
            let new_factor := u64 (current_factor * 95) / 100 in
            lift (setVotingPowerFactor val new_factor) ;;
            change_votes cfg prev_vote_count (TotalStake validator) new_factor ;;
            AddLog (InactivityPenaltyLog val new_factor) ;;
            let effective_balance :=
              big_quot (TotalStake validator * to_int64 new_factor) BasisPointsScale in
            mret (if effective_balance <? EligibilityBalanceThreshold (DPOS cfg)
                  then toEvict ++ [val] else toEvict)
  end.

(** Step 3: start the new evictions while the budget lasts. *)
Definition start_eviction (current_block : Z) (remaining_budget : Z) (val : address) : M W Z :=
  if remaining_budget =? 0 then
    factor ← lift (getVotingPowerFactor val);
    validator ← lift (GetValidator val);
    (match validator with
     | None => mret tt
     | Some validator => zero_voting_power val validator factor
     end) ;;
    mret 0
  else
    processed ← forceEvictValidator val current_block remaining_budget;
    mret (spend remaining_budget processed).

Definition applyInactivityPenalties (fuel : nat) (current_block : Z) : M W unit :=
  remaining_budget ← ForEachValidator fuel 0 (resume_eviction current_block) MaxEvictionsPerBlock;
  toEvict ← ForEachValidator fuel 0 (penalize current_block) [];
  _ ← fold_m (start_eviction current_block) remaining_budget toEvict;
  mret tt.

(** ** Distribution *)
(** The author's bonus, when the author is still a validator; what was minted. *)
Definition reward_author (author : address) (blockAuthorReward : Z) : M W Z :=
  if 0 <? blockAuthorReward then
    block_author ← lift (GetValidator author);
    match block_author with
    | None => mret 0
    | Some v =>
        let commission := commission_of blockAuthorReward (Commission v) in
        lift (AddValidatorRewards author commission (u256 (blockAuthorReward - commission))) ;;
        mret blockAuthorReward
    end
  else mret 0.

(** Liveness in this block restores the full voting power. *)
Definition recover (current_block : Z) (val : address) (validator : Validator) : M W unit :=
  lift (setLastActiveBlock val current_block) ;;
  current_factor ← lift (getVotingPowerFactor val);
  when (current_factor <? BasisPointsScale)
    (prev_vote_count ← of_outcome (voteCountWithFactor cfg (TotalStake validator) current_factor);
     lift (setVotingPowerFactor val BasisPointsScale) ;;
     change_votes cfg prev_vote_count (TotalStake validator) BasisPointsScale ;;
     AddLog (VotingPowerRecoveredLog val)).

(** One iteration of the loop over the statistics; accumulates what was minted. *)
Definition reward_validator (current_block : Z) (s : RewardsStats)
    (dagProposersReward votesReward : Z) (minted : Z) (entry : address * ValidatorStats)
  : M W Z :=
  let '(val, stats) := entry in
  let validatorReward := validator_share s dagProposersReward votesReward stats in
  validator ← lift (GetValidator val);
  match validator with
  | None => mret minted
  | Some validator =>
      when ((0 <? DagBlocksCount stats) || (0 <? VoteWeight stats))
        (recover current_block val validator) ;;
      let validatorCommission := commission_of validatorReward (Commission validator) in
      let delegatorRewards := u256 (validatorReward - validatorCommission) in
      validatorCommission ← (match FeesRewards stats with
        | Some fees =>
            if 0 <? fees then
              AddBalance dpos_contract_address fees ;;
              mret (u256 (validatorCommission + u256 fees))
            else mret validatorCommission
        | None => mret validatorCommission
        end);
      lift (AddValidatorRewards val validatorCommission delegatorRewards) ;;
      mret (u256 (minted + validatorReward))
  end.

Definition epoch_boundary (fuel : nat) (current_block : Z) : M W unit :=
  when ((9999 <? current_block) && (current_block mod InactivityEpochBlocks =? 0))
    (last_processed ← lift getLastProcessedEpochBlock;
     when (last_processed <? current_block)
       (lift (setLastProcessedEpochBlock current_block) ;;
        applyInactivityPenalties fuel current_block)).

Definition DistributeRewards (fuel : nat) (current_block : Z) (s : RewardsStats) : M W Z :=
  lazy_init ;;
  blockReward ← processBlockReward current_block;
  let '(dagProposersReward, votesReward, blockAuthorReward) :=
    split_block_reward cfg s blockReward in
  author_minted ← reward_author (BlockAuthor s) blockAuthorReward;
  minted ← fold_m (reward_validator current_block s dagProposersReward votesReward)
    author_minted (ValidatorsStats s);
  AddBalance dpos_contract_address minted ;;
  f ← get_fields;
  supply ← deref (total_supply f);
  let supply := u256 (supply + minted) in
  modify_fields (set_total_supply supply) ;;
  lift (saveTotalSupplyDb supply) ;;
  epoch_boundary fuel current_block ;;
  mret minted.

(** ** Genesis *)
Definition make_context (caller : address) (value : Z) : CallFrame :=
  {| CallerAccount := caller; Account := dpos_contract_address; Value := value |}.
Definition no_error (what : string) (m : M W unit) : M W unit := λ w,
  match m w with (Err e, w') => (Panic (what ++ e)%string, w') | r => r end.
Definition apply_genesis_entry (g : GenesisValidator) : M W unit :=
  no_error "apply_genesis_entry: registrationError: "%string
    (registerValidatorWithoutChecks cfg (make_context (GV_Owner g) 0) 0
      {| R_Validator := GV_Address g; R_Proof := []; R_VrfKey := GV_VrfKey g;
         R_Commission := GV_Commission g; R_Description := GV_Description g;
         R_Endpoint := GV_Endpoint g |}) ;;
  for_each (GV_Delegations g) (λ d,
    Storage_SubBalance d.1 d.2 ;;
    AddBalance dpos_contract_address d.2 ;;
    no_error "apply_genesis_entry: delegationError: "%string
      (delegate cfg (make_context d.1 d.2) 0 (GV_Address g))).
Definition ApplyGenesis : M W unit :=
  lazy_init ;;
  for_each (InitialValidators cfg) apply_genesis_entry ;;
  _ ← processBlockReward 0;
  EndBlockCall.
End operations.

(** * The operations do not depend on the store *)
Section refine.
Context `{HS : DposSim S1 S2 R} (cfg : ChainConfig).
Abbreviation W := (world_rel R).
Abbreviation same x := (refines W x x) (only parsing).

Lemma lazy_init_ref : same (lazy_init cfg).
Proof. unfold lazy_init. refines_solve. Qed.
Lemma EndBlockCall_ref : same EndBlockCall.
Proof. unfold EndBlockCall. refines_solve. Qed.
#[local] Hint Resolve lazy_init_ref EndBlockCall_ref : refines.
Lemma processBlockReward_ref b : same (processBlockReward cfg b).
Proof. unfold processBlockReward. refines_solve. Qed.
Lemma undelegateInternal_ref b v d a : same (undelegateInternal b v d a).
Proof. unfold undelegateInternal. refines_solve. Qed.
Lemma ignore_error_ref {A} (m1 : M (World S1) A) m2 :
  refines W m1 m2 → refines W (ignore_error m1) (ignore_error m2).
Proof.
  intros Hm w1 w2 Hw. specialize (Hm w1 w2 Hw). unfold ignore_error.
  destruct (m2 w2) as [[] ?], (m1 w1) as [[] ?]; simpl in *; intros Ho;
    (destruct Hm as [? ?]; [done || (intros [= ->]; done)|]); simplify_eq; done.
Qed.
Lemma no_error_ref e (m1 : M (World S1) unit) m2 :
  refines W m1 m2 → refines W (no_error e m1) (no_error e m2).
Proof.
  intros Hm w1 w2 Hw. specialize (Hm w1 w2 Hw). unfold no_error.
  destruct (m2 w2) as [[] ?], (m1 w1) as [[] ?]; simpl in *; intros Ho;
    (destruct Hm as [? ?]; [done || (intros [= ->]; done)|]); simplify_eq; done.
Qed.
#[local] Hint Resolve processBlockReward_ref undelegateInternal_ref ignore_error_ref no_error_ref
  : refines.
Lemma zero_voting_power_ref v x f : same (zero_voting_power cfg v x f).
Proof. unfold zero_voting_power. refines_solve. Qed.
Lemma evict_delegator_ref b v p d : same (evict_delegator b v p d).
Proof. unfold evict_delegator. refines_solve. Qed.
#[local] Hint Resolve zero_voting_power_ref evict_delegator_ref : refines.
Lemma forceEvictValidator_ref v b n : same (forceEvictValidator cfg v b n).
Proof. unfold forceEvictValidator. refines_solve. Qed.
#[local] Hint Resolve forceEvictValidator_ref : refines.
Lemma ForEachValidator_ref {A} fuel batch (cb1 : A → address → M (World S1) A) cb2 a :
  (∀ a v, refines W (cb1 a v) (cb2 a v)) →
  refines W (ForEachValidator fuel batch cb1 a) (ForEachValidator fuel batch cb2 a).
Proof.
  intros Hcb. revert batch a. induction fuel as [|fuel IH]; intros batch a; simpl; [done|].
  refines_solve.
Qed.
Lemma resume_eviction_ref b n v : same (resume_eviction cfg b n v).
Proof. unfold resume_eviction. refines_solve. Qed.
Lemma penalize_ref b l v : same (penalize cfg b l v).
Proof. unfold penalize. refines_solve. Qed.
Lemma start_eviction_ref b n v : same (start_eviction cfg b n v).
Proof. unfold start_eviction. refines_solve. Qed.
#[local] Hint Resolve ForEachValidator_ref resume_eviction_ref penalize_ref start_eviction_ref : refines.
Lemma applyInactivityPenalties_ref fuel b : same (applyInactivityPenalties cfg fuel b).
Proof. unfold applyInactivityPenalties. refines_solve. Qed.
Lemma reward_author_ref a r : same (reward_author a r).
Proof. unfold reward_author. refines_solve. Qed.
Lemma recover_ref b v x : same (recover cfg b v x).
Proof. unfold recover. refines_solve. Qed.
#[local] Hint Resolve applyInactivityPenalties_ref reward_author_ref recover_ref : refines.
Lemma reward_validator_ref b s d v n e : same (reward_validator cfg b s d v n e).
Proof. unfold reward_validator. destruct e. refines_solve. Qed.
Lemma epoch_boundary_ref fuel b : same (epoch_boundary cfg fuel b).
Proof. unfold epoch_boundary. refines_solve. Qed.
#[local] Hint Resolve reward_validator_ref epoch_boundary_ref : refines.
Lemma DistributeRewards_ref fuel b s : same (DistributeRewards cfg fuel b s).
Proof. unfold DistributeRewards. refines_solve. Qed.
Lemma apply_genesis_entry_ref g : same (apply_genesis_entry cfg g).
Proof. unfold apply_genesis_entry. refines_solve. Qed.
#[local] Hint Resolve apply_genesis_entry_ref : refines.
Lemma ApplyGenesis_ref : same (ApplyGenesis cfg).
Proof. unfold ApplyGenesis. refines_solve. Qed.
End refine.
#[export] Hint Resolve lazy_init_ref EndBlockCall_ref processBlockReward_ref DistributeRewards_ref
  ApplyGenesis_ref : refines.
