(* ===== verification/DposQueries.v ===== *)
(** The read-only side of the DPoS contract: the batched getters of [dpos_contract.go] and the
    [Reader] of [reader.go] that consensus queries (with a delay) for votes and eligibility.
    Loops that end with the data have a fuel; [DposQueriesFacts] shows how much is enough. *)
From S2P Require Import Prelude Codec Rlp Storage DposData YieldCurve DposStore DposWorld.

Definition ClaimAllRewardsMaxCount : Z := 10.
Definition GetValidatorsMaxCount : Z := 20.
Definition GetDelegationsMaxCount : Z := 20.
Definition GetUndelegationsMaxCount : Z := 20.

(** [DposInterfaceValidatorBasicInfo] .. [DposInterfaceUndelegationData]. *)
Record ValidatorBasicInfo : Type := {
  BI_TotalStake : Z;
  BI_CommissionReward : Z;
  BI_Commission : Z;
  BI_LastCommissionChange : Z;
  BI_UndelegationsCount : Z;
  BI_Owner : address;
  BI_Description : bytes;
  BI_Endpoint : bytes
}.
Record ValidatorData : Type := { VD_Account : address; VD_Info : ValidatorBasicInfo }.
Record DelegationData : Type := { DD_Account : address; DD_Stake : Z; DD_Rewards : Z }.
Record UndelegationData : Type := {
  UD_Stake : Z;
  UD_Block : Z;
  UD_Validator : address;
  UD_ValidatorExists : bool;
  UD_UndelegationId : Z
}.

(** [batch_items_count]. *)
Definition batch_items_count (actual_count batch max_batch_items_count : Z) : Z :=
  if actual_count =? 0 then 1
  else
    let batch_shift_count := u64 (batch * max_batch_items_count) in
    if actual_count <=? batch_shift_count then 1
    else
      let items_to_be_returned_count := actual_count - batch_shift_count in
      if max_batch_items_count <? items_to_be_returned_count then max_batch_items_count
      else items_to_be_returned_count.

Section queries.
Context {St : Type} `{!DposStore St} (cfg : ChainConfig).

Definition basic_info (validator_address : address) (validator : Validator) : M St ValidatorBasicInfo :=
  validator_info ← GetValidatorInfo validator_address;
  validator_info ← (match validator_info with
    | Some i => mret i
    | None => go_panic "getValidators - unable to fetch validator info data"
    end);
  validator_rewards ← GetValidatorRewards validator_address;
  validator_rewards ← deref validator_rewards;
  owner ← GetValidatorOwner validator_address;
  mret {| BI_TotalStake := TotalStake validator;
          BI_CommissionReward := CommissionRewardsPool validator_rewards;
          BI_Commission := Commission validator;
          BI_LastCommissionChange := LastCommissionChange validator;
          BI_UndelegationsCount := UndelegationsCount validator;
          BI_Owner := owner; BI_Description := Description validator_info;
          BI_Endpoint := Endpoint validator_info |}.
Definition getValidator (validator : address) : M St ValidatorBasicInfo :=
  v ← GetValidator validator;
  v ← require v ErrNonExistentValidator;
  basic_info validator v.
Definition to_validator_data (validator_address : address) : M St ValidatorData :=
  validator ← GetValidator validator_address;
  validator ← (match validator with
    | Some v => mret v
    | None => go_panic "to_validator_data - unable to fetch validator data"
    end);
  info ← basic_info validator_address validator;
  mret {| VD_Account := validator_address; VD_Info := info |}.
Definition getValidators (batch : Z) : M St (list ValidatorData * bool) :=
  '(validators_addresses, end_) ← GetValidatorsAddresses batch GetValidatorsMaxCount;
  validators ← map_m validators_addresses (λ a, GetValidatorOwner a ;; to_validator_data a);
  mret (validators, end_).

(** The loop of [getValidatorsFor]: [skipped] validators of the owner passed over, [validators]
    collected; an owner's validator after the batch is full ends it. *)
Fixpoint validators_for (owner : address) (to_skip skipped : Z) (validators : list ValidatorData)
    (addresses : list address) : M St (list ValidatorData * bool) :=
  match addresses with
  | [] => mret (validators, true)
  | a :: addresses =>
      o ← GetValidatorOwner a;
      if negb (bool_decide (o = owner)) then validators_for owner to_skip skipped validators addresses
      else if skipped <? to_skip then
        validators_for owner to_skip (u32 (skipped + 1)) validators addresses
      else if negb (Z.of_nat (length validators) =? GetValidatorsMaxCount) then
        d ← to_validator_data a;
        validators_for owner to_skip skipped (validators ++ [d]) addresses
      else mret (validators, false)
  end.
Definition getValidatorsFor (owner : address) (batch : Z) : M St (list ValidatorData * bool) :=
  count ← GetValidatorsCount;
  '(addresses, _) ← GetValidatorsAddresses 0 count;
  validators_for owner (u32 (batch * GetValidatorsMaxCount)) 0 [] addresses.

Definition getTotalDelegation (delegator : address) : M St Z :=
  count ← GetDelegationsCount delegator;
  '(addresses, _) ← GetDelegatorValidatorsAddresses delegator 0 count;
  fold_m (λ total a,
    d ← GetDelegation delegator a;
    match d with
    | Some d => mret (total + Stake d)
    | None => go_panic "getTotalDelegation - unable to fetch delegation data"
    end) 0 addresses.

Definition delegation_data (delegator validator_address : address) : M St DelegationData :=
  delegation ← GetDelegation delegator validator_address;
  validator ← GetValidator validator_address;
  match delegation, validator with
  | Some delegation, Some validator =>
      validator_rewards ← GetValidatorRewards validator_address;
      state ← state_get validator_address (Validator_LastUpdated validator);
      old_state ← state_get validator_address (Delegation_LastUpdated delegation);
      match state, old_state with
      | Some state, Some old_state =>
          reward_per_stake ← (if 0 <? TotalStake validator then
              validator_rewards ← deref validator_rewards;
              r ← of_outcome (calculateRewardPer1Stake cfg (RewardsPool validator_rewards)
                    (TotalStake validator));
              mret (RewardsPer1Stake state + r - RewardsPer1Stake old_state)
            else mret 0);
          rewards ← of_outcome (calculateDelegatorReward cfg reward_per_stake (Stake delegation));
          mret {| DD_Account := validator_address; DD_Stake := Stake delegation;
                  DD_Rewards := rewards |}
      | _, _ => go_panic "getDelegations - unable to state data"
      end
  | _, _ => go_panic "getDelegations - unable to fetch delegation data"
  end.
Definition getDelegations (delegator : address) (batch : Z) : M St (list DelegationData * bool) :=
  '(addresses, end_) ← GetDelegatorValidatorsAddresses delegator batch GetDelegationsMaxCount;
  delegations ← map_m addresses (delegation_data delegator);
  mret (delegations, end_).

Definition getUndelegation (delegator validator : address) (undelegation_id : Z)
  : M St (option UndelegationData) :=
  undelegation ← GetUndelegation delegator validator undelegation_id;
  match undelegation with
  | None => mret None
  | Some u =>
      exists_ ← ValidatorExists validator;
      mret (Some {| UD_Stake := Amount u; UD_Block := Block u; UD_Validator := validator;
                    UD_ValidatorExists := exists_; UD_UndelegationId := Id u |})
  end.
(** The loop of [getUndelegations] over the validators undelegated from; a missing object is
    printed and passed over. *)
Fixpoint undelegations_loop (fuel : nat) (delegator : address) (validator_idx to_skip_count : Z)
    (undelegations : list UndelegationData) : M St (list UndelegationData * bool) :=
  match fuel with
  | O => go_panic "out of fuel"
  | S fuel =>
      '(validator, validators_end) ← GetUndelegationsValidator delegator validator_idx;
      match validator with
      | None => mret (undelegations, true)
      | Some validator =>
          undelegations_ids_count ← GetUndelegationIdsCount delegator validator;
          if undelegations_ids_count <=? to_skip_count then
            undelegations_loop fuel delegator (u32 (validator_idx + 1))
              (to_skip_count - undelegations_ids_count) undelegations
          else
            '(ids, ids_end) ← GetUndelegationIds delegator validator to_skip_count
              (u32 (GetUndelegationsMaxCount - Z.of_nat (length undelegations)));
            found ← map_m ids (getUndelegation delegator validator);
            let undelegations := undelegations ++ omap id found in
            if Z.of_nat (length undelegations) =? GetUndelegationsMaxCount then
              mret (undelegations, validators_end && ids_end)
            else undelegations_loop fuel delegator (u32 (validator_idx + 1)) 0 undelegations
      end
  end.
Definition getUndelegations (fuel : nat) (delegator : address) (batch : Z)
  : M St (list UndelegationData * bool) :=
  undelegations_loop fuel delegator 0 (u32 (batch * GetUndelegationsMaxCount)) [].

(** [getUndelegationsStorageReadsCount]: what [getUndelegations] is charged for. *)
Fixpoint storage_reads_loop (fuel : nat) (delegator : address) (max_batch_items_count : Z)
    (validator_idx to_skip_count reads processed : Z) : M St Z :=
  match fuel with
  | O => go_panic "out of fuel"
  | S fuel =>
      '(validator, _) ← GetUndelegationsValidator delegator validator_idx;
      match validator with
      | None => mret reads
      | Some validator =>
          count ← GetUndelegationIdsCount delegator validator;
          let reads := u64 (reads + 2) in
          if count <=? to_skip_count then
            storage_reads_loop fuel delegator max_batch_items_count (u32 (validator_idx + 1))
              (to_skip_count - count) reads processed
          else
            let to_be_processed := u64 (max_batch_items_count - processed) in
            let left := count - to_skip_count in
            let to_be_processed := if left <? to_be_processed then left else to_be_processed in
            let processed := u64 (processed + to_be_processed) in
            let reads := u64 (reads + 2 * to_be_processed) in
            if processed =? max_batch_items_count then mret reads
            else storage_reads_loop fuel delegator max_batch_items_count (u32 (validator_idx + 1))
                   0 reads processed
      end
  end.
Definition getUndelegationsStorageReadsCount (fuel : nat) (delegator : address) (batch : Z)
    (max_batch_items_count : Z) : M St Z :=
  storage_reads_loop fuel delegator max_batch_items_count 0
    (u64 (batch * max_batch_items_count)) 0 0.
End queries.

(** * [reader.go]
    A [Reader] is a store, of the current block or of an earlier one, with the configuration;
    [jailed] is what its slashing reader lists. *)
Module Reader.
Section reader.
Context {St : Type} `{!DposStore St} (cfg : ChainConfig).

(** [InitDelayedReader]: the block the delayed reader looks at. *)
Definition delayed_block (blk_n : Z) : Z :=
  if DelegationDelay (DPOS cfg) <? blk_n then blk_n - DelegationDelay (DPOS cfg) else 0.

Definition GetStakingBalance (addr : address) : M St Z :=
  v ← GetValidator addr;
  mret (match v with Some v => TotalStake v | None => 0 end).
Definition GetEligibleVoteCount (addr : address) : M St Z :=
  factor ← getVotingPowerFactor addr;
  stake ← GetStakingBalance addr;
  of_outcome (voteCountWithFactor cfg stake factor).
Definition TotalEligibleVoteCount (jailed : list address) : M St Z :=
  n ← read_eligible_vote_count;
  fold_m (λ ret addr, v ← GetEligibleVoteCount addr; mret (u64 (ret - v))) (default 0 n) jailed.
Definition TotalAmountDelegated : M St Z :=
  x ← read_amount_delegated; mret (default 0 x).
Definition IsEligible (addr : address) : M St bool :=
  factor ← getVotingPowerFactor addr;
  if factor =? 0 then mret false
  else
    stake ← GetStakingBalance addr;
    let effective := big_quot (stake * to_int64 factor) BasisPointsScale in
    mret (EligibilityBalanceThreshold (DPOS cfg) <=? effective).
Definition GetValidatorsTotalStakes : M St (list (address * Z)) :=
  count ← GetValidatorsCount;
  '(validators, _) ← GetValidatorsAddresses 0 count;
  map_m validators (λ a, s ← GetStakingBalance a; mret (a, s)).
Definition GetValidatorsVoteCounts : M St (list (address * Z)) :=
  count ← GetValidatorsCount;
  '(validators, _) ← GetValidatorsAddresses 0 count;
  map_m validators (λ a, n ← GetEligibleVoteCount a; mret (a, n)).
Definition GetYield : M St Z := y ← read_yield; mret (default 0 y).
Definition GetTotalSupply : M St Z := x ← read_total_supply; mret (default 0 x).
End reader.
End Reader.
