(* ===== verification/DposRun.v ===== *)
(** Calls of the DPoS contract: [Run] and [RequiredGas] of [dpos_contract.go] on decoded
    arguments (ABI decoding is third-party code), and the part of [EVM.call]
    ([core/vm/evm.go]) that runs a precompiled contract: depth and balance checks, the value
    transfer, the frame each kind of call builds, gas and the revert on error. *)
From S2P Require Import Prelude Codec Rlp Storage DposData YieldCurve DposStore DposWorld Dpos.
From S2P Require Import DposRewards DposQueries.

(** The methods of the contract's ABI with their decoded arguments, in the order of [Run]. *)
Inductive method : Type :=
| MDelegate (validator : address)
| MUndelegate (validator : address) (amount : Z)
| MConfirmUndelegate (validator : address) (undelegation_id : Z)
| MCancelUndelegate (validator : address) (undelegation_id : Z)
| MReDelegate (from to : address) (amount : Z)
| MClaimRewards (validator : address)
| MClaimAllRewards
| MClaimCommissionRewards (validator : address)
| MSetCommission (validator : address) (commission : Z)
| MRegisterValidator (args : RegisterValidatorArgs)
| MSetValidatorInfo (validator : address) (description endpoint : bytes)
| MIsValidatorEligible (validator : address)
| MGetTotalEligibleVotesCount
| MGetValidatorEligibleVotesCount (validator : address)
| MGetValidator (validator : address)
| MGetValidators (batch : Z)
| MGetValidatorsFor (owner : address) (batch : Z)
| MGetTotalDelegation (delegator : address)
| MGetDelegations (delegator : address) (batch : Z)
| MGetUndelegations (delegator : address) (batch : Z)
| MGetUndelegation (delegator validator : address) (undelegation_id : Z).
(** What [MethodById] and [Unpack] make of the input: fewer than four bytes, no method of this
    selector, the burn selector, a method whose arguments do not decode, or a call. *)
Inductive input : Type :=
| InShort
| InUnknown
| InBurn
| InBadArgs (payable : bool)
| InCall (m : method).
Inductive retval : Type :=
| RNone
| RId (id : Z)
| RBool (b : bool)
| RNum (n : Z)
| RValidator (v : ValidatorBasicInfo)
| RValidators (l : list ValidatorData) (end_ : bool)
| RDelegations (l : list DelegationData) (end_ : bool)
| RUndelegations (l : list UndelegationData) (end_ : bool)
| RUndelegation (u : UndelegationData).

Definition isPayableMethod (m : method) : bool :=
  match m with MRegisterValidator _ | MDelegate _ => true | _ => false end.
Definition input_payable (i : input) : bool :=
  match i with InCall m => isPayableMethod m | InBadArgs p => p | _ => false end.

(** The delayed reader: a store of an earlier block and the validators its slashing reader
    lists as jailed. *)
Record Delayed (St : Type) : Type := { dl_store : St; dl_jailed : list address }.
Arguments dl_store {_} _.
Arguments dl_jailed {_} _.

Section run.
Context {St : Type} `{!DposStore St} `{Keccak} `{EcrecoverFn} (cfg : ChainConfig)
  (delayed : Delayed St) (fuel : nat).
Abbreviation W := (World St).

(** A query of the delayed reader does not touch the current state. *)
Definition ask {A} (m : M St A) : M W A := λ w, ((m (dl_store delayed)).1, w).

Definition unit_ret (m : M W unit) : M W retval := m ;; mret RNone.
Definition dispatch (ctx : CallFrame) (block_num : Z) (m : method) : M W retval :=
  match m with
  | MDelegate v => unit_ret (delegate cfg ctx block_num v)
  | MUndelegate v amount => id ← undelegate cfg ctx block_num v amount; mret (RId id)
  | MConfirmUndelegate v id => unit_ret (confirmUndelegate ctx block_num v id)
  | MCancelUndelegate v id => unit_ret (cancelUndelegate cfg ctx block_num v id)
  | MReDelegate from to amount => unit_ret (redelegate cfg ctx block_num from to amount)
  | MClaimRewards v => unit_ret (claimRewards cfg ctx block_num v)
  | MClaimAllRewards => unit_ret (claimAllRewards cfg ctx block_num)
  | MClaimCommissionRewards v => unit_ret (claimCommissionRewards ctx block_num v)
  | MSetCommission v c => unit_ret (setCommission cfg ctx block_num v c)
  | MRegisterValidator args => unit_ret (registerValidator cfg ctx block_num args)
  | MSetValidatorInfo v d e => unit_ret (setValidatorInfo ctx v d e)
  | MIsValidatorEligible v => b ← ask (Reader.IsEligible cfg v); mret (RBool b)
  | MGetTotalEligibleVotesCount =>
      n ← ask (Reader.TotalEligibleVoteCount cfg (dl_jailed delayed)); mret (RNum n)
  | MGetValidatorEligibleVotesCount v =>
      n ← ask (Reader.GetEligibleVoteCount cfg v); mret (RNum n)
  | MGetValidator v => r ← lift (getValidator v); mret (RValidator r)
  | MGetValidators batch => '(l, e) ← lift (getValidators batch); mret (RValidators l e)
  | MGetValidatorsFor o batch => '(l, e) ← lift (getValidatorsFor o batch); mret (RValidators l e)
  | MGetTotalDelegation d => n ← lift (getTotalDelegation d); mret (RNum n)
  | MGetDelegations d batch => '(l, e) ← lift (getDelegations cfg d batch); mret (RDelegations l e)
  | MGetUndelegations d batch =>
      '(l, e) ← lift (getUndelegations fuel d batch); mret (RUndelegations l e)
  | MGetUndelegation d v id =>
      u ← lift (getUndelegation d v id);
      u ← require u ErrNonExistentUndelegation; mret (RUndelegation u)
  end.

Definition Run (ctx : CallFrame) (block_num : Z) (i : input) : M W retval :=
  match i with
  | InShort => throw "data too short for abi method lookup"
  | _ =>
      lazy_init cfg ;;
      match i with
      | InBurn => mret RNone
      | InShort | InUnknown => throw "no method with this id"
      | InBadArgs _ =>
          fail_if ((0 <? Value ctx) && negb (input_payable i)) ErrNonPayableMethod ;;
          throw "abi: cannot unpack the arguments"
      | InCall m =>
          fail_if ((0 <? Value ctx) && negb (input_payable i)) ErrNonPayableMethod ;;
          dispatch ctx block_num m
      end
  end.

(** ** Gas *)
Definition TransferIntoDPoSContractGas : Z := 1000.
Definition RegisterValidatorGas : Z := 80000.
Definition SetCommissionGas : Z := 20000.
Definition DelegateGas : Z := 40000.
Definition UndelegateGas : Z := 60000.
Definition ConfirmUndelegateGas : Z := 20000.
Definition CancelUndelegateGas : Z := 60000.
Definition ReDelegateGas : Z := 80000.
Definition ClaimRewardsGas : Z := 40000.
Definition ClaimCommissionRewardsGas : Z := 20000.
Definition SetValidatorInfoGas : Z := 20000.
Definition DposGetMethodsGas : Z := 5000.
Definition DposBatchGetMethodsGas : Z := 5000.
Definition DefaultDposMethodGas : Z := 20000.

Definition method_gas (ctx : CallFrame) (m : method) : M W Z :=
  match m with
  | MDelegate _ => mret DelegateGas
  | MUndelegate _ _ => mret UndelegateGas
  | MConfirmUndelegate _ _ => mret ConfirmUndelegateGas
  | MCancelUndelegate _ _ => mret CancelUndelegateGas
  | MReDelegate _ _ _ => mret ReDelegateGas
  | MClaimCommissionRewards _ => mret ClaimCommissionRewardsGas
  | MSetCommission _ _ => mret SetCommissionGas
  | MRegisterValidator _ => mret RegisterValidatorGas
  | MSetValidatorInfo _ _ _ => mret SetValidatorInfoGas
  | MIsValidatorEligible _ | MGetTotalEligibleVotesCount | MGetValidatorEligibleVotesCount _ =>
      mret DefaultDposMethodGas
  | MGetValidator _ => mret DposGetMethodsGas
  | MClaimRewards _ => mret ClaimRewardsGas
  | MClaimAllRewards =>
      n ← lift (GetDelegationsCount (CallerAccount ctx));
      mret (u64 (n * (DposBatchGetMethodsGas + ClaimRewardsGas)))
  | MGetValidators batch =>
      n ← lift GetValidatorsCount;
      mret (u64 (batch_items_count n batch GetValidatorsMaxCount * DposBatchGetMethodsGas))
  | MGetValidatorsFor _ _ => mret (GetValidatorsMaxCount * DposBatchGetMethodsGas)
  | MGetTotalDelegation d =>
      n ← lift (GetDelegationsCount d); mret (u64 (n * DposBatchGetMethodsGas))
  | MGetDelegations d batch =>
      n ← lift (GetDelegationsCount d);
      mret (u64 (batch_items_count n batch GetDelegationsMaxCount * DposBatchGetMethodsGas))
  | MGetUndelegations d batch =>
      n ← lift (getUndelegationsStorageReadsCount fuel d batch GetUndelegationsMaxCount);
      mret (u64 (n * DposBatchGetMethodsGas))
  | MGetUndelegation _ _ _ => mret DposGetMethodsGas
  end.
(** [gas_of_bad_args]: what a method whose arguments do not decode is charged, nothing for the
    batched getters, which decode them here, the method's own charge for the others. *)
Definition RequiredGas (ctx : CallFrame) (i : input) (gas_of_bad_args : Z) : M W Z :=
  match i with
  | InShort => mret 0
  | _ =>
      lazy_init cfg ;;
      match i with
      | InBurn => mret TransferIntoDPoSContractGas
      | InShort | InUnknown => mret 0
      | InBadArgs _ =>
          if (0 <? Value ctx) && negb (input_payable i) then mret 0 else mret gas_of_bad_args
      | InCall m =>
          if (0 <? Value ctx) && negb (input_payable i) then mret 0 else method_gas ctx m
      end
  end.

(** ** [EVM.call] of a precompiled contract *)
Inductive call_type : Type := CALL | CALLCODE | DELEGATECALL | STATICCALL.
Definition CallCreateDepth : Z := 1024.
Definition ErrDepth : string := "max call depth exceeded".
Definition ErrInsufficientBalanceForTransfer : string := "insufficient balance for transfer".
Definition ErrOutOfGas : string := "out of gas".
Definition zero_address : address := replicate 20 0.

(** The caller: its account and, when it is a contract, the frame it runs in. *)
Record caller_ref : Type := { cr_account : address; cr_parent : CallFrame }.

(** The balance of the zero address, the sender of system calls, may go below zero. *)
Definition transfer (from to : address) (amount : Z) : M W unit :=
  AddBalance from (- amount) ;; AddBalance to amount.

Definition call_frame (typ : call_type) (caller : caller_ref) (callee : address) (value : Z)
  : CallFrame :=
  match typ with
  | CALL | STATICCALL =>
      {| CallerAccount := cr_account caller; Account := callee; Value := value |}
  | CALLCODE =>
      {| CallerAccount := cr_account caller; Account := cr_account caller; Value := value |}
  | DELEGATECALL =>
      {| CallerAccount := CallerAccount (cr_parent caller); Account := cr_account caller;
         Value := Value (cr_parent caller) |}
  end.

(** [RevertToSnapshot]: balances and logs return to the snapshot; the contract storage, which
    the contract writes irreversibly, and its in-memory fields do not. *)
Definition revert_to (w0 : W) : M W unit := λ w,
  (Ret tt, {| w_store := w_store w; w_balances := w_balances w0; w_logs := w_logs w0;
              w_fields := w_fields w |}).

(** A call returns the data, the gas left and an error. *)
Definition call_result : Type := retval * Z * option string.
(** The contract runs when the gas is enough; its error reverts to [w0] and keeps the gas. *)
Definition run_precompiled (w0 : W) (frame : CallFrame) (block_num : Z) (i : input)
    (gas gas_required : Z) : M W call_result :=
  if gas_required <=? gas then λ w1,
    match Run frame block_num i w1 with
    | (Ret r, w2) => (Ret (r, gas - gas_required, None), w2)
    | (Err e, w2) => (revert_to w0 ;; mret (RNone, gas - gas_required, Some e)) w2
    | (Panic p, w2) => (Panic p, w2)
    end
  else revert_to w0 ;; mret (RNone, gas, Some ErrOutOfGas).
Definition sends_value (typ : call_type) : bool :=
  match typ with CALL | CALLCODE => true | _ => false end.
Definition evm_call (typ : call_type) (caller : caller_ref) (i : input)
    (gas_of_bad_args gas value depth block_num : Z) : M W call_result := λ w,
  let callee := dpos_contract_address in
  if CallCreateDepth <? depth then (Ret (RNone, gas, Some ErrDepth), w)
  else if sends_value typ && negb (bool_decide (cr_account caller = zero_address)) &&
          (default 0 (w_balances w !! cr_account caller) <? value)
  then (Ret (RNone, gas, Some ErrInsufficientBalanceForTransfer), w)
  else
    let frame := call_frame typ caller callee value in
    (when (match typ with CALL => true | _ => false end)
       (transfer (cr_account caller) callee value) ;;
     gas_required ← RequiredGas frame i gas_of_bad_args;
     run_precompiled w frame block_num i gas gas_required) w.
End run.

(** ** Histories
    What happens to the contract from genesis on: calls, the distribution of the rewards of a
    block and the end of a block. *)
Inductive event : Type :=
| EGenesis
| ECall (typ : call_type) (caller : caller_ref) (i : input)
    (gas_of_bad_args gas value depth block_num : Z)
| EDistribute (block_num : Z) (stats : RewardsStats)
| EEndBlock.
Inductive event_result : Type :=
| ResUnit
| ResCall (r : call_result)
| ResMinted (n : Z).

Section history.
Context {St : Type} `{!DposStore St} `{Keccak} `{EcrecoverFn} (cfg : ChainConfig)
  (delayed : Delayed St) (fuel : nat).

Definition event_step (e : event) : M (World St) event_result :=
  match e with
  | EGenesis => ApplyGenesis cfg ;; mret ResUnit
  | ECall typ caller i bad gas value depth block_num =>
      r ← evm_call cfg delayed fuel typ caller i bad gas value depth block_num; mret (ResCall r)
  | EDistribute block_num stats => n ← DistributeRewards cfg fuel block_num stats; mret (ResMinted n)
  | EEndBlock => EndBlockCall ;; mret ResUnit
  end.
Definition history (l : list event) : M (World St) (list event_result) := map_m l event_step.
End history.

(** * Calls do not depend on the store *)
Section refine.
Context `{HS : DposSim S1 S2 R} `{Keccak} `{EcrecoverFn} (cfg : ChainConfig) (fuel : nat).
Context (delayed1 : Delayed S1) (delayed2 : Delayed S2).
Abbreviation W := (world_rel R).
Abbreviation same x := (refines R x x) (only parsing).

Lemma validators_for_ref o k n l a : same (validators_for o k n l a).
Proof. revert n l. induction a as [|x a IH]; intros n l; simpl; unfold to_validator_data, basic_info; refines_solve. Qed.
Lemma basic_info_ref a v : same (basic_info a v).
Proof. unfold basic_info. refines_solve. Qed.
#[local] Hint Resolve validators_for_ref basic_info_ref : refines.
Lemma getValidator_ref v : same (getValidator v).
Proof. unfold getValidator, require. refines_solve. Qed.
Lemma getValidators_ref b : same (getValidators b).
Proof. unfold getValidators, to_validator_data. refines_solve. Qed.
Lemma getValidatorsFor_ref o b : same (getValidatorsFor o b).
Proof. unfold getValidatorsFor. refines_solve. Qed.
Lemma getTotalDelegation_ref d : same (getTotalDelegation d).
Proof. unfold getTotalDelegation. refines_solve. Qed.
Lemma getDelegations_ref d b : same (getDelegations cfg d b).
Proof. unfold getDelegations, delegation_data. refines_solve. Qed.
Lemma getUndelegation_ref d v i : same (getUndelegation d v i).
Proof. unfold getUndelegation. refines_solve. Qed.
#[local] Hint Resolve getUndelegation_ref : refines.
Lemma undelegations_loop_ref d i k l : same (undelegations_loop fuel d i k l).
Proof. revert i k l. induction fuel as [|n IH]; intros i k l; simpl; refines_solve. Qed.
Lemma getUndelegations_ref d b : same (getUndelegations fuel d b).
Proof. apply undelegations_loop_ref. Qed.
Lemma storage_reads_loop_ref d n i k r p : same (storage_reads_loop fuel d n i k r p).
Proof. revert i k r p. induction fuel as [|x IH]; intros i k r p; simpl; refines_solve. Qed.
Lemma getUndelegationsStorageReadsCount_ref d b n :
  same (getUndelegationsStorageReadsCount fuel d b n).
Proof. apply storage_reads_loop_ref. Qed.
Lemma IsEligible_ref v : same (Reader.IsEligible cfg v).
Proof. unfold Reader.IsEligible, Reader.GetStakingBalance. refines_solve. Qed.
Lemma GetEligibleVoteCount_ref v : same (Reader.GetEligibleVoteCount cfg v).
Proof. unfold Reader.GetEligibleVoteCount, Reader.GetStakingBalance. refines_solve. Qed.
#[local] Hint Resolve GetEligibleVoteCount_ref : refines.
Lemma TotalEligibleVoteCount_ref l : same (Reader.TotalEligibleVoteCount cfg l).
Proof. unfold Reader.TotalEligibleVoteCount. refines_solve. Qed.
#[local] Hint Resolve getValidator_ref getValidators_ref getValidatorsFor_ref
  getTotalDelegation_ref getDelegations_ref getUndelegations_ref IsEligible_ref
  getUndelegationsStorageReadsCount_ref TotalEligibleVoteCount_ref : refines.

Hypothesis delayed_related : R (dl_store delayed1) (dl_store delayed2) ∧
  dl_jailed delayed1 = dl_jailed delayed2.

Lemma ask_ref {A} (m1 : M S1 A) m2 :
  refines R m1 m2 → refines W (ask delayed1 m1) (ask delayed2 m2).
Proof.
  intros Hm w1 w2 Hw Ho. destruct (Hm _ _ (proj1 delayed_related) Ho) as [E _]. done.
Qed.
#[local] Hint Resolve ask_ref : refines.
Lemma dispatch_ref ctx b m :
  refines W (dispatch cfg delayed1 fuel ctx b m) (dispatch cfg delayed2 fuel ctx b m).
Proof.
  unfold dispatch, unit_ret. rewrite (proj2 delayed_related). destruct m; refines_solve.
Qed.
#[local] Hint Resolve dispatch_ref : refines.
Lemma Run_ref ctx b i : refines W (Run cfg delayed1 fuel ctx b i) (Run cfg delayed2 fuel ctx b i).
Proof. unfold Run. destruct i; refines_solve. Qed.
Lemma RequiredGas_ref ctx i g :
  refines W (RequiredGas cfg fuel ctx i g) (RequiredGas cfg fuel ctx i g).
Proof. unfold RequiredGas, method_gas. destruct i; refines_solve. Qed.
Lemma revert_to_ref w1 w2 : W w1 w2 → refines W (revert_to w1) (revert_to w2).
Proof. intros (_ & Hb & Hl & _) x1 x2 (? & _ & _ & ?) _. by split_and!. Qed.
Lemma transfer_ref a b x : refines W (transfer a b x) (transfer a b x).
Proof. unfold transfer. refines_solve. Qed.
#[local] Hint Resolve RequiredGas_ref revert_to_ref transfer_ref : refines.
Lemma run_precompiled_ref w1 w2 ctx b i g r :
  W w1 w2 → refines W (run_precompiled cfg delayed1 fuel w1 ctx b i g r)
              (run_precompiled cfg delayed2 fuel w2 ctx b i g r).
Proof.
  intros Hw. unfold run_precompiled. destruct (r <=? g); [|refines_solve].
  intros x1 x2 Hx Ho. pose proof (Run_ref ctx b i x1 x2 Hx) as HR.
  destruct (Run cfg delayed2 fuel ctx b i x2) as [[a|e|p] y2],
    (Run cfg delayed1 fuel ctx b i x1) as [o1 y1]; simpl in *.
  - destruct HR as [-> ?]; done.
  - destruct HR as [-> Hy]; [done|]. destruct Hy as (? & _ & _ & ?), Hw as (_ & ? & ? & _).
    split; [done|]. by split_and!.
  - destruct HR as [-> ?]; [|done]. intros [= ->]. done.
Qed.
#[local] Hint Resolve run_precompiled_ref : refines.
Lemma evm_call_ref typ caller i bad g v d b :
  refines W (evm_call cfg delayed1 fuel typ caller i bad g v d b)
    (evm_call cfg delayed2 fuel typ caller i bad g v d b).
Proof.
  intros w1 w2 Hw Ho. unfold evm_call in *. rewrite (proj1 (proj2 Hw)).
  destruct (CallCreateDepth <? d); [done|].
  destruct (_ && _ && _); [done|].
  assert (refines W
    (when (match typ with CALL => true | _ => false end)
      (transfer (cr_account caller) dpos_contract_address v) ;;
     r ← RequiredGas cfg fuel (call_frame typ caller dpos_contract_address v) i bad;
     run_precompiled cfg delayed1 fuel w1 (call_frame typ caller dpos_contract_address v) b i g r)
    (when (match typ with CALL => true | _ => false end)
      (transfer (cr_account caller) dpos_contract_address v) ;;
     r ← RequiredGas cfg fuel (call_frame typ caller dpos_contract_address v) i bad;
     run_precompiled cfg delayed2 fuel w2 (call_frame typ caller dpos_contract_address v) b i g r))
    as HR by refines_solve.
  by apply HR.
Qed.
#[local] Hint Resolve evm_call_ref : refines.
Lemma event_step_ref e : refines W (event_step cfg delayed1 fuel e) (event_step cfg delayed2 fuel e).
Proof. unfold event_step. destruct e; refines_solve. Qed.
Lemma history_ref l : refines W (history cfg delayed1 fuel l) (history cfg delayed2 fuel l).
Proof. apply refines_map_m. intros. apply event_step_ref. Qed.
End refine.
