(* ===== verification/DposFrame.v ===== *)
(** What the methods of the contract do not touch.  An observation of the world that the
    elementary steps leave alone, [Frame], is left alone by every method and by the consensus
    operations that have no business with it. *)
From S2P Require Import Prelude Codec Rlp Storage DposData YieldCurve DposStore DposWorld Dpos.
From S2P Require Import DposRewards DposQueries DposRun.

(** [abs] sees neither the contract storage, nor the logs, nor the votes and the amount
    delegated, nor a transfer between accounts. *)
Class Frame {St V : Type} `{!DposStore St} (abs : World St → V) : Prop := {
  frame_lift {A} (m : M St A) : read_only abs (lift m);
  frame_AddLog l : read_only abs (AddLog l);
  frame_votes n : read_only abs (modify_fields (set_eligible_vote_count n));
  frame_add_amount_delegated x : read_only abs (add_amount_delegated x);
  frame_sub_amount_delegated x : read_only abs (sub_amount_delegated x);
  frame_pay ctx x : read_only abs (transferContractBalance ctx x)
}.

Section frame.
Context {St V : Type} `{!DposStore St} (cfg : ChainConfig) (abs : World St → V) `{!Frame abs}.
Abbreviation W := (World St).

Lemma frame_get_fields : read_only abs get_fields.
Proof. done. Qed.
Lemma frame_require {A} (o : option A) e : read_only abs (require o e).
Proof. by destruct o. Qed.
Lemma frame_non_nil {A} (o : option A) : read_only abs (non_nil o).
Proof. by destruct o. Qed.
#[local] Hint Resolve frame_lift frame_AddLog frame_votes frame_add_amount_delegated
  frame_sub_amount_delegated frame_pay frame_get_fields frame_require frame_non_nil : effects.

(** ** Methods *)
Lemma frame_current_state v b x r :
  read_only abs (current_state cfg v b x r : M W _).
Proof. unfold current_state, new_state. ro_solve. Qed.
Lemma frame_claim_delegation ctx v s d :
  read_only abs (claim_delegation cfg ctx v s d : M W unit).
Proof. unfold claim_delegation. ro_solve. Qed.
#[local] Hint Resolve frame_current_state frame_claim_delegation : effects.
Lemma frame_change_votes p s f : read_only abs (change_votes cfg p s f : M W unit).
Proof. unfold change_votes, update_eligible_vote_count. ro_solve. Qed.
#[local] Hint Resolve frame_change_votes : effects.
Lemma frame_modify_validator v x r : read_only abs (modify_validator v x r : M W unit).
Proof. unfold modify_validator. ro_solve. Qed.
Lemma frame_delete_validator v : read_only abs (delete_validator v : M W unit).
Proof. unfold delete_validator. ro_solve. Qed.
Lemma frame_shrink_delegation d v b s x n :
  read_only abs (shrink_delegation d v b s x n : M W State).
Proof. unfold shrink_delegation. ro_solve. Qed.
Lemma frame_put_counted_state v b s : read_only abs (put_counted_state v b s : M W unit).
Proof. unfold put_counted_state. ro_solve. Qed.
#[local] Hint Resolve frame_modify_validator frame_delete_validator
  frame_shrink_delegation frame_put_counted_state : effects.
Lemma frame_delegate ctx b v : read_only abs (delegate cfg ctx b v : M W unit).
Proof. unfold delegate, delegate_update_values. ro_solve. Qed.
Lemma frame_undelegate ctx b v x : read_only abs (undelegate cfg ctx b v x : M W Z).
Proof. unfold undelegate, check_amount. ro_solve. Qed.
Lemma frame_confirmUndelegate ctx b v i :
  read_only abs (confirmUndelegate ctx b v i : M W unit).
Proof. unfold confirmUndelegate. ro_solve. Qed.
Lemma frame_cancelUndelegate ctx b v i :
  read_only abs (cancelUndelegate cfg ctx b v i : M W unit).
Proof. unfold cancelUndelegate. ro_solve. Qed.
Lemma frame_redelegate ctx b v u x :
  read_only abs (redelegate cfg ctx b v u x : M W unit).
Proof. unfold redelegate, redelegate_from, redelegate_to, check_amount. ro_solve. Qed.
Lemma frame_claimRewards ctx b v : read_only abs (claimRewards cfg ctx b v : M W unit).
Proof. unfold claimRewards, new_state. ro_solve. Qed.
Lemma frame_claimAllRewards ctx b : read_only abs (claimAllRewards cfg ctx b : M W unit).
Proof.
  unfold claimAllRewards. apply read_only_bind; [apply frame_lift|]. intros l.
  induction l as [|v l IH]; [done|]. simpl. apply read_only_bind; [|done]. intros w.
  pose proof (frame_claimRewards ctx b v w) as E. unfold wrap_error.
  by destruct (claimRewards cfg ctx b v w) as [[] ?].
Qed.
Lemma frame_claimCommissionRewards ctx b v :
  read_only abs (claimCommissionRewards ctx b v : M W unit).
Proof. unfold claimCommissionRewards. ro_solve. Qed.
Lemma frame_setValidatorInfo ctx v d e :
  read_only abs (setValidatorInfo ctx v d e : M W unit).
Proof. unfold setValidatorInfo. ro_solve. Qed.
Lemma frame_setCommission ctx b v c :
  read_only abs (setCommission cfg ctx b v c : M W unit).
Proof. unfold setCommission. ro_solve. Qed.
Lemma frame_registerValidatorWithoutChecks ctx b a :
  read_only abs (registerValidatorWithoutChecks cfg ctx b a : M W unit).
Proof. unfold registerValidatorWithoutChecks, delegate_update_values. ro_solve. Qed.

(** ** Consensus operations *)
Lemma frame_recover b v x : read_only abs (recover cfg b v x : M W unit).
Proof. unfold recover. ro_solve. Qed.
#[local] Hint Resolve frame_recover : effects.
Lemma frame_ignore_error {A} (m : M W A) : read_only abs m → read_only abs (ignore_error m).
Proof. intros Hm w. specialize (Hm w). unfold ignore_error. by destruct (m w) as [[] ?]. Qed.
#[local] Hint Resolve frame_ignore_error : effects.
Lemma frame_undelegateInternal b v d x : read_only abs (undelegateInternal b v d x : M W Z).
Proof. unfold undelegateInternal. ro_solve. Qed.
#[local] Hint Resolve frame_undelegateInternal : effects.
Lemma frame_zero_voting_power v x f :
  read_only abs (zero_voting_power cfg v x f : M W unit).
Proof. unfold zero_voting_power. ro_solve. Qed.
#[local] Hint Resolve frame_zero_voting_power : effects.
Lemma frame_forceEvictValidator v b n :
  read_only abs (forceEvictValidator cfg v b n : M W Z).
Proof. unfold forceEvictValidator, evict_delegator. ro_solve. Qed.
#[local] Hint Resolve frame_forceEvictValidator : effects.
Lemma frame_ForEachValidator {A} fuel n (cb : A → address → M W A) a :
  (∀ a v, read_only abs (cb a v)) → read_only abs (ForEachValidator fuel n cb a).
Proof. intros Hcb. revert n a. induction fuel; intros n a; simpl; ro_solve. Qed.
Lemma frame_epoch_boundary fuel b : read_only abs (epoch_boundary cfg fuel b : M W unit).
Proof.
  unfold epoch_boundary, applyInactivityPenalties, resume_eviction, penalize, start_eviction.
  ro_solve; apply frame_ForEachValidator; ro_solve.
Qed.
#[local] Hint Resolve frame_epoch_boundary : effects.

Lemma frame_reward_author a x : read_only abs (reward_author a x : M W Z).
Proof. unfold reward_author. ro_solve. Qed.

(** ** Calls *)
Context `{Keccak} `{EcrecoverFn} (delayed : Delayed St) (fuel : nat).
Lemma frame_ask {A} (m : M St A) : read_only abs (ask delayed m).
Proof. done. Qed.
#[local] Hint Resolve frame_ask frame_delegate frame_undelegate frame_confirmUndelegate
  frame_cancelUndelegate frame_redelegate frame_claimRewards frame_claimAllRewards
  frame_claimCommissionRewards frame_setValidatorInfo frame_setCommission
  frame_registerValidatorWithoutChecks : effects.
Lemma frame_dispatch ctx b m : read_only abs (dispatch cfg delayed fuel ctx b m).
Proof. destruct m; simpl; unfold unit_ret, registerValidator; ro_solve. Qed.
#[local] Hint Resolve frame_dispatch : effects.
(** The start of the contract may change what [abs] sees. *)
Lemma frame_Run ctx b i :
  read_only abs (lazy_init cfg) → read_only abs (Run cfg delayed fuel ctx b i).
Proof. intros Hl. unfold Run. destruct i; ro_solve. Qed.
Lemma frame_RequiredGas ctx i g :
  read_only abs (lazy_init cfg) → read_only abs (RequiredGas cfg fuel ctx i g : M W Z).
Proof. intros Hl. unfold RequiredGas, method_gas. destruct i; ro_solve. Qed.
End frame.
#[export] Hint Resolve frame_lift frame_AddLog frame_votes frame_add_amount_delegated
  frame_sub_amount_delegated frame_pay frame_get_fields frame_require frame_non_nil
  frame_change_votes frame_recover frame_forceEvictValidator frame_epoch_boundary
  frame_reward_author frame_delegate frame_registerValidatorWithoutChecks : effects.
#[export] Hint Extern 0 (Frame _) => typeclasses eauto : effects.
