(* ===== verification/DposFunds.v ===== *)
(** Where the balances go: the methods of the contract move funds between accounts and create
    none; a distribution creates what it mints and credits the fees it was told of. *)
From S2P Require Import Prelude Codec Rlp Storage DposData YieldCurve DposStore DposWorld Dpos.
From S2P Require Import DposRewards DposQueries DposRun DposFrame.

Section funds.
Context {St : Type} `{!DposStore St} (cfg : ChainConfig).
Abbreviation W := (World St).

(** The sum of all balances. *)
Definition funds (w : W) : Z := sum_map (λ _ b, b) (w_balances w).

Lemma funds_AddBalance a x w : funds (AddBalance a x w).2 = funds w + x.
Proof.
  unfold funds, AddBalance. destruct (Z.eqb_spec x 0) as [->|Hx]; simpl; [lia|].
  rewrite sum_map_set. destruct (w_balances w !! a); simpl; lia.
Qed.
(** A transfer between two accounts, which may be the same one. *)
Lemma keeps_funds_transfer a b x : read_only funds (transfer a b x : M W unit).
Proof.
  intros w. unfold transfer. pose proof (funds_AddBalance a (- x) w) as E1.
  unfold mbind, M_bind. destruct (AddBalance a (- x) w) as [o w1] eqn:E.
  unfold AddBalance in E. injection E as <- E. simpl in E1. rewrite funds_AddBalance. lia.
Qed.
#[export] Instance funds_frame : Frame funds.
Proof.
  split; try done.
  - intros A m w. unfold lift. by destruct (m (w_store w)).
  - intros ctx x. apply read_only_bind; [done|intros bal].
    apply read_only_bind; [apply read_only_panic_if|intros _].
    exact (keeps_funds_transfer (Account ctx) (CallerAccount ctx) x).
Qed.
Lemma keeps_funds_modify_fields f : read_only funds (modify_fields f : M W unit).
Proof. done. Qed.
#[local] Hint Resolve keeps_funds_transfer keeps_funds_modify_fields : effects.
Lemma keeps_funds_lazy_init : read_only funds (lazy_init cfg : M W unit).
Proof. unfold lazy_init. ro_solve. Qed.
#[local] Hint Resolve keeps_funds_lazy_init : effects.

(** ** Distribution *)
(** The fees a statistics entry carries. *)
Definition entry_fees (e : address * ValidatorStats) : Z :=
  match FeesRewards e.2 with Some fees => if 0 <? fees then fees else 0 | None => 0 end.
Definition total_fees (l : list (address * ValidatorStats)) : Z := foldr (λ e n, entry_fees e + n) 0 l.
Lemma entry_fees_nonneg e : 0 <= entry_fees e.
Proof. unfold entry_fees. destruct (FeesRewards e.2) as [f|]; [|done]. destruct (Z.ltb_spec 0 f); lia. Qed.
Lemma total_fees_nonneg l : 0 <= total_fees l.
Proof. induction l as [|e l IH]; simpl; [done|]. pose proof (entry_fees_nonneg e). lia. Qed.
(** [m] adds an amount that [P] allows to the balances. *)
Definition adds {A} (m : M W A) (P : A → Z → Prop) : Prop :=
  ∀ w a w', m w = (Ret a, w') → ∃ k, P a k ∧ funds w' = funds w + k.
Lemma adds_ro {A} (m : M W A) (P : A → Z → Prop) :
  read_only funds m → (∀ a, P a 0) → adds m P.
Proof.
  intros Hm HP w a w' E. exists 0. split; [done|]. pose proof (Hm w) as Hw. rewrite E in Hw.
  simpl in Hw. lia.
Qed.
Lemma adds_bind {A B} (m : M W A) (k : A → M W B) (P : A → Z → Prop) (Q : B → Z → Prop) :
  adds m P → (∀ a x, P a x → adds (k a) (λ b y, Q b (x + y))) → adds (m ≫= k) Q.
Proof.
  intros Hm Hk w b w' (a & w1 & E1 & E2)%bind_ret_inv.
  destruct (Hm _ _ _ E1) as (x & HP & Hx). destruct (Hk a x HP _ _ _ E2) as (y & HQ & Hy).
  exists (x + y). split; [done|lia].
Qed.
Lemma adds_ro_bind {A B} (m : M W A) (k : A → M W B) (Q : B → Z → Prop) :
  read_only funds m → (∀ a, adds (k a) Q) → adds (m ≫= k) Q.
Proof.
  intros Hm Hk. apply adds_bind with (P := λ _ x, x = 0); [by apply adds_ro|]. intros a x ->.
  apply Hk.
Qed.
Lemma adds_ret {A} (a : A) (P : A → Z → Prop) : P a 0 → adds (mret a) P.
Proof. intros HP w a' w' [= <- <-]. exists 0. split; [done|lia]. Qed.
Lemma adds_AddBalance a x (P : unit → Z → Prop) : P tt x → adds (AddBalance a x) P.
Proof.
  intros HP w u w' E. destruct u. exists x. split; [done|].
  pose proof (funds_AddBalance a x w) as Hw. by rewrite E in Hw.
Qed.
Lemma adds_reward_validator b s dag vr m e :
  adds (reward_validator cfg b s dag vr m e) (λ _ k, 0 <= k <= entry_fees e).
Proof.
  destruct e as [v st]. unfold reward_validator, entry_fees. simpl.
  apply adds_ro_bind; [eauto 3 with effects|]. intros [x|].
  2: { apply adds_ro; [done|]. intros _. destruct (FeesRewards st) as [f|]; [|done].
       destruct (Z.ltb_spec 0 f); lia. }
  apply adds_ro_bind; [apply read_only_when; eauto 3 with effects|intros _].
  apply adds_bind with
    (P := λ _ k, k = match FeesRewards st with Some f => if 0 <? f then f else 0 | None => 0 end).
  - destruct (FeesRewards st) as [f|]; [|by apply adds_ro]. destruct (0 <? f); [|by apply adds_ro].
    eapply adds_bind; [by apply adds_AddBalance with (P := λ _ k, k = f)|].
    intros _ k ->. apply adds_ro; [done|]. intros _. lia.
  - intros c k ->. apply adds_ro; [ro_solve|]. intros _.
    destruct (FeesRewards st) as [f|]; [|lia]. destruct (Z.ltb_spec 0 f); lia.
Qed.
Lemma adds_fold_reward b s dag vr l m :
  adds (fold_m (reward_validator cfg b s dag vr) m l) (λ _ k, 0 <= k <= total_fees l).
Proof.
  revert m. induction l as [|e l IH]; intros m; simpl; [by apply adds_ro|].
  eapply adds_bind; [apply adds_reward_validator|]. intros m' x Hx w a w' E.
  destruct (IH _ _ _ _ E) as (y & Hy & Hw). exists y. split; [simpl in *; lia|done].
Qed.
Lemma keeps_funds_processBlockReward b : read_only funds (processBlockReward cfg b : M W Z).
Proof. unfold processBlockReward. ro_solve. Qed.
#[local] Hint Resolve keeps_funds_processBlockReward : effects.
(** The distribution of a block's rewards creates what it reports as minted and at most the
    fees it was told of, and nothing else: penalties and forced evictions move no funds. *)
Theorem distribution_creates_minted fuel b s w minted w' :
  DistributeRewards cfg fuel b s w = (Ret minted, w') →
  ∃ fees, 0 <= fees <= total_fees (ValidatorsStats s) ∧ funds w' = funds w + minted + fees.
Proof.
  intros E.
  assert (adds (DistributeRewards cfg fuel b s)
    (λ minted k, 0 <= k - minted <= total_fees (ValidatorsStats s))) as Ha.
  2: { destruct (Ha _ _ _ E) as (k & Hk & Hw). exists (k - minted). split; [done|lia]. }
  unfold DistributeRewards. apply adds_ro_bind; [auto with effects|intros _].
  apply adds_ro_bind; [auto with effects|intros r].
  destruct (split_block_reward cfg s r) as [[dag vr] bonus].
  apply adds_ro_bind; [unfold reward_author; ro_solve|intros am].
  eapply adds_bind; [apply adds_fold_reward|]. intros m x Hx.
  eapply adds_bind; [by apply adds_AddBalance with (P := λ _ k, k = m)|]. intros _ y ->.
  repeat (apply adds_ro_bind; [solve [ro_solve]|intros ?]). apply adds_ret.
  simpl in Hx. lia.
Qed.

Context `{Keccak} `{EcrecoverFn} (delayed : Delayed St) (fuel : nat).
Lemma run_precompiled_funds w0 frame b i gas need w :
  funds w = funds w0 →
  funds (run_precompiled cfg delayed fuel w0 frame b i gas need w).2 = funds w0.
Proof.
  intros Hw. unfold run_precompiled. destruct (need <=? gas); [|done].
  pose proof (frame_Run cfg funds delayed fuel frame b i keeps_funds_lazy_init w) as E.
  destruct (Run cfg delayed fuel frame b i w) as [[r|e|p] w1]; simpl in *; [congruence|done|congruence].
Qed.

(** C26: A call of the contract, of any kind, with any input, gas and value, successful or not,
    leaves the sum of all balances as it is. *)
Theorem call_moves_funds typ caller i bad gas value depth b w :
  funds (evm_call cfg delayed fuel typ caller i bad gas value depth b w).2 = funds w.
Proof.
  unfold evm_call. destruct (CallCreateDepth <? depth); [done|].
  destruct (_ && _ && _); [done|]. unfold mbind, M_bind.
  match goal with |- context [when ?c ?m w] =>
    assert (funds (when c m w).2 = funds w) as E1 by (apply read_only_when; auto with effects);
    destruct (when c m w) as [[[]|e|p] w1]; simpl in E1; [|done|done] end.
  match goal with |- context [RequiredGas cfg fuel ?f i bad w1] =>
    pose proof (frame_RequiredGas cfg funds delayed fuel f i bad keeps_funds_lazy_init w1) as E2;
    destruct (RequiredGas cfg fuel f i bad w1) as [[need|e|p] w2]; simpl in E2 end.
  - apply run_precompiled_funds. congruence.
  - simpl. congruence.
  - simpl. congruence.
Qed.
End funds.
