(* ===== verification/DposSupply.v ===== *)
(** The supply cap and the shares of a block reward: what a distribution mints never exceeds the
    block reward, which never exceeds what is left to the maximal supply; and the rewards the
    delegators of a validator can claim never exceed the pool they share. *)
From S2P Require Import Prelude Codec Rlp Storage DposData YieldCurve DposStore DposWorld Dpos.
From S2P Require Import DposRewards DposQueries DposRun DposFrame.

(** * Shares *)
Section shares.
Context (cfg : ChainConfig) (s : RewardsStats).

(** Percentages that add up to at most 100, and a supply far below 2^256. *)
Record reward_config : Prop := {
  rc_dag : 0 <= DagProposersReward (DPOS cfg);
  rc_author : 0 <= MaxBlockAuthorReward (DPOS cfg);
  rc_sum : DagProposersReward (DPOS cfg) + MaxBlockAuthorReward (DPOS cfg) <= 100;
  rc_supply : 0 <= MaxSupply cfg < 2 ^ 180
}.
(** The statistics of a block: the entries add up to at most the totals. *)
Definition dag_blocks (l : list (address * ValidatorStats)) : Z :=
  foldr (λ e n, DagBlocksCount e.2 + n) 0 l.
Definition vote_weights (l : list (address * ValidatorStats)) : Z :=
  foldr (λ e n, VoteWeight e.2 + n) 0 l.
Record stats_ok : Prop := {
  so_dag : dag_blocks (ValidatorsStats s) <= TotalDagBlocksCount s;
  so_votes : vote_weights (ValidatorsStats s) <= TotalVotesWeight s;
  so_entries : Forall (λ e, 0 <= DagBlocksCount e.2 ∧ 0 <= VoteWeight e.2) (ValidatorsStats s);
  so_total_dag : is_u64 (TotalDagBlocksCount s);
  so_total_votes : is_u64 (TotalVotesWeight s);
  so_max_votes : is_u64 (MaxVotesWeight s)
}.

Lemma u256_small x : 0 <= x < 2 ^ 250 → u256 x = x.
Proof. intros Hx. apply u256_id. unfold is_u256. lia. Qed.
Lemma mul_small a b : 0 <= a < 2 ^ 180 → 0 <= b < 2 ^ 64 → 0 <= a * b < 2 ^ 250.
Proof. intros Ha Hb. nia. Qed.
Lemma div_le_num x y : 0 <= x → 0 < y → 0 <= x / y <= x.
Proof. intros Hx Hy. split; [by apply Z.div_pos|]. apply Z.div_le_upper_bound; nia. Qed.
(** A part of a part. *)
Lemma part_le b n m : 0 <= b → 0 <= n <= m → 0 < m → 0 <= b * n / m <= b.
Proof. intros Hb Hn Hm. split; [apply Z.div_pos; nia|]. apply Z.div_le_upper_bound; nia. Qed.

Lemma split_block_reward_ok r dag vr bonus :
  reward_config → stats_ok → 0 <= r < 2 ^ 180 → split_block_reward cfg s r = (dag, vr, bonus) →
  0 <= dag ∧ 0 <= vr ∧ 0 <= bonus ∧ dag + vr + bonus <= r.
Proof.
  intros [Hd Ha Hs _] HS Hr. unfold split_block_reward.
  destruct (Z.ltb_spec 0 (TotalVotesWeight s)) as [Hv|Hv]; [|intros [= <- <- <-]; lia].
  rewrite !(u64_id (DagProposersReward _)), !(u64_id (MaxBlockAuthorReward _))
    by (unfold is_u64; lia).
  rewrite !(u256_small (r * _)) by (apply mul_small; lia). rewrite !u256_div_pos by lia.
  set (d := r * DagProposersReward (DPOS cfg) / 100).
  set (b := r * MaxBlockAuthorReward (DPOS cfg) / 100).
  assert (0 <= d ∧ 0 <= b ∧ d + b <= r) as (Hd0 & Hb0 & Hdb).
  { subst d b. split; [apply Z.div_pos; nia|]. split; [apply Z.div_pos; nia|].
    Z.div_mod_to_equations. nia. }
  rewrite (u256_small (r - d)), (u256_small (r - d - b)) by lia.
  set (m := Max (MaxVotesWeight s) (TotalVotesWeight s)).
  assert (TotalVotesWeight s <= m ∧ m < 2 ^ 64) as [Hm1 Hm2].
  { subst m. unfold Max. destruct (so_total_votes HS), (so_max_votes HS).
    destruct (Z.ltb_spec (MaxVotesWeight s) (TotalVotesWeight s)); lia. }
  intros [= <- <- <-]. split; [done|]. split; [lia|].
  destruct (m =? TotalVotesWeight s); [lia|].
  set (five := u64 (u64 (m * 5) + 7) / 8).
  assert (0 <= five) by (apply Z.div_pos; [apply u64_range|lia]).
  destruct (Z.ltb_spec five m); [|lia].
  set (w := if five <=? TotalVotesWeight s then TotalVotesWeight s - five else 0).
  assert (0 <= w <= m - five) by (subst w; destruct (Z.leb_spec five (TotalVotesWeight s)); lia).
  rewrite (u256_small (b * w)) by (apply mul_small; lia). rewrite u256_div_pos by lia.
  pose proof (part_le b w (m - five)). lia.
Qed.

(** The two parts of a validator's share. *)
Definition dag_part (dag : Z) (st : ValidatorStats) : Z :=
  if 0 <? DagBlocksCount st then DagBlocksCount st * dag / TotalDagBlocksCount s else 0.
Definition vote_part (vr : Z) (st : ValidatorStats) : Z :=
  if 0 <? VoteWeight st then VoteWeight st * vr / TotalVotesWeight s else 0.
(** Parts of [x] in proportion to weights [n] of at most [t] in all. *)
Lemma parts_le {A} (n : A → Z) (x t : Z) l :
  0 <= x → Forall (λ e, 0 <= n e) l → foldr (λ e k, n e + k) 0 l <= t →
  let part e := if 0 <? n e then n e * x / t else 0 in
  Forall (λ e, 0 <= part e) l ∧ foldr (λ e k, part e + k) 0 l <= x.
Proof.
  intros Hx Hn Ht part.
  assert (0 <= foldr (λ e k, n e + k) 0 l) as Hpos.
  { clear Ht. induction Hn as [|e l He _ IH]; simpl; lia. }
  assert (Forall (λ e, 0 <= part e) l ∧ t * foldr (λ e k, part e + k) 0 l
    <= x * foldr (λ e k, n e + k) 0 l ∧ (t <= 0 → foldr (λ e k, part e + k) 0 l = 0)) as (Hf & Hs & Hz).
  { revert Ht Hpos. induction Hn as [|e l He Hl IH]; simpl; intros Ht Hpos; [split_and!; [done|lia|done]|].
    assert (0 <= foldr (λ e k, n e + k) 0 l) as Hl0.
    { clear -Hl. induction Hl as [|e l He _ IH]; simpl; lia. }
    destruct IH as (H1 & H2 & H3); [lia|lia|].
    assert (0 <= part e ∧ t * part e <= x * n e ∧ (t <= 0 → part e = 0)) as (P1 & P2 & P3).
    { unfold part. destruct (Z.ltb_spec 0 (n e)); [|split_and!; [lia|nia|done]].
      split; [apply Z.div_pos; nia|]. split; [|lia]. 
      pose proof (Z.mul_div_le (n e * x) t ltac:(lia)). lia. }
    split_and!; [by constructor|nia|]. intros Hle. rewrite P3, H3 by done. done. }
  split; [done|]. destruct (Z.le_gt_cases t 0); [rewrite Hz; lia|nia].
Qed.
Lemma entry_le {A} (n : A → Z) t l :
  Forall (λ e, 0 <= n e) l → foldr (λ e k, n e + k) 0 l <= t → Forall (λ e, 0 <= n e <= t) l.
Proof.
  intros Hn. revert t. induction Hn as [|e l He Hl IH]; simpl; intros t Ht; [done|].
  assert (0 <= foldr (λ e k, n e + k) 0 l) by (clear -Hl; induction Hl; simpl; lia).
  constructor; [lia|]. apply IH. lia.
Qed.
Lemma validator_share_parts dag vr st :
  stats_ok → 0 <= dag < 2 ^ 180 → 0 <= vr < 2 ^ 180 →
  0 <= DagBlocksCount st <= TotalDagBlocksCount s → 0 <= VoteWeight st <= TotalVotesWeight s →
  validator_share s dag vr st = dag_part dag st + vote_part vr st.
Proof.
  intros HS Hd Hv H1 H2. destruct (so_total_dag HS) as [_ T1], (so_total_votes HS) as [_ T2].
  assert (0 <= dag_part dag st < 2 ^ 180) as P1.
  { unfold dag_part. destruct (Z.ltb_spec 0 (DagBlocksCount st)); [|lia].
    rewrite Z.mul_comm. pose proof (part_le dag (DagBlocksCount st) (TotalDagBlocksCount s)). lia. }
  assert (0 <= vote_part vr st < 2 ^ 180) as P2.
  { unfold vote_part. destruct (Z.ltb_spec 0 (VoteWeight st)); [|lia].
    rewrite Z.mul_comm. pose proof (part_le vr (VoteWeight st) (TotalVotesWeight s)). lia. }
  assert (validator_share s dag vr st =
    if 0 <? VoteWeight st then u256 (dag_part dag st + vote_part vr st) else dag_part dag st) as ->.
  { unfold validator_share, dag_part, vote_part.
    destruct (Z.ltb_spec 0 (DagBlocksCount st)), (Z.ltb_spec 0 (VoteWeight st)); try done;
      rewrite ?(u256_small (DagBlocksCount st * dag)), ?(u256_small (VoteWeight st * vr)),
        ?u256_div_pos by (try lia; rewrite Z.mul_comm; apply mul_small; lia); done. }
  destruct (Z.ltb_spec 0 (VoteWeight st)) as [|Hz]; [apply u256_small; lia|].
  unfold vote_part. destruct (Z.ltb_spec 0 (VoteWeight st)); lia.
Qed.
(** All shares together. *)
Definition shares (dag vr : Z) (l : list (address * ValidatorStats)) : Z :=
  foldr (λ e n, validator_share s dag vr e.2 + n) 0 l.
Lemma shares_le dag vr :
  stats_ok → 0 <= dag < 2 ^ 180 → 0 <= vr < 2 ^ 180 →
  Forall (λ e, 0 <= validator_share s dag vr e.2) (ValidatorsStats s) ∧
  shares dag vr (ValidatorsStats s) <= dag + vr.
Proof.
  intros HS Hd Hv. pose proof HS as [S1 S2 S3 _ _ _].
  assert (Forall (λ e : address * ValidatorStats, 0 <= DagBlocksCount e.2) (ValidatorsStats s))
    as F1 by (eapply Forall_impl; [exact S3|tauto]).
  assert (Forall (λ e : address * ValidatorStats, 0 <= VoteWeight e.2) (ValidatorsStats s))
    as F2 by (eapply Forall_impl; [exact S3|tauto]).
  destruct (parts_le (λ e, DagBlocksCount e.2) dag _ _ (proj1 Hd) F1 S1) as [G1 L1].
  destruct (parts_le (λ e, VoteWeight e.2) vr _ _ (proj1 Hv) F2 S2) as [G2 L2].
  pose proof (entry_le _ _ _ F1 S1) as B1. pose proof (entry_le _ _ _ F2 S2) as B2.
  simpl in *. clear S1 S2 S3 F1 F2.
  assert (Forall (λ e, 0 <= validator_share s dag vr e.2) (ValidatorsStats s) ∧
    shares dag vr (ValidatorsStats s) =
      foldr (λ e k, dag_part dag e.2 + k) 0 (ValidatorsStats s)
      + foldr (λ e k, vote_part vr e.2 + k) 0 (ValidatorsStats s)) as [HF ->].
  2: { split; [done|]. unfold dag_part, vote_part. lia. }
  clear L1 L2. unfold shares. induction (ValidatorsStats s) as [|e l IH]; simpl; [done|].
  apply Forall_cons in G1 as [g1 G1]. apply Forall_cons in G2 as [g2 G2].
  apply Forall_cons in B1 as [b1 B1]. apply Forall_cons in B2 as [b2 B2].
  destruct IH as [HF ->]; [done..|]. rewrite (validator_share_parts dag vr e.2) by done.
  split; [|lia]. constructor; [|done]. rewrite validator_share_parts by done.
  unfold dag_part, vote_part. lia.
Qed.
End shares.

(** * The supply *)
Section supply.
Context {St : Type} `{!DposStore St} (cfg : ChainConfig).
Abbreviation W := (World St).

(** The supply a distribution starts from. *)
Definition current_supply (f : Fields) : outcome Z :=
  match total_supply f with Some s => Ret s | None => CalculateTotalSupply cfg (minted_tokens f) end.
Definition supply_of (w : W) : option Z := total_supply (w_fields w).

Lemma supply_AddBalance a x : read_only supply_of (AddBalance a x : M W unit).
Proof. intros w. unfold AddBalance. by destruct (x =? 0). Qed.
#[local] Hint Resolve supply_AddBalance : effects.
#[export] Instance supply_frame : Frame supply_of.
Proof.
  split; try done.
  - intros A m w. unfold lift. by destruct (m (w_store w)).
  - intros ctx x. apply read_only_bind; [done|intros bal].
    apply read_only_bind; [apply read_only_panic_if|intros _].
    apply read_only_bind; [auto with effects|auto with effects].
Qed.
Lemma supply_reward_validator b s d v m e :
  read_only supply_of (reward_validator cfg b s d v m e : M W Z).
Proof. unfold reward_validator. ro_solve. Qed.

(** What a distribution has minted so far, while the entries are rewarded. *)
Lemma fold_reward_minted b s dag vr l m w m' w' :
  Forall (λ e, 0 <= validator_share s dag vr e.2) l → 0 <= m → m + shares s dag vr l < 2 ^ 250 →
  fold_m (reward_validator cfg b s dag vr) m l w = (Ret m', w') → m <= m' <= m + shares s dag vr l.
Proof.
  revert m w. induction l as [|e l IH]; intros m w HF Hm Hs; simpl; [intros [= <- <-]; lia|].
  apply Forall_cons in HF as [He HF]. simpl in Hs.
  assert (0 <= shares s dag vr l) by (clear -HF; induction HF; simpl in *; lia).
  intros (m1 & w1 & E1 & E2)%bind_ret_inv.
  assert (m1 = m ∨ m1 = m + validator_share s dag vr e.2) as Hm1.
  { destruct e as [v st]. unfold reward_validator in E1. simpl in *.
    apply bind_ret_inv in E1 as ([x|] & w2 & _ & E1); [right|by injection E1; left].
    apply bind_ret_inv in E1 as (u & w3 & _ & E1). apply bind_ret_inv in E1 as (c & w4 & _ & E1).
    apply bind_ret_inv in E1 as (u' & w5 & _ & [= <- _]). apply u256_small. lia. }
  apply IH in E2; [lia|done|lia|lia].
Qed.
Lemma processBlockReward_spec b w r w' supply :
  current_supply (w_fields w) = Ret supply → 0 <= supply < 2 ^ 250 → reward_config cfg →
  processBlockReward cfg b w = (Ret r, w') →
  supply_of w' = Some supply ∧ 0 <= r ∧ (r = 0 ∨ supply + r <= MaxSupply cfg).
Proof.
  intros Hc Hs [_ _ _ HM] E. apply bind_ret_inv in E as (f & w0 & [= <- <-] & E).
  apply bind_ret_inv in E as (s' & w1 & E1 & E).
  assert (s' = supply ∧ supply_of w1 = Some supply) as [-> Hw1].
  { unfold current_supply in Hc. destruct (total_supply (w_fields w)) as [s0|] eqn:E0.
    - injection Hc as ->. by injection E1 as <- <-.
    - apply bind_ret_inv in E1 as (s1 & w2 & [= Es <-] & E1). rewrite Hc in Es. injection Es as ->.
      unfold mbind, M_bind at 1 in E1. simpl in E1.
      apply bind_ret_inv in E1 as (u & w3 & E2 & E1). apply bind_ret_inv in E1 as (u' & w4 & E3 & [= <- <-]).
      pose proof (frame_lift (abs := supply_of) eraseMintedTokensDb w3) as F3. rewrite E3 in F3.
      match type of E2 with lift ?m ?w5 = _ => pose proof (frame_lift (abs := supply_of) m w5) as F2 end.
      rewrite E2 in F2. unfold supply_of in *. simpl in *. split; congruence. }
  destruct (CalculateBlockReward _ _ _) as [reward yield] eqn:ER.
  assert (GetMaxSupply cfg = MaxSupply cfg) as EM by (apply u256_small; lia). rewrite EM in E.
  cbv zeta in E.
  destruct (Z.leb_spec (MaxSupply cfg) supply) as [Hle|Hlt];
    apply bind_ret_inv in E as (u & w2 & E2 & [= <- <-]);
    match type of E2 with lift ?m w1 = _ => pose proof (frame_lift (abs := supply_of) m w1) as F2 end;
    rewrite E2 in F2; simpl in F2; (split; [congruence|]).
  - lia.
  - rewrite u256_small by lia.
    assert (0 <= reward).
    { unfold CalculateBlockReward in ER. injection ER as <- _. unfold u256_div.
      destruct (Z.eqb_spec (u256 (YieldFractionDecimalPrecision * u64 (BlocksPerYear (DPOS cfg)))) 0);
        [done|]. pose proof (u256_range (YieldFractionDecimalPrecision * u64 (BlocksPerYear (DPOS cfg)))).
      apply Z.div_pos; [apply u256_range|unfold is_u256 in *; lia]. }
    destruct (Z.ltb_spec (MaxSupply cfg - supply) reward); lia.
Qed.
Lemma reward_author_minted a x w r w' : reward_author a x w = (Ret r, w') → r = 0 ∨ r = x.
Proof.
  unfold reward_author. destruct (0 <? x); [|intros [= <- _]; by left].
  intros ([v|] & w1 & _ & E)%bind_ret_inv; [|injection E as <- _; by left].
  apply bind_ret_inv in E as (u & w2 & _ & [= <- _]). by right.
Qed.

(** The end of a distribution. *)
Lemma credit_supply fuel b m w supply minted w' :
  supply_of w = Some supply → 0 <= supply + m < 2 ^ 251 →
  (AddBalance dpos_contract_address m ;;
   f ← get_fields;
   supply ← deref (total_supply f);
   modify_fields (set_total_supply (u256 (supply + m))) ;;
   lift (saveTotalSupplyDb (u256 (supply + m))) ;;
   epoch_boundary cfg fuel b ;;
   mret m) w = (Ret minted, w') →
  minted = m ∧ supply_of w' = Some (supply + m).
Proof.
  intros Hw Hm E. apply bind_ret_inv in E as (u1 & w1 & E1 & E).
  pose proof (supply_AddBalance dpos_contract_address m w) as F1. rewrite E1 in F1. simpl in F1.
  apply bind_ret_inv in E as (f & w2 & [= <- <-] & E).
  apply bind_ret_inv in E as (s & w2 & E2 & E). rewrite <-F1 in Hw. unfold supply_of in Hw.
  rewrite Hw in E2. injection E2 as <- <-.
  apply bind_ret_inv in E as (u3 & w3 & [= _ <-] & E).
  apply bind_ret_inv in E as (u4 & w4 & E4 & E). apply bind_ret_inv in E as (u5 & w5 & E5 & [= -> ->]).
  match type of E4 with lift ?n ?w6 = _ => pose proof (frame_lift (abs := supply_of) n w6) as F4 end.
  rewrite E4 in F4. pose proof (frame_epoch_boundary cfg supply_of fuel b w4) as F5. rewrite E5 in F5.
  unfold supply_of in *. simpl in *. split; [done|]. rewrite F5, F4. f_equal. apply u256_id.
  unfold is_u256. lia.
Qed.

(** C21: The distribution of a block's rewards by a started contract does not let the total supply
    pass the maximal supply: what it mints is not negative, the recorded supply grows by exactly
    that, and unless nothing is minted the new supply is at most the cap.  Asked of the
    configuration ([reward_config]): the shares of the proposers and of the author add up to at
    most the whole, and the cap is below 2^180; of the node's statistics ([stats_ok]), which the
    contract takes as they are: the entries add up to at most the totals; of the supply so far: it
    is below 2^250. *)
Theorem supply_cap fuel b s w supply minted w' :
  reward_config cfg → stats_ok s → lazy_init_done (w_fields w) = true →
  current_supply (w_fields w) = Ret supply → 0 <= supply < 2 ^ 250 →
  DistributeRewards cfg fuel b s w = (Ret minted, w') →
  0 <= minted ∧ supply_of w' = Some (supply + minted) ∧
  (minted = 0 ∨ supply + minted <= MaxSupply cfg).
Proof.
  intros HC HS Hl Hc Hs E. unfold DistributeRewards in E.
  apply bind_ret_inv in E as (u & w0 & E0 & E).
  assert (w0 = w) as ->.
  { unfold lazy_init in E0. erewrite bind_run in E0 by done. rewrite Hl in E0. by injection E0. }
  apply bind_ret_inv in E as (r & w1 & E1 & E).
  destruct (processBlockReward_spec b w r w1 supply Hc Hs HC E1) as (Hw1 & Hr & Hcap).
  destruct (split_block_reward cfg s r) as [[dag vr] bonus] eqn:Esp.
  apply bind_ret_inv in E as (am & w2 & E2 & E). apply bind_ret_inv in E as (m & w3 & E3 & E).
  assert (0 <= r < 2 ^ 180) as Hr' by (destruct HC as [_ _ _ ?]; lia).
  destruct (split_block_reward_ok cfg s r dag vr bonus HC HS Hr' Esp) as (Hd & Hv & Hb & Hsum).
  destruct (shares_le s dag vr HS) as [HF Hle]; [lia..|].
  pose proof (reward_author_minted _ _ _ _ _ E2) as Ham.
  apply fold_reward_minted in E3 as Hm; [|done|lia|lia].
  assert (supply_of w3 = Some supply) as Hw3.
  { pose proof (frame_reward_author supply_of (BlockAuthor s) bonus w1) as F2. rewrite E2 in F2.
    assert (read_only supply_of (fold_m (reward_validator cfg b s dag vr) am (ValidatorsStats s)))
      as F3 by (apply read_only_fold_m; intros; apply supply_reward_validator).
    specialize (F3 w2). rewrite E3 in F3. simpl in *. congruence. }
  apply (credit_supply fuel b m w3 supply) in E as [-> ->]; [|done|lia]. split; [lia|]. split; [done|].
  lia.
Qed.
End supply.

(** * The rewards of delegators *)
Section delegators.
Context (cfg : ChainConfig).
Abbreviation scale := (ValidatorMaximumStake (DPOS cfg)).

(** The rewards of delegations with the given stakes. *)
Definition delegator_rewards (per1 : Z) (stakes : list Z) : Z :=
  foldr (λ x n, match calculateDelegatorReward cfg per1 x with Ret r => r | _ => 0 end + n) 0 stakes.
Definition total_stake (stakes : list Z) : Z := foldr Z.add 0 stakes.

Lemma delegator_rewards_bounds per1 stakes :
  0 < scale → 0 <= per1 → Forall (λ x, 0 <= x) stakes →
  per1 * total_stake stakes - Z.of_nat (length stakes) * (scale - 1)
    <= scale * delegator_rewards per1 stakes <= per1 * total_stake stakes.
Proof.
  intros Hs Hp. induction 1 as [|x l Hx _ IH]; [simpl; lia|].
  unfold delegator_rewards, total_stake in *. cbn [foldr length].
  assert (calculateDelegatorReward cfg per1 x = Ret (per1 * x / scale)) as ->.
  { unfold calculateDelegatorReward, big_div. destruct (Z.eqb_spec scale 0); [lia|].
    by rewrite big_quot_pos. }
  pose proof (Z.mul_div_le (per1 * x) scale Hs).
  pose proof (Z.mul_succ_div_gt (per1 * x) scale Hs). rewrite Nat2Z.inj_succ. nia.
Qed.

(** C28: The rewards a pool is turned into never exceed the pool: whatever the stakes of a
    validator's delegations, their rewards at the rate computed from the pool and the total
    stake add up to at most the pool, and the rounding loses at most one unit per delegation
    when the stakes are the whole total stake, within the limit for a validator. *)
Theorem delegator_rewards_within_pool pool stake stakes per1 :
  0 <= pool → 0 < stake <= scale → Forall (λ x, 0 <= x) stakes → total_stake stakes <= stake →
  calculateRewardPer1Stake cfg pool stake = Ret per1 →
  delegator_rewards per1 stakes <= pool ∧
  (total_stake stakes = stake →
   pool - Z.of_nat (length stakes) <= delegator_rewards per1 stakes).
Proof.
  intros Hp Hs HF Ht E. unfold calculateRewardPer1Stake, big_div in E.
  destruct (Z.eqb_spec stake 0); [lia|]. rewrite big_quot_pos in E by lia. injection E as <-.
  assert (0 <= pool * scale / stake) as H0 by (apply Z.div_pos; nia).
  pose proof (delegator_rewards_bounds (pool * scale / stake) stakes ltac:(lia) H0 HF) as [L U].
  pose proof (Z.mul_div_le (pool * scale) stake ltac:(lia)) as D1.
  pose proof (Z.mul_succ_div_gt (pool * scale) stake ltac:(lia)) as D2.
  set (q := pool * scale / stake) in *. set (R := delegator_rewards q stakes) in *.
  split.
  - assert (scale * R <= scale * pool) by nia. nia.
  - intros Et. rewrite Et in *. assert (scale * (pool - Z.of_nat (length stakes) - 1) < scale * R); nia.
Qed.
End delegators.
