(* ===== verification/DposModel.v ===== *)
(** The storage of the DPoS contract as typed data: what the operations of [validators.go],
    [delegations.go], [undelegations.go] and the slots promise, without keys and encodings.
    [DState] implements [DposStore]; an operation that would leave the range in which contract
    storage can represent the data (an amount of 2^4096, an index of 2^32 entries, an address
    that is not 20 bytes long) panics with [oob] instead.  [DposRefine] shows that contract
    storage simulates it. *)
From S2P Require Import Prelude Codec Rlp Storage DposData Undelegations DposStore.

(** The five structs and fields of a validator. *)
Record VRec : Type := {
  v_validator : Validator;
  v_info : ValidatorInfo;
  v_rewards : ValidatorRewards;
  v_owner : address;
  v_vrf : bytes
}.
Definition set_validator (x : Validator) (r : VRec) : VRec :=
  {| v_validator := x; v_info := v_info r; v_rewards := v_rewards r; v_owner := v_owner r;
     v_vrf := v_vrf r |}.
Definition set_info (x : ValidatorInfo) (r : VRec) : VRec :=
  {| v_validator := v_validator r; v_info := x; v_rewards := v_rewards r; v_owner := v_owner r;
     v_vrf := v_vrf r |}.
Definition set_rewards (x : ValidatorRewards) (r : VRec) : VRec :=
  {| v_validator := v_validator r; v_info := v_info r; v_rewards := x; v_owner := v_owner r;
     v_vrf := v_vrf r |}.

(** The chain-wide values. *)
Record Scalars : Type := {
  sc_epoch : option Z;
  sc_votes : option Z;
  sc_amount : option Z;
  sc_minted : option Z;
  sc_supply : option Z;
  sc_yield : option Z
}.
Record DState : Type := {
  d_list : list address;
  d_validators : gmap address VRec;
  d_delegations : gmap (address * address) Delegation;
  d_fwd : address → list address;
  d_rev : address → list address;
  d_undelegations : gmap ukey Undelegation;
  d_last : address → Z;
  d_uids : address * address → list Z;
  d_uvals : address → list address;
  d_states : gmap (address * Z) State;
  d_factor : gmap address Z;
  d_active : gmap address Z;
  d_cursor : gmap address Z;
  d_scalars : Scalars
}.

(** ** Updates of one part *)
Definition put_validators (l : list address) (m : gmap address VRec) (t : DState) : DState :=
  {| d_list := l; d_validators := m; d_delegations := d_delegations t; d_fwd := d_fwd t;
     d_rev := d_rev t; d_undelegations := d_undelegations t; d_last := d_last t;
     d_uids := d_uids t; d_uvals := d_uvals t; d_states := d_states t; d_factor := d_factor t;
     d_active := d_active t; d_cursor := d_cursor t; d_scalars := d_scalars t |}.
Definition put_delegations (m : gmap (address * address) Delegation)
    (fwd rev : address → list address) (t : DState) : DState :=
  {| d_list := d_list t; d_validators := d_validators t; d_delegations := m; d_fwd := fwd;
     d_rev := rev; d_undelegations := d_undelegations t; d_last := d_last t;
     d_uids := d_uids t; d_uvals := d_uvals t; d_states := d_states t; d_factor := d_factor t;
     d_active := d_active t; d_cursor := d_cursor t; d_scalars := d_scalars t |}.
Definition put_undelegations (m : gmap ukey Undelegation) (last : address → Z)
    (uids : address * address → list Z) (uvals : address → list address) (t : DState) : DState :=
  {| d_list := d_list t; d_validators := d_validators t; d_delegations := d_delegations t;
     d_fwd := d_fwd t; d_rev := d_rev t; d_undelegations := m; d_last := last; d_uids := uids;
     d_uvals := uvals; d_states := d_states t; d_factor := d_factor t;
     d_active := d_active t; d_cursor := d_cursor t; d_scalars := d_scalars t |}.
Definition put_slots (states : gmap (address * Z) State) (factor active cursor : gmap address Z)
    (t : DState) : DState :=
  {| d_list := d_list t; d_validators := d_validators t; d_delegations := d_delegations t;
     d_fwd := d_fwd t; d_rev := d_rev t; d_undelegations := d_undelegations t;
     d_last := d_last t; d_uids := d_uids t; d_uvals := d_uvals t; d_states := states;
     d_factor := factor; d_active := active; d_cursor := cursor; d_scalars := d_scalars t |}.
Definition put_scalars (s : Scalars) (t : DState) : DState :=
  {| d_list := d_list t; d_validators := d_validators t; d_delegations := d_delegations t;
     d_fwd := d_fwd t; d_rev := d_rev t; d_undelegations := d_undelegations t;
     d_last := d_last t; d_uids := d_uids t; d_uvals := d_uvals t; d_states := d_states t;
     d_factor := d_factor t; d_active := d_active t; d_cursor := d_cursor t; d_scalars := s |}.
Definition empty_dstate : DState :=
  {| d_list := []; d_validators := ∅; d_delegations := ∅; d_fwd := λ _, []; d_rev := λ _, [];
     d_undelegations := ∅; d_last := λ _, 0; d_uids := λ _, []; d_uvals := λ _, [];
     d_states := ∅; d_factor := ∅; d_active := ∅; d_cursor := ∅;
     d_scalars := {| sc_epoch := None; sc_votes := None; sc_amount := None; sc_minted := None;
                     sc_supply := None; sc_yield := None |} |}.

(** ** The representable range *)
Definition addr_b (a : address) : bool := (length a =? 20)%nat.
Definition in_range (n x : Z) : bool := (0 <=? x) && (x <? 2 ^ n).
Definition index_room {A} (l : list A) : bool := Z.of_nat (length l) + 1 <? 2 ^ 32.
Definition validator_ok (v : Validator) : bool :=
  in_range 4096 (TotalStake v) && in_range 16 (Commission v) &&
  in_range 64 (LastCommissionChange v) && in_range 64 (Validator_LastUpdated v) &&
  in_range 16 (UndelegationsCount v).
Definition info_ok (i : ValidatorInfo) : bool :=
  (blen (Description i) <? 2 ^ 20) && (blen (Endpoint i) <? 2 ^ 20).
Definition rewards_ok (r : ValidatorRewards) : bool :=
  in_range 4096 (RewardsPool r) && in_range 4096 (CommissionRewardsPool r).
Definition delegation_ok (d : Delegation) : bool :=
  in_range 4096 (Stake d) && in_range 64 (Delegation_LastUpdated d).
Definition state_ok (s : State) : bool := in_range 4096 (RewardsPer1Stake s) && in_range 32 (Count s).
(** A page of an index of addresses.  The page number and the page size are 32-bit numbers, and
    their product wraps: a large page number reads an earlier page again.  A page that starts
    inside the index and ends past 2^32 is filled with zero addresses. *)
Definition page_ok (batch count : Z) : bool := in_range 32 batch && in_range 32 count.
Definition page (l : list address) (batch count : Z) : list address * bool :=
  let start := u32 (batch * count) in
  if (start + count <? 2 ^ 32) || (Z.of_nat (length l) <=? start) then
    (take (Z.to_nat count) (drop (Z.to_nat start) l),
     bool_decide (Z.of_nat (length l) <= start + count))
  else (replicate (Z.to_nat count) (replicate 20 0), false).
(** Removal of an entry of an index: the last entry takes its place. *)
Definition drop_entry {A} `{EqDecision A} (x : A) (l : list A) : list A :=
  match list_find (x =.) l with Some (i, _) => swap_remove i l | None => l end.

Definition within (b : bool) : M DState unit := panic_if (negb b) oob.
Definition view_of {A} (f : DState → A) : M DState A := λ t, (Ret (f t), t).
Definition update (f : DState → DState) : M DState unit := λ t, (Ret tt, f t).

Module Spec.
Definition GetValidatorOwner (v : address) : M DState address :=
  within (addr_b v) ;;
  view_of (λ t, match d_validators t !! v with Some r => v_owner r | None => replicate 20 0 end).
Definition CheckValidatorOwner (owner v : address) : M DState bool :=
  o ← GetValidatorOwner v; mret (bool_decide (owner = o)).
Definition GetVrfKey (v : address) : M DState bytes :=
  within (addr_b v) ;;
  view_of (λ t, match d_validators t !! v with Some r => v_vrf r | None => [] end).
Definition ValidatorExists (v : address) : M DState bool :=
  within (addr_b v) ;; view_of (λ t, bool_decide (is_Some (d_validators t !! v))).
Definition GetValidatorsAddresses (batch count : Z) : M DState (list address * bool) :=
  within (page_ok batch count) ;; view_of (λ t, page (d_list t) batch count).
Definition GetValidatorsCount : M DState Z := view_of (λ t, Z.of_nat (length (d_list t))).
Definition GetValidator (v : address) : M DState (option Validator) :=
  within (addr_b v) ;; view_of (λ t, v_validator <$> d_validators t !! v).
Definition GetValidatorInfo (v : address) : M DState (option ValidatorInfo) :=
  within (addr_b v) ;; view_of (λ t, v_info <$> d_validators t !! v).
Definition GetValidatorRewards (v : address) : M DState (option ValidatorRewards) :=
  within (addr_b v) ;; view_of (λ t, v_rewards <$> d_validators t !! v).
Definition Modify (v : address) (f : VRec → VRec) : M DState unit :=
  r ← view_of (λ t, d_validators t !! v);
  match r with
  | None => go_panic "Modify: non existent validator"
  | Some r => update (λ t, put_validators (d_list t) (<[v := f r]> (d_validators t)) t)
  end.
Definition ModifyValidator (v : address) (x : Validator) : M DState unit :=
  within (addr_b v) ;; within (validator_ok x) ;; Modify v (set_validator x).
Definition ModifyValidatorInfo (v : address) (x : ValidatorInfo) : M DState unit :=
  within (addr_b v) ;; within (info_ok x) ;; Modify v (set_info x).
Definition ModifyValidatorRewards (v : address) (x : ValidatorRewards) : M DState unit :=
  within (addr_b v) ;; within (rewards_ok x) ;; Modify v (set_rewards x).
Definition new_validator (block commission : Z) : Validator :=
  {| TotalStake := 0; Commission := commission; LastCommissionChange := block;
     Validator_LastUpdated := block; UndelegationsCount := 0 |}.
(** The callers create a validator that does not exist and delete one that does. *)
Definition CreateValidator (owner v : address) (vrf_key : bytes) (block commission : Z)
    (description endpoint : bytes) : M DState Validator :=
  let r := {| v_validator := new_validator block commission;
              v_info := {| Description := description; Endpoint := endpoint |};
              v_rewards := {| RewardsPool := 0; CommissionRewardsPool := 0 |};
              v_owner := owner; v_vrf := vrf_key |} in
  within (addr_b owner && addr_b v && validator_ok (v_validator r) && info_ok (v_info r)) ;;
  ok ← view_of (λ t, index_room (d_list t) && negb (bool_decide (is_Some (d_validators t !! v))));
  within ok ;;
  update (λ t, put_validators (d_list t ++ [v]) (<[v := r]> (d_validators t)) t) ;;
  mret (v_validator r).
Definition DeleteValidator (v : address) : M DState unit :=
  within (addr_b v) ;;
  ok ← view_of (λ t, bool_decide (is_Some (d_validators t !! v)));
  within ok ;;
  update (λ t, put_validators (drop_entry v (d_list t)) (delete v (d_validators t)) t).
Definition AddValidatorRewards (v : address) (commission_reward reward : Z) : M DState unit :=
  exists_ ← ValidatorExists v;
  panic_if (negb exists_) "AddValidatorRewards: non existent validator" ;;
  rewards ← GetValidatorRewards v;
  rewards ← deref rewards;
  ModifyValidatorRewards v
    {| RewardsPool := RewardsPool rewards + reward;
       CommissionRewardsPool := CommissionRewardsPool rewards + commission_reward |}.

Definition DelegationExists (del val : address) : M DState bool :=
  within (addr_b del && addr_b val) ;;
  view_of (λ t, bool_decide (is_Some (d_delegations t !! (del, val)))).
Definition GetDelegationsCount (del : address) : M DState Z :=
  within (addr_b del) ;; view_of (λ t, Z.of_nat (length (d_fwd t del))).
Definition GetDelegation (del val : address) : M DState (option Delegation) :=
  within (addr_b del && addr_b val) ;; view_of (λ t, d_delegations t !! (del, val)).
Definition ModifyDelegation (del val : address) (d : Delegation) : M DState unit :=
  within (addr_b del && addr_b val && delegation_ok d) ;;
  b ← view_of (λ t, bool_decide (is_Some (d_delegations t !! (del, val))));
  if (b : bool) then
    update (λ t, put_delegations (<[(del, val) := d]> (d_delegations t)) (d_fwd t) (d_rev t) t)
  else go_panic "ModifyDelegation: non existent delegation".
Definition CreateDelegation (del val : address) (block stake : Z) : M DState unit :=
  let d := {| Stake := stake; Delegation_LastUpdated := block |} in
  within (addr_b del && addr_b val && delegation_ok d) ;;
  ok ← view_of (λ t, negb (bool_decide (is_Some (d_delegations t !! (del, val)))) &&
    index_room (d_fwd t del) && index_room (d_rev t val));
  within ok ;;
  update (λ t, put_delegations (<[(del, val) := d]> (d_delegations t))
    (set_at (d_fwd t) del (d_fwd t del ++ [val])) (set_at (d_rev t) val (d_rev t val ++ [del])) t).
Definition RemoveDelegation (del val : address) : M DState unit :=
  within (addr_b del && addr_b val) ;;
  ok ← view_of (λ t, bool_decide (is_Some (d_delegations t !! (del, val))));
  within ok ;;
  update (λ t, put_delegations (delete (del, val) (d_delegations t))
    (set_at (d_fwd t) del (drop_entry val (d_fwd t del)))
    (set_at (d_rev t) val (drop_entry del (d_rev t val))) t).
Definition GetDelegatorValidatorsAddresses (del : address) (batch count : Z)
  : M DState (list address * bool) :=
  within (addr_b del && page_ok batch count) ;; view_of (λ t, page (d_fwd t del) batch count).
Definition GetValidatorDelegators (val : address) (batch count : Z)
  : M DState (list address * bool) :=
  within (addr_b val && page_ok batch count) ;; view_of (λ t, page (d_rev t val) batch count).
Definition GetAllDelegatorValidatorsAddresses (del : address) : M DState (list address) :=
  within (addr_b del) ;; view_of (λ t, d_fwd t del).

Definition ukey_b (del val : address) (id : Z) : bool := addr_b del && addr_b val && in_range 64 id.
Definition UndelegationExists (del val : address) (id : Z) : M DState bool :=
  within (ukey_b del val id) ;;
  view_of (λ t, bool_decide (is_Some (d_undelegations t !! (del, val, id)))).
Definition GetUndelegation (del val : address) (id : Z) : M DState (option Undelegation) :=
  within (ukey_b del val id) ;; view_of (λ t, d_undelegations t !! (del, val, id)).
Definition count_ids (t : DState) (del : address) : Z :=
  foldl (λ n v, u32 (n + Z.of_nat (length (d_uids t (del, v))))) 0 (d_uvals t del).
Definition GetUndelegationsCount (del : address) : M DState Z :=
  within (addr_b del) ;; view_of (λ t, count_ids t del).
Definition CreateUndelegation (del val : address) (block amount : Z) : M DState Z :=
  within (addr_b del && addr_b val && in_range 4096 amount && in_range 64 block) ;;
  id ← view_of (λ t, d_last t del + 1);
  ok ← view_of (λ t, index_room (d_uids t (del, val)) && index_room (d_uvals t del));
  within (in_range 64 id && ok) ;;
  update (λ t, put_undelegations
    (<[(del, val, id) := {| Amount := amount; Block := block; Id := id |}]> (d_undelegations t))
    (set_at (d_last t) del id)
    (set_at (d_uids t) (del, val) (d_uids t (del, val) ++ [id]))
    (set_at (d_uvals t) del
      (if bool_decide (d_uids t (del, val) = []) then d_uvals t del ++ [val] else d_uvals t del))
    t) ;;
  mret id.
Definition RemoveUndelegation (del val : address) (id : Z) : M DState unit :=
  within (ukey_b del val id) ;;
  ok ← view_of (λ t, bool_decide (is_Some (d_undelegations t !! (del, val, id))));
  within ok ;;
  update (λ t, put_undelegations (delete (del, val, id) (d_undelegations t)) (d_last t)
    (set_at (d_uids t) (del, val) (drop_entry id (d_uids t (del, val))))
    (set_at (d_uvals t) del
      (if bool_decide (length (d_uids t (del, val)) = 1%nat) then drop_entry val (d_uvals t del)
       else d_uvals t del)) t).
Definition GetUndelegationsValidator (del : address) (idx : Z)
  : M DState (option address * bool) :=
  within (addr_b del && page_ok idx 1) ;;
  view_of (λ t, let p := page (d_uvals t del) idx 1 in (head p.1, p.2)).
Definition GetUndelegationIdsCount (del val : address) : M DState Z :=
  within (addr_b del && addr_b val) ;; view_of (λ t, Z.of_nat (length (d_uids t (del, val)))).
Definition GetUndelegationIds (del val : address) (start_idx count : Z)
  : M DState (list Z * bool) :=
  within (addr_b del && addr_b val && (0 <=? start_idx) && (0 <=? count) &&
    (start_idx + count <? 2 ^ 32)) ;;
  view_of (λ t, let l := d_uids t (del, val) in
    (take (Z.to_nat count) (drop (Z.to_nat start_idx) l),
     bool_decide (Z.of_nat (length l) <= start_idx + count))).

Definition put_factor (m : gmap address Z) (t : DState) : DState :=
  put_slots (d_states t) m (d_active t) (d_cursor t) t.
Definition put_active (m : gmap address Z) (t : DState) : DState :=
  put_slots (d_states t) (d_factor t) m (d_cursor t) t.
Definition put_cursor (m : gmap address Z) (t : DState) : DState :=
  put_slots (d_states t) (d_factor t) (d_active t) m t.
Definition put_states (m : gmap (address * Z) State) (t : DState) : DState :=
  put_slots m (d_factor t) (d_active t) (d_cursor t) t.
Definition getVotingPowerFactor (v : address) : M DState Z :=
  within (addr_b v) ;; view_of (λ t, default BasisPointsScale (d_factor t !! v)).
Definition setVotingPowerFactor (v : address) (factor : Z) : M DState unit :=
  within (addr_b v && in_range 63 factor) ;;
  update (λ t, put_factor (<[v := factor]> (d_factor t)) t).
Definition clearVotingPowerFactor (v : address) : M DState unit :=
  within (addr_b v) ;; update (λ t, put_factor (delete v (d_factor t)) t).
Definition getLastActiveBlock (v : address) : M DState Z :=
  within (addr_b v) ;; view_of (λ t, default 0 (d_active t !! v)).
Definition setLastActiveBlock (v : address) (block : Z) : M DState unit :=
  within (addr_b v && in_range 64 block) ;;
  update (λ t, put_active (<[v := block]> (d_active t)) t).
Definition clearLastActiveBlock (v : address) : M DState unit :=
  within (addr_b v) ;; update (λ t, put_active (delete v (d_active t)) t).
Definition getEvictionCursor (v : address) : M DState (bool * Z) :=
  within (addr_b v) ;;
  view_of (λ t, match d_cursor t !! v with Some c => (true, c) | None => (false, 0) end).
Definition setEvictionCursor (v : address) (cursor : Z) : M DState unit :=
  within (addr_b v && in_range 32 cursor) ;;
  update (λ t, put_cursor (<[v := cursor]> (d_cursor t)) t).
Definition clearEvictionCursor (v : address) : M DState unit :=
  within (addr_b v) ;; update (λ t, put_cursor (delete v (d_cursor t)) t).
Definition state_get (v : address) (block : Z) : M DState (option State) :=
  within (addr_b v && in_range 64 block) ;; view_of (λ t, d_states t !! (v, block)).
Definition state_put (v : address) (block : Z) (s : option State) : M DState unit :=
  within (addr_b v && in_range 64 block) ;;
  match s with
  | Some s => within (state_ok s) ;; update (λ t, put_states (<[(v, block) := s]> (d_states t)) t)
  | None => update (λ t, put_states (delete (v, block) (d_states t)) t)
  end.

(** A zero 256-bit number is written as no bytes: it reads as absent. *)
Definition nonzero (x : Z) : option Z := if x =? 0 then None else Some x.
Definition scalar (f : Scalars → option Z) : M DState (option Z) := view_of (λ t, f (d_scalars t)).
Definition getLastProcessedEpochBlock : M DState Z := view_of (λ t, default 0 (sc_epoch (d_scalars t))).
Definition setLastProcessedEpochBlock (block : Z) : M DState unit :=
  within (in_range 64 block) ;;
  update (λ t, let s := d_scalars t in put_scalars {| sc_epoch := Some block; sc_votes := sc_votes s;
    sc_amount := sc_amount s; sc_minted := sc_minted s; sc_supply := sc_supply s;
    sc_yield := sc_yield s |} t).
Definition write_eligible_vote_count (n : Z) : M DState unit :=
  within (in_range 64 n) ;;
  update (λ t, let s := d_scalars t in put_scalars {| sc_epoch := sc_epoch s; sc_votes := Some n;
    sc_amount := sc_amount s; sc_minted := sc_minted s; sc_supply := sc_supply s;
    sc_yield := sc_yield s |} t).
Definition write_amount_delegated (x : Z) : M DState unit :=
  within (in_range 256 x) ;;
  update (λ t, let s := d_scalars t in put_scalars {| sc_epoch := sc_epoch s;
    sc_votes := sc_votes s; sc_amount := nonzero x; sc_minted := sc_minted s;
    sc_supply := sc_supply s; sc_yield := sc_yield s |} t).
Definition saveTotalSupplyDb (x : Z) : M DState unit :=
  within (in_range 256 x) ;;
  update (λ t, let s := d_scalars t in put_scalars {| sc_epoch := sc_epoch s;
    sc_votes := sc_votes s; sc_amount := sc_amount s; sc_minted := sc_minted s;
    sc_supply := nonzero x; sc_yield := sc_yield s |} t).
Definition eraseMintedTokensDb : M DState unit :=
  update (λ t, let s := d_scalars t in put_scalars {| sc_epoch := sc_epoch s;
    sc_votes := sc_votes s; sc_amount := sc_amount s; sc_minted := None;
    sc_supply := sc_supply s; sc_yield := sc_yield s |} t).
Definition saveYieldDb (y : Z) : M DState unit :=
  within (in_range 64 y) ;;
  update (λ t, let s := d_scalars t in put_scalars {| sc_epoch := sc_epoch s;
    sc_votes := sc_votes s; sc_amount := sc_amount s; sc_minted := sc_minted s;
    sc_supply := sc_supply s; sc_yield := Some y |} t).
End Spec.

#[export] Instance model_dpos : DposStore DState := {
  GetValidatorOwner := Spec.GetValidatorOwner;
  CheckValidatorOwner := Spec.CheckValidatorOwner;
  GetVrfKey := Spec.GetVrfKey;
  ValidatorExists := Spec.ValidatorExists;
  GetValidatorsAddresses := Spec.GetValidatorsAddresses;
  GetValidatorsCount := Spec.GetValidatorsCount;
  GetValidator := Spec.GetValidator;
  GetValidatorInfo := Spec.GetValidatorInfo;
  GetValidatorRewards := Spec.GetValidatorRewards;
  ModifyValidator := Spec.ModifyValidator;
  ModifyValidatorInfo := Spec.ModifyValidatorInfo;
  ModifyValidatorRewards := Spec.ModifyValidatorRewards;
  CreateValidator := Spec.CreateValidator;
  DeleteValidator := Spec.DeleteValidator;
  AddValidatorRewards := Spec.AddValidatorRewards;
  DelegationExists := Spec.DelegationExists;
  GetDelegationsCount := Spec.GetDelegationsCount;
  GetDelegation := Spec.GetDelegation;
  ModifyDelegation := Spec.ModifyDelegation;
  CreateDelegation := Spec.CreateDelegation;
  RemoveDelegation := Spec.RemoveDelegation;
  GetDelegatorValidatorsAddresses := Spec.GetDelegatorValidatorsAddresses;
  GetValidatorDelegators := Spec.GetValidatorDelegators;
  GetAllDelegatorValidatorsAddresses := Spec.GetAllDelegatorValidatorsAddresses;
  UndelegationExists := Spec.UndelegationExists;
  GetUndelegation := Spec.GetUndelegation;
  GetUndelegationsCount := Spec.GetUndelegationsCount;
  CreateUndelegation := Spec.CreateUndelegation;
  RemoveUndelegation := Spec.RemoveUndelegation;
  GetUndelegationsValidator := Spec.GetUndelegationsValidator;
  GetUndelegationIdsCount := Spec.GetUndelegationIdsCount;
  GetUndelegationIds := Spec.GetUndelegationIds;
  getVotingPowerFactor := Spec.getVotingPowerFactor;
  setVotingPowerFactor := Spec.setVotingPowerFactor;
  clearVotingPowerFactor := Spec.clearVotingPowerFactor;
  getLastActiveBlock := Spec.getLastActiveBlock;
  setLastActiveBlock := Spec.setLastActiveBlock;
  clearLastActiveBlock := Spec.clearLastActiveBlock;
  getLastProcessedEpochBlock := Spec.getLastProcessedEpochBlock;
  setLastProcessedEpochBlock := Spec.setLastProcessedEpochBlock;
  getEvictionCursor := Spec.getEvictionCursor;
  setEvictionCursor := Spec.setEvictionCursor;
  clearEvictionCursor := Spec.clearEvictionCursor;
  state_get := Spec.state_get;
  state_put := Spec.state_put;
  read_eligible_vote_count := Spec.scalar sc_votes;
  write_eligible_vote_count := Spec.write_eligible_vote_count;
  read_amount_delegated := Spec.scalar sc_amount;
  write_amount_delegated := Spec.write_amount_delegated;
  read_total_supply := Spec.scalar sc_supply;
  saveTotalSupplyDb := Spec.saveTotalSupplyDb;
  read_minted_tokens := Spec.scalar sc_minted;
  eraseMintedTokensDb := Spec.eraseMintedTokensDb;
  saveYieldDb := Spec.saveYieldDb;
  read_yield := Spec.scalar sc_yield
}.
