(* ===== verification/DposRefine.v ===== *)
(** Contract storage implements the typed data of [DposModel].  [mem_rep f g m]: every plain
    key holds the bytes [f] gives it and every iterable map the items [g] gives it;
    [dpos_rep m t]: these are the encodings of the typed state [t], which is well formed. *)
From S2P Require Import Prelude Codec Rlp Storage IterableMap DposData Validators Delegations.
From S2P Require Import Undelegations DposStore DposModel.

#[export] Instance dkey_eq_dec : EqDecision dkey.
Proof. solve_decision. Defined.
#[export] Instance dmap_eq_dec : EqDecision dmap.
Proof. solve_decision. Defined.

(** * Plain keys and iterable maps *)
Record mem_rep `{Keccak} (f : dkey → bytes) (g : dmap → list bytes) (m : gmap bytes bytes)
    : Prop := {
  mr_key k : dk_wf k → get m (dk k) = f k;
  mr_map d : dm_wf d → imap_rep (dm d) (g d) m
}.

Section mem.
Context `{KeccakInj}.

Lemma mem_put f g m k b :
  mem_rep f g m → dk_wf k → mem_rep (set_at f k b) g (view_put (dk k) b m).
Proof.
  intros [Hk Hm] W. split.
  - intros k' W'. destruct (decide (k' = k)) as [->|N].
    + by rewrite set_at_eq, get_put_eq.
    + rewrite set_at_ne, get_put_key by (done || congruence). by apply Hk.
  - intros d Wd. by apply imap_rep_put_key, Hm.
Qed.
Lemma mem_map f g m m' d l :
  mem_rep f g m → dm_wf d → imap_rep (dm d) l m' →
  (∀ k, ¬ imap_owns (dm d) k → get m' k = get m k) → mem_rep f (set_at g d l) m'.
Proof.
  intros [Hk Hm] W Hl Hf. split.
  - intros k Wk. rewrite Hf by apply dm_not_key. by apply Hk.
  - intros d' W'. destruct (decide (d' = d)) as [->|N]; [by rewrite set_at_eq|].
    rewrite set_at_ne by done. eapply (imap_rep_other d d'); [done..|congruence|done|by apply Hm].
Qed.
Lemma mem_ext f g f' g' m :
  mem_rep f g m → (∀ k, dk_wf k → f' k = f k) → (∀ d, dm_wf d → g' d = g d) → mem_rep f' g' m.
Proof.
  intros [Hk Hm] Hf Hg. split; intros; [rewrite Hf by done; auto|rewrite Hg by done; auto].
Qed.
Lemma mem_get f g m k : mem_rep f g m → dk_wf k → kv_get (dk k) m = (Ret (f k), m).
Proof. intros [Hk _] W. rewrite map_get_run. by rewrite Hk. Qed.
Lemma mem_save {A} `{!RlpCodec A} f g m k (a : A) :
  mem_rep f g m → dk_wf k → rlp_wf a →
  save (dk k) a m = (Ret tt, view_put (dk k) (enc a) m) ∧
  mem_rep (set_at f k (enc a)) g (view_put (dk k) (enc a) m).
Proof. intros. split; [by apply save_run|by apply mem_put]. Qed.
End mem.

(** * The encoding of a typed state *)
Definition enc_opt `{RlpCodec A} (o : option A) : bytes :=
  match o with Some a => enc a | None => [] end.
Definition opt_bytes (f : Z → bytes) (o : option Z) : bytes :=
  match o with Some x => f x | None => [] end.
Definition cursor_bytes (cursor : Z) : bytes :=
  [u8 (Z.shiftr cursor 24); u8 (Z.shiftr cursor 16); u8 (Z.shiftr cursor 8); u8 cursor].
Definition nat_bytes (x : Z) : bytes := if x =? 0 then [] else Uint64ToBytes x.

Definition slot_bytes (t : DState) (k : dkey) : bytes :=
  match k with
  | KValidator v => enc_opt (v_validator <$> d_validators t !! v)
  | KValidatorInfo v => enc_opt (v_info <$> d_validators t !! v)
  | KValidatorRewards v => enc_opt (v_rewards <$> d_validators t !! v)
  | KOwner v => default [] (v_owner <$> d_validators t !! v)
  | KVrfKey v => default [] (v_vrf <$> d_validators t !! v)
  | KState v block => enc_opt (d_states t !! (v, block))
  | KDelegation del val => enc_opt (d_delegations t !! (del, val))
  | KUndelegation del val id => enc_opt (d_undelegations t !! (del, val, id))
  | KLastUniqueId del => nat_bytes (d_last t del)
  | KEligibleVoteCount => opt_bytes ENC_b_endian_compact_64_1 (sc_votes (d_scalars t))
  | KAmountDelegated => opt_bytes u256_bytes (sc_amount (d_scalars t))
  | KMintedTokens => opt_bytes u256_bytes (sc_minted (d_scalars t))
  | KTotalSupply => opt_bytes u256_bytes (sc_supply (d_scalars t))
  | KYield => opt_bytes AppendUint (sc_yield (d_scalars t))
  | KVotingPowerFactor v =>
      opt_bytes (λ x, ENC_b_endian_compact_64_1 (u64 (x + 1))) (d_factor t !! v)
  | KLastActiveBlock v => opt_bytes ENC_b_endian_compact_64_1 (d_active t !! v)
  | KEvictionCursor v => opt_bytes cursor_bytes (d_cursor t !! v)
  | KLastProcessedEpochBlock => opt_bytes ENC_b_endian_compact_64_1 (sc_epoch (d_scalars t))
  end.
Definition map_items (t : DState) (d : dmap) : list bytes :=
  match d with
  | MValidators => d_list t
  | MDelegatorValidators del => d_fwd t del
  | MValidatorDelegators val => d_rev t val
  | MUndelegationValidators del => d_uvals t del
  | MUndelegationIds del val => Uint64ToBytes <$> d_uids t (del, val)
  end.

(** * Well-formed typed states *)
Definition vrec_wf (r : VRec) : Prop :=
  rlp_wf (v_validator r) ∧ rlp_wf (v_info r) ∧ rlp_wf (v_rewards r) ∧ is_address (v_owner r).
Definition opt_in (P : Z → Prop) (o : option Z) : Prop := ∀ x, o = Some x → P x.
Record scalars_wf (s : Scalars) : Prop := {
  sw_epoch : opt_in is_u64 (sc_epoch s);
  sw_votes : opt_in is_u64 (sc_votes s);
  sw_amount : opt_in (λ x, 0 < x < 2 ^ 256) (sc_amount s);
  sw_minted : opt_in (λ x, 0 < x < 2 ^ 256) (sc_minted s);
  sw_supply : opt_in (λ x, 0 < x < 2 ^ 256) (sc_supply s);
  sw_yield : opt_in is_u64 (sc_yield s)
}.
Record validators_wf (l : list address) (m : gmap address VRec) : Prop := {
  vw_nodup : NoDup l;
  vw_list v : v ∈ l ↔ is_Some (m !! v);
  vw_ok v r : m !! v = Some r → is_address v ∧ vrec_wf r
}.
Record delegations_wf (D : gmap (address * address) Delegation)
    (fwd rev : address → list address) : Prop := {
  dw_ok k d : D !! k = Some d → pair_ok k ∧ rlp_wf d;
  dw_fwd_nodup del : NoDup (fwd del);
  dw_rev_nodup val : NoDup (rev val);
  dw_fwd del val : val ∈ fwd del ↔ is_Some (D !! (del, val));
  dw_rev del val : del ∈ rev val ↔ is_Some (D !! (del, val))
}.
Record undelegations_wf (U : gmap ukey Undelegation) (last : address → Z)
    (uids : address * address → list Z) (uvals : address → list address) : Prop := {
  uw_ok k u : U !! k = Some u → ukey_ok k ∧ 1 <= k.2 <= last k.1.1 ∧ rlp_wf u;
  uw_ids_nodup p : NoDup (uids p);
  uw_vals_nodup del : NoDup (uvals del);
  uw_ids del val id : id ∈ uids (del, val) ↔ is_Some (U !! (del, val, id));
  uw_vals del val : val ∈ uvals del ↔ uids (del, val) ≠ [];
  uw_last del : is_u64 (last del)
}.
Record dstate_wf (t : DState) : Prop := {
  tw_validators : validators_wf (d_list t) (d_validators t);
  tw_delegations : delegations_wf (d_delegations t) (d_fwd t) (d_rev t);
  tw_undelegations :
    undelegations_wf (d_undelegations t) (d_last t) (d_uids t) (d_uvals t);
  tw_states k s : d_states t !! k = Some s → rlp_wf s;
  tw_factor v f : d_factor t !! v = Some f → 0 <= f < 2 ^ 63;
  tw_active v b : d_active t !! v = Some b → is_u64 b;
  tw_cursor v c : d_cursor t !! v = Some c → is_u32 c;
  tw_scalars : scalars_wf (d_scalars t)
}.
Definition dpos_rep `{Keccak} (m : gmap bytes bytes) (t : DState) : Prop :=
  mem_rep (slot_bytes t) (map_items t) m ∧ dstate_wf t.

Lemma dstate_wf_empty : dstate_wf empty_dstate.
Proof.
  split; simpl; try done.
  - split; [constructor| |done]. intros v. rewrite lookup_empty. split; [by intros ?%elem_of_nil|by intros []].
  - split; try done; try (intros; constructor);
      rewrite lookup_empty; try (by intros ?%elem_of_nil); by intros [].
  - split; try done; try (intros; constructor);
      rewrite ?lookup_empty; try (by intros ?%elem_of_nil); try (by intros []); done.
Qed.

(** * Reading and guards *)
Lemma refines_within {S1 A} (R : S1 → DState → Prop) (m1 : M S1 A) b m2 :
  (b = true → refines R m1 m2) → refines R m1 (within b ;; m2).
Proof. intros Hm. apply refines_guard. intros Hb. apply Hm. by destruct b. Qed.
(** The first copy runs to the outcome and state the second is known to reach. *)
Lemma refines_run {S1 S2 A} (R : S1 → S2 → Prop) (m1 : M S1 A) (m2 : M S2 A) :
  (∀ s1 s2, R s1 s2 → (m2 s2).1 ≠ Panic oob →
     ∃ s1', m1 s1 = ((m2 s2).1, s1') ∧ R s1' (m2 s2).2) → refines R m1 m2.
Proof. intros Hm s1 s2 HR Ho. destruct (Hm s1 s2 HR Ho) as (s1' & -> & ?). done. Qed.
Lemma addr_b_true a : addr_b a = true → is_address a.
Proof. unfold addr_b, is_address. apply Nat.eqb_eq. Qed.
Lemma in_range_true n x : in_range n x = true → 0 <= x < 2 ^ n.
Proof. unfold in_range. rewrite andb_true_iff, Z.leb_le, Z.ltb_lt. done. Qed.
Lemma validator_ok_true v : validator_ok v = true → rlp_wf v.
Proof.
  unfold validator_ok. rewrite !andb_true_iff. intros [[[[H1 H2] H3] H4] H5].
  apply in_range_true in H1, H2, H3, H4, H5. by split_and!.
Qed.
Lemma info_ok_true i : info_ok i = true → rlp_wf i.
Proof. unfold info_ok. rewrite andb_true_iff, !Z.ltb_lt. done. Qed.
Lemma rewards_ok_true r : rewards_ok r = true → rlp_wf r.
Proof. unfold rewards_ok. rewrite andb_true_iff. intros [?%in_range_true ?%in_range_true]. by split. Qed.
Lemma delegation_ok_true d : delegation_ok d = true → rlp_wf d.
Proof. unfold delegation_ok. rewrite andb_true_iff. intros [?%in_range_true ?%in_range_true]. by split. Qed.
Lemma state_ok_true s : state_ok s = true → rlp_wf s.
Proof. unfold state_ok. rewrite andb_true_iff. intros [?%in_range_true ?%in_range_true]. by split. Qed.

Section reading.
Context `{KeccakInj}.
Implicit Types (t : DState) (m : gmap bytes bytes).

Lemma slot_of {A} `{!RlpCodec A} f g m k (o : option A) :
  mem_rep f g m → dk_wf k → f k = enc_opt o → (∀ a, o = Some a → rlp_wf a) → slot m (dk k) o.
Proof.
  intros Hm W E Ha. pose proof (mr_key _ _ _ Hm k W) as G. rewrite E in G.
  destruct o as [a|]; [|done]. split; [by apply Ha|done].
Qed.
Lemma rep_validator m t v :
  dpos_rep m t → is_address v →
  slot m (dk (KValidator v)) (v_validator <$> d_validators t !! v) ∧
  slot m (dk (KValidatorInfo v)) (v_info <$> d_validators t !! v) ∧
  slot m (dk (KValidatorRewards v)) (v_rewards <$> d_validators t !! v).
Proof.
  intros [Hm W] Hv. destruct (d_validators t !! v) as [r|] eqn:E.
  - destruct (vw_ok _ _ (tw_validators _ W) v r E) as (_ & ? & ? & ? & _).
    split_and!; (eapply slot_of; [exact Hm|exact Hv|simpl; by rewrite E|by intros ? [= <-]]).
  - split_and!; (eapply slot_of; [exact Hm|exact Hv|simpl; by rewrite E|done]).
Qed.
(** A read: the state does not change. *)
Lemma refines_read {A} (m1 : M (gmap bytes bytes) A) (f : DState → A) :
  (∀ m t, dpos_rep m t → m1 m = (Ret (f t), m)) → refines dpos_rep m1 (view_of f).
Proof. intros Hm m t HR _. by rewrite (Hm m t HR). Qed.

Lemma list_rep_validators m t : dpos_rep m t → imap_rep (dm MValidators) (d_list t) m.
Proof. intros [Hm _]. by apply (mr_map _ _ _ Hm MValidators). Qed.
Lemma list_addresses t : dstate_wf t → Forall is_address (d_list t).
Proof.
  intros W. apply Forall_forall. intros v Hv.
  apply (vw_list _ _ (tw_validators _ W)) in Hv as [r Hr].
  by apply (vw_ok _ _ (tw_validators _ W)) in Hr as [? _].
Qed.
Lemma fwd_addresses t del : dstate_wf t → Forall is_address (d_fwd t del).
Proof.
  intros W. apply Forall_forall. intros v Hv.
  apply (dw_fwd _ _ _ (tw_delegations _ W)) in Hv as [r Hr].
  by apply (dw_ok _ _ _ (tw_delegations _ W)) in Hr as [[_ ?] _].
Qed.
Lemma rev_addresses t val : dstate_wf t → Forall is_address (d_rev t val).
Proof.
  intros W. apply Forall_forall. intros v Hv.
  apply (dw_rev _ _ _ (tw_delegations _ W)) in Hv as [r Hr].
  by apply (dw_ok _ _ _ (tw_delegations _ W)) in Hr as [[? _] _].
Qed.
Lemma uvals_addresses t del : dstate_wf t → Forall is_address (d_uvals t del).
Proof.
  intros W. apply Forall_forall. intros v Hv.
  apply (uw_vals _ _ _ _ (tw_undelegations _ W)) in Hv.
  destruct (d_uids t (del, v)) as [|i l] eqn:E; [done|].
  assert (i ∈ d_uids t (del, v)) as Hi by (rewrite E; left).
  apply (uw_ids _ _ _ _ (tw_undelegations _ W)) in Hi as [u Hu].
  by apply (uw_ok _ _ _ _ (tw_undelegations _ W)) in Hu as [(_ & ? & _) _].
Qed.
Lemma GetAccounts_page d m l batch count :
  imap_rep (dm d) l m → Forall is_address l → page_ok batch count = true →
  GetAccounts (dm d) batch count m = (Ret (page l batch count), m).
Proof.
  intros Hr Ha [_ [Hc1 Hc2]%in_range_true]%andb_true_iff. unfold GetAccounts, page.
  assert (is_u32 count) as Hc by (unfold is_u32; lia).
  pose proof (u32_range (batch * count)) as Hs. set (start := u32 (batch * count)) in *.
  destruct (Z.leb_spec (Z.of_nat (length l)) start) as [Hl|Hl].
  - rewrite orb_true_r. erewrite bind_run by (by apply (GetItems_past (dm_prefix d) true l)).
    unfold is_u32 in *. by rewrite drop_ge, take_nil, bool_decide_true by lia.
  - rewrite orb_false_r. destruct (Z.ltb_spec (start + count) (2 ^ 32)) as [Hw|Hw].
    + erewrite bind_run by (by apply (GetItems_spec (dm_prefix d) true l)). simpl.
      rewrite BytesToAddress_map; [done|]. by apply Forall_take, Forall_drop.
    + erewrite bind_run by (by apply (GetItems_wrapped (dm_prefix d) true l)). simpl.
      change (map BytesToAddress ?x) with (BytesToAddress <$> x). by rewrite fmap_replicate.
Qed.

Ltac guards :=
  repeat (apply refines_within; intros ?);
  repeat match goal with
  | H : _ && _ = true |- _ => apply andb_true_iff in H as [? ?]
  | H : addr_b _ = true |- _ => apply addr_b_true in H
  | H : in_range _ _ = true |- _ => apply in_range_true in H
  | H : validator_ok _ = true |- _ => apply validator_ok_true in H
  | H : info_ok _ = true |- _ => apply info_ok_true in H
  | H : rewards_ok _ = true |- _ => apply rewards_ok_true in H
  | H : delegation_ok _ = true |- _ => apply delegation_ok_true in H
  | H : state_ok _ = true |- _ => apply state_ok_true in H
  end.

(** ** [validators.go] *)
Lemma GetValidatorOwner_model v :
  refines dpos_rep (Validators.GetValidatorOwner v) (Spec.GetValidatorOwner v).
Proof.
  unfold Spec.GetValidatorOwner. guards. apply refines_read. intros m t [Hm W].
  unfold Validators.GetValidatorOwner. erewrite bind_run by (by apply (mem_get _ _ _ _ Hm)).
  simpl. destruct (d_validators t !! v) as [r|] eqn:E; simpl; [|done].
  destruct (vw_ok _ _ (tw_validators _ W) v r E) as (_ & _ & _ & _ & Ha).
  destruct (v_owner r) as [|x y] eqn:Eo; [done|]. rewrite <-Eo in *.
  by rewrite BytesToAddress_id.
Qed.
Lemma CheckValidatorOwner_model o v :
  refines dpos_rep (Validators.CheckValidatorOwner o v) (Spec.CheckValidatorOwner o v).
Proof. apply refines_bind; [apply GetValidatorOwner_model|]. intros. apply refines_ret. Qed.
Lemma GetVrfKey_model v : refines dpos_rep (Validators.Validators_GetVrfKey v) (Spec.GetVrfKey v).
Proof.
  unfold Spec.GetVrfKey. guards. apply refines_read. intros m t [Hm W].
  unfold Validators.Validators_GetVrfKey. rewrite (mem_get _ _ _ _ Hm) by done. simpl.
  by destruct (d_validators t !! v).
Qed.
Lemma ValidatorExists_run m t v :
  dpos_rep m t → is_address v →
  Validators.ValidatorExists v m = (Ret (bool_decide (is_Some (d_validators t !! v))), m).
Proof.
  intros Hr Hv. unfold Validators.ValidatorExists.
  rewrite (dm_AccountExists MValidators (d_list t)) by (by apply list_rep_validators || done).
  f_equal. f_equal. apply bool_decide_ext, (vw_list _ _ (tw_validators _ (proj2 Hr))).
Qed.
Lemma ValidatorExists_model v :
  refines dpos_rep (Validators.ValidatorExists v) (Spec.ValidatorExists v).
Proof.
  unfold Spec.ValidatorExists. guards. apply refines_read. intros. by apply ValidatorExists_run.
Qed.
Lemma GetValidatorsAddresses_model b n :
  refines dpos_rep (Validators.GetValidatorsAddresses b n) (Spec.GetValidatorsAddresses b n).
Proof.
  unfold Spec.GetValidatorsAddresses. guards. apply refines_read. intros m t Hr.
  apply (GetAccounts_page MValidators); [by apply list_rep_validators|by apply list_addresses, Hr|done].
Qed.
Lemma GetValidatorsCount_model :
  refines dpos_rep Validators.GetValidatorsCount Spec.GetValidatorsCount.
Proof.
  apply refines_read. intros m t Hr. apply (dm_GetCount MValidators), list_rep_validators, Hr.
Qed.
Lemma GetValidator_model v : refines dpos_rep (Validators.GetValidator v) (Spec.GetValidator v).
Proof.
  unfold Spec.GetValidator. guards. apply refines_read. intros m t Hr.
  by apply load_or_panic_slot, rep_validator.
Qed.
Lemma GetValidatorInfo_model v :
  refines dpos_rep (Validators.GetValidatorInfo v) (Spec.GetValidatorInfo v).
Proof.
  unfold Spec.GetValidatorInfo. guards. apply refines_read. intros m t Hr.
  by apply load_slot, rep_validator.
Qed.
Lemma GetValidatorRewards_model v :
  refines dpos_rep (Validators.GetValidatorRewards v) (Spec.GetValidatorRewards v).
Proof.
  unfold Spec.GetValidatorRewards. guards. apply refines_read. intros m t Hr.
  by apply load_slot, rep_validator.
Qed.

(** ** [delegations.go] and [undelegations.go] *)
Lemma rep_delegation m t del val :
  dpos_rep m t → is_address del → is_address val →
  slot m (genDelegationKey del val) (d_delegations t !! (del, val)).
Proof.
  intros [Hm W] Hd Hv. apply (slot_of _ _ _ (KDelegation del val) _ Hm); [done|done|].
  intros d Hk. by apply (dw_ok _ _ _ (tw_delegations _ W)) in Hk as [_ ?].
Qed.
Lemma rep_fwd m t del :
  dpos_rep m t → is_address del → imap_rep (getDelegatorValidatorsList del) (d_fwd t del) m.
Proof. intros [Hm _] Hd. by apply (mr_map _ _ _ Hm (MDelegatorValidators del)). Qed.
Lemma rep_rev m t val :
  dpos_rep m t → is_address val → imap_rep (getValidatorDelegatorsList val) (d_rev t val) m.
Proof. intros [Hm _] Hd. by apply (mr_map _ _ _ Hm (MValidatorDelegators val)). Qed.
Lemma DelegationExists_run m t del val :
  dpos_rep m t → is_address del → is_address val →
  Delegations.DelegationExists del val m =
    (Ret (bool_decide (is_Some (d_delegations t !! (del, val)))), m).
Proof.
  intros Hr Hd Hv. unfold Delegations.DelegationExists.
  etrans; [by eapply (dm_AccountExists (MDelegatorValidators del)), Hv; apply rep_fwd|].
  f_equal. f_equal. apply bool_decide_ext, (dw_fwd _ _ _ (tw_delegations _ (proj2 Hr))).
Qed.
Lemma DelegationExists_model del val :
  refines dpos_rep (Delegations.DelegationExists del val) (Spec.DelegationExists del val).
Proof.
  unfold Spec.DelegationExists. guards. apply refines_read. intros. by apply DelegationExists_run.
Qed.
Lemma GetDelegationsCount_model del :
  refines dpos_rep (Delegations.GetDelegationsCount del) (Spec.GetDelegationsCount del).
Proof.
  unfold Spec.GetDelegationsCount. guards. apply refines_read. intros m t Hr.
  by apply (dm_GetCount (MDelegatorValidators del)), rep_fwd.
Qed.
Lemma GetDelegation_model del val :
  refines dpos_rep (Delegations.GetDelegation del val) (Spec.GetDelegation del val).
Proof.
  unfold Spec.GetDelegation. guards. apply refines_read. intros m t Hr.
  by apply load_slot, rep_delegation.
Qed.
Lemma GetDelegatorValidatorsAddresses_model del b n :
  refines dpos_rep (Delegations.GetDelegatorValidatorsAddresses del b n)
    (Spec.GetDelegatorValidatorsAddresses del b n).
Proof.
  unfold Spec.GetDelegatorValidatorsAddresses. guards. apply refines_read. intros m t Hr.
  apply (GetAccounts_page (MDelegatorValidators del)); [by apply rep_fwd|by apply fwd_addresses, Hr|done].
Qed.
Lemma GetValidatorDelegators_model val b n :
  refines dpos_rep (Delegations.GetValidatorDelegators val b n)
    (Spec.GetValidatorDelegators val b n).
Proof.
  unfold Spec.GetValidatorDelegators. guards. apply refines_read. intros m t Hr.
  apply (GetAccounts_page (MValidatorDelegators val)); [by apply rep_rev|by apply rev_addresses, Hr|done].
Qed.
Lemma GetAllDelegatorValidatorsAddresses_model del :
  refines dpos_rep (Delegations.GetAllDelegatorValidatorsAddresses del)
    (Spec.GetAllDelegatorValidatorsAddresses del).
Proof.
  unfold Spec.GetAllDelegatorValidatorsAddresses. guards. apply refines_read. intros m t Hr.
  apply (dm_GetAllAccounts (MDelegatorValidators del)); [by apply rep_fwd|by apply fwd_addresses, Hr].
Qed.

Lemma rep_ids m t del val :
  dpos_rep m t → is_address del → is_address val →
  imap_rep (ids_map del val) (Uint64ToBytes <$> d_uids t (del, val)) m.
Proof. intros [Hm _] Hd Hv. by apply (mr_map _ _ _ Hm (MUndelegationIds del val)). Qed.
Lemma rep_uvals m t del :
  dpos_rep m t → is_address del → imap_rep (validators_map del) (d_uvals t del) m.
Proof. intros [Hm _] Hd. by apply (mr_map _ _ _ Hm (MUndelegationValidators del)). Qed.
Lemma rep_undelegation m t del val id :
  dpos_rep m t → ukey_ok (del, val, id) →
  slot m (genUndelegationKey del val id) (d_undelegations t !! (del, val, id)).
Proof.
  intros [Hm W] Hk. apply (slot_of _ _ _ (KUndelegation del val id) _ Hm); [exact Hk|done|].
  intros d HU. by apply (uw_ok _ _ _ _ (tw_undelegations _ W)) in HU as (_ & _ & ?).
Qed.
Lemma ids_elem t del val id :
  dstate_wf t → is_u64 id →
  Uint64ToBytes id ∈ Uint64ToBytes <$> d_uids t (del, val) ↔ id ∈ d_uids t (del, val).
Proof.
  intros W Hi. rewrite list_elem_of_fmap. split; [|eauto]. intros (j & E & Hj).
  apply Uint64ToBytes_inj in E; [by subst|done|].
  apply (uw_ids _ _ _ _ (tw_undelegations _ W)) in Hj as [u Hu].
  by apply (uw_ok _ _ _ _ (tw_undelegations _ W)) in Hu as ((_ & _ & ?) & _).
Qed.
Lemma ukey_b_true del val id : Spec.ukey_b del val id = true → ukey_ok (del, val, id).
Proof.
  unfold Spec.ukey_b. rewrite !andb_true_iff. intros [[?%addr_b_true ?%addr_b_true] ?%in_range_true].
  done.
Qed.
Lemma UndelegationExists_model del val id :
  refines dpos_rep (Undelegations.UndelegationExists del val id)
    (Spec.UndelegationExists del val id).
Proof.
  unfold Spec.UndelegationExists. apply refines_within. intros Hk%ukey_b_true.
  apply refines_read. intros m t Hr. destruct Hk as (Hd & Hv & Hi). simpl in *.
  unfold Undelegations.UndelegationExists.
  etrans; [by eapply (dm_IdExists (MUndelegationIds del val)), rep_ids|].
  f_equal. f_equal. apply bool_decide_ext. rewrite ids_elem by (done || apply Hr).
  apply (uw_ids _ _ _ _ (tw_undelegations _ (proj2 Hr))).
Qed.
Lemma GetUndelegation_model del val id :
  refines dpos_rep (Undelegations.GetUndelegation del val id) (Spec.GetUndelegation del val id).
Proof.
  unfold Spec.GetUndelegation. apply refines_within. intros Hk%ukey_b_true.
  apply refines_read. intros m t Hr. by apply load_slot, rep_undelegation.
Qed.
Lemma GetUndelegationsCount_model del :
  refines dpos_rep (Undelegations.GetUndelegationsCount del) (Spec.GetUndelegationsCount del).
Proof.
  unfold Spec.GetUndelegationsCount. guards. apply refines_read. intros m t Hr.
  unfold Undelegations.GetUndelegationsCount, Spec.count_ids.
  erewrite bind_run by (apply (dm_GetAllAccounts (MUndelegationValidators del));
    [by apply rep_uvals|by apply uvals_addresses, Hr]).
  pose proof (uvals_addresses t del (proj2 Hr)) as Ha. generalize 0 as n.
  induction Ha as [|v l Hv Ha IH]; intros n; simpl; [done|].
  erewrite bind_run by (erewrite bind_run by (by apply (dm_GetCount (MUndelegationIds del v)),
    rep_ids); reflexivity).
  rewrite length_fmap. apply IH.
Qed.
Lemma GetUndelegationsValidator_model del i :
  refines dpos_rep (Undelegations.GetUndelegationsValidator del i)
    (Spec.GetUndelegationsValidator del i).
Proof.
  unfold Spec.GetUndelegationsValidator. guards. apply refines_read. intros m t Hr.
  unfold Undelegations.GetUndelegationsValidator. erewrite bind_run by
    (apply (GetAccounts_page (MUndelegationValidators del));
     [by apply rep_uvals|by apply uvals_addresses, Hr|done]).
  done.
Qed.
Lemma GetUndelegationIdsCount_model del val :
  refines dpos_rep (Undelegations.GetUndelegationIdsCount del val)
    (Spec.GetUndelegationIdsCount del val).
Proof.
  unfold Spec.GetUndelegationIdsCount. guards. apply refines_read. intros m t Hr.
  rewrite <-(length_fmap Uint64ToBytes). by apply (dm_GetCount (MUndelegationIds del val)), rep_ids.
Qed.
Lemma decode_ids {S} l (s : S) :
  Forall is_u64 l →
  map_m (Uint64ToBytes <$> l) (λ b, of_outcome (BytesToUint64 b)) s = (Ret l, s).
Proof.
  induction 1 as [|i l Hi Hl IH]; [done|]. cbn [fmap list_fmap map_m].
  erewrite bind_run by (unfold of_outcome; by rewrite BytesToUint64_ToBytes).
  by erewrite bind_run by exact IH.
Qed.
Lemma GetUndelegationIds_model del val i n :
  refines dpos_rep (Undelegations.GetUndelegationIds del val i n)
    (Spec.GetUndelegationIds del val i n).
Proof.
  unfold Spec.GetUndelegationIds. guards. apply refines_read. intros m t Hr.
  repeat match goal with H : (_ <=? _) = true |- _ => apply Z.leb_le in H
    | H : (_ <? _) = true |- _ => apply Z.ltb_lt in H end.
  unfold Undelegations.GetUndelegationIds, GetIdsFromIdx.
  erewrite bind_run by (eapply (GetItems_spec (dm_prefix (MUndelegationIds del val)) true);
    [by apply rep_ids|unfold is_u32; lia..]).
  cbn [fst snd]. rewrite <-fmap_drop, <-fmap_take.
  erewrite bind_run by (apply decode_ids, Forall_take, Forall_drop, Forall_forall; intros j Hj;
    apply (uw_ids _ _ _ _ (tw_undelegations _ (proj2 Hr))) in Hj as [u Hu];
    by apply (uw_ok _ _ _ _ (tw_undelegations _ (proj2 Hr))) in Hu as ((_ & _ & ?) & _)).
  by rewrite length_fmap.
Qed.

(** ** The slots *)
Lemma decode_compact_enc x :
  is_u64 x → Slots.decode_compact (ENC_b_endian_compact_64_1 x) = Ret x ∧
    ENC_b_endian_compact_64_1 x ≠ [] ∧
    DEC_b_endian_compact_64 (ENC_b_endian_compact_64_1 x) = Ret x.
Proof.
  intros Hx. pose proof (compact_64_roundtrip x Hx) as E.
  assert (ENC_b_endian_compact_64_1 x ≠ []) as N by apply ENC_compact_nonempty.
  unfold Slots.decode_compact. by destruct (ENC_b_endian_compact_64_1 x).
Qed.
Lemma getVotingPowerFactor_model v :
  refines dpos_rep (Slots.getVotingPowerFactor v) (Spec.getVotingPowerFactor v).
Proof.
  unfold Spec.getVotingPowerFactor. guards. apply refines_read. intros m t [Hm W].
  unfold Slots.getVotingPowerFactor.
  erewrite bind_run by (by apply (mem_get _ _ _ (KVotingPowerFactor v) Hm)). cbn [slot_bytes].
  destruct (d_factor t !! v) as [f|] eqn:E; cbn [opt_bytes default]; [|done].
  pose proof (tw_factor _ W v f E) as Hf.
  assert (is_u64 (f + 1)) as Hu by (unfold is_u64; lia). rewrite u64_id by done.
  destruct (decode_compact_enc (f + 1) Hu) as (D & _).
  erewrite bind_run by (unfold of_outcome; by rewrite D).
  destruct (Z.eqb_spec (f + 1) 0); [lia|]. by replace (f + 1 - 1) with f by lia.
Qed.
Lemma getLastActiveBlock_model v :
  refines dpos_rep (Slots.getLastActiveBlock v) (Spec.getLastActiveBlock v).
Proof.
  unfold Spec.getLastActiveBlock. guards. apply refines_read. intros m t [Hm W].
  unfold Slots.getLastActiveBlock.
  erewrite bind_run by (by apply (mem_get _ _ _ (KLastActiveBlock v) Hm)). cbn [slot_bytes].
  destruct (d_active t !! v) as [f|] eqn:E; cbn [opt_bytes default]; [|done].
  unfold of_outcome. by rewrite (proj1 (decode_compact_enc f (tw_active _ W v f E))).
Qed.
Lemma getLastProcessedEpochBlock_model :
  refines dpos_rep Slots.getLastProcessedEpochBlock Spec.getLastProcessedEpochBlock.
Proof.
  apply refines_read. intros m t [Hm W]. unfold Slots.getLastProcessedEpochBlock.
  erewrite bind_run by (by apply (mem_get _ _ _ KLastProcessedEpochBlock Hm)). cbn [slot_bytes].
  destruct (sc_epoch (d_scalars t)) as [b|] eqn:E; cbn [opt_bytes default]; [|done].
  unfold of_outcome.
  by rewrite (proj1 (decode_compact_enc b (sw_epoch _ (tw_scalars _ W) b E))).
Qed.
Lemma cursor_decode c :
  is_u32 c →
  u32 (Z.lor (Z.lor (Z.lor (Z.shiftl (u8 (Z.shiftr c 24)) 24) (Z.shiftl (u8 (Z.shiftr c 16)) 16))
    (Z.shiftl (u8 (Z.shiftr c 8)) 8)) (u8 c)) = c.
Proof.
  intros Hc. transitivity (u32 c); [|by apply u32_id]. unfold u32, u8.
  apply Z.bits_inj'. intros n Hn.
  destruct (Z.lt_ge_cases n 32) as [L|L].
  - rewrite !Z.mod_pow2_bits_low by lia. rewrite !Z.lor_spec, !Z.shiftl_spec by lia.
    assert (∀ k j, 0 <= k → Z.testbit (Z.shiftr c k mod 2 ^ 8) j =
      (0 <=? j) && (j <? 8) && Z.testbit c (j + k)) as T.
    { intros k j Hk. destruct (Z.leb_spec 0 j); simpl; [|by rewrite Z.testbit_neg_r].
      destruct (Z.ltb_spec j 8); simpl.
      - rewrite Z.mod_pow2_bits_low, Z.shiftr_spec by lia. done.
      - by rewrite Z.mod_pow2_bits_high by lia. }
    replace (c mod 2 ^ 8) with (Z.shiftr c 0 mod 2 ^ 8) by (by rewrite Z.shiftr_0_r).
    rewrite !T by lia. rewrite !Z.add_0_r, !Z.sub_add.
    destruct (Z.leb_spec 0 (n - 24)), (Z.ltb_spec (n - 24) 8), (Z.leb_spec 0 (n - 16)),
      (Z.ltb_spec (n - 16) 8), (Z.leb_spec 0 (n - 8)), (Z.ltb_spec (n - 8) 8),
      (Z.leb_spec 0 n), (Z.ltb_spec n 8); try lia; simpl; by rewrite ?orb_false_r.
  - by rewrite !Z.mod_pow2_bits_high by lia.
Qed.
Lemma getEvictionCursor_model v :
  refines dpos_rep (Slots.getEvictionCursor v) (Spec.getEvictionCursor v).
Proof.
  unfold Spec.getEvictionCursor. guards. apply refines_read. intros m t [Hm W].
  unfold Slots.getEvictionCursor.
  erewrite bind_run by (by apply (mem_get _ _ _ (KEvictionCursor v) Hm)). cbn [slot_bytes].
  destruct (d_cursor t !! v) as [c|] eqn:E; cbn [opt_bytes default]; [|done].
  unfold cursor_bytes. by rewrite (cursor_decode c (tw_cursor _ W v c E)).
Qed.
Lemma state_get_model v b : refines dpos_rep (Slots.state_get v b) (Spec.state_get v b).
Proof.
  unfold Spec.state_get. guards. apply refines_read. intros m t [Hm W].
  apply load_slot, (slot_of _ _ _ (KState v b) _ Hm); [done|done|]. intros s. apply (tw_states _ W).
Qed.
Lemma read_eligible_vote_count_model :
  refines dpos_rep Slots.read_eligible_vote_count (Spec.scalar sc_votes).
Proof.
  apply refines_read. intros m t [Hm W]. unfold Slots.read_eligible_vote_count.
  erewrite bind_run by (by apply (mem_get _ _ _ KEligibleVoteCount Hm)). cbn [slot_bytes].
  destruct (sc_votes (d_scalars t)) as [n|] eqn:E; cbn [opt_bytes]; [|done].
  destruct (decode_compact_enc n (sw_votes _ (tw_scalars _ W) n E)) as (_ & N & D).
  destruct (ENC_b_endian_compact_64_1 n) as [|x y] eqn:Ee; [done|]. rewrite <-Ee in *.
  erewrite bind_run by (by rewrite D). done.
Qed.
Lemma read_uint256_run m t k (o : option Z) :
  dpos_rep m t → dk_wf k → slot_bytes t k = opt_bytes u256_bytes o →
  opt_in (λ x, 0 < x < 2 ^ 256) o → Slots.read_uint256 k m = (Ret o, m).
Proof.
  intros [Hm W] Hk E Ho. unfold Slots.read_uint256.
  erewrite bind_run by (by apply (mem_get _ _ _ k Hm)). rewrite E.
  destruct o as [x|]; cbn [opt_bytes]; [|done]. specialize (Ho x eq_refl). cbv beta in Ho.
  unfold u256_bytes. destruct (big_Bytes x) as [|b l] eqn:Ex.
  - apply big_Bytes_nil in Ex; lia.
  - rewrite <-Ex. unfold u256_of_bytes. rewrite be_val_big_Bytes by lia.
    rewrite u256_id by (unfold is_u256; lia). done.
Qed.
Lemma read_scalar_model k (f : Scalars → option Z) :
  dk_wf k → (∀ t, slot_bytes t k = opt_bytes u256_bytes (f (d_scalars t))) →
  (∀ s, scalars_wf s → opt_in (λ x, 0 < x < 2 ^ 256) (f s)) →
  refines dpos_rep (Slots.read_uint256 k) (Spec.scalar f).
Proof.
  intros Hk E Ho. apply refines_read. intros m t Hr. eapply read_uint256_run; [done..|].
  apply Ho, (tw_scalars _ (proj2 Hr)).
Qed.
Lemma read_yield_model : refines dpos_rep Slots.read_yield (Spec.scalar sc_yield).
Proof.
  apply refines_read. intros m t [Hm W]. unfold Slots.read_yield.
  erewrite bind_run by (by apply (mem_get _ _ _ KYield Hm)). cbn [slot_bytes].
  destruct (sc_yield (d_scalars t)) as [y|] eqn:E; cbn [opt_bytes]; [|done].
  pose proof (sw_yield _ (tw_scalars _ W) y E) as Hy.
  assert (Stream_uint 64 (AppendUint y) = (Ret y, [])) as D.
  { rewrite <-(app_nil_r (AppendUint y)). apply Stream_uint_AppendUint; [auto|exact Hy]. }
  destruct (AppendUint y) as [|a l] eqn:Ea; [done|].
  unfold MustDecodeBytes, DecodeBytes.
  erewrite bind_run by (unfold of_outcome; rewrite D; reflexivity). done.
Qed.

(** ** Writes of one key *)
Lemma rep_write m t t' k b :
  dpos_rep m t → dk_wf k → (∀ k', dk_wf k' → slot_bytes t' k' = set_at (slot_bytes t) k b k') →
  (∀ d, dm_wf d → map_items t' d = map_items t d) → dstate_wf t' →
  dpos_rep (view_put (dk k) b m) t'.
Proof.
  intros [Hm W] Hk Hs Hi W'. split; [|done]. eapply mem_ext; [by apply mem_put|done|done].
Qed.
Lemma refines_write (m1 : M (gmap bytes bytes) unit) (f : DState → DState) (k : dkey) b :
  dk_wf k → (∀ m, m1 m = (Ret tt, view_put (dk k) b m)) →
  (∀ t k', dk_wf k' → slot_bytes (f t) k' = set_at (slot_bytes t) k b k') →
  (∀ t d, dm_wf d → map_items (f t) d = map_items t d) →
  (∀ t, dstate_wf t → dstate_wf (f t)) → refines dpos_rep m1 (update f).
Proof.
  intros Hk Hm Hs Hi W m t Hr _. rewrite Hm. split; [done|]. apply (rep_write m t); [done..|intros; by apply Hs|intros; by apply Hi|by apply W, Hr].
Qed.
(** The written key is the one that changes: case analysis on the key. *)
Ltac slot_cases :=
  intros ? k' ?; unfold set_at; case_decide as D; [subst k'|];
  [cbn; rewrite ?lookup_insert_eq, ?lookup_delete_eq; try done
  |destruct k'; cbn; try done; rewrite ?lookup_insert_ne, ?lookup_delete_ne by congruence; try done].
Ltac wf_cases :=
  let W := fresh in
  intros ? W; destruct W; split; cbn; try done;
  intros ? ?; rewrite ?lookup_insert_Some, ?lookup_delete_Some; intros; destruct_or?; destruct_and?;
  subst;
  first [done | match goal with H : _ |- _ => by eapply H end].

Lemma setVotingPowerFactor_model v f :
  refines dpos_rep (Slots.setVotingPowerFactor v f) (Spec.setVotingPowerFactor v f).
Proof.
  unfold Spec.setVotingPowerFactor. guards.
  eapply (refines_write _ _ (KVotingPowerFactor v)); [done|done|slot_cases|done|wf_cases].
Qed.
Lemma clearVotingPowerFactor_model v :
  refines dpos_rep (Slots.clearVotingPowerFactor v) (Spec.clearVotingPowerFactor v).
Proof.
  unfold Spec.clearVotingPowerFactor. guards.
  eapply (refines_write _ _ (KVotingPowerFactor v)); [done|done|slot_cases|done|wf_cases].
Qed.
Lemma setLastActiveBlock_model v b :
  refines dpos_rep (Slots.setLastActiveBlock v b) (Spec.setLastActiveBlock v b).
Proof.
  unfold Spec.setLastActiveBlock. guards.
  eapply (refines_write _ _ (KLastActiveBlock v)); [done|done|slot_cases|done|wf_cases].
Qed.
Lemma clearLastActiveBlock_model v :
  refines dpos_rep (Slots.clearLastActiveBlock v) (Spec.clearLastActiveBlock v).
Proof.
  unfold Spec.clearLastActiveBlock. guards.
  eapply (refines_write _ _ (KLastActiveBlock v)); [done|done|slot_cases|done|wf_cases].
Qed.
Lemma setEvictionCursor_model v c :
  refines dpos_rep (Slots.setEvictionCursor v c) (Spec.setEvictionCursor v c).
Proof.
  unfold Spec.setEvictionCursor. guards.
  eapply (refines_write _ _ (KEvictionCursor v)); [done|done|slot_cases|done|wf_cases].
Qed.
Lemma clearEvictionCursor_model v :
  refines dpos_rep (Slots.clearEvictionCursor v) (Spec.clearEvictionCursor v).
Proof.
  unfold Spec.clearEvictionCursor. guards.
  eapply (refines_write _ _ (KEvictionCursor v)); [done|done|slot_cases|done|wf_cases].
Qed.
Lemma state_put_model v b s :
  refines dpos_rep (Slots.state_put v b s) (Spec.state_put v b s).
Proof.
  unfold Spec.state_put. guards. destruct s as [s|].
  - guards. eapply (refines_write _ _ (KState v b));
      [done|intros; by apply save_run|slot_cases|done|wf_cases].
  - eapply (refines_write _ _ (KState v b)); [done|done|slot_cases|done|wf_cases].
Qed.
(** A write of a chain-wide value. *)
Ltac scalar_wf :=
  intros ? [? ? ? ? ? ? ? []]; split; cbn; try done; split; cbn; try done;
  intros ? [= <-]; unfold is_u64; lia.
Lemma setLastProcessedEpochBlock_model b :
  refines dpos_rep (Slots.setLastProcessedEpochBlock b) (Spec.setLastProcessedEpochBlock b).
Proof.
  unfold Spec.setLastProcessedEpochBlock. guards.
  eapply (refines_write _ _ KLastProcessedEpochBlock); [done|done|slot_cases|done|scalar_wf].
Qed.
Lemma write_eligible_vote_count_model n :
  refines dpos_rep (Slots.write_eligible_vote_count n) (Spec.write_eligible_vote_count n).
Proof.
  unfold Spec.write_eligible_vote_count. guards.
  eapply (refines_write _ _ KEligibleVoteCount); [done|done|slot_cases|done|scalar_wf].
Qed.
Lemma nonzero_bytes x : opt_bytes u256_bytes (Spec.nonzero x) = u256_bytes x.
Proof. unfold Spec.nonzero. destruct (Z.eqb_spec x 0); subst; done. Qed.
Lemma nonzero_in x : 0 <= x < 2 ^ 256 → opt_in (λ x, 0 < x < 2 ^ 256) (Spec.nonzero x).
Proof.
  intros Hx y. unfold Spec.nonzero. destruct (Z.eqb_spec x 0); [done|]. intros [= <-]. lia.
Qed.
Ltac scalar256_wf :=
  intros ? [? ? ? ? ? ? ? []]; split; cbn; try done; split; cbn; try done; by apply nonzero_in.
Lemma write_amount_delegated_model x :
  refines dpos_rep (Slots.write_amount_delegated x) (Spec.write_amount_delegated x).
Proof.
  unfold Spec.write_amount_delegated. guards. eapply (refines_write _ _ KAmountDelegated);
    [done|done|slot_cases; apply nonzero_bytes|done|scalar256_wf].
Qed.
Lemma saveTotalSupplyDb_model x :
  refines dpos_rep (Slots.saveTotalSupplyDb x) (Spec.saveTotalSupplyDb x).
Proof.
  unfold Spec.saveTotalSupplyDb. guards. eapply (refines_write _ _ KTotalSupply);
    [done|done|slot_cases; apply nonzero_bytes|done|scalar256_wf].
Qed.
Lemma eraseMintedTokensDb_model :
  refines dpos_rep Slots.eraseMintedTokensDb Spec.eraseMintedTokensDb.
Proof.
  eapply (refines_write _ _ KMintedTokens); [done|done|slot_cases|done|].
  intros ? [? ? ? ? ? ? ? []]; split; cbn; try done; split; cbn; done.
Qed.
Lemma saveYieldDb_model y : refines dpos_rep (Slots.saveYieldDb y) (Spec.saveYieldDb y).
Proof.
  unfold Spec.saveYieldDb. guards.
  eapply (refines_write _ _ KYield); [done|done|slot_cases|done|scalar_wf].
Qed.

(** ** Writes of several keys: [validators.go] *)
Lemma put_validators_wf t (l' : list address) (V : gmap address VRec) :
  dstate_wf t → validators_wf l' V → dstate_wf (put_validators l' V t).
Proof. intros [] ?. by split. Qed.
Lemma validators_wf_modify (l : list address) (V : gmap address VRec) v r r' :
  validators_wf l V → V !! v = Some r → vrec_wf r' → validators_wf l (<[v := r']> V).
Proof.
  intros [Hn Hl Ho] Hv Hr. split; [done| |].
  - intros w. rewrite lookup_insert_is_Some', Hl. split; [by right|]. intros [->|?]; [by eexists|done].
  - intros w x. rewrite lookup_insert_Some. intros [[-> ->]|[_ Hw]]; [|by apply Ho].
    split; [by apply (Ho w r)|done].
Qed.
Lemma Modify_model {A} `{!RlpCodec A} v k (x : A) (f : VRec → VRec) :
  is_address v → dk_wf k → rlp_wf x →
  (∀ t r k', d_validators t !! v = Some r → dk_wf k' →
    slot_bytes (put_validators (d_list t) (<[v := f r]> (d_validators t)) t) k' =
      set_at (slot_bytes t) k (enc x) k') →
  (∀ r, vrec_wf r → vrec_wf (f r)) →
  refines dpos_rep (Validators.Modify v (dk k) x) (Spec.Modify v f).
Proof.
  intros Hv Hk Hx Hs Hf. apply refines_run. intros m t Hr _. unfold Validators.Modify, Spec.Modify.
  erewrite (bind_run (view_of _)) by done.
  erewrite bind_run by (by apply (ValidatorExists_run m t)).
  destruct (d_validators t !! v) as [r|] eqn:E.
  - rewrite bool_decide_true by done. erewrite bind_run by done. rewrite save_run by done.
    eexists. split; [done|]. apply (rep_write m t); [done|done|intros; by apply Hs|done|].
    apply put_validators_wf; [apply Hr|]. eapply validators_wf_modify; [apply Hr|done|].
    apply Hf. by eapply vw_ok; [apply Hr|].
  - rewrite bool_decide_false by (by intros []). by exists m.
Qed.
Ltac modify_slots :=
  intros t r k' Hr Wk; unfold set_at; case_decide as D; [subst k'; cbn; by rewrite lookup_insert_eq|];
  destruct k' as [v'|v'|v'|v'|v'| | | | | | | | | | | | |]; cbn; try done;
  match goal with |- context [<[?v := _]> _ !! ?v'] =>
    destruct (decide (v' = v)) as [->|]; [|by rewrite lookup_insert_ne by done]
  end; rewrite lookup_insert_eq, Hr; done || congruence.
Lemma ModifyValidator_model v x :
  refines dpos_rep (Validators.ModifyValidator v x) (Spec.ModifyValidator v x).
Proof.
  unfold Spec.ModifyValidator. guards. apply Modify_model; [done..|modify_slots|].
  intros r (? & ? & ? & ?). by split_and!.
Qed.
Lemma ModifyValidatorInfo_model v x :
  refines dpos_rep (Validators.ModifyValidatorInfo v x) (Spec.ModifyValidatorInfo v x).
Proof.
  unfold Spec.ModifyValidatorInfo. guards. apply Modify_model; [done..|modify_slots|].
  intros r (? & ? & ? & ?). by split_and!.
Qed.
Lemma ModifyValidatorRewards_model v x :
  refines dpos_rep (Validators.ModifyValidatorRewards v x) (Spec.ModifyValidatorRewards v x).
Proof.
  unfold Spec.ModifyValidatorRewards. guards. apply Modify_model; [done..|modify_slots|].
  intros r (? & ? & ? & ?). by split_and!.
Qed.
Lemma AddValidatorRewards_model v c r :
  refines dpos_rep (Validators.AddValidatorRewards v c r) (Spec.AddValidatorRewards v c r).
Proof.
  apply refines_bind; [apply ValidatorExists_model|intros e].
  apply refines_bind; [apply refines_panic_if|intros _].
  apply refines_bind; [apply GetValidatorRewards_model|intros rw].
  apply refines_bind; [apply refines_deref|intros rw']. apply ModifyValidatorRewards_model.
Qed.

(** Removal of an entry of an index. *)
Lemma drop_entry_spec {A} `{EqDecision A} (x : A) l :
  x ∈ l → ∃ i, l !! i = Some x ∧ drop_entry x l = swap_remove i l.
Proof.
  intros Hx. unfold drop_entry. destruct (list_find (x =.) l) as [[i y]|] eqn:F.
  - apply list_find_Some in F as (Hi & <- & _). eauto.
  - apply list_find_None in F. rewrite Forall_forall in F. by destruct (F x Hx).
Qed.
Lemma drop_entry_elem {A} `{EqDecision A} (x y : A) l :
  NoDup l → x ∈ l → y ∈ drop_entry x l ↔ y ∈ l ∧ y ≠ x.
Proof. intros Hn (i & Hi & ->)%drop_entry_spec. by apply swap_remove_elem. Qed.
Lemma drop_entry_NoDup {A} `{EqDecision A} (x : A) l : NoDup l → x ∈ l → NoDup (drop_entry x l).
Proof. intros Hn (i & Hi & ->)%drop_entry_spec. by eapply swap_remove_NoDup. Qed.
Lemma NoDup_snoc {A} (l : list A) x : NoDup l → x ∉ l → NoDup (l ++ [x]).
Proof.
  intros Hn Hx. apply NoDup_app. split_and!; [done| |apply NoDup_singleton].
  intros y Hy ->%list_elem_of_singleton. done.
Qed.
Lemma index_room_true {A} (l : list A) :
  index_room l = true → Z.of_nat (length l) + 1 < 2 ^ 32.
Proof. apply Z.ltb_lt. Qed.

(** Give the outcome and the state the model runs to. *)
Ltac model_result X :=
  match goal with |- ∃ _, _ = (fst ?Y, _) ∧ _ => change Y with X end; cbn [fst snd].
Lemma CreateValidator_model o v vrf b c d e :
  refines dpos_rep (Validators.CreateValidator o v vrf b c d e)
    (Spec.CreateValidator o v vrf b c d e).
Proof.
  unfold Spec.CreateValidator. guards. apply refines_run. intros m t Hr Ho.
  set (r := {| v_validator := _ |}) in *.
  erewrite (bind_run (view_of _)) in Ho |- * by done.
  destruct (index_room (d_list t)) eqn:HR; [|done].
  destruct (bool_decide _) eqn:Hx; [done|]. apply bool_decide_eq_false in Hx. clear Ho.
  apply index_room_true in HR.
  model_result (Ret (v_validator r), put_validators (d_list t ++ [v]) (<[v := r]> (d_validators t)) t).
  assert (rlp_wf (v_rewards r)) as Hrw by (repeat split; vm_compute; done || discriminate).
  destruct Hr as [Hm W]. assert (v ∉ d_list t) as Hni by (by rewrite (vw_list _ _ (tw_validators _ W))).
  unfold Validators.CreateValidator.
  destruct (mem_save _ _ m (KValidator v) (v_validator r) Hm) as [E1 M1]; [done..|].
  erewrite bind_run by exact E1.
  destruct (mem_save _ _ _ (KValidatorInfo v) (v_info r) M1) as [E2 M2]; [done..|].
  erewrite bind_run by exact E2.
  destruct (mem_save _ _ _ (KValidatorRewards v) (v_rewards r) M2) as [E3 M3]; [done..|].
  erewrite bind_run by exact E3.
  erewrite bind_run by reflexivity. erewrite bind_run by reflexivity.
  pose proof (mem_put _ _ _ (KOwner v) o M3 ltac:(done)) as M4.
  pose proof (mem_put _ _ _ (KVrfKey v) vrf M4 ltac:(done)) as M5.
  pose proof (mr_map _ _ _ M5 MValidators I) as HL. cbn in HL.
  match type of M5 with mem_rep _ _ ?mm =>
    destruct (dm_CreateAccount MValidators (d_list t) mm v HL) as (m' & E & R' & F); [done..|] end.
  erewrite bind_run by exact E. eexists. split; [done|]. split.
  - eapply mem_ext; [exact (mem_map _ _ _ _ MValidators _ M5 I R' F)| |].
    + intros k' _. unfold set_at. repeat case_decide; subst; cbn; rewrite ?lookup_insert_eq; try done.
      destruct k' as [v'|v'|v'|v'|v'| | | | | | | | | | | | |]; cbn; try done;
        rewrite lookup_insert_ne by congruence; done.
    + intros d' _. unfold set_at. case_decide; subst; [done|]. by destruct d'.
  - apply put_validators_wf; [done|]. destruct (tw_validators _ W) as [Hn Hl Hok]. split.
    + by apply NoDup_snoc.
    + intros w. rewrite elem_of_app, list_elem_of_singleton, lookup_insert_is_Some', Hl.
      split; intros [|]; auto.
    + intros w x. rewrite lookup_insert_Some. intros [[-> <-]|[_ Hw]]; [|by apply Hok].
      split; [done|]. by split_and!.
Qed.
Lemma DeleteValidator_model v :
  refines dpos_rep (Validators.DeleteValidator v) (Spec.DeleteValidator v).
Proof.
  unfold Spec.DeleteValidator. guards. apply refines_run. intros m t [Hm W] Ho.
  erewrite (bind_run (view_of _)) in Ho |- * by done.
  destruct (bool_decide _) eqn:Hx; [|done]. apply bool_decide_eq_true in Hx. clear Ho.
  model_result (Ret tt, put_validators (drop_entry v (d_list t)) (delete v (d_validators t)) t).
  destruct (tw_validators _ W) as [Hn Hl Hok].
  destruct (drop_entry_spec v (d_list t)) as (i & Hi & ->); [by apply Hl|].
  unfold Validators.DeleteValidator. do 5 (erewrite bind_run by reflexivity).
  pose proof (mem_put _ _ _ (KValidator v) [] Hm ltac:(done)) as M1.
  pose proof (mem_put _ _ _ (KValidatorInfo v) [] M1 ltac:(done)) as M2.
  pose proof (mem_put _ _ _ (KOwner v) [] M2 ltac:(done)) as M3.
  pose proof (mem_put _ _ _ (KVrfKey v) [] M3 ltac:(done)) as M4.
  pose proof (mem_put _ _ _ (KValidatorRewards v) [] M4 ltac:(done)) as M5.
  pose proof (mr_map _ _ _ M5 MValidators I) as HL. cbn in HL.
  match type of M5 with mem_rep _ _ ?mm =>
    destruct (dm_RemoveAccount MValidators (d_list t) mm i v HL Hi) as (m' & E & R' & F) end.
  erewrite bind_run by exact E. eexists. split; [done|]. split.
  - eapply mem_ext; [exact (mem_map _ _ _ _ MValidators _ M5 I R' F)| |].
    + intros k' _. unfold set_at. repeat case_decide; subst; cbn; rewrite ?lookup_delete_eq; try done.
      destruct k' as [v'|v'|v'|v'|v'| | | | | | | | | | | | |]; cbn; try done;
        rewrite lookup_delete_ne by congruence; done.
    + intros d' _. unfold set_at. case_decide; subst; [done|]. by destruct d'.
  - apply put_validators_wf; [done|]. split.
    + by eapply swap_remove_NoDup.
    + intros w. rewrite (swap_remove_elem i _ v) by done.
      rewrite lookup_delete_is_Some, Hl. split; intros [? ?]; split; congruence || done.
    + intros w x. rewrite lookup_delete_Some. intros [_ Hw]. by apply Hok.
Qed.

(** ** Writes of several keys: [delegations.go] *)
Lemma put_delegations_wf t D fwd rev :
  dstate_wf t → delegations_wf D fwd rev → dstate_wf (put_delegations D fwd rev t).
Proof. intros [] ?. by split. Qed.
Lemma slot_delegation t D fwd rev del val b k' :
  (∀ p, p ≠ (del, val) → D !! p = d_delegations t !! p) → enc_opt (D !! (del, val)) = b →
  slot_bytes (put_delegations D fwd rev t) k' =
    set_at (slot_bytes t) (KDelegation del val) b k'.
Proof.
  intros HD Hb. unfold set_at. case_decide as E; [by subst k'|].
  destruct k'; cbn; try done. rewrite HD; [done|congruence].
Qed.
Lemma map_delegation t D del val lf lr d :
  map_items (put_delegations D (set_at (d_fwd t) del lf) (set_at (d_rev t) val lr) t) d =
    set_at (set_at (map_items t) (MDelegatorValidators del) lf) (MValidatorDelegators val) lr d.
Proof.
  unfold set_at. destruct d; cbn; repeat case_decide; try done; congruence.
Qed.
Lemma ModifyDelegation_model del val d :
  refines dpos_rep (Delegations.ModifyDelegation del val d) (Spec.ModifyDelegation del val d).
Proof.
  unfold Spec.ModifyDelegation. guards. apply refines_run. intros m t Hr _.
  erewrite (bind_run (view_of _)) by done. unfold Delegations.ModifyDelegation.
  erewrite bind_run by (by apply (DelegationExists_run m t)).
  destruct (bool_decide (is_Some (d_delegations t !! (del, val)))) eqn:E; [|by exists m].
  apply bool_decide_eq_true in E. erewrite bind_run by done. unfold genDelegationKey.
  rewrite save_run by done. eexists. split; [done|].
  apply (rep_write m t); [done|done| |done|].
  - intros k' _. apply slot_delegation; [intros p Hp; by rewrite lookup_insert_ne by congruence|].
    by rewrite lookup_insert_eq.
  - apply put_delegations_wf; [apply Hr|].
    destruct (tw_delegations _ (proj2 Hr)) as [Hok Hf Hv Hfd Hrd]. split; try done.
    + intros p x. rewrite lookup_insert_Some. intros [[<- <-]|[_ ?]]; [done|by apply Hok].
    + intros a b. rewrite Hfd, lookup_insert_is_Some'. split; [by right|intros [[= -> ->]|]; done].
    + intros a b. rewrite Hrd, lookup_insert_is_Some'. split; [by right|intros [[= -> ->]|]; done].
Qed.
Lemma CreateDelegation_model del val b s :
  refines dpos_rep (Delegations.CreateDelegation del val b s) (Spec.CreateDelegation del val b s).
Proof.
  unfold Spec.CreateDelegation. guards. apply refines_run. intros m t [Hm W] Ho.
  set (d := {| Stake := s; Delegation_LastUpdated := b |}) in *.
  erewrite (bind_run (view_of _)) in Ho |- * by done.
  destruct (negb _ && _ && _) eqn:Hx; [|done]. clear Ho.
  rewrite !andb_true_iff, negb_true_iff, bool_decide_eq_false in Hx. destruct Hx as [[Hx HF] HR].
  apply index_room_true in HF, HR.
  destruct (tw_delegations _ W) as [Hok Hf Hv Hfd Hrd].
  model_result (Ret tt, put_delegations (<[(del, val) := d]> (d_delegations t))
    (set_at (d_fwd t) del (d_fwd t del ++ [val])) (set_at (d_rev t) val (d_rev t val ++ [del])) t).
  unfold Delegations.CreateDelegation.
  destruct (mem_save _ _ m (KDelegation del val) d Hm) as [E1 M1]; [done..|].
  erewrite bind_run by exact E1.
  pose proof (mr_map _ _ _ M1 (MDelegatorValidators del) ltac:(done)) as R1. cbn in R1.
  match type of M1 with mem_rep _ _ ?mm =>
    destruct (dm_CreateAccount (MDelegatorValidators del) (d_fwd t del) mm val R1)
      as (m2 & E2 & R2 & F2); [done|by rewrite Hfd|done|] end.
  pose proof (mem_map _ _ _ _ (MDelegatorValidators del) _ M1 ltac:(done) R2 F2) as M2.
  erewrite bind_run by exact E2.
  pose proof (mr_map _ _ _ M2 (MValidatorDelegators val) ltac:(done)) as R3.
  rewrite set_at_ne in R3 by done. cbn in R3.
  destruct (dm_CreateAccount (MValidatorDelegators val) (d_rev t val) m2 del R3)
    as (m3 & E3 & R4 & F3); [done|by rewrite Hrd|done|].
  pose proof (mem_map _ _ _ _ (MValidatorDelegators val) _ M2 ltac:(done) R4 F3) as M3.
  erewrite bind_run by exact E3. eexists. split; [done|]. split.
  - eapply mem_ext; [exact M3| |intros; apply map_delegation].
    intros k' _. apply slot_delegation; [intros p Hp; by rewrite lookup_insert_ne by congruence|].
    by rewrite lookup_insert_eq.
  - apply put_delegations_wf; [done|]. split.
    + intros p x. rewrite lookup_insert_Some. intros [[<- <-]|[_ ?]]; [done|by apply Hok].
    + intros a. unfold set_at. case_decide; subst; [|done]. by apply NoDup_snoc; [|rewrite Hfd].
    + intros a. unfold set_at. case_decide; subst; [|done]. by apply NoDup_snoc; [|rewrite Hrd].
    + intros a v. rewrite lookup_insert_is_Some'. unfold set_at. case_decide as D; subst.
      * rewrite elem_of_app, list_elem_of_singleton, Hfd. split; (intros [?|?]; [right|left]); done || congruence.
      * rewrite Hfd. split; [by right|]. intros [|]; [congruence|done].
    + intros a v. rewrite lookup_insert_is_Some'. unfold set_at. case_decide as D; subst.
      * rewrite elem_of_app, list_elem_of_singleton, Hrd. split; (intros [?|?]; [right|left]); done || congruence.
      * rewrite Hrd. split; [by right|]. intros [|]; [congruence|done].
Qed.
Lemma RemoveDelegation_model del val :
  refines dpos_rep (Delegations.RemoveDelegation del val) (Spec.RemoveDelegation del val).
Proof.
  unfold Spec.RemoveDelegation. guards. apply refines_run. intros m t [Hm W] Ho.
  erewrite (bind_run (view_of _)) in Ho |- * by done.
  destruct (bool_decide _) eqn:Hx; [|done]. apply bool_decide_eq_true in Hx. clear Ho.
  destruct (tw_delegations _ W) as [Hok Hf Hv Hfd Hrd].
  model_result (Ret tt, put_delegations (delete (del, val) (d_delegations t))
    (set_at (d_fwd t) del (drop_entry val (d_fwd t del)))
    (set_at (d_rev t) val (drop_entry del (d_rev t val))) t).
  destruct (drop_entry_spec val (d_fwd t del)) as (i & Hi & Ei); [by apply Hfd|].
  destruct (drop_entry_spec del (d_rev t val)) as (j & Hj & Ej); [by apply Hrd|].
  unfold Delegations.RemoveDelegation. erewrite bind_run by reflexivity.
  pose proof (mem_put _ _ _ (KDelegation del val) [] Hm ltac:(done)) as M1.
  pose proof (mr_map _ _ _ M1 (MDelegatorValidators del) ltac:(done)) as R1. cbn in R1.
  match type of M1 with mem_rep _ _ ?mm =>
    destruct (dm_RemoveAccount (MDelegatorValidators del) (d_fwd t del) mm i val R1 Hi)
      as (m2 & E2 & R2 & F2) end.
  pose proof (mem_map _ _ _ _ (MDelegatorValidators del) _ M1 ltac:(done) R2 F2) as M2.
  erewrite bind_run by exact E2.
  pose proof (mr_map _ _ _ M2 (MValidatorDelegators val) ltac:(done)) as R3.
  rewrite set_at_ne in R3 by done. cbn in R3.
  destruct (dm_RemoveAccount (MValidatorDelegators val) (d_rev t val) m2 j del R3 Hj)
    as (m3 & E3 & R4 & F3).
  pose proof (mem_map _ _ _ _ (MValidatorDelegators val) _ M2 ltac:(done) R4 F3) as M3.
  erewrite bind_run by exact E3. rewrite Ei, Ej. eexists. split; [done|]. split.
  - eapply mem_ext; [exact M3| |intros; apply map_delegation].
    intros k' _. apply slot_delegation; [intros p Hp; by rewrite lookup_delete_ne by congruence|].
    by rewrite lookup_delete_eq.
  - apply put_delegations_wf; [done|]. split.
    + intros p x. rewrite lookup_delete_Some. intros [_ ?]. by apply Hok.
    + intros a. unfold set_at. case_decide; subst; [|done]. by eapply swap_remove_NoDup.
    + intros a. unfold set_at. case_decide; subst; [|done]. by eapply swap_remove_NoDup.
    + intros a v. rewrite lookup_delete_is_Some. unfold set_at. case_decide as D; subst.
      * rewrite (swap_remove_elem i _ val), Hfd by done. split; intros [? ?]; split; congruence.
      * rewrite Hfd. split; [intros; split; congruence|by intros []].
    + intros a v. rewrite lookup_delete_is_Some. unfold set_at. case_decide as D; subst.
      * rewrite (swap_remove_elem j _ del), Hrd by done. split; intros [? ?]; split; congruence.
      * rewrite Hrd. split; [intros; split; congruence|by intros []].
Qed.

(** ** Writes of several keys: [undelegations.go] *)
Lemma put_undelegations_wf t U last uids uvals :
  dstate_wf t → undelegations_wf U last uids uvals →
  dstate_wf (put_undelegations U last uids uvals t).
Proof. intros [] ?. by split. Qed.
Lemma slot_undelegation t U last uids uvals del val id b c k' :
  (∀ p, p ≠ (del, val, id) → U !! p = d_undelegations t !! p) →
  enc_opt (U !! (del, val, id)) = b →
  (∀ a, a ≠ del → last a = d_last t a) → nat_bytes (last del) = c →
  slot_bytes (put_undelegations U last uids uvals t) k' =
    set_at (set_at (slot_bytes t) (KLastUniqueId del) c) (KUndelegation del val id) b k'.
Proof.
  intros HU Hb Hl Hc. unfold set_at. case_decide as E; [by subst k'|].
  case_decide as E2; [by subst k'|].
  destruct k'; cbn; try done; [rewrite HU|rewrite Hl]; congruence.
Qed.
Lemma map_undelegation t U last del val li lv d :
  map_items (put_undelegations U last (set_at (d_uids t) (del, val) li)
    (set_at (d_uvals t) del lv) t) d =
  set_at (set_at (map_items t) (MUndelegationIds del val) (Uint64ToBytes <$> li))
    (MUndelegationValidators del) lv d.
Proof. unfold set_at. destruct d; cbn; repeat case_decide; try done; congruence. Qed.
Lemma nat_bytes_eq x : x ≠ 0 → nat_bytes x = Uint64ToBytes x.
Proof. intros Hx. unfold nat_bytes. by destruct (Z.eqb_spec x 0). Qed.
Lemma genUniqueId_model_run f g m t del :
  mem_rep f g m → f (KLastUniqueId del) = nat_bytes (d_last t del) → is_address del →
  is_u64 (d_last t del) → d_last t del + 1 < 2 ^ 64 →
  genUniqueId del m = (Ret (d_last t del + 1),
    view_put (dk (KLastUniqueId del)) (Uint64ToBytes (d_last t del + 1)) m).
Proof.
  intros Hm Hf Hd Hu Hlt. unfold is_u64 in Hu. unfold genUniqueId.
  erewrite bind_run by (by apply (mem_get _ _ _ (KLastUniqueId del) Hm)). rewrite Hf. unfold nat_bytes.
  destruct (Z.eqb_spec (d_last t del) 0) as [Z0|Z0]; [by rewrite Z0|].
  pose proof (BytesToUint64_ToBytes _ Hu) as B.
  pose proof (Uint64ToBytes_length (d_last t del)) as L.
  destruct (Uint64ToBytes (d_last t del)) as [|x y] eqn:Ex; [done|]. rewrite <-Ex in *.
  erewrite bind_run by (unfold of_outcome; by rewrite B).
  by rewrite u64_id by (unfold is_u64; lia).
Qed.
Lemma undelegations_wf_create U last uids uvals del val (u : Undelegation) :
  undelegations_wf U last uids uvals → is_address del → is_address val →
  is_u64 (last del + 1) → rlp_wf u →
  undelegations_wf (<[(del, val, last del + 1) := u]> U) (set_at last del (last del + 1))
    (set_at uids (del, val) (uids (del, val) ++ [last del + 1]))
    (set_at uvals del (if bool_decide (uids (del, val) = []) then uvals del ++ [val] else uvals del)).
Proof.
  intros [Hok Hi Hv Hid Hvd Hl] Hd Ha Hu Hwf. pose proof (Hl del) as Hl0. unfold is_u64 in *.
  assert (U !! (del, val, last del + 1) = None) as Hnew.
  { destruct (U !! (del, val, last del + 1)) eqn:E; [|done]. apply Hok in E. simpl in E. lia. }
  split.
  - intros k x. rewrite lookup_insert_Some. unfold set_at. intros [[<- <-]|[_ Hk]].
    + cbn [fst snd]. rewrite decide_True by done. split; [done|]. split; [lia|done].
    + apply Hok in Hk as (? & ? & ?). split; [done|]. split; [|done].
      case_decide as E; [rewrite E in *|]; lia.
  - intros p. unfold set_at. case_decide; subst; [|done]. apply NoDup_snoc; [done|].
    rewrite Hid, Hnew. by intros [].
  - intros a. unfold set_at. case_decide; subst; [|done]. case_bool_decide as E; [|done].
    apply NoDup_snoc; [done|]. rewrite Hvd. by intros ?.
  - intros a b i. rewrite lookup_insert_is_Some'. unfold set_at. case_decide as E.
    + injection E as -> ->. rewrite elem_of_app, list_elem_of_singleton, Hid.
      split; (intros [?|?]; [right|left]); done || congruence.
    + rewrite Hid. split; [by right|]. intros [|]; [congruence|done].
  - intros a b. unfold set_at. repeat case_decide; simplify_eq; try done.
    + case_bool_decide as E.
      * rewrite elem_of_app, list_elem_of_singleton. split; [|by right]. intros _ [_ ?]%app_eq_nil. done.
      * rewrite Hvd. split; [|done]. intros _ [_ ?]%app_eq_nil. done.
    + case_bool_decide as E; [|done]. rewrite elem_of_app, list_elem_of_singleton, Hvd.
      split; [|by left]. intros [|]; [done|congruence].
  - intros a. unfold set_at. case_decide; subst; unfold is_u64; [lia|apply Hl].
Qed.
Lemma undelegations_wf_remove U last uids uvals del val id :
  undelegations_wf U last uids uvals → is_Some (U !! (del, val, id)) →
  undelegations_wf (delete (del, val, id) U) last
    (set_at uids (del, val) (drop_entry id (uids (del, val))))
    (set_at uvals del (if bool_decide (length (uids (del, val)) = 1%nat)
                       then drop_entry val (uvals del) else uvals del)).
Proof.
  intros [Hok Hi Hv Hid Hvd Hl] HS. assert (id ∈ uids (del, val)) as Hin by (by apply Hid).
  assert (val ∈ uvals del) as Hvin.
  { apply Hvd. intros E. rewrite E in Hin. by apply elem_of_nil in Hin. }
  destruct (drop_entry_spec id (uids (del, val)) Hin) as (j & Hj & Ej).
  pose proof (swap_remove_length j (uids (del, val))) as Hlen. rewrite <-Ej in Hlen.
  assert (length (uids (del, val)) = 1%nat ↔ drop_entry id (uids (del, val)) = []) as Hone.
  { rewrite <-length_zero_iff_nil, Hlen. apply lookup_lt_Some in Hj. lia. }
  split.
  - intros k u. rewrite lookup_delete_Some. intros [_ ?]. by apply Hok.
  - intros p. unfold set_at. case_decide; subst; [|done]. by apply drop_entry_NoDup.
  - intros a. unfold set_at. case_decide; subst; [|done]. case_bool_decide; [|done].
    by apply drop_entry_NoDup.
  - intros a b i. rewrite lookup_delete_is_Some. unfold set_at. case_decide as E.
    + injection E as -> ->. rewrite drop_entry_elem, Hid by done.
      split; intros [? ?]; split; congruence.
    + rewrite Hid. split; [intros; split; congruence|by intros []].
  - intros a b. unfold set_at.
    destruct (decide (a = del)) as [->|N]; [|by rewrite decide_False by congruence].
    destruct (decide ((del, b) = (del, val))) as [[= ->]|N].
    + case_bool_decide as E.
      * rewrite drop_entry_elem by done. rewrite Hone in E. rewrite E. by split; [intros []|].
      * rewrite Hone in E. by split.
    + case_bool_decide as E; [|done]. rewrite drop_entry_elem, Hvd by done.
      split; [by intros []|]. split; [done|congruence].
  - done.
Qed.
Lemma CreateUndelegation_model del val b a :
  refines dpos_rep (Undelegations.CreateUndelegation del val b a)
    (Spec.CreateUndelegation del val b a).
Proof.
  unfold Spec.CreateUndelegation. guards. apply refines_run. intros m t [Hm W] Ho.
  erewrite (bind_run (view_of _)) in Ho |- * by done.
  erewrite (bind_run (view_of _)) in Ho |- * by done.
  set (id := d_last t del + 1) in *. set (u := {| Amount := a |}) in *.
  destruct (in_range 64 id && _) eqn:Hx; [|done]. clear Ho.
  rewrite !andb_true_iff in Hx. destruct Hx as (Hid%in_range_true & HI%index_room_true & HV%index_room_true).
  pose proof (tw_undelegations _ W) as WU. pose proof (uw_last _ _ _ _ WU del) as Hl.
  unfold is_u64 in Hl. assert (rlp_wf u) as Hwf by (by split_and!).
  model_result (Ret id, put_undelegations (<[(del, val, id) := u]> (d_undelegations t))
    (set_at (d_last t) del id) (set_at (d_uids t) (del, val) (d_uids t (del, val) ++ [id]))
    (set_at (d_uvals t) del
      (if bool_decide (d_uids t (del, val) = []) then d_uvals t del ++ [val] else d_uvals t del)) t).
  unfold Undelegations.CreateUndelegation.
  erewrite bind_run by (by apply (genUniqueId_model_run _ _ m t del Hm); [..|lia]).
  pose proof (mem_put _ _ m (KLastUniqueId del) (Uint64ToBytes id) Hm ltac:(done)) as M0.
  destruct (mem_save _ _ _ (KUndelegation del val id) u M0) as [E1 M1]; [by split_and!|done|].
  erewrite bind_run by exact E1.
  pose proof (mr_map _ _ _ M1 (MUndelegationIds del val) ltac:(done)) as R1. cbn [map_items] in R1.
  match type of M1 with mem_rep _ _ ?mm =>
    destruct (dm_CreateId (MUndelegationIds del val) _ mm id R1) as (m2 & E2 & R2 & F2) end.
  { rewrite ids_elem by done. rewrite (uw_ids _ _ _ _ WU). intros [x Hx].
    apply (uw_ok _ _ _ _ WU) in Hx as (_ & Hx & _). simpl in Hx. unfold id in Hx. lia. }
  { by rewrite length_fmap. }
  erewrite bind_run by exact E2. rewrite length_fmap.
  replace ((Uint64ToBytes <$> d_uids t (del, val)) ++ [Uint64ToBytes id])
    with (Uint64ToBytes <$> d_uids t (del, val) ++ [id]) in R2 by (by rewrite fmap_app).
  pose proof (mem_map _ _ _ _ (MUndelegationIds del val) _ M1 ltac:(done) R2 F2) as M2.
  pose proof (mr_map _ _ _ M2 (MUndelegationValidators del) ltac:(done)) as R3.
  rewrite set_at_ne in R3 by done. cbn [map_items] in R3.
  set (lv := if bool_decide _ then _ else _).
  assert (∃ m3, when (Z.of_nat (length (d_uids t (del, val))) + 1 =? 1)
    (CreateAccount (validators_map del) val ;; mret tt) m2 = (Ret tt, m3) ∧
    mem_rep (set_at (set_at (slot_bytes t) (KLastUniqueId del) (Uint64ToBytes id))
      (KUndelegation del val id) (enc u))
      (set_at (set_at (map_items t) (MUndelegationIds del val)
        (Uint64ToBytes <$> d_uids t (del, val) ++ [id])) (MUndelegationValidators del) lv) m3)
    as (m3 & E3 & M3).
  { unfold lv. case_bool_decide as Ev.
    - rewrite Ev. simpl.
      destruct (dm_CreateAccount (MUndelegationValidators del) (d_uvals t del) m2 val R3)
        as (m3 & E3 & R4 & F3); [done|rewrite (uw_vals _ _ _ _ WU); by intros ?|done|].
      exists m3. split; [by erewrite bind_run by exact E3|]. rewrite Ev in M2.
      exact (mem_map _ _ _ _ (MUndelegationValidators del) _ M2 ltac:(done) R4 F3).
    - exists m2. split.
      + destruct (d_uids t (del, val)) as [|x l]; [done|]. simpl length.
        destruct (Z.eqb_spec (Z.of_nat (S (length l)) + 1) 1); [lia|done].
      + eapply mem_ext; [exact M2|done|]. intros d' _. unfold set_at at 1.
        case_decide; subst; [|done]. by rewrite set_at_ne. }
  erewrite bind_run by exact E3. eexists. split; [done|]. split.
  - eapply mem_ext; [exact M3| |intros; apply map_undelegation].
    intros k' _. apply slot_undelegation.
    + intros p Hp. by rewrite lookup_insert_ne by congruence.
    + by rewrite lookup_insert_eq.
    + intros x Hx. by rewrite set_at_ne.
    + rewrite set_at_eq. apply nat_bytes_eq. unfold id. lia.
  - apply put_undelegations_wf; [done|]. by apply undelegations_wf_create.
Qed.
Lemma RemoveUndelegation_model del val id :
  refines dpos_rep (Undelegations.RemoveUndelegation del val id) (Spec.RemoveUndelegation del val id).
Proof.
  unfold Spec.RemoveUndelegation. apply refines_within. intros Hk%ukey_b_true.
  apply refines_run. intros m t [Hm W] Ho.
  erewrite (bind_run (view_of _)) in Ho |- * by done.
  destruct (bool_decide _) eqn:Hx; [|done]. clear Ho. apply bool_decide_eq_true in Hx.
  pose proof (tw_undelegations _ W) as WU. destruct Hk as (Hd & Hv & Hi). simpl in Hd, Hv, Hi.
  set (lv := if bool_decide (length (d_uids t (del, val)) = 1%nat)
    then drop_entry val (d_uvals t del) else d_uvals t del).
  model_result (Ret tt, put_undelegations (delete (del, val, id) (d_undelegations t)) (d_last t)
    (set_at (d_uids t) (del, val) (drop_entry id (d_uids t (del, val))))
    (set_at (d_uvals t) del lv) t).
  assert (id ∈ d_uids t (del, val)) as Hin by (by apply (uw_ids _ _ _ _ WU)).
  destruct (drop_entry_spec id (d_uids t (del, val)) Hin) as (j & Hj & Ej).
  unfold Undelegations.RemoveUndelegation. erewrite bind_run by reflexivity.
  pose proof (mem_put _ _ m (KUndelegation del val id) [] Hm ltac:(by split_and!)) as M1.
  pose proof (mr_map _ _ _ M1 (MUndelegationIds del val) ltac:(done)) as R1. cbn [map_items] in R1.
  match type of M1 with mem_rep _ _ ?mm =>
    destruct (dm_RemoveId (MUndelegationIds del val) _ mm j id R1) as (m2 & E2 & R2 & F2) end.
  { by rewrite list_lookup_fmap, Hj. }
  erewrite bind_run by exact E2. rewrite length_fmap. rewrite swap_remove_fmap, <-Ej in R2.
  pose proof (mem_map _ _ _ _ (MUndelegationIds del val) _ M1 ltac:(done) R2 F2) as M2.
  pose proof (mr_map _ _ _ M2 (MUndelegationValidators del) ltac:(done)) as R3.
  rewrite set_at_ne in R3 by done. cbn [map_items] in R3.
  assert (∃ m3, when (Z.of_nat (length (d_uids t (del, val))) - 1 =? 0)
    (RemoveAccount (validators_map del) val ;; mret tt) m2 = (Ret tt, m3) ∧
    mem_rep (set_at (slot_bytes t) (KUndelegation del val id) [])
      (set_at (set_at (map_items t) (MUndelegationIds del val)
        (Uint64ToBytes <$> drop_entry id (d_uids t (del, val)))) (MUndelegationValidators del) lv) m3)
    as (m3 & E3 & M3).
  { unfold lv. case_bool_decide as Ev.
    - rewrite Ev. simpl.
      destruct (drop_entry_spec val (d_uvals t del)) as (i & Hiv & ->).
      { apply (uw_vals _ _ _ _ WU). intros E. by rewrite E in Ev. }
      destruct (dm_RemoveAccount (MUndelegationValidators del) (d_uvals t del) m2 i val R3 Hiv)
        as (m3 & E3 & R4 & F3).
      exists m3. split; [by erewrite bind_run by exact E3|].
      exact (mem_map _ _ _ _ (MUndelegationValidators del) _ M2 ltac:(done) R4 F3).
    - exists m2. split.
      + destruct (Z.eqb_spec (Z.of_nat (length (d_uids t (del, val))) - 1) 0); [lia|done].
      + eapply mem_ext; [exact M2|done|]. intros d' _. unfold set_at at 1.
        case_decide; subst; [|done]. by rewrite set_at_ne. }
  rewrite E3. eexists. split; [done|]. split.
  - eapply mem_ext; [exact M3| |intros; apply map_undelegation].
    intros k' _. rewrite (slot_undelegation t _ _ _ _ del val id [] (nat_bytes (d_last t del))).
    + unfold set_at. repeat case_decide; subst; done.
    + intros p Hp. by rewrite lookup_delete_ne by congruence.
    + by rewrite lookup_delete_eq.
    + done.
    + done.
  - apply put_undelegations_wf; [done|]. by apply undelegations_wf_remove.
Qed.
End reading.

(** * Contract storage over any key-value store simulates the typed data *)
Section simulation.
Context `{KeccakInj} {St : Type} `{!KVStore St}.

Definition store_rep (s : St) (t : DState) : Prop := dpos_rep (kv_view s) t.

Lemma via_view {A} (m1 : M St A) (m1' : M (gmap bytes bytes) A) (m2 : M DState A) :
  sim (kv_view (St := St)) m1 m1' → refines dpos_rep m1' m2 → refines store_rep m1 m2.
Proof.
  intros Hs Hr s t HR Ho. destruct (Hr (kv_view s) t HR Ho) as [E1 E2].
  rewrite Hs in E1, E2. done.
Qed.

#[export] Instance model_sim : DposSim store_rep.
Proof.
  split.
  - intros. eapply via_view; [apply GetValidatorOwner_sim|apply GetValidatorOwner_model].
  - intros. eapply via_view; [apply CheckValidatorOwner_sim|apply CheckValidatorOwner_model].
  - intros. eapply via_view; [apply kv_get_sim|apply GetVrfKey_model].
  - intros. eapply via_view; [apply ValidatorExists_sim|apply ValidatorExists_model].
  - intros. eapply via_view; [apply GetValidatorsAddresses_sim|apply GetValidatorsAddresses_model].
  - intros. eapply via_view; [apply GetValidatorsCount_sim|apply GetValidatorsCount_model].
  - intros. eapply via_view; [apply GetValidator_sim|apply GetValidator_model].
  - intros. eapply via_view; [apply GetValidatorInfo_sim|apply GetValidatorInfo_model].
  - intros. eapply via_view; [apply GetValidatorRewards_sim|apply GetValidatorRewards_model].
  - intros. eapply via_view; [apply ModifyValidator_sim|apply ModifyValidator_model].
  - intros. eapply via_view; [apply ModifyValidatorInfo_sim|apply ModifyValidatorInfo_model].
  - intros. eapply via_view; [apply ModifyValidatorRewards_sim|apply ModifyValidatorRewards_model].
  - intros. eapply via_view; [apply CreateValidator_sim|apply CreateValidator_model].
  - intros. eapply via_view; [apply DeleteValidator_sim|apply DeleteValidator_model].
  - intros. eapply via_view; [apply AddValidatorRewards_sim|apply AddValidatorRewards_model].
  - intros. eapply via_view; [apply DelegationExists_sim|apply DelegationExists_model].
  - intros. eapply via_view; [apply GetDelegationsCount_sim|apply GetDelegationsCount_model].
  - intros. eapply via_view; [apply GetDelegation_sim|apply GetDelegation_model].
  - intros. eapply via_view; [apply ModifyDelegation_sim|apply ModifyDelegation_model].
  - intros. eapply via_view; [apply CreateDelegation_sim|apply CreateDelegation_model].
  - intros. eapply via_view; [apply RemoveDelegation_sim|apply RemoveDelegation_model].
  - intros. eapply via_view; [apply GetDelegatorValidatorsAddresses_sim|apply GetDelegatorValidatorsAddresses_model].
  - intros. eapply via_view; [apply GetValidatorDelegators_sim|apply GetValidatorDelegators_model].
  - intros. eapply via_view; [apply GetAllDelegatorValidatorsAddresses_sim|apply GetAllDelegatorValidatorsAddresses_model].
  - intros. eapply via_view; [apply UndelegationExists_sim|apply UndelegationExists_model].
  - intros. eapply via_view; [apply GetUndelegation_sim|apply GetUndelegation_model].
  - intros. eapply via_view; [apply GetUndelegationsCount_sim|apply GetUndelegationsCount_model].
  - intros. eapply via_view; [apply CreateUndelegation_sim|apply CreateUndelegation_model].
  - intros. eapply via_view; [apply RemoveUndelegation_sim|apply RemoveUndelegation_model].
  - intros. eapply via_view; [apply GetUndelegationsValidator_sim|
      apply GetUndelegationsValidator_model].
  - intros. eapply via_view; [apply GetUndelegationIdsCount_sim|
      apply GetUndelegationIdsCount_model].
  - intros. eapply via_view; [apply GetUndelegationIds_sim|apply GetUndelegationIds_model].
  - intros. eapply via_view; [apply Slots.getVotingPowerFactor_sim|apply getVotingPowerFactor_model].
  - intros. eapply via_view; [apply Slots.setVotingPowerFactor_sim|apply setVotingPowerFactor_model].
  - intros. eapply via_view; [apply Slots.clearVotingPowerFactor_sim|apply clearVotingPowerFactor_model].
  - intros. eapply via_view; [apply Slots.getLastActiveBlock_sim|apply getLastActiveBlock_model].
  - intros. eapply via_view; [apply Slots.setLastActiveBlock_sim|apply setLastActiveBlock_model].
  - intros. eapply via_view; [apply Slots.clearLastActiveBlock_sim|apply clearLastActiveBlock_model].
  - intros. eapply via_view; [apply Slots.getLastProcessedEpochBlock_sim|apply getLastProcessedEpochBlock_model].
  - intros. eapply via_view; [apply Slots.setLastProcessedEpochBlock_sim|apply setLastProcessedEpochBlock_model].
  - intros. eapply via_view; [apply Slots.getEvictionCursor_sim|apply getEvictionCursor_model].
  - intros. eapply via_view; [apply Slots.setEvictionCursor_sim|apply setEvictionCursor_model].
  - intros. eapply via_view; [apply Slots.clearEvictionCursor_sim|apply clearEvictionCursor_model].
  - intros. eapply via_view; [apply Slots.state_get_sim|apply state_get_model].
  - intros. eapply via_view; [apply Slots.state_put_sim|apply state_put_model].
  - intros. eapply via_view; [apply Slots.read_eligible_vote_count_sim|apply read_eligible_vote_count_model].
  - intros. eapply via_view; [apply Slots.put_sim|apply write_eligible_vote_count_model].
  - intros. eapply via_view; [apply Slots.read_uint256_sim|apply (read_scalar_model KAmountDelegated sc_amount); [done|done|by intros ? []]].
  - intros. eapply via_view; [apply Slots.put_sim|apply write_amount_delegated_model].
  - intros. eapply via_view; [apply Slots.read_uint256_sim|apply (read_scalar_model KTotalSupply sc_supply); [done|done|by intros ? []]].
  - intros. eapply via_view; [apply Slots.put_sim|apply saveTotalSupplyDb_model].
  - intros. eapply via_view; [apply Slots.read_uint256_sim|apply (read_scalar_model KMintedTokens sc_minted); [done|done|by intros ? []]].
  - intros. eapply via_view; [apply Slots.put_sim|apply eraseMintedTokensDb_model].
  - intros. eapply via_view; [apply Slots.put_sim|apply saveYieldDb_model].
  - intros. eapply via_view; [apply Slots.read_yield_sim|apply read_yield_model].
Qed.
End simulation.

Lemma dpos_rep_empty `{KeccakInj} : dpos_rep ∅ empty_dstate.
Proof.
  split; [|apply dstate_wf_empty]. split.
  - intros k _. by destruct k.
  - intros d _. assert (map_items empty_dstate d = []) as -> by (by destruct d).
    by apply imap_rep_empty.
Qed.
