(* ===== verification/DposAccounts.v ===== *)
(** The accounting of the DPoS contract.  [acct] projects a world over the typed storage to the
    quantities the contract keeps redundantly: the stake of each validator and of each
    delegation, the voting-power factors, the number of eligible votes and the amount
    delegated.  [stake_inv] and [vote_inv] state that they agree; each handler keeps them.
    The handlers are run symbolically with [wp]; steps that do not touch the accounting are
    skipped at once ([read_only acct]). *)
From S2P Require Import Prelude Codec Rlp Storage DposData YieldCurve DposStore DposWorld Dpos.
From S2P Require Import DposRewards DposQueries DposRun DposModel.

(** * The accounting *)
Record Acct : Type := {
  a_total : gmap address Z;
  a_stake : gmap (address * address) Z;
  a_factor : gmap address Z;
  a_votes : Z;
  a_amount : Z;
  a_ready : bool
}.
Definition dacct (t : DState) : gmap address Z * gmap (address * address) Z * gmap address Z :=
  ((λ r, TotalStake (v_validator r)) <$> d_validators t, Stake <$> d_delegations t, d_factor t).
Definition acct (w : World DState) : Acct := {|
  a_total := (dacct (w_store w)).1.1;
  a_stake := (dacct (w_store w)).1.2;
  a_factor := (dacct (w_store w)).2;
  a_votes := eligible_vote_count (w_fields w);
  a_amount := amount_delegated (w_fields w);
  a_ready := lazy_init_done (w_fields w)
|}.
Definition with_total (m : gmap address Z) (A : Acct) : Acct :=
  {| a_total := m; a_stake := a_stake A; a_factor := a_factor A; a_votes := a_votes A;
     a_amount := a_amount A; a_ready := a_ready A |}.
Definition with_stakes (m : gmap (address * address) Z) (A : Acct) : Acct :=
  {| a_total := a_total A; a_stake := m; a_factor := a_factor A; a_votes := a_votes A;
     a_amount := a_amount A; a_ready := a_ready A |}.
Definition with_factor (m : gmap address Z) (A : Acct) : Acct :=
  {| a_total := a_total A; a_stake := a_stake A; a_factor := m; a_votes := a_votes A;
     a_amount := a_amount A; a_ready := a_ready A |}.
Definition with_votes (n : Z) (A : Acct) : Acct :=
  {| a_total := a_total A; a_stake := a_stake A; a_factor := a_factor A; a_votes := n;
     a_amount := a_amount A; a_ready := a_ready A |}.
Definition with_amount (n : Z) (A : Acct) : Acct :=
  {| a_total := a_total A; a_stake := a_stake A; a_factor := a_factor A; a_votes := a_votes A;
     a_amount := n; a_ready := a_ready A |}.

Definition total_of (A : Acct) (v : address) : Z := default 0 (a_total A !! v).
Definition stake_of (A : Acct) (del v : address) : Z := default 0 (a_stake A !! (del, v)).
Definition factor_of (A : Acct) (v : address) : Z := default BasisPointsScale (a_factor A !! v).
(** The votes of a stake at a factor. *)
Definition votes (cfg : ChainConfig) (stake factor : Z) : Z :=
  match voteCountWithFactor cfg stake factor with Ret n => n | _ => 0 end.
Definition to_validator (v : address) (k : address * address) (s : Z) : Z :=
  if decide (k.2 = v) then s else 0.

(** The stake of a validator is the sum of its delegations (0 for one that does not exist),
    and the amount delegated is the sum of all of them in 256 bits. *)
Record stake_inv (A : Acct) : Prop := {
  si_total v : total_of A v = sum_map (to_validator v) (a_stake A);
  si_amount : a_amount A = u256 (sum_map (λ _ s, s) (a_stake A))
}.
(** The number of eligible votes is the sum of the validators' votes, each at its factor; only
    validators have one. *)
Record vote_inv (cfg : ChainConfig) (A : Acct) : Prop := {
  vi_votes : a_votes A = sum_map (λ v s, votes cfg s (factor_of A v)) (a_total A);
  vi_range : is_u64 (a_votes A);
  vi_factor v : a_total A !! v = None → a_factor A !! v = None
}.

(** ** The votes of a stake *)
Lemma votes_range cfg s f : is_u64 (votes cfg s f).
Proof.
  unfold votes, voteCountWithFactor. destruct (f =? 0); [done|].
  destruct (_ <=? _); [|done]. destruct (big_div _ _); [apply u64_range|done|done].
Qed.
Lemma votes_zero_factor cfg s : votes cfg s 0 = 0.
Proof. done. Qed.
Lemma votes_zero_stake cfg f : votes cfg 0 f = 0.
Proof.
  unfold votes, voteCountWithFactor. destruct (f =? 0); [done|]. rewrite Z.mul_0_l.
  assert (big_quot 0 BasisPointsScale = 0) as -> by done.
  destruct (_ <=? _); [|done]. unfold big_div. destruct (_ =? 0); [done|].
  unfold big_quot. by destruct (_ <? 0).
Qed.
Lemma votes_ret cfg s f n : voteCountWithFactor cfg s f = Ret n → votes cfg s f = n.
Proof. unfold votes. by intros ->. Qed.

(** ** Changes of the accounting that keep the invariants *)
(** The stake of one delegation changes by [x], with the stake of its validator and the amount
    delegated; a delegation or a validator left without stake may be deleted. *)
Lemma stake_inv_change A A' del v x :
  stake_inv A →
  (∀ v', total_of A' v' = total_of A v' + (if decide (v = v') then x else 0)) →
  (a_stake A' = <[(del, v) := stake_of A del v + x]> (a_stake A) ∨
   a_stake A' = delete (del, v) (a_stake A) ∧ stake_of A del v + x = 0) →
  a_amount A' = u256 (a_amount A + x) → stake_inv A'.
Proof.
  intros [Ht Ha] HT HS HA.
  assert (∀ f : address * address → Z → Z, (∀ k, f k 0 = 0) →
    sum_map f (a_stake A') =
      sum_map f (a_stake A) - f (del, v) (stake_of A del v) + f (del, v) (stake_of A del v + x)) as E.
  { intros f Hf. unfold stake_of in *. destruct HS as [->|[-> Hx]].
    - rewrite sum_map_set. destruct (a_stake A !! (del, v)); simpl; rewrite ?Hf; lia.
    - rewrite Hx, Hf. destruct (a_stake A !! (del, v)) as [s|] eqn:Es; simpl.
      + rewrite (sum_map_delete _ _ _ _ Es). lia.
      + rewrite delete_id by done. rewrite Hf. lia. }
  split.
  - intros v'. rewrite HT, Ht, E by (intros; unfold to_validator; by case_decide).
    unfold to_validator. simpl. repeat case_decide; lia.
  - rewrite HA, Ha, E by done. unfold u256. rewrite Zplus_mod_idemp_l. f_equal. lia.
Qed.

(** One validator's stake or factor changes, and the votes follow it. *)
Lemma vote_inv_change cfg A A' v :
  vote_inv cfg A →
  (∀ v', v' ≠ v → a_total A' !! v' = a_total A !! v' ∧ a_factor A' !! v' = a_factor A !! v') →
  (a_total A' !! v = None → a_factor A' !! v = None) →
  a_votes A' = a_votes A - votes cfg (total_of A v) (factor_of A v)
                 + votes cfg (total_of A' v) (factor_of A' v) →
  is_u64 (a_votes A') → vote_inv cfg A'.
Proof.
  intros [Hv Hr Hf] Hne Hn HV HR. split; [|done|].
  - rewrite HV, Hv.
    set (f := λ (B : Acct) u s, votes cfg s (factor_of B u)).
    change (sum_map (f A) (a_total A) - votes cfg (total_of A v) (factor_of A v)
      + votes cfg (total_of A' v) (factor_of A' v) = sum_map (f A') (a_total A')).
    assert (∀ B, sum_map (f B) (a_total B) =
      sum_map (f B) (delete v (a_total B)) + votes cfg (total_of B v) (factor_of B v)) as D.
    { intros B. unfold total_of. destruct (a_total B !! v) as [s|] eqn:E; simpl.
      - rewrite (sum_map_delete _ _ _ _ E). unfold f. lia.
      - rewrite delete_id, votes_zero_stake by done. lia. }
    rewrite (D A), (D A').
    assert (delete v (a_total A') = delete v (a_total A)) as ->.
    { apply map_eq. intros u. destruct (decide (u = v)) as [->|N];
        [by rewrite !lookup_delete_eq|]. rewrite !lookup_delete_ne by done. by apply Hne. }
    rewrite (sum_map_ext (f A') (f A)); [lia|].
    intros u s [N _]%lookup_delete_Some. unfold f, factor_of.
    by rewrite (proj2 (Hne u ltac:(congruence))).
  - intros u Hu. destruct (decide (u = v)) as [->|N]; [by apply Hn|].
    destruct (Hne u N) as [E1 E2]. rewrite E2. apply Hf. congruence.
Qed.
(** The votes of a validator are among the eligible ones. *)
Lemma vote_inv_le cfg A v :
  vote_inv cfg A → votes cfg (total_of A v) (factor_of A v) <= a_votes A.
Proof.
  intros [Hv Hr _]. unfold total_of. destruct (a_total A !! v) as [s|] eqn:E; simpl.
  - rewrite Hv. apply (sum_map_le (λ u s, votes cfg s (factor_of A u)) (a_total A) v s); [|done].
    intros. apply votes_range.
  - rewrite votes_zero_stake. apply Hr.
Qed.

(** * Steps that leave the accounting alone *)
Lemma quiet_within b : quiet dacct (within b).
Proof. by destruct b. Qed.
Lemma quiet_view_of {A} (f : DState → A) : quiet dacct (view_of f).
Proof. done. Qed.
Lemma quiet_update f : (∀ t, dacct (f t) = dacct t) → quiet dacct (update f).
Proof. intros Hf. split; [|done]. intros t. apply Hf. Qed.
#[local] Hint Resolve quiet_within quiet_view_of : effects.
#[local] Hint Extern 2 (quiet dacct (update _)) => (by apply quiet_update) : effects.
Lemma acct_store w w' :
  dacct (w_store w') = dacct (w_store w) → w_fields w' = w_fields w → acct w' = acct w.
Proof. intros E F. unfold acct. by rewrite E, F. Qed.
Lemma ro_lift {A} (m : M DState A) : read_only dacct m → read_only acct (lift m).
Proof.
  intros Hm w. specialize (Hm (w_store w)). unfold lift. destruct (m (w_store w)) as [o t].
  by apply acct_store.
Qed.
Lemma quiet_lift {A} (m : M DState A) : quiet dacct m → quiet acct (lift m).
Proof.
  intros [Hm He]. split; [by apply ro_lift|]. intros w e. specialize (He (w_store w) e).
  unfold lift. by destruct (m (w_store w)).
Qed.
Lemma quiet_Modify v g :
  (∀ r, TotalStake (v_validator (g r)) = TotalStake (v_validator r)) →
  quiet dacct (Spec.Modify v g).
Proof.
  intros Hg. split.
  2: { intros t e. unfold Spec.Modify. erewrite bind_run by done. by destruct (_ !! _). }
  intros t. unfold Spec.Modify. erewrite bind_run by done.
  destruct (d_validators t !! v) as [r|] eqn:E; [|done]. unfold update, dacct. simpl.
  do 2 f_equal. rewrite fmap_insert, Hg. apply insert_id. by rewrite lookup_fmap, E.
Qed.
#[local] Hint Extern 2 (quiet dacct (Spec.Modify _ _)) => (by apply quiet_Modify) : effects.
Ltac quiet_op :=
  intros; cbn;
  cbv delta [Spec.GetValidator Spec.GetValidatorInfo Spec.GetValidatorRewards Spec.CheckValidatorOwner
    Spec.GetValidatorOwner Spec.GetVrfKey Spec.ValidatorExists Spec.GetValidatorsAddresses
    Spec.GetValidatorsCount Spec.ModifyValidatorInfo Spec.ModifyValidatorRewards
    Spec.AddValidatorRewards Spec.DelegationExists Spec.GetDelegation Spec.GetDelegationsCount
    Spec.GetDelegatorValidatorsAddresses Spec.GetAllDelegatorValidatorsAddresses
    Spec.GetValidatorDelegators Spec.UndelegationExists Spec.GetUndelegation
    Spec.GetUndelegationsCount Spec.CreateUndelegation Spec.RemoveUndelegation
    Spec.GetUndelegationsValidator Spec.GetUndelegationIdsCount Spec.GetUndelegationIds
    Spec.getVotingPowerFactor Spec.getLastActiveBlock Spec.setLastActiveBlock
    Spec.clearLastActiveBlock Spec.getLastProcessedEpochBlock Spec.setLastProcessedEpochBlock
    Spec.getEvictionCursor Spec.setEvictionCursor Spec.clearEvictionCursor Spec.state_get
    Spec.state_put Spec.write_eligible_vote_count Spec.write_amount_delegated
    Spec.saveTotalSupplyDb Spec.eraseMintedTokensDb Spec.saveYieldDb Spec.scalar];
  quiet_solve.
Lemma quiet_GetValidator v : quiet dacct (GetValidator v).
Proof. quiet_op. Qed.
Lemma quiet_GetValidatorInfo v : quiet dacct (GetValidatorInfo v).
Proof. quiet_op. Qed.
Lemma quiet_GetValidatorRewards v : quiet dacct (GetValidatorRewards v).
Proof. quiet_op. Qed.
Lemma quiet_CheckValidatorOwner o v : quiet dacct (CheckValidatorOwner o v).
Proof. quiet_op. Qed.
Lemma quiet_GetValidatorOwner v : quiet dacct (GetValidatorOwner v).
Proof. quiet_op. Qed.
Lemma quiet_GetVrfKey v : quiet dacct (GetVrfKey v).
Proof. quiet_op. Qed.
Lemma quiet_ValidatorExists v : quiet dacct (ValidatorExists v).
Proof. quiet_op. Qed.
Lemma quiet_GetValidatorsAddresses b n : quiet dacct (GetValidatorsAddresses b n).
Proof. quiet_op. Qed.
Lemma quiet_GetValidatorsCount : quiet dacct GetValidatorsCount.
Proof. quiet_op. Qed.
Lemma quiet_ModifyValidatorInfo v i : quiet dacct (ModifyValidatorInfo v i).
Proof. quiet_op. Qed.
Lemma quiet_ModifyValidatorRewards v r : quiet dacct (ModifyValidatorRewards v r).
Proof. quiet_op. Qed.
Lemma quiet_AddValidatorRewards v c r : quiet dacct (AddValidatorRewards v c r).
Proof. quiet_op. Qed.
Lemma quiet_DelegationExists d v : quiet dacct (DelegationExists d v).
Proof. quiet_op. Qed.
Lemma quiet_GetDelegation d v : quiet dacct (GetDelegation d v).
Proof. quiet_op. Qed.
Lemma quiet_GetDelegationsCount d : quiet dacct (GetDelegationsCount d).
Proof. quiet_op. Qed.
Lemma quiet_GetDelegatorValidatorsAddresses d b n : quiet dacct (GetDelegatorValidatorsAddresses d b n).
Proof. quiet_op. Qed.
Lemma quiet_GetAllDelegatorValidatorsAddresses d : quiet dacct (GetAllDelegatorValidatorsAddresses d).
Proof. quiet_op. Qed.
Lemma quiet_GetValidatorDelegators v b n : quiet dacct (GetValidatorDelegators v b n).
Proof. quiet_op. Qed.
Lemma quiet_UndelegationExists d v i : quiet dacct (UndelegationExists d v i).
Proof. quiet_op. Qed.
Lemma quiet_GetUndelegation d v i : quiet dacct (GetUndelegation d v i).
Proof. quiet_op. Qed.
Lemma quiet_GetUndelegationsCount d : quiet dacct (GetUndelegationsCount d).
Proof. quiet_op. Qed.
Lemma quiet_CreateUndelegation d v b a : quiet dacct (CreateUndelegation d v b a).
Proof. quiet_op. Qed.
Lemma quiet_RemoveUndelegation d v i : quiet dacct (RemoveUndelegation d v i).
Proof. quiet_op. Qed.
Lemma quiet_GetUndelegationsValidator d i : quiet dacct (GetUndelegationsValidator d i).
Proof. quiet_op. Qed.
Lemma quiet_GetUndelegationIdsCount d v : quiet dacct (GetUndelegationIdsCount d v).
Proof. quiet_op. Qed.
Lemma quiet_GetUndelegationIds d v i n : quiet dacct (GetUndelegationIds d v i n).
Proof. quiet_op. Qed.
Lemma quiet_getVotingPowerFactor v : quiet dacct (getVotingPowerFactor v).
Proof. quiet_op. Qed.
Lemma quiet_getLastActiveBlock v : quiet dacct (getLastActiveBlock v).
Proof. quiet_op. Qed.
Lemma quiet_setLastActiveBlock v b : quiet dacct (setLastActiveBlock v b).
Proof. quiet_op. Qed.
Lemma quiet_clearLastActiveBlock v : quiet dacct (clearLastActiveBlock v).
Proof. quiet_op. Qed.
Lemma quiet_getLastProcessedEpochBlock : quiet dacct getLastProcessedEpochBlock.
Proof. quiet_op. Qed.
Lemma quiet_setLastProcessedEpochBlock b : quiet dacct (setLastProcessedEpochBlock b).
Proof. quiet_op. Qed.
Lemma quiet_getEvictionCursor v : quiet dacct (getEvictionCursor v).
Proof. quiet_op. Qed.
Lemma quiet_setEvictionCursor v c : quiet dacct (setEvictionCursor v c).
Proof. quiet_op. Qed.
Lemma quiet_clearEvictionCursor v : quiet dacct (clearEvictionCursor v).
Proof. quiet_op. Qed.
Lemma quiet_state_get v b : quiet dacct (state_get v b).
Proof. quiet_op. Qed.
Lemma quiet_state_put v b s : quiet dacct (state_put v b s).
Proof. quiet_op. Qed.
Lemma quiet_read_eligible_vote_count : quiet dacct read_eligible_vote_count.
Proof. quiet_op. Qed.
Lemma quiet_read_amount_delegated : quiet dacct read_amount_delegated.
Proof. quiet_op. Qed.
Lemma quiet_read_total_supply : quiet dacct read_total_supply.
Proof. quiet_op. Qed.
Lemma quiet_read_minted_tokens : quiet dacct read_minted_tokens.
Proof. quiet_op. Qed.
Lemma quiet_read_yield : quiet dacct read_yield.
Proof. quiet_op. Qed.
Lemma quiet_write_eligible_vote_count n : quiet dacct (write_eligible_vote_count n).
Proof. quiet_op. Qed.
Lemma quiet_write_amount_delegated n : quiet dacct (write_amount_delegated n).
Proof. quiet_op. Qed.
Lemma quiet_saveTotalSupplyDb n : quiet dacct (saveTotalSupplyDb n).
Proof. quiet_op. Qed.
Lemma quiet_eraseMintedTokensDb : quiet dacct eraseMintedTokensDb.
Proof. quiet_op. Qed.
Lemma quiet_saveYieldDb n : quiet dacct (saveYieldDb n).
Proof. quiet_op. Qed.
#[export] Hint Resolve ro_lift quiet_lift quiet_GetValidator quiet_GetValidatorInfo quiet_GetValidatorRewards quiet_CheckValidatorOwner
  quiet_GetValidatorOwner quiet_GetVrfKey quiet_ValidatorExists quiet_GetValidatorsAddresses
  quiet_GetValidatorsCount quiet_ModifyValidatorInfo quiet_ModifyValidatorRewards
  quiet_AddValidatorRewards quiet_DelegationExists quiet_GetDelegation quiet_GetDelegationsCount
  quiet_GetDelegatorValidatorsAddresses quiet_GetAllDelegatorValidatorsAddresses
  quiet_GetValidatorDelegators quiet_UndelegationExists quiet_GetUndelegation
  quiet_GetUndelegationsCount quiet_CreateUndelegation quiet_RemoveUndelegation
  quiet_GetUndelegationsValidator quiet_GetUndelegationIdsCount quiet_GetUndelegationIds
  quiet_getVotingPowerFactor quiet_getLastActiveBlock quiet_setLastActiveBlock
  quiet_clearLastActiveBlock quiet_getLastProcessedEpochBlock quiet_setLastProcessedEpochBlock
  quiet_getEvictionCursor quiet_setEvictionCursor quiet_clearEvictionCursor quiet_state_get quiet_state_put
  quiet_read_eligible_vote_count quiet_read_amount_delegated quiet_read_total_supply
  quiet_read_minted_tokens quiet_read_yield quiet_write_eligible_vote_count quiet_write_amount_delegated
  quiet_saveTotalSupplyDb quiet_eraseMintedTokensDb quiet_saveYieldDb : effects.

Lemma quiet_state_get_and_decrement v b : quiet dacct (state_get_and_decrement v b).
Proof. unfold state_get_and_decrement. quiet_solve. Qed.
Lemma ro_require {A} (o : option A) e : read_only acct (require o e).
Proof. by destruct o. Qed.
Lemma quiet_non_nil {A} (o : option A) : quiet acct (non_nil o).
Proof. by destruct o. Qed.
Lemma quiet_AddLog l : quiet acct (AddLog l).
Proof. done. Qed.
Lemma quiet_AddBalance a x : quiet acct (AddBalance a x).
Proof. split; [|done]. intros w. unfold AddBalance. by destruct (x =? 0). Qed.
Lemma quiet_GetBalance a : quiet acct (GetBalance a).
Proof. done. Qed.
Lemma quiet_get_fields : quiet acct get_fields.
Proof. done. Qed.
Lemma quiet_big_div x y : quiet acct (of_outcome (big_div x y)).
Proof. unfold big_div. by destruct (y =? 0). Qed.
#[export] Hint Resolve quiet_state_get_and_decrement ro_require quiet_non_nil quiet_AddLog
  quiet_AddBalance quiet_GetBalance quiet_get_fields quiet_big_div : effects.
Lemma quiet_transferContractBalance ctx x : quiet acct (transferContractBalance ctx x).
Proof. unfold transferContractBalance. quiet_solve. Qed.
#[export] Hint Resolve quiet_transferContractBalance : effects.
Lemma quiet_Storage_SubBalance a x : quiet acct (Storage_SubBalance a x).
Proof. unfold Storage_SubBalance. quiet_solve. Qed.
Lemma quiet_claim_delegation cfg ctx v s d : quiet acct (claim_delegation cfg ctx v s d).
Proof. unfold claim_delegation, calculateDelegatorReward. quiet_solve. Qed.
Lemma quiet_put_counted_state v b s : quiet acct (put_counted_state v b s).
Proof. unfold put_counted_state. quiet_solve. Qed.
#[export] Hint Resolve quiet_Storage_SubBalance quiet_claim_delegation quiet_put_counted_state
  : effects.

(** * Runs seen through the accounting
    [awp m Q E A]: from every world with the accounting [A], a run of [m] that returns ends in
    an accounting that satisfies [Q], one that fails in one that satisfies [E]. *)
Definition awp {T} (m : M (World DState) T) (Q : T → Acct → Prop) (E : string → Acct → Prop)
    (A : Acct) : Prop :=
  ∀ w, acct w = A → wp m (λ a w', Q a (acct w')) (λ e w', E e (acct w')) w.

Section rules.
Implicit Types (A : Acct).

Lemma awp_mono {T} (m : M (World DState) T) Q Q' E E' A :
  awp m Q E A → (∀ a A', Q a A' → Q' a A') → (∀ e A', E e A' → E' e A') → awp m Q' E' A.
Proof. intros Hm HQ HE w Hw. eapply wp_mono; [by apply Hm| |]; simpl; eauto. Qed.
Lemma awp_bind {T U} (m : M (World DState) T) (k : T → M (World DState) U) Q E A :
  awp m (λ a, awp (k a) Q E) E A → awp (m ≫= k) Q E A.
Proof. intros Hm w Hw. apply wp_bind. eapply wp_mono; [by apply Hm| |done]. simpl. eauto. Qed.
Lemma awp_ret {T} (a : T) (Q : T → Acct → Prop) E A : Q a A → awp (mret a) Q E A.
Proof. by intros ? w <-. Qed.
Lemma awp_ro {T} (m : M (World DState) T) (Q : T → Acct → Prop) (E : string → Acct → Prop) A :
  read_only acct m → (∀ a, Q a A) → (∀ e, E e A) → awp m Q E A.
Proof. intros Hm HQ HE w <-. eapply wp_read_only; [exact Hm|intros ?? ->..]; done. Qed.
Lemma awp_quiet {T} (m : M (World DState) T) (Q : T → Acct → Prop) E A :
  quiet acct m → (∀ a, Q a A) → awp m Q E A.
Proof.
  intros [Hm Hn] HQ w Hw. eapply wp_no_err; [done|].
  by apply (awp_ro m Q (λ _ _, True) A Hm HQ).
Qed.
Lemma awp_fail_if b e (Q : unit → Acct → Prop) (E : string → Acct → Prop) A :
  (b = true → E e A) → (b = false → Q tt A) → awp (fail_if b e) Q E A.
Proof. intros H1 H2 w <-. by apply wp_fail_if. Qed.
Lemma awp_require {T} (o : option T) e (Q : T → Acct → Prop) (E : string → Acct → Prop) A :
  (o = None → E e A) → (∀ a, o = Some a → Q a A) → awp (require o e) Q E A.
Proof. intros H1 H2 w <-. destruct o; [by apply H2|by apply H1]. Qed.
Lemma awp_deref {T} (o : option T) (Q : T → Acct → Prop) E A :
  (∀ a, o = Some a → Q a A) → awp (deref o) Q E A.
Proof. intros H1 w <-. apply wp_deref, H1. Qed.
Lemma awp_panic_if b e (Q : unit → Acct → Prop) E A :
  (b = false → Q tt A) → awp (panic_if b e) Q E A.
Proof. intros H1 w <-. apply wp_panic_if, H1. Qed.
Lemma awp_panic {T} p (Q : T → Acct → Prop) E A : awp (go_panic p) Q E A.
Proof. done. Qed.
Lemma awp_outcome {T} (o : outcome T) (Q : T → Acct → Prop) (E : string → Acct → Prop) A :
  (∀ a, o = Ret a → Q a A) → (∀ e, o = Err e → E e A) → awp (of_outcome o) Q E A.
Proof. intros H1 H2 w <-. by apply wp_outcome. Qed.
Lemma awp_when b m (Q : unit → Acct → Prop) E A :
  (b = true → awp m Q E A) → (b = false → Q tt A) → awp (when b m) Q E A.
Proof. intros H1 H2. destruct b; [by apply H1|by apply awp_ret, H2]. Qed.
Lemma awp_for_each {T} (I : Acct → Prop) (l : list T) f E A :
  I A → (∀ a A, a ∈ l → I A → awp (f a) (λ _, I) E A) → awp (for_each l f) (λ _, I) E A.
Proof.
  intros HA Hf w <-. apply (wp_for_each (λ w, I (acct w))); [done|]. intros a w' Ha HI.
  by apply (Hf a (acct w')).
Qed.
Lemma awp_fold_m {T U} (I : U → Acct → Prop) (f : U → T → M (World DState) U) l E b A :
  I b A → (∀ b a A, a ∈ l → I b A → awp (f b a) I E A) → awp (fold_m f b l) I E A.
Proof.
  intros HA Hf w <-. apply (wp_fold_m (λ b w, I b (acct w))); [done|]. intros b' a w' Ha HI.
  by apply (Hf b' a (acct w')).
Qed.

(** ** Reads *)
Lemma awp_lift {T} (m : M DState T) (Q : T → Acct → Prop) (E : string → Acct → Prop) A :
  (∀ t, dacct t = (a_total A, a_stake A, a_factor A) →
     wp m (λ a t', Q a {| a_total := (dacct t').1.1; a_stake := (dacct t').1.2;
                          a_factor := (dacct t').2; a_votes := a_votes A;
                          a_amount := a_amount A; a_ready := a_ready A |})
       (λ e t', E e {| a_total := (dacct t').1.1; a_stake := (dacct t').1.2;
                       a_factor := (dacct t').2; a_votes := a_votes A;
                       a_amount := a_amount A; a_ready := a_ready A |}) t) →
  awp (lift m) Q E A.
Proof.
  intros Hm w <-. specialize (Hm (w_store w)). unfold wp, lift in *.
  destruct (m (w_store w)) as [[a|e|p] t] eqn:Em; [by apply Hm|by apply Hm|done].
Qed.

Ltac op_run :=
  let w := fresh "w" in let t := fresh "t" in
  intros w <-; unfold lift, wp; set (t := w_store w); cbn;
  cbv [Spec.GetValidator Spec.GetDelegation Spec.getVotingPowerFactor Spec.ModifyValidator
    Spec.Modify Spec.CreateValidator Spec.DeleteValidator Spec.CreateDelegation
    Spec.ModifyDelegation Spec.RemoveDelegation Spec.setVotingPowerFactor
    Spec.clearVotingPowerFactor within panic_if view_of update mbind M_bind mret M_ret go_panic];
  repeat match goal with |- context [if negb ?b then _ else _] => destruct b eqn:?; simpl; try done end.
Ltac guard_split :=
  repeat match goal with H : _ && _ = true |- _ => apply andb_true_iff in H as [? ?] end;
  repeat match goal with
  | H : negb (bool_decide _) = true |- _ => apply negb_true_iff, bool_decide_eq_false in H
  | H : bool_decide _ = true |- _ => apply bool_decide_eq_true in H
  end.
Lemma awp_GetValidator v (Q : option Validator → Acct → Prop) E A :
  (∀ o, TotalStake <$> o = a_total A !! v → Q o A) → awp (lift (GetValidator v)) Q E A.
Proof.
  intros HQ. op_run. apply HQ. unfold acct, dacct. simpl. rewrite lookup_fmap.
  subst t. by destruct (d_validators (w_store w) !! v).
Qed.
Lemma awp_GetDelegation d v (Q : option Delegation → Acct → Prop) E A :
  (∀ o, Stake <$> o = a_stake A !! (d, v) → Q o A) → awp (lift (GetDelegation d v)) Q E A.
Proof. intros HQ. op_run. apply HQ. unfold acct, dacct. simpl. by rewrite lookup_fmap. Qed.
Lemma awp_getVotingPowerFactor v (Q : Z → Acct → Prop) E A :
  Q (factor_of A v) A → awp (lift (getVotingPowerFactor v)) Q E A.
Proof. intros HQ. op_run. Qed.

(** ** Writes *)
Lemma awp_ModifyValidator v x (Q : unit → Acct → Prop) E A :
  (is_Some (a_total A !! v) → Q tt (with_total (<[v := TotalStake x]> (a_total A)) A)) →
  awp (lift (ModifyValidator v x)) Q E A.
Proof.
  intros HQ. op_run. destruct (d_validators t !! v) as [r|] eqn:Er; [|done].
  unfold acct, dacct, with_total in *. simpl in *. rewrite fmap_insert. apply HQ.
  subst t. by rewrite lookup_fmap, Er.
Qed.
Lemma awp_CreateValidator o v k b c i e (Q : Validator → Acct → Prop) E A :
  (a_total A !! v = None →
   Q (Spec.new_validator b c) (with_total (<[v := 0]> (a_total A)) A)) →
  awp (lift (CreateValidator o v k b c i e)) Q E A.
Proof.
  intros HQ. op_run. unfold acct, dacct, with_total in *. simpl in *. rewrite fmap_insert.
  apply HQ. rewrite lookup_fmap. guard_split.
  by apply fmap_None, eq_None_not_Some.
Qed.
Lemma awp_DeleteValidator v (Q : unit → Acct → Prop) E A :
  (is_Some (a_total A !! v) → Q tt (with_total (delete v (a_total A)) A)) →
  awp (lift (DeleteValidator v)) Q E A.
Proof.
  intros HQ. op_run. unfold acct, dacct, with_total in *. simpl in *. rewrite fmap_delete.
  apply HQ. rewrite lookup_fmap, fmap_is_Some. by guard_split.
Qed.
Lemma awp_CreateDelegation d v b s (Q : unit → Acct → Prop) E A :
  (a_stake A !! (d, v) = None → Q tt (with_stakes (<[(d, v) := s]> (a_stake A)) A)) →
  awp (lift (CreateDelegation d v b s)) Q E A.
Proof.
  intros HQ. op_run. unfold acct, dacct, with_stakes in *. simpl in *. rewrite fmap_insert.
  apply HQ. rewrite lookup_fmap. guard_split.
  by apply fmap_None, eq_None_not_Some.
Qed.
Lemma awp_ModifyDelegation d v x (Q : unit → Acct → Prop) E A :
  (is_Some (a_stake A !! (d, v)) → Q tt (with_stakes (<[(d, v) := Stake x]> (a_stake A)) A)) →
  awp (lift (ModifyDelegation d v x)) Q E A.
Proof.
  intros HQ. op_run. case_bool_decide as Hs; [|done].
  unfold acct, dacct, with_stakes in *. simpl in *. rewrite fmap_insert.
  apply HQ. by rewrite lookup_fmap, fmap_is_Some.
Qed.
Lemma awp_RemoveDelegation d v (Q : unit → Acct → Prop) E A :
  (is_Some (a_stake A !! (d, v)) → Q tt (with_stakes (delete (d, v) (a_stake A)) A)) →
  awp (lift (RemoveDelegation d v)) Q E A.
Proof.
  intros HQ. op_run. unfold acct, dacct, with_stakes in *. simpl in *. rewrite fmap_delete.
  apply HQ. rewrite lookup_fmap, fmap_is_Some. by guard_split.
Qed.
Lemma awp_setVotingPowerFactor v f (Q : unit → Acct → Prop) E A :
  Q tt (with_factor (<[v := f]> (a_factor A)) A) → awp (lift (setVotingPowerFactor v f)) Q E A.
Proof. intros HQ. op_run. Qed.
Lemma awp_clearVotingPowerFactor v (Q : unit → Acct → Prop) E A :
  Q tt (with_factor (delete v (a_factor A)) A) → awp (lift (clearVotingPowerFactor v)) Q E A.
Proof. intros HQ. op_run. Qed.
Lemma awp_add_amount_delegated x (Q : unit → Acct → Prop) E A :
  Q tt (with_amount (u256 (a_amount A + x)) A) → awp (add_amount_delegated x) Q E A.
Proof.
  intros HQ w <-. unfold wp, add_amount_delegated, modify_fields. simpl.
  replace (acct _) with (with_amount (u256 (a_amount (acct w) + x)) (acct w)); [done|].
  unfold acct, with_amount. simpl. f_equal. unfold u256. by rewrite Zplus_mod_idemp_r.
Qed.
Lemma awp_sub_amount_delegated x (Q : unit → Acct → Prop) E A :
  Q tt (with_amount (u256 (a_amount A + - x)) A) → awp (sub_amount_delegated x) Q E A.
Proof.
  intros HQ w <-. unfold wp, sub_amount_delegated, modify_fields. simpl.
  replace (acct _) with (with_amount (u256 (a_amount (acct w) + - x)) (acct w)); [done|].
  unfold acct, with_amount. simpl. f_equal. unfold u256. by rewrite Zminus_mod_idemp_r.
Qed.
(** The vote count moves from [p] to [n] when [p] votes were counted. *)
Lemma awp_update_eligible_vote_count p n (Q : unit → Acct → Prop) E A :
  (∀ k, (is_u64 (a_votes A) → is_u64 p → is_u64 n → p <= a_votes A →
         k = a_votes A - p + n ∧ is_u64 k) → Q tt (with_votes k A)) →
  awp (update_eligible_vote_count p n) Q E A.
Proof.
  intros HQ w <-. unfold update_eligible_vote_count.
  destruct (Z.eqb_spec p n) as [->|Hn]; simpl.
  - assert (acct w = with_votes (a_votes (acct w)) (acct w)) as Ew by done.
    unfold wp. simpl. rewrite Ew. apply HQ. intros. split; [lia|done].
  - unfold wp, add64p, of_outcome, mbind, M_bind. simpl.
    destruct (_ || _) eqn:Eo; simpl; [done|].
    apply HQ. simpl. intros Hv Hp Hk Hle.
    apply orb_false_iff in Eo as [E1%Z.ltb_ge E2%Z.ltb_ge].
    rewrite (u64_id (_ - p)) in * by (unfold is_u64 in *; lia). split; [|apply u64_range].
    unfold u64, is_u64 in *. 
    pose proof (Z.mod_pos_bound (eligible_vote_count (w_fields w) - p + n) (2^64) ltac:(lia)).
    rewrite Z.mod_eq in * by lia.
    assert ((eligible_vote_count (w_fields w) - p + n) / 2 ^ 64 = 0) as ->; [|lia].
    assert (0 <= (eligible_vote_count (w_fields w) - p + n) / 2 ^ 64) by (apply Z.div_pos; lia).
    nia.
Qed.
Lemma awp_lazy_init cfg (Q : unit → Acct → Prop) E A :
  a_ready A = true → Q tt A → awp (lazy_init cfg) Q E A.
Proof.
  intros Hr HQ w <-. unfold lazy_init, wp. erewrite bind_run by done.
  change (a_ready (acct w)) with (lazy_init_done (w_fields w)) in Hr. by rewrite Hr.
Qed.
(** The current reward state leaves the validator's stake as it is. *)
Lemma awp_new_state cfg v b x r
    (Q : State * Validator * option ValidatorRewards → Acct → Prop) E A :
  (∀ s x' r', TotalStake x' = TotalStake x → Q (s, x', r') A) →
  awp (new_state cfg v b x r) Q E A.
Proof.
  intros HQ. unfold new_state.
  apply awp_bind, awp_quiet; [auto with effects|]. intros old.
  apply awp_bind, awp_deref. intros rw _.
  apply awp_bind, awp_quiet; [unfold calculateRewardPer1Stake; quiet_solve|].
  intros n. by apply awp_ret, HQ.
Qed.
Lemma awp_current_state cfg v b x r
    (Q : State * Validator * option ValidatorRewards → Acct → Prop) E A :
  (∀ s x' r', TotalStake x' = TotalStake x → Q (s, x', r') A) →
  awp (current_state cfg v b x r) Q E A.
Proof.
  intros HQ. unfold current_state. apply awp_bind, awp_quiet; [auto with effects|].
  intros [s|]; [by apply awp_ret, HQ|by apply awp_new_state].
Qed.
(** The deletion of a validator takes its stake and its factor away. *)
Lemma awp_delete_validator v (Q : unit → Acct → Prop) E A :
  (is_Some (a_total A !! v) →
   Q tt (with_factor (delete v (a_factor A)) (with_total (delete v (a_total A)) A))) →
  awp (delete_validator v) Q E A.
Proof.
  intros HQ. unfold delete_validator. apply awp_bind, awp_DeleteValidator. intros Hv.
  apply awp_bind, awp_clearVotingPowerFactor. apply awp_quiet; [quiet_solve|].
  intros []. by apply HQ.
Qed.
(** The votes of a validator are recounted with its new stake or factor. *)
Lemma awp_votes cfg s f (Q : Z → Acct → Prop) E A :
  Q (votes cfg s f) A → awp (of_outcome (voteCountWithFactor cfg s f)) Q E A.
Proof.
  intros HQ. apply awp_outcome.
  - intros n Hn%votes_ret. by subst.
  - intros e. unfold voteCountWithFactor. destruct (f =? 0); [done|].
    destruct (_ <=? _); [|done]. unfold big_div. by destruct (_ =? 0).
Qed.
Lemma awp_change_votes cfg p s f (Q : unit → Acct → Prop) E A :
  (∀ k, (is_u64 (a_votes A) → is_u64 p → p <= a_votes A →
         k = a_votes A - p + votes cfg s f ∧ is_u64 k) → Q tt (with_votes k A)) →
  awp (change_votes cfg p s f) Q E A.
Proof.
  intros HQ. unfold change_votes. apply awp_bind, awp_votes, awp_update_eligible_vote_count.
  intros k Hk. apply HQ. intros. apply Hk; [done..|apply votes_range|done].
Qed.
Lemma awp_modify_validator v x r (Q : unit → Acct → Prop) E A :
  (is_Some (a_total A !! v) → Q tt (with_total (<[v := TotalStake x]> (a_total A)) A)) →
  awp (modify_validator v x r) Q E A.
Proof.
  intros HQ. unfold modify_validator. apply awp_bind, awp_ModifyValidator. intros Hv.
  apply awp_quiet; [quiet_solve|]. intros []. by apply HQ.
Qed.
End rules.

(** One step of a run; steps that change the accounting have their own rule. *)
Ltac awp_step :=
  lazymatch goal with
  | |- awp (mbind _ _) _ _ _ => apply awp_bind
  | |- awp (mret _) _ _ _ => apply awp_ret
  | |- awp (fail_if _ _) _ _ _ => apply awp_fail_if; intros ?
  | |- awp (panic_if _ _) _ _ _ => apply awp_panic_if; intros ?
  | |- awp (go_panic _) _ _ _ => apply awp_panic
  | |- awp (require _ _) _ _ _ => apply awp_require; [intros ?|intros ? ?]
  | |- awp (deref _) _ _ _ => apply awp_deref; intros ? ?
  | |- awp (lift (GetValidator _)) _ _ _ => apply awp_GetValidator; intros ? ?
  | |- awp (lift (GetDelegation _ _)) _ _ _ => apply awp_GetDelegation; intros ? ?
  | |- awp (lift (getVotingPowerFactor _)) _ _ _ => apply awp_getVotingPowerFactor
  | |- awp (lift (ModifyValidator _ _)) _ _ _ => apply awp_ModifyValidator; intros ?
  | |- awp (lift (CreateValidator _ _ _ _ _ _ _)) _ _ _ => apply awp_CreateValidator; intros ?
  | |- awp (lift (CreateDelegation _ _ _ _)) _ _ _ => apply awp_CreateDelegation; intros ?
  | |- awp (lift (ModifyDelegation _ _ _)) _ _ _ => apply awp_ModifyDelegation; intros ?
  | |- awp (lift (RemoveDelegation _ _)) _ _ _ => apply awp_RemoveDelegation; intros ?
  | |- awp (lift (setVotingPowerFactor _ _)) _ _ _ => apply awp_setVotingPowerFactor
  | |- awp (add_amount_delegated _) _ _ _ => apply awp_add_amount_delegated
  | |- awp (sub_amount_delegated _) _ _ _ => apply awp_sub_amount_delegated
  | |- awp (current_state _ _ _ _ _) _ _ _ => apply awp_current_state; intros ? ? ? ?
  | |- awp (new_state _ _ _ _ _) _ _ _ => apply awp_new_state; intros ? ? ? ?
  | |- awp (delete_validator _) _ _ _ => apply awp_delete_validator; intros ?
  | |- awp (of_outcome (voteCountWithFactor _ _ _)) _ _ _ => apply awp_votes
  | |- awp (change_votes _ _ _ _) _ _ _ => apply awp_change_votes; intros ? ?
  | |- awp (modify_validator _ _ _) _ _ _ => apply awp_modify_validator; intros ?
  | |- awp (when _ _) _ _ _ => apply awp_when; intros ?
  | |- awp (if ?b then _ else _) _ _ _ => destruct b eqn:?
  | |- awp (match ?x with _ => _ end) _ _ _ => destruct x eqn:?
  | |- awp (let '_ := ?x in _) _ _ _ => destruct x eqn:?
  | |- awp _ _ _ _ =>
      first [apply awp_quiet; [solve [auto 4 with effects]|intros ?]
            |apply awp_ro; [solve [auto 4 with effects]|intros ?|intros ?]]
  end; cbv beta zeta.
Ltac awp_run := repeat awp_step.
