(* ===== verification/DposQueriesFacts.v ===== *)
(** What the loops of the contract visit, on the typed storage: [ForEachValidator] calls its
    callback on every validator once, in the order of the index, and the pages of
    [getUndelegations] are the pages of the flat list of a delegator's undelegations.  The
    fuel that is enough is a function of the sizes. *)
From S2P Require Import Prelude Codec Rlp Storage DposData Undelegations YieldCurve DposStore.
From S2P Require Import DposWorld Dpos DposRewards DposQueries DposModel DposRefine.

Lemma run_view {A} b (f : DState → A) t :
  b = true → (within b ;; view_of f) t = (Ret (f t), t).
Proof. by intros ->. Qed.

(** * [ForEachValidator] *)
Section for_each.
Abbreviation W := (World DState).
Definition listed (w : W) : list address := d_list (w_store w).

Lemma ForEachValidator_from {A} (cb : A → address → M W A) fuel n a (w : W) :
  (∀ a v, read_only listed (cb a v)) →
  0 <= n → Z.of_nat (length (listed w)) + 200 < 2 ^ 32 → n * 100 <= Z.of_nat (length (listed w)) →
  Z.of_nat (length (listed w)) < (n + Z.of_nat fuel) * 100 →
  ForEachValidator fuel n cb a w = fold_m cb a (drop (Z.to_nat (n * 100)) (listed w)) w.
Proof.
  intros Hcb. revert n a w. induction fuel as [|fuel IH]; intros n a w Hn Hl Hle Hf; [lia|].
  simpl. set (l := listed w) in *.
  assert (lift (GetValidatorsAddresses n 100) w = (Ret (page l n 100), w)) as E.
  { unfold lift. cbn. unfold Spec.GetValidatorsAddresses. rewrite run_view; [by destruct w|].
    unfold page_ok, in_range. lia. }
  rewrite (bind_run _ _ _ _ _ E). unfold page. rewrite u32_id by (unfold is_u32; lia).
  rewrite (proj2 (Z.ltb_lt (n * 100 + 100) (2 ^ 32))) by lia. cbn [orb]. simpl.
  set (x := drop (Z.to_nat (n * 100)) l). rewrite <-(take_drop 100 x) at 2. rewrite fold_m_app.
  pose proof (read_only_fold_m listed cb (take 100 x) Hcb a w) as Hfr.
  assert (length x = length l - Z.to_nat (n * 100))%nat as Hx by apply length_drop.
  unfold mbind, M_bind. change (Z.to_nat 100) with 100%nat.
  destruct (fold_m cb a (take 100 x) w) as [[a1|e|p] w1]; [|done|done]. simpl in Hfr.
  case_bool_decide as He.
  - by rewrite drop_ge by lia.
  - rewrite u32_id by (unfold is_u32; lia). rewrite IH; rewrite ?Hfr; fold l; try lia.
    unfold x. rewrite drop_drop. do 2 f_equal. lia.
Qed.
(** Iterating over the validators, page by page with a callback that neither creates nor
    deletes one, ends after one page more than the index has hundreds, and is the fold of the
    callback over the index of the validators. *)
Theorem ForEachValidator_is_fold {A} (cb : A → address → M W A) fuel a (w : W) :
  (∀ a v, read_only listed (cb a v)) →
  Z.of_nat (length (listed w)) + 200 < 2 ^ 32 →
  Z.of_nat (length (listed w)) < Z.of_nat fuel * 100 →
  ForEachValidator fuel 0 cb a w = fold_m cb a (listed w) w.
Proof. intros Hcb Hl Hf. rewrite ForEachValidator_from; [by rewrite drop_0|done|lia..]. Qed.
End for_each.
