(* ===== verification/DposErrors.v ===== *)
(** Failing calls.  The contract writes its storage irreversibly, so a method that returns an
    error has to do so before it changes anything; every method but [cancelUndelegate] and
    [claimAllRewards] does, and a call that fails leaves the world as it was. *)
From S2P Require Import Prelude Codec Rlp Storage DposData YieldCurve DposStore DposWorld Dpos.
From S2P Require Import DposRewards DposQueries DposRun DposModel DposAccounts.

(** * Reads of the typed storage, and operations that return no error *)
Abbreviation same_state := (read_only (λ s, s)) (only parsing).
Section ops.
Abbreviation reads := (read_only (λ t : DState, t)).
Lemma reads_within b : reads (within b).
Proof. by destruct b. Qed.
Lemma reads_view_of {A} (f : DState → A) : reads (view_of f).
Proof. done. Qed.
#[local] Hint Resolve reads_within reads_view_of : effects.
Ltac reads_op :=
  intros; cbn;
  cbv delta [Spec.GetValidator Spec.GetValidatorInfo Spec.GetValidatorRewards
    Spec.CheckValidatorOwner Spec.GetValidatorOwner Spec.ValidatorExists
    Spec.GetValidatorsAddresses Spec.GetValidatorsCount Spec.GetDelegation
    Spec.GetDelegationsCount Spec.GetDelegatorValidatorsAddresses
    Spec.GetAllDelegatorValidatorsAddresses Spec.UndelegationExists Spec.GetUndelegation
    Spec.GetUndelegationsValidator Spec.GetUndelegationIdsCount Spec.GetUndelegationIds
    Spec.getVotingPowerFactor Spec.state_get];
  ro_solve.
Lemma reads_GetValidator v : reads (GetValidator v).
Proof. reads_op. Qed.
Lemma reads_GetValidatorInfo v : reads (GetValidatorInfo v).
Proof. reads_op. Qed.
Lemma reads_GetValidatorRewards v : reads (GetValidatorRewards v).
Proof. reads_op. Qed.
Lemma reads_CheckValidatorOwner o v : reads (CheckValidatorOwner o v).
Proof. reads_op. Qed.
Lemma reads_GetValidatorOwner v : reads (GetValidatorOwner v).
Proof. reads_op. Qed.
Lemma reads_ValidatorExists v : reads (ValidatorExists v).
Proof. reads_op. Qed.
Lemma reads_GetValidatorsAddresses b n : reads (GetValidatorsAddresses b n).
Proof. reads_op. Qed.
Lemma reads_GetValidatorsCount : reads GetValidatorsCount.
Proof. reads_op. Qed.
Lemma reads_GetDelegation d v : reads (GetDelegation d v).
Proof. reads_op. Qed.
Lemma reads_GetDelegationsCount d : reads (GetDelegationsCount d).
Proof. reads_op. Qed.
Lemma reads_GetDelegatorValidatorsAddresses d b n : reads (GetDelegatorValidatorsAddresses d b n).
Proof. reads_op. Qed.
Lemma reads_GetAllDelegatorValidatorsAddresses d : reads (GetAllDelegatorValidatorsAddresses d).
Proof. reads_op. Qed.
Lemma reads_UndelegationExists d v i : reads (UndelegationExists d v i).
Proof. reads_op. Qed.
Lemma reads_GetUndelegation d v i : reads (GetUndelegation d v i).
Proof. reads_op. Qed.
Lemma reads_GetUndelegationsValidator d i : reads (GetUndelegationsValidator d i).
Proof. reads_op. Qed.
Lemma reads_GetUndelegationIdsCount d v : reads (GetUndelegationIdsCount d v).
Proof. reads_op. Qed.
Lemma reads_GetUndelegationIds d v i n : reads (GetUndelegationIds d v i n).
Proof. reads_op. Qed.
Lemma reads_getVotingPowerFactor v : reads (getVotingPowerFactor v).
Proof. reads_op. Qed.
Lemma reads_state_get v b : reads (state_get v b).
Proof. reads_op. Qed.
Lemma reads_require_store {A} (o : option A) e : reads (require o e).
Proof. by destruct o. Qed.

(** Writes; the other operations are [quiet]. *)
Lemma no_err_within b : no_err (within b).
Proof. by destruct b. Qed.
Lemma no_err_view_of {A} (f : DState → A) : no_err (view_of f).
Proof. done. Qed.
Lemma no_err_update f : no_err (update f).
Proof. done. Qed.
Lemma no_err_Modify v f : no_err (Spec.Modify v f).
Proof. intros t e. unfold Spec.Modify. erewrite bind_run by done. by destruct (_ !! _). Qed.
#[local] Hint Resolve no_err_within no_err_view_of no_err_update no_err_Modify : effects.
Ltac no_err_op :=
  intros; cbn;
  cbv delta [Spec.ModifyValidator Spec.CreateValidator Spec.DeleteValidator Spec.CreateDelegation
    Spec.ModifyDelegation Spec.RemoveDelegation Spec.setVotingPowerFactor
    Spec.clearVotingPowerFactor];
  no_err_solve.
Lemma no_err_ModifyValidator v x : no_err (ModifyValidator v x).
Proof. no_err_op. Qed.
Lemma no_err_CreateValidator o v k b c d e : no_err (CreateValidator o v k b c d e).
Proof. no_err_op. Qed.
Lemma no_err_DeleteValidator v : no_err (DeleteValidator v).
Proof. no_err_op. Qed.
Lemma no_err_CreateDelegation d v b x : no_err (CreateDelegation d v b x).
Proof. no_err_op. Qed.
Lemma no_err_ModifyDelegation d v x : no_err (ModifyDelegation d v x).
Proof. no_err_op. Qed.
Lemma no_err_RemoveDelegation d v : no_err (RemoveDelegation d v).
Proof. no_err_op. Qed.
Lemma no_err_clearVotingPowerFactor v : no_err (clearVotingPowerFactor v).
Proof. no_err_op. Qed.
End ops.

(** * Steps on the world *)
Section steps.
Abbreviation W := (World DState).
Lemma same_lift {A} (m : M DState A) : read_only (λ t, t) m → read_only (λ w : W, w) (lift m).
Proof.
  intros Hm [t b l f]. specialize (Hm t). unfold lift. simpl in *. destruct (m t) as [o t'].
  simpl in *. by subst.
Qed.
Lemma no_err_lift {A} (m : M DState A) : no_err m → no_err (lift m : M W A).
Proof.
  intros Hm w e. specialize (Hm (w_store w) e). unfold lift. by destruct (m (w_store w)).
Qed.
Lemma no_err_quiet_op {A} (m : M DState A) : quiet dacct m → no_err m.
Proof. apply quiet_no_err. Qed.
Lemma same_require {A} (o : option A) e : read_only (λ w : W, w) (require o e).
Proof. by destruct o. Qed.
Lemma no_err_AddLog l : no_err (AddLog l : M W unit).
Proof. done. Qed.
Lemma no_err_modify_fields f : no_err (modify_fields f : M W unit).
Proof. done. Qed.
Lemma no_err_votes cfg s f : no_err (of_outcome (voteCountWithFactor cfg s f) : M W Z).
Proof.
  intros w e. unfold of_outcome, voteCountWithFactor. simpl. destruct (f =? 0); [done|].
  destruct (_ <=? _); [|done]. unfold big_div. by destruct (_ =? 0).
Qed.
Lemma no_err_big_div x y : no_err (of_outcome (big_div x y) : M W Z).
Proof. intros w e. unfold big_div. by destruct (y =? 0). Qed.
Lemma no_err_add64p x y : no_err (of_outcome (add64p x y) : M W Z).
Proof. intros w e. unfold add64p. by destruct (_ || _). Qed.
Lemma no_err_quiet_step {A} (m : M W A) : quiet acct m → no_err m.
Proof. apply quiet_no_err. Qed.
End steps.
#[export] Hint Resolve same_lift no_err_lift same_require no_err_AddLog no_err_modify_fields
  no_err_votes no_err_big_div no_err_add64p no_err_ModifyValidator no_err_CreateValidator
  no_err_DeleteValidator no_err_CreateDelegation no_err_ModifyDelegation no_err_RemoveDelegation
  no_err_clearVotingPowerFactor : effects.
#[export] Hint Extern 3 (no_err _) => (apply no_err_quiet_op; solve [eauto 2 with effects]) : effects.
#[export] Hint Extern 3 (no_err _) => (apply no_err_quiet_step; solve [eauto 2 with effects]) : effects.
#[export] Hint Resolve reads_GetValidator reads_GetValidatorInfo reads_GetValidatorRewards
  reads_CheckValidatorOwner reads_GetValidatorOwner reads_ValidatorExists
  reads_GetValidatorsAddresses reads_GetValidatorsCount reads_GetDelegation
  reads_GetDelegationsCount reads_GetDelegatorValidatorsAddresses
  reads_GetAllDelegatorValidatorsAddresses reads_UndelegationExists reads_GetUndelegation
  reads_GetUndelegationsValidator reads_GetUndelegationIdsCount reads_GetUndelegationIds
  reads_getVotingPowerFactor reads_state_get reads_require_store : effects.

(** * The methods *)
Section methods.
Context (cfg : ChainConfig).
Abbreviation W := (World DState).
(** A returned error leaves the whole world as it was. *)
Abbreviation safe := (err_pure (λ w : W, w)).

Lemma no_err_new_state v b x r : no_err (new_state cfg v b x r : M W _).
Proof. unfold new_state, calculateRewardPer1Stake. no_err_solve. Qed.
#[local] Hint Resolve no_err_new_state : effects.
Lemma no_err_current_state v b x r : no_err (current_state cfg v b x r : M W _).
Proof. unfold current_state. no_err_solve. Qed.
Lemma no_err_change_votes p s f : no_err (change_votes cfg p s f : M W unit).
Proof. unfold change_votes, update_eligible_vote_count. no_err_solve. Qed.
Lemma no_err_modify_validator v x r : no_err (modify_validator v x r : M W unit).
Proof. unfold modify_validator. no_err_solve. Qed.
Lemma no_err_delete_validator v : no_err (delete_validator v : M W unit).
Proof. unfold delete_validator. no_err_solve. Qed.
Lemma no_err_shrink_delegation d v b s x n : no_err (shrink_delegation d v b s x n : M W State).
Proof. unfold shrink_delegation. no_err_solve. Qed.
Lemma no_err_add_amount_delegated x : no_err (add_amount_delegated x : M W unit).
Proof. done. Qed.
Lemma no_err_sub_amount_delegated x : no_err (sub_amount_delegated x : M W unit).
Proof. done. Qed.
#[local] Hint Resolve no_err_current_state no_err_change_votes no_err_modify_validator
  no_err_delete_validator no_err_shrink_delegation no_err_add_amount_delegated
  no_err_sub_amount_delegated : effects.

(** Reads and checks first; then steps that return no error. *)
Ltac safe_step :=
  lazymatch goal with
  | |- safe (mbind _ _) =>
      first [apply err_pure_bind_ro; [solve [ro_solve]|intros ?]
            |apply err_pure_no_err; solve [no_err_solve]
            |apply err_pure_bind; [|intros ?; solve [no_err_solve]]]
  | |- safe (if ?b then _ else _) => destruct b
  | |- safe (match ?x with _ => _ end) => destruct x
  | |- safe (let '_ := ?x in _) => destruct x
  | |- _ => first [solve [eauto 2 with effects]
                  |apply err_pure_read_only; solve [ro_solve]
                  |apply err_pure_no_err; solve [no_err_solve]]
  end.
Ltac safe_solve := intros; repeat (cbv beta zeta; safe_step).

Lemma safe_delegate ctx b v : safe (delegate cfg ctx b v).
Proof. unfold delegate, delegate_update_values. safe_solve. Qed.
Lemma safe_undelegate ctx b v x : safe (undelegate cfg ctx b v x).
Proof. unfold undelegate, check_amount. safe_solve. Qed.
Lemma safe_confirmUndelegate ctx b v i : safe (confirmUndelegate ctx b v i).
Proof. unfold confirmUndelegate. safe_solve. Qed.
Lemma safe_redelegate_from ctx b v x r a p f : safe (redelegate_from cfg ctx b v x r a p f).
Proof. unfold redelegate_from, check_amount. safe_solve. Qed.
Lemma no_err_redelegate_to ctx b v x r a p f : no_err (redelegate_to cfg ctx b v x r a p f : M W unit).
Proof. unfold redelegate_to. no_err_solve. Qed.
#[local] Hint Resolve safe_redelegate_from no_err_redelegate_to : effects.
Lemma safe_redelegate ctx b v u x : safe (redelegate cfg ctx b v u x).
Proof. unfold redelegate. safe_solve. Qed.
Lemma safe_claimRewards ctx b v : safe (claimRewards cfg ctx b v).
Proof. unfold claimRewards. safe_solve. Qed.
Lemma safe_claimCommissionRewards ctx b v : safe (claimCommissionRewards ctx b v).
Proof. unfold claimCommissionRewards. safe_solve. Qed.
Lemma safe_registerValidatorWithoutChecks ctx b a : safe (registerValidatorWithoutChecks cfg ctx b a).
Proof. unfold registerValidatorWithoutChecks, delegate_update_values. safe_solve. Qed.
Lemma safe_setValidatorInfo ctx v d e : safe (setValidatorInfo ctx v d e).
Proof. unfold setValidatorInfo. safe_solve. Qed.
Lemma safe_setCommission ctx b v c : safe (setCommission cfg ctx b v c).
Proof. unfold setCommission. safe_solve. Qed.

(** ** Queries *)
Abbreviation reads := (read_only (λ t : DState, t)).
Lemma reads_basic_info a v : reads (basic_info a v).
Proof. unfold basic_info. ro_solve. Qed.
#[local] Hint Resolve reads_basic_info : effects.
Lemma reads_to_validator_data a : reads (to_validator_data a).
Proof. unfold to_validator_data. ro_solve. Qed.
#[local] Hint Resolve reads_to_validator_data : effects.
Lemma reads_validators_for o k n l a : reads (validators_for o k n l a).
Proof. revert n l. induction a; intros n l; simpl; ro_solve. Qed.
Lemma reads_getUndelegation d v i : reads (getUndelegation d v i).
Proof. unfold getUndelegation. ro_solve. Qed.
#[local] Hint Resolve reads_validators_for reads_getUndelegation : effects.
Lemma reads_undelegations_loop n d i k l : reads (undelegations_loop n d i k l).
Proof. revert i k l. induction n; intros i k l; simpl; ro_solve. Qed.
Lemma reads_storage_reads_loop x d n i k r p : reads (storage_reads_loop x d n i k r p).
Proof. revert i k r p. induction x; intros i k r p; simpl; ro_solve. Qed.
#[local] Hint Resolve reads_undelegations_loop reads_storage_reads_loop : effects.
Lemma reads_getValidator v : reads (getValidator v).
Proof. unfold getValidator. ro_solve. Qed.
Lemma reads_getValidators n : reads (getValidators n).
Proof. unfold getValidators. ro_solve. Qed.
Lemma reads_getValidatorsFor o n : reads (getValidatorsFor o n).
Proof. unfold getValidatorsFor. ro_solve. Qed.
Lemma reads_getTotalDelegation d : reads (getTotalDelegation d).
Proof. unfold getTotalDelegation. ro_solve. Qed.
Lemma reads_getDelegations d n : reads (getDelegations cfg d n).
Proof. unfold getDelegations, delegation_data. ro_solve. Qed.
Lemma reads_getUndelegations x d n : reads (getUndelegations x d n).
Proof. unfold getUndelegations. ro_solve. Qed.
Lemma reads_getUndelegationsStorageReadsCount x d n k :
  reads (getUndelegationsStorageReadsCount x d n k).
Proof. unfold getUndelegationsStorageReadsCount. ro_solve. Qed.
#[local] Hint Resolve reads_getValidator reads_getValidators reads_getValidatorsFor
  reads_getTotalDelegation reads_getDelegations reads_getUndelegations
  reads_getUndelegationsStorageReadsCount safe_delegate safe_undelegate safe_confirmUndelegate
  safe_redelegate safe_claimRewards safe_claimCommissionRewards
  safe_registerValidatorWithoutChecks safe_setValidatorInfo safe_setCommission : effects.

(** * Calls *)
Context `{Keccak} `{EcrecoverFn} (delayed : Delayed DState) (fuel : nat).
Definition atomic (m : method) : bool :=
  match m with MCancelUndelegate _ _ | MClaimAllRewards => false | _ => true end.
Definition atomic_input (i : input) : bool := match i with InCall m => atomic m | _ => true end.
Lemma same_ask {A} (m : M DState A) : read_only (λ w : W, w) (ask delayed m).
Proof. done. Qed.
#[local] Hint Resolve same_ask : effects.
Lemma safe_dispatch ctx b m : atomic m = true → safe (dispatch cfg delayed fuel ctx b m).
Proof. destruct m; intros Hm; try discriminate Hm; simpl; unfold unit_ret, registerValidator; safe_solve. Qed.
#[local] Hint Resolve safe_dispatch : effects.
(** ** The start of the contract
    The first use after the start of the node sets the fields from the storage; balances and logs
    play no part in it. *)
Definition at_world (b : gmap address Z) (l : list LogRecord) (w : W) : W :=
  {| w_store := w_store w; w_balances := b; w_logs := l; w_fields := w_fields w |}.
Definition blind {A} (m : M W A) : Prop :=
  ∀ w b l, m (at_world b l w) = ((m w).1, at_world b l (m w).2).
Lemma blind_bind {A B} (m : M W A) (k : A → M W B) : blind m → (∀ a, blind (k a)) → blind (m ≫= k).
Proof.
  intros Hm Hk w b l. unfold mbind, M_bind. rewrite Hm. destruct (m w) as [[a|e|p] w1]; [|done..].
  apply Hk.
Qed.
Lemma blind_ret {A} (x : A) : blind (mret x).
Proof. done. Qed.
Lemma blind_outcome {A} (o : outcome A) : blind (of_outcome o).
Proof. done. Qed.
Lemma blind_lift {A} (m : M DState A) : blind (lift m).
Proof. intros w b l. unfold lift. simpl. by destruct (m (w_store w)). Qed.
Lemma blind_fields : blind get_fields.
Proof. done. Qed.
Lemma blind_modify f : blind (modify_fields f).
Proof. done. Qed.
#[local] Hint Resolve blind_bind blind_ret blind_outcome blind_lift blind_fields blind_modify : effects.
Lemma blind_lazy_init : blind (lazy_init cfg).
Proof.
  unfold lazy_init. apply blind_bind; [done|]. intros f. destruct (lazy_init_done f); [done|].
  repeat (apply blind_bind; [solve [auto with effects]|intros ?]).
  apply blind_bind; [by repeat case_match; auto with effects|]. auto with effects.
Qed.
(** A started contract. *)
Definition started (w : W) : Prop := lazy_init_done (w_fields w) = true.
Lemma lazy_init_started w : started w → lazy_init cfg w = (Ret tt, w).
Proof. intros Hs. unfold lazy_init. erewrite bind_run by done. by rewrite Hs. Qed.
Lemma lazy_init_starts w w' : lazy_init cfg w = (Ret tt, w') → started w' ∧ at_world (w_balances w) (w_logs w) w' = w'.
Proof.
  intros E. split.
  - unfold lazy_init in E. apply bind_ret_inv in E as (f & w1 & [= <- <-] & E).
    destruct (lazy_init_done (w_fields w)) eqn:El; [by injection E as <-|].
    repeat (apply bind_ret_inv in E as (? & ? & _ & E)). by injection E as <-.
  - pose proof (blind_lazy_init w (w_balances w) (w_logs w)) as Hb.
    replace (at_world (w_balances w) (w_logs w) w) with w in Hb by (by destruct w).
    rewrite E in Hb. simpl in Hb. by injection Hb.
Qed.
Lemma lazy_init_same_store w : w_store (lazy_init cfg w).2 = w_store w.
Proof.
  enough (read_only w_store (lazy_init cfg : M W unit)) as Hr by apply Hr.
  unfold lazy_init. ro_solve; done.
Qed.
Lemma Run_failed ctx b i w e w' :
  atomic_input i = true → started w → Run cfg delayed fuel ctx b i w = (Err e, w') → w' = w.
Proof.
  intros Hi Hs. unfold Run. destruct i as [| | |p|m];
    rewrite ?(bind_run _ _ _ _ _ (lazy_init_started w Hs)).
  - by intros [= _ <-].
  - by intros [= _ <-].
  - done.
  - apply (err_pure_read_only (λ w : W, w)). ro_solve.
  - apply (err_pure_bind_ro (λ w : W, w)); [auto with effects|]. intros _.
    by apply safe_dispatch.
Qed.
Lemma RequiredGas_same ctx i g w :
  started w → (RequiredGas cfg fuel ctx i g w).2 = w.
Proof.
  intros Hs. unfold RequiredGas.
  destruct i; rewrite ?(bind_run _ _ _ _ _ (lazy_init_started w Hs)); try done;
    match goal with |- (?m w).2 = w => enough (read_only (λ w : W, w) m) as Hm by apply Hm end;
    unfold method_gas; ro_solve.
Qed.
Lemma RequiredGas_started ctx i g w n w1 :
  i ≠ InShort → RequiredGas cfg fuel ctx i g w = (Ret n, w1) → lazy_init cfg w = (Ret tt, w1).
Proof.
  intros Hi E. assert (∃ w2, lazy_init cfg w = (Ret tt, w2)) as [w2 E2].
  { unfold RequiredGas in E. destruct i; [done|..]; apply bind_ret_inv in E as ([] & w2 & E2 & _); eauto. }
  destruct (lazy_init_starts _ _ E2) as [Hs _]. rewrite E2. f_equal.
  assert (RequiredGas cfg fuel ctx i g w = RequiredGas cfg fuel ctx i g w2) as Ew.
  { unfold RequiredGas. destruct i; [done|..];
      by rewrite (bind_run _ _ _ _ _ E2), (bind_run _ _ _ _ _ (lazy_init_started w2 Hs)). }
  pose proof (RequiredGas_same ctx i g w2 Hs) as H2. by rewrite <-Ew, E in H2.
Qed.
Lemma short_or_not i : i = InShort ∨ i ≠ InShort.
Proof. destruct i; auto. Qed.
Lemma transfer_store a b x w :
  ∃ b' l', (transfer a b x w : outcome unit * W).2 = at_world b' l' w.
Proof.
  unfold transfer, AddBalance, mbind, M_bind. simpl.
  repeat case_match; first [exists (w_balances w), (w_logs w); by destruct w|eexists _, _; reflexivity].
Qed.

(** C27: A call of the contract that returns an error, for lack of gas or balance or depth
    included, leaves the whole world as it was: storage, fields, balances and logs.  The first
    call after the start of the node is the one exception to the fields: it sets them from the
    storage even if it fails.  [cancelUndelegate] and [claimAllRewards] are excepted. *)
Theorem failed_call_changes_nothing typ caller i bad gas value depth b w r left e w' :
  atomic_input i = true →
  evm_call cfg delayed fuel typ caller i bad gas value depth b w = (Ret (r, left, Some e), w') →
  w' = w ∨
  (lazy_init_done (w_fields w) = false ∧ lazy_init cfg w = (Ret tt, w') ∧
   w_store w' = w_store w ∧ w_balances w' = w_balances w ∧ w_logs w' = w_logs w).
Proof.
  intros Hi. unfold evm_call. destruct (CallCreateDepth <? depth); [intros [= _ _ _ <-]; by left|].
  destruct (_ && _ && _); [intros [= _ _ _ <-]; by left|].
  intros ([] & w1 & E1 & (need & w2 & E2 & E3)%bind_ret_inv)%bind_ret_inv.
  assert (∃ b' l', w1 = at_world b' l' w) as (b' & l' & ->).
  { destruct typ; simpl in E1;
      try (exists (w_balances w), (w_logs w); injection E1 as <-; by destruct w).
    pose proof (transfer_store (cr_account caller) dpos_contract_address value w) as HT.
    by rewrite E1 in HT. }
  assert (∀ w3 : W, w3 = w2 → revert_to w w3 = (Ret tt, at_world (w_balances w) (w_logs w) w2)) as Hrev
    by (by intros ? ->).
  assert (w' = at_world (w_balances w) (w_logs w) w2) as ->.
  { unfold run_precompiled in E3. destruct (need <=? gas).
    - destruct (Run cfg delayed fuel _ b i w2) as [[a|e'|p] w3] eqn:ER; [done| |done].
      apply bind_ret_inv in E3 as ([] & w4 & E4 & [= _ _ _ <-]). rewrite Hrev in E4; [by injection E4|].
      destruct (short_or_not i) as [->|Hs]; [by injection ER|].
      apply RequiredGas_started in E2 as [Hst _]%lazy_init_starts; [|done]. by eapply Run_failed.
    - apply bind_ret_inv in E3 as ([] & w4 & E4 & [= _ _ _ <-]).
      rewrite Hrev in E4 by done. by injection E4. }
  clear E1 E3 Hrev. destruct (short_or_not i) as [->|Hs].
  { injection E2 as _ <-. left. by destruct w. }
  apply RequiredGas_started in E2; [|done]. destruct (lazy_init_done (w_fields w)) eqn:El.
  - left. rewrite lazy_init_started in E2 by done. injection E2 as <-. by destruct w.
  - right. split; [done|].
    pose proof (blind_lazy_init (at_world b' l' w) (w_balances w) (w_logs w)) as Hb. rewrite E2 in Hb.
    assert (lazy_init cfg w = (Ret tt, at_world (w_balances w) (w_logs w) w2)) as E by (by destruct w).
    pose proof (lazy_init_same_store w) as Hst. rewrite E in Hst. by split_and!.
Qed.
End methods.
