(* ===== verification/DposInvariants.v ===== *)
(** The invariants of the DPoS contract's accounting: every handler of a call, the consensus
    operations and the genesis keep the stakes, the amount delegated and the eligible votes in
    agreement; the exceptions are stated where the code breaks them. *)
From S2P Require Import Prelude Codec Rlp Storage DposData YieldCurve DposStore DposWorld Dpos.
From S2P Require Import DposRewards DposQueries DposRun DposModel DposAccounts.

Section moves.
Context (cfg : ChainConfig).
Implicit Types (A : Acct).

(** The stake of the delegation of [del] to [v] changes by [x]; [amt] is the amount delegated
    afterwards. *)
Record moved (del v : address) (x amt : Z) A A' : Prop := {
  mv_total v' : total_of A' v' = total_of A v' + (if decide (v = v') then x else 0);
  mv_stake : a_stake A' = <[(del, v) := stake_of A del v + x]> (a_stake A) ∨
             a_stake A' = delete (del, v) (a_stake A) ∧ stake_of A del v + x = 0;
  mv_amount : a_amount A' = amt;
  mv_votes : vote_inv cfg A → vote_inv cfg A';
  mv_other v' : v ≠ v' → a_total A' !! v' = a_total A !! v' ∧ a_factor A' !! v' = a_factor A !! v';
  mv_ready : a_ready A' = a_ready A
}.
Lemma moved_stake_inv del v x A A' :
  moved del v x (u256 (a_amount A + x)) A A' → stake_inv A → stake_inv A'.
Proof. intros [] HA. by eapply (stake_inv_change A A' del v x). Qed.

(** The accounting after a change of one validator's stake. *)
Record recounted (v : address) (s x : Z) A A' : Prop := {
  rc_old : a_total A !! v = Some s;
  rc_total : a_total A' = <[v := s + x]> (a_total A) ∧ a_factor A' = a_factor A ∨
             a_total A' = delete v (a_total A) ∧ s + x = 0 ∧
               a_factor A' = delete v (a_factor A);
  rc_votes : is_u64 (a_votes A) → is_u64 (votes cfg s (factor_of A v)) →
             votes cfg s (factor_of A v) <= a_votes A →
             a_votes A' = a_votes A - votes cfg s (factor_of A v)
                            + votes cfg (s + x) (factor_of A v) ∧ is_u64 (a_votes A')
}.
Lemma recounted_total v s x A A' v' :
  recounted v s x A A' → total_of A' v' = total_of A v' + (if decide (v = v') then x else 0).
Proof.
  intros [Ho Ht _]. unfold total_of. case_decide; subst.
  - rewrite Ho. destruct Ht as [[-> _]|(-> & ? & _)].
    + by rewrite lookup_insert_eq.
    + rewrite lookup_delete_eq. simpl. lia.
  - rewrite Z.add_0_r. destruct Ht as [[-> _]|(-> & _)].
    + by rewrite lookup_insert_ne.
    + by rewrite lookup_delete_ne.
Qed.
Lemma recounted_other v s x A A' v' :
  recounted v s x A A' → v ≠ v' →
  a_total A' !! v' = a_total A !! v' ∧ a_factor A' !! v' = a_factor A !! v'.
Proof.
  intros [_ Hc _] Hn. destruct Hc as [[-> ->]|(-> & _ & ->)].
  - by rewrite lookup_insert_ne.
  - by rewrite !lookup_delete_ne.
Qed.
Lemma recounted_votes v s x A A' : recounted v s x A A' → vote_inv cfg A → vote_inv cfg A'.
Proof.
  intros HR HA. pose proof (recounted_total v s x A A' v HR) as Ht.
  rewrite decide_True in Ht by done. destruct HR as [Ho Hc Hv].
  pose proof (vote_inv_le cfg A v HA) as Hle.
  assert (total_of A v = s) as Es by (unfold total_of; by rewrite Ho). rewrite Es in *.
  destruct Hv as [Hv Hr]; [apply HA|apply votes_range|done|].
  assert (votes cfg (s + x) (factor_of A' v) = votes cfg (s + x) (factor_of A v)) as Ef.
  { destruct Hc as [[_ Hf]|(_ & -> & _)]; [|by rewrite !votes_zero_stake].
    unfold factor_of. by rewrite Hf. }
  apply (vote_inv_change cfg A A' v HA); [| |by rewrite Ht, Ef, Es|done].
  - intros v' Hn. eapply recounted_other; [by split|done].
  - destruct Hc as [[-> _]|(_ & _ & ->)]; [by rewrite lookup_insert_eq|].
    by rewrite lookup_delete_eq.
Qed.
Lemma moved_intro del v s x amt A A' :
  recounted v s x A A' →
  a_stake A' = <[(del, v) := stake_of A del v + x]> (a_stake A) ∨
    a_stake A' = delete (del, v) (a_stake A) ∧ stake_of A del v + x = 0 →
  a_amount A' = amt → a_ready A' = a_ready A → moved del v x amt A A'.
Proof.
  intros HR HS Ha Hr. split; [|done|done| | |done].
  - intros v'. by eapply recounted_total.
  - by eapply recounted_votes.
  - intros v'. by eapply recounted_other.
Qed.

(** What every handler does to the accounting. *)
Record keeps A A' : Prop := {
  kp_stake : stake_inv A → stake_inv A';
  kp_votes : vote_inv cfg A → vote_inv cfg A';
  kp_ready : a_ready A' = a_ready A
}.
#[export] Instance keeps_refl : Reflexive keeps.
Proof. by split. Qed.
#[export] Instance keeps_trans : Transitive keeps.
Proof. intros A1 A2 A3 [] []. split; [tauto..|congruence]. Qed.
Lemma moved_keeps del v x A A' : moved del v x (u256 (a_amount A + x)) A A' → keeps A A'.
Proof. intros HM. split; [by eapply moved_stake_inv|apply HM|apply HM]. Qed.

Ltac acct_simpl :=
  unfold with_total, with_stakes, with_factor, with_votes, with_amount in *; subst; simpl in *;
  repeat match goal with
  | H : TotalStake _ = TotalStake _ |- _ => rewrite H in *; clear H
  | H : Some _ = a_total _ !! _ |- _ => symmetry in H
  end.
Ltac recount :=
  split; simpl;
  [eassumption|first [by left | right; split_and!; [done|lia|done]]|unfold Z.sub in *; assumption].
Ltac stake_known :=
  unfold stake_of; match goal with H : _ = a_stake _ !! _ |- _ => rewrite <-H end; simpl.
Ltac stake_moved :=
  simpl; first [left; stake_known; f_equal; lia | right; split; [done|stake_known; lia]].
(** A run that changed the stake of one delegation of an existing validator. *)
Ltac moved_done := acct_simpl; eapply moved_intro; [recount|stake_moved|done|done].

Lemma awp_delegate ctx b v A :
  awp (delegate cfg ctx b v)
    (λ _ A', moved (CallerAccount ctx) v (Value ctx) (u256 (a_amount A + Value ctx)) A A')
    (λ _ A', A' = A) A.
Proof. unfold delegate, delegate_update_values. awp_run; try done; moved_done. Qed.
Lemma awp_undelegate ctx b v x A :
  awp (undelegate cfg ctx b v x)
    (λ _ A', moved (CallerAccount ctx) v (- x) (u256 (a_amount A + - x)) A A')
    (λ _ A', A' = A) A.
Proof. unfold undelegate, check_amount, shrink_delegation. awp_run; try done; moved_done. Qed.
(** A drained validator may disappear. *)
Definition dropped A A' : Prop :=
  A' = A ∨ ∃ v, a_total A !! v = Some 0 ∧
    A' = with_factor (delete v (a_factor A)) (with_total (delete v (a_total A)) A).
Lemma dropped_keeps A A' : dropped A A' → keeps A A'.
Proof.
  intros [->|(v & Hv & ->)]; [done|].
  assert (∀ v', total_of (with_factor (delete v (a_factor A))
    (with_total (delete v (a_total A)) A)) v' = total_of A v') as Ht.
  { intros v'. unfold total_of. simpl. destruct (decide (v = v')) as [<-|Hn].
    - by rewrite lookup_delete_eq, Hv.
    - by rewrite lookup_delete_ne. }
  split; [| |done].
  - intros [HT HA]. split; [|done]. intros v'. rewrite Ht. apply HT.
  - apply (recounted_votes v 0 0). split; [done|right; done|]. intros. rewrite Z.add_0_r.
    split; [|done]. change (a_votes A = a_votes A - votes cfg 0 (factor_of A v)
      + votes cfg 0 (factor_of A v)). lia.
Qed.
Lemma with_total_same A v s : a_total A !! v = Some s → with_total (<[v := s]> (a_total A)) A = A.
Proof. intros Hv. unfold with_total. rewrite insert_id by done. by destruct A. Qed.
Lemma with_stakes_same A k s : a_stake A !! k = Some s → with_stakes (<[k := s]> (a_stake A)) A = A.
Proof. intros Hv. unfold with_stakes. rewrite insert_id by done. by destruct A. Qed.
(** Runs that write back the stakes they read. *)
Ltac unmoved_done :=
  subst; simpl in *; rewrite ?with_total_same, ?with_stakes_same by congruence; try done.

Ltac dropped_done :=
  try done; repeat match goal with
  | |- context [if ?b then with_undelegations _ _ else _] => destruct b
  | H : context [if ?b then with_undelegations _ _ else _] |- _ => destruct b
  end; simpl in *;
  first [by left; unmoved_done
        |right; eexists; split; [|done]; subst; simpl in *;
         match goal with H : Some _ = a_total _ !! _ |- _ => rewrite <-H end; f_equal; lia].

Lemma awp_confirmUndelegate ctx b v i A :
  awp (confirmUndelegate ctx b v i) (λ _, dropped A) (λ _ A', A' = A) A.
Proof. unfold confirmUndelegate. awp_run; dropped_done. Qed.
Lemma awp_claimRewards ctx b v A :
  awp (claimRewards cfg ctx b v) (λ _ A', A' = A) (λ _ A', A' = A) A.
Proof. unfold claimRewards. awp_run; unmoved_done. Qed.
Lemma awp_claimCommissionRewards ctx b v A :
  awp (claimCommissionRewards ctx b v) (λ _, dropped A) (λ _ A', A' = A) A.
Proof. unfold claimCommissionRewards. awp_run; dropped_done. Qed.
(** A cancelled undelegation restores the stake, unless the validator is full by now: then the
    delegation has grown already. *)
Lemma awp_cancelUndelegate ctx b v i A :
  awp (cancelUndelegate cfg ctx b v i)
    (λ _ A', ∃ x, moved (CallerAccount ctx) v x (u256 (a_amount A + x)) A A')
    (λ e A', e = ErrValidatorsMaxStakeExceeded ∨ A' = A) A.
Proof.
  unfold cancelUndelegate. awp_run; try (by auto); eexists;
    repeat match goal with |- context [if ?b then with_undelegations _ _ else _] => destruct b end;
    moved_done.
Qed.
(** The two halves of a redelegation leave the amount delegated as it is. *)
Lemma awp_redelegate_from ctx b v x r amount A :
  a_total A !! v = Some (TotalStake x) →
  awp (redelegate_from cfg ctx b v x r amount (votes cfg (TotalStake x) (factor_of A v))
        (factor_of A v))
    (λ _ A', moved (CallerAccount ctx) v (- amount) (a_amount A) A A') (λ _ A', A' = A) A.
Proof.
  intros Hx. unfold redelegate_from, check_amount, shrink_delegation. awp_run; try done; moved_done.
Qed.
Lemma awp_redelegate_to ctx b v x r amount A :
  a_total A !! v = Some (TotalStake x) →
  awp (redelegate_to cfg ctx b v x r amount (votes cfg (TotalStake x) (factor_of A v))
        (factor_of A v))
    (λ _ A', moved (CallerAccount ctx) v amount (a_amount A) A A') (λ _ _, False) A.
Proof. intros Hx. unfold redelegate_to. awp_run; try done; moved_done. Qed.
Lemma awp_setCommission ctx b v x A :
  awp (setCommission cfg ctx b v x) (λ _ A', A' = A) (λ _ A', A' = A) A.
Proof. unfold setCommission. awp_run; unmoved_done. Qed.
Lemma awp_setValidatorInfo ctx v d e A :
  awp (setValidatorInfo ctx v d e) (λ _ A', A' = A) (λ _ A', A' = A) A.
Proof. unfold setValidatorInfo. awp_run; done. Qed.
(** Both halves together. *)
Lemma moved_back_keeps del v u x A A1 A2 :
  moved del v (- x) (a_amount A) A A1 → moved del u x (a_amount A1) A1 A2 → keeps A A2.
Proof.
  intros M1 M2. split; [|intros; by apply M2, M1|by rewrite (mv_ready _ _ _ _ _ _ M2), (mv_ready _ _ _ _ _ _ M1)].
  intros HA. set (n := u256 (a_amount A + - x)).
  assert (stake_inv (with_amount n A1)) as H1.
  { apply (stake_inv_change A _ del v (- x)); [done|apply M1|apply M1|done]. }
  assert (stake_inv (with_amount (u256 (n + x)) A2)) as [H2 H3].
  { apply (stake_inv_change (with_amount n A1) _ del u x); [done|apply M2|apply M2|done]. }
  split; [apply H2|]. simpl in H3. rewrite <-H3.
  rewrite (mv_amount _ _ _ _ _ _ M2), (mv_amount _ _ _ _ _ _ M1). unfold n, u256.
  rewrite Zplus_mod_idemp_l, (si_amount A HA). unfold u256.
  rewrite <-Z.add_assoc, Z.add_opp_diag_l, Z.add_0_r. by rewrite Z.mod_mod.
Qed.
Lemma awp_redelegate ctx b v u x A :
  awp (redelegate cfg ctx b v u x) (λ _, keeps A) (λ _ A', A' = A) A.
Proof.
  unfold redelegate. awp_run; try done. simplify_eq.
  repeat match goal with H : TotalStake <$> Some _ = _ |- _ => simpl in H; symmetry in H end.
  eapply awp_mono; [by apply awp_redelegate_from| |done]. intros [] A1 M1. simpl.
  match goal with H : bool_decide (v = u) = false |- _ => apply bool_decide_eq_false in H as Hn end.
  destruct (mv_other _ _ _ _ _ _ M1 u Hn) as [Et Ef].
  assert (factor_of A u = factor_of A1 u) as -> by (unfold factor_of; by rewrite Ef).
  apply awp_bind. eapply awp_mono; [apply awp_redelegate_to; by rewrite Et| |done].
  intros [] A2 M2. simpl. apply awp_quiet; [auto with effects|]. intros [].
  by eapply moved_back_keeps.
Qed.

Lemma created_keeps v A : a_total A !! v = None → keeps A (with_total (<[v := 0]> (a_total A)) A).
Proof.
  intros Hv. set (A0 := with_total (<[v := 0]> (a_total A)) A).
  assert (∀ v', total_of A0 v' = total_of A v') as Ht.
  { intros v'. unfold total_of. simpl. destruct (decide (v = v')) as [<-|Hn].
    - by rewrite lookup_insert_eq, Hv.
    - by rewrite lookup_insert_ne. }
  split; [| |done].
  - intros [HT HA]. split; [|done]. intros v'. rewrite Ht. apply HT.
  - intros HV. apply (vote_inv_change cfg A A0 v HV).
    + intros v' Hn. simpl. by rewrite lookup_insert_ne.
    + simpl. by rewrite lookup_insert_eq.
    + rewrite Ht. change (a_votes A0) with (a_votes A).
      assert (factor_of A0 v = factor_of A v) as -> by done. lia.
    + apply HV.
Qed.
(** A new validator with a first delegation. *)
Lemma registered_keeps del v x A A' :
  a_total A !! v = None → a_stake A !! (del, v) = None →
  a_total A' = <[v := x]> (<[v := 0]> (a_total A)) → a_factor A' = a_factor A →
  a_stake A' = <[(del, v) := x]> (a_stake A) → a_amount A' = u256 (a_amount A + x) →
  a_ready A' = a_ready A →
  (is_u64 (a_votes A) → 0 <= a_votes A →
   a_votes A' = a_votes A + votes cfg x BasisPointsScale ∧ is_u64 (a_votes A')) →
  keeps A A'.
Proof.
  intros Hv Hs Et Ef Es Ea Er Hk. set (A0 := with_total (<[v := 0]> (a_total A)) A).
  pose proof (created_keeps v A Hv) as H0. fold A0 in H0.
  split; [intros HA|intros HV|done].
  - assert (stake_of A0 del v = 0) as E0 by (unfold stake_of; simpl; by rewrite Hs).
    apply (stake_inv_change A0 A' del v x); [by apply H0| |left; by rewrite E0|done].
    intros v'. unfold total_of. rewrite Et. simpl. case_decide as Hn; subst.
    + by rewrite !lookup_insert_eq.
    + rewrite !lookup_insert_ne by done. lia.
  - assert (factor_of A v = BasisPointsScale) as E1.
    { unfold factor_of. by rewrite (vi_factor _ _ HV v Hv). }
    apply (recounted_votes v 0 x A0); [|by apply H0].
    split; [apply lookup_insert_eq|by left|]. change (factor_of A0 v) with (factor_of A v).
    rewrite !E1, votes_zero_stake, Z.add_0_l.
    simpl. rewrite Z.sub_0_r. auto.
Qed.
Lemma awp_registerValidatorWithoutChecks ctx b args A :
  awp (registerValidatorWithoutChecks cfg ctx b args) (λ _, keeps A) (λ _ A', A' = A) A.
Proof.
  unfold registerValidatorWithoutChecks, delegate_update_values. awp_run; try done.
  - match goal with H : _ → is_u64 0 → _ |- _ => rename H into Hk end.
    eapply registered_keeps; simpl; try done. intros Hr Hp. simpl in Hk.
    rewrite Z.sub_0_r in Hk. by apply Hk.
  - by apply created_keeps.
Qed.
Lemma awp_registerValidator `{Keccak} `{EcrecoverFn} ctx b args A :
  awp (registerValidator cfg ctx b args) (λ _, keeps A) (λ _ A', A' = A) A.
Proof.
  unfold registerValidator. apply awp_bind, awp_ro; [apply read_only_outcome|intros _|done].
  apply awp_bind, awp_fail_if; [done|intros _]. apply awp_registerValidatorWithoutChecks.
Qed.
Lemma awp_claimAllRewards ctx b A :
  awp (claimAllRewards cfg ctx b) (λ _ A', A' = A) (λ _ A', A' = A) A.
Proof.
  unfold claimAllRewards. apply awp_bind, awp_quiet; [auto with effects|]. intros l.
  apply (awp_for_each (λ A', A' = A)); [done|]. intros v A' _ -> w Hw.
  pose proof (awp_claimRewards ctx b v A w Hw) as Hc. unfold wp, wrap_error in *.
  by destruct (claimRewards cfg ctx b v w) as [[] ?].
Qed.

(** ** The consensus operations *)
(** A validator's factor changes and its votes are recounted. *)
Lemma refactored_keeps v s f A A' :
  a_total A !! v = Some s → a_total A' = a_total A → a_stake A' = a_stake A →
  a_factor A' = <[v := f]> (a_factor A) → a_amount A' = a_amount A → a_ready A' = a_ready A →
  (is_u64 (a_votes A) → is_u64 (votes cfg s (factor_of A v)) →
   votes cfg s (factor_of A v) <= a_votes A →
   a_votes A' = a_votes A - votes cfg s (factor_of A v) + votes cfg s f ∧ is_u64 (a_votes A')) →
  keeps A A'.
Proof.
  intros Hv Et Es Ef Ea Er Hk.
  assert (∀ v', total_of A' v' = total_of A v') as Ht by (intros; unfold total_of; by rewrite Et).
  split; [intros [HT HA]|intros HV|done].
  - split; [|by rewrite Ea, Es]. intros v'. by rewrite Ht, Es.
  - pose proof (vote_inv_le cfg A v HV) as Hle.
    assert (total_of A v = s) as E1 by (unfold total_of; by rewrite Hv).
    assert (factor_of A' v = f) as E2 by (unfold factor_of; by rewrite Ef, lookup_insert_eq).
    rewrite E1 in Hle. destruct Hk as [H1 H2]; [apply HV|apply votes_range|done|].
    apply (vote_inv_change cfg A A' v HV); [| |by rewrite Ht, E1, E2|done].
    + intros v' Hn. by rewrite Et, Ef, lookup_insert_ne.
    + by rewrite Et, Hv.
Qed.
Ltac refactored_done :=
  eapply refactored_keeps; simpl; try done;
  match goal with H : _ = a_total _ !! _ |- _ => simpl in H; by rewrite <-H | _ => idtac end.

Lemma awp_recover b v x A :
  a_total A !! v = Some (TotalStake x) → awp (recover cfg b v x) (λ _, keeps A) (λ _ _, False) A.
Proof. intros Hx. unfold recover. awp_run; [|done]. refactored_done. Qed.
Lemma awp_penalize b l v A :
  awp (penalize cfg b l v) (λ _, keeps A) (λ _ _, False) A.
Proof. unfold penalize. awp_run; try done; refactored_done. Qed.
Lemma awp_reward_validator b s dag vr m e A :
  awp (reward_validator cfg b s dag vr m e) (λ _, keeps A) (λ _ _, False) A.
Proof.
  destruct e as [v st]. unfold reward_validator. apply awp_bind, awp_GetValidator.
  intros [x|] Hx; [|by apply awp_ret]. simpl in Hx. apply awp_bind.
  apply awp_mono with (Q := λ _, keeps A) (E := λ _ _, False); [| |done].
  - apply awp_when; intros _; [|done]. by apply awp_recover.
  - intros [] A' HA. awp_run; try done.
Qed.
Lemma awp_get_fields (Q : Fields → Acct → Prop) E A :
  (∀ f, eligible_vote_count f = a_votes A → Q f A) → awp get_fields Q E A.
Proof. intros HQ w <-. by apply HQ. Qed.
Lemma awp_set_votes n (Q : unit → Acct → Prop) E A :
  Q tt (with_votes n A) → awp (modify_fields (set_eligible_vote_count n)) Q E A.
Proof. by intros HQ w <-. Qed.
(** The votes left to a validator are taken away, unless there are fewer than that. *)
Lemma awp_zero_voting_power v x A :
  a_total A !! v = Some (TotalStake x) →
  awp (zero_voting_power cfg v x (factor_of A v))
    (λ _ A', keeps A A' ∧ factor_of A' v = 0 ∧ a_total A' = a_total A ∧ a_stake A' = a_stake A)
    (λ _ _, False) A.
Proof.
  intros Hx. unfold zero_voting_power. set (n := votes cfg (TotalStake x) (factor_of A v)).
  apply awp_bind, awp_votes, awp_bind, awp_get_fields. intros f Hf.
  set (k := if (0 <? n) && (n <=? a_votes A) then a_votes A - n else a_votes A).
  assert (∀ (m : M (World DState) unit) (Q : unit → Acct → Prop), awp m Q (λ _ _, False) (with_votes k A) →
    awp (when ((0 <? n) && (n <=? eligible_vote_count f))
      (modify_fields (set_eligible_vote_count (eligible_vote_count f - n))) ≫= λ _, m) Q
      (λ _ _, False) A) as Hk.
  { intros m Q Hm. apply awp_bind, awp_when; intros Hb; subst k; rewrite Hf in *; rewrite Hb in Hm.
    - by apply awp_set_votes.
    - by replace A with (with_votes (a_votes A) A) by by destruct A. }
  apply Hk. awp_run. split_and!; [|unfold factor_of; simpl; by rewrite lookup_insert_eq|done..].
  eapply refactored_keeps; simpl; try done. fold n. rewrite votes_zero_factor. intros Hr Hn Hle.
  subst k. unfold is_u64 in *. destruct (Z.ltb_spec 0 n), (Z.leb_spec n (a_votes A)); simpl; lia.
Qed.
(** What an eviction does: the stakes stay in agreement, and so do the votes of a validator
    without voting power. *)
Record evicts v A A' : Prop := {
  ev_stake : stake_inv A → stake_inv A';
  ev_votes : factor_of A v = 0 → vote_inv cfg A → vote_inv cfg A';
  ev_factor : factor_of A' v = factor_of A v;
  ev_ready : a_ready A' = a_ready A
}.
#[export] Instance evicts_refl v : Reflexive (evicts v).
Proof. by split. Qed.
#[export] Instance evicts_trans v : Transitive (evicts v).
Proof. intros A1 A2 A3 [] []. split; [tauto| |congruence..].
  intros Hf HV. match goal with H : factor_of A2 v = 0 → _ |- _ => apply H end; [congruence|auto].
Qed.
Lemma awp_undelegateInternal b v d x A :
  a_stake A !! (d, v) = Some x →
  awp (undelegateInternal b v d x) (λ _, evicts v A) (λ _ A', A' = A) A.
Proof.
  intros Hx. unfold undelegateInternal. awp_run; try done. acct_simpl.
  match goal with H : Some _ = a_stake _ !! _ |- _ => clear H end.
  assert (stake_of A d v = x) as Es by (unfold stake_of; by rewrite Hx).
  split; simpl; [intros HA|intros Hf HV|done|done].
  - eapply (stake_inv_change A _ d v (- x)); [done| |right; split; [done|lia]|done].
    intros v'. unfold total_of. simpl. case_decide; subst.
    + rewrite lookup_insert_eq. by rewrite H.
    + rewrite lookup_insert_ne by done. lia.
  - eapply (recounted_votes v _ (- x) A); [|done]. split; [done|by left|].
    simpl. rewrite Hf, !votes_zero_factor. intros. split; [lia|done].
Qed.
Lemma awp_evict_delegator b v n d A :
  awp (evict_delegator b v n d) (λ _, evicts v A) (λ _ _, False) A.
Proof.
  unfold evict_delegator. apply awp_bind, awp_GetDelegation. intros [x|] Hx; [|by apply awp_ret].
  apply awp_bind. simpl in Hx. symmetry in Hx.
  intros w Hw. pose proof (awp_undelegateInternal b v d (Stake x) A Hx w Hw) as Hu.
  unfold wp, ignore_error in *.
  destruct (undelegateInternal b v d (Stake x) w) as [[] w']; [|simpl in Hu; subst A|done];
    apply awp_ret; [done|by rewrite Hu].
Qed.

(** Stakes alone: what a block's distribution keeps whatever it evicts. *)
Record keeps_stakes A A' : Prop := {
  ks_stake : stake_inv A → stake_inv A';
  ks_ready : a_ready A' = a_ready A
}.
#[export] Instance keeps_stakes_refl : Reflexive keeps_stakes.
Proof. by split. Qed.
#[export] Instance keeps_stakes_trans : Transitive keeps_stakes.
Proof. intros A1 A2 A3 [] []. split; [tauto|congruence]. Qed.
Lemma keeps_weaken A A' : keeps A A' → keeps_stakes A A'.
Proof. intros []. by split. Qed.
Lemma evicts_weaken v A A' : evicts v A A' → keeps_stakes A A'.
Proof. intros []. by split. Qed.
(** Whatever [m] does is in [R], a preorder on the accountings. *)
Definition kept (R : relation Acct) {T} (m : M (World DState) T) : Prop :=
  ∀ A, awp m (λ _, R A) (λ _, R A) A.
Section kept.
Context (R : relation Acct) `{!PreOrder R}.
Lemma kept_bind {T U} (m : M (World DState) T) (k : T → M (World DState) U) :
  kept R m → (∀ a, kept R (k a)) → kept R (m ≫= k).
Proof.
  intros Hm Hk A. apply awp_bind. eapply awp_mono; [apply Hm| |done]. simpl. intros a A1 H1.
  eapply awp_mono; [apply Hk| |]; intros; by etrans.
Qed.
Lemma kept_ro {T} (m : M (World DState) T) : read_only acct m → kept R m.
Proof. intros Hm A. by apply awp_ro. Qed.
Lemma kept_when b m : kept R m → kept R (when b m).
Proof. intros Hm. destruct b; [done|]. intros A. by apply awp_ret. Qed.
Lemma kept_fold_m {T U} (f : U → T → M (World DState) U) l :
  (∀ b a, kept R (f b a)) → ∀ b, kept R (fold_m f b l).
Proof. intros Hf. induction l; intros b; [by intros A; apply awp_ret|]. by apply kept_bind. Qed.
Lemma kept_for_each {T} (f : T → M (World DState) unit) l :
  (∀ a, kept R (f a)) → kept R (for_each l f).
Proof. intros Hf. induction l; [by intros A; apply awp_ret|]. by apply kept_bind. Qed.
Lemma kept_no_error e (m : M (World DState) unit) : kept R m → kept R (no_error e m).
Proof.
  intros Hm A w Hw. specialize (Hm A w Hw). unfold wp, no_error in *.
  by destruct (m w) as [[] ?].
Qed.
Lemma kept_weaken (R' : relation Acct) {T} (m : M (World DState) T) :
  (∀ A A', R' A A' → R A A') → kept R' m → kept R m.
Proof. intros HR Hm A. eapply awp_mono; [apply Hm|..]; intros; by apply HR. Qed.
End kept.
Lemma kept_total R {T} (m : M (World DState) T) :
  (∀ A, awp m (λ _, R A) (λ _ _, False) A) → kept R m.
Proof. intros Hm A. by eapply awp_mono. Qed.
Lemma kept_pure R `{!Reflexive R} {T} (m : M (World DState) T) :
  (∀ A, awp m (λ _, R A) (λ _ A', A' = A) A) → kept R m.
Proof. intros Hm A. eapply awp_mono; [apply Hm|done|by intros ?? ->]. Qed.
#[export] Instance keeps_preorder : PreOrder keeps.
Proof. split; apply _. Qed.
#[export] Instance keeps_stakes_preorder : PreOrder keeps_stakes.
Proof. split; apply _. Qed.
Lemma stakes_kept {T} (m : M (World DState) T) : kept keeps m → kept keeps_stakes m.
Proof. apply kept_weaken; [apply _|apply keeps_weaken]. Qed.
Abbreviation stakes_only := (kept keeps_stakes).

Lemma stakes_only_setVotingPowerFactor v f : stakes_only (lift (setVotingPowerFactor v f)).
Proof. intros A. apply awp_setVotingPowerFactor. split; [|done]. intros []; by split. Qed.
Lemma stakes_only_set_votes n : stakes_only (modify_fields (set_eligible_vote_count n)).
Proof. intros A. apply awp_set_votes. split; [|done]. intros []; by split. Qed.
Lemma stakes_only_evict_delegator b v n d : stakes_only (evict_delegator b v n d).
Proof using cfg.
  intros A. eapply awp_mono; [apply awp_evict_delegator| |done].
  intros ??. apply evicts_weaken.
Qed.
Lemma kept_penalize b l v : kept keeps (penalize cfg b l v).
Proof. apply kept_total. intros A. apply awp_penalize. Qed.
Lemma kept_reward_validator b s x y m e : kept keeps (reward_validator cfg b s x y m e).
Proof. apply kept_total. intros A. apply awp_reward_validator. Qed.
#[local] Hint Resolve stakes_only_setVotingPowerFactor stakes_only_set_votes
  stakes_only_evict_delegator kept_penalize kept_reward_validator : effects.
#[local] Hint Extern 3 (kept keeps_stakes _) => (apply stakes_kept) : effects.
Ltac kept_step :=
  lazymatch goal with
  | |- kept _ (mbind _ _) => apply kept_bind; [apply _| |intros ?]
  | |- kept _ (when _ _) => apply kept_when; [apply _|]
  | |- kept _ (fold_m _ _ _) => apply kept_fold_m; [apply _|intros ? ?]
  | |- kept _ (for_each _ _) => apply kept_for_each; [apply _|intros ?]
  | |- kept _ (no_error _ _) => apply kept_no_error; [apply _|]
  | |- kept _ (if ?b then _ else _) => destruct b
  | |- kept _ (match ?x with _ => _ end) => destruct x
  | |- kept _ (let '_ := ?x in _) => destruct x
  | |- _ => first [solve [eauto 3 with effects]
                  |apply kept_ro; [apply _|solve [eauto 3 with effects]]]
  end.
Ltac kept_solve := intros; repeat (cbv beta zeta; kept_step).

Lemma stakes_only_zero_voting_power v x f : stakes_only (zero_voting_power cfg v x f).
Proof. unfold zero_voting_power. kept_solve. Qed.
#[local] Hint Resolve stakes_only_zero_voting_power : effects.
Lemma stakes_only_forceEvictValidator v b n : stakes_only (forceEvictValidator cfg v b n).
Proof. unfold forceEvictValidator. kept_solve. Qed.
#[local] Hint Resolve stakes_only_forceEvictValidator : effects.
Lemma stakes_only_ForEachValidator {T} fuel n (cb : T → address → M (World DState) T) a :
  (∀ a v, stakes_only (cb a v)) → stakes_only (ForEachValidator fuel n cb a).
Proof. intros Hcb. revert n a. induction fuel; intros n a; simpl; kept_solve. Qed.
Lemma stakes_only_applyInactivityPenalties fuel b :
  stakes_only (applyInactivityPenalties cfg fuel b).
Proof.
  unfold applyInactivityPenalties.
  apply kept_bind; [apply _|apply stakes_only_ForEachValidator|intros n].
  { unfold resume_eviction. kept_solve. }
  apply kept_bind; [apply _|apply stakes_only_ForEachValidator; kept_solve|intros l].
  unfold start_eviction. kept_solve.
Qed.
#[local] Hint Extern 1 (read_only acct (modify_fields _)) => (intros ?; reflexivity) : effects.
#[local] Hint Resolve stakes_only_applyInactivityPenalties : effects.
Lemma ro_processBlockReward b : read_only acct (processBlockReward cfg b : M (World DState) Z).
Proof. unfold processBlockReward. ro_solve. Qed.
Lemma ro_EndBlockCall : read_only acct (EndBlockCall : M (World DState) unit).
Proof. unfold EndBlockCall. ro_solve. Qed.
#[local] Hint Resolve ro_processBlockReward ro_EndBlockCall : effects.
Lemma kept_delegate ctx b v : kept keeps (delegate cfg ctx b v).
Proof.
  apply kept_pure; [apply _|]. intros A. eapply awp_mono; [apply awp_delegate| |done].
  intros ??. apply moved_keeps.
Qed.
Lemma kept_registerValidatorWithoutChecks ctx b a :
  kept keeps (registerValidatorWithoutChecks cfg ctx b a).
Proof. apply kept_pure; [apply _|]. intros A. apply awp_registerValidatorWithoutChecks. Qed.
#[local] Hint Resolve kept_delegate kept_registerValidatorWithoutChecks : effects.
Lemma kept_apply_genesis_entry g : kept keeps (apply_genesis_entry cfg g).
Proof. unfold apply_genesis_entry. kept_solve. Qed.
#[local] Hint Resolve kept_apply_genesis_entry : effects.
(** From a contract that has been started. *)
Lemma awp_started (R : relation Acct) {T} (k : unit → M (World DState) T) A :
  a_ready A = true → kept R (k tt) →
  awp (lazy_init cfg ≫= k) (λ _, R A) (λ _, R A) A.
Proof. intros Hr Hk. apply awp_bind, awp_lazy_init; [done|]. apply Hk. Qed.
Lemma awp_ApplyGenesis A :
  a_ready A = true → awp (ApplyGenesis cfg) (λ _, keeps A) (λ _, keeps A) A.
Proof. intros Hr. unfold ApplyGenesis. apply awp_started; [done|]. kept_solve. Qed.
Lemma awp_DistributeRewards fuel b s A :
  a_ready A = true →
  awp (DistributeRewards cfg fuel b s) (λ _, keeps_stakes A) (λ _, keeps_stakes A) A.
Proof.
  intros Hr. unfold DistributeRewards. apply awp_started; [done|].
  unfold reward_author, epoch_boundary. kept_solve.
Qed.
(** A block inside an epoch evicts nobody. *)
Definition epoch_block (b : Z) : bool := (9999 <? b) && (b mod InactivityEpochBlocks =? 0).
Lemma kept_epoch_boundary fuel b : epoch_block b = false → kept keeps (epoch_boundary cfg fuel b).
Proof.
  intros Hb. unfold epoch_boundary. change (_ && _) with (epoch_block b). rewrite Hb.
  intros A. by apply awp_ret.
Qed.
#[local] Hint Resolve kept_epoch_boundary : effects.
Lemma awp_DistributeRewards_inside fuel b s A :
  a_ready A = true → epoch_block b = false →
  awp (DistributeRewards cfg fuel b s) (λ _, keeps A) (λ _, keeps A) A.
Proof.
  intros Hr Hb. unfold DistributeRewards. apply awp_started; [done|].
  unfold reward_author. kept_solve.
Qed.

(** ** Calls *)
Context (delayed : Delayed DState) (fuel : nat) `{Keccak} `{EcrecoverFn}.
Lemma ro_ask {T} (m : M DState T) : read_only acct (ask delayed m).
Proof. done. Qed.
Lemma ro_basic_info a v : read_only dacct (basic_info a v).
Proof. unfold basic_info. ro_solve. Qed.
#[local] Hint Resolve ro_ask ro_basic_info : effects.
Lemma ro_require_store {T} (o : option T) e : read_only dacct (require o e).
Proof. by destruct o. Qed.
#[local] Hint Resolve ro_require_store : effects.
Lemma ro_validators_for o k n l a : read_only dacct (validators_for o k n l a).
Proof. revert n l. induction a; intros n l; simpl; unfold to_validator_data; ro_solve. Qed.
Lemma ro_undelegations_loop n d i k l : read_only dacct (undelegations_loop n d i k l).
Proof.
  revert i k l. induction n; intros i k l; simpl; unfold getUndelegation; ro_solve.
Qed.
Lemma ro_storage_reads_loop x d n i k r p : read_only dacct (storage_reads_loop x d n i k r p).
Proof. revert i k r p. induction x; intros i k r p; simpl; ro_solve. Qed.
#[local] Hint Resolve ro_validators_for ro_undelegations_loop ro_storage_reads_loop : effects.
Lemma ro_method_gas ctx m : read_only acct (method_gas fuel ctx m).
Proof.
  destruct m; simpl; unfold getUndelegationsStorageReadsCount; ro_solve; apply ro_lift; ro_solve.
Qed.
Lemma ro_getValidator v : read_only dacct (getValidator v).
Proof. unfold getValidator. ro_solve. Qed.
Lemma ro_getValidators n : read_only dacct (getValidators n).
Proof. unfold getValidators, to_validator_data. ro_solve. Qed.
Lemma ro_getValidatorsFor o n : read_only dacct (getValidatorsFor o n).
Proof. unfold getValidatorsFor. ro_solve. Qed.
Lemma ro_getTotalDelegation d : read_only dacct (getTotalDelegation d).
Proof. unfold getTotalDelegation. ro_solve. Qed.
Lemma ro_getDelegations d n : read_only dacct (getDelegations cfg d n).
Proof. unfold getDelegations, delegation_data. ro_solve. Qed.
Lemma ro_getUndelegations d n : read_only dacct (getUndelegations fuel d n).
Proof. unfold getUndelegations. ro_solve. Qed.
Lemma ro_getUndelegation d v i : read_only dacct (getUndelegation d v i).
Proof. unfold getUndelegation. ro_solve. Qed.
#[local] Hint Resolve ro_getValidator ro_getValidators ro_getValidatorsFor ro_getTotalDelegation
  ro_getDelegations ro_getUndelegations ro_getUndelegation ro_method_gas : effects.

(** A cancellation that fails because the validator is full leaves its changes behind. *)
Definition cancel_failed (m : method) (e : string) : Prop :=
  match m with MCancelUndelegate _ _ => e = ErrValidatorsMaxStakeExceeded | _ => False end.
Lemma awp_unit_ret m (Q : retval → Acct → Prop) E A :
  awp m (λ _, Q RNone) E A → awp (unit_ret m) Q E A.
Proof. intros Hm. apply awp_bind. eapply awp_mono; [done| |done]. intros ?? HQ. by apply awp_ret. Qed.
Lemma awp_dispatch ctx b m A :
  awp (dispatch cfg delayed fuel ctx b m) (λ _, keeps A)
    (λ e A', cancel_failed m e ∨ A' = A) A.
Proof.
  destruct m; simpl; try (apply awp_unit_ret).
  - eapply awp_mono; [apply awp_delegate|intros ??; apply moved_keeps|by right].
  - apply awp_bind. eapply awp_mono; [apply awp_undelegate| |by right].
    intros ?? HM. exact (awp_ret _ (λ _, keeps A) _ _ (moved_keeps _ _ _ _ _ HM)).
  - eapply awp_mono; [apply awp_confirmUndelegate|intros ??; apply dropped_keeps|by right].
  - eapply awp_mono; [apply awp_cancelUndelegate| |by intros ?? [?|?]; [left|right]].
    intros ?? [x HM]. exact (moved_keeps _ _ _ _ _ HM).
  - eapply awp_mono; [apply awp_redelegate|done|by right].
  - eapply awp_mono; [apply awp_claimRewards|by intros ?? ->|by right].
  - eapply awp_mono; [apply awp_claimAllRewards|by intros ?? ->|by right].
  - eapply awp_mono; [apply awp_claimCommissionRewards|intros ??; apply dropped_keeps|by right].
  - eapply awp_mono; [apply awp_setCommission|by intros ?? ->|by right].
  - eapply awp_mono; [apply awp_registerValidator|done|by right].
  - eapply awp_mono; [apply awp_setValidatorInfo|by intros ?? ->|by right].
  - apply awp_ro; [ro_solve|done|by right].
  - apply awp_ro; [ro_solve|done|by right].
  - apply awp_ro; [ro_solve|done|by right].
  - apply awp_ro; [ro_solve|done|by right].
  - apply awp_ro; [ro_solve|done|by right].
  - apply awp_ro; [ro_solve|done|by right].
  - apply awp_ro; [ro_solve|done|by right].
  - apply awp_ro; [ro_solve|done|by right].
  - apply awp_ro; [ro_solve|done|by right].
  - apply awp_ro; [ro_solve|done|by right].
Qed.
Definition run_failed (i : input) (e : string) : Prop :=
  match i with InCall m => cancel_failed m e | _ => False end.
Lemma awp_Run ctx b i A :
  a_ready A = true →
  awp (Run cfg delayed fuel ctx b i) (λ _, keeps A) (λ e A', run_failed i e ∨ A' = A) A.
Proof.
  intros Hr. unfold Run. destruct i; try (apply awp_bind, awp_lazy_init; [done|]).
  - apply awp_ro; [done|done|by right].
  - apply awp_ro; [done|done|by right].
  - by apply awp_ret.
  - apply awp_ro; [ro_solve|done|by right].
  - apply awp_bind, awp_fail_if; [by right|intros _]. apply awp_dispatch.
Qed.
Lemma awp_RequiredGas ctx i g A :
  a_ready A = true → awp (RequiredGas cfg fuel ctx i g) (λ _ A', A' = A) (λ _ A', A' = A) A.
Proof.
  intros Hr. unfold RequiredGas.
  destruct i; try (apply awp_bind, awp_lazy_init; [done|]); apply awp_ro; try done; ro_solve.
Qed.
(** A call, of any kind, by any account, with any gas. *)
Definition call_failed (i : input) (res : call_result) : Prop :=
  match res.2 with Some e => run_failed i e | None => False end.
Lemma awp_evm_call typ caller i bad g v d b A :
  a_ready A = true →
  awp (evm_call cfg delayed fuel typ caller i bad g v d b)
    (λ res A', call_failed i res ∨ keeps A A') (λ _ A', A' = A) A.
Proof.
  intros Hr w Hw. unfold wp, evm_call.
  destruct (CallCreateDepth <? d); [by right; rewrite Hw|].
  destruct (_ && _ && _); [by right; rewrite Hw|].
  set (frame := call_frame typ caller dpos_contract_address v).
  match goal with |- context [?m w] => enough (awp m
    (λ res A', call_failed i res ∨ keeps A A') (λ _ A', A' = A) A) as Hm by (by apply Hm) end.
  apply awp_bind, awp_quiet; [unfold transfer; quiet_solve|]. intros _.
  apply awp_bind. eapply awp_mono; [by apply awp_RequiredGas| |done]. intros need A1 ->.
  unfold run_precompiled. destruct (need <=? g).
  2: { apply awp_bind, awp_quiet; [done|]. intros _. apply awp_ret. by right. }
  intros w1 Hw1. unfold wp. pose proof (awp_Run frame b i A Hr w1 Hw1) as HR. unfold wp in HR.
  destruct (Run cfg delayed fuel frame b i w1) as [[r|e|p] w2]; [by right| |done].
  destruct HR as [HR|HR]; [by left|right].
  change (keeps A (acct w2)). by rewrite HR.
Qed.
End moves.

(** * Histories *)
Section reachable.
Context `{Keccak} `{EcrecoverFn} (cfg : ChainConfig).

(** A chain before its genesis: nothing is stored, some accounts have a balance. *)
Definition blank_world (balances : gmap address Z) : World DState :=
  {| w_store := empty_dstate; w_balances := balances; w_logs := []; w_fields := new_fields |}.
(** The worlds that events allowed by [ok] reach from a genesis.  The delayed state and the
    fuel may differ from one event to the next; a panic stops the node. *)
Inductive reachable (ok : event → event_result → Prop) : World DState → Prop :=
| reachable_genesis balances delayed fuel r w :
    event_step cfg delayed fuel EGenesis (blank_world balances) = (Ret r, w) → reachable ok w
| reachable_step w delayed fuel e r w' :
    reachable ok w → event_step cfg delayed fuel e w = (Ret r, w') → ok e r → reachable ok w'.

(** Not a cancellation that failed because the validator is full. *)
Definition clean (e : event) (r : event_result) : Prop :=
  match e, r with
  | ECall _ _ i _ _ _ _ _, ResCall res => ¬ call_failed i res
  | _, _ => True
  end.
(** Moreover not the distribution of an epoch's last block. *)
Definition clean_inside (e : event) (r : event_result) : Prop :=
  clean e r ∧ match e with EDistribute b _ => epoch_block b = false | _ => True end.

Definition A0 : Acct :=
  {| a_total := ∅; a_stake := ∅; a_factor := ∅; a_votes := 0; a_amount := 0; a_ready := true |}.
Lemma A0_stake_inv : stake_inv A0.
Proof. by split. Qed.
Lemma A0_vote_inv : vote_inv cfg A0.
Proof. by split. Qed.
(** Starting the contract on an empty store, and starting it again. *)
Lemma lazy_init_blank b o w : lazy_init cfg (blank_world b) = (o, w) →
  match o with Ret _ => acct w = A0 ∧ lazy_init cfg w = (Ret tt, w) | Err _ => False | _ => True end.
Proof.
  unfold lazy_init. erewrite bind_run by done. simpl.
  destruct (YieldCurve_Init cfg) as [n|e|p] eqn:E; simpl; intros [= <- <-]; [done| |done].
  unfold YieldCurve_Init in E. by repeat case_match.
Qed.
Lemma genesis_acct b delayed fuel r w :
  event_step cfg delayed fuel EGenesis (blank_world b) = (Ret r, w) →
  stake_inv (acct w) ∧ vote_inv cfg (acct w) ∧ a_ready (acct w) = true.
Proof.
  intros ([] & w1 & E & [= <- <-])%bind_ret_inv. pose proof E as E'.
  apply bind_ret_inv in E' as ([] & w0 & E0 & Ek).
  destruct (lazy_init_blank b _ _ E0) as [HA Hw].
  pose proof (awp_ApplyGenesis cfg A0 eq_refl w0 HA) as Hg. unfold wp, ApplyGenesis in Hg.
  rewrite (bind_run _ _ _ _ _ Hw), Ek in Hg.
  split_and!; [apply Hg, A0_stake_inv|apply Hg, A0_vote_inv|by rewrite (kp_ready _ _ _ Hg)].
Qed.

(** What one event does to a started contract. *)
Lemma event_acct delayed fuel e w r w' :
  a_ready (acct w) = true → event_step cfg delayed fuel e w = (Ret r, w') →
  (clean e r → keeps_stakes (acct w) (acct w')) ∧
  (clean_inside e r → keeps cfg (acct w) (acct w')).
Proof.
  intros Hr. destruct e as [|typ caller i bad g v d b|b s|]; simpl;
    intros (x & w1 & E & [= <- <-])%bind_ret_inv.
  - pose proof (awp_ApplyGenesis cfg _ Hr w eq_refl) as Hg. unfold wp in Hg. rewrite E in Hg.
    split; intros _; [by apply (keeps_weaken cfg)|done].
  - pose proof (awp_evm_call cfg delayed fuel typ caller i bad g v d b _ Hr w eq_refl) as Hg.
    unfold wp in Hg. rewrite E in Hg. split; [intros Hc|intros [Hc _]]; destruct Hg as [?|Hk]; try done.
    by apply (keeps_weaken cfg).
  - pose proof (awp_DistributeRewards cfg fuel b s _ Hr w eq_refl) as Hg. unfold wp in Hg.
    rewrite E in Hg. split; [done|]. intros [_ Hb].
    pose proof (awp_DistributeRewards_inside cfg fuel b s _ Hr Hb w eq_refl) as Hk. unfold wp in Hk.
    by rewrite E in Hk.
  - pose proof (ro_EndBlockCall w) as Hg. rewrite E in Hg. simpl in Hg. rewrite Hg.
    split; intros _; done.
Qed.
Lemma reachable_ready ok w :
  (∀ e r, ok e r → clean e r) → reachable ok w → stake_inv (acct w) ∧ a_ready (acct w) = true.
Proof.
  intros Hok. induction 1 as [b delayed fuel r w E|w delayed fuel e r w' _ [HI Hr] E Hc].
  - by destruct (genesis_acct _ _ _ _ _ E) as (? & ? & ?).
  - destruct (event_acct _ _ _ _ _ _ Hr E) as [[H1 H2] _]; [by apply Hok|].
    split; [auto|congruence].
Qed.

(** C4: In every world reached from a genesis through calls of any kind, reward distributions,
    forced evictions and block ends, cancellations that failed on a full validator apart, the
    total stake of each validator is the sum of the delegations to it and the amount delegated
    is the sum of all delegations. *)
Theorem reachable_stakes_agree w : reachable clean w → stake_inv (acct w).
Proof. intros Hw. by apply (reachable_ready clean). Qed.
(** C3: In every world reached from a genesis through calls, reward distributions and block ends,
    cancellations that failed on a full validator and distributions of an epoch's last block
    apart, the number of eligible votes is the sum over the validators of the votes of their stake
    at their voting-power factor. *)
Theorem reachable_votes_agree w : reachable clean_inside w → vote_inv cfg (acct w).
Proof.
  induction 1 as [b delayed fuel r w E|w delayed fuel e r w' Hw HI E Hc].
  - by destruct (genesis_acct _ _ _ _ _ E) as (? & ? & ?).
  - destruct (reachable_ready clean_inside w) as [_ Hr]; [by intros ?? []|done|].
    destruct (event_acct _ _ _ _ _ _ Hr E) as [_ HK]. by apply HK.
Qed.
End reachable.
