(* ===== verification/DposContract.v ===== *)
(** The DPoS contract on contract storage: its whole life, from genesis on, is that of the
    typed model, over any implementation of the storage; hence what the invariants say of the
    typed state they say of the bytes. *)
From S2P Require Import Prelude Codec Rlp Storage DposData YieldCurve DposStore DposWorld Dpos.
From S2P Require Import DposRewards DposQueries DposRun DposModel DposRefine DposAccounts.
From S2P Require Import DposInvariants.

Section contract.
Context `{KeccakInj} `{EcrecoverFn} {St : Type} `{!KVStore St} (cfg : ChainConfig) (fuel : nat).

(** Delayed states of the contract storage and of the model that show the same. *)
Definition same_delayed (d1 : Delayed St) (d2 : Delayed DState) : Prop :=
  store_rep (dl_store d1) (dl_store d2) ∧ dl_jailed d1 = dl_jailed d2.
Definition blank_bytes (s : St) (balances : gmap address Z) : World St :=
  {| w_store := s; w_balances := balances; w_logs := []; w_fields := new_fields |}.

Lemma history_model d1 d2 l w1 w2 :
  same_delayed d1 d2 → world_rel store_rep w1 w2 →
  (history cfg d2 fuel l w2).1 ≠ Panic oob →
  (history cfg d1 fuel l w1).1 = (history cfg d2 fuel l w2).1 ∧
  world_rel store_rep (history cfg d1 fuel l w1).2 (history cfg d2 fuel l w2).2.
Proof. intros Hd Hw Ho. by apply (history_ref cfg fuel d1 d2 Hd l w1 w2 Hw). Qed.
Lemma blank_rel s b :
  kv_view s = ∅ → world_rel store_rep (blank_bytes s b) (blank_world b).
Proof. intros Hs. split_and!; [|done..]. unfold store_rep. simpl. rewrite Hs. apply dpos_rep_empty. Qed.

(** C2: Every history of calls, reward distributions and block ends of the DPoS contract run on
    contract storage (records in RLP, keys hashed, indexes as iterable maps) gives the results,
    balances, logs and fields that it gives on the typed model, and the storage then encodes the
    model's state, as long as the model's history stays in the range the storage can represent
    ([≠ Panic oob]): fewer than 2^32 entries in an index (less 50 where undelegations are paged),
    amounts below 2^4096, 256-bit sums, 64-bit block numbers and ids, 32-bit page numbers and
    sizes, 20-byte addresses.  Every page number a caller can give is in it: the product of page
    number and page size wraps in both. *)
Theorem contract_refines_model d1 d2 l s balances :
  kv_view s = ∅ → same_delayed d1 d2 →
  (history cfg d2 fuel l (blank_world balances)).1 ≠ Panic oob →
  (history cfg d1 fuel l (blank_bytes s balances)).1 =
    (history cfg d2 fuel l (blank_world balances)).1 ∧
  world_rel store_rep (history cfg d1 fuel l (blank_bytes s balances)).2
    (history cfg d2 fuel l (blank_world balances)).2.
Proof. intros Hs Hd Ho. apply history_model; [done|by apply blank_rel|done]. Qed.

(** The model's run of a history whose results are clean is a reachable world. *)
Lemma history_reachable d l rs w w' :
  reachable cfg clean w → history cfg d fuel l w = (Ret rs, w') → Forall2 clean l rs →
  reachable cfg clean w'.
Proof.
  unfold history. revert w rs. induction l as [|e l IH]; intros w rs Hw; simpl.
  - by intros [= <- <-].
  - intros (r & w1 & E1 & (rs' & w2 & E2 & [= <- <-])%bind_ret_inv)%bind_ret_inv.
    intros [Hc Hl]%Forall2_cons. eapply IH; [|done|done]. by eapply reachable_step.
Qed.
(** C1: The contract storage, bytes as they are written, after the genesis and any history of
    calls, reward distributions and block ends without a cancellation that failed on a full
    validator, encodes a typed state in which each validator's total stake is the sum of the
    delegations to it and the contract's field holds the sum of all delegations.  The history of
    the typed model is asked to stay in the range the storage can represent ([≠ Panic oob]): fewer
    than 2^32 entries in an index (less 50 where undelegations are paged), amounts below 2^4096,
    256-bit sums, 64-bit block numbers and ids, 32-bit page numbers and sizes, 20-byte addresses. *)
Theorem contract_stakes_agree d1 d2 l rs s balances w1 :
  kv_view s = ∅ → same_delayed d1 d2 →
  history cfg d1 fuel (EGenesis :: l) (blank_bytes s balances) = (Ret (ResUnit :: rs), w1) →
  (history cfg d2 fuel (EGenesis :: l) (blank_world balances)).1 ≠ Panic oob →
  Forall2 clean l rs →
  ∃ w2, world_rel store_rep w1 w2 ∧ stake_inv (acct w2).
Proof.
  intros Hs Hd E1 Ho Hc.
  destruct (history_model d1 d2 (EGenesis :: l) _ _ Hd (blank_rel s balances Hs) Ho) as [Er Hw].
  rewrite E1 in Er, Hw. simpl in Hw.
  destruct (history cfg d2 fuel (EGenesis :: l) (blank_world balances)) as [o w2] eqn:E2.
  simpl in Er. subst o. exists w2. split; [done|].
  apply bind_ret_inv in E2 as (r & w0 & E0 & (rs' & w3 & E3 & [= -> -> ->])%bind_ret_inv).
  apply (reachable_ready cfg clean w2); [done|].
  eapply history_reachable; [by eapply reachable_genesis|done|done].
Qed.
End contract.
