(* ===== verification/DposExamples.v ===== *)
(** A small chain on which the properties of the DPoS contract are evaluated, and the places
    where its code does what it does not mean to. *)
From S2P Require Import Prelude Codec Rlp Storage DposData YieldCurve DposStore DposWorld Dpos.
From S2P Require Import DposRewards DposQueries DposRun DposModel DposRefine DposAccounts.
From S2P Require Import DposFunds DposSupply DposErrors DposQueriesFacts DposInvariants DposContract.

(** ** The chain *)
Definition val1 : address := replicate 20 1.
Definition val2 : address := replicate 20 2.
Definition owner : address := replicate 20 10.
Definition alice : address := replicate 20 11.
Definition bob : address := replicate 20 12.
Definition genesis_validator (v : address) (stakes : list (address * Z)) : GenesisValidator := {|
  GV_Address := v; GV_Owner := owner; GV_VrfKey := replicate 32 7; GV_Commission := 1000;
  GV_Endpoint := []; GV_Description := []; GV_Delegations := stakes |}.
Definition chain : ChainConfig := {|
  GenesisBalances := [(alice, 100000); (bob, 100000)];
  DPOS := {|
    EligibilityBalanceThreshold := 1000; VoteEligibilityBalanceStep := 1000;
    ValidatorMaximumStake := 30000; MinimumDeposit := 10; MaxBlockAuthorReward := 10;
    DagProposersReward := 50; CommissionChangeDelta := 500; CommissionChangeFrequency := 5;
    DelegationDelay := 5; DelegationLockingPeriod := 10; BlocksPerYear := 100;
    TrxMinGasPrice := 1000000000; TrxMaxGasLimit := 30000000 |};
  InitialValidators :=
    [genesis_validator val1 [(alice, 5000); (bob, 2000)]; genesis_validator val2 [(bob, 3000)]];
  JailTime := 100; MaxSupply := 12000000000; GeneratedRewards := 0 |}.
Definition balances : gmap address Z := list_to_map (GenesisBalances chain).
#[local] Instance no_ecrecover : EcrecoverFn := λ _ _, Err "no signature".
#[local] Existing Instances id_keccak id_keccak_inj.
Definition nobody : Delayed DState := {| dl_store := empty_dstate; dl_jailed := [] |}.
Definition frame_of (a : address) : caller_ref :=
  {| cr_account := a; cr_parent := {| CallerAccount := a; Account := a; Value := 0 |} |}.
Definition call (a : address) (m : method) (value block : Z) : event :=
  ECall CALL (frame_of a) (InCall m) 0 10000000 value 1 block.
Definition no_stats : RewardsStats := {|
  BlockAuthor := val1;
  ValidatorsStats := [(val1, {| DagBlocksCount := 1; VoteWeight := 2; FeesRewards := Some 5 |})];
  TotalDagBlocksCount := 2; TotalVotesWeight := 3; MaxVotesWeight := 4 |}.
Definition step (e : event) : M (World DState) event_result := event_step chain nobody 5 e.

(** ** Runs of allowed events *)
Definition call_failed_b (i : input) (res : call_result) : bool :=
  match res.2, i with
  | Some e, InCall (MCancelUndelegate _ _) => bool_decide (e = ErrValidatorsMaxStakeExceeded)
  | _, _ => false
  end.
Definition clean_b (inside : bool) (e : event) (r : event_result) : bool :=
  match e, r with
  | ECall _ _ i _ _ _ _ _, ResCall res => negb (call_failed_b i res)
  | EDistribute b _, _ => negb (inside && epoch_block b)
  | _, _ => true
  end.
Lemma clean_b_clean e r : clean_b false e r = true → clean e r.
Proof.
  destruct e as [|typ caller i bad g v d b|b s|], r; simpl; try done.
  unfold call_failed, call_failed_b, run_failed, cancel_failed.
  destruct (r.2); [|by intros _ []]. destruct i as [| | | |[]]; try done; try by intros _ [].
  by intros N%negb_true_iff%bool_decide_eq_false.
Qed.
Lemma clean_b_inside e r : clean_b true e r = true → clean_inside e r.
Proof.
  intros Hc. split.
  - apply clean_b_clean. by destruct e, r.
  - destruct e; try done. simpl in Hc. by apply negb_true_iff in Hc.
Qed.
Fixpoint run (inside : bool) (l : list event) (w : World DState) : option (World DState) :=
  match l with
  | [] => Some w
  | e :: l =>
      match step e w with
      | (Ret r, w') => if clean_b inside e r then run inside l w' else None
      | _ => None
      end
  end.
Lemma run_reachable inside ok l w w' :
  (∀ e r, clean_b inside e r = true → ok e r) → reachable chain ok w → run inside l w = Some w' →
  reachable chain ok w'.
Proof.
  intros Hok. revert w. induction l as [|e l IH]; intros w Hw; simpl; [by intros [= <-]|].
  destruct (step e w) as [[r|?|?] w1] eqn:E; [|done..].
  destruct (clean_b inside e r) eqn:C; [|done]. apply IH. eapply reachable_step; [done..|auto].
Qed.
(** The world after the genesis of [chain] and the events [l]. *)
Definition genesis_world : World DState :=
  (event_step chain nobody 5 EGenesis (blank_world balances)).2.
Definition world_after (inside : bool) (l : list event) : World DState :=
  default genesis_world (run inside l genesis_world).
Lemma pair_of_fst {A B} (p : A * B) a : p.1 = a → p = (a, p.2).
Proof. destruct p. by intros [= ->]. Qed.
Lemma genesis_returns :
  (event_step chain nobody 5 EGenesis (blank_world balances)).1 = Ret ResUnit.
Proof. vm_compute. reflexivity. Qed.
Lemma genesis_reachable ok : reachable chain ok genesis_world.
Proof.
  exact (reachable_genesis chain ok balances nobody 5 ResUnit _ (pair_of_fst _ _ genesis_returns)).
Qed.
Lemma world_after_reachable inside ok l :
  (∀ e r, clean_b inside e r = true → ok e r) → reachable chain ok (world_after inside l).
Proof.
  intros Hok. unfold world_after. destruct (run inside l genesis_world) eqn:E; simpl.
  - eapply run_reachable; [done|apply genesis_reachable|done].
  - apply genesis_reachable.
Qed.

(** ** A history: delegations, a distribution, undelegation, redelegation, cancellation *)
Definition story : list event :=
  [ call alice (MDelegate val2) 4000 3;
    EDistribute 3 no_stats; EEndBlock;
    call bob (MUndelegate val1 500) 0 4;
    call alice (MReDelegate val1 val2 1000) 0 5;
    call bob (MCancelUndelegate val1 1) 0 6 ].
Lemma reachable_stakes_agree_witness :
  reachable chain clean (world_after false story) ∧
  stake_inv (acct (world_after false story)) ∧ a_amount (acct (world_after false story)) = 14000.
Proof.
  assert (reachable chain clean (world_after false story)) as Hr.
  { apply world_after_reachable, clean_b_clean. }
  split; [exact Hr|]. split; [exact (reachable_stakes_agree chain _ Hr)|by vm_compute].
Defined.
Lemma reachable_votes_agree_witness :
  reachable chain clean_inside (world_after true story) ∧
  vote_inv chain (acct (world_after true story)) ∧ a_votes (acct (world_after true story)) = 14.
Proof.
  assert (reachable chain clean_inside (world_after true story)) as Hr.
  { apply world_after_reachable, clean_b_inside. }
  split; [exact Hr|]. split; [exact (reachable_votes_agree chain _ Hr)|by vm_compute].
Defined.

(** The same history on contract storage behind the caching wrapper. *)
Definition empty_wrapper : StorageWrapper := {| cache := ∅; dirty := ∅; db := ∅ |}.
Definition nobody_bytes : Delayed StorageWrapper := {| dl_store := empty_wrapper; dl_jailed := [] |}.
Lemma empty_wrapper_view : kv_view empty_wrapper = ∅.
Proof. reflexivity. Qed.
Lemma nobody_related : same_delayed nobody_bytes nobody.
Proof. split; [apply dpos_rep_empty|done]. Qed.
Definition story_results : list event_result :=
  [ ResCall (RNone, 9960000, None); ResMinted 5; ResUnit; ResCall (RId 1, 9940000, None);
    ResCall (RNone, 9920000, None); ResCall (RNone, 9940000, None) ].
Abbreviation story_model := (history chain nobody 5 (EGenesis :: story) (blank_world balances)).
Abbreviation story_bytes :=
  (history chain nobody_bytes 5 (EGenesis :: story) (blank_bytes empty_wrapper balances)).
Lemma story_in_range : story_model.1 ≠ Panic oob.
Proof. vm_compute. discriminate. Qed.
Lemma story_bytes_results : story_bytes.1 = Ret (ResUnit :: story_results).
Proof. vm_compute. reflexivity. Qed.
Lemma contract_refines_model_witness :
  story_bytes.1 = Ret (ResUnit :: story_results) ∧ world_rel store_rep story_bytes.2 story_model.2.
Proof.
  split; [exact story_bytes_results|].
  exact (proj2 (contract_refines_model chain 5 nobody_bytes nobody (EGenesis :: story) empty_wrapper
    balances empty_wrapper_view nobody_related story_in_range)).
Defined.
Lemma story_clean : Forall2 clean story story_results.
Proof. repeat constructor; by intros []. Qed.
Lemma contract_stakes_agree_witness :
  ∃ w2, world_rel store_rep story_bytes.2 w2 ∧ stake_inv (acct w2).
Proof.
  exact (contract_stakes_agree chain 5 nobody_bytes nobody story story_results empty_wrapper
    balances story_bytes.2 empty_wrapper_view nobody_related
    (pair_of_fst _ _ story_bytes_results) story_in_range story_clean).
Defined.

(** ** Funds, supply and rewards on the chain *)
Lemma chain_rewards : reward_config chain.
Proof. split; simpl; lia. Qed.
Lemma no_stats_ok : stats_ok no_stats.
Proof. split; try done; simpl; try lia. by repeat constructor. Qed.
Lemma genesis_distribution : (DistributeRewards chain 5 3 no_stats genesis_world).1 = Ret 3.
Proof. vm_compute. reflexivity. Qed.
Lemma genesis_started : lazy_init_done (w_fields genesis_world) = true.
Proof. vm_compute. reflexivity. Qed.
Lemma genesis_supply : current_supply chain (w_fields genesis_world) = Ret 200000.
Proof. vm_compute. reflexivity. Qed.
Abbreviation rewarded_world := (DistributeRewards chain 5 3 no_stats genesis_world).2.
Lemma distribution_creates_minted_witness :
  ∃ fees, 0 <= fees <= 5 ∧ funds rewarded_world = funds genesis_world + 3 + fees.
Proof.
  exact (distribution_creates_minted chain 5 3 no_stats genesis_world 3 _
    (pair_of_fst _ _ genesis_distribution)).
Defined.
Lemma supply_cap_witness :
  supply_of rewarded_world = Some 200003 ∧ (3 = 0 ∨ 200003 <= 12000000000).
Proof.
  assert (0 <= 200000 < 2 ^ 250) as Hs by (split; [done|reflexivity]).
  exact (proj2 (supply_cap chain 5 3 no_stats genesis_world 200000 3 _ chain_rewards no_stats_ok
    genesis_started genesis_supply Hs (pair_of_fst _ _ genesis_distribution))).
Defined.
Lemma delegator_rewards_within_pool_witness :
  delegator_rewards chain 428 [5000; 2000] = 99 ∧ 99 <= 100 ∧ 100 - 2 <= 99.
Proof.
  assert (Forall (λ x, 0 <= x) [5000; 2000]) as HF by (repeat constructor; lia).
  assert (0 < 7000 <= 30000) as Hs by lia.
  assert (total_stake [5000; 2000] <= 7000) as Ht by (by vm_compute).
  destruct (delegator_rewards_within_pool chain 100 7000 [5000; 2000] 428 ltac:(lia) Hs HF Ht
    eq_refl) as [H1 H2].
  split; [by vm_compute|]. split; [exact H1|exact (H2 eq_refl)].
Defined.

(** A delegation below the minimal deposit. *)
Abbreviation small_delegation :=
  (evm_call chain nobody 5 CALL (frame_of alice) (InCall (MDelegate val2)) 0 10000000 1 1 3
     genesis_world).
Lemma small_delegation_fails :
  small_delegation.1 = Ret (RNone, 9960000, Some ErrInsufficientDelegation).
Proof. vm_compute. reflexivity. Qed.
Lemma failed_call_changes_nothing_witness : small_delegation.2 = genesis_world.
Proof.
  destruct (failed_call_changes_nothing chain nobody 5 CALL (frame_of alice) (InCall (MDelegate val2))
    0 10000000 1 1 3 genesis_world _ _ _ _ eq_refl (pair_of_fst _ _ small_delegation_fails))
    as [E|[E _]]; [exact E|].
  pose proof genesis_started as Hs. rewrite E in Hs. discriminate.
Defined.
Lemma ForEachValidator_is_fold_witness :
  (ForEachValidator 1 0 (λ l v, mret (l ++ [v])) [] genesis_world).1 = Ret [val1; val2].
Proof.
  rewrite (ForEachValidator_is_fold (λ l v, mret (l ++ [v])) 1 [] genesis_world);
    [by vm_compute|done|by vm_compute..].
Defined.

(** * Where the contract does not do what it means to *)
(** ** Cancelling an undelegation from a full validator *)
(** Alice undelegates, Bob fills the validator, Alice cancels. *)
Definition full_story : list event :=
  [ call alice (MUndelegate val1 5000) 0 4; call bob (MDelegate val1) 25000 5 ].
Definition cancel : event := call alice (MCancelUndelegate val1 1) 0 9.
(** The call returns the error after the undelegation was removed and the delegation created;
    the contract storage is not reverted, and the validator's total stake no longer is the sum
    of the delegations to it. *)
Theorem cancel_on_full_validator :
  let w := world_after false full_story in
  reachable chain clean w ∧
  ∃ gas, (step cancel w).1 = Ret (ResCall (RNone, gas, Some ErrValidatorsMaxStakeExceeded)) ∧
    total_of (acct (step cancel w).2) val1 = 27000 ∧
    sum_map (to_validator val1) (a_stake (acct (step cancel w).2)) = 32000 ∧
    ¬ stake_inv (acct (step cancel w).2).
Proof.
  split; [apply world_after_reachable, clean_b_clean|]. exists 9940000.
  assert (total_of (acct (step cancel (world_after false full_story)).2) val1 = 27000) as E1.
  { by vm_compute. }
  assert (sum_map (to_validator val1)
    (a_stake (acct (step cancel (world_after false full_story)).2)) = 32000) as E2.
  { by vm_compute. }
  split_and!; [by vm_compute|exact E1|exact E2|]. intros [H _]. specialize (H val1). lia.
Qed.

(** ** Redelegating all of a drained validator's stake *)
(** Bob undelegates a part and redelegates the rest away while the undelegation is pending. *)
Definition drained_story : list event :=
  [ call bob (MUndelegate val2 500) 0 4; call bob (MReDelegate val2 val1 2500) 0 6 ].
(** The validator stays but its reward state of the current block is never stored: the next
    delegation to it panics, whoever sends it. *)
Theorem redelegate_loses_state :
  let w := world_after false drained_story in
  reachable chain clean w ∧ is_Some (a_total (acct w) !! val2) ∧
  (step (call alice (MDelegate val2) 4000 8) w).1 =
    Panic "state_get_and_decrement - unable to fetch undelegation data".
Proof.
  split_and!; [apply world_after_reachable, clean_b_clean|by exists 0; vm_compute|by vm_compute].
Qed.

(** ** Undelegating nothing *)
(** Bob undelegates zero, then everything, and cancels the first undelegation: a delegation
    without stake; when the second one is confirmed the validator is deleted. *)
Definition zero_story : list event :=
  [ call bob (MUndelegate val2 0) 0 4; call bob (MUndelegate val2 3000) 0 5;
    call bob (MCancelUndelegate val2 1) 0 6; call bob (MConfirmUndelegate val2 2) 0 20 ].
(** The delegation refers to a validator that is gone, and listing Bob's delegations panics. *)
Theorem zero_undelegation_dangles :
  let w := world_after false zero_story in
  reachable chain clean w ∧ a_stake (acct w) !! (bob, val2) = Some 0 ∧
  a_total (acct w) !! val2 = None ∧
  (step (call alice (MGetDelegations bob 0) 0 30) w).1 =
    Panic "getDelegations - unable to fetch delegation data".
Proof.
  split_and!; [apply world_after_reachable, clean_b_clean|by vm_compute..].
Qed.

(** ** Delegating calls *)
(** A contract (here at Bob's address) that Alice called with some value forwards the call to
    the DPoS contract with DELEGATECALL. *)
Definition forwarded : event :=
  ECall DELEGATECALL {| cr_account := bob;
                        cr_parent := {| CallerAccount := alice; Account := bob; Value := 4000 |} |}
    (InCall (MDelegate val2)) 0 10000000 0 2 7.
(** The value of the caller's own frame becomes a delegation of its caller, but no balance
    changes: more is delegated than the contract owns. *)
Theorem delegatecall_stakes_without_value :
  (step forwarded genesis_world).1 = Ret (ResCall (RNone, 9960000, None)) ∧
  w_balances (step forwarded genesis_world).2 = w_balances genesis_world ∧
  default 0 (w_balances (step forwarded genesis_world).2 !! dpos_contract_address) = 10000 ∧
  a_amount (acct genesis_world) = 10000 ∧
  a_amount (acct (step forwarded genesis_world).2) = 14000 ∧
  a_stake (acct (step forwarded genesis_world).2) !! (alice, val2) = Some 4000.
Proof. split_and!; by vm_compute. Qed.
