(* ===== verification/Slashing.v ===== *)
(** The slashing contract ([slashing/precompiled/slashing_contract.go], [reader.go],
    [logs.go]): double voting proofs, jailing, the list of jailed validators and its clean-up
    at the end of a block.  The contract's storage is the caching wrapper of [Storage.v]; a
    reader is the committed storage of an earlier block.  ABI decoding and [Ecrecover] are
    third-party code. *)
From S2P Require Import Prelude Codec Rlp Storage IterableMap DposData Dpos.

Definition slashing_contract_address : address := replicate 19 0 ++ [0xEE].

(** * Constants and errors *)
Definition CommitDoubleVotingProofGas : Z := 20000.
Definition getJailBlockGas : Z := 5000.
Definition DefaultSlashingMethodGas : Z := 5000.

Definition ErrInvalidVoteSignature : string := "Invalid vote signature".
Definition ErrInvalidVotesValidator : string := "Votes validators differ".
Definition ErrNotAValidator : string := "Votes validators is not a validator".
Definition ErrInvalidVotesPeriodRoundStep : string := "Votes period/round/step differ".
Definition ErrInvalidVotesBlockHash : string := "Invalid votes block hash".
Definition ErrIdenticalVotes : string := "Votes are identical".
Definition ErrExistingDoubleVotingProof : string := "Existing double voting proof".

Definition field_validators_jail_block : bytes := [0].
Definition field_double_voting_proofs : bytes := [1].
Definition field_jailed_validators : bytes := [2].

(** * Votes *)
Abbreviation hash := (list Z).
Definition ZeroHash : hash := replicate 32 0.
(** [common.BytesToHash]: the last 32 bytes, padded on the left. *)
Definition BytesToHash (b : bytes) : hash :=
  let b := drop (length b - 32) b in replicate (32 - length b) 0 ++ b.

Record VrfPbftSortition : Type := { Period : Z; Round : Z; Step : Z; VrfProof : bytes }.
Record Vote : Type := {
  BlockHash : hash;
  VrfSortitionBytes : bytes;
  VrfSortition : VrfPbftSortition;
  Signature : bytes
}.

Definition decode_sortition : Stream VrfPbftSortition :=
  decodeStruct (
    p ← Stream_uint 64; r ← Stream_uint 32; s ← Stream_uint 32; proof ← decodeByteArray 80;
    mret {| Period := p; Round := r; Step := s; VrfProof := proof |}).
(** The fields of a vote that are encoded; [VrfSortition] is not one of them. *)
Definition decode_vote : Stream (hash * bytes * bytes) :=
  decodeStruct (
    h ← decodeByteArray 32; v ← Stream_Bytes; sig ← decodeByteArray 65; mret (h, v, sig)).

Definition NewVote (vote_rlp : bytes) : outcome Vote :=
  match MustDecodeBytes decode_vote vote_rlp with
  | Ret (h, v, sig) =>
      match MustDecodeBytes decode_sortition v with
      | Ret s => Ret {| BlockHash := h; VrfSortitionBytes := v; VrfSortition := s; Signature := sig |}
      | Err e => Err e
      | Panic p => Panic p
      end
  | Err e => Err e
  | Panic p => Panic p
  end.

(** [bytes.Compare] *)
Fixpoint bytes_Compare (a b : bytes) : comparison :=
  match a, b with
  | [], [] => Eq
  | [], _ => Lt
  | _, [] => Gt
  | x :: a, y :: b => match x ?= y with Eq => bytes_Compare a b | c => c end
  end.

(** * The reader *)
(** [r_storage]: the storage of the contract at the block the reader looks at;
    [r_eligible]: the DPoS reader it asks, nil for the reader of the clean-up. *)
Record Reader : Type := {
  r_storage : gmap bytes bytes;
  r_eligible : option (address → outcome bool)
}.
(** [Reader.Init]: the block whose storage is read. *)
Definition reader_block (cfg : ChainConfig) (blk_n : Z) : Z :=
  if DelegationDelay (DPOS cfg) <? blk_n then blk_n - DelegationDelay (DPOS cfg) else 0.

Section contract.
Context `{Keccak} `{EcrecoverFn} (cfg : ChainConfig).

Definition GetHash (vote : Vote) : outcome hash :=
  match MustEncode (enc_struct [Ret (AppendString (BlockHash vote));
                                Ret (AppendString (VrfSortitionBytes vote))]) with
  | Ret b => Ret (keccak b)
  | Err e => Err e
  | Panic p => Panic p
  end.

Definition jail_key (addr : address) : bytes := Stor_k_1 [field_validators_jail_block; addr].
Definition jailed_validators_key : bytes := BytesToHash field_jailed_validators.

(** [getJailBlock] *)
Definition reader_getJailBlock (addr : address) : M (gmap bytes bytes) (bool * Z) :=
  b ← map_get (jail_key addr);
  match b with
  | [] => mret (false, 0)
  | _ => block ← of_outcome (MustDecodeBytes (Stream_uint 64) b); mret (true, block)
  end.
Definition IsJailed (block : Z) (addr : address) : M (gmap bytes bytes) bool :=
  '(jailed, jail_block) ← reader_getJailBlock addr;
  mret (if negb jailed then false else if jail_block <? block then false else true).
Definition decode_addresses : Stream (list address) := decodeListSlice (decodeByteArray 20).
Definition encode_addresses (l : list address) : outcome bytes :=
  MustEncode (Ret (enc_list (concat (map AppendString l)))).
Definition GetJailedValidators : M (gmap bytes bytes) (list address) :=
  b ← map_get jailed_validators_key;
  match b with
  | [] => mret []
  | _ => of_outcome (MustDecodeBytes decode_addresses b)
  end.
Definition reader_IsEligible (r : Reader) (addr : address) : outcome bool :=
  match r_eligible r with None => Ret false | Some f => f addr end.

(** * The contract *)
Definition DOUBLE_VOTING : Z := 1.
Record JailedLog : Type := {
  jl_validator : address; jl_start : Z; jl_end : Z; jl_behaviour : Z
}.
(** [storage] and [nonce] are those of the contract's account. *)
Record Contract : Type := {
  storage : StorageWrapper;
  nonce : Z;
  delayedReader : Reader;
  logs : list JailedLog;
  nextCleanUpBlock : Z
}.
Definition set_storage (x : StorageWrapper) (c : Contract) : Contract := {|
  storage := x; nonce := nonce c; delayedReader := delayedReader c; logs := logs c;
  nextCleanUpBlock := nextCleanUpBlock c |}.

Abbreviation MC := (M Contract).
Definition on_storage {A} (m : M StorageWrapper A) : MC A := λ c,
  let '(o, x) := m (storage c) in (o, set_storage x c).
(** A query of the delayed reader, and one of what the database has committed, which is what
    [GetAccountStorage] of the contract's own storage reads. *)
Definition ask_delayed {A} (m : M (gmap bytes bytes) A) : MC A := λ c,
  ((m (r_storage (delayedReader c))).1, c).
Definition ask_committed {A} (m : M (gmap bytes bytes) A) : MC A := λ c,
  ((m (db (storage c))).1, c).
Definition ask_eligible (addr : address) : MC bool := λ c,
  (reader_IsEligible (delayedReader c) addr, c).
Definition AddLog (l : JailedLog) : MC unit := λ c,
  (Ret tt, {| storage := storage c; nonce := nonce c; delayedReader := delayedReader c;
              logs := logs c ++ [l]; nextCleanUpBlock := nextCleanUpBlock c |}).
Definition set_nextCleanUpBlock (n : Z) : MC unit := λ c,
  (Ret tt, {| storage := storage c; nonce := nonce c; delayedReader := delayedReader c;
              logs := logs c; nextCleanUpBlock := n |}).
Definition storageInitialization : MC unit := λ c,
  (Ret tt, {| storage := storage c; nonce := if nonce c =? 0 then nonce c + 1 else nonce c;
              delayedReader := delayedReader c; logs := logs c;
              nextCleanUpBlock := nextCleanUpBlock c |}).

Definition genDoubleVotingProofDbKey (votea_hash vote_b_hash : hash) : outcome bytes :=
  match bytes_Compare votea_hash vote_b_hash with
  | Lt => Ret (Stor_k_1 [field_double_voting_proofs; votea_hash; vote_b_hash])
  | Gt => Ret (Stor_k_1 [field_double_voting_proofs; vote_b_hash; votea_hash])
  | Eq => Panic "Votes hashes are the same"
  end.
Definition saveDoubleVotingProof (db_key : bytes) : MC unit :=
  on_storage (SW_Put db_key (writeBool true)).
Definition doubleVotingProoExists (db_key : bytes) : MC bool :=
  b ← on_storage (SW_Get db_key); mret (match b with [] => false | _ => true end).

Definition validateVoteSig (vote_hash : hash) (signature : bytes) : outcome address :=
  match Ecrecover vote_hash signature with
  | Ret pubKey => Ret (BytesToAddress (drop 12 (keccak (drop 1 pubKey))))
  | Err e => Err e
  | Panic p => Panic p
  end.

Definition addToJailedValidators (validator : address) : MC unit :=
  jailed_validators ← ask_delayed GetJailedValidators;
  if bool_decide (validator ∈ jailed_validators) then mret tt
  else
    b ← of_outcome (encode_addresses (jailed_validators ++ [validator]));
    on_storage (SW_Put jailed_validators_key b).
Definition jailValidator (current_block : Z) (validator : address) : MC Z :=
  let jail_block := u64 (current_block + JailTime cfg) in
  b ← on_storage (SW_Get (jail_key validator));
  match b with
  | [] => mret tt
  | _ => of_outcome (MustDecodeBytes (Stream_uint 64) b) ;; mret tt
  end ;;
  e ← of_outcome (MustEncode (Ret (AppendUint jail_block)));
  on_storage (SW_Put (jail_key validator) e) ;;
  addToJailedValidators validator ;;
  storageInitialization ;;
  mret jail_block.

(** The checks on the two votes that need no storage, in the order of the code. *)
Definition is_zero_hash (h : hash) : bool := bool_decide (h = ZeroHash).
Definition check_votes (a b : Vote) : MC unit :=
  let sa := VrfSortition a in let sb := VrfSortition b in
  fail_if (negb (Period sa =? Period sb) || negb (Round sa =? Round sb) || negb (Step sa =? Step sb))
    ErrInvalidVotesPeriodRoundStep ;;
  fail_if (bool_decide (BlockHash a = BlockHash b)) ErrInvalidVotesBlockHash ;;
  fail_if ((5 <=? Step sa) && (Step sa mod 2 =? 1) &&
           ((is_zero_hash (BlockHash a) && negb (is_zero_hash (BlockHash b))) ||
            (negb (is_zero_hash (BlockHash a)) && is_zero_hash (BlockHash b))))
    ErrInvalidVotesBlockHash.
(** [validateVoteSig] whose error the caller replaces. *)
Definition vote_validator (h : hash) (v : Vote) : MC address :=
  match validateVoteSig h (Signature v) with
  | Ret a => mret a
  | Err _ => throw ErrInvalidVoteSignature
  | Panic p => go_panic p
  end.

Definition commitDoubleVotingProof (block : Z) (VoteA VoteB : bytes) : MC unit :=
  vote_a ← of_outcome (NewVote VoteA);
  vote_a_hash ← of_outcome (GetHash vote_a);
  vote_b ← of_outcome (NewVote VoteB);
  vote_b_hash ← of_outcome (GetHash vote_b);
  fail_if (bool_decide (vote_a_hash = vote_b_hash)) ErrIdenticalVotes ;;
  proof_db_key ← of_outcome (genDoubleVotingProofDbKey vote_a_hash vote_b_hash);
  exists_ ← doubleVotingProoExists proof_db_key;
  fail_if exists_ ErrExistingDoubleVotingProof ;;
  check_votes vote_a vote_b ;;
  vote_a_validator ← vote_validator vote_a_hash vote_a;
  vote_b_validator ← vote_validator vote_b_hash vote_b;
  fail_if (negb (bool_decide (vote_a_validator = vote_b_validator))) ErrInvalidVotesValidator ;;
  eligible ← ask_eligible vote_a_validator;
  fail_if (negb eligible) ErrNotAValidator ;;
  jail_block ← jailValidator block vote_a_validator;
  saveDoubleVotingProof proof_db_key ;;
  AddLog {| jl_validator := vote_a_validator; jl_start := block; jl_end := jail_block;
            jl_behaviour := DOUBLE_VOTING |}.

Definition getJailBlock (validator : address) : MC Z :=
  '(_, jail_block) ← ask_delayed (reader_getJailBlock validator); mret jail_block.

(** ** The clean-up *)
(** The loop of [CleanupJailedValidators], which compacts the slice it ranges over: [idx] is
    the index it has reached, [i] the number of validators kept, in the first [i] places. *)
Fixpoint cleanup_loop (currentBlock : Z) (rest idx i : nat) (l : list address)
    (min_unjail_block : Z) : M (gmap bytes bytes) (list address * nat * Z) :=
  match rest with
  | O => mret (l, i, min_unjail_block)
  | S rest =>
      validator ← deref (l !! idx);
      '(_, jail_block) ← reader_getJailBlock validator;
      let keep := currentBlock <? jail_block in
      let min_unjail_block :=
        if (min_unjail_block =? 0) || (jail_block <? min_unjail_block) then jail_block
        else min_unjail_block in
      cleanup_loop currentBlock rest (S idx) (if keep then S i else i)
        (if keep then <[i := validator]> l else l) min_unjail_block
  end.
Definition cleanup_list (currentBlock : Z) : MC unit :=
  jailed_validators ← ask_committed GetJailedValidators;
  match jailed_validators with
  | [] => mret tt
  | _ =>
      '(l, i, min_unjail_block) ←
        ask_committed (cleanup_loop currentBlock (length jailed_validators) 0 0 jailed_validators 0);
      when (negb (min_unjail_block =? 0)) (set_nextCleanUpBlock min_unjail_block) ;;
      b ← of_outcome (encode_addresses (take i l));
      on_storage (SW_Put jailed_validators_key b)
  end.
Definition CleanupJailedValidators (currentBlock : Z) : MC unit := λ c,
  if currentBlock <? nextCleanUpBlock c then (Ret tt, c) else cleanup_list currentBlock c.

(** [CommitCall], with the commit of the block's writes before it. *)
Definition set_delayedReader (reader : Reader) : MC unit := λ c,
  (Ret tt, {| storage := storage c; nonce := nonce c; delayedReader := reader; logs := logs c;
              nextCleanUpBlock := nextCleanUpBlock c |}).
Definition CommitCall (reader : Reader) : MC unit :=
  on_storage SW_CommitCall ;; set_delayedReader reader.

(** ** Calls *)
Inductive method : Type :=
| MCommitDoubleVotingProof (VoteA VoteB : bytes)
| MGetJailBlock (validator : address)
| MGetJailedValidators.
(** What [MethodById] and [Unpack] make of the input: no method, a method whose arguments do
    not decode, or a call. *)
Inductive input : Type :=
| InUnknown
| InBadProof
| InBadValidator
| InCall (m : method).
Inductive retval : Type :=
| RNone
| RBlock (n : Z)
| RAddresses (l : list address).

Definition RequiredGas (i : input) : Z :=
  match i with
  | InUnknown => 0
  | InBadProof | InCall (MCommitDoubleVotingProof _ _) => CommitDoubleVotingProofGas
  | InBadValidator | InCall (MGetJailBlock _) => getJailBlockGas
  | InCall MGetJailedValidators => getJailBlockGas
  end.
Definition Run (block : Z) (i : input) : MC retval :=
  match i with
  | InUnknown => throw "no method with this id"
  | InBadProof | InBadValidator => throw "abi: cannot unpack the arguments"
  | InCall (MCommitDoubleVotingProof a b) => commitDoubleVotingProof block a b ;; mret RNone
  | InCall (MGetJailBlock v) => n ← getJailBlock v; mret (RBlock n)
  | InCall MGetJailedValidators => l ← ask_delayed GetJailedValidators; mret (RAddresses l)
  end.

(** [Init]: the contract of a node that has just started. *)
Definition Init (db : gmap bytes bytes) (nonce : Z) (reader : Reader) : Contract := {|
  storage := {| cache := ∅; dirty := ∅; db := db |}; nonce := nonce; delayedReader := reader;
  logs := []; nextCleanUpBlock := 0 |}.
End contract.
