(* ===== verification/SlashingFacts.v ===== *)
(** Facts of the slashing contract: what an accepted double voting proof establishes and
    changes, that it is accepted at most once, what the clean-up of the jailed validators
    keeps, and where it depends on the memory of the node. *)
From S2P Require Import Prelude Codec Rlp Storage IterableMap DposData Dpos Slashing.

Definition view (c : Contract) : gmap bytes bytes := SW_view (storage c).
(** Everything but the cache, which no read shows. *)
Definition observe (c : Contract) :
    gmap bytes bytes * gmap bytes bytes * gmap bytes bytes * Z * Reader * list JailedLog * Z :=
  (view c, dirty (storage c), db (storage c), nonce c, delayedReader c, logs c, nextCleanUpBlock c).
Lemma observe_inv c c' : observe c' = observe c →
  view c' = view c ∧ dirty (storage c') = dirty (storage c) ∧ db (storage c') = db (storage c) ∧
  nonce c' = nonce c ∧ delayedReader c' = delayedReader c ∧ logs c' = logs c ∧
  nextCleanUpBlock c' = nextCleanUpBlock c.
Proof. unfold observe. intros E. simplify_eq. done. Qed.

Lemma filter_all {A} (P : A → Prop) `{∀ x, Decision (P x)} (l : list A) : (∀ x, x ∈ l → P x) → filter P l = l.
Proof.
  intros Hl. induction l as [|x l IH]; [done|].
  rewrite filter_cons_True by (apply Hl; by left). f_equal. apply IH. intros y Hy. apply Hl. by right.
Qed.

(** ** Elementary steps *)
Lemma wp_get k Q E c :
  (∀ c', observe c' = observe c → Q (get (view c) k) c') → wp (on_storage (SW_Get k)) Q E c.
Proof.
  intros HQ. unfold wp, on_storage. pose proof (SW_get_sim k (storage c)) as Hs.
  assert (dirty (SW_Get k (storage c)).2 = dirty (storage c) ∧
          db (SW_Get k (storage c)).2 = db (storage c)) as [Ed Eb].
  { unfold SW_Get. destruct (cache (storage c) !! k); [done|].
    by destruct (db (storage c) !! k) as [[|]|]. }
  destruct (SW_Get k (storage c)) as [o x]. unfold map_get in Hs. simpl in *. simplify_eq.
  apply HQ. unfold observe, view, set_storage. simpl. congruence.
Qed.
Lemma wp_put k v (Q : unit → Contract → Prop) E c :
  (∀ c', view c' = view_put k v (view c) → db (storage c') = db (storage c) →
     nonce c' = nonce c → delayedReader c' = delayedReader c → logs c' = logs c →
     nextCleanUpBlock c' = nextCleanUpBlock c → Q tt c') →
  wp (on_storage (SW_Put k v)) Q E c.
Proof.
  intros HQ. unfold wp, on_storage, SW_Put. apply HQ; try done.
  unfold view, set_storage, SW_view. simpl. by rewrite <-insert_union_l, clean_insert.
Qed.
Lemma wp_ask_delayed {A} (m : M (gmap bytes bytes) A) Q E c :
  (∀ a, (m (r_storage (delayedReader c))).1 = Ret a → Q a c) →
  (∀ e, (m (r_storage (delayedReader c))).1 = Err e → E e c) → wp (ask_delayed m) Q E c.
Proof.
  intros HQ HE. unfold wp, ask_delayed. destruct (m _) as [[a|e|p] x]; simpl in *; auto.
Qed.
Lemma wp_ask_committed {A} (m : M (gmap bytes bytes) A) Q E c :
  (∀ a, (m (db (storage c))).1 = Ret a → Q a c) →
  (∀ e, (m (db (storage c))).1 = Err e → E e c) → wp (ask_committed m) Q E c.
Proof.
  intros HQ HE. unfold wp, ask_committed. destruct (m _) as [[a|e|p] x]; simpl in *; auto.
Qed.
Lemma MustDecodeBytes_no_err {A} (d : Stream A) b e : MustDecodeBytes d b ≠ Err e.
Proof. unfold MustDecodeBytes. by destruct (DecodeBytes d b). Qed.
Lemma MustEncode_no_err o e : MustEncode o ≠ Err e.
Proof. unfold MustEncode. by destruct o. Qed.

(** ** The list of jailed validators *)
Lemma decodeByteArray_20 s a s' : decodeByteArray 20 s = (Ret a, s') → is_address a.
Proof.
  intros E. unfold decodeByteArray in E. apply bind_ret_inv in E as ([[k size] bv] & s1 & _ & E).
  destruct k; [done| |done]. simpl in E.
  apply bind_ret_inv in E as (? & s2 & _ & E). apply bind_ret_inv in E as (? & s3 & _ & E).
  apply bind_ret_inv in E as (b & s4 & Eb & E). apply bind_ret_inv in E as (? & s5 & _ & E).
  cbv in E. simplify_eq. unfold readFull in Eb.
  destruct (blen s3 <? 20) eqn:El; [done|]. cbv [mret M_ret] in Eb. simplify_eq.
  unfold is_address. rewrite length_take. unfold blen in El. lia.
Qed.
Lemma decodeSliceElems_Forall {A} (P : A → Prop) (d : Stream A) fuel s l s' :
  (∀ s a s', d s = (Ret a, s') → P a) → decodeSliceElems fuel d s = (Ret l, s') → Forall P l.
Proof.
  intros Hd. revert s l s'. induction fuel as [|fuel IH]; intros s l s' E.
  { destruct s; simpl in E; simplify_eq. done. }
  destruct s as [|b s]; simpl in E; [by simplify_eq|].
  apply bind_ret_inv in E as (x & s1 & Ex & E). apply bind_ret_inv in E as (xs & s2 & Exs & E).
  cbv in E. simplify_eq. constructor; [by eapply Hd|by eapply IH].
Qed.
Lemma MustDecodeBytes_inv {A} (d : Stream A) b a :
  MustDecodeBytes d b = Ret a → d b = (Ret a, []).
Proof.
  unfold MustDecodeBytes, DecodeBytes. destruct (d b) as [[x|e|p] [|]]; intros; by simplify_eq.
Qed.
Lemma decode_addresses_ok b l : MustDecodeBytes decode_addresses b = Ret l → Forall is_address l.
Proof.
  intros E%MustDecodeBytes_inv. unfold decode_addresses, decodeListSlice, decodeStruct in E.
  apply bind_ret_inv in E as ([[k size] bv] & s1 & _ & E). destruct k; [done..|].
  destruct (decodeSliceElems _ _ _) as [[x|e|p] [|]] eqn:El; [|done..].
  simplify_eq. eapply decodeSliceElems_Forall, El. apply decodeByteArray_20.
Qed.
Lemma AppendString_address a : is_address a → blen (AppendString a) = 21.
Proof.
  unfold is_address. intros Ha. destruct (AppendString_cases a) as [(b & -> & _)|[-> _]]; [done|].
  rewrite blen_app. unfold blen. rewrite Ha. done.
Qed.
Lemma addresses_length l :
  Forall is_address l → blen (concat (map AppendString l)) = 21 * Z.of_nat (length l).
Proof.
  induction 1 as [|a l Ha Hl IH]; [done|]. cbn [map concat length]. rewrite blen_app, IH.
  rewrite AppendString_address by done. lia.
Qed.
Lemma encode_decode_addresses l :
  Forall is_address l → Z.of_nat (length l) < 2 ^ 32 →
  ∃ b, encode_addresses l = Ret b ∧ b ≠ [] ∧ MustDecodeBytes decode_addresses b = Ret l.
Proof.
  intros Hl Hn. eexists. split; [reflexivity|]. split; [apply enc_list_nonempty|].
  unfold MustDecodeBytes, DecodeBytes, decode_addresses.
  rewrite <-(app_nil_r (enc_list _)), decodeListSlice_enc_list; [done| |].
  - intros a r Ha. assert (is_address a) as E by (by eapply Forall_forall). split.
    + intros Z0. apply AppendString_address in E. by rewrite Z0 in E.
    + unfold is_address in E. replace 20 with (blen a) by (unfold blen; lia). apply decodeByteArray_AppendString.
      unfold blen. rewrite E. done.
  - rewrite addresses_length by done. lia.
Qed.
Lemma MustDecode_uint64 n :
  is_u64 n → MustDecodeBytes (Stream_uint 64) (AppendUint n) = Ret n ∧ AppendUint n ≠ [].
Proof.
  intros Hn. unfold MustDecodeBytes, DecodeBytes. split.
  - rewrite <-(app_nil_r (AppendUint n)), Stream_uint_AppendUint by auto. done.
  - unfold AppendUint. repeat case_match; [done..|]. by rewrite putint_be.
Qed.
Lemma BytesToAddress_address b : is_address (BytesToAddress b).
Proof.
  unfold is_address, BytesToAddress. rewrite length_app, length_replicate, length_drop. lia.
Qed.

(** ** The keys of the contract *)
(** The key of the list is not a hash; that no hash is equal to it is what is relied on. *)
Class SlashingKeccak `{Keccak} := jailed_key_free : ∀ b, keccak b ≠ jailed_validators_key.

Section facts.
Context `{KeccakInj} `{!SlashingKeccak} `{EcrecoverFn} (cfg : ChainConfig).

Lemma jail_key_inj a b : jail_key a = jail_key b → a = b.
Proof. intros E%Stor_k_1_inj. simpl in E. rewrite !app_nil_r in E. by simplify_eq. Qed.
Lemma jail_key_list a : jail_key a ≠ jailed_validators_key.
Proof. apply jailed_key_free. Qed.
Definition is_proof_key (k : bytes) : Prop := ∃ x, k = keccak (1 :: x).
Lemma proof_key_jail k a : is_proof_key k → k ≠ jail_key a.
Proof. intros [x ->] E. unfold jail_key, Stor_k_1 in E. by apply keccak_inj in E. Qed.
Lemma proof_key_list k : is_proof_key k → k ≠ jailed_validators_key.
Proof. intros [x ->]. apply jailed_key_free. Qed.
Lemma gen_proof_key a b k : genDoubleVotingProofDbKey a b = Ret k → is_proof_key k.
Proof.
  unfold genDoubleVotingProofDbKey. destruct (bytes_Compare a b); intros; simplify_eq; by eexists.
Qed.

(** ** An accepted proof *)
(** Two votes of one validator for different blocks at the same period, round and step, which
    the reader holds for eligible; in the second finishing step neither is a vote for the null
    block. *)
Record accepted (r : Reader) (A B : bytes) (v : address) (va vb : Vote) (ha hb : hash) : Prop := {
  ac_vote_a : NewVote A = Ret va;
  ac_vote_b : NewVote B = Ret vb;
  ac_hash_a : GetHash va = Ret ha;
  ac_hash_b : GetHash vb = Ret hb;
  ac_differ : ha ≠ hb;
  ac_period : Period (VrfSortition va) = Period (VrfSortition vb);
  ac_round : Round (VrfSortition va) = Round (VrfSortition vb);
  ac_step : Step (VrfSortition va) = Step (VrfSortition vb);
  ac_blocks : BlockHash va ≠ BlockHash vb;
  ac_finishing : 5 <= Step (VrfSortition va) → Step (VrfSortition va) mod 2 = 1 →
    BlockHash va ≠ ZeroHash ∧ BlockHash vb ≠ ZeroHash;
  ac_signed_a : validateVoteSig ha (Signature va) = Ret v;
  ac_signed_b : validateVoteSig hb (Signature vb) = Ret v;
  ac_eligible : reader_IsEligible r v = Ret true
}.

Lemma wp_check_votes a b (Q : unit → Contract → Prop) (E : string → Contract → Prop) c :
  (∀ e, E e c) →
  (Period (VrfSortition a) = Period (VrfSortition b) →
   Round (VrfSortition a) = Round (VrfSortition b) →
   Step (VrfSortition a) = Step (VrfSortition b) → BlockHash a ≠ BlockHash b →
   (5 <= Step (VrfSortition a) → Step (VrfSortition a) mod 2 = 1 →
    BlockHash a ≠ ZeroHash ∧ BlockHash b ≠ ZeroHash) → Q tt c) →
  wp (check_votes a b) Q E c.
Proof using.
  intros HE HQ. unfold check_votes.
  apply wp_bind, wp_fail_if; [by intros|]. intros E1.
  apply wp_bind, wp_fail_if; [by intros|]. intros E2%bool_decide_eq_false.
  apply wp_fail_if; [by intros|]. intros E3. unfold is_zero_hash in E3.
  apply HQ; [lia..|done|]. intros H5 Hodd. split; intros E0; repeat case_bool_decide;
    first [congruence|simpl in E3; lia].
Qed.
Lemma wp_vote_validator h v (Q : address → Contract → Prop) (E : string → Contract → Prop) c :
  (∀ e, E e c) → (∀ a, validateVoteSig h (Signature v) = Ret a → Q a c) →
  wp (vote_validator h v) Q E c.
Proof.
  intros HE HQ. unfold vote_validator. destruct (validateVoteSig h (Signature v)) eqn:Ev;
    [by apply HQ|apply HE|done].
Qed.
Lemma NewVote_no_err b e : NewVote b ≠ Err e.
Proof using.
  unfold NewVote. pose proof (MustDecodeBytes_no_err decode_vote b) as Hv.
  destruct (MustDecodeBytes decode_vote b) as [[[h v] sig]|x|]; [|by destruct (Hv x)|done].
  pose proof (MustDecodeBytes_no_err decode_sortition v) as Hs.
  by destruct (MustDecodeBytes decode_sortition v) as [|x|]; [|destruct (Hs x)|].
Qed.
Lemma GetHash_no_err v e : GetHash v ≠ Err e.
Proof using. unfold GetHash. by simpl. Qed.

(** What jailing a validator does to the storage, the list of the delayed reader being [l]. *)
Record jailed (block : Z) (l : list address) (v : address) (c c' : Contract) : Prop := {
  jd_block : (reader_getJailBlock v (view c')).1 = Ret (true, u64 (block + JailTime cfg));
  jd_list : (GetJailedValidators (view c')).1 =
    if bool_decide (v ∈ l) then (GetJailedValidators (view c)).1 else Ret (l ++ [v]);
  jd_others : ∀ k, k ≠ jail_key v → k ≠ jailed_validators_key → get (view c') k = get (view c) k;
  jd_db : db (storage c') = db (storage c);
  jd_logs : logs c' = logs c;
  jd_reader : delayedReader c' = delayedReader c;
  jd_next : nextCleanUpBlock c' = nextCleanUpBlock c;
  jd_nonce : nonce c' ≠ 0
}.
Lemma GetJailed_run m : (GetJailedValidators m).1 =
  match get m jailed_validators_key with
  | [] => Ret []
  | b => MustDecodeBytes decode_addresses b
  end.
Proof using.
  unfold GetJailedValidators, map_get, mbind, M_bind. fold (get m jailed_validators_key).
  by destruct (get m jailed_validators_key).
Qed.
Lemma getJailBlock_run v m : (reader_getJailBlock v m).1 =
  match get m (jail_key v) with
  | [] => Ret (false, 0)
  | b => match MustDecodeBytes (Stream_uint 64) b with
         | Ret n => Ret (true, n)
         | Err e => Err e
         | Panic p => Panic p
         end
  end.
Proof using.
  unfold reader_getJailBlock, map_get, mbind, M_bind. fold (get m (jail_key v)).
  destruct (get m (jail_key v)) as [|x b]; [done|]. unfold of_outcome.
  by destruct (MustDecodeBytes (Stream_uint 64) (x :: b)).
Qed.
Lemma GetJailed_ok m l : (GetJailedValidators m).1 = Ret l → Forall is_address l.
Proof using.
  rewrite GetJailed_run. destruct (get m jailed_validators_key).
  - intros. by simplify_eq.
  - apply decode_addresses_ok.
Qed.
Lemma GetJailed_encoded m l b :
  encode_addresses l = Ret b → Forall is_address l → Z.of_nat (length l) < 2 ^ 32 →
  get m jailed_validators_key = b → (GetJailedValidators m).1 = Ret l.
Proof using.
  intros Eb Hl Hn Em. destruct (encode_decode_addresses l Hl Hn) as (b' & Eb' & Hne & Hd).
  assert (b' = b) as -> by congruence. rewrite GetJailed_run, Em. by destruct b.
Qed.
Lemma getJailBlock_encoded m v n :
  is_u64 n → get m (jail_key v) = AppendUint n → (reader_getJailBlock v m).1 = Ret (true, n).
Proof using.
  intros Hn Em. destruct (MustDecode_uint64 n Hn) as [Hd Hne].
  rewrite getJailBlock_run, Em. destruct (AppendUint n); [done|]. by rewrite Hd.
Qed.

(** The list of the delayed reader with the validator added. *)
Lemma wp_addToJailedValidators l v c (Q : unit → Contract → Prop) E :
  (GetJailedValidators (r_storage (delayedReader c))).1 = Ret l →
  Z.of_nat (length l) + 1 < 2 ^ 32 → is_address v →
  (∀ c', (GetJailedValidators (view c')).1 =
      (if bool_decide (v ∈ l) then (GetJailedValidators (view c)).1 else Ret (l ++ [v])) →
    (∀ k, k ≠ jailed_validators_key → get (view c') k = get (view c) k) →
    db (storage c') = db (storage c) → nonce c' = nonce c → delayedReader c' = delayedReader c →
    logs c' = logs c → nextCleanUpBlock c' = nextCleanUpBlock c → Q tt c') →
  wp (addToJailedValidators v) Q E c.
Proof using.
  intros El Hn Hv HQ. apply wp_bind, wp_ask_delayed; [|intros ? E1; by rewrite El in E1].
  intros l' E1. rewrite El in E1. simplify_eq. case_bool_decide as Hin; [by apply HQ|].
  assert (Forall is_address (l' ++ [v])) as Hl.
  { apply Forall_app. split; [by eapply GetJailed_ok|by repeat constructor]. }
  assert (Z.of_nat (length (l' ++ [v])) < 2 ^ 32) by (rewrite length_app; simpl; lia).
  apply wp_bind, wp_outcome; [|done]. intros b Eb.
  apply wp_put. intros c' V D N R L X. apply HQ; [|intros k Hk|done..]; rewrite V.
  - apply (GetJailed_encoded _ _ b); [done..|by rewrite get_put_eq].
  - by rewrite get_put_ne.
Qed.
Lemma wp_jailValidator block l v c (E : string → Contract → Prop) :
  (GetJailedValidators (r_storage (delayedReader c))).1 = Ret l →
  Z.of_nat (length l) + 1 < 2 ^ 32 → is_address v →
  wp (jailValidator cfg block v)
    (λ n c', n = u64 (block + JailTime cfg) ∧ jailed block l v c c') E c.
Proof.
  intros El Hn Hv. unfold jailValidator.
  set (n := u64 (block + JailTime cfg)). assert (is_u64 n) as H64 by apply u64_range.
  apply wp_bind, wp_get. intros c1 (V1 & _ & D1 & N1 & R1 & L1 & X1)%observe_inv.
  apply wp_bind, (wp_mono _ (λ _ c2, c2 = c1) _ (λ _ _, False)); [|intros ? ? ->|done].
  { destruct (get (view c) (jail_key v)); [done|]. apply wp_bind, wp_outcome; [done|].
    intros e Ee. by apply MustDecodeBytes_no_err in Ee. }
  apply wp_bind, wp_outcome; [|done]. intros e [= <-].
  apply wp_bind, wp_put. intros c2 V2 D2 N2 R2 L2 X2.
  apply wp_bind, (wp_addToJailedValidators l); [congruence|done..|].
  intros c3 Hlist Hothers D3 N3 R3 L3 X3. unfold wp, storageInitialization, mbind, M_bind. simpl.
  assert (∀ k, k ≠ jail_key v → get (view c2) k = get (view c) k) as Hk.
  { intros k Hk. by rewrite V2, get_put_ne, V1 by done. }
  split; [done|]. split; unfold view in *; simpl; try congruence.
  - apply getJailBlock_encoded; [done|]. rewrite Hothers by apply jail_key_list.
    by rewrite V2, get_put_eq.
  - rewrite Hlist. case_bool_decide; [|done]. rewrite !GetJailed_run, Hk; [done|].
    intros Ek. by apply (jail_key_list v).
  - intros k Hk1 Hk2. by rewrite Hothers, Hk.
  - destruct (Z.eqb_spec (nonce c3) 0); lia.
Qed.

(** What an accepted proof changes. *)
Record committed (block : Z) (l : list address) (v : address) (key : bytes) (c c' : Contract)
    : Prop := {
  cm_new : get (view c) key = [];
  cm_saved : get (view c') key = writeBool true;
  cm_block : ∀ b, (IsJailed b v (view c')).1 = Ret (b <=? u64 (block + JailTime cfg));
  cm_list : (GetJailedValidators (view c')).1 =
    if bool_decide (v ∈ l) then (GetJailedValidators (view c)).1 else Ret (l ++ [v]);
  cm_others : ∀ k, k ≠ key → k ≠ jail_key v → k ≠ jailed_validators_key →
    get (view c') k = get (view c) k;
  cm_logs : logs c' = logs c ++ [{| jl_validator := v; jl_start := block;
    jl_end := u64 (block + JailTime cfg); jl_behaviour := DOUBLE_VOTING |}];
  cm_db : db (storage c') = db (storage c);
  cm_next : nextCleanUpBlock c' = nextCleanUpBlock c
}.
Lemma IsJailed_run b v m : (IsJailed b v m).1 =
  match (reader_getJailBlock v m).1 with
  | Ret (jailed, n) => Ret (jailed && (b <=? n))
  | Err e => Err e
  | Panic p => Panic p
  end.
Proof using.
  unfold IsJailed, mbind, M_bind. destruct (reader_getJailBlock v m) as [[[[] n]|e|p] m']; [|done..].
  simpl. destruct (Z.ltb_spec n b), (Z.leb_spec b n); simpl; try done; lia.
Qed.
Lemma wp_save block l v key c c1 (E : string → Contract → Prop) :
  get (view c) key = [] → is_proof_key key → jailed block l v c c1 →
  wp (saveDoubleVotingProof key ;;
      AddLog {| jl_validator := v; jl_start := block; jl_end := u64 (block + JailTime cfg);
                jl_behaviour := DOUBLE_VOTING |})
    (λ _ c', committed block l v key c c') E c1.
Proof.
  intros Hnew Hkey [Hb Hl Ho Hd HL HR HX HN]. apply wp_bind, wp_put.
  intros c2 V2 D2 N2 R2 L2 X2. unfold wp, AddLog. split; unfold view in *; simpl;
    try (first [congruence|done]).
  - by rewrite V2, get_put_eq.
  - intros b. rewrite IsJailed_run, getJailBlock_run, V2, get_put_ne, <-getJailBlock_run, Hb;
      [done|by apply proof_key_jail].
  - rewrite GetJailed_run, V2, get_put_ne, <-GetJailed_run; [done|by apply proof_key_list].
  - intros k H1k H2k H3k. rewrite V2, get_put_ne by done. by apply Ho.
Qed.

Lemma wp_commitDoubleVotingProof block A B c l :
  (GetJailedValidators (r_storage (delayedReader c))).1 = Ret l →
  Z.of_nat (length l) + 1 < 2 ^ 32 →
  wp (commitDoubleVotingProof cfg block A B)
    (λ _ c', ∃ v va vb ha hb key, accepted (delayedReader c) A B v va vb ha hb ∧
       genDoubleVotingProofDbKey ha hb = Ret key ∧ committed block l v key c c')
    (λ _ c', observe c' = observe c) c.
Proof.
  intros El Hn. unfold commitDoubleVotingProof.
  apply wp_bind, wp_outcome; [intros va Ea|by intros e ?%NewVote_no_err].
  apply wp_bind, wp_outcome; [intros ha Eha|by intros e ?%GetHash_no_err].
  apply wp_bind, wp_outcome; [intros vb Eb|by intros e ?%NewVote_no_err].
  apply wp_bind, wp_outcome; [intros hb Ehb|by intros e ?%GetHash_no_err].
  apply wp_bind, wp_fail_if; [done|]. intros Hne%bool_decide_eq_false.
  apply wp_bind, wp_outcome; [intros key Ek|].
  2:{ unfold genDoubleVotingProofDbKey. by destruct (bytes_Compare ha hb). }
  apply wp_bind. unfold doubleVotingProoExists. apply wp_bind, wp_get. intros c1 O1.
  apply wp_ret, wp_bind, wp_fail_if; [done|]. intros Hnew.
  destruct (observe_inv _ _ O1) as (V1 & _ & _ & _ & R1 & _ & _).
  apply wp_bind, wp_check_votes; [done|]. intros Hp Hr Hs Hb Hfin.
  apply wp_bind, wp_vote_validator; [done|]. intros a Ha.
  apply wp_bind, wp_vote_validator; [done|]. intros b Hb'.
  apply wp_bind, wp_fail_if; [done|]. intros Hab%negb_false_iff%bool_decide_eq_true. subst b.
  apply wp_bind. unfold wp at 1, ask_eligible. rewrite R1.
  destruct (reader_IsEligible (delayedReader c) a) as [el|e|p] eqn:Hel; [|done|done].
  apply wp_bind, wp_fail_if; [done|]. intros ->%negb_false_iff.
  assert (is_address a).
  { unfold validateVoteSig in Ha. destruct (Ecrecover _ _); simplify_eq. apply BytesToAddress_address. }
  apply wp_bind. eapply wp_mono; [apply (wp_jailValidator block l a c1 (λ _ _, False)); [congruence|done..]| |done].
  intros n c2 [-> Hj]. eapply wp_mono; [apply (wp_save block l a key c1 c2 (λ _ _, False))| |done].
  - rewrite V1. by destruct (get (view c) key).
  - by eapply gen_proof_key.
  - done.
  - intros ? c3 Hc. exists a, va, vb, ha, hb, key. split_and!; [by split|done|].
    destruct (observe_inv _ _ O1) as (_ & _ & D1 & _ & _ & L1 & X1).
    destruct Hc. split; rewrite <-?V1, <-?L1, <-?D1, <-?X1; done.
Qed.

(** C22: double_voting_jails.  When [commitDoubleVotingProof] returns without an error, the signer
    of two different votes at one period, round and step whose proof is new is jailed: up to the
    block plus the jail time, logged once and the proof is kept.  The list of jailed validators
    written is the one the delayed reader reads with the signer added, so that validators listed
    since the delayed block drop off.  No other entry of the storage changes.  When it returns an
    error it has changed nothing.  The list of the delayed reader is asked to be readable and to
    have room; of a call that panics nothing is said. *)
Theorem double_voting_jails block A B c l :
  (GetJailedValidators (r_storage (delayedReader c))).1 = Ret l →
  Z.of_nat (length l) + 1 < 2 ^ 32 →
  wp (commitDoubleVotingProof cfg block A B)
    (λ _ c', ∃ v va vb ha hb key, accepted (delayedReader c) A B v va vb ha hb ∧
       genDoubleVotingProofDbKey ha hb = Ret key ∧ committed block l v key c c')
    (λ _ c', observe c' = observe c) c.
Proof. apply wp_commitDoubleVotingProof. Qed.

(** ** Steps of the contract's life *)
(** Every write of a block is cached and every saved proof stays. *)
Definition keeps_proofs : relation Contract := λ c c',
  SW_coherent (storage c) → SW_coherent (storage c') ∧
  ∀ k, is_proof_key k → get (view c) k ≠ [] → get (view c') k ≠ [].
#[local] Instance keeps_proofs_preorder : PreOrder keeps_proofs.
Proof.
  split; [by intros c|]. intros c1 c2 c3 H12 H23 Hc. destruct (H12 Hc) as [Hc2 K12].
  destruct (H23 Hc2) as [Hc3 K23]. split; [done|]. eauto.
Qed.
Abbreviation steps := (moves keeps_proofs (λ _, True)).

Lemma slash_steps_get k : steps (on_storage (SW_Get k)).
Proof.
  intros c. pose proof (SW_exec_coherent (OpGet k) (storage c)) as Hc.
  pose proof (SW_get_sim k (storage c)) as Hs. unfold on_storage, map_get in *. simpl in Hc.
  unfold mbind, M_bind in Hc. destruct (SW_Get k (storage c)) as [o x]. simpl in *. simplify_eq.
  intros Hcoh. split; [by apply Hc|]. unfold view, set_storage. simpl. congruence.
Qed.
Lemma steps_put k v : (is_proof_key k → v ≠ []) → steps (on_storage (SW_Put k v)).
Proof.
  intros Hk c Hcoh. split; [apply (SW_exec_coherent (OpPut k v) _ Hcoh)|].
  intros k' Hk'. unfold view, SW_Put, set_storage, SW_view. simpl.
  rewrite <-insert_union_l, clean_insert. destruct (decide (k = k')) as [<-|N].
  - rewrite get_put_eq. eauto.
  - by rewrite get_put_ne.
Qed.
Lemma steps_delayed {A} (m : M (gmap bytes bytes) A) : steps (ask_delayed m).
Proof. intros c. unfold ask_delayed. by destruct (m _) as [[] ?]. Qed.
Lemma steps_committed {A} (m : M (gmap bytes bytes) A) : steps (ask_committed m).
Proof. intros c. unfold ask_committed. by destruct (m _) as [[] ?]. Qed.
Lemma steps_eligible a : steps (ask_eligible a).
Proof. intros c. unfold ask_eligible. by destruct (reader_IsEligible _ _). Qed.
Lemma slash_steps_outcome {A} (o : outcome A) : steps (of_outcome o).
Proof. apply moves_outcome; [apply _|done]. Qed.
Lemma steps_storage (f : Contract → Contract) :
  (∀ c, storage (f c) = storage c) → steps (λ c, (Ret tt, f c)).
Proof. intros Hf c Hc. unfold view. rewrite Hf. done. Qed.
Lemma steps_put_jail a v : steps (on_storage (SW_Put (jail_key a) v)).
Proof. apply steps_put. intros Hk. by destruct (proof_key_jail _ a Hk). Qed.
Lemma steps_put_list v : steps (on_storage (SW_Put jailed_validators_key v)).
Proof. apply steps_put. intros Hk. by destruct (proof_key_list _ Hk). Qed.
#[local] Hint Resolve slash_steps_get steps_delayed steps_committed steps_eligible slash_steps_outcome
  steps_put_jail steps_put_list steps_storage : moves.

Lemma steps_log l : steps (AddLog l).
Proof. apply (steps_storage (λ c, _)). done. Qed.
Lemma steps_next n : steps (set_nextCleanUpBlock n).
Proof. apply (steps_storage (λ c, _)). done. Qed.
Lemma steps_init : steps storageInitialization.
Proof. apply (steps_storage (λ c, _)). done. Qed.
Lemma steps_save k : steps (saveDoubleVotingProof k).
Proof. by apply steps_put. Qed.
#[local] Hint Resolve steps_log steps_next steps_init steps_save : moves.
Lemma steps_commitDoubleVotingProof b A B : steps (commitDoubleVotingProof cfg b A B).
Proof.
  unfold commitDoubleVotingProof, doubleVotingProoExists, check_votes, vote_validator,
    jailValidator, addToJailedValidators. moves_solve.
Qed.
#[local] Hint Resolve steps_commitDoubleVotingProof : moves.
Lemma steps_Run b i : steps (Run cfg b i).
Proof. unfold Run, getJailBlock. moves_solve. Qed.
Lemma steps_cleanup_list b : steps (cleanup_list b).
Proof. unfold cleanup_list. moves_solve. Qed.
Lemma steps_Cleanup b : steps (CleanupJailedValidators b).
Proof.
  intros c. unfold CleanupJailedValidators. destruct (b <? nextCleanUpBlock c); [done|].
  apply steps_cleanup_list.
Qed.
Lemma steps_CommitCall r : steps (CommitCall r).
Proof.
  unfold CommitCall. apply moves_bind; [apply _| |intros; by apply (steps_storage (λ c, _))].
  intros c Hc. pose proof (SW_exec_coherent OpCommit _ Hc) as Hcoh.
  pose proof (SW_exec_sim OpCommit _ Hc) as Hs. simpl in Hcoh, Hs. unfold mbind, M_bind in Hcoh, Hs.
  simpl in *. unfold mret, M_ret in Hs. simplify_eq. split; [done|].
  unfold view. simpl. intros k _. by rewrite <-Hs.
Qed.

(** A call that does not stop the node, the end of a block, its commit, and a restart between
    two blocks, when nothing is unwritten. *)
Inductive next_state : relation Contract :=
| next_run b i o c c' : Run cfg b i c = (o, c') → (∀ p, o ≠ Panic p) → next_state c c'
| next_cleanup b o c c' :
    CleanupJailedValidators b c = (o, c') → (∀ p, o ≠ Panic p) → next_state c c'
| next_commit r c : next_state c (CommitCall r c).2
| next_restart r c :
    dirty (storage c) = ∅ → next_state c (Init (db (storage c)) (nonce c) r).

Lemma moves_keeps {A} (m : M Contract A) c o c' :
  steps m → m c = (o, c') → (∀ p, o ≠ Panic p) → keeps_proofs c c'.
Proof using. intros Hm E Ho. specialize (Hm c). rewrite E in Hm. destruct o; [done..|]. by destruct (Ho msg). Qed.
Lemma next_keeps c c' : next_state c c' → keeps_proofs c c'.
Proof.
  destruct 1 as [b i o c c' E Ho|b o c c' E Ho|r c|r c Hd].
  - by eapply moves_keeps; [apply steps_Run|..].
  - by eapply moves_keeps; [apply steps_Cleanup|..].
  - eapply moves_keeps; [apply (steps_CommitCall r)| |]; [apply surjective_pairing|done].
  - intros Hc. split; [split; simpl; intros ? ? ?%lookup_empty_Some; done|].
    intros k _. unfold view. rewrite (coherent_view (storage c)), Hd by done. simpl.
    unfold SW_view. simpl. done.
Qed.
Lemma later_keeps c c' : rtc next_state c c' → keeps_proofs c c'.
Proof. induction 1 as [c|c1 c2 c3 H12 _ IH]; [done|]. etrans; [by apply next_keeps|done]. Qed.

Lemma bytes_Compare_swap a b : bytes_Compare b a = CompOpp (bytes_Compare a b).
Proof using.
  revert b. induction a as [|x a IH]; intros [|y b]; try done. simpl.
  rewrite Z.compare_antisym. destruct (x ?= y); simpl; [apply IH|done..].
Qed.
Lemma genDoubleVotingProofDbKey_swap a b :
  genDoubleVotingProofDbKey a b = genDoubleVotingProofDbKey b a.
Proof using.
  unfold genDoubleVotingProofDbKey. rewrite (bytes_Compare_swap a b).
  by destruct (bytes_Compare a b).
Qed.
(** A proof that is there is refused. *)
Lemma known_proof_refused b A B va vb ha hb key c :
  NewVote A = Ret va → NewVote B = Ret vb → GetHash va = Ret ha → GetHash vb = Ret hb →
  ha ≠ hb → genDoubleVotingProofDbKey ha hb = Ret key → get (view c) key ≠ [] →
  (commitDoubleVotingProof cfg b A B c).1 = Err ErrExistingDoubleVotingProof.
Proof using.
  intros Ea Eb Eha Ehb Hne Ek Hk. unfold commitDoubleVotingProof. rewrite Ea, Eb.
  erewrite bind_run by done. rewrite Eha. erewrite bind_run by done. erewrite bind_run by done.
  rewrite Ehb. erewrite bind_run by done. rewrite bool_decide_false by done.
  erewrite bind_run by done. rewrite Ek. erewrite bind_run by done.
  unfold doubleVotingProoExists.
  destruct (on_storage (SW_Get key) c) as [o c1] eqn:Eg.
  assert (o = Ret (get (view c) key)) as ->.
  { unfold on_storage in Eg. pose proof (SW_get_sim key (storage c)) as Hs.
    unfold map_get in Hs. destruct (SW_Get key (storage c)). simpl in Hs. simplify_eq. done. }
  erewrite bind_run; [|by erewrite bind_run]. destruct (get (view c) key); [done|]. done.
Qed.

(** A double voting proof that was accepted is refused from then on,
    with the votes in either order, after any calls, ends of blocks, commits and restarts. *)
Theorem double_voting_once block A B c c1 c2 l :
  SW_coherent (storage c) →
  (GetJailedValidators (r_storage (delayedReader c))).1 = Ret l →
  Z.of_nat (length l) + 1 < 2 ^ 32 →
  commitDoubleVotingProof cfg block A B c = (Ret tt, c1) → rtc next_state c1 c2 →
  ∀ b, (commitDoubleVotingProof cfg b A B c2).1 = Err ErrExistingDoubleVotingProof ∧
       (commitDoubleVotingProof cfg b B A c2).1 = Err ErrExistingDoubleVotingProof.
Proof.
  intros Hcoh El Hn E Hlater b. pose proof (wp_commitDoubleVotingProof block A B c l El Hn) as Hj.
  unfold wp in Hj. rewrite E in Hj. destruct Hj as (v & va & vb & ha & hb & key & Ha & Ek & Hc).
  pose proof (steps_commitDoubleVotingProof block A B c) as Hm. rewrite E in Hm.
  destruct (Hm Hcoh) as [Hcoh1 _]. destruct (later_keeps _ _ Hlater Hcoh1) as [_ Hkeep].
  assert (get (view c2) key ≠ []) as Hkey.
  { apply Hkeep; [by eapply gen_proof_key|]. by rewrite (cm_saved _ _ _ _ _ _ Hc). }
  destruct Ha. split; [by eapply known_proof_refused|].
  eapply known_proof_refused; try done. by rewrite genDoubleVotingProofDbKey_swap.
Qed.

(** ** The clean-up *)
(** The least jail block seen, zero standing for none. *)
Definition min_unjail (m : Z) (blocks : list Z) : Z :=
  foldl (λ m b, if (m =? 0) || (b <? m) then b else m) m blocks.
Definition jail_blocks (m : gmap bytes bytes) (l : list address) (jb : address → Z) : Prop :=
  ∀ v, v ∈ l → ∃ j, (reader_getJailBlock v m).1 = Ret (j, jb v).

Lemma reader_getJailBlock_state v m : (reader_getJailBlock v m).2 = m.
Proof using.
  unfold reader_getJailBlock, map_get, mbind, M_bind. destruct (default [] _); [done|].
  unfold of_outcome. by destruct (MustDecodeBytes _ _).
Qed.
(** The slice is compacted in place: what is still to be read is never overwritten. *)
Lemma cleanup_loop_spec b jb m rest idx i l mn :
  jail_blocks m (drop idx l) jb → (i <= idx)%nat → (rest = length l - idx)%nat →
  ∃ l' i', cleanup_loop b rest idx i l mn m =
      (Ret (l', i', min_unjail mn (map jb (drop idx l))), m) ∧
    take i' l' = take i l ++ filter (λ v, b < jb v) (drop idx l).
Proof using.
  revert idx i l mn. induction rest as [|rest IH]; intros idx i l mn Hjb Hi Hr.
  { exists l, i. rewrite drop_ge by lia. simpl. by rewrite app_nil_r. }
  destruct (lookup_lt_is_Some_2 l idx) as [v Hv]; [lia|].
  rewrite (drop_S _ _ _ Hv) in Hjb |- *. destruct (Hjb v) as [j Hj]; [by left|].
  pose proof (reader_getJailBlock_state v m) as Hm. cbn [cleanup_loop].
  erewrite bind_run by (rewrite Hv; done).
  destruct (reader_getJailBlock v m) as [o m'] eqn:Er. simpl in Hj, Hm. subst o m'.
  erewrite bind_run by exact Er. cbv beta iota.
  assert (jail_blocks m (drop (S idx) l) jb) as Hjb' by (intros x Hx; apply Hjb; by right).
  destruct (Z.ltb_spec b (jb v)) as [Hk|Hk].
  - rewrite filter_cons_True by done.
    assert (drop (S idx) (<[i:=v]> l) = drop (S idx) l) as Ed by (apply drop_insert_lt; lia).
    destruct (IH (S idx) (S i) (<[i:=v]> l)
      (if (mn =? 0) || (jb v <? mn) then jb v else mn)) as (l' & i' & E & Et).
    { by rewrite Ed. } { lia. } { rewrite length_insert. lia. }
    exists l', i'. rewrite E, Et, Ed. split; [done|].
    assert (take (S i) (<[i:=v]> l) = take i l ++ [v]) as ->; [|by rewrite <-app_assoc].
    erewrite take_S_r by (apply list_lookup_insert_eq; lia). by rewrite take_insert_ge by lia.
  - rewrite filter_cons_False by lia.
    destruct (IH (S idx) i l (if (mn =? 0) || (jb v <? mn) then jb v else mn))
      as (l' & i' & E & Et); [done|lia|lia|]. by exists l', i'.
Qed.

(** What a clean-up that runs puts in the storage, [l] being the list the database held before
    the block. *)
Lemma run_put k v c : ∃ c', on_storage (SW_Put k v) c = (Ret tt, c') ∧
  view c' = view_put k v (view c) ∧ nextCleanUpBlock c' = nextCleanUpBlock c.
Proof using.
  eexists. split; [reflexivity|]. split; [|done].
  unfold view, set_storage, SW_view. simpl. by rewrite <-insert_union_l, clean_insert.
Qed.
Lemma run_cleanup_list b c l jb :
  l ≠ [] → (GetJailedValidators (db (storage c))).1 = Ret l →
  jail_blocks (db (storage c)) l jb → Z.of_nat (length l) < 2 ^ 32 →
  ∃ c', cleanup_list b c = (Ret tt, c') ∧
    (GetJailedValidators (view c')).1 = Ret (filter (λ v, b < jb v) l) ∧
    (∀ k, k ≠ jailed_validators_key → get (view c') k = get (view c) k) ∧
    nextCleanUpBlock c' =
      (let n := min_unjail 0 (map jb l) in if n =? 0 then nextCleanUpBlock c else n).
Proof using.
  intros Hl El Hjb Hn. unfold cleanup_list.
  assert (ask_committed GetJailedValidators c = (Ret l, c)) as Ea.
  { unfold ask_committed. by rewrite El. }
  erewrite bind_run by exact Ea. clear Ea. destruct l as [|a l0] eqn:E0; [done|].
  rewrite <-E0 in El, Hjb, Hn |- *. clear Hl E0.
  destruct (cleanup_loop_spec b jb (db (storage c)) (length l) 0 0 l 0) as (l' & i' & E & Et);
    [done|lia|lia|]. rewrite drop_0 in E, Et.
  change (take i' l' = filter (λ v, b < jb v) l) in Et.
  assert (Forall is_address (take i' l')) as Hf.
  { rewrite Et. apply Forall_forall. intros x [_ Hx]%list_elem_of_filter.
    by eapply Forall_forall; [eapply GetJailed_ok|]. }
  assert (Z.of_nat (length (take i' l')) < 2 ^ 32) as Hlen.
  { rewrite Et. pose proof (length_filter (λ v, b < jb v) l). lia. }
  destruct (encode_decode_addresses _ Hf Hlen) as (e & Ee & _).
  set (n := min_unjail 0 (map jb l)) in *.
  erewrite bind_run by (unfold ask_committed; rewrite E; done). cbv beta iota.
  set (c1 := (when (negb (n =? 0)) (set_nextCleanUpBlock n) c).2).
  assert (view c1 = view c ∧ nextCleanUpBlock c1 = if n =? 0 then nextCleanUpBlock c else n)
    as [V1 X1] by (unfold c1, when; by destruct (n =? 0)).
  erewrite (bind_run _ _ _ tt c1) by (unfold c1, when; by destruct (n =? 0)).
  erewrite bind_run by (by rewrite Ee).
  destruct (run_put jailed_validators_key e c1) as (c2 & E2 & V2 & X2). exists c2.
  split_and!; [done| |intros k Hk; by rewrite V2, get_put_ne, V1|congruence].
  rewrite <-Et. apply (GetJailed_encoded _ _ e); [done..|]. by rewrite V2, get_put_eq.
Qed.

(** C23: cleanup_keeps_jailed.  A clean-up that is due replaces the list of jailed validators by
    those of the list the database held before the block whose jail block is still ahead,
    although it compacts the slice it ranges over; it changes nothing else in the storage and
    schedules the next one at the least jail block of the list. *)
Theorem cleanup_keeps_jailed b c l jb :
  nextCleanUpBlock c <= b → l ≠ [] →
  (GetJailedValidators (db (storage c))).1 = Ret l →
  jail_blocks (db (storage c)) l jb → Z.of_nat (length l) < 2 ^ 32 →
  ∃ c', CleanupJailedValidators b c = (Ret tt, c') ∧
    (GetJailedValidators (view c')).1 = Ret (filter (λ v, b < jb v) l) ∧
    (∀ k, k ≠ jailed_validators_key → get (view c') k = get (view c) k) ∧
    nextCleanUpBlock c' =
      (let n := min_unjail 0 (map jb l) in if n =? 0 then nextCleanUpBlock c else n).
Proof using.
  intros Hb. unfold CleanupJailedValidators.
  destruct (Z.ltb_spec b (nextCleanUpBlock c)); [lia|]. apply run_cleanup_list.
Qed.

(** The contract of a node that has restarted before the block: the storage is the same, the
    block of the next clean-up is forgotten. *)
Definition forget (c : Contract) : Contract := (set_nextCleanUpBlock 0 c).2.

(** C24: cleanup_depends_on_memory.  With the same storage and the same block, a node that
    remembers when the next clean-up is due keeps the list this block wrote, and a node that
    has restarted writes back the list the database held before the block: a validator jailed
    in this block is then missing from the list of the second node, and the states differ. *)
Theorem cleanup_depends_on_memory b c l jb :
  0 <= b < nextCleanUpBlock c → l ≠ [] →
  (GetJailedValidators (db (storage c))).1 = Ret l →
  jail_blocks (db (storage c)) l jb → (∀ v, v ∈ l → b < jb v) → Z.of_nat (length l) < 2 ^ 32 →
  CleanupJailedValidators b c = (Ret tt, c) ∧
  ∃ c', CleanupJailedValidators b (forget c) = (Ret tt, c') ∧
    (GetJailedValidators (view c')).1 = Ret l.
Proof using.
  intros Hb Hl El Hjb Hall Hn. unfold CleanupJailedValidators.
  destruct (Z.ltb_spec b (nextCleanUpBlock c)) as [_|]; [|lia]. split; [done|].
  destruct (run_cleanup_list b (forget c) l jb) as (c' & E & Hlist & _); [done..|].
  exists c'. split.
  - destruct (Z.ltb_spec b (nextCleanUpBlock (forget c))); simpl in *; [lia|done].
  - rewrite Hlist. f_equal. by apply filter_all.
Qed.
End facts.
