(* ===== verification/SlashingExamples.v ===== *)
(** A double voting proof on a small chain, on which the properties of the slashing contract
    are evaluated. *)
From S2P Require Import Prelude Codec Rlp Storage IterableMap DposData Dpos DposExamples.
From S2P Require Import Slashing SlashingFacts.

(** ** The chain *)
(** An injective hash that never gives the key of the list, and a signature that carries the
    key of its signer. *)
Definition tag_keccak : Keccak := λ b, 1 :: b.
#[local] Existing Instance tag_keccak.
#[local] Instance tag_keccak_inj : KeccakInj.
Proof. intros a b E. by simplify_eq. Defined.
#[local] Instance tag_keccak_free : SlashingKeccak.
Proof. intros b E. vm_compute in E. congruence. Defined.
#[local] Instance signature_is_key : EcrecoverFn := λ _ sig, Ret sig.

Definition vote (block_hash : hash) (signer : Z) : bytes :=
  let sortition := enc_list (AppendUint 7 ++ AppendUint 1 ++ AppendUint 3 ++
    AppendString (replicate 80 9)) in
  enc_list (AppendString block_hash ++ AppendString sortition ++ AppendString (replicate 65 signer)).
Definition vote_a : bytes := vote (replicate 32 1) 5.
Definition vote_b : bytes := vote (replicate 32 2) 5.
Definition double_voter : address := replicate 20 5.

(** One validator is jailed until block 200. *)
Definition slashing_db : gmap bytes bytes := {[
  jailed_validators_key := enc_list (AppendString val1); jail_key val1 := AppendUint 200 ]}.
Definition slashing_reader : Reader := {|
  r_storage := slashing_db; r_eligible := Some (λ _, Ret true) |}.
Definition node : Contract := Init slashing_db 1 slashing_reader.
(** The clean-up of block 49 has run; block 50 commits the proof. *)
Definition node_49 : Contract := (CleanupJailedValidators 49 node).2.
Definition node_49_committed : Contract := (CommitCall slashing_reader node_49).2.
Definition node_50 : Contract := (commitDoubleVotingProof chain 50 vote_a vote_b node_49_committed).2.
Definition jail_200 : address → Z := λ _, 200.
Lemma coherent_new x n r : SW_coherent (storage (Init x n r)).
Proof. split; simpl; intros ? ? ?%lookup_empty_Some; done. Qed.

(** ** Witnesses *)
Lemma double_voting_jails_witness :
  wp (commitDoubleVotingProof chain 50 vote_a vote_b)
    (λ _ c', ∃ v va vb ha hb key, accepted (delayedReader node) vote_a vote_b v va vb ha hb ∧
       genDoubleVotingProofDbKey ha hb = Ret key ∧ committed chain 50 [val1] v key node c')
    (λ _ c', observe c' = observe node) node ∧
  (commitDoubleVotingProof chain 50 vote_a vote_b node).1 = Ret tt ∧
  (IsJailed 150 double_voter (view (commitDoubleVotingProof chain 50 vote_a vote_b node).2)).1
    = Ret true.
Proof.
  split; [|split; vm_compute; reflexivity].
  apply double_voting_jails; [vm_compute; reflexivity|vm_compute; reflexivity].
Defined.
Lemma double_voting_once_witness :
  (commitDoubleVotingProof chain 60 vote_b vote_a
    (CleanupJailedValidators 50 (commitDoubleVotingProof chain 50 vote_a vote_b node).2).2).1
    = Err ErrExistingDoubleVotingProof.
Proof.
  apply (double_voting_once chain 50 vote_a vote_b node
    (commitDoubleVotingProof chain 50 vote_a vote_b node).2
    (CleanupJailedValidators 50 (commitDoubleVotingProof chain 50 vote_a vote_b node).2).2
    [val1] (coherent_new _ _ _)); [vm_compute; reflexivity..| |].
  - etrans; [apply surjective_pairing|]. by f_equal.
  - apply rtc_once. eapply (next_cleanup chain 50 (Ret tt)); [|done].
    etrans; [apply surjective_pairing|]. by f_equal.
Defined.
Lemma cleanup_keeps_jailed_witness :
  ∃ c', CleanupJailedValidators 200 node = (Ret tt, c') ∧
    (GetJailedValidators (view c')).1 = Ret [].
Proof.
  destruct (cleanup_keeps_jailed 200 node [val1] jail_200) as (c' & E & Hl & _).
  - vm_compute. discriminate.
  - done.
  - vm_compute. reflexivity.
  - intros v ->%list_elem_of_singleton. exists true. vm_compute. reflexivity.
  - reflexivity.
  - exists c'. split; [exact E|]. rewrite Hl. vm_compute. reflexivity.
Defined.
Lemma cleanup_depends_on_memory_witness :
  (GetJailedValidators (view (CleanupJailedValidators 50 node_50).2)).1 = Ret [val1; double_voter] ∧
  ∃ c', CleanupJailedValidators 50 (forget node_50) = (Ret tt, c') ∧
    (GetJailedValidators (view c')).1 = Ret [val1].
Proof.
  destruct (cleanup_depends_on_memory 50 node_50 [val1] jail_200) as [E H].
  - vm_compute. split; [discriminate|reflexivity].
  - done.
  - vm_compute. reflexivity.
  - intros v ->%list_elem_of_singleton. exists true. vm_compute. reflexivity.
  - intros v _. reflexivity.
  - reflexivity.
  - split; [rewrite E; vm_compute; reflexivity|exact H].
Defined.

(** ** A call that stops the node *)
(** A vote that does not decode makes [commitDoubleVotingProof] panic instead of returning an
    error, whoever sends it. *)
Theorem malformed_vote_panics cfg b A B e c :
  DecodeBytes decode_vote A = Err e →
  (Run cfg b (InCall (MCommitDoubleVotingProof A B)) c).1 = Panic e.
Proof.
  intros E. unfold Run, commitDoubleVotingProof, NewVote, MustDecodeBytes. rewrite E. done.
Qed.
Lemma malformed_vote_panics_witness :
  (Run chain 50 (InCall (MCommitDoubleVotingProof [] vote_b)) node).1 = Panic ErrValueTooLarge.
Proof. apply malformed_vote_panics. reflexivity. Defined.
