(* ===== verification/DposApi.v ===== *)
(** The configuration by block ([dpos/precompiled/api.go]) and its life in [state/api.go]: the
    changes are kept in a column of the database, replayed in order at start-up and looked up
    by block for the readers of the contracts.
    The initial validators of a configuration are a slice of an array in memory: copies of a
    configuration share it, and the decoder writes into the array it finds. *)
From stdpp Require Import sorting.
From S2P Require Import Prelude DposData YieldCurve.

(** * Configurations in memory *)
(** A slice from the start of an array; its capacity is the length of the array. *)
Record slice : Type := { s_array : nat; s_len : nat }.
Abbreviation arrays := (list (list GenesisValidator)).
Definition array_of (h : arrays) (s : slice) : list GenesisValidator := default [] (h !! s_array s).
Definition elements (h : arrays) (s : slice) : list GenesisValidator := take (s_len s) (array_of h s).
(** [DPOSConfig] in memory, and as it is encoded in the database. *)
Abbreviation dpos_config := (DPOSConfig * slice)%type.
Abbreviation stored_config := (DPOSConfig * list GenesisValidator)%type.
(** A [ChainConfig] in memory: the fields other than [DPOS] are those of [cfg_rest]. *)
Record MemConfig : Type := { cfg_dpos : dpos_config; cfg_rest : ChainConfig }.
Definition with_dpos (d : stored_config) (cfg : ChainConfig) : ChainConfig := {|
  GenesisBalances := GenesisBalances cfg; DPOS := d.1; InitialValidators := d.2;
  JailTime := JailTime cfg; MaxSupply := MaxSupply cfg; GeneratedRewards := GeneratedRewards cfg |}.
Definition stored_of (h : arrays) (d : dpos_config) : stored_config := (d.1, elements h d.2).
(** The configuration that a holder of [cfg] reads. *)
Definition config_of (h : arrays) (cfg : MemConfig) : ChainConfig :=
  with_dpos (stored_of h (cfg_dpos cfg)) (cfg_rest cfg).
(** A configuration that comes from outside: its validators are in an array of their own, which
    may have room for more. *)
Definition new_config (cfg : ChainConfig) (room : list GenesisValidator) (h : arrays) : MemConfig * arrays :=
  ({| cfg_dpos := (DPOS cfg, {| s_array := length h; s_len := length (InitialValidators cfg) |});
      cfg_rest := cfg |}, h ++ [InitialValidators cfg ++ room]).

(** ** Decoding into a slice ([decodeListSlice], [decodeSliceElems] of rlp/decode.go)
    The elements are decoded one after the other into the array, whose old contents are lost; when
    its end is reached, the slice moves to a longer copy of it. *)
Definition zero_validator : GenesisValidator := {|
  GV_Address := replicate 20 0; GV_Owner := replicate 20 0; GV_VrfKey := []; GV_Commission := 0;
  GV_Endpoint := []; GV_Description := []; GV_Delegations := [] |}.
Definition grow (s : slice) (h : arrays) : slice * arrays :=
  let cap := length (array_of h s) in
  let newcap := Nat.max 4 (cap + cap / 2) in
  ({| s_array := length h; s_len := s_len s |},
   h ++ [elements h s ++ replicate (newcap - s_len s) zero_validator]).
Fixpoint decodeSliceElems (l : list GenesisValidator) (i : nat) (s : slice) (h : arrays) : slice * arrays :=
  let '(s, h) := if (length (array_of h s) <=? i)%nat then grow s h else (s, h) in
  let s := if (s_len s <=? i)%nat then {| s_array := s_array s; s_len := S i |} else s in
  match l with
  | [] => (if (i <? s_len s)%nat then {| s_array := s_array s; s_len := i |} else s, h)
  | x :: l => decodeSliceElems l (S i) s (<[s_array s := <[i := x]> (array_of h s)]> h)
  end.
Definition decodeListSlice (l : list GenesisValidator) (s : slice) (h : arrays) : slice * arrays :=
  match l with
  | [] => ({| s_array := length h; s_len := 0 |}, h ++ [[]])
  | _ => decodeSliceElems l 0 s h
  end.
(** The decoder on a [DPOSConfig]: the numbers are new. *)
Definition decode_config (d : stored_config) (into : dpos_config) (h : arrays) : dpos_config * arrays :=
  let '(s, h) := decodeListSlice d.2 into.2 h in ((d.1, s), h).

(** * The API of the contract *)
Record DposConfigWithBlock : Type := { DposConfig : dpos_config; Blk_n : Z }.
Record API : Type := { config_by_block : list DposConfigWithBlock; config : MemConfig }.

Definition assert_holds {S} (b : bool) (msg : string) : M S unit := panic_if (negb b) msg.
Definition assertion_error : string := "assertion error".
Definition max_stake_bound : Z := 0x4B3B4CA85A86C47A098A224000000000.

Definition set_config (cfg : MemConfig) : M API unit := λ api,
  (Ret tt, {| config_by_block := config_by_block api; config := cfg |}).
(** [API.Init]; the warning about the starting yield is printed only.  The initial validators are
    not looked at. *)
Definition API_Init (mem_cfg : MemConfig) : M API unit :=
  let cfg := config_of [] mem_cfg in
  let d := DPOS cfg in
  assert_holds (DelegationDelay d <=? DelegationLockingPeriod d) assertion_error ;;
  assert_holds (MinimumDeposit d <=? ValidatorMaximumStake d) assertion_error ;;
  assert_holds (0 <? ValidatorMaximumStake d) assertion_error ;;
  assert_holds (ValidatorMaximumStake d <? max_stake_bound) assertion_error ;;
  assert_holds (MaxBlockAuthorReward d <=? 100) assertion_error ;;
  let total_supply := GenesisBalancesSum cfg + GeneratedRewards cfg in
  assert_holds (total_supply <=? MaxSupply cfg)
    "Protocol.Supply.MaxSupply must be >= sum of genesis balances + Protocol.Supply.GeneratedRewards" ;;
  assert_holds (total_supply <? 2 ^ 256) "total_supply overflow" ;;
  max_supply ← of_outcome (YieldCurve_Init cfg);
  set_config mem_cfg.

Definition no_config : ChainConfig := {|
  GenesisBalances := [];
  DPOS := {| EligibilityBalanceThreshold := 0; VoteEligibilityBalanceStep := 0;
    ValidatorMaximumStake := 0; MinimumDeposit := 0; MaxBlockAuthorReward := 0;
    DagProposersReward := 0; CommissionChangeDelta := 0; CommissionChangeFrequency := 0;
    DelegationDelay := 0; DelegationLockingPeriod := 0; BlocksPerYear := 0;
    TrxMinGasPrice := 0; TrxMaxGasLimit := 0 |};
  InitialValidators := []; JailTime := 0; MaxSupply := 0; GeneratedRewards := 0 |}.
Definition new_api : API := {|
  config_by_block := [];
  config := {| cfg_dpos := (DPOS no_config, {| s_array := 0; s_len := 0 |}); cfg_rest := no_config |} |}.

(** [cfg.DPOS = d] *)
Definition set_dpos (d : dpos_config) (cfg : MemConfig) : MemConfig := {|
  cfg_dpos := d; cfg_rest := cfg_rest cfg |}.
(** The loop of [GetConfigByBlockNum]: the entry that starts at or before the block and whose
    successor starts after it, the last entry being followed by the greatest number. *)
Fixpoint config_loop (cfg : MemConfig) (blk_n : Z) (l : list DposConfigWithBlock) : MemConfig :=
  match l with
  | [] => cfg
  | e :: rest =>
      let next_block_num := match rest with [] => 2 ^ 64 - 1 | e' :: _ => Blk_n e' end in
      if (Blk_n e <=? blk_n) && (blk_n <? next_block_num) then set_dpos (DposConfig e) cfg
      else config_loop cfg blk_n rest
  end.
Definition GetConfigByBlockNum (api : API) (blk_n : Z) : MemConfig :=
  config_loop (config api) blk_n (config_by_block api).
Definition UpdateConfig (blk_n : Z) (cfg : MemConfig) (api : API) : API := {|
  config_by_block := config_by_block api ++ [{| DposConfig := cfg_dpos cfg; Blk_n := blk_n |}];
  config := cfg |}.

(** * [state.API] *)
(** The arrays in memory; the column of the database that holds the changes, decoded; the
    configuration given at start-up or by the last update; [LastBlockNum] of the state
    transition. *)
Record StateAPI : Type := {
  dpos : API;
  memory : arrays;
  changes : gmap Z stored_config;
  state_config : MemConfig;
  LastBlockNum : Z
}.
Definition by_key {X} (a b : Z * X) : Prop := a.1 <= b.1.
#[local] Instance by_key_dec {X} : RelDecision (by_key (X := X)) := λ a b, decide (a.1 <= b.1).
(** [SaveDPOSConfigChange] is [insert]; [GetDPOSConfigChanges] gives a map whose keys are then
    sorted. *)
Definition sorted_changes (m : gmap Z stored_config) : list (Z * stored_config) :=
  merge_sort by_key (map_to_list m).
(** The loop over the changes: each is decoded into a copy of the configuration given. *)
Fixpoint replay (cfg : MemConfig) (l : list (Z * stored_config)) (api : API) (h : arrays) : API * arrays :=
  match l with
  | [] => (api, h)
  | (key, value) :: l =>
      let '(d, h) := decode_config value (cfg_dpos cfg) h in
      replay cfg l (UpdateConfig key (set_dpos d cfg) api) h
  end.

(** [state.API.Init] on the changes the database holds; [LastBlockNum] starts at zero. *)
Definition StateAPI_Init (chain_cfg : ChainConfig) (room : list GenesisValidator) (db : gmap Z stored_config)
    : outcome StateAPI :=
  let '(cfg, h) := new_config chain_cfg room [] in
  match API_Init cfg new_api with
  | (Ret _, api) =>
      if bool_decide (map_to_list db = []) then
        Ret {| dpos := UpdateConfig 0 cfg api; memory := h;
               changes := <[0 := stored_of h (cfg_dpos cfg)]> db;
               state_config := cfg; LastBlockNum := 0 |}
      else
        let '(api, h) := replay cfg (sorted_changes db) api h in
        Ret {| dpos := api; memory := h; changes := db; state_config := cfg; LastBlockNum := 0 |}
  | (Err e, _) => Err e
  | (Panic p, _) => Panic p
  end.
Definition StateAPI_UpdateConfig (chain_cfg : ChainConfig) (room : list GenesisValidator) (s : StateAPI)
    : StateAPI :=
  let '(cfg, h) := new_config chain_cfg room (memory s) in
  let config_update_block_num := u64 (LastBlockNum s + 1) in
  {| dpos := UpdateConfig config_update_block_num cfg (dpos s); memory := h;
     changes := <[config_update_block_num := stored_of h (cfg_dpos cfg)]> (changes s);
     state_config := cfg; LastBlockNum := LastBlockNum s |}.
(** [StateTransition.EndBlock] on block [n], as far as the configuration goes. *)
Definition end_block (n : Z) (s : StateAPI) : StateAPI := {|
  dpos := dpos s; memory := memory s; changes := changes s; state_config := state_config s;
  LastBlockNum := n |}.
(** The configuration that a reader of block [b] gets. *)
Definition config_at (s : StateAPI) (b : Z) : ChainConfig :=
  config_of (memory s) (GetConfigByBlockNum (dpos s) b).

(** * The configuration in force *)
Lemma last_filter_split {A} (P : A → Prop) `{∀ x, Decision (P x)} (l : list A) x :
  last (filter P l) = Some x ↔ ∃ l1 l2, l = l1 ++ x :: l2 ∧ P x ∧ Forall (λ y, ¬ P y) l2.
Proof.
  split.
  - induction l as [|y l IH] using rev_ind; [done|]. rewrite filter_app.
    destruct (decide (P y)) as [Hy|Hy].
    + rewrite filter_cons_True, filter_nil, last_snoc by done. intros [= <-].
      exists l, []. done.
    + rewrite filter_cons_False, filter_nil, app_nil_r by done.
      intros (l1 & l2 & -> & Hx & Hl)%IH. exists l1, (l2 ++ [y]).
      rewrite <-app_assoc. split_and!; [done..|]. apply Forall_app. by repeat constructor.
  - intros (l1 & l2 & -> & Hx & Hl). rewrite filter_app, filter_cons_True by done.
    assert (filter P l2 = []) as ->; [|by rewrite last_snoc].
    induction Hl as [|y l2 Hy _ IH]; [done|]. by rewrite filter_cons_False.
Qed.
Lemma last_filter_some {A} (P : A → Prop) `{∀ x, Decision (P x)} (l : list A) x :
  x ∈ l → P x → is_Some (last (filter P l)).
Proof.
  intros Hl Hx. apply last_is_Some. intros E.
  assert (x ∈ filter P l) as Hin by (by apply list_elem_of_filter). rewrite E in Hin.
  by apply not_elem_of_nil in Hin.
Qed.
Lemma sorted_split {A} (R : relation A) l1 x l2 y :
  StronglySorted R (l1 ++ x :: l2) → y ∈ l1 → R y x.
Proof.
  intros Hs Hy. apply StronglySorted_app in Hs as (Hr & _ & _).
  apply Hr; [done|by left].
Qed.

Lemma filter_snoc {A} (P : A → Prop) `{∀ x, Decision (P x)} (l : list A) x :
  filter P (l ++ [x]) = filter P l ++ (if decide (P x) then [x] else []).
Proof.
  rewrite filter_app. by f_equal.
Qed.

Section in_force.
Context {X : Type}.
Implicit Types (m : gmap Z X) (l : list (Z * X)).
(** The change with the greatest block at or before [b]. *)
Definition in_force m (b : Z) (d : X) : Prop :=
  ∃ k, m !! k = Some d ∧ k <= b ∧ ∀ k', is_Some (m !! k') → k' <= b → k' <= k.
Lemma in_force_unique m b d d' : in_force m b d → in_force m b d' → d = d'.
Proof.
  intros (k & Ek & Hk & Hmax) (k' & Ek' & Hk' & Hmax').
  assert (k = k') as <-; [|congruence].
  assert (k' <= k) by (apply Hmax; [by eexists|done]).
  assert (k <= k') by (apply Hmax'; [by eexists|done]). lia.
Qed.
(** The loop over the changes. *)
Fixpoint at_block (c : X) (b : Z) l : X :=
  match l with
  | [] => c
  | e :: rest =>
      let next := match rest with [] => 2 ^ 64 - 1 | e' :: _ => e'.1 end in
      if (e.1 <=? b) && (b <? next) then e.2 else at_block c b rest
  end.
(** A list of changes against the column: the blocks do not decrease, the later of two changes of
    one block counts, block 0 has one, and the configuration is the last one. *)
Record agrees l (c : X) m : Prop := {
  ag_sorted : StronglySorted by_key l;
  ag_map : ∀ k, m !! k = snd <$> last (filter (λ e, e.1 = k) l);
  ag_zero : is_Some (m !! 0);
  ag_last : snd <$> last l = Some c;
  ag_range : Forall (λ e, is_u64 e.1) l
}.

Lemma at_block_last c b l1 e l2 :
  StronglySorted by_key (l1 ++ e :: l2) → b < 2 ^ 64 - 1 → e.1 <= b →
  Forall (λ e, ¬ e.1 <= b) l2 → at_block c b (l1 ++ e :: l2) = e.2.
Proof.
  intros Hs Hb He Hl2. induction l1 as [|e0 l1 IH]; simpl.
  - destruct (Z.leb_spec e.1 b); [|lia]. simpl.
    assert (b < match l2 with [] => 2 ^ 64 - 1 | e' :: _ => e'.1 end) as Hn.
    { destruct Hl2; [done|lia]. }
    by apply Z.ltb_lt in Hn as ->.
  - assert (match l1 ++ e :: l2 with [] => 2 ^ 64 - 1 | e' :: _ => e'.1 end <= b) as Hn.
    { destruct l1 as [|e1 l1]; simpl; [done|].
      assert (e1.1 <= e.1); [|lia]. apply (sorted_split by_key (e0 :: e1 :: l1) e l2); [done|].
      right. by left. }
    apply Z.ltb_ge in Hn as ->. rewrite andb_false_r. apply IH. by inversion Hs.
Qed.
(** At the greatest block number the loop finds nothing. *)
Lemma at_block_max c l : Forall (λ e, is_u64 e.1) l → at_block c (2 ^ 64 - 1) l = c.
Proof.
  induction 1 as [|e l He Hl IH]; [done|]. simpl.
  assert (2 ^ 64 - 1 >= match l with [] => 2 ^ 64 - 1 | e' :: _ => e'.1 end) as Hn.
  { destruct Hl as [|e' l He' _]; [lia|]. unfold is_u64 in He'. lia. }
  assert ((2 ^ 64 - 1 <? match l with [] => 2 ^ 64 - 1 | e' :: _ => e'.1 end) = false) as ->
    by (apply Z.ltb_ge; lia).
  by rewrite andb_false_r.
Qed.
Lemma agrees_in_force l c m b : agrees l c m → is_u64 b → in_force m b (at_block c b l).
Proof.
  intros [Hs Hm [d0 H0] Hlast Hr] Hb.
  assert (∃ e0, e0 ∈ l ∧ e0.1 = 0) as (e0 & He0 & Hz).
  { rewrite Hm in H0. destruct (last (filter (λ e, e.1 = 0) l)) as [e0|] eqn:E; [|done].
    apply last_filter_split in E as (l1 & l2 & -> & Hz & _). exists e0. split; [|done].
    apply elem_of_app. right. by left. }
  destruct (last_filter_some (λ e, e.1 <= b) l e0 He0) as [e He].
  { unfold is_u64 in Hb. lia. }
  apply last_filter_split in He as (l1 & l2 & El & Heb & Hl2).
  assert (at_block c b l = e.2) as ->.
  { destruct (decide (b < 2 ^ 64 - 1)) as [Hlt|Hge].
    - rewrite El in Hs |- *. by apply (at_block_last _ _ l1 e l2).
    - assert (b = 2 ^ 64 - 1) as -> by (unfold is_u64 in Hb; lia).
      rewrite at_block_max by done.
      assert (l2 = []) as ->.
      { destruct l2 as [|e2 l2]; [done|]. apply Forall_cons in Hl2 as [H2 _].
        rewrite El in Hr. apply Forall_app in Hr as [_ Hr]. apply Forall_cons in Hr as [_ Hr].
        apply Forall_cons in Hr as [Hr _]. unfold is_u64 in Hr. lia. }
      rewrite El, last_snoc in Hlast. simpl in Hlast. congruence. }
  exists e.1. split_and!; [|done|].
  - rewrite Hm. assert (last (filter (λ e', e'.1 = e.1) l) = Some e) as ->; [|done].
    apply last_filter_split. exists l1, l2. split_and!; [done..|].
    eapply Forall_impl; [exact Hl2|]. simpl. intros x Hx. lia.
  - intros k' [d' Hk'] Hkb. rewrite Hm in Hk'.
    destruct (last (filter (λ e, e.1 = k') l)) as [e'|] eqn:E'; [|done].
    apply last_filter_split in E' as (l1' & l2' & El' & He' & _).
    assert (e' ∈ l1 ++ e :: l2) as Hin.
    { rewrite <-El, El'. apply elem_of_app. right. by left. }
    apply elem_of_app in Hin as [Hin|[->|Hin]%elem_of_cons].
    + assert (e'.1 <= e.1); [|lia]. rewrite El in Hs. by apply (sorted_split by_key l1 e l2).
    + lia.
    + rewrite Forall_forall in Hl2. specialize (Hl2 _ Hin). simpl in Hl2. lia.
Qed.

(** ** Updates and restarts keep the agreement *)
Lemma agrees_entry l c m e : agrees l c m → e ∈ l → is_Some (m !! e.1).
Proof.
  intros Ha He. rewrite (ag_map _ _ _ Ha).
  destruct (last_filter_some (λ e', e'.1 = e.1) _ e He) as [e' ->]; [done|]. by eexists.
Qed.
Lemma agrees_first d : agrees [(0, d)] d {[0 := d]}.
Proof.
  split; simpl; [by repeat constructor| |by eexists|done|by apply Forall_singleton].
  intros k. change [?x] with ([] ++ [x]). rewrite filter_snoc. simpl.
  destruct (decide (0 = k)) as [<-|Hk]; [by rewrite lookup_singleton_eq|].
  by rewrite lookup_singleton_ne.
Qed.
Lemma agrees_update n d l c m :
  agrees l c m → is_u64 n → (∀ k, is_Some (m !! k) → k <= n) → agrees (l ++ [(n, d)]) d (<[n := d]> m).
Proof.
  intros Ha Hn Hmax. pose proof (agrees_entry l c m) as Hent.
  destruct Ha as [Hs Hm H0 Hlast Hr]. split; simpl.
  - apply StronglySorted_app. split_and!; [|done|by repeat constructor].
    intros e e' He ->%list_elem_of_singleton. apply Hmax. by apply Hent.
  - intros k. rewrite filter_snoc. simpl. destruct (decide (n = k)) as [<-|Hk].
    + by rewrite lookup_insert_eq, last_snoc.
    + by rewrite lookup_insert_ne, app_nil_r.
  - destruct (decide (n = 0)) as [->|Hn0]; [by rewrite lookup_insert_eq|]. by rewrite lookup_insert_ne.
  - by rewrite last_snoc.
  - apply Forall_app. split; [done|]. by apply Forall_singleton.
Qed.
End in_force.
#[local] Instance by_key_total {X} : Total (by_key (X := X)).
Proof. intros [x ?] [y ?]. unfold by_key. simpl. lia. Qed.
#[local] Instance by_key_trans {X} : Transitive (by_key (X := X)).
Proof. intros [x ?] [y ?] [z ?]. unfold by_key. simpl. lia. Qed.
Lemma sorted_changes_perm m : sorted_changes m ≡ₚ map_to_list m.
Proof. apply merge_sort_Permutation. Qed.
Lemma sorted_changes_sorted m : StronglySorted by_key (sorted_changes m).
Proof. apply Sorted_StronglySorted; [apply _|]. apply Sorted_merge_sort. apply _. Qed.
(** A part of the changes in their order. *)
Definition part {X} (f : stored_config → X) (kv : Z * stored_config) : Z * X := (kv.1, f kv.2).
Lemma part_elem {X} (f : stored_config → X) m k d :
  (k, d) ∈ part f <$> sorted_changes m ↔ ∃ x, m !! k = Some x ∧ d = f x.
Proof.
  rewrite list_elem_of_fmap. split.
  - intros ([k' x] & [= -> ->] & Hkv). rewrite sorted_changes_perm in Hkv.
    apply elem_of_map_to_list in Hkv. eauto.
  - intros (x & Hx & ->). exists (k, x). split; [done|]. rewrite sorted_changes_perm.
    by apply elem_of_map_to_list.
Qed.
Lemma agrees_sorted {X} (f : stored_config → X) m c :
  is_Some (m !! 0) → (∀ k, is_Some (m !! k) → is_u64 k) →
  f <$> (snd <$> last (sorted_changes m)) = Some c → agrees (part f <$> sorted_changes m) c (f <$> m).
Proof.
  intros H0 Hu Hc. split.
  - clear Hc. induction (sorted_changes_sorted m) as [|kv l Hs IH Hl]; [constructor|].
    rewrite fmap_cons. constructor; [done|]. by apply Forall_fmap.
  - clear Hc. intros k. rewrite lookup_fmap. destruct (m !! k) as [x|] eqn:Ek; simpl.
    + destruct (last_filter_some (λ e, e.1 = k) (part f <$> sorted_changes m) (k, f x)) as [[k' d] E];
        [apply part_elem; eauto|done|]. rewrite E. simpl.
      apply last_filter_split in E as (l1 & l2 & El & He & _). simpl in He. subst k'.
      assert ((k, d) ∈ part f <$> sorted_changes m) as (x' & Hx & ->)%part_elem.
      { rewrite El. apply elem_of_app. right. by left. }
      congruence.
    + destruct (last _) as [[k' d]|] eqn:E; [|done].
      apply last_filter_split in E as (l1 & l2 & El & He & _). simpl in He. subst k'.
      assert ((k, d) ∈ part f <$> sorted_changes m) as (x' & Hx & ->)%part_elem.
      { rewrite El. apply elem_of_app. right. by left. }
      congruence.
  - rewrite lookup_fmap. by destruct H0 as [x ->].
  - rewrite fmap_last. rewrite <-Hc. by destruct (last (sorted_changes m)).
  - apply Forall_forall. intros [k d] (x & Hx & _)%part_elem. apply Hu. by eexists.
Qed.

(** ** The numbers of a configuration *)
Definition numbers (e : DposConfigWithBlock) : Z * DPOSConfig := (Blk_n e, (DposConfig e).1).
Definition numbers_of (api : API) : list (Z * DPOSConfig) := map numbers (config_by_block api).
Definition agrees_api (api : API) (m : gmap Z stored_config) : Prop :=
  agrees (numbers_of api) (cfg_dpos (config api)).1 (fst <$> m).
Lemma agrees_api_zero api m : agrees_api api m → is_Some (m !! 0).
Proof. intros [_ _ H0 _ _]. by rewrite lookup_fmap, fmap_is_Some in H0. Qed.
Lemma config_loop_numbers cfg b l :
  (cfg_dpos (config_loop cfg b l)).1 = at_block (cfg_dpos cfg).1 b (map numbers l).
Proof.
  induction l as [|e l IH]; [done|]. cbn [config_loop map at_block numbers fst snd].
  replace (match map numbers l with [] => 2 ^ 64 - 1 | e' :: _ => e'.1 end)
    with (match l with [] => 2 ^ 64 - 1 | e' :: _ => Blk_n e' end) by (by destruct l).
  destruct (_ && _); [done|exact IH].
Qed.
Lemma config_at_numbers s b :
  DPOS (config_at s b) = at_block (cfg_dpos (config (dpos s))).1 b (numbers_of (dpos s)).
Proof. apply config_loop_numbers. Qed.
Lemma replay_numbers cfg l : ∀ api h,
  numbers_of (replay cfg l api h).1 = numbers_of api ++ map (part fst) l ∧
  (cfg_dpos (config (replay cfg l api h).1)).1 =
    match last l with Some kv => kv.2.1 | None => (cfg_dpos (config api)).1 end.
Proof.
  induction l as [|[k d] l IH]; intros api h; [by rewrite app_nil_r|]. cbn [replay].
  unfold decode_config. destruct (decodeListSlice d.2 (cfg_dpos cfg).2 h) as [s h'].
  destruct (IH (UpdateConfig k (set_dpos (d.1, s) cfg) api) h') as [E1 E2]. split.
  - rewrite E1. unfold numbers_of, UpdateConfig. cbn [config_by_block]. by rewrite map_app, <-app_assoc.
  - rewrite E2, last_cons. by destruct (last l).
Qed.

(** ** The initial validators *)
(** A slice in an array that exists, with the elements [V]. *)
Definition holds (V : list GenesisValidator) (h : arrays) (s : slice) : Prop :=
  (s_array s < length h)%nat ∧ elements h s = V.
Lemma array_of_app h h' s : (s_array s < length h)%nat → array_of (h ++ h') s = array_of h s.
Proof. intros Hs. unfold array_of. by rewrite lookup_app_l. Qed.
Lemma holds_app V h h' s : holds V h s → holds V (h ++ h') s.
Proof.
  intros [Hs E]. split; [rewrite length_app; lia|]. unfold elements. by rewrite array_of_app.
Qed.
Lemma holds_new V a h n : take n a = V → holds V (h ++ [a]) {| s_array := length h; s_len := n |}.
Proof.
  intros E. split; [rewrite length_app; simpl; lia|]. unfold elements, array_of. simpl.
  by rewrite list_lookup_middle.
Qed.
(** Decoding what the slice holds changes no array that exists. *)
Lemma decodeSliceElems_same room s h l : ∀ before,
  h !! s_array s = Some (before ++ l ++ room) → s_len s = length (before ++ l) →
  ∃ s' h', decodeSliceElems l (length before) s h = (s', h ++ h') ∧ holds (before ++ l) (h ++ h') s'.
Proof.
  induction l as [|x l IH]; intros before Eh Es; cbn [decodeSliceElems].
  - rewrite app_nil_r in Es |- *. cbn [app] in Eh.
    assert (array_of h s = before ++ room) as Ea by (unfold array_of; by rewrite Eh).
    assert (elements h s = before) as Ee by (unfold elements; by rewrite Ea, Es, take_app_length).
    destruct room as [|r room].
    + rewrite app_nil_r in Ea. rewrite Ea, Nat.leb_refl. unfold grow. rewrite Ee, Ea.
      cbn [s_array s_len]. rewrite Es, Nat.leb_refl. cbn [s_array s_len].
      rewrite (proj2 (Nat.ltb_lt _ _)) by lia. do 2 eexists. split; [reflexivity|].
      apply holds_new. by rewrite take_app_length.
    + rewrite (proj2 (Nat.leb_gt _ _)) by (rewrite Ea, length_app; simpl; lia).
      rewrite Es, Nat.leb_refl. cbn [s_array s_len].
      rewrite (proj2 (Nat.ltb_lt _ _)) by lia.
      exists {| s_array := s_array s; s_len := length before |}, []. rewrite app_nil_r.
      split; [done|]. split; [by eapply lookup_lt_Some|].
      unfold elements. cbn [s_len]. change (array_of h _) with (array_of h s).
      by rewrite Ea, take_app_length.
  - assert (array_of h s = before ++ (x :: l) ++ room) as Ea by (unfold array_of; by rewrite Eh).
    rewrite (proj2 (Nat.leb_gt _ _)) by (rewrite Ea, length_app; simpl; lia).
    rewrite Es, (proj2 (Nat.leb_gt _ _)) by (rewrite length_app; simpl; lia).
    rewrite (list_insert_id (array_of h s)) by (rewrite Ea; by apply list_lookup_middle).
    rewrite list_insert_id by (by rewrite Eh, Ea).
    replace (S (length before)) with (length (before ++ [x])) by (rewrite length_app; simpl; lia).
    replace (before ++ x :: l) with ((before ++ [x]) ++ l) by (by rewrite <-app_assoc).
    apply IH; [by rewrite Eh, <-app_assoc|]. rewrite Es, <-app_assoc. done.
Qed.
Lemma decode_config_same V room d s h n :
  h !! s_array s = Some (V ++ room) → s_len s = length V → d.2 = V →
  ∃ s' h', decode_config d (n, s) h = ((d.1, s'), h ++ h') ∧ holds V (h ++ h') s'.
Proof.
  intros Eh Es Ed. unfold decode_config, decodeListSlice. rewrite Ed. cbn [snd].
  destruct V as [|x V].
  - do 2 eexists. split; [reflexivity|]. by apply holds_new.
  - destruct (decodeSliceElems_same room s h (x :: V) [] Eh Es) as (s' & h' & E & Hs').
    cbn [length app] in E, Hs'. rewrite E. eauto.
Qed.
Lemma replay_validators V room cfg l : ∀ api h,
  h !! s_array (cfg_dpos cfg).2 = Some (V ++ room) → s_len (cfg_dpos cfg).2 = length V →
  Forall (λ kv, kv.2.2 = V) l → Forall (λ e, holds V h (DposConfig e).2) (config_by_block api) →
  holds V h (cfg_dpos (config api)).2 →
  let '(api, h) := replay cfg l api h in
  Forall (λ e, holds V h (DposConfig e).2) (config_by_block api) ∧ holds V h (cfg_dpos (config api)).2.
Proof.
  induction l as [|[k d] l IH]; intros api h Eh Es Hl He Hc; [done|]. cbn [replay].
  apply Forall_cons in Hl as [Hd Hl]. destruct (cfg_dpos cfg) as [n s] eqn:Ec.
  destruct (decode_config_same V room d s h n Eh Es Hd) as (s' & h' & -> & Hs').
  apply IH; [by apply lookup_app_l_Some|done|done| |done].
  apply Forall_app. split; [|by apply Forall_singleton].
  eapply Forall_impl; [exact He|]. intros e. apply holds_app.
Qed.
Lemma config_loop_validators V h cfg b l :
  Forall (λ e, holds V h (DposConfig e).2) l → holds V h (cfg_dpos cfg).2 →
  elements h (cfg_dpos (config_loop cfg b l)).2 = V.
Proof.
  induction 1 as [|e l He Hl IH]; intros Hc; [apply Hc|]. cbn [config_loop].
  destruct (_ && _); [apply He|by apply IH].
Qed.

(** ** The life of a node *)
(** What [API_Init] leaves. *)
Lemma API_Init_config cfg api : API_Init cfg new_api = (Ret tt, api) →
  config_by_block api = [] ∧ config api = cfg.
Proof.
  unfold API_Init, assert_holds. intros E. cbv zeta in E.
  repeat match type of E with (panic_if ?b _ ≫= _) _ = _ =>
    destruct b; [discriminate E|]; cbn [panic_if] in E; rewrite bind_ret_l in E end.
  apply bind_ret_inv in E as (x & s & Ex & E). unfold of_outcome in Ex. simplify_eq.
  by cbv [set_config] in E; simplify_eq.
Qed.

(** A change takes effect at the next block, after the blocks of the earlier changes: since the
    node started it has ended a block at least. *)
Inductive node_step : relation StateAPI :=
| node_update cfg room s :
    LastBlockNum s + 1 < 2 ^ 64 → (∀ k, is_Some (changes s !! k) → k <= LastBlockNum s + 1) →
    node_step s (StateAPI_UpdateConfig cfg room s)
| node_end_block n s : 0 <= n → node_step s (end_block n s)
| node_restart cfg room s s' : StateAPI_Init cfg room (changes s) = Ret s' → node_step s s'.

Record node_ok (s : StateAPI) : Prop := {
  no_agrees : agrees_api (dpos s) (changes s);
  no_blocks : ∀ k, is_Some (changes s !! k) → is_u64 k;
  no_last : 0 <= LastBlockNum s
}.
Lemma agrees_replay cfg api m h :
  config_by_block api = [] → is_Some (m !! 0) → (∀ k, is_Some (m !! k) → is_u64 k) →
  agrees_api (replay cfg (sorted_changes m) api h).1 m.
Proof.
  intros Hnil H0 Hu. destruct (replay_numbers cfg (sorted_changes m) api h) as [E Ec].
  unfold agrees_api. rewrite E, Ec. unfold numbers_of. rewrite Hnil.
  apply agrees_sorted; [done..|].
  destruct (last (sorted_changes m)) as [kv|] eqn:El; [done|].
  apply last_None in El. destruct H0 as [d Hd]. apply elem_of_map_to_list in Hd.
  rewrite <-sorted_changes_perm, El in Hd. by apply not_elem_of_nil in Hd.
Qed.
Lemma init_ok cfg room db s :
  StateAPI_Init cfg room db = Ret s → (db = ∅ ∨ is_Some (db !! 0)) →
  (∀ k, is_Some (db !! k) → is_u64 k) → node_ok s ∧ (is_Some (db !! 0) → changes s = db).
Proof.
  unfold StateAPI_Init, new_config. intros E H0 Hu. set (mc := {| cfg_rest := cfg |}) in E.
  destruct (API_Init mc new_api) as [[[]|e|p] api] eqn:Ei; [|done..].
  destruct (API_Init_config _ _ Ei) as [Hnil Hcfg].
  case_bool_decide as Hdb.
  - simplify_eq. apply map_to_list_empty_iff in Hdb as ->. split; [|by intros [? ?%lookup_empty_Some]].
    split; simpl; [|intros k [d Hd]|done].
    + unfold agrees_api, numbers_of, UpdateConfig. cbn [config_by_block config]. rewrite Hnil.
      rewrite insert_empty, map_fmap_singleton. apply agrees_first.
    + apply lookup_insert_Some in Hd as [[<- _]|[_ Hd]]; [done|]. by apply Hu; eexists.
  - pose proof (agrees_replay mc api db ([] ++ [InitialValidators cfg ++ room]) Hnil) as Hr.
    destruct (replay mc (sorted_changes db) api _) as [api' h']. simplify_eq. split; [|done].
    split; simpl; [|done|done]. apply Hr; [|done].
    destruct H0 as [->|H0]; [|done]. by rewrite map_to_list_empty in Hdb.
Qed.
Lemma step_ok s s' : node_step s s' → node_ok s → node_ok s'.
Proof.
  intros Hstep [Ha Hb Hl]. destruct Hstep as [cfg room s Hn Hmax|n s Hn|cfg room s s' E].
  - assert (is_u64 (LastBlockNum s + 1)) as Hu by (unfold is_u64; lia).
    unfold StateAPI_UpdateConfig, new_config. rewrite u64_id by done.
    split; simpl; [|intros k [d Hd]|done].
    + unfold agrees_api, numbers_of, UpdateConfig. cbn [config_by_block config].
      rewrite map_app, fmap_insert. eapply agrees_update; [exact Ha|done|].
      intros k. rewrite lookup_fmap, fmap_is_Some. apply Hmax.
    + apply lookup_insert_Some in Hd as [[<- _]|[_ Hd]]; [done|]. by apply Hb; eexists.
  - split; [done..|exact Hn].
  - eapply init_ok; [exact E| |done]. right.
    by eapply agrees_api_zero.
Qed.
(** Where every change has the validators of the configuration given, they stay. *)
Lemma init_validators cfg room db s b :
  StateAPI_Init cfg room db = Ret s → db ≠ ∅ →
  (∀ k d, db !! k = Some d → d.2 = InitialValidators cfg) →
  InitialValidators (config_at s b) = InitialValidators cfg.
Proof.
  unfold StateAPI_Init, new_config. intros E Hne Hv. set (mc := {| cfg_rest := cfg |}) in E.
  destruct (API_Init mc new_api) as [[[]|e|p] api] eqn:Ei; [|done..].
  destruct (API_Init_config _ _ Ei) as [Hnil Hcfg].
  case_bool_decide as Hdb; [by apply map_to_list_empty_iff in Hdb|].
  pose proof (replay_validators (InitialValidators cfg) room mc (sorted_changes db) api
    ([] ++ [InitialValidators cfg ++ room]) eq_refl eq_refl) as Hr.
  destruct (replay mc (sorted_changes db) api _) as [api' h']. simplify_eq.
  destruct Hr as [He Hc].
  - apply Forall_forall. intros [k d] Hkv. rewrite sorted_changes_perm in Hkv.
    by apply elem_of_map_to_list, Hv in Hkv.
  - by rewrite Hnil.
  - rewrite Hcfg. apply (holds_new _ _ []). by rewrite take_app_length.
  - by apply config_loop_validators.
Qed.

(** C25: config_survives_restart.  A node that has started, whose updates each take effect after
    the earlier ones, and that may have restarted in between, answers [GetConfigByBlockNum] for
    every block with the numbers of the last change at or before the block, and so does the node
    restarted on its database, whatever configuration it is started with.  The initial validators
    it then answers are those of that configuration when every change stored has the same: the
    restart decodes all changes into the one array of the configuration given. *)
Theorem config_survives_restart cfg0 room0 s0 s cfg room s' b :
  StateAPI_Init cfg0 room0 ∅ = Ret s0 → rtc node_step s0 s →
  StateAPI_Init cfg room (changes s) = Ret s' → is_u64 b →
  in_force (fst <$> changes s) b (DPOS (config_at s b)) ∧
  DPOS (config_at s' b) = DPOS (config_at s b) ∧
  ((∀ k d, changes s !! k = Some d → d.2 = InitialValidators cfg) →
   InitialValidators (config_at s' b) = InitialValidators cfg).
Proof.
  intros E0 Hsteps E Hb.
  assert (node_ok s) as Hs.
  { assert (node_ok s0) as H0.
    { apply (init_ok cfg0 room0 ∅ s0); [done|by left|]. by intros k [? ?%lookup_empty_Some]. }
    clear E0 E. induction Hsteps as [|s1 s2 s3 H12 _ IH]; [done|]. apply IH. by eapply step_ok. }
  assert (is_Some (changes s !! 0)) as H0.
  { eapply agrees_api_zero, Hs. }
  destruct (init_ok cfg room (changes s) s') as [Hs' Hc]; [done|by right|apply Hs|].
  specialize (Hc H0).
  assert (in_force (fst <$> changes s) b (DPOS (config_at s b))) as Hf.
  { rewrite config_at_numbers. apply agrees_in_force; [apply Hs|done]. }
  split_and!; [done| |].
  - eapply in_force_unique; [|done]. rewrite <-Hc, config_at_numbers.
    apply agrees_in_force; [apply Hs'|done].
  - intros Hv. eapply init_validators; [done| |done]. intros E1. rewrite E1 in H0.
    by destruct H0 as [? ?%lookup_empty_Some].
Qed.
