(* ===== verification/DposApiExamples.v ===== *)
(** The configuration by block on a small chain: the evaluation of its property, and an update
    that a node which has just restarted files under a block long past. *)
From S2P Require Import Prelude DposData YieldCurve DposApi DposExamples.

(** Two later configurations of the chain. *)
Definition with_minimum_deposit (n : Z) (cfg : ChainConfig) : ChainConfig :=
  let d := DPOS cfg in
  with_dpos ({| EligibilityBalanceThreshold := EligibilityBalanceThreshold d;
    VoteEligibilityBalanceStep := VoteEligibilityBalanceStep d;
    ValidatorMaximumStake := ValidatorMaximumStake d; MinimumDeposit := n;
    MaxBlockAuthorReward := MaxBlockAuthorReward d; DagProposersReward := DagProposersReward d;
    CommissionChangeDelta := CommissionChangeDelta d;
    CommissionChangeFrequency := CommissionChangeFrequency d;
    DelegationDelay := DelegationDelay d; DelegationLockingPeriod := DelegationLockingPeriod d;
    BlocksPerYear := BlocksPerYear d; TrxMinGasPrice := TrxMinGasPrice d;
    TrxMaxGasLimit := TrxMaxGasLimit d |}, InitialValidators cfg) cfg.
Definition first_change : ChainConfig := with_minimum_deposit 20 chain.
Definition second_change : ChainConfig := with_minimum_deposit 30 chain.

Definition start_with (room : list GenesisValidator) (cfg : ChainConfig) (db : gmap Z stored_config)
    : StateAPI :=
  match StateAPI_Init cfg room db with
  | Ret s => s
  | _ => {| dpos := new_api; memory := []; changes := ∅; state_config := config new_api;
            LastBlockNum := 0 |}
  end.
Definition start : ChainConfig → gmap Z stored_config → StateAPI := start_with [].
Definition node_0 : StateAPI := start chain ∅.
Definition node_100 : StateAPI := StateAPI_UpdateConfig first_change [] (end_block 100 node_0).
Definition node_200 : StateAPI := StateAPI_UpdateConfig second_change [] (end_block 200 node_100).
Definition deposit_at (s : StateAPI) (b : Z) : Z :=
  MinimumDeposit (DPOS (config_at s b)).

Definition blocks_below_b {X} (m : gmap Z X) (n : Z) : bool :=
  forallb (λ kv, kv.1 <=? n) (map_to_list m).
Lemma blocks_below {X} (m : gmap Z X) n : blocks_below_b m n = true → ∀ k, is_Some (m !! k) → k <= n.
Proof.
  unfold blocks_below_b. rewrite forallb_forall. intros Hall k [d Hd].
  apply elem_of_map_to_list, list_elem_of_In, Hall in Hd. simpl in Hd. lia.
Qed.

Lemma all_validators n v (m : gmap Z stored_config) :
  (λ kv, kv.2.2) <$> map_to_list m = replicate n v → ∀ k d, m !! k = Some d → d.2 = v.
Proof.
  intros E k d Hd. apply elem_of_map_to_list in Hd.
  assert (d.2 ∈ replicate n v) as [? _]%elem_of_replicate; [|done].
  rewrite <-E. by apply (list_elem_of_fmap_2 (λ kv, kv.2.2) _ (k, d)).
Qed.

Lemma config_survives_restart_witness :
  DPOS (config_at (start chain (changes node_200)) 150) = DPOS (config_at node_200 150) ∧
  InitialValidators (config_at (start chain (changes node_200)) 150) = InitialValidators chain ∧
  map (deposit_at node_200) [100; 101; 200; 201; 2 ^ 64 - 1] = [10; 20; 20; 30; 30].
Proof.
  destruct (config_survives_restart chain [] node_0 node_200 chain [] (start chain (changes node_200)) 150)
    as (_ & Hn & Hv).
  - vm_compute. reflexivity.
  - apply (rtc_l _ _ (end_block 100 node_0)); [by apply node_end_block|].
    apply (rtc_l _ _ node_100).
    { apply node_update; [reflexivity|]. apply blocks_below. vm_compute. reflexivity. }
    apply (rtc_l _ _ (end_block 200 node_100)); [by apply node_end_block|].
    apply rtc_once, node_update; [reflexivity|]. apply blocks_below. vm_compute. reflexivity.
  - vm_compute. reflexivity.
  - split; [done|reflexivity].
  - split; [exact Hn|]. split; [|vm_compute; reflexivity].
    apply Hv, (all_validators 3). vm_compute. reflexivity.
Defined.

(** restart_mixes_validators.  Two changes of the initial validators, by the second of which the
    first entry is replaced, and a configuration of one validator that was itself decoded, in an
    array of four: after a restart the reader of a block at which the first change was in force
    finds the validators of the second. *)
Definition three_more : list GenesisValidator := replicate 3 zero_validator.
Definition with_validators (v : list GenesisValidator) (cfg : ChainConfig) : ChainConfig :=
  with_dpos (DPOS cfg, v) cfg.
Definition named (endpoint : bytes) : GenesisValidator := {|
  GV_Address := replicate 20 1; GV_Owner := replicate 20 2; GV_VrfKey := []; GV_Commission := 0;
  GV_Endpoint := endpoint; GV_Description := []; GV_Delegations := [] |}.
Definition one_validator : ChainConfig := with_validators [named [1]] chain.
Definition node_mixed : StateAPI :=
  StateAPI_UpdateConfig (with_validators [named [2]] chain) []
    (end_block 100 (start one_validator ∅)).
Definition names_at (s : StateAPI) (b : Z) : list bytes :=
  map GV_Endpoint (InitialValidators (config_at s b)).
Theorem restart_mixes_validators :
  let restarted := start_with three_more one_validator (changes node_mixed) in
  names_at node_mixed 50 = [[1]] ∧
  names_at restarted 50 = [[2]].
Proof. vm_compute. split; reflexivity. Qed.

(** update_after_restart_misfiled.  [LastBlockNum] is not restored at start-up, so an update
    that reaches a node after a restart and before the end of its next block is filed under
    block 1 instead of the next one: the node answers with it from the last change on, but once
    it restarts again the update is in force in the past, at block 50, and lost for the blocks
    after the earlier change, at block 250. *)
Theorem update_after_restart_misfiled :
  let restarted := start chain (changes (end_block 200 node_100)) in
  let updated := StateAPI_UpdateConfig second_change [] restarted in
  let again := start chain (changes updated) in
  (deposit_at restarted 50, deposit_at restarted 250) = (10, 20) ∧
  (deposit_at updated 50, deposit_at updated 250) = (10, 30) ∧
  (deposit_at again 50, deposit_at again 250) = (30, 20).
Proof. vm_compute. repeat split; reflexivity. Qed.
