(* ===== verification/Uint256.v ===== *)
(** The words of the virtual machine: values of [uint256.Int], as integers of [0, 2^256).  The
    arithmetic of github.com/holiman/uint256 is not code of the repository: it is a class of
    operations, with what the package documents of them as its laws. *)
From S2P Require Import Prelude Codec.

Abbreviation word := Z.

(** ** The methods of [uint256.Int] the virtual machine calls *)
Class Uint256 : Type := {
  U_Add : word → word → word;
  U_Sub : word → word → word;
  U_Mul : word → word → word;
  U_Div : word → word → word;
  U_SDiv : word → word → word;
  U_Mod : word → word → word;
  U_SMod : word → word → word;
  U_Exp : word → word → word;  (** base, exponent *)
  U_ExtendSign : word → word → word;  (** number, byte *)
  U_Not : word → word;
  U_And : word → word → word;
  U_Or : word → word → word;
  U_Xor : word → word → word;
  U_Byte : word → word → word;  (** value, position *)
  U_AddMod : word → word → word → word;
  U_MulMod : word → word → word → word;
  U_Lsh : word → Z → word;
  U_Rsh : word → Z → word;
  U_SRsh : word → Z → word;
  U_Slt : word → word → bool;
  U_Sgt : word → word → bool
}.

(** Two's complement. *)
Definition signed (x : word) : Z := if x <? 2 ^ 255 then x else x - 2 ^ 256.

(** ** What the package documents *)
Class Uint256Laws `{Uint256} : Prop := {
  U_Add_law x y : is_u256 x → is_u256 y → U_Add x y = u256 (x + y);
  U_Sub_law x y : is_u256 x → is_u256 y → U_Sub x y = u256 (x - y);
  U_Mul_law x y : is_u256 x → is_u256 y → U_Mul x y = u256 (x * y);
  U_Div_law x y : is_u256 x → is_u256 y → U_Div x y = if y =? 0 then 0 else x / y;
  U_SDiv_law x y : is_u256 x → is_u256 y →
    U_SDiv x y = if y =? 0 then 0 else u256 (Z.quot (signed x) (signed y));
  U_Mod_law x y : is_u256 x → is_u256 y → U_Mod x y = if y =? 0 then 0 else x mod y;
  U_SMod_law x y : is_u256 x → is_u256 y →
    U_SMod x y = if y =? 0 then 0 else u256 (Z.rem (signed x) (signed y));
  U_Exp_law x y : is_u256 x → is_u256 y → U_Exp x y = u256 (x ^ y);
  U_ExtendSign_law x b : is_u256 x → is_u256 b →
    U_ExtendSign x b =
      if 30 <? b then x
      else let n := 8 * b + 8 in
           if Z.testbit x (n - 1) then u256 (x mod 2 ^ n - 2 ^ n) else x mod 2 ^ n;
  U_Not_law x : is_u256 x → U_Not x = 2 ^ 256 - 1 - x;
  U_And_law x y : is_u256 x → is_u256 y → U_And x y = Z.land x y;
  U_Or_law x y : is_u256 x → is_u256 y → U_Or x y = Z.lor x y;
  U_Xor_law x y : is_u256 x → is_u256 y → U_Xor x y = Z.lxor x y;
  U_Byte_law x n : is_u256 x → is_u256 n →
    U_Byte x n = if 31 <? n then 0 else (x / 2 ^ (8 * (31 - n))) mod 256;
  U_AddMod_law x y m : is_u256 x → is_u256 y → is_u256 m →
    U_AddMod x y m = if m =? 0 then 0 else (x + y) mod m;
  U_MulMod_law x y m : is_u256 x → is_u256 y → is_u256 m →
    U_MulMod x y m = if m =? 0 then 0 else (x * y) mod m;
  U_Lsh_law x n : is_u256 x → 0 <= n → U_Lsh x n = u256 (x * 2 ^ n);
  U_Rsh_law x n : is_u256 x → 0 <= n → U_Rsh x n = x / 2 ^ n;
  U_SRsh_law x n : is_u256 x → 0 <= n → U_SRsh x n = u256 (signed x / 2 ^ n);
  U_Slt_law x y : is_u256 x → is_u256 y → U_Slt x y = (signed x <? signed y);
  U_Sgt_law x y : is_u256 x → is_u256 y → U_Sgt x y = (signed y <? signed x)
}.

(** ** Conversions *)
(** [Uint64WithOverflow]: the low 64 bits, and whether there are others. *)
Definition Uint64WithOverflow (x : word) : Z * bool := (u64 x, 2 ^ 64 <=? x).
Definition BitLen (x : word) : Z := if x =? 0 then 0 else Z.log2 x + 1.
Definition Bytes32 (x : word) : bytes := rev (le_enc 32 x).
Definition Bytes20 (x : word) : bytes := rev (le_enc 20 x).
(** [SetBytes]: big-endian, the last 32 bytes. *)
Definition SetBytes (b : bytes) : word := u256 (be_val b).

Lemma SetBytes_range b : is_u256 (SetBytes b).
Proof. apply u256_range. Qed.
Lemma Bytes32_length x : length (Bytes32 x) = 32%nat.
Proof. unfold Bytes32. by rewrite length_rev, length_le_enc. Qed.
Lemma Bytes20_length x : length (Bytes20 x) = 20%nat.
Proof. unfold Bytes20. by rewrite length_rev, length_le_enc. Qed.
Lemma SetBytes_Bytes32 x : is_u256 x → SetBytes (Bytes32 x) = x.
Proof.
  intros Hx. unfold SetBytes, Bytes32. rewrite be_val_rev, le_dec_enc.
  change (256 ^ Z.of_nat 32) with (2 ^ 256). rewrite (Z.mod_small x) by exact Hx. by apply u256_id.
Qed.
#[export] Hint Resolve SetBytes_range : width.

(** ** The operations stay in range *)
Section range.
Context `{Uint256Laws}.
Implicit Types x y z n : Z.

Lemma signed_range x : is_u256 x → - 2 ^ 255 <= signed x < 2 ^ 255.
Proof. intros Hx. unfold signed. unfold is_u256 in Hx. destruct (Z.ltb_spec x (2 ^ 255)); lia. Qed.
Lemma signed_u256 x : is_u256 x → u256 (signed x) = x.
Proof.
  intros Hx. unfold signed. unfold is_u256 in Hx. destruct (Z.ltb_spec x (2 ^ 255)); [by apply u256_id|].
  unfold u256. rewrite <-(Z.mod_small x (2 ^ 256)) at 2 by lia.
  rewrite <-(Z.mod_add (x - 2 ^ 256) 1) by lia. f_equal. lia.
Qed.
Lemma is_u256_lt a b : a < 2 ^ 256 → is_u256 b → 0 <= a → is_u256 a.
Proof. intros. split; lia. Qed.
Lemma bits_range x : 0 <= x → (∀ i, 256 <= i → Z.testbit x i = false) → is_u256 x.
Proof.
  intros Hx Hb. split; [done|]. destruct (Z.eq_dec x 0) as [->|]; [done|].
  apply Z.log2_lt_pow2; [lia|]. destruct (Z.lt_ge_cases (Z.log2 x) 256) as [|Hl]; [done|].
  specialize (Hb _ Hl). by rewrite Z.bit_log2 in Hb by lia.
Qed.
Lemma high_bit x i : is_u256 x → 256 <= i → Z.testbit x i = false.
Proof.
  intros [Hx Hb] Hi. destruct (Z.eq_dec x 0) as [->|]; [apply Z.bits_0|].
  apply Z.bits_above_log2; [done|]. apply Z.lt_le_trans with 256; [|done].
  apply Z.log2_lt_pow2; lia.
Qed.
Lemma mod_range x m : is_u256 m → m ≠ 0 → is_u256 (x mod m).
Proof. intros [? ?] ?. pose proof (Z.mod_pos_bound x m ltac:(lia)). unfold is_u256. lia. Qed.
Lemma div_range x y : is_u256 x → 0 < y → is_u256 (x / y).
Proof.
  intros [? ?] ?. split; [by apply Z.div_pos|]. apply Z.le_lt_trans with x; [|done].
  apply Z.div_le_upper_bound; nia.
Qed.


Lemma U_Add_range x y : is_u256 x → is_u256 y → is_u256 (U_Add x y).
Proof. intros. rewrite U_Add_law by done. apply u256_range. Qed.
Lemma U_Sub_range x y : is_u256 x → is_u256 y → is_u256 (U_Sub x y).
Proof. intros. rewrite U_Sub_law by done. apply u256_range. Qed.
Lemma U_Mul_range x y : is_u256 x → is_u256 y → is_u256 (U_Mul x y).
Proof. intros. rewrite U_Mul_law by done. apply u256_range. Qed.
Lemma U_Exp_range x y : is_u256 x → is_u256 y → is_u256 (U_Exp x y).
Proof. intros. rewrite U_Exp_law by done. apply u256_range. Qed.
Lemma U_Div_range x y : is_u256 x → is_u256 y → is_u256 (U_Div x y).
Proof.
  intros Hx Hy. rewrite U_Div_law by done. destruct (Z.eqb_spec y 0); [done|].
  apply div_range; [done|]. unfold is_u256 in Hy. lia.
Qed.
Lemma U_Mod_range x y : is_u256 x → is_u256 y → is_u256 (U_Mod x y).
Proof. intros. rewrite U_Mod_law by done. destruct (Z.eqb_spec y 0); [done|by apply mod_range]. Qed.
Lemma U_SDiv_range x y : is_u256 x → is_u256 y → is_u256 (U_SDiv x y).
Proof. intros. rewrite U_SDiv_law by done. destruct (_ =? _); [done|apply u256_range]. Qed.
Lemma U_SMod_range x y : is_u256 x → is_u256 y → is_u256 (U_SMod x y).
Proof. intros. rewrite U_SMod_law by done. destruct (_ =? _); [done|apply u256_range]. Qed.
Lemma U_ExtendSign_range x b : is_u256 x → is_u256 b → is_u256 (U_ExtendSign x b).
Proof.
  intros Hx Hb. rewrite U_ExtendSign_law by done. destruct (Z.ltb_spec 30 b); [done|].
  cbv zeta. destruct (Z.testbit _ _); [apply u256_range|]. unfold is_u256 in *.
  assert (0 < 2 ^ (8 * b + 8)) by (apply Z.pow_pos_nonneg; lia).
  pose proof (Z.mod_pos_bound x (2 ^ (8 * b + 8)) ltac:(done)).
  assert (2 ^ (8 * b + 8) <= 2 ^ 256) by (apply Z.pow_le_mono_r; lia). lia.
Qed.
Lemma U_Not_range x : is_u256 x → is_u256 (U_Not x).
Proof. intros. rewrite U_Not_law by done. unfold is_u256 in *. lia. Qed.
Lemma U_And_range x y : is_u256 x → is_u256 y → is_u256 (U_And x y).
Proof.
  intros Hx Hy. rewrite U_And_law by done. apply bits_range.
  - apply Z.land_nonneg. left. by apply Hx.
  - intros i Hi. by rewrite Z.land_spec, (high_bit x) by done.
Qed.
Lemma U_Or_range x y : is_u256 x → is_u256 y → is_u256 (U_Or x y).
Proof.
  intros Hx Hy. rewrite U_Or_law by done. apply bits_range.
  - apply Z.lor_nonneg. split; [apply Hx|apply Hy].
  - intros i Hi. by rewrite Z.lor_spec, (high_bit x), (high_bit y) by done.
Qed.
Lemma U_Xor_range x y : is_u256 x → is_u256 y → is_u256 (U_Xor x y).
Proof.
  intros Hx Hy. rewrite U_Xor_law by done. apply bits_range.
  - apply Z.lxor_nonneg. destruct Hx, Hy. lia.
  - intros i Hi. by rewrite Z.lxor_spec, (high_bit x), (high_bit y) by done.
Qed.
Lemma U_Byte_range x n : is_u256 x → is_u256 n → is_u256 (U_Byte x n).
Proof.
  intros. rewrite U_Byte_law by done. destruct (_ <? _); [done|].
  pose proof (Z.mod_pos_bound (x / 2 ^ (8 * (31 - n))) 256 ltac:(lia)). unfold is_u256. lia.
Qed.
Lemma U_AddMod_range x y m : is_u256 x → is_u256 y → is_u256 m → is_u256 (U_AddMod x y m).
Proof. intros. rewrite U_AddMod_law by done. destruct (Z.eqb_spec m 0); [done|by apply mod_range]. Qed.
Lemma U_MulMod_range x y m : is_u256 x → is_u256 y → is_u256 m → is_u256 (U_MulMod x y m).
Proof. intros. rewrite U_MulMod_law by done. destruct (Z.eqb_spec m 0); [done|by apply mod_range]. Qed.
Lemma U_Lsh_range x n : is_u256 x → 0 <= n → is_u256 (U_Lsh x n).
Proof. intros. rewrite U_Lsh_law by done. apply u256_range. Qed.
Lemma U_Rsh_range x n : is_u256 x → 0 <= n → is_u256 (U_Rsh x n).
Proof.
  intros. rewrite U_Rsh_law by done. apply div_range; [done|]. apply Z.pow_pos_nonneg; lia.
Qed.
Lemma U_SRsh_range x n : is_u256 x → 0 <= n → is_u256 (U_SRsh x n).
Proof. intros. rewrite U_SRsh_law by done. apply u256_range. Qed.
End range.
#[export] Hint Resolve U_Add_range U_Sub_range U_Mul_range U_Exp_range U_Div_range U_Mod_range
  U_SDiv_range U_SMod_range U_ExtendSign_range U_Not_range U_And_range U_Or_range U_Xor_range
  U_Byte_range U_AddMod_range U_MulMod_range U_Lsh_range U_Rsh_range U_SRsh_range : width.

(** ** Operations that do what is documented, for the examples *)
Definition documented : Uint256 := {|
  U_Add x y := u256 (x + y); U_Sub x y := u256 (x - y); U_Mul x y := u256 (x * y);
  U_Div x y := if y =? 0 then 0 else x / y;
  U_SDiv x y := if y =? 0 then 0 else u256 (Z.quot (signed x) (signed y));
  U_Mod x y := if y =? 0 then 0 else x mod y;
  U_SMod x y := if y =? 0 then 0 else u256 (Z.rem (signed x) (signed y));
  U_Exp x y := u256 (x ^ y);
  U_ExtendSign x b :=
    if 30 <? b then x
    else let n := 8 * b + 8 in
         if Z.testbit x (n - 1) then u256 (x mod 2 ^ n - 2 ^ n) else x mod 2 ^ n;
  U_Not x := 2 ^ 256 - 1 - x; U_And := Z.land; U_Or := Z.lor; U_Xor := Z.lxor;
  U_Byte x n := if 31 <? n then 0 else (x / 2 ^ (8 * (31 - n))) mod 256;
  U_AddMod x y m := if m =? 0 then 0 else (x + y) mod m;
  U_MulMod x y m := if m =? 0 then 0 else (x * y) mod m;
  U_Lsh x n := u256 (x * 2 ^ n); U_Rsh x n := x / 2 ^ n; U_SRsh x n := u256 (signed x / 2 ^ n);
  U_Slt x y := signed x <? signed y; U_Sgt x y := signed y <? signed x |}.
Lemma documented_laws : @Uint256Laws documented.
Proof. by split. Qed.
