(* ===== verification/EvmMemory.v ===== *)
(** The memory of the virtual machine (core/vm/memory.go, memory_table.go, common.go): a slice
    that grows by words of zeros, taken from a pool shared by the nested calls while it fits
    there and from the heap afterwards.  The memory refines a plain list of bytes. *)
From S2P Require Import Prelude Codec Uint256.

(** ** Slices *)
Definition slice_panic : string := "runtime error: slice bounds out of range".
Definition store_panic : string := "invalid memory: store empty".
(** [s[lo:hi]] of a slice whose backing array, from its first element on, is [l]: the bound is
    the capacity. *)
Definition go_slice (l : bytes) (lo hi : Z) : outcome bytes :=
  if (0 <=? lo) && (lo <=? hi) && (hi <=? Z.of_nat (length l))
  then Ret (take (Z.to_nat (hi - lo)) (drop (Z.to_nat lo) l))
  else Panic slice_panic.
(** [copy] of [v] into [l] from position [off] on, inside of [l]. *)
Definition write_at (off : nat) (v l : bytes) : bytes :=
  take off l ++ take (length l - off) v ++ drop (off + length v) l.
Definition zeros (n : Z) : bytes := replicate (Z.to_nat n) 0.

(** ** common.go *)
Definition calcMemSize `{Uint256} (off l : word) : word := if l =? 0 then 0 else U_Add off l.
(** [toWordSize]: the number of 32-byte words of a size. *)
Definition toWordSize (size : Z) : Z :=
  if 2 ^ 64 - 1 - 31 <? size then (2 ^ 64 - 1) / 32 + 1 else u64 (size + 31) / 32.
(** [common.RightPadBytes] *)
Definition RightPadBytes (b : bytes) (l : Z) : bytes :=
  if l <=? Z.of_nat (length b) then b else b ++ zeros (l - Z.of_nat (length b)).
Definition getData (data : bytes) (start size : Z) : outcome bytes :=
  let length := Z.of_nat (length data) in
  let start := if length <? start then length else start in
  let end_ := u64 (start + size) in
  let end_ := if length <? end_ then length else end_ in
  match go_slice data start end_ with
  | Ret d => Ret (RightPadBytes d (to_int64 size))
  | o => o
  end.
Definition allZero (b : bytes) : bool := forallb (λ x, x =? 0) b.

(** ** memory.go *)
Record MemoryPool : Type := { buf : bytes; reserved : Z }.
(** The bytes of a memory are [len] bytes of the pool's buffer from [pool_offset] on while it
    uses the pool, of [heap] otherwise; the slice is nil, of capacity 0, while [len] is 0. *)
Record Memory : Type := {
  pool_offset : Z;
  using_pool : bool;
  heap : bytes;
  len : Z;
  lastGasCost : Z
}.

(** [MemoryPool.Init] *)
Definition new_pool (capacity : Z) : MemoryPool := {| buf := zeros capacity; reserved := 0 |}.
(** [Memory.Init] of a new memory *)
Definition Init (pool : MemoryPool) : Memory := {|
  pool_offset := reserved pool; using_pool := true; heap := []; len := 0; lastGasCost := 0 |}.

(** The backing array of [m.store] from its first element to its capacity. *)
Definition backing (p : MemoryPool) (m : Memory) : bytes :=
  if len m =? 0 then []
  else if using_pool m then drop (Z.to_nat (pool_offset m)) (buf p) else heap m.
(** [m.store] *)
Definition store (p : MemoryPool) (m : Memory) : bytes := take (Z.to_nat (len m)) (backing p m).
Definition set_backing (b : bytes) (p : MemoryPool) (m : Memory) : MemoryPool * Memory :=
  if using_pool m then
    ({| buf := take (Z.to_nat (pool_offset m)) (buf p) ++ b; reserved := reserved p |}, m)
  else
    (p, {| pool_offset := pool_offset m; using_pool := false; heap := b; len := len m;
           lastGasCost := lastGasCost m |}).

(** [release], to a slice that is nil or as long as the old one at least *)
Definition release_pool (p : MemoryPool) (m : Memory) : MemoryPool :=
  if using_pool m then
    {| buf := write_at (Z.to_nat (pool_offset m)) (zeros (len m)) (buf p);
       reserved := pool_offset m |}
  else p.
Definition release (move_to : bytes) (p : MemoryPool) (m : Memory) : MemoryPool * Memory :=
  (release_pool p m,
   {| pool_offset := pool_offset m; using_pool := false;
      heap := write_at 0 (store p m) move_to; len := Z.of_nat (length move_to);
      lastGasCost := lastGasCost m |}).
Definition Release (p : MemoryPool) (m : Memory) : MemoryPool := (release [] p m).1.

Definition set_len (n : Z) (m : Memory) : Memory := {|
  pool_offset := pool_offset m; using_pool := using_pool m; heap := heap m; len := n;
  lastGasCost := lastGasCost m |}.
Definition set_lastGasCost (n : Z) (m : Memory) : Memory := {|
  pool_offset := pool_offset m; using_pool := using_pool m; heap := heap m; len := len m;
  lastGasCost := n |}.
Definition Resize (size : Z) (p : MemoryPool) (m : Memory) : MemoryPool * Memory :=
  if size <=? len m then (p, m)
  else
    let pool_reserved := pool_offset m + size in
    if using_pool m && (pool_reserved <=? Z.of_nat (length (buf p)))
    then ({| buf := buf p; reserved := pool_reserved |}, set_len size m)
    else release (zeros size) p m.

(** [Set]: [copy(m.store[offset:offset+size], value)] *)
Definition Set_ (offset size : Z) (value : bytes) (p : MemoryPool) (m : Memory)
  : outcome (MemoryPool * Memory) :=
  if size =? 0 then Ret (p, m)
  else if len m <? u64 (offset + size) then Panic store_panic
  else
    match go_slice (backing p m) offset (u64 (offset + size)) with
    | Ret _ =>
        Ret (set_backing (write_at (Z.to_nat offset) (take (Z.to_nat size) value) (backing p m)) p m)
    | Err e => Err e
    | Panic s => Panic s
    end.
Definition Set32 (offset : Z) (val : word) (p : MemoryPool) (m : Memory)
  : outcome (MemoryPool * Memory) :=
  let end_ := u64 (offset + 32) in
  if len m <? end_ then Panic store_panic
  else
    match go_slice (backing p m) offset end_ with
    | Ret _ => Ret (set_backing (write_at (Z.to_nat offset) (Bytes32 val) (backing p m)) p m)
    | Err e => Err e
    | Panic s => Panic s
    end.
(** [m.store[offset] = b], of MSTORE8 *)
Definition set_byte (offset b : Z) (p : MemoryPool) (m : Memory) : outcome (MemoryPool * Memory) :=
  if offset <? len m
  then Ret (set_backing (write_at (Z.to_nat offset) [b] (backing p m)) p m)
  else Panic index_panic.
(** [GetCopy]; the offset and the size are [int64]. *)
Definition GetCopy (offset size : Z) (p : MemoryPool) (m : Memory) : outcome bytes :=
  if size =? 0 then Ret []
  else if offset <? len m then
    if size <? 0 then Panic "runtime error: makeslice: len out of range"
    else go_slice (backing p m) offset (to_int64 (offset + size))
  else Ret [].
Definition GetPtr (offset size : Z) (p : MemoryPool) (m : Memory) : outcome bytes :=
  if size =? 0 then Ret []
  else if offset <? len m then go_slice (backing p m) offset (to_int64 (offset + size))
  else Ret [].
(** [copy(m.store[dst:], m.store[src:src+len])] *)
Definition Copy (dst src length : Z) (p : MemoryPool) (m : Memory) : outcome (MemoryPool * Memory) :=
  if length =? 0 then Ret (p, m)
  else if len m <? dst then Panic slice_panic
  else
    match go_slice (backing p m) src (u64 (src + length)) with
    | Ret v =>
        Ret (set_backing (write_at (Z.to_nat dst) (take (Z.to_nat (len m - dst)) v) (backing p m)) p m)
    | Err e => Err e
    | Panic s => Panic s
    end.

(** ** Lists *)
Lemma length_zeros n : length (zeros n) = Z.to_nat n.
Proof. apply length_replicate. Qed.
Lemma zeros_app a b : 0 <= a → 0 <= b → zeros a ++ zeros b = zeros (a + b).
Proof. intros. unfold zeros. by rewrite <-replicate_add, Z2Nat.inj_add. Qed.
Lemma length_write_at off v l : (off <= length l)%nat → length (write_at off v l) = length l.
Proof.
  intros Ho. unfold write_at. rewrite !length_app, length_drop, !length_take. lia.
Qed.
Lemma write_at_nil off l : write_at off [] l = l.
Proof.
  unfold write_at. rewrite take_nil. simpl. by rewrite Nat.add_0_r, take_drop.
Qed.
Lemma lookup_app_dec {A} (l1 l2 : list A) i :
  (l1 ++ l2) !! i = if decide (i < length l1)%nat then l1 !! i else l2 !! (i - length l1)%nat.
Proof. case_decide; [by rewrite lookup_app_l|rewrite lookup_app_r by lia; done]. Qed.
Lemma lookup_zeros n i : zeros n !! i = if decide (i < Z.to_nat n)%nat then Some 0 else None.
Proof.
  unfold zeros. case_decide; [by apply lookup_replicate_2|]. apply lookup_ge_None_2.
  rewrite length_replicate. lia.
Qed.
Lemma lookup_write_at off v l i :
  (off <= length l)%nat →
  write_at off v l !! i =
    if decide (off <= i < off + length v ∧ i < length l)%nat then v !! (i - off)%nat else l !! i.
Proof.
  intros Ho. unfold write_at.
  rewrite !lookup_app_dec, !length_take, !lookup_take, lookup_drop.
  repeat case_decide; try lia; try (f_equal; lia).
  destruct (decide (i < length l)%nat); [f_equal; lia|].
  rewrite !lookup_ge_None_2; [done|lia|lia].
Qed.
(** Decide an equation of lists position by position. *)
Ltac list_positions :=
  apply list_eq; intros ?;
  repeat first
    [ rewrite lookup_app_dec | rewrite lookup_write_at by (rewrite ?length_app, ?length_take, ?length_drop, ?length_zeros; lia)
    | rewrite lookup_take | rewrite lookup_drop | rewrite lookup_zeros ];
  rewrite ?length_app, ?length_take, ?length_drop, ?length_zeros;
  repeat case_decide; try lia; try done; try (f_equal; lia);
  rewrite ?lookup_ge_None_2 by (rewrite ?length_app, ?length_take, ?length_drop, ?length_zeros; lia);
  try done.
(** A write below [n] is a write to the first [n] bytes. *)
Lemma write_at_take n off v l :
  (off + length v <= n)%nat → (n <= length l)%nat →
  take n (write_at off v l) = write_at off v (take n l).
Proof. intros Hn Hl. list_positions. Qed.
Lemma write_at_drop n off v l :
  (off + length v <= n)%nat → (n <= length l)%nat → drop n (write_at off v l) = drop n l.
Proof. intros Hn Hl. list_positions. Qed.

(** * The memory is a list of bytes *)
(** A pool: what is not reserved is zero. *)
Definition pool_ok (p : MemoryPool) : Prop :=
  0 <= reserved p <= Z.of_nat (length (buf p)) ∧
  drop (Z.to_nat (reserved p)) (buf p) = zeros (Z.of_nat (length (buf p)) - reserved p).
(** The memory at the end of the reserved part of the pool. *)
Record top_memory (p : MemoryPool) (m : Memory) : Prop := {
  tm_offset : 0 <= pool_offset m;
  tm_len : 0 <= len m;
  tm_reserved : reserved p = pool_offset m + (if using_pool m then len m else 0);
  tm_heap : using_pool m = false → Z.of_nat (length (heap m)) = len m
}.
Record memory_at (p0 p : MemoryPool) (m : Memory) (s : bytes) : Prop := {
  ma_pool : pool_ok p;
  ma_top : top_memory p m;
  ma_below : pool_offset m = reserved p0 ∧ length (buf p) = length (buf p0) ∧
    take (Z.to_nat (reserved p0)) (buf p) = take (Z.to_nat (reserved p0)) (buf p0);
  ma_store : store p m = s;
  ma_length : len m = Z.of_nat (length s)
}.

Lemma Init_memory p : pool_ok p → memory_at p p (Init p) [].
Proof.
  intros Hp. split; [done| |done|done|done]. destruct Hp. split; simpl; [lia|lia|lia|done].
Qed.

Section memory.
Context (p0 : MemoryPool).
Abbreviation at_ := (memory_at p0).
Implicit Types (p : MemoryPool) (m : Memory) (s : bytes).

Lemma backing_length p m s :
  at_ p m s → 0 < len m → (Z.to_nat (len m) <= length (backing p m))%nat.
Proof.
  intros [[Hr _] [? ? Ht Hh] _ _ _] Hl. unfold backing. destruct (Z.eqb_spec (len m) 0); [lia|].
  destruct (using_pool m); [rewrite length_drop; lia|]. specialize (Hh eq_refl). lia.
Qed.
Lemma store_slice p m s lo hi :
  at_ p m s → 0 <= lo <= hi → hi <= Z.of_nat (length s) → 0 < Z.of_nat (length s) →
  go_slice (backing p m) lo hi = Ret (take (Z.to_nat (hi - lo)) (drop (Z.to_nat lo) s)).
Proof.
  intros Hm Hlo Hhi Hs. pose proof (ma_length _ _ _ _ Hm) as Hl.
  pose proof (backing_length p m s Hm ltac:(lia)) as Hb. unfold go_slice.
  destruct (Z.leb_spec 0 lo), (Z.leb_spec lo hi), (Z.leb_spec hi (Z.of_nat (length (backing p m))));
    try lia. simpl. f_equal. rewrite <-(ma_store _ _ _ _ Hm). unfold store. list_positions.
Qed.
Lemma write_store p m s off v :
  at_ p m s → (off + length v <= length s)%nat → (0 < length s)%nat →
  at_ (set_backing (write_at off v (backing p m)) p m).1
      (set_backing (write_at off v (backing p m)) p m).2 (write_at off v s).
Proof.
  intros Hm Ho Hs. pose proof (ma_length _ _ _ _ Hm) as Hl.
  pose proof (backing_length p m s Hm ltac:(lia)) as Hb.
  pose proof Hm as [[Hr Hz] [H1 H2 H3 H4] (B1 & B2 & B3) <- _].
  unfold set_backing, store, backing in *. destruct (Z.eqb_spec (len m) 0); [lia|].
  destruct (using_pool m) eqn:Eu; simpl.
  - rewrite length_drop in Hb. assert (length (take (Z.to_nat (pool_offset m)) (buf p) ++
      write_at off v (drop (Z.to_nat (pool_offset m)) (buf p))) = length (buf p)) as Hbuf.
    { rewrite length_app, length_take, length_write_at, length_drop by (rewrite length_drop; lia). lia. }
    split; simpl.
    + split; [simpl; lia|]. simpl. rewrite Hbuf, <-Hz. list_positions.
    + split; [done..|by rewrite Eu|by rewrite Eu].
    + split_and!; [done|lia|]. rewrite <-B3. list_positions.
    + unfold store, backing. destruct (Z.eqb_spec (len m) 0); [lia|]. rewrite Eu. simpl.
      rewrite <-write_at_take by (rewrite ?length_drop; lia). list_positions.
    + rewrite length_write_at by lia. lia.
  - specialize (H4 eq_refl). split; simpl; [by split|split; simpl; [done|done|done|]|done| |].
    + intros _. rewrite length_write_at by lia. lia.
    + unfold store, backing. simpl. destruct (Z.eqb_spec (len m) 0); [lia|].
      apply write_at_take; lia.
    + rewrite length_write_at by lia. lia.
Qed.
Lemma Release_store p m s : pool_ok p0 → at_ p m s → Release p m = p0.
Proof.
  intros [_ Z0] [[Hr Hz] [H1 H2 H3 H4] (B1 & B2 & B3) _ _]. unfold Release, release, release_pool.
  simpl. destruct p as [b r], p0 as [b0 r0], (using_pool m); simpl in *; subst r0.
  - f_equal. subst r. rewrite <-(take_drop (Z.to_nat (pool_offset m)) b0), Z0, <-B3, <-B2.
    apply list_eq; intros i. rewrite lookup_write_at by lia.
    rewrite lookup_app_dec, length_zeros, length_take, lookup_take, !lookup_zeros.
    assert (b !! i = if decide (i < Z.to_nat (pool_offset m + len m))%nat then b !! i
                     else zeros (Z.of_nat (length b) - (pool_offset m + len m)) !!
                          (i - Z.to_nat (pool_offset m + len m))%nat) as Eb.
    { case_decide; [done|]. rewrite <-Hz, lookup_drop. f_equal. lia. }
    repeat case_decide; try lia; try done; rewrite ?Eb; repeat case_decide; try lia; try done.
    all: rewrite ?lookup_zeros; repeat case_decide; try lia; try done.
  - rewrite Z.add_0_r in H3. subst r. f_equal.
    rewrite <-(take_drop (Z.to_nat (pool_offset m)) b0), <-(take_drop (Z.to_nat (pool_offset m)) b).
    by rewrite B3, Z0, <-B2, <-Hz.
Qed.
Lemma Resize_store p m s n :
  pool_ok p0 → at_ p m s → 0 <= n →
  at_ (Resize n p m).1 (Resize n p m).2 (s ++ zeros (n - Z.of_nat (length s))).
Proof.
  intros Hp0 Hm Hn. pose proof Hm as [[Hr Hz] [H1 H2 H3 H4] (B1 & B2 & B3) Es Hl].
  unfold Resize. destruct (Z.leb_spec n (len m)) as [Hle|Hlt].
  { replace (zeros _) with ([] : bytes); [by rewrite app_nil_r|].
    unfold zeros. by replace (Z.to_nat _) with O by lia. }
  destruct (using_pool m && _) eqn:Eu; simpl.
  - apply andb_true_iff in Eu as [Eu Hfit%Z.leb_le]. rewrite Eu in *.
    assert (∀ i, (Z.to_nat (reserved p) <= i < length (buf p))%nat → buf p !! i = Some 0) as Hzero.
    { intros i Hi. assert (drop (Z.to_nat (reserved p)) (buf p) !! (i - Z.to_nat (reserved p))%nat
        = buf p !! i) as <- by (rewrite lookup_drop; f_equal; lia).
      rewrite Hz, lookup_zeros. case_decide; [done|lia]. }
    assert (∀ i, buf p !! i = if decide (i < length (buf p))%nat then buf p !! i else None) as Hout.
    { intros i. case_decide; [done|]. apply lookup_ge_None_2. lia. }
    split; simpl.
    + split; [simpl; lia|]. simpl. apply list_eq; intros i.
      rewrite lookup_drop, lookup_zeros, Hout. repeat case_decide; try lia; [|done]. apply Hzero. lia.
    + by split; simpl; rewrite ?Eu; try lia.
    + done.
    + assert (∀ i, s !! i = if decide (i < Z.to_nat (len m))%nat
                            then buf p !! (Z.to_nat (pool_offset m) + i)%nat else None) as Hs.
      { intros i. rewrite <-Es. unfold store, backing. rewrite Eu, lookup_take.
        case_decide; [|done]. destruct (Z.eqb_spec (len m) 0); [lia|]. apply lookup_drop. }
      unfold store, backing. simpl. rewrite Eu. destruct (Z.eqb_spec n 0); [lia|].
      apply list_eq; intros i.
      rewrite lookup_app_dec, !lookup_take, !lookup_drop, lookup_zeros, Hs.
      repeat case_decide; try lia; try done. apply Hzero. lia.
    + rewrite length_app, length_zeros. lia.
  - pose proof (Release_store p m s Hp0 Hm) as Hrel. unfold Release, release in Hrel. simpl in Hrel.
    rewrite Hrel, Es. split; simpl; [done| |done| |].
    + split; simpl; [lia|lia|lia|]. intros _. by rewrite length_write_at by lia.
    + unfold store, backing. simpl. rewrite length_zeros.
      destruct (Z.eqb_spec (Z.of_nat (Z.to_nat n)) 0); [lia|].
      apply list_eq; intros i.
      rewrite lookup_take, lookup_write_at, lookup_app_dec, !lookup_zeros, length_zeros by lia.
      repeat case_decide; try lia; try done. all: f_equal; lia.
    + rewrite length_app, !length_zeros. lia.
Qed.

Lemma Set_store p m s off size v :
  at_ p m s → 0 <= off → 0 <= size → off + size <= Z.of_nat (length s) < 2 ^ 63 →
  ∃ p' m', Set_ off size v p m = Ret (p', m') ∧
    at_ p' m' (if size =? 0 then s else write_at (Z.to_nat off) (take (Z.to_nat size) v) s).
Proof.
  intros Hm Ho Hs Hb. pose proof (ma_length _ _ _ _ Hm) as Hl. unfold Set_.
  destruct (Z.eqb_spec size 0); [by eauto|]. rewrite u64_id by (unfold is_u64; lia).
  destruct (Z.ltb_spec (len m) (off + size)); [lia|].
  rewrite (store_slice p m s) by (done || lia).
  eexists _, _. split; [by rewrite <-surjective_pairing|]. apply write_store; [done| |lia].
  rewrite length_take. lia.
Qed.
Lemma Set32_store p m s off w :
  at_ p m s → 0 <= off → off + 32 <= Z.of_nat (length s) < 2 ^ 63 →
  ∃ p' m', Set32 off w p m = Ret (p', m') ∧ at_ p' m' (write_at (Z.to_nat off) (Bytes32 w) s).
Proof.
  intros Hm Ho Hb. pose proof (ma_length _ _ _ _ Hm) as Hl. unfold Set32.
  rewrite u64_id by (unfold is_u64; lia). destruct (Z.ltb_spec (len m) (off + 32)); [lia|].
  rewrite (store_slice p m s) by (done || lia).
  eexists _, _. split; [by rewrite <-surjective_pairing|].
  apply write_store; [done| |lia]. rewrite Bytes32_length. lia.
Qed.
Lemma set_byte_store p m s off b :
  at_ p m s → 0 <= off < Z.of_nat (length s) →
  ∃ p' m', set_byte off b p m = Ret (p', m') ∧ at_ p' m' (write_at (Z.to_nat off) [b] s).
Proof.
  intros Hm Ho. pose proof (ma_length _ _ _ _ Hm) as Hl. unfold set_byte.
  destruct (Z.ltb_spec off (len m)); [|lia].
  eexists _, _. split; [by rewrite <-surjective_pairing|].
  apply write_store; [done| |lia]. simpl. lia.
Qed.
Lemma to_int64_id x : 0 <= x < 2 ^ 63 → to_int64 x = x.
Proof.
  intros Hx. unfold to_int64. rewrite u64_id by (unfold is_u64; lia).
  destruct (Z.ltb_spec x (2 ^ 63)); [done|lia].
Qed.
Lemma GetPtr_store p m s off size :
  at_ p m s → 0 <= off → 0 <= size → off + size <= Z.of_nat (length s) < 2 ^ 63 →
  GetPtr off size p m = Ret (take (Z.to_nat size) (drop (Z.to_nat off) s)) ∧
  GetCopy off size p m = Ret (take (Z.to_nat size) (drop (Z.to_nat off) s)).
Proof.
  intros Hm Ho Hs Hb. pose proof (ma_length _ _ _ _ Hm) as Hl. unfold GetPtr, GetCopy.
  destruct (Z.eqb_spec size 0) as [->|]; [done|]. destruct (Z.ltb_spec off (len m)); [|lia].
  destruct (Z.ltb_spec size 0); [lia|]. rewrite to_int64_id, (store_slice p m s) by (done || lia).
  split; do 3 f_equal; lia.
Qed.
Lemma Copy_store p m s dst src n :
  at_ p m s → 0 <= dst → 0 <= src → 0 <= n →
  dst + n <= Z.of_nat (length s) → src + n <= Z.of_nat (length s) < 2 ^ 63 →
  ∃ p' m', Copy dst src n p m = Ret (p', m') ∧
    at_ p' m' (write_at (Z.to_nat dst) (take (Z.to_nat n) (drop (Z.to_nat src) s)) s).
Proof.
  intros Hm Hd Hsr Hn Hb1 Hb2. pose proof (ma_length _ _ _ _ Hm) as Hl. unfold Copy.
  destruct (Z.eqb_spec n 0) as [->|].
  { simpl. rewrite write_at_nil. eauto. }
  destruct (Z.ltb_spec (len m) dst); [lia|]. rewrite u64_id by (unfold is_u64; lia).
  rewrite (store_slice p m s) by (done || lia). replace (src + n - src) with n by lia.
  set (v := take (Z.to_nat n) (drop (Z.to_nat src) s)).
  assert (length v = Z.to_nat n) as Hv by (unfold v; rewrite length_take, length_drop; lia).
  rewrite (take_ge v) by lia. eexists _, _. split; [by rewrite <-surjective_pairing|].
  apply write_store; [done|lia|lia].
Qed.
End memory.

(** ** Programs of memory operations
    What the frames of a transaction do to their memories: the frame on the top of the stack of
    calls works, calls another frame, which starts with an empty memory, or returns. *)
Inductive memory_op : Type :=
| OpEnter
| OpLeave
| OpResize (size : Z)
| OpSet (offset size : Z) (value : bytes)
| OpSet32 (offset : Z) (val : word)
| OpSetByte (offset b : Z)
| OpCopy (dst src length : Z)
| OpGet (offset size : Z).

(** The operations on the pool and the stack of memories, with what the reads return. *)
Definition memories : Type := MemoryPool * list Memory.
Definition on_top (f : MemoryPool → Memory → outcome (MemoryPool * Memory)) (x : memories)
  : outcome (memories * bytes) :=
  match x.2 with
  | m :: ms =>
      match f x.1 m with
      | Ret (p, m) => Ret ((p, m :: ms), [])
      | Err e => Err e
      | Panic s => Panic s
      end
  | [] => Panic index_panic
  end.
Definition run_op (o : memory_op) (x : memories) : outcome (memories * bytes) :=
  match o with
  | OpEnter => Ret ((x.1, Init x.1 :: x.2), [])
  | OpLeave =>
      match x.2 with
      | m :: ms => Ret ((Release x.1 m, ms), [])
      | [] => Panic index_panic
      end
  | OpResize size => on_top (λ p m, Ret (Resize size p m)) x
  | OpSet offset size value => on_top (Set_ offset size value) x
  | OpSet32 offset val => on_top (Set32 offset val) x
  | OpSetByte offset b => on_top (set_byte offset b) x
  | OpCopy dst src length => on_top (Copy dst src length) x
  | OpGet offset size =>
      match x.2 with
      | m :: ms =>
          match GetPtr offset size x.1 m with
          | Ret b => Ret (x, b)
          | Err e => Err e
          | Panic s => Panic s
          end
      | [] => Panic index_panic
      end
  end.
Fixpoint run_ops (l : list memory_op) (x : memories) : outcome (memories * list bytes) :=
  match l with
  | [] => Ret (x, [])
  | o :: l =>
      match run_op o x with
      | Ret (x, r) =>
          match run_ops l x with Ret (x, rs) => Ret (x, r :: rs) | Err e => Err e | Panic s => Panic s end
      | Err e => Err e
      | Panic s => Panic s
      end
  end.

(** The operations on a stack of lists of bytes: nothing outside of the list on the top. *)
Definition inside (s : bytes) (offset size : Z) : bool :=
  (0 <=? offset) && (0 <=? size) && (offset + size <=? Z.of_nat (length s)).
Definition write (offset : Z) (v s : bytes) : bytes := write_at (Z.to_nat offset) v s.
Definition read (offset size : Z) (s : bytes) : bytes :=
  take (Z.to_nat size) (drop (Z.to_nat offset) s).
Definition spec_op (o : memory_op) (x : list bytes) : option (list bytes * bytes) :=
  match o, x with
  | OpEnter, _ => Some ([] :: x, [])
  | OpLeave, _ :: x => Some (x, [])
  | OpResize size, s :: x =>
      if (0 <=? size) && (size <? 2 ^ 63)
      then Some ((s ++ zeros (size - Z.of_nat (length s))) :: x, []) else None
  | OpSet offset size value, s :: x =>
      if inside s offset size then Some (write offset (take (Z.to_nat size) value) s :: x, [])
      else None
  | OpSet32 offset val, s :: x =>
      if inside s offset 32 then Some (write offset (Bytes32 val) s :: x, []) else None
  | OpSetByte offset b, s :: x =>
      if inside s offset 1 then Some (write offset [b] s :: x, []) else None
  | OpCopy dst src length, s :: x =>
      if inside s dst length && inside s src length
      then Some (write dst (read src length s) s :: x, []) else None
  | OpGet offset size, s :: x =>
      if inside s offset size then Some (s :: x, read offset size s) else None
  | _, [] => None
  end.
Fixpoint spec_ops (l : list memory_op) (x : list bytes) : option (list bytes * list bytes) :=
  match l with
  | [] => Some (x, [])
  | o :: l =>
      match spec_op o x with
      | Some (x, r) => match spec_ops l x with Some (x, rs) => Some (x, r :: rs) | None => None end
      | None => None
      end
  end.

(** The stack of memories shows the lists; every memory below the top shows its own in the pool
    as it was when the next one was taken from it. *)
Inductive memories_at (p0 : MemoryPool) : MemoryPool → list Memory → list bytes → Prop :=
| memories_nil : memories_at p0 p0 [] []
| memories_cons p1 p m ms s x :
    memories_at p0 p1 ms x → memory_at p1 p m s → Z.of_nat (length s) < 2 ^ 63 →
    memories_at p0 p (m :: ms) (s :: x).
Lemma memories_pool p0 p ms x : pool_ok p0 → memories_at p0 p ms x → pool_ok p.
Proof. intros Hp. by induction 1 as [|? ? ? ? ? ? ? _ Hm]; [|apply Hm]. Qed.

Section programs.
Context (p0 : MemoryPool) (Hp0 : pool_ok p0).
Implicit Types (x : list bytes) (ms : list Memory).

(** A step of the memory on the top. *)
Lemma on_top_at f p ms s x s' :
  memories_at p0 p ms (s :: x) → Z.of_nat (length s') < 2 ^ 63 →
  (∀ p1 m, pool_ok p1 → memory_at p1 p m s →
     ∃ p' m', f p m = Ret (p', m') ∧ memory_at p1 p' m' s') →
  ∃ y, on_top f (p, ms) = Ret (y, []) ∧ memories_at p0 y.1 y.2 (s' :: x).
Proof.
  intros Hx Hs' Hf. inversion Hx as [|p1 ? m ms' ? ? Hms Hm Hs]; subst.
  destruct (Hf p1 m (memories_pool _ _ _ _ Hp0 Hms) Hm) as (p' & m' & E & Hm').
  eexists. unfold on_top. simpl. rewrite E. split; [done|]. by eapply memories_cons.
Qed.
Lemma inside_spec s off n :
  inside s off n = true → 0 <= off ∧ 0 <= n ∧ off + n <= Z.of_nat (length s).
Proof. unfold inside. rewrite !andb_true_iff, !Z.leb_le. tauto. Qed.
Lemma memories_length p ms s x : memories_at p0 p ms (s :: x) → Z.of_nat (length s) < 2 ^ 63.
Proof. by inversion 1. Qed.
Lemma length_write off v s :
  0 <= off <= Z.of_nat (length s) → length (write off v s) = length s.
Proof. intros. apply length_write_at. lia. Qed.

Lemma run_op_at o p ms x x' r :
  memories_at p0 p ms x → spec_op o x = Some (x', r) →
  ∃ y, run_op o (p, ms) = Ret (y, r) ∧ memories_at p0 y.1 y.2 x'.
Proof.
  intros Hx E. destruct o; destruct x as [|s x]; simpl in E; try done.
  1,2: injection E as <- <-; eexists; split; [done|]; simpl; eapply memories_cons;
    [done|apply Init_memory; by eapply memories_pool|done].
  { injection E as <- <-. inversion Hx as [|p1 ? m ms' ? ? Hms Hm Hs]; subst.
    eexists. split; [done|]. simpl. by rewrite (Release_store _ _ _ _ (memories_pool _ _ _ _ Hp0 Hms) Hm). }
  all: pose proof (memories_length _ _ _ _ Hx) as Hl.
  1: destruct (Z.leb_spec 0 size), (Z.ltb_spec size (2 ^ 63)); simpl in E; try done.
  2-6: match type of E with context [if ?b then _ else _] => destruct b eqn:Eb end; [|done].
  2-4,6: apply inside_spec in Eb as (Ho & Hn & Hb).
  6: apply andb_true_iff in Eb as [(Hd & Hn & Hb)%inside_spec (Hsr & _ & Hb')%inside_spec].
  all: injection E as <- <-.
  - apply on_top_at with (s := s); [done|rewrite length_app, length_zeros; lia|].
    intros p1 m Hp1 Hm. eexists _, _. split; [by rewrite <-surjective_pairing|].
    by apply Resize_store.
  - apply on_top_at with (s := s); [done|rewrite length_write; lia|]. intros p1 m Hp1 Hm.
    destruct (Set_store p1 p m s offset size value) as (p' & m' & E & Hm'); [done|lia..|].
    exists p', m'. split; [done|]. unfold write. destruct (Z.eqb_spec size 0) as [->|]; [|done].
    by rewrite take_0, write_at_nil.
  - apply on_top_at with (s := s); [done|rewrite length_write; lia|]. intros p1 m Hp1 Hm.
    by apply Set32_store.
  - apply on_top_at with (s := s); [done|rewrite length_write; lia|]. intros p1 m Hp1 Hm.
    apply set_byte_store; [done|lia].
  - inversion Hx as [|p1 ? m ms' ? ? Hms Hm Hs]; subst. simpl.
    destruct (GetPtr_store p1 p m s offset size) as [-> _]; [done|lia..|]. by eexists.
  - apply on_top_at with (s := s); [done|rewrite length_write; lia|]. intros p1 m Hp1 Hm.
    apply Copy_store; [done|lia..].
Qed.

(** C39: The memories of nested calls, taken from one shared pool and moved to the heap when they
    do not fit, behave as a stack of independent byte lists that grow by zeros: every program of
    calls, returns, resizings, writes, copies and reads inside the current memory runs without a
    panic, reads what the lists hold, and gives the pool back as it was. *)
Theorem memory_refines_bytes l x rs :
  spec_ops l [] = Some (x, rs) →
  ∃ y, run_ops l (p0, []) = Ret (y, rs) ∧ memories_at p0 y.1 y.2 x ∧ (x = [] → y = (p0, [])).
Proof.
  assert (∀ p ms x1, memories_at p0 p ms x1 → spec_ops l x1 = Some (x, rs) →
    ∃ y, run_ops l (p, ms) = Ret (y, rs) ∧ memories_at p0 y.1 y.2 x) as Hrun.
  { revert x rs. induction l as [|o l IH]; intros x rs p ms x1 Hx E; simpl in *.
    - injection E as <- <-. by eexists.
    - destruct (spec_op o x1) as [[x2 r]|] eqn:E1; [|done].
      destruct (spec_ops l x2) as [[x3 rs']|] eqn:E2; [|done]. injection E as <- <-.
      destruct (run_op_at o p ms x1 x2 r Hx E1) as ([p2 ms2] & -> & Hx2).
      simpl in Hx2. destruct (IH _ _ _ _ _ Hx2 E2) as (y & -> & Hy). by eexists. }
  intros E. destruct (Hrun _ _ _ (memories_nil p0) E) as ([p ms] & Hy & Hx).
  eexists. split; [done|]. split; [done|]. intros ->.
  simpl in Hx. by inversion Hx; subst.
Qed.
End programs.
