(* ===== verification/EvmAnalysis.v ===== *)
(** The analysis of jump destinations (core/vm/analysis.go): a bit per byte of the code tells
    the data of push instructions from opcodes.  The analysis marks exactly the bytes that are
    not the start of an instruction. *)
From S2P Require Import Prelude Codec.

Definition PUSH1 : Z := 0x60.
Definition PUSH32 : Z := 0x7f.
Definition JUMPDEST : Z := 0x5b.

(** ** analysis.go *)
Abbreviation bitvec := (list Z).
(** [bits[i] |= b] *)
Definition or_at (i b : Z) (bits : bitvec) : outcome bitvec :=
  match bits !! Z.to_nat i with
  | Some x => Ret (<[Z.to_nat i := Z.lor x b]> bits)
  | None => Panic index_panic
  end.
Definition set (pos : Z) (bits : bitvec) : outcome bitvec :=
  or_at (pos / 8) (Z.shiftr 0x80 (pos mod 8)) bits.
Definition set8 (pos : Z) (bits : bitvec) : outcome bitvec :=
  match or_at (pos / 8) (Z.shiftr 0xFF (pos mod 8)) bits with
  | Ret bits => or_at (pos / 8 + 1) (Z.lxor 0xFF (Z.shiftr 0xFF (pos mod 8))) bits
  | o => o
  end.
Definition codeSegment (bits : bitvec) (pos : Z) : outcome bool :=
  match bits !! Z.to_nat (pos / 8) with
  | Some x => Ret (Z.land x (Z.shiftr 0x80 (pos mod 8)) =? 0)
  | None => Panic index_panic
  end.

(** [for ; numbits >= 8; numbits -= 8] *)
Fixpoint mark8 (n : nat) (pc : Z) (bits : bitvec) : outcome bitvec :=
  match n with
  | O => Ret bits
  | S n => match set8 pc bits with Ret bits => mark8 n (pc + 8) bits | o => o end
  end.
(** [for ; numbits > 0; numbits--] *)
Fixpoint mark1 (n : nat) (pc : Z) (bits : bitvec) : outcome bitvec :=
  match n with
  | O => Ret bits
  | S n => match set pc bits with Ret bits => mark1 n (pc + 1) bits | o => o end
  end.
(** The data of a push of [numbits] bytes. *)
Definition mark (numbits pc : Z) (bits : bitvec) : outcome bitvec :=
  match mark8 (Z.to_nat (numbits / 8)) pc bits with
  | Ret bits => mark1 (Z.to_nat (numbits mod 8)) (pc + 8 * (numbits / 8)) bits
  | o => o
  end.
Definition is_push (op : Z) : bool := (PUSH1 <=? op) && (op <=? PUSH32).
Fixpoint code_loop (fuel : nat) (code : bytes) (pc : Z) (bits : bitvec) : outcome bitvec :=
  match fuel with
  | O => Ret bits
  | S fuel =>
      match code !! Z.to_nat pc with
      | None => Ret bits
      | Some op =>
          if is_push op then
            let numbits := op - PUSH1 + 1 in
            match mark numbits (pc + 1) bits with
            | Ret bits => code_loop fuel code (pc + 1 + numbits) bits
            | o => o
            end
          else code_loop fuel code (pc + 1) bits
      end
  end.
(** Every round of the loop advances: a round for every byte and one to leave are enough. *)
Definition codeBitmap (code : bytes) : outcome bitvec :=
  code_loop (S (length code)) code 0
    (replicate (Z.to_nat (Z.of_nat (length code) / 8 + 1 + 4)) 0).

(** * The bits *)
Definition bit_at (bits : bitvec) (q : Z) : bool :=
  match bits !! Z.to_nat (q / 8) with Some x => Z.testbit x (7 - q mod 8) | None => false end.

Lemma codeSegment_bit bits q :
  0 <= q → (Z.to_nat (q / 8) < length bits)%nat →
  codeSegment bits q = Ret (negb (bit_at bits q)).
Proof.
  intros Hq Hl. unfold codeSegment, bit_at.
  destruct (lookup_lt_is_Some_2 bits (Z.to_nat (q / 8))) as [x ->]; [lia|]. f_equal.
  pose proof (Z.mod_pos_bound q 8 ltac:(lia)) as Hm.
  assert (Z.shiftr 0x80 (q mod 8) = 2 ^ (7 - q mod 8)) as ->.
  { rewrite Z.shiftr_div_pow2 by lia. change 0x80 with (2 ^ 7).
    rewrite <-Z.pow_sub_r by lia. done. }
  set (k := 7 - q mod 8). destruct (Z.testbit x k) eqn:Eb; simpl.
  - apply Z.eqb_neq. intros E. apply (f_equal (λ y, Z.testbit y k)) in E.
    by rewrite Z.land_spec, Eb, Z.pow2_bits_true, Z.bits_0 in E by lia.
  - apply Z.eqb_eq, Z.bits_inj_0. intros i. rewrite Z.land_spec, Z.pow2_bits_eqb by lia.
    destruct (Z.eqb_spec k i) as [->|]; [by rewrite Eb|by rewrite andb_false_r].
Qed.

Lemma or_at_bit i b bits q :
  0 <= i → (Z.to_nat i < length bits)%nat → 0 <= q →
  ∃ bits', or_at i b bits = Ret bits' ∧ length bits' = length bits ∧
    bit_at bits' q = bit_at bits q || bool_decide (q / 8 = i) && Z.testbit b (7 - q mod 8).
Proof.
  intros Hi Hl Hq. unfold or_at, bit_at.
  destruct (lookup_lt_is_Some_2 bits (Z.to_nat i) Hl) as [x Ex]. rewrite Ex.
  eexists. split; [done|]. split; [by rewrite length_insert|].
  pose proof (Z.div_pos q 8 ltac:(done) ltac:(done)).
  destruct (decide (q / 8 = i)) as [<-|Hne].
  - rewrite bool_decide_eq_true_2 by done. rewrite list_lookup_insert_eq by done.
    by rewrite Ex, Z.lor_spec.
  - rewrite bool_decide_eq_false_2 by done. rewrite list_lookup_insert_ne by lia.
    by rewrite orb_false_r.
Qed.

Lemma shiftr_bit m k j : 0 <= k → 0 <= j → Z.testbit (Z.shiftr m k) j = Z.testbit m (j + k).
Proof. intros. by rewrite Z.shiftr_spec. Qed.
Lemma ff_bit i : 0 <= i → Z.testbit 0xFF i = (i <? 8).
Proof.
  intros Hi. change 0xFF with (Z.ones 8). rewrite Z.testbit_ones_nonneg by lia. done.
Qed.
Lemma set_bit pos bits q :
  0 <= pos → (Z.to_nat (pos / 8) < length bits)%nat → 0 <= q →
  ∃ bits', set pos bits = Ret bits' ∧ length bits' = length bits ∧
    bit_at bits' q = bit_at bits q || bool_decide (q = pos).
Proof.
  intros Hp Hl Hq. pose proof (Z.mod_pos_bound q 8 ltac:(lia)). pose proof (Z.mod_pos_bound pos 8 ltac:(lia)).
  destruct (or_at_bit (pos / 8) (Z.shiftr 0x80 (pos mod 8)) bits q) as (bits' & E & Hl' & Hb);
    [by apply Z.div_pos|done|done|].
  exists bits'. split; [done|]. split; [done|]. rewrite Hb. f_equal.
  rewrite shiftr_bit by lia. change 0x80 with (2 ^ 7). rewrite Z.pow2_bits_eqb by lia.
  apply eq_bool_prop_intro. rewrite andb_True, !bool_decide_spec, Is_true_true, Z.eqb_eq.
  pose proof (Z.div_mod q 8 ltac:(lia)). pose proof (Z.div_mod pos 8 ltac:(lia)). intuition lia.
Qed.
Lemma set8_bit pos bits q :
  0 <= pos → (Z.to_nat (pos / 8 + 1) < length bits)%nat → 0 <= q →
  ∃ bits', set8 pos bits = Ret bits' ∧ length bits' = length bits ∧
    bit_at bits' q = bit_at bits q || bool_decide (pos <= q < pos + 8).
Proof.
  intros Hp Hl Hq. pose proof (Z.mod_pos_bound q 8 ltac:(lia)). pose proof (Z.mod_pos_bound pos 8 ltac:(lia)).
  pose proof (Z.div_pos pos 8 Hp ltac:(done)).
  destruct (or_at_bit (pos / 8) (Z.shiftr 0xFF (pos mod 8)) bits q) as (b1 & E1 & L1 & B1);
    [done|lia|done|].
  destruct (or_at_bit (pos / 8 + 1) (Z.lxor 0xFF (Z.shiftr 0xFF (pos mod 8))) b1 q)
    as (b2 & E2 & L2 & B2); [lia|lia|done|].
  exists b2. unfold set8. rewrite E1. split; [done|]. split; [lia|]. rewrite B2, B1.
  rewrite <-orb_assoc. f_equal. rewrite Z.lxor_spec, !shiftr_bit, !ff_bit by lia.
  apply eq_bool_prop_intro.
  rewrite orb_True, !andb_True, !bool_decide_spec, !Is_true_true.
  destruct (Z.ltb_spec (7 - q mod 8) 8); [|lia].
  destruct (Z.ltb_spec (7 - q mod 8 + pos mod 8) 8); simpl.
  all: pose proof (Z.div_mod q 8 ltac:(lia)); pose proof (Z.div_mod pos 8 ltac:(lia)); intuition lia.
Qed.
Lemma mark8_bit n pc bits q :
  0 <= pc → pc + 8 * Z.of_nat n < 8 * Z.of_nat (length bits) → 0 <= q →
  ∃ bits', mark8 n pc bits = Ret bits' ∧ length bits' = length bits ∧
    bit_at bits' q = bit_at bits q || bool_decide (pc <= q < pc + 8 * Z.of_nat n).
Proof.
  revert pc bits. induction n as [|n IH]; intros pc bits Hp Hl Hq; simpl.
  - exists bits. rewrite bool_decide_eq_false_2 by lia. by rewrite orb_false_r.
  - destruct (set8_bit pc bits q) as (b1 & -> & L1 & B1); [done| |done|].
    { pose proof (Z.mul_div_le pc 8 ltac:(lia)). lia. }
    destruct (IH (pc + 8) b1) as (b2 & -> & L2 & B2); [lia|lia|done|].
    exists b2. split; [done|]. split; [lia|]. rewrite B2, B1, <-orb_assoc. f_equal.
    apply eq_bool_prop_intro. rewrite orb_True, !bool_decide_spec. lia.
Qed.
Lemma mark1_bit n pc bits q :
  0 <= pc → pc + Z.of_nat n <= 8 * Z.of_nat (length bits) → 0 <= q →
  ∃ bits', mark1 n pc bits = Ret bits' ∧ length bits' = length bits ∧
    bit_at bits' q = bit_at bits q || bool_decide (pc <= q < pc + Z.of_nat n).
Proof.
  revert pc bits. induction n as [|n IH]; intros pc bits Hp Hl Hq; simpl.
  - exists bits. rewrite bool_decide_eq_false_2 by lia. by rewrite orb_false_r.
  - destruct (set_bit pc bits q) as (b1 & -> & L1 & B1); [done| |done|].
    { apply Nat2Z.inj_lt. rewrite Z2Nat.id by (by apply Z.div_pos).
      apply Z.div_lt_upper_bound; lia. }
    destruct (IH (pc + 1) b1) as (b2 & -> & L2 & B2); [lia|lia|done|].
    exists b2. split; [done|]. split; [lia|]. rewrite B2, B1, <-orb_assoc. f_equal.
    apply eq_bool_prop_intro. rewrite orb_True, !bool_decide_spec. lia.
Qed.
Lemma mark_bit n pc bits q :
  0 <= n → 0 <= pc → pc + n < 8 * Z.of_nat (length bits) → 0 <= q →
  ∃ bits', mark n pc bits = Ret bits' ∧ length bits' = length bits ∧
    bit_at bits' q = bit_at bits q || bool_decide (pc <= q < pc + n).
Proof.
  intros Hn Hp Hl Hq. pose proof (Z.div_mod n 8 ltac:(lia)). pose proof (Z.mod_pos_bound n 8 ltac:(lia)).
  pose proof (Z.div_pos n 8 Hn ltac:(done)). unfold mark.
  destruct (mark8_bit (Z.to_nat (n / 8)) pc bits q) as (b1 & -> & L1 & B1); [done|lia|done|].
  destruct (mark1_bit (Z.to_nat (n mod 8)) (pc + 8 * (n / 8)) b1 q) as (b2 & -> & L2 & B2); [lia|lia|done|].
  exists b2. split; [done|]. split; [lia|]. rewrite B2, B1, <-orb_assoc. f_equal.
  apply eq_bool_prop_intro. rewrite orb_True, !bool_decide_spec. lia.
Qed.

Lemma mark_bits n pc bits :
  0 <= n → 0 <= pc → pc + n < 8 * Z.of_nat (length bits) →
  ∃ bits', mark n pc bits = Ret bits' ∧ length bits' = length bits ∧
    ∀ q, 0 <= q → bit_at bits' q = bit_at bits q || bool_decide (pc <= q < pc + n).
Proof.
  intros Hn Hp Hl. destruct (mark_bit n pc bits 0) as (b & E & Lb & _); [done..|].
  exists b. split_and!; [done|done|]. intros q Hq.
  destruct (mark_bit n pc bits q) as (b' & E' & _ & Hb); [done..|]. congruence.
Qed.

(** * Instructions *)
Definition op_size (op : Z) : Z := if is_push op then 1 + (op - PUSH1 + 1) else 1.
(** The positions at which an instruction starts, from the first on. *)
Inductive op_start (code : bytes) : Z → Prop :=
| op_first : op_start code 0
| op_next pc op : op_start code pc → code !! Z.to_nat pc = Some op → op_start code (pc + op_size op).
Lemma op_size_range op : 1 <= op_size op <= 33.
Proof.
  unfold op_size, is_push, PUSH1, PUSH32.
  destruct (Z.leb_spec 0x60 op), (Z.leb_spec op 0x7f); simpl; lia.
Qed.
Lemma op_start_nonneg code pc : op_start code pc → 0 <= pc.
Proof. induction 1 as [|pc op _ IH _]; [done|]. pose proof (op_size_range op). lia. Qed.
(** No instruction starts inside of another one. *)
Lemma op_start_inside code q pc op :
  op_start code pc → code !! Z.to_nat pc = Some op → op_start code q → pc < q →
  pc + op_size op <= q.
Proof.
  intros Hpc Hop Hq. pose proof (op_start_nonneg _ _ Hq) as Hq0. revert Hq pc op Hpc Hop.
  induction (Z.lt_wf 0 q) as [q _ IH]. intros Hq pc op Hpc Hop Hlt.
  pose proof (op_start_nonneg _ _ Hpc). destruct Hq as [|q opq Hq Hopq]; [lia|].
  pose proof (op_size_range opq). pose proof (op_start_nonneg _ _ Hq).
  destruct (Z.lt_trichotomy pc q) as [Hl|[->|Hg]].
  - pose proof (IH q ltac:(lia) ltac:(lia) Hq pc op Hpc Hop Hl). lia.
  - rewrite Hop in Hopq. by injection Hopq as ->.
  - pose proof (IH pc ltac:(lia) ltac:(lia) Hpc q opq Hq Hopq Hg). lia.
Qed.

(** * The analysis is right *)
Section analysis.
Context (code : bytes).
Implicit Types (bits : bitvec) (pc q : Z).

(** The bits below [pc] tell the data from the starts. *)
Definition marks bits pc : Prop :=
  ∀ q, 0 <= q → q < Z.of_nat (length code) →
    bit_at bits q = false ↔ pc <= q ∨ op_start code q.

Lemma code_loop_marks fuel pc bits :
  op_start code pc → Z.of_nat (length code) + 32 < 8 * Z.of_nat (length bits) → marks bits pc →
  Z.of_nat (length code) - pc < Z.of_nat fuel →
  ∃ bits', code_loop fuel code pc bits = Ret bits' ∧ length bits' = length bits ∧
    marks bits' (Z.of_nat (length code)).
Proof.
  revert pc bits. induction fuel as [|fuel IH]; intros pc bits Hs Hl Hm Hf; simpl.
  - exists bits. split_and!; [done|done|]. intros q Hq Hq'. rewrite (Hm q Hq Hq').
    simpl in Hf. intuition lia.
  - pose proof (op_start_nonneg _ _ Hs) as Hpc.
    destruct (code !! Z.to_nat pc) as [op|] eqn:Eop.
    2: { apply lookup_ge_None in Eop. exists bits. split_and!; [done|done|]. intros q Hq Hq'.
         rewrite (Hm q Hq Hq'). intuition lia. }
    pose proof (op_start_inside code) as Hin. specialize (Hin) with (1 := Hs) (2 := Eop).
    pose proof (op_next code pc op Hs Eop) as Hn. pose proof (op_size_range op) as Hsz.
    apply lookup_lt_Some in Eop. unfold op_size in *.
    destruct (is_push op) eqn:Ep.
    + set (n := op - PUSH1 + 1) in *.
      destruct (mark_bits n (pc + 1) bits) as (b1 & -> & L1 & B1); [lia..|].
      replace (pc + (1 + n)) with (pc + 1 + n) in Hn by lia.
      destruct (IH (pc + 1 + n) b1) as (b2 & -> & L2 & M2); [done|lia| |lia|].
      * intros q Hq Hq'. rewrite (B1 q Hq), orb_false_iff, bool_decide_eq_false, (Hm q Hq Hq').
        split.
        -- intros [[?|?] ?]; [|by right].
           destruct (decide (q = pc)) as [->|]; [by right|left; lia].
        -- intros [?|Hst]; [split; [left|]; lia|]. split; [by right|]. specialize (Hin q Hst). lia.
      * exists b2. split_and!; [done|lia|done].
    + apply IH; [done|lia| |lia]. intros q Hq Hq'. rewrite (Hm q Hq Hq').
      split; [intros [?|?]|intros [?|?]]; [|by right|left; lia|by right].
      destruct (decide (q = pc)) as [->|]; [by right|left; lia].
Qed.

(** The analysis of any code terminates without a panic, and tells a position of the code
    from the data of a push exactly when an instruction starts there, whatever push the code
    ends with. *)
Theorem code_bitmap_marks_data :
  ∃ bits, codeBitmap code = Ret bits ∧
    ∀ q, 0 <= q < Z.of_nat (length code) →
      ∃ b, codeSegment bits q = Ret b ∧ (b = true ↔ op_start code q).
Proof.
  pose proof (Z.div_mod (Z.of_nat (length code)) 8 ltac:(lia)).
  pose proof (Z.mod_pos_bound (Z.of_nat (length code)) 8 ltac:(lia)).
  set (bits0 := replicate (Z.to_nat (Z.of_nat (length code) / 8 + 1 + 4)) 0).
  assert (Z.of_nat (length bits0) = Z.of_nat (length code) / 8 + 5) as L0.
  { unfold bits0. rewrite length_replicate. lia. }
  destruct (code_loop_marks (S (length code)) 0 bits0) as (bits & E & L & Hm);
    [constructor|lia| |lia|].
  { intros q Hq Hq'. split; [by left|intros _]. unfold bit_at, bits0.
    destruct (replicate _ 0 !! _) as [x|] eqn:Ex; [|done].
    apply lookup_replicate in Ex as [-> _]. apply Z.bits_0. }
  exists bits. split; [done|]. intros q [Hq Hq'].
  assert (Z.to_nat (q / 8) < length bits)%nat as Hlt.
  { rewrite L. apply Nat2Z.inj_lt. rewrite Z2Nat.id, L0 by (by apply Z.div_pos).
    pose proof (Z.div_le_mono q (Z.of_nat (length code)) 8). lia. }
  eexists. split; [by apply codeSegment_bit|]. specialize (Hm q Hq Hq').
  destruct (bit_at bits q); simpl; split; intros Hx; try done.
  - by discriminate (proj2 Hm (or_intror Hx)).
  - destruct (proj1 Hm eq_refl) as [?|?]; [lia|done].
Qed.
End analysis.
