(* ===== verification/EvmInterface.v ===== *)
(** What the virtual machine is built on: the constants of core/vm/constants.go and
    gas_table.go, the errors of errors.go, the data of contract.go and evm.go, and the interface
    to the accounts (interface.go), a class of effectful operations on a state [St]. *)
From S2P Require Import Prelude Codec Uint256.

Abbreviation address := (list Z).
Abbreviation hash := (list Z).
Definition ZeroAddress : address := replicate 20 0.

(** ** constants.go *)
Definition CallValueTransferGas : Z := 9000.
Definition CallNewAccountGas : Z := 25000.
Definition TxGas : Z := 21000.
Definition TxGasContractCreation : Z := 53000.
Definition TxDataZeroGas : Z := 4.
Definition TxDataNonZeroGas : Z := 68.
Definition QuadCoeffDiv : Z := 512.
Definition LogDataGas : Z := 8.
Definition LogGas : Z := 375.
Definition LogTopicGas : Z := 375.
Definition CallStipend : Z := 2300.
Definition Keccak256Gas : Z := 30.
Definition Keccak256WordGas : Z := 6.
Definition NetSstoreNoopGas : Z := 200.
Definition NetSstoreInitGas : Z := 20000.
Definition NetSstoreCleanGas : Z := 5000.
Definition NetSstoreDirtyGas : Z := 200.
Definition NetSstoreClearRefund : Z := 15000.
Definition NetSstoreResetRefund : Z := 4800.
Definition NetSstoreResetClearRefund : Z := 19800.
Definition JumpdestGas : Z := 1.
Definition CreateDataGas : Z := 200.
Definition CallCreateDepth : Z := 1024.
Definition StackLimit : Z := CallCreateDepth.
Definition ExpGas : Z := 10.
Definition CopyGas : Z := 3.
Definition CreateGas : Z := 32000.
Definition Create2Gas : Z := 32000.
Definition SuicideRefundGas : Z := 24000.
Definition MemoryGas : Z := 3.
Definition MaxCodeSize : Z := 24576.
(** gas.go *)
Definition GasQuickStep : Z := 2.
Definition GasFastestStep : Z := 3.
Definition GasFastStep : Z := 5.
Definition GasMidStep : Z := 8.
Definition GasSlowStep : Z := 10.
Definition GasExtStep : Z := 20.

(** ** gas_table.go *)
Record GasTable : Type := {
  ExtcodeSize : Z; ExtcodeCopy : Z; ExtcodeHash : Z; Balance : Z; SLoad : Z; Calls : Z;
  Suicide_ : Z; ExpByte : Z; CreateBySuicide : Z; WarmStorageReadCost : Z
}.
Definition GasTableCalifornicum : GasTable := {|
  ExtcodeSize := 700; ExtcodeCopy := 700; ExtcodeHash := 700; Balance := 700; SLoad := 800;
  Calls := 700; Suicide_ := 5000; ExpByte := 50; CreateBySuicide := 25000;
  WarmStorageReadCost := 100 |}.

(** ** errors.go *)
Definition ErrOutOfGas : string := "out of gas".
Definition ErrIntrinsicGas : string := "intrinsic gas too low".
Definition ErrCodeStoreOutOfGas : string := "contract creation code storage out of gas".
Definition ErrDepth : string := "max call depth exceeded".
Definition ErrInsufficientBalanceForTransfer : string := "insufficient balance for transfer".
Definition ErrContractAddressCollision : string := "contract address collision".
Definition ErrInsufficientBalanceForGas : string := "insufficient balance to pay for gas".
Definition ErrNonceTooLow : string := "nonce too low".
Definition ErrWriteProtection : string := "write protection".
Definition ErrReturnDataOutOfBounds : string := "return data out of bounds".
Definition ErrExecutionReverted : string := "execution reverted".
Definition ErrMaxCodeSizeExceeded : string := "max code size exceeded".
Definition errGasUintOverflow : string := "gas uint64 overflow".
Definition ErrInvalidJump : string := "invalid jump destination".
Definition ErrInvalidOpcode : string := "invalid opcode".
Definition ErrStackUnderflow : string := "stack underflow".
Definition ErrStackLimit : string := "stack limit reached".

(** ** common/math *)
Definition SafeAdd (x y : Z) : Z * bool := (u64 (x + y), 2 ^ 64 - 1 - x <? y).
Definition SafeMul (x y : Z) : Z * bool :=
  if (x =? 0) || (y =? 0) then (0, false) else (u64 (x * y), (2 ^ 64 - 1) / x <? y).

(** ** evm.go, contract.go, log_record.go *)
Record Block : Type := {
  Number : Z; Author : address; GasLimit : Z; Time : Z; Difficulty : Z }.
Record Transaction : Type := {
  From : address; GasPrice : Z; To : option address; Nonce : Z; TxValue : Z; TxGasCap : Z;
  TxInput : bytes }.
Record LogRecord : Type := { LogAddress : address; Topics : list hash; LogData : bytes }.
Record CallFrame : Type := {
  CallerAccount : address; Account : address; Input : bytes; Gas : Z; Value : Z }.
Record CodeAndHash : Type := { Code : bytes; CodeHash : option hash }.
Record Contract : Type := {
  Frame : CallFrame; code : CodeAndHash; code_jumpdest_analysis : option (list Z) }.
Definition NewContract (frame : CallFrame) (c : CodeAndHash) : Contract := {|
  Frame := frame; code := c; code_jumpdest_analysis := None |}.
(** [ContractRef]: the account of the caller and, when it is a contract, the contract. *)
Record ContractRef : Type := { ref_account : address; ref_contract : option Contract }.
Inductive call_type : Type := CALL | CALLCODE | DELEGATECALL | STATICCALL.

(** [GetOp]: STOP beyond the end. *)
Definition GetOp (c : Contract) (n : Z) : Z := default 0 (Code (code c) !! Z.to_nat n).
Definition set_gas (g : Z) (c : Contract) : Contract := {|
  Frame := {| CallerAccount := CallerAccount (Frame c); Account := Account (Frame c);
              Input := Input (Frame c); Gas := g; Value := Value (Frame c) |};
  code := code c; code_jumpdest_analysis := code_jumpdest_analysis c |}.
Abbreviation gas_of c := (Gas (Frame c)).

(** ** interface.go
    The operations of [State] and of [StateAccount]; an account is named by its address, and
    [GetAccount] is the step that looks it up. *)
Class EvmState (St : Type) : Type := {
  GetAccount : address → M St unit;
  GetBalance : address → M St Z;
  GetNonce : address → M St Z;
  GetCodeHash : address → M St (option hash);
  GetCode : address → M St bytes;
  GetCodeSize : address → M St Z;
  GetCommittedState : address → Z → M St Z;
  GetState : address → Z → M St Z;
  HasSuicided : address → M St bool;
  IsNIL : address → M St bool;
  IsEIP161Empty : address → M St bool;
  SetCode : address → bytes → M St unit;
  AddBalance : address → Z → M St unit;
  SubBalance : address → Z → M St unit;
  IncrementNonce : address → M St unit;
  SetNonce : address → Z → M St unit;
  SetState : address → Z → Z → M St unit;
  Suicide : address → address → M St unit;
  AddLog : LogRecord → M St unit;
  GetLogs : M St (list LogRecord);
  AddRefund : Z → M St unit;
  SubRefund : Z → M St unit;
  GetRefund : M St Z;
  RevertToSnapshot : nat → M St unit;
  Snapshot : M St nat;
  GetTransientState : address → hash → M St hash;
  SetTransientState : address → hash → hash → M St unit
}.
Definition BalanceGTE {St} `{!EvmState St} (a : address) (val : Z) : M St bool :=
  if val =? 0 then mret true else b ← GetBalance a; mret (val <=? b).
