(* ===== verification/EvmMachine.v ===== *)
(** The machine a contract runs on: the virtual machine's state, the frame's stack, memory and
    program counter (core/vm/stack.go, evm.go, contract.go), the memory an instruction needs
    (memory_table.go) and the gas it costs (gas.go). *)
From S2P Require Import Prelude Codec Uint256 Storage EvmMemory EvmAnalysis EvmInterface.

(** ** The state *)
Record EVM (St : Type) : Type := {
  evm_state : St;
  evm_block : Block;
  evm_trx : Transaction;
  evm_depth : Z;  (** uint16 *)
  evm_mem_pool : MemoryPool;
  evm_jumpdests : gmap hash bitvec;
  evm_call_gas_tmp : Z;
  evm_read_only : bool;
  evm_last_retval : bytes
}.
Arguments evm_state {_} _.
Arguments evm_block {_} _.
Arguments evm_trx {_} _.
Arguments evm_depth {_} _.
Arguments evm_mem_pool {_} _.
Arguments evm_jumpdests {_} _.
Arguments evm_call_gas_tmp {_} _.
Arguments evm_read_only {_} _.
Arguments evm_last_retval {_} _.
(** A frame at work: the contract, its memory, its stack, the top first, and its counter. *)
Record Machine (St : Type) : Type := {
  m_evm : EVM St;
  m_contract : Contract;
  m_mem : Memory;
  m_stack : list word;
  m_pc : Z
}.
Arguments m_evm {_} _.
Arguments m_contract {_} _.
Arguments m_mem {_} _.
Arguments m_stack {_} _.
Arguments m_pc {_} _.

Section updates.
Context {St : Type}.
Implicit Types (e : EVM St) (s : Machine St).
Definition evm_with_state (x : St) e : EVM St := {|
  evm_state := x; evm_block := evm_block e; evm_trx := evm_trx e; evm_depth := evm_depth e;
  evm_mem_pool := evm_mem_pool e; evm_jumpdests := evm_jumpdests e;
  evm_call_gas_tmp := evm_call_gas_tmp e; evm_read_only := evm_read_only e;
  evm_last_retval := evm_last_retval e |}.
Definition evm_with_trx (t : Transaction) (j : gmap hash bitvec) e : EVM St := {|
  evm_state := evm_state e; evm_block := evm_block e; evm_trx := t; evm_depth := evm_depth e;
  evm_mem_pool := evm_mem_pool e; evm_jumpdests := j;
  evm_call_gas_tmp := evm_call_gas_tmp e; evm_read_only := evm_read_only e;
  evm_last_retval := evm_last_retval e |}.
(** What the start and the end of a run set. *)
Definition evm_with_frame (depth : Z) (ro : bool) (ret : bytes) e : EVM St := {|
  evm_state := evm_state e; evm_block := evm_block e; evm_trx := evm_trx e; evm_depth := depth;
  evm_mem_pool := evm_mem_pool e; evm_jumpdests := evm_jumpdests e;
  evm_call_gas_tmp := evm_call_gas_tmp e; evm_read_only := ro; evm_last_retval := ret |}.
Definition evm_with_pool (p : MemoryPool) e : EVM St := {|
  evm_state := evm_state e; evm_block := evm_block e; evm_trx := evm_trx e;
  evm_depth := evm_depth e; evm_mem_pool := p; evm_jumpdests := evm_jumpdests e;
  evm_call_gas_tmp := evm_call_gas_tmp e; evm_read_only := evm_read_only e;
  evm_last_retval := evm_last_retval e |}.
Definition evm_with_jumpdests (j : gmap hash bitvec) e : EVM St := evm_with_trx (evm_trx e) j e.
Definition evm_with_call_gas (g : Z) e : EVM St := {|
  evm_state := evm_state e; evm_block := evm_block e; evm_trx := evm_trx e;
  evm_depth := evm_depth e; evm_mem_pool := evm_mem_pool e; evm_jumpdests := evm_jumpdests e;
  evm_call_gas_tmp := g; evm_read_only := evm_read_only e; evm_last_retval := evm_last_retval e |}.
Definition evm_with_retval (r : bytes) e : EVM St :=
  evm_with_frame (evm_depth e) (evm_read_only e) r e.

Definition m_with_evm e s : Machine St := {|
  m_evm := e; m_contract := m_contract s; m_mem := m_mem s; m_stack := m_stack s; m_pc := m_pc s |}.
Definition m_with_contract (c : Contract) s : Machine St := {|
  m_evm := m_evm s; m_contract := c; m_mem := m_mem s; m_stack := m_stack s; m_pc := m_pc s |}.
Definition m_with_mem (p : MemoryPool) (m : Memory) s : Machine St := {|
  m_evm := evm_with_pool p (m_evm s); m_contract := m_contract s; m_mem := m;
  m_stack := m_stack s; m_pc := m_pc s |}.
Definition m_with_stack (l : list word) s : Machine St := {|
  m_evm := m_evm s; m_contract := m_contract s; m_mem := m_mem s; m_stack := l; m_pc := m_pc s |}.
Definition m_with_pc (pc : Z) s : Machine St := {|
  m_evm := m_evm s; m_contract := m_contract s; m_mem := m_mem s; m_stack := m_stack s; m_pc := pc |}.

(** ** Effects *)
Definition get : M (Machine St) (Machine St) := λ s, (Ret s, s).
Definition modify (f : Machine St → Machine St) : M (Machine St) unit := λ s, (Ret tt, f s).
(** A step of the virtual machine, of the accounts, of the memory. *)
Definition on_evm {A} (m : M (EVM St) A) : M (Machine St) A := λ s,
  let '(o, e) := m (m_evm s) in (o, m_with_evm e s).
Definition on_state {A} (m : M St A) : M (EVM St) A := λ e,
  let '(o, x) := m (evm_state e) in (o, evm_with_state x e).
Definition acc {A} (m : M St A) : M (Machine St) A := on_evm (on_state m).
Definition on_mem (f : MemoryPool → Memory → outcome (MemoryPool * Memory)) : M (Machine St) unit :=
  λ s,
  match f (evm_mem_pool (m_evm s)) (m_mem s) with
  | Ret (p, m) => (Ret tt, m_with_mem p m s)
  | Err e => (Err e, s)
  | Panic e => (Panic e, s)
  end.
Definition of_mem {A} (f : MemoryPool → Memory → outcome A) : M (Machine St) A := λ s,
  (f (evm_mem_pool (m_evm s)) (m_mem s), s).

(** ** stack.go *)
(** The index of a stack is that of its top less something. *)
Definition stack_panic : string := "runtime error: index out of range [-1]".
Definition push (d : word) : M (Machine St) unit := modify (λ s, m_with_stack (d :: m_stack s) s).
Definition pop : M (Machine St) word := λ s,
  match m_stack s with
  | x :: l => (Ret x, m_with_stack l s)
  | [] => (Panic stack_panic, s)
  end.
Definition peek : M (Machine St) word := λ s,
  match m_stack s with x :: _ => (Ret x, s) | [] => (Panic stack_panic, s) end.
(** An assignment through the pointer [peek] returns. *)
Definition set_top (y : word) : M (Machine St) unit := λ s,
  match m_stack s with
  | _ :: l => (Ret tt, m_with_stack (y :: l) s)
  | [] => (Panic stack_panic, s)
  end.
Definition Back (n : nat) : M (Machine St) word := λ s,
  match m_stack s !! n with Some x => (Ret x, s) | None => (Panic stack_panic, s) end.
Definition dup (n : nat) : M (Machine St) unit := x ← Back (n - 1); push x.
Definition swap (n : nat) : M (Machine St) unit := λ s,
  match m_stack s !! (n - 1)%nat, m_stack s !! 0%nat with
  | Some x, Some y =>
      (Ret tt, m_with_stack (<[0%nat := x]> (<[(n - 1)%nat := y]> (m_stack s))) s)
  | _, _ => (Panic stack_panic, s)
  end.
(** [require] and stack_table.go, on the height of the stack *)
Definition makeStackFunc (pop push : Z) (s : Machine St) : option string :=
  let n := Z.of_nat (length (m_stack s)) in
  if n <? pop then Some ErrStackUnderflow
  else if StackLimit <? n + push - pop then Some ErrStackLimit else None.

(** ** contract.go *)
Definition UseGas (gas : Z) : M (Machine St) bool := λ s,
  let g := gas_of (m_contract s) in
  if g <? gas then (Ret false, s)
  else (Ret true, m_with_contract (set_gas (u64 (g - gas)) (m_contract s)) s).
Definition GiveGas (gas : Z) : M (Machine St) unit :=
  modify (λ s, m_with_contract (set_gas (u64 (gas_of (m_contract s) + gas)) (m_contract s)) s).

(** [evm.analyze_jumpdests]: the analysis is cached by the hash of the code, when it is known;
    the flag tells so. *)
Definition analyze_jumpdests (c : CodeAndHash) : M (EVM St) (bitvec * bool) := λ e,
  match CodeHash c with
  | Some h =>
      match evm_jumpdests e !! h with
      | Some a => (Ret (a, true), e)
      | None =>
          match codeBitmap (Code c) with
          | Ret a => (Ret (a, true), evm_with_jumpdests (<[h := a]> (evm_jumpdests e)) e)
          | Err x => (Err x, e)
          | Panic x => (Panic x, e)
          end
      end
  | None => (match codeBitmap (Code c) with
             | Ret a => Ret (a, false) | Err x => Err x | Panic x => Panic x end, e)
  end.
Definition keep_analysis (a : bitvec) (c : Contract) : Contract := {|
  Frame := Frame c; code := code c; code_jumpdest_analysis := Some a |}.
Definition ValidJumpdest (dest : word) : M (Machine St) bool :=
  s ← get;
  let '(udest, overflow) := Uint64WithOverflow dest in
  if overflow || negb (GetOp (m_contract s) udest =? JUMPDEST) then mret false
  else
    analysis ←
      match code_jumpdest_analysis (m_contract s) with
      | Some a => mret a
      | None =>
          r ← on_evm (analyze_jumpdests (code (m_contract s)));
          let '(a, cached) := r in
          when (negb cached) (modify (λ s, m_with_contract (keep_analysis a (m_contract s)) s)) ;;
          mret a
      end;
    of_outcome (codeSegment analysis udest).
End updates.

Section machine.
Context {St : Type} `{!EvmState St} `{Uint256} `{Keccak}.
Abbreviation W := (Machine St).

(** [evm.get_account] *)
Definition get_account (addr_as_u256 : word) : M W address :=
  let a := Bytes20 addr_as_u256 in acc (GetAccount a) ;; mret a.
Definition self_account : M W address := s ← get; mret (Account (Frame (m_contract s))).

(** ** memory_table.go *)
Definition mem_size (off l : nat) : M W word := o ← Back off; n ← Back l; mret (calcMemSize o n).
Definition memoryKeccak256 : M W word := mem_size 0 1.
Definition memoryCallDataCopy : M W word := mem_size 0 2.
Definition memoryReturnDataCopy : M W word := mem_size 0 2.
Definition memoryCodeCopy : M W word := mem_size 0 2.
Definition memoryExtCodeCopy : M W word := mem_size 1 3.
Definition memoryMLoad : M W word := o ← Back 0; mret (calcMemSize o 32).
Definition memoryMStore8 : M W word := o ← Back 0; mret (calcMemSize o 1).
Definition memoryMStore : M W word := o ← Back 0; mret (calcMemSize o 32).
Definition memoryMcopy : M W word :=
  dst ← Back 0; src ← Back 1; l ← Back 2;
  let size := calcMemSize (if dst <? src then src else dst) l in
  mret (if size <? 2 ^ 64 then size else 0).
Definition memoryCreate : M W word := mem_size 1 2.
Definition memoryCreate2 : M W word := mem_size 1 2.
Definition bigMax (x y : word) : word := if x <? y then y else x.
Definition memoryCall : M W word := x ← mem_size 5 6; y ← mem_size 3 4; mret (bigMax x y).
Definition memoryDelegateCall : M W word := x ← mem_size 4 5; y ← mem_size 2 3; mret (bigMax x y).
Definition memoryStaticCall : M W word := x ← mem_size 4 5; y ← mem_size 2 3; mret (bigMax x y).
Definition memoryReturn : M W word := mem_size 0 1.
Definition memoryRevert : M W word := mem_size 0 1.
Definition memoryLog : M W word := l ← Back 1; o ← Back 0; mret (calcMemSize o l).

(** ** gas.go *)
Definition gasFunc : Type := Z → M W Z.
Abbreviation gas_table := GasTableCalifornicum.
(** [if x, overflow = f(...); overflow { return 0, errGasUintOverflow }] *)
Definition checked (r : Z * bool) : M W Z := fail_if r.2 errGasUintOverflow ;; mret r.1.

(** [callGas]: all but one 64th of what is left, or what was asked for when it is less. *)
Definition callGas (availableGas base : Z) (callCost : word) : outcome Z :=
  let asked := if 64 <? BitLen callCost then Err errGasUintOverflow else Ret (u64 callCost) in
  if 0 <? CreateBySuicide gas_table then
    let availableGas := u64 (availableGas - base) in
    let gas := u64 (availableGas - availableGas / 64) in
    if (64 <? BitLen callCost) || (gas <? u64 callCost) then Ret gas else asked
  else asked.

(** [memoryGasCost]: the fee of the words beyond those already paid for, and the fee of all. *)
Definition memory_fee (words : Z) : Z := u64 (u64 (words * MemoryGas) + u64 (words * words) / QuadCoeffDiv).
Definition memoryGasCost (newMemSize : Z) (m : Memory) : outcome (Z * Memory) :=
  if newMemSize =? 0 then Ret (0, m)
  else if 0xffffffffe0 <? newMemSize then Err errGasUintOverflow
  else
    let newMemSizeWords := toWordSize newMemSize in
    let newMemSize := u64 (newMemSizeWords * 32) in
    if len m <? newMemSize then
      let newTotalFee := memory_fee newMemSizeWords in
      Ret (u64 (newTotalFee - lastGasCost m), set_lastGasCost newTotalFee m)
    else Ret (0, m).
Definition memory_gas (newMemSize : Z) : M W Z := λ s,
  match memoryGasCost newMemSize (m_mem s) with
  | Ret (fee, m) => (Ret fee, m_with_mem (evm_mem_pool (m_evm s)) m s)
  | Err e => (Err e, s)
  | Panic e => (Panic e, s)
  end.

Definition constGasFunc (gas : Z) : gasFunc := λ _, mret gas.
(** The gas of the words of a length on the stack. *)
Definition word_gas (stackpos : nat) (per_word : Z) : M W Z :=
  l ← Back stackpos;
  l ← checked (Uint64WithOverflow l);
  checked (SafeMul (toWordSize l) per_word).
Definition memoryCopierGas (stackpos : nat) (staticGas : Z) : gasFunc := λ memorySize,
  gas ← memory_gas memorySize;
  gas ← checked (SafeAdd gas staticGas);
  wordGas ← word_gas stackpos CopyGas;
  checked (SafeAdd gas wordGas).
Definition gasCallDataCopy : gasFunc := memoryCopierGas 2 GasFastestStep.
Definition gasCodeCopy : gasFunc := memoryCopierGas 2 GasFastestStep.
Definition gasMcopy : gasFunc := memoryCopierGas 2 GasFastestStep.
Definition gasReturnDataCopy : gasFunc := memoryCopierGas 2 GasFastestStep.

Definition gasSStore : gasFunc := λ _,
  y ← Back 1; x ← Back 0; a ← self_account;
  current ← acc (GetState a x);
  if current =? y then mret NetSstoreNoopGas
  else
    original ← acc (GetCommittedState a x);
    if original =? current then
      if original =? 0 then mret NetSstoreInitGas
      else
        when (y =? 0) (acc (AddRefund NetSstoreClearRefund)) ;;
        mret NetSstoreCleanGas
    else
      when (negb (original =? 0))
        (if current =? 0 then acc (SubRefund NetSstoreClearRefund)
         else when (y =? 0) (acc (AddRefund NetSstoreClearRefund))) ;;
      when (original =? y)
        (if original =? 0 then acc (AddRefund NetSstoreResetClearRefund)
         else acc (AddRefund NetSstoreResetRefund)) ;;
      mret NetSstoreDirtyGas.
Definition makeGasLog (n : Z) : gasFunc := λ memorySize,
  requestedSize ← Back 1;
  requestedSize ← checked (Uint64WithOverflow requestedSize);
  gas ← memory_gas memorySize;
  gas ← checked (SafeAdd gas LogGas);
  gas ← checked (SafeAdd gas (u64 (n * LogTopicGas)));
  memorySizeGas ← checked (SafeMul requestedSize LogDataGas);
  checked (SafeAdd gas memorySizeGas).
Definition gasKeccak256 : gasFunc := λ memorySize,
  gas ← memory_gas memorySize;
  gas ← checked (SafeAdd gas Keccak256WordGas);
  wordGas ← word_gas 1 Keccak256WordGas;
  checked (SafeAdd gas wordGas).
Definition gasExtCodeCopy : gasFunc := λ memorySize,
  gas ← memory_gas memorySize;
  gas ← checked (SafeAdd gas (ExtcodeCopy gas_table));
  wordGas ← word_gas 3 CopyGas;
  checked (SafeAdd gas wordGas).
Definition gasExtCodeHash : gasFunc := λ _, mret (ExtcodeHash gas_table).
Definition memory_plus (staticGas : Z) : gasFunc := λ memorySize,
  gas ← memory_gas memorySize; checked (SafeAdd gas staticGas).
Definition gasMLoad : gasFunc := memory_plus GasFastestStep.
Definition gasMStore8 : gasFunc := memory_plus GasFastestStep.
Definition gasMStore : gasFunc := memory_plus GasFastestStep.
Definition gasCreate : gasFunc := memory_plus CreateGas.
Definition gasCreate2 : gasFunc := λ memorySize,
  gas ← memory_gas memorySize;
  gas ← checked (SafeAdd gas Create2Gas);
  wordGas ← word_gas 2 Keccak256WordGas;
  checked (SafeAdd gas wordGas).
Definition gasBalance : gasFunc := λ _, mret (Balance gas_table).
Definition gasExtCodeSize : gasFunc := λ _, mret (ExtcodeSize gas_table).
Definition gasSLoad : gasFunc := λ _, mret (SLoad gas_table).
Definition gasTLoad : gasFunc := λ _, mret (WarmStorageReadCost gas_table).
Definition gasExp : gasFunc := λ _,
  e ← Back 1;
  let expByteLen := u64 ((BitLen e + 7) / 8) in
  checked (SafeAdd (u64 (expByteLen * ExpByte gas_table)) ExpGas).
(** The end of the gas of the calls: the memory, then the gas passed on. *)
Definition pass_gas (gas : Z) : M W Z :=
  s ← get;
  asked ← Back 0;
  g ← of_outcome (callGas (gas_of (m_contract s)) gas asked);
  modify (λ s, m_with_evm (evm_with_call_gas g (m_evm s)) s) ;;
  checked (SafeAdd gas g).
Definition gasCall : gasFunc := λ memorySize,
  value ← Back 2; addr ← Back 1;
  a ← get_account addr;
  empty ← acc (IsEIP161Empty a);
  let transfersValue := negb (value =? 0) in
  let gas := Calls gas_table in
  let gas := if transfersValue && empty then u64 (gas + CallNewAccountGas) else gas in
  let gas := if transfersValue then u64 (gas + CallValueTransferGas) else gas in
  memoryGas ← memory_gas memorySize;
  gas ← checked (SafeAdd gas memoryGas);
  pass_gas gas.
Definition gasCallCode : gasFunc := λ memorySize,
  value ← Back 2;
  let gas := Calls gas_table in
  let gas := if negb (value =? 0) then u64 (gas + CallValueTransferGas) else gas in
  memoryGas ← memory_gas memorySize;
  gas ← checked (SafeAdd gas memoryGas);
  pass_gas gas.
Definition gasReturn : gasFunc := memory_gas.
Definition gasRevert : gasFunc := memory_gas.
Definition gasSuicide : gasFunc := λ _,
  b ← Back 0;
  new_acc ← get_account b;
  self ← self_account;
  empty ← acc (IsEIP161Empty new_acc);
  balance ← acc (GetBalance self);
  let gas := Suicide_ gas_table in
  let gas :=
    if empty && negb (balance =? 0) then u64 (gas + CreateBySuicide gas_table) else gas in
  suicided ← acc (HasSuicided self);
  when (negb suicided) (acc (AddRefund SuicideRefundGas)) ;;
  mret gas.
Definition gasDelegateCall : gasFunc := λ memorySize,
  gas ← memory_gas memorySize;
  gas ← checked (SafeAdd gas (Calls gas_table));
  pass_gas gas.
Definition gasStaticCall : gasFunc := λ memorySize,
  gas ← memory_gas memorySize;
  gas ← checked (SafeAdd gas (Calls gas_table));
  pass_gas gas.
Definition gasPush : gasFunc := λ _, mret GasFastestStep.
Definition gasSwap : gasFunc := λ _, mret GasFastestStep.
Definition gasDup : gasFunc := λ _, mret GasFastestStep.
End machine.

(** [IntrinsicGas] *)
Definition IntrinsicGas (data : bytes) (contractCreation : bool) : outcome Z :=
  let gas := if contractCreation then TxGasContractCreation else TxGas in
  match data with
  | [] => Ret gas
  | _ =>
      let nz := Z.of_nat (length (filter (λ b, b ≠ 0) data)) in
      if (2 ^ 64 - 1 - gas) / TxDataNonZeroGas <? nz then Err ErrOutOfGas
      else
        let gas := u64 (gas + u64 (nz * TxDataNonZeroGas)) in
        let z := u64 (Z.of_nat (length data) - nz) in
        if (2 ^ 64 - 1 - gas) / TxDataZeroGas <? z then Err ErrOutOfGas
        else Ret (u64 (gas + u64 (z * TxDataZeroGas)))
  end.
