(* ===== verification/EvmInstructions.v ===== *)
(** The instructions of the virtual machine (core/vm/instructions.go, eips.go), one definition
    each.  The calls and creations go through [evm_call] and [evm_create], the virtual machine's
    own entry points, which run the called code. *)
From S2P Require Import Prelude Codec Rlp Uint256 Storage EvmMemory EvmAnalysis EvmInterface EvmMachine.

(** The data a call returns: its own, or the very slice of the caller's memory it was given as
    input. *)
Inductive retdata : Type := Fresh (b : bytes) | SameAsInput.
Definition call_result : Type := retdata * Z * option string.
(** The virtual machine's entry points the instructions call. *)
Record entry_points (St : Type) : Type := {
  ep_call : call_type → ContractRef → address → bytes → Z → Z → M (EVM St) call_result;
  ep_create_1 : address → bytes → Z → Z → M (EVM St) (bytes * address * Z * option string);
  ep_create_2 : address → bytes → Z → Z → Z → M (EVM St) (bytes * address * Z * option string)
}.
Arguments ep_call {_} _.
Arguments ep_create_1 {_} _.
Arguments ep_create_2 {_} _.
(** What the block and the chain give: [evm.get_hash] and the chain's id. *)
Record environment : Type := { get_hash : Z → Z; ChainId : Z }.

Section instructions.
Context {St : Type} `{!EvmState St} `{Uint256} `{Keccak} (env : environment) (ep : entry_points St).
Abbreviation W := (Machine St).
Abbreviation executionFunc := (M (Machine St) bytes).

Definition done_ : executionFunc := mret [].
Definition bool_word (b : bool) : word := if b then 1 else 0.
(** [x, y := stack.pop(), stack.peek()], the result through [y] *)
Definition binary (f : word → word → word) : executionFunc :=
  x ← pop; y ← peek; set_top (f x y) ;; done_.
Definition opAdd := binary U_Add.
Definition opSub := binary U_Sub.
Definition opMul := binary U_Mul.
Definition opDiv := binary U_Div.
Definition opSdiv := binary U_SDiv.
Definition opMod := binary U_Mod.
Definition opSmod := binary U_SMod.
Definition opExp := binary U_Exp.
Definition opSignExtend := binary (λ back num, U_ExtendSign num back).
Definition opNot : executionFunc := x ← peek; set_top (U_Not x) ;; done_.
Definition opLt := binary (λ x y, bool_word (x <? y)).
Definition opGt := binary (λ x y, bool_word (y <? x)).
Definition opSlt := binary (λ x y, bool_word (U_Slt x y)).
Definition opSgt := binary (λ x y, bool_word (U_Sgt x y)).
Definition opEq := binary (λ x y, bool_word (x =? y)).
Definition opIszero : executionFunc := x ← peek; set_top (bool_word (x =? 0)) ;; done_.
Definition opAnd := binary U_And.
Definition opOr := binary U_Or.
Definition opXor := binary U_Xor.
Definition opByte := binary (λ th val, U_Byte val th).
Definition opAddmod : executionFunc :=
  x ← pop; y ← pop; z ← peek; set_top (if z =? 0 then 0 else U_AddMod x y z) ;; done_.
Definition opMulmod : executionFunc :=
  x ← pop; y ← pop; z ← peek; set_top (U_MulMod x y z) ;; done_.
Definition opSHL := binary (λ shift value, if shift <? 256 then U_Lsh value (u64 shift) else 0).
Definition opSHR := binary (λ shift value, if shift <? 256 then U_Rsh value (u64 shift) else 0).
(** [value.Sign() >= 0]: the sign of the two's complement. *)
Definition opSAR := binary (λ shift value,
  if 256 <? shift then (if 0 <=? signed value then 0 else 2 ^ 256 - 1)
  else U_SRsh value (u64 shift)).

Definition int64 (x : word) : Z := to_int64 (u64 x).
Definition opKeccak256 : executionFunc :=
  offset ← pop; size ← peek;
  data ← of_mem (GetPtr (int64 offset) (int64 size));
  set_top (SetBytes (keccak data)) ;; done_.
Definition opAddress : executionFunc := a ← self_account; push (SetBytes a) ;; done_.
(** [SetFromBig]: modulo 2^256. *)
Definition SetFromBig (x : Z) : word := u256 x.
Definition opBalance : executionFunc :=
  slot ← peek; a ← get_account slot; b ← acc (GetBalance a);
  set_top (SetFromBig b) ;; done_.
Definition opOrigin : executionFunc :=
  s ← get; push (SetBytes (From (evm_trx (m_evm s)))) ;; done_.
Definition opCaller : executionFunc :=
  s ← get; push (SetBytes (CallerAccount (Frame (m_contract s)))) ;; done_.
Definition opCallValue : executionFunc :=
  s ← get; push (SetFromBig (Value (Frame (m_contract s)))) ;; done_.
Definition opCallDataLoad : executionFunc :=
  x ← peek; s ← get;
  let '(offset, overflow) := Uint64WithOverflow x in
  if overflow then set_top 0 ;; done_
  else
    data ← of_outcome (getData (Input (Frame (m_contract s))) offset 32);
    set_top (SetBytes data) ;; done_.
Definition length64 (b : bytes) : Z := u64 (Z.of_nat (length b)).
Definition opCallDataSize : executionFunc :=
  s ← get; push (length64 (Input (Frame (m_contract s)))) ;; done_.
(** An offset beyond 64 bits is beyond the data. *)
Definition clamp (off : word) : Z :=
  let '(off64, overflow) := Uint64WithOverflow off in
  if overflow then 0xffffffffffffffff else off64.
Definition copy_data (data : bytes) (memOffset dataOffset length : word) : executionFunc :=
  d ← of_outcome (getData data (clamp dataOffset) (u64 length));
  on_mem (Set_ (u64 memOffset) (u64 length) d) ;; done_.
Definition opCallDataCopy : executionFunc :=
  memOffset ← pop; dataOffset ← pop; length ← pop; s ← get;
  copy_data (Input (Frame (m_contract s))) memOffset dataOffset length.
Definition opReturnDataSize : executionFunc :=
  s ← get; push (length64 (evm_last_retval (m_evm s))) ;; done_.
Definition opReturnDataCopy : executionFunc :=
  memOffset ← pop; dataOffset ← pop; length ← pop; s ← get;
  let ret := evm_last_retval (m_evm s) in
  let '(offset64, overflow) := Uint64WithOverflow dataOffset in
  fail_if overflow ErrReturnDataOutOfBounds ;;
  let '(end64, overflow) := Uint64WithOverflow (U_Add dataOffset length) in
  fail_if (overflow || (length64 ret <? end64)) ErrReturnDataOutOfBounds ;;
  d ← of_outcome (go_slice ret offset64 end64);
  on_mem (Set_ (u64 memOffset) (u64 length) d) ;; done_.
Definition opExtCodeSize : executionFunc :=
  slot ← peek; a ← get_account slot; n ← acc (GetCodeSize a); set_top n ;; done_.
Definition opCodeSize : executionFunc :=
  s ← get; push (length64 (Code (code (m_contract s)))) ;; done_.
Definition opCodeCopy : executionFunc :=
  memOffset ← pop; codeOffset ← pop; length ← pop; s ← get;
  copy_data (Code (code (m_contract s))) memOffset codeOffset length.
Definition opExtCodeCopy : executionFunc :=
  addr ← pop; memOffset ← pop; codeOffset ← pop; length ← pop;
  a ← get_account addr; c ← acc (GetCode a);
  copy_data c memOffset codeOffset length.
Definition opExtCodeHash : executionFunc :=
  slot ← peek; a ← get_account slot; empty ← acc (IsEIP161Empty a);
  if empty : bool then set_top 0 ;; done_
  else h ← acc (GetCodeHash a); h ← deref h; set_top (SetBytes h) ;; done_.
Definition opGasprice : executionFunc :=
  s ← get; push (SetFromBig (GasPrice (evm_trx (m_evm s)))) ;; done_.
Definition opBlockhash : executionFunc :=
  num ← peek; s ← get;
  let '(num64, overflow) := Uint64WithOverflow num in
  if overflow then set_top 0 ;; done_
  else
    let upper := Number (evm_block (m_evm s)) in
    let lower := if upper <? 257 then 0 else u64 (upper - 256) in
    set_top (if (lower <=? num64) && (num64 <? upper) then SetFromBig (get_hash env num64) else 0) ;;
    done_.
Definition push_block (f : Block → Z) : executionFunc :=
  s ← get; push (f (evm_block (m_evm s))) ;; done_.
Definition opCoinbase := push_block (λ b, SetBytes (Author b)).
Definition opTimestamp := push_block (λ b, u64 (Time b)).
Definition opNumber := push_block (λ b, u64 (Number b)).
Definition opDifficulty := push_block (λ b, SetFromBig (Difficulty b)).
Definition opGasLimit := push_block (λ b, u64 (GasLimit b)).
Definition opChainID : executionFunc := push (u64 (ChainId env)) ;; done_.
Definition opSelfBalance : executionFunc :=
  a ← self_account; acc (GetAccount a) ;; b ← acc (GetBalance a); push (SetFromBig b) ;; done_.
Definition opPop : executionFunc := pop ;; done_.
Definition opMload : executionFunc :=
  v ← peek; d ← of_mem (GetPtr (int64 v) 32); set_top (SetBytes d) ;; done_.
Definition opMstore : executionFunc :=
  mStart ← pop; val ← pop; on_mem (Set32 (u64 mStart) val) ;; done_.
Definition opMstore8 : executionFunc :=
  off ← pop; val ← pop; on_mem (set_byte (u64 off) (u8 (u64 val))) ;; done_.
Definition opMcopy : executionFunc :=
  dst ← pop; src ← pop; length ← pop;
  on_mem (Copy (u64 dst) (u64 src) (u64 length)) ;; done_.
Definition opSload : executionFunc :=
  loc ← peek; a ← self_account; v ← acc (GetState a loc); set_top (SetFromBig v) ;; done_.
Definition opSstore : executionFunc :=
  loc ← pop; val ← pop; a ← self_account; acc (SetState a loc val) ;; done_.
Definition jump_to (pos : word) : executionFunc :=
  valid ← ValidJumpdest pos;
  fail_if (negb valid) ErrInvalidJump ;;
  modify (m_with_pc (u64 pos)) ;; done_.
Definition opJump : executionFunc := pos ← pop; jump_to pos.
Definition opJumpi : executionFunc :=
  pos ← pop; cond ← pop;
  if negb (cond =? 0) then jump_to pos
  else modify (λ s, m_with_pc (u64 (m_pc s + 1)) s) ;; done_.
Definition opJumpdest : executionFunc := done_.
Definition opPush0 : executionFunc := push 0 ;; done_.
Definition opPc : executionFunc := s ← get; push (u64 (m_pc s)) ;; done_.
Definition opMsize : executionFunc := s ← get; push (u64 (len (m_mem s))) ;; done_.
Definition opGas : executionFunc := s ← get; push (u64 (gas_of (m_contract s))) ;; done_.
Definition opTload : executionFunc :=
  loc ← peek; a ← self_account; v ← acc (GetTransientState a (Bytes32 loc));
  set_top (SetBytes v) ;; done_.
Definition opTstore : executionFunc :=
  s ← get;
  fail_if (evm_read_only (m_evm s)) ErrWriteProtection ;;
  loc ← pop; val ← pop; a ← self_account;
  acc (SetTransientState a (Bytes32 loc) (Bytes32 val)) ;; done_.

(** The end of a creation: the address or zero, the gas that is left, and the data of a revert. *)
Definition finish_create (r : bytes * address * Z * option string) : executionFunc :=
  let '(res, addr, returnGas, suberr) := r in
  push (match suberr with Some _ => 0 | None => SetBytes addr end) ;;
  GiveGas returnGas ;;
  mret (if bool_decide (suberr = Some ErrExecutionReverted) then res else []).
(** All but one 64th of the gas, taken from the contract. *)
Definition take_create_gas : M W Z :=
  s ← get;
  let gas := gas_of (m_contract s) in
  let gas := u64 (gas - gas / 64) in
  UseGas gas ;; mret gas.
Definition opCreate : executionFunc :=
  value ← pop; offset ← pop; size ← pop;
  input ← of_mem (GetCopy (int64 offset) (int64 size));
  gas ← take_create_gas;
  a ← self_account;
  r ← on_evm (ep_create_1 ep a input gas value);
  finish_create r.
Definition opCreate2 : executionFunc :=
  endowment ← pop; offset ← pop; size ← pop; salt ← pop;
  input ← of_mem (GetCopy (int64 offset) (int64 size));
  gas ← take_create_gas;
  a ← self_account;
  r ← on_evm (ep_create_2 ep a input gas endowment salt);
  finish_create r.

(** The end of a call: success on the stack, the data in the memory and, read after that, as the
    value of the instruction. *)
Definition ret_bytes (r : retdata) (inOffset inSize : word) : M W bytes :=
  match r with
  | Fresh b => mret b
  | SameAsInput => of_mem (GetPtr (int64 inOffset) (int64 inSize))
  end.
Definition finish_call (r : call_result) (inOffset inSize retOffset retSize : word)
  : executionFunc :=
  let '(ret, returnGas, err) := r in
  push (match err with Some _ => 0 | None => 1 end) ;;
  when (match err with None => true | Some e => bool_decide (e = ErrExecutionReverted) end)
    (d ← ret_bytes ret inOffset inSize; on_mem (Set_ (u64 retOffset) (u64 retSize) d)) ;;
  GiveGas returnGas ;;
  ret_bytes ret inOffset inSize.
(** The caller of the calls the contract makes. *)
Definition self_ref : M W ContractRef :=
  s ← get;
  mret {| ref_account := Account (Frame (m_contract s)); ref_contract := Some (m_contract s) |}.
Definition call_gas_tmp : M W Z := s ← get; mret (evm_call_gas_tmp (m_evm s)).
Definition with_stipend (gas : Z) (value : word) : Z :=
  if value =? 0 then gas else u64 (gas + CallStipend).
Definition opCall : executionFunc :=
  pop ;; gas ← call_gas_tmp;
  addr ← pop; value ← pop; inOffset ← pop; inSize ← pop; retOffset ← pop; retSize ← pop;
  args ← of_mem (GetPtr (int64 inOffset) (int64 inSize));
  self ← self_ref; a ← get_account addr;
  r ← on_evm (ep_call ep CALL self a args (with_stipend gas value) value);
  finish_call r inOffset inSize retOffset retSize.
Definition opCallCode : executionFunc :=
  pop ;; gas ← call_gas_tmp;
  addr ← pop; value ← pop; inOffset ← pop; inSize ← pop; retOffset ← pop; retSize ← pop;
  args ← of_mem (GetPtr (int64 inOffset) (int64 inSize));
  self ← self_ref; a ← get_account addr;
  r ← on_evm (ep_call ep CALLCODE self a args (with_stipend gas value) value);
  finish_call r inOffset inSize retOffset retSize.
Definition opDelegateCall : executionFunc :=
  pop ;; gas ← call_gas_tmp;
  addr ← pop; inOffset ← pop; inSize ← pop; retOffset ← pop; retSize ← pop;
  args ← of_mem (GetPtr (int64 inOffset) (int64 inSize));
  self ← self_ref; a ← get_account addr;
  r ← on_evm (ep_call ep DELEGATECALL self a args gas 0);
  finish_call r inOffset inSize retOffset retSize.
Definition opStaticCall : executionFunc :=
  pop ;; gas ← call_gas_tmp;
  addr ← pop; inOffset ← pop; inSize ← pop; retOffset ← pop; retSize ← pop;
  args ← of_mem (GetPtr (int64 inOffset) (int64 inSize));
  self ← self_ref; a ← get_account addr;
  r ← on_evm (ep_call ep STATICCALL self a args gas 0);
  finish_call r inOffset inSize retOffset retSize.
Definition opReturn : executionFunc :=
  offset ← pop; size ← pop; of_mem (GetCopy (int64 offset) (int64 size)).
Definition opRevert : executionFunc :=
  offset ← pop; size ← pop; of_mem (GetPtr (int64 offset) (int64 size)).
Definition opStop : executionFunc := done_.
Definition opSuicide : executionFunc :=
  beneficiary ← pop; a ← self_account; acc (Suicide a (Bytes20 beneficiary)) ;; done_.

Fixpoint pop_topics (size : nat) : M W (list hash) :=
  match size with
  | O => mret []
  | S size => t ← pop; ts ← pop_topics size; mret (Bytes32 t :: ts)
  end.
Definition makeLog (size : nat) : executionFunc :=
  mStart ← pop; mSize ← pop;
  topics ← pop_topics size;
  data ← of_mem (GetCopy (int64 mStart) (int64 mSize));
  a ← self_account;
  acc (AddLog {| LogAddress := a; Topics := topics; LogData := data |}) ;; done_.
Definition makePush (size pushByteSize : Z) : executionFunc :=
  s ← get;
  let code := Code (code (m_contract s)) in
  let codeLen := Z.of_nat (length code) in
  let pc1 := to_int64 (u64 (m_pc s + 1)) in
  let startMin := if pc1 <? codeLen then pc1 else codeLen in
  let endMin := if startMin + pushByteSize <? codeLen then startMin + pushByteSize else codeLen in
  d ← of_outcome (go_slice code startMin endMin);
  push (SetBytes (RightPadBytes d pushByteSize)) ;;
  modify (λ s, m_with_pc (u64 (m_pc s + size)) s) ;; done_.
Definition makeDup (size : nat) : executionFunc := dup size ;; done_.
Definition makeSwap (size : nat) : executionFunc := swap (S size) ;; done_.
End instructions.
