(* ===== verification/EvmRun.v ===== *)
(** The instruction set (core/vm/jump_table.go, opcodes.go) and the virtual machine that runs it
    (evm.go): the interpreter loop, calls, creations and transactions.  The loop and the calls it
    makes share one fuel; more fuel than gas is enough. *)
From S2P Require Import Prelude Codec Rlp Uint256 Storage EvmMemory EvmAnalysis EvmInterface.
From S2P Require Import EvmMachine EvmInstructions.

(** ** opcodes.go *)
Inductive OpCode : Type :=
| STOP | ADD | MUL | SUB | DIV | SDIV | MOD | SMOD | ADDMOD | MULMOD | EXP | SIGNEXTEND
| LT | GT | SLT | SGT | EQ | ISZERO | AND | OR | XOR | NOT | BYTE | SHL | SHR | SAR
| KECCAK256
| ADDRESS | BALANCE | ORIGIN | CALLER | CALLVALUE | CALLDATALOAD | CALLDATASIZE | CALLDATACOPY
| CODESIZE | CODECOPY | GASPRICE | EXTCODESIZE | EXTCODECOPY | RETURNDATASIZE | RETURNDATACOPY
| EXTCODEHASH
| BLOCKHASH | COINBASE | TIMESTAMP | NUMBER | DIFFICULTY | GASLIMIT | CHAINID | SELFBALANCE
| POP | MLOAD | MSTORE | MSTORE8 | SLOAD | SSTORE | JUMP | JUMPI | PC | MSIZE | GAS
| JUMPDEST_ | MCOPY | PUSH0
| PUSH (n : Z) | DUP (n : Z) | SWAP (n : Z) | LOG (n : Z)
| TLOAD | TSTORE
| CREATE | CALL_ | CALLCODE_ | RETURN | DELEGATECALL_ | CREATE2 | STATICCALL_ | REVERT | SELFDESTRUCT.

#[export] Instance OpCode_eq_dec : EqDecision OpCode.
Proof. solve_decision. Defined.
(** The opcodes the instruction set has; the others are invalid. *)
Definition decode (b : Z) : option OpCode :=
  if (0x60 <=? b) && (b <=? 0x7f) then Some (PUSH (b - 0x60 + 1))
  else if (0x80 <=? b) && (b <=? 0x8f) then Some (DUP (b - 0x80 + 1))
  else if (0x90 <=? b) && (b <=? 0x9f) then Some (SWAP (b - 0x90 + 1))
  else if (0xa0 <=? b) && (b <=? 0xa4) then Some (LOG (b - 0xa0))
  else match b with
  | 0x00 => Some STOP | 0x01 => Some ADD | 0x02 => Some MUL | 0x03 => Some SUB
  | 0x04 => Some DIV | 0x05 => Some SDIV | 0x06 => Some MOD | 0x07 => Some SMOD
  | 0x08 => Some ADDMOD | 0x09 => Some MULMOD | 0x0a => Some EXP | 0x0b => Some SIGNEXTEND
  | 0x10 => Some LT | 0x11 => Some GT | 0x12 => Some SLT | 0x13 => Some SGT | 0x14 => Some EQ
  | 0x15 => Some ISZERO | 0x16 => Some AND | 0x17 => Some OR | 0x18 => Some XOR
  | 0x19 => Some NOT | 0x1a => Some BYTE | 0x1b => Some SHL | 0x1c => Some SHR | 0x1d => Some SAR
  | 0x20 => Some KECCAK256
  | 0x30 => Some ADDRESS | 0x31 => Some BALANCE | 0x32 => Some ORIGIN | 0x33 => Some CALLER
  | 0x34 => Some CALLVALUE | 0x35 => Some CALLDATALOAD | 0x36 => Some CALLDATASIZE
  | 0x37 => Some CALLDATACOPY | 0x38 => Some CODESIZE | 0x39 => Some CODECOPY
  | 0x3a => Some GASPRICE | 0x3b => Some EXTCODESIZE | 0x3c => Some EXTCODECOPY
  | 0x3d => Some RETURNDATASIZE | 0x3e => Some RETURNDATACOPY | 0x3f => Some EXTCODEHASH
  | 0x40 => Some BLOCKHASH | 0x41 => Some COINBASE | 0x42 => Some TIMESTAMP
  | 0x43 => Some NUMBER | 0x44 => Some DIFFICULTY | 0x45 => Some GASLIMIT
  | 0x46 => Some CHAINID | 0x47 => Some SELFBALANCE
  | 0x50 => Some POP | 0x51 => Some MLOAD | 0x52 => Some MSTORE | 0x53 => Some MSTORE8
  | 0x54 => Some SLOAD | 0x55 => Some SSTORE | 0x56 => Some JUMP | 0x57 => Some JUMPI
  | 0x58 => Some PC | 0x59 => Some MSIZE | 0x5a => Some GAS | 0x5b => Some JUMPDEST_
  | 0x5e => Some MCOPY | 0x5f => Some PUSH0
  | 0xb3 => Some TLOAD | 0xb4 => Some TSTORE
  | 0xf0 => Some CREATE | 0xf1 => Some CALL_ | 0xf2 => Some CALLCODE_ | 0xf3 => Some RETURN
  | 0xf4 => Some DELEGATECALL_ | 0xf5 => Some CREATE2 | 0xfa => Some STATICCALL_
  | 0xfd => Some REVERT | 0xff => Some SELFDESTRUCT
  | _ => None
  end.

(** ** Precompiled contracts, as the virtual machine sees them *)
Record Precompiled (St : Type) : Type := {
  RequiredGas : CallFrame → M (EVM St) Z;
  Run : CallFrame → M (EVM St) retdata
}.
Arguments RequiredGas {_} _.
Arguments Run {_} _.

Section run.
Context {St : Type} `{!EvmState St} `{Uint256} `{Keccak} (env : environment)
  (precompiles : address → option (Precompiled St)).
Abbreviation W := (Machine St).
Abbreviation V := (EVM St).

(** ** jump_table.go *)
Record operation : Type := {
  execute : M W bytes;
  gasCost : @gasFunc St;
  (** the height of the stack: what the instruction takes and what it leaves *)
  pops : Z;
  pushes : Z;
  memorySize : option (M W word);
  halts : bool;
  jumps : bool;
  writes : bool;
  reverts : bool;
  returns : bool
}.
(** The fields a table entry gives; the others are nil and false. *)
Definition op_ (execute : M W bytes) (gasCost : @gasFunc St) (pop push : Z) : operation := {|
  execute := execute; gasCost := gasCost; pops := pop; pushes := push; memorySize := None;
  halts := false; jumps := false; writes := false; reverts := false; returns := false |}.
Definition with_mem (m : M W word) (o : operation) : operation := {|
  execute := execute o; gasCost := gasCost o; pops := pops o; pushes := pushes o;
  memorySize := Some m; halts := halts o; jumps := jumps o; writes := writes o;
  reverts := reverts o; returns := returns o |}.
Definition with_flags (halts jumps writes reverts returns : bool) (o : operation) : operation := {|
  execute := execute o; gasCost := gasCost o; pops := pops o; pushes := pushes o;
  memorySize := memorySize o; halts := halts; jumps := jumps; writes := writes;
  reverts := reverts; returns := returns |}.
Definition op_halts := with_flags true false false false false.
Definition op_jumps := with_flags false true false false false.
Definition op_writes := with_flags false false true false false.
Definition op_returns := with_flags false false false false true.
Definition op_writes_returns := with_flags false false true false true.
Definition makeDupStackFunc (n : Z) : Z * Z := (n, n + 1).
Definition makeSwapStackFunc (n : Z) : Z * Z := (n, n).

(** [newCalifornicumInstructionSet], in the order of its table *)
(** SHL to DELEGATECALL, the additions of Byzantium and Constantinople *)
Definition shift_and_call_set (ep : entry_points St) (c : OpCode) : option operation :=
  match c with
  | SHL => Some (op_ opSHL (constGasFunc GasFastestStep) 2 1)
  | SHR => Some (op_ opSHR (constGasFunc GasFastestStep) 2 1)
  | SAR => Some (op_ opSAR (constGasFunc GasFastestStep) 2 1)
  | EXTCODEHASH => Some (op_ opExtCodeHash gasExtCodeHash 1 1)
  | CREATE2 => Some (with_mem memoryCreate2 (op_writes_returns (op_ (opCreate2 ep) gasCreate2 4 1)))
  | STATICCALL_ => Some (with_mem memoryStaticCall (op_returns (op_ (opStaticCall ep) gasStaticCall 6 1)))
  | RETURNDATASIZE => Some (op_ opReturnDataSize (constGasFunc GasQuickStep) 0 1)
  | RETURNDATACOPY => Some (with_mem memoryReturnDataCopy (op_ opReturnDataCopy gasReturnDataCopy 3 0))
  | REVERT => Some (with_mem memoryRevert (with_flags false false false true true (op_ opRevert gasRevert 2 0)))
  | DELEGATECALL_ => Some (with_mem memoryDelegateCall (op_returns (op_ (opDelegateCall ep) gasDelegateCall 6 1)))
  | _ => None
  end.
(** STOP to KECCAK256 *)
Definition arithmetic_set (c : OpCode) : option operation :=
  match c with
  | STOP => Some (op_halts (op_ opStop (constGasFunc 0) 0 0))
  | ADD => Some (op_ opAdd (constGasFunc GasFastestStep) 2 1)
  | MUL => Some (op_ opMul (constGasFunc GasFastStep) 2 1)
  | SUB => Some (op_ opSub (constGasFunc GasFastestStep) 2 1)
  | DIV => Some (op_ opDiv (constGasFunc GasFastStep) 2 1)
  | SDIV => Some (op_ opSdiv (constGasFunc GasFastStep) 2 1)
  | MOD => Some (op_ opMod (constGasFunc GasFastStep) 2 1)
  | SMOD => Some (op_ opSmod (constGasFunc GasFastStep) 2 1)
  | ADDMOD => Some (op_ opAddmod (constGasFunc GasMidStep) 3 1)
  | MULMOD => Some (op_ opMulmod (constGasFunc GasMidStep) 3 1)
  | EXP => Some (op_ opExp gasExp 2 1)
  | SIGNEXTEND => Some (op_ opSignExtend (constGasFunc GasFastStep) 2 1)
  | LT => Some (op_ opLt (constGasFunc GasFastestStep) 2 1)
  | GT => Some (op_ opGt (constGasFunc GasFastestStep) 2 1)
  | SLT => Some (op_ opSlt (constGasFunc GasFastestStep) 2 1)
  | SGT => Some (op_ opSgt (constGasFunc GasFastestStep) 2 1)
  | EQ => Some (op_ opEq (constGasFunc GasFastestStep) 2 1)
  | ISZERO => Some (op_ opIszero (constGasFunc GasFastestStep) 1 1)
  | AND => Some (op_ opAnd (constGasFunc GasFastestStep) 2 1)
  | XOR => Some (op_ opXor (constGasFunc GasFastestStep) 2 1)
  | OR => Some (op_ opOr (constGasFunc GasFastestStep) 2 1)
  | NOT => Some (op_ opNot (constGasFunc GasFastestStep) 1 1)
  | BYTE => Some (op_ opByte (constGasFunc GasFastestStep) 2 1)
  | KECCAK256 => Some (with_mem memoryKeccak256 (op_ opKeccak256 gasKeccak256 2 1))
  | _ => None
  end.
(** ADDRESS to SELFBALANCE *)
Definition environment_set (c : OpCode) : option operation :=
  match c with
  | ADDRESS => Some (op_ opAddress (constGasFunc GasQuickStep) 0 1)
  | BALANCE => Some (op_ opBalance gasBalance 1 1)
  | ORIGIN => Some (op_ opOrigin (constGasFunc GasQuickStep) 0 1)
  | CALLER => Some (op_ opCaller (constGasFunc GasQuickStep) 0 1)
  | CALLVALUE => Some (op_ opCallValue (constGasFunc GasQuickStep) 0 1)
  | CALLDATALOAD => Some (op_ opCallDataLoad (constGasFunc GasFastestStep) 1 1)
  | CALLDATASIZE => Some (op_ opCallDataSize (constGasFunc GasQuickStep) 0 1)
  | CALLDATACOPY => Some (with_mem memoryCallDataCopy (op_ opCallDataCopy gasCallDataCopy 3 0))
  | CODESIZE => Some (op_ opCodeSize (constGasFunc GasQuickStep) 0 1)
  | CODECOPY => Some (with_mem memoryCodeCopy (op_ opCodeCopy gasCodeCopy 3 0))
  | GASPRICE => Some (op_ opGasprice (constGasFunc GasQuickStep) 0 1)
  | EXTCODESIZE => Some (op_ opExtCodeSize gasExtCodeSize 1 1)
  | EXTCODECOPY => Some (with_mem memoryExtCodeCopy (op_ opExtCodeCopy gasExtCodeCopy 4 0))
  | BLOCKHASH => Some (op_ (opBlockhash env) (constGasFunc GasExtStep) 1 1)
  | COINBASE => Some (op_ opCoinbase (constGasFunc GasQuickStep) 0 1)
  | TIMESTAMP => Some (op_ opTimestamp (constGasFunc GasQuickStep) 0 1)
  | NUMBER => Some (op_ opNumber (constGasFunc GasQuickStep) 0 1)
  | DIFFICULTY => Some (op_ opDifficulty (constGasFunc GasQuickStep) 0 1)
  | GASLIMIT => Some (op_ opGasLimit (constGasFunc GasQuickStep) 0 1)
  | CHAINID => Some (op_ (opChainID env) (constGasFunc GasQuickStep) 0 1)
  | SELFBALANCE => Some (op_ opSelfBalance (constGasFunc GasFastStep) 0 1)
  | _ => None
  end.
(** POP to PUSH0 *)
Definition memory_and_flow_set (c : OpCode) : option operation :=
  match c with
  | POP => Some (op_ opPop (constGasFunc GasQuickStep) 1 0)
  | MLOAD => Some (with_mem memoryMLoad (op_ opMload gasMLoad 1 1))
  | MSTORE => Some (with_mem memoryMStore (op_ opMstore gasMStore 2 0))
  | MSTORE8 => Some (with_mem memoryMStore8 (op_ opMstore8 gasMStore8 2 0))
  | SLOAD => Some (op_ opSload gasSLoad 1 1)
  | SSTORE => Some (op_writes (op_ opSstore gasSStore 2 0))
  | JUMP => Some (op_jumps (op_ opJump (constGasFunc GasMidStep) 1 0))
  | JUMPI => Some (op_jumps (op_ opJumpi (constGasFunc GasSlowStep) 2 0))
  | PC => Some (op_ opPc (constGasFunc GasQuickStep) 0 1)
  | MSIZE => Some (op_ opMsize (constGasFunc GasQuickStep) 0 1)
  | GAS => Some (op_ opGas (constGasFunc GasQuickStep) 0 1)
  | JUMPDEST_ => Some (op_ opJumpdest (constGasFunc JumpdestGas) 0 0)
  | PUSH0 => Some (op_ opPush0 (constGasFunc GasQuickStep) 0 1)
  | _ => None
  end.
(** PUSH1 to PUSH32 *)
Definition push_set (c : OpCode) : option operation :=
  match c with
  | PUSH n => Some (op_ (makePush n n) gasPush 0 1)
  | _ => None
  end.
(** DUP1 to SWAP16 *)
Definition dup_and_swap_set (c : OpCode) : option operation :=
  match c with
  | DUP n =>
      let '(pop, push) := makeDupStackFunc n in
      Some (op_ (makeDup (Z.to_nat n)) gasDup pop push)
  | SWAP n =>
      let '(pop, push) := makeSwapStackFunc (n + 1) in
      Some (op_ (makeSwap (Z.to_nat n)) gasSwap pop push)
  | _ => None
  end.
(** LOG0 to SELFDESTRUCT *)
Definition system_set (ep : entry_points St) (c : OpCode) : option operation :=
  match c with
  | LOG n => Some (with_mem memoryLog (op_writes (op_ (makeLog (Z.to_nat n)) (makeGasLog n) (n + 2) 0)))
  | TLOAD => Some (op_ opTload gasTLoad 1 1)
  | TSTORE => Some (op_ opTstore gasTLoad 2 0)
  | CREATE => Some (with_mem memoryCreate (op_writes_returns (op_ (opCreate ep) gasCreate 3 1)))
  | CALL_ => Some (with_mem memoryCall (op_returns (op_ (opCall ep) gasCall 7 1)))
  | CALLCODE_ => Some (with_mem memoryCall (op_returns (op_ (opCallCode ep) gasCallCode 7 1)))
  | RETURN => Some (with_mem memoryReturn (op_halts (op_ opReturn gasReturn 2 0)))
  | SELFDESTRUCT => Some (with_flags true false true false false (op_ opSuicide gasSuicide 1 0))
  | _ => None
  end.
(** [enable5656] *)
Definition mcopy_operation : operation :=
  with_mem memoryMcopy (op_ opMcopy gasMcopy 3 0).
(** [newEblaInstructionSet] *)
Definition instruction_set (ep : entry_points St) (c : OpCode) : operation :=
  match shift_and_call_set ep c with Some o => o | None =>
  match arithmetic_set c with Some o => o | None =>
  match environment_set c with Some o => o | None =>
  match memory_and_flow_set c with Some o => o | None =>
  match push_set c with Some o => o | None =>
  match dup_and_swap_set c with Some o => o | None =>
  match system_set ep c with Some o => o | None => mcopy_operation
  end end end end end end end.

(** ** The loop of [run] *)
(** The memory an instruction needs, in words of 32 bytes. *)
Definition memory_needed (o : operation) : M W Z :=
  match memorySize o with
  | None => mret 0
  | Some f =>
      n ← f;
      let '(memSize, overflow) := Uint64WithOverflow n in
      fail_if overflow errGasUintOverflow ;;
      checked (SafeMul (toWordSize memSize) 32)
  end.
(** [cost, err = gasCost(...); if err != nil || !contract.UseGas(cost)] *)
Definition charge (o : operation) (size : Z) : M W unit := λ s,
  match gasCost o size s with
  | (Ret cost, s1) =>
      (ok ← UseGas cost; fail_if (negb ok) ErrOutOfGas) s1
  | (Err _, s1) => (Err ErrOutOfGas, s1)
  | (Panic p, s1) => (Panic p, s1)
  end.
Definition is_call (c : OpCode) : bool := match c with CALL_ => true | _ => false end.
(** One round: the result and the error of the run when it is over. *)
Definition step (ep : entry_points St) : M W (option (bytes * option string)) :=
  s ← get;
  match decode (GetOp (m_contract s) (m_pc s)) with
  | None => throw ErrInvalidOpcode
  | Some c =>
      let o := instruction_set ep c in
      match makeStackFunc (pops o) (pushes o) s with
      | Some e => throw e
      | None =>
          when (evm_read_only (m_evm s))
            (if writes o then throw ErrWriteProtection
             else when (is_call c) (v ← Back 2; fail_if (0 <? BitLen v) ErrWriteProtection)) ;;
          size ← memory_needed o;
          charge o size ;;
          when (0 <? size) (on_mem (λ p m, Ret (Resize size p m))) ;;
          res ← execute o;
          when (returns o) (modify (λ s, m_with_evm (evm_with_retval res (m_evm s)) s)) ;;
          if reverts o then mret (Some (res, Some ErrExecutionReverted))
          else if halts o then mret (Some (res, None))
          else
            when (negb (jumps o)) (modify (λ s, m_with_pc (u64 (m_pc s + 1)) s)) ;;
            mret None
      end
  end.

(** The machine at the start of a run, and the virtual machine after it. *)
Definition start_run (c : Contract) (readOnly : bool) (e : V) : W :=
  {| m_evm := evm_with_frame (u16 (evm_depth e + 1)) (evm_read_only e || readOnly) [] e;
     m_contract := c; m_mem := Init (evm_mem_pool e); m_stack := []; m_pc := 0 |}.
Definition finish_run (readOnly : bool) (s : W) : V :=
  let e := m_evm s in
  evm_with_pool (Release (evm_mem_pool e) (m_mem s))
    (evm_with_frame (u16 (evm_depth e - 1)) readOnly (evm_last_retval e) e).
Definition run_result : Type := bytes * option string * Z.
(** [run], over the loop: what it returns, its error, and the gas the contract has left. *)
Definition run_with (loop : M W (bytes * option string)) (c : Contract) (readOnly : bool)
  : M V run_result := λ e,
  match loop (start_run c readOnly e) with
  | (Ret (ret, err), s) => (Ret (ret, err, gas_of (m_contract s)), finish_run (evm_read_only e) s)
  | (Err x, s) => (Ret ([], Some x, gas_of (m_contract s)), finish_run (evm_read_only e) s)
  | (Panic p, s) => (Panic p, m_evm s)
  end.

(** ** [call] *)
Definition transfer (from to : address) (amount : Z) : M St unit :=
  SubBalance from amount ;; AddBalance to amount.
Definition sends_value (typ : call_type) : bool :=
  match typ with CALL | CALLCODE => true | _ => false end.
Definition has_funds (a : address) (value : Z) : M St bool :=
  if bool_decide (a = ZeroAddress) then mret true else BalanceGTE a value.
(** The frame: whose storage and balance, and who the caller is. *)
Definition call_frame (typ : call_type) (caller : ContractRef) (callee : address) (input : bytes)
    (gas value : Z) : outcome CallFrame :=
  match typ with
  | CALL | STATICCALL =>
      Ret {| CallerAccount := ref_account caller; Account := callee; Input := input; Gas := gas;
             Value := value |}
  | CALLCODE =>
      Ret {| CallerAccount := ref_account caller; Account := ref_account caller; Input := input;
             Gas := gas; Value := value |}
  | DELEGATECALL =>
      match ref_contract caller with
      | Some parent =>
          Ret {| CallerAccount := CallerAccount (Frame parent); Account := ref_account caller;
                 Input := input; Gas := gas; Value := Value (Frame parent) |}
      | None => Panic "interface conversion: vm.ContractRef is not *vm.Contract"
      end
  end.
(** The precompiled contract, or the code of the account. *)
Definition precompiled_result (p : Precompiled St) (frame : CallFrame) (gas_left : Z)
  : M V call_result := λ e,
  match Run p frame e with
  | (Ret r, e1) => (Ret (r, gas_left, None), e1)
  | (Err x, e1) => (Ret (Fresh [], gas_left, Some x), e1)
  | (Panic x, e1) => (Panic x, e1)
  end.
Definition run_precompiled (p : Precompiled St) (frame : CallFrame) (gas : Z) : M V call_result :=
  gas_required ← RequiredGas p frame;
  if gas_required <=? gas then precompiled_result p frame (u64 (gas - gas_required))
  else mret (Fresh [], gas, Some ErrOutOfGas).
Definition run_code (run : Contract → bool → M V run_result) (typ : call_type) (callee : address)
    (code : bytes) (frame : CallFrame) (gas : Z) : M V call_result :=
  match code with
  | [] => mret (Fresh [], gas, None)
  | _ =>
      h ← on_state (GetCodeHash callee);
      r ← run (NewContract frame {| Code := code; CodeHash := h |})
            (match typ with STATICCALL => true | _ => false end);
      let '(ret, err, gas_left) := r in
      mret (Fresh ret, gas_left, err)
  end.
(** An error reverts the state; it takes the gas too, unless the contract asked for it or is a
    precompiled one. *)
Definition settle (snapshot : nat) (precompiled : bool) (r : call_result) : M V call_result :=
  let '(ret, gas_left, err) := r in
  match err with
  | None => mret r
  | Some e =>
      on_state (RevertToSnapshot snapshot) ;;
      mret (ret, if negb (bool_decide (e = ErrExecutionReverted)) && negb precompiled
                 then 0 else gas_left, err)
  end.
(** The value moves, unless there is no one to call: then the call is over. *)
Definition begin_call (typ : call_type) (caller callee : address) (value : Z) : M St bool :=
  match typ with
  | CALL =>
      nil ← (if value =? 0 then IsNIL callee else mret false);
      if nil && (match precompiles callee with None => true | Some _ => false end) then mret false
      else transfer caller callee value ;; mret true
  | STATICCALL => AddBalance callee 0 ;; mret true
  | _ => mret true
  end.
Definition call_with (run : Contract → bool → M V run_result) (typ : call_type)
    (caller : ContractRef) (callee : address) (input : bytes) (gas value : Z)
  : M V call_result := λ e,
  if CallCreateDepth <? evm_depth e then (Ret (Fresh [], gas, Some ErrDepth), e)
  else
    (funds ← (if sends_value typ then on_state (has_funds (ref_account caller) value) else mret true);
     if negb funds then mret (Fresh [], gas, Some ErrInsufficientBalanceForTransfer)
     else
       snapshot ← on_state Snapshot;
       go ← on_state (begin_call typ (ref_account caller) callee value);
       if negb go then mret (Fresh [], gas, None)
       else
         code ← on_state (GetCode callee);
         frame ← of_outcome (call_frame typ caller callee input gas value);
         match precompiles callee with
         | Some p => r ← run_precompiled p frame gas; settle snapshot true r
         | None => r ← run_code run typ callee code frame gas; settle snapshot false r
         end) e.

(** ** [create] *)
Definition CreateAddress (b : address) (nonce : Z) : outcome address :=
  match enc_struct [Ret (AppendString b); AppendBigInt nonce] with
  | Ret l => Ret (take 20 (drop 12 (keccak l)))
  | Err x => Panic x
  | Panic x => Panic x
  end.
Definition CreateAddress2 (b : address) (salt : hash) (inithash : hash) : address :=
  take 20 (drop 12 (keccak ([0xff] ++ b ++ salt ++ inithash))).
(** What is deployed: its size is limited, its storage paid for. *)
Definition deploy (new_acc : address) (r : run_result) : M V run_result :=
  let '(ret, err, gas) := r in
  let err :=
    match err with
    | None => if MaxCodeSize <? Z.of_nat (length ret) then Some ErrMaxCodeSizeExceeded else None
    | e => e
    end in
  match err with
  | Some e => mret (ret, Some e, gas)
  | None =>
      let createDataGas := u64 (u64 (Z.of_nat (length ret)) * CreateDataGas) in
      if gas <? createDataGas then mret (ret, Some ErrCodeStoreOutOfGas, gas)
      else on_state (SetCode new_acc ret) ;; mret (ret, None, u64 (gas - createDataGas))
  end.
Definition create_with (run : Contract → bool → M V run_result) (caller : address)
    (code : CodeAndHash) (gas value : Z) (new_address : address) : M V run_result := λ e,
  if CallCreateDepth <? evm_depth e then (Ret ([], Some ErrDepth, gas), e)
  else
    (funds ← on_state (has_funds caller value);
     if negb funds then mret ([], Some ErrInsufficientBalanceForTransfer, gas)
     else
       on_state (IncrementNonce caller) ;;
       on_state (GetAccount new_address) ;;
       nonce ← on_state (GetNonce new_address);
       size ← on_state (GetCodeSize new_address);
       if negb (nonce =? 0) || negb (size =? 0)
       then mret ([], Some ErrContractAddressCollision, 0)
       else
         snapshot ← on_state Snapshot;
         on_state (IncrementNonce new_address) ;;
         on_state (transfer caller new_address value) ;;
         r ← run (NewContract {| CallerAccount := caller; Account := new_address; Input := [];
                                 Gas := gas; Value := value |} code) false;
         r ← deploy new_address r;
         let '(ret, err, gas) := r in
         match err with
         | None => mret r
         | Some x =>
             on_state (RevertToSnapshot snapshot) ;;
             mret (ret, err, if bool_decide (x = ErrExecutionReverted) then gas else 0)
         end) e.
Definition create_1_with run (caller : address) (code : bytes) (gas value : Z)
  : M V (bytes * address * Z * option string) :=
  nonce ← on_state (GetNonce caller);
  a ← of_outcome (CreateAddress caller nonce);
  r ← create_with run caller {| Code := code; CodeHash := None |} gas value a;
  let '(ret, err, gas) := r in mret (ret, a, gas, err).
Definition create_2_with run (caller : address) (code : bytes) (gas endowment salt : Z)
  : M V (bytes * address * Z * option string) :=
  let h := keccak code in
  let a := CreateAddress2 caller (Bytes32 salt) h in
  r ← create_with run caller {| Code := code; CodeHash := Some h |} gas endowment a;
  let '(ret, err, gas) := r in mret (ret, a, gas, err).

(** ** [run]: the loop, and the calls of its instructions through it *)
Definition entry_with (run : Contract → bool → M V run_result) : entry_points St := {|
  ep_call := call_with run; ep_create_1 := create_1_with run; ep_create_2 := create_2_with run |}.
Definition no_fuel : string := "(out of fuel)".
Fixpoint loop (fuel : nat) : M W (bytes * option string) :=
  match fuel with
  | O => go_panic no_fuel
  | S fuel =>
      r ← step (entry_with (run_with (loop fuel)));
      match r with
      | Some r => mret r
      | None => loop fuel
      end
  end.
Definition run (fuel : nat) : Contract → bool → M V run_result := run_with (loop fuel).
Definition call (fuel : nat) := call_with (run fuel).
Definition create_1 (fuel : nat) := create_1_with (run fuel).
Definition create_2 (fuel : nat) := create_2_with (run fuel).

(** ** [Main]: a transaction *)
Record ExecutionResult : Type := {
  CodeRetval : bytes; NewContractAddr : address; Logs : list LogRecord; GasUsed : Z;
  ExecutionErr : option string; ConsensusErr : option string }.
Definition consensusErr (gas : Z) (e : string) : ExecutionResult := {|
  CodeRetval := []; NewContractAddr := ZeroAddress; Logs := []; GasUsed := gas;
  ExecutionErr := None; ConsensusErr := Some e |}.
(** The state as it was when the sender's account is looked up. *)
Definition bytes_of_ret (input : bytes) (r : retdata) : bytes :=
  match r with Fresh b => b | SameAsInput => input end.
(** The refund and the price of the gas that is left. *)
Definition pay_back (t : Transaction) (gas_left : Z) : M St Z :=
  refund ← GetRefund;
  let gas_left := u64 (gas_left + Z.min refund (u64 (TxGasCap t - gas_left) / 2)) in
  mret gas_left.
Definition finish_transaction (t : Transaction) (ret : bytes) (addr : address) (gas_left : Z)
    (err : option string) : M St ExecutionResult :=
  if bool_decide (err = Some ErrInsufficientBalanceForTransfer)
  then mret {| CodeRetval := ret; NewContractAddr := addr; Logs := []; GasUsed := TxGasCap t;
               ExecutionErr := None; ConsensusErr := err |}
  else
    gas_left ← pay_back t gas_left;
    logs ← GetLogs;
    AddBalance (From t) (gas_left * GasPrice t) ;;
    mret {| CodeRetval := ret; NewContractAddr := addr; Logs := logs;
            GasUsed := u64 (TxGasCap t - gas_left); ExecutionErr := err; ConsensusErr := None |}.
Definition execute_transaction (fuel : nat) (t : Transaction) (gas_left : Z)
  : M V (bytes * address * Z * option string) :=
  match To t with
  | None =>
      on_state (SetNonce (From t) (Nonce t)) ;;
      create_1 fuel (From t) (TxInput t) gas_left (TxValue t)
  | Some to =>
      on_state (GetAccount to) ;;
      on_state (SetNonce (From t) (Nonce t + 1)) ;;
      r ← call fuel CALL {| ref_account := From t; ref_contract := None |} to (TxInput t)
            gas_left (TxValue t);
      let '(ret, gas_left, err) := r in
      mret (bytes_of_ret (TxInput t) ret, ZeroAddress, gas_left, err)
  end.
Definition main_ (fuel : nat) (t : Transaction) : M V ExecutionResult :=
  on_state (GetAccount (From t)) ;;
  sender_nonce ← on_state (GetNonce (From t));
  let gas_fee := TxGasCap t * GasPrice t in
  funds ← on_state (has_funds (From t) gas_fee);
  if negb funds then
    caller_balance ← on_state (GetBalance (From t));
    available_funds_gas ← of_outcome (big_div caller_balance (GasPrice t));
    on_state (SubBalance (From t) (available_funds_gas * GasPrice t)) ;;
    when (sender_nonce <=? Nonce t) (on_state (SetNonce (From t) (Nonce t + 1))) ;;
    mret (consensusErr (u64 available_funds_gas) ErrInsufficientBalanceForGas)
  else
    on_state (SubBalance (From t) gas_fee) ;;
    if Nonce t <? sender_nonce then mret (consensusErr (TxGasCap t) ErrNonceTooLow)
    else
      match IntrinsicGas (TxInput t) (bool_decide (To t = None)) with
      | Ret gas_intrinsic =>
          if TxGasCap t <? gas_intrinsic then
            on_state (SetNonce (From t) (Nonce t + 1)) ;;
            mret (consensusErr (TxGasCap t) ErrIntrinsicGas)
          else
            r ← execute_transaction fuel t (u64 (TxGasCap t - gas_intrinsic));
            let '(ret, addr, gas_left, err) := r in
            on_state (finish_transaction t ret addr gas_left err)
      | Err e =>
          on_state (SetNonce (From t) (Nonce t + 1)) ;; mret (consensusErr (TxGasCap t) e)
      | Panic p => go_panic p
      end.
(** The transaction is known to the instructions, and the analyses are kept, while it runs. *)
Definition Main (fuel : nat) (t : Transaction) : M V ExecutionResult := λ e,
  let '(o, e1) := main_ fuel t (evm_with_trx t (evm_jumpdests e) e) in
  (o, evm_with_trx (evm_trx e) ∅ e1).
End run.
