(* ===== verification/EvmFacts.v ===== *)
(** What every step of the virtual machine does to the frame: which steps leave the gas of the
    contract alone, and that none of them but the exhausted loop runs out of fuel. *)
From S2P Require Import Prelude Codec Rlp Uint256 Storage EvmMemory EvmAnalysis EvmInterface.
From S2P Require Import EvmMachine EvmInstructions EvmRun.

(** ** Accounts whose operations end *)
(** Panics that are neither of the stack nor of the fuel. *)
Abbreviation host_panic := (λ p : string, p ≠ no_fuel ∧ p ≠ stack_panic).
Abbreviation ends := (moves (λ _ _, True) host_panic).
Class EvmStateEnds (St : Type) `{!EvmState St} : Prop := {
  ends_GetAccount a : ends (GetAccount a);
  ends_GetBalance a : ends (GetBalance a);
  ends_GetNonce a : ends (GetNonce a);
  ends_GetCodeHash a : ends (GetCodeHash a);
  ends_GetCode a : ends (GetCode a);
  ends_GetCodeSize a : ends (GetCodeSize a);
  ends_GetCommittedState a k : ends (GetCommittedState a k);
  ends_GetState a k : ends (GetState a k);
  ends_HasSuicided a : ends (HasSuicided a);
  ends_IsNIL a : ends (IsNIL a);
  ends_IsEIP161Empty a : ends (IsEIP161Empty a);
  ends_SetCode a c : ends (SetCode a c);
  ends_AddBalance a x : ends (AddBalance a x);
  ends_SubBalance a x : ends (SubBalance a x);
  ends_IncrementNonce a : ends (IncrementNonce a);
  ends_SetNonce a x : ends (SetNonce a x);
  ends_SetState a k x : ends (SetState a k x);
  ends_Suicide a b : ends (Suicide a b);
  ends_AddLog l : ends (AddLog l);
  ends_GetLogs : ends GetLogs;
  ends_AddRefund g : ends (AddRefund g);
  ends_SubRefund g : ends (SubRefund g);
  ends_GetRefund : ends GetRefund;
  ends_RevertToSnapshot n : ends (RevertToSnapshot n);
  ends_Snapshot : ends Snapshot;
  ends_GetTransientState a k : ends (GetTransientState a k);
  ends_SetTransientState a k v : ends (SetTransientState a k v)
}.
#[export] Hint Resolve ends_GetAccount ends_GetBalance ends_GetNonce ends_GetCodeHash ends_GetCode
  ends_GetCodeSize ends_GetCommittedState ends_GetState ends_HasSuicided ends_IsNIL
  ends_IsEIP161Empty ends_SetCode ends_AddBalance ends_SubBalance ends_IncrementNonce
  ends_SetNonce ends_SetState ends_Suicide ends_AddLog ends_GetLogs ends_AddRefund ends_SubRefund
  ends_GetRefund ends_RevertToSnapshot ends_Snapshot ends_GetTransientState
  ends_SetTransientState : moves.
#[export] Instance anything_preorder S : PreOrder (λ _ _ : S, True).
Proof. by split. Qed.

(** ** Steps that leave the gas of the contract alone *)
Section gas.
Context {St : Type} `{!EvmState St} `{!EvmStateEnds St} `{Uint256} `{Keccak}.
Abbreviation W := (Machine St).
Definition gas (s : W) : Z := gas_of (m_contract s).
Definition same_gas (s s' : W) : Prop := gas s' = gas s.
#[export] Instance same_gas_preorder : PreOrder same_gas.
Proof. split; [done|intros ???; unfold same_gas; congruence]. Qed.
Abbreviation keeps_gas := (moves same_gas (λ p, p ≠ no_fuel)).

Lemma keeps_get : keeps_gas (get : M W W).
Proof. done. Qed.
Lemma keeps_modify (f : W → W) : (∀ s, gas (f s) = gas s) → keeps_gas (modify f).
Proof. intros Hf s. apply Hf. Qed.
Lemma keeps_on_evm {A} (m : M (EVM St) A) : ends m → keeps_gas (on_evm m).
Proof. intros Hm s. unfold on_evm. specialize (Hm (m_evm s)).
  destruct (m (m_evm s)) as [[] ?]; [done..|apply Hm].
Qed.
Lemma ends_on_state {A} (m : M St A) : ends m → ends (on_state m).
Proof. intros Hm e. unfold on_state. specialize (Hm (evm_state e)). by destruct (m _) as [[] ?]. Qed.
Lemma keeps_acc {A} (m : M St A) : ends m → keeps_gas (acc m).
Proof. intros Hm. by apply keeps_on_evm, ends_on_state. Qed.
Lemma keeps_push d : keeps_gas (push d : M W unit).
Proof. by apply keeps_modify. Qed.
Lemma keeps_pop : keeps_gas (pop : M W word).
Proof. intros s. unfold pop. by destruct (m_stack s). Qed.
Lemma keeps_peek : keeps_gas (peek : M W word).
Proof. intros s. unfold peek. by destruct (m_stack s). Qed.
Lemma keeps_set_top y : keeps_gas (set_top y : M W unit).
Proof. intros s. unfold set_top. by destruct (m_stack s). Qed.
Lemma keeps_Back n : keeps_gas (Back n : M W word).
Proof. intros s. unfold Back. by destruct (m_stack s !! n). Qed.
Lemma keeps_swap n : keeps_gas (swap n : M W unit).
Proof. intros s. unfold swap. destruct (m_stack s !! (n - 1)%nat); [|done]. by destruct (m_stack s !! 0%nat). Qed.
(** The panics of slices are their own. *)
Definition other_panic {A} (o : outcome A) : Prop := ∀ p, o = Panic p → host_panic p.
Lemma keeps_outcome {A} (o : outcome A) : other_panic o → keeps_gas (of_outcome o : M W A).
Proof. intros Ho. apply moves_outcome; [apply _|]. intros p Hp. by apply Ho. Qed.
Lemma keeps_of_mem {A} (f : MemoryPool → Memory → outcome A) :
  (∀ p m, other_panic (f p m)) → keeps_gas (of_mem f : M W A).
Proof.
  intros Hf s. unfold of_mem. specialize (Hf (evm_mem_pool (m_evm s)) (m_mem s)).
  destruct (f _ _) as [| |p]; [done..|by apply (Hf p)].
Qed.
Lemma keeps_on_mem f : (∀ p m, other_panic (f p m)) → keeps_gas (on_mem f : M W unit).
Proof.
  intros Hf s. unfold on_mem. specialize (Hf (evm_mem_pool (m_evm s)) (m_mem s)).
  destruct (f _ _) as [[]| |p]; [done..|by apply (Hf p)].
Qed.
Lemma other_go_slice l lo hi : other_panic (go_slice l lo hi).
Proof. intros p. unfold go_slice. destruct (_ && _); [done|]. by intros [= <-]. Qed.
Lemma other_getData d a n : other_panic (getData d a n).
Proof.
  intros p. unfold getData. destruct (go_slice _ _ _) eqn:E; try done.
  intros [= <-]. by eapply other_go_slice.
Qed.
Ltac other_solve :=
  intros ?; repeat (case_match; try done);
  try (intros [= <-]; first [done|by eapply other_go_slice]); by eapply other_go_slice.
Lemma other_GetPtr a n p m : other_panic (GetPtr a n p m).
Proof. unfold GetPtr. other_solve. Qed.
Lemma other_GetCopy a n p m : other_panic (GetCopy a n p m).
Proof. unfold GetCopy. other_solve. Qed.
Lemma other_Set a n v p m : other_panic (Set_ a n v p m).
Proof. unfold Set_. other_solve. Qed.
Lemma other_Set32 a w p m : other_panic (Set32 a w p m).
Proof. unfold Set32. other_solve. Qed.
Lemma other_set_byte a b p m : other_panic (set_byte a b p m).
Proof. unfold set_byte. other_solve. Qed.
Lemma other_Copy a b n p m : other_panic (Copy a b n p m).
Proof. unfold Copy. other_solve. Qed.
Lemma other_or_at i b bits : other_panic (or_at i b bits).
Proof. unfold or_at. other_solve. Qed.
Lemma other_set8 pos bits : other_panic (set8 pos bits).
Proof.
  intros p. unfold set8. destruct (or_at _ _ _) eqn:E; [apply other_or_at|done|].
  intros [= <-]. by eapply other_or_at.
Qed.
Lemma other_mark8 n pc bits : other_panic (mark8 n pc bits).
Proof.
  revert pc bits. induction n as [|n IH]; intros pc bits p; simpl; [done|].
  destruct (set8 pc bits) eqn:E; [apply IH|done|]. intros [= <-]. by eapply other_set8.
Qed.
Lemma other_mark1 n pc bits : other_panic (mark1 n pc bits).
Proof.
  revert pc bits. induction n as [|n IH]; intros pc bits p; simpl; [done|].
  destruct (set pc bits) eqn:E; [apply IH|done|]. intros [= <-]. by eapply other_or_at.
Qed.
Lemma other_code_loop fuel code pc bits : other_panic (code_loop fuel code pc bits).
Proof.
  revert pc bits. induction fuel as [|fuel IH]; intros pc bits p; simpl; [done|].
  destruct (code !! _) as [op|]; [|done]. destruct (is_push op); [|apply IH].
  unfold mark. destruct (mark8 _ _ _) eqn:E; [|done|intros [= <-]; by eapply other_mark8].
  destruct (mark1 _ _ _) eqn:E1; [apply IH|done|]. intros [= <-]. by eapply other_mark1.
Qed.
Lemma other_codeSegment bits q : other_panic (codeSegment bits q).
Proof. unfold codeSegment. other_solve. Qed.
Lemma other_callGas a b c : other_panic (callGas a b c).
Proof. unfold callGas. intros p. simpl. by repeat case_match. Qed.
#[local] Hint Resolve keeps_get keeps_on_evm keeps_acc keeps_push keeps_pop keeps_peek
  keeps_set_top keeps_Back keeps_swap keeps_outcome keeps_of_mem keeps_on_mem other_go_slice
  other_getData other_GetPtr other_GetCopy other_Set other_Set32 other_set_byte other_Copy
  other_codeSegment other_callGas : moves.
Ltac keeps_modify := apply keeps_modify; intros ?; reflexivity.
#[local] Hint Extern 3 (moves same_gas _ (modify _)) => keeps_modify : moves.

Lemma keeps_get_account w : keeps_gas (get_account w).
Proof. unfold get_account. moves_solve. Qed.
Lemma keeps_self_account : keeps_gas (self_account : M W address).
Proof. unfold self_account. moves_solve. Qed.
Lemma keeps_checked r : keeps_gas (checked r : M W Z).
Proof. unfold checked. moves_solve. Qed.
#[local] Hint Resolve keeps_get_account keeps_self_account keeps_checked : moves.
Lemma keeps_memory_gas n : keeps_gas (memory_gas n : M W Z).
Proof.
  intros s. unfold memory_gas, memoryGasCost. by repeat case_match; simplify_eq.
Qed.
Lemma keeps_word_gas n p : keeps_gas (word_gas n p : M W Z).
Proof. unfold word_gas. moves_solve. Qed.
Lemma keeps_pass_gas g : keeps_gas (pass_gas g : M W Z).
Proof. unfold pass_gas. moves_solve. Qed.
#[local] Hint Resolve keeps_memory_gas keeps_word_gas keeps_pass_gas : moves.

Context (env : environment) (ep : entry_points St).
Lemma keeps_gasCost c size : keeps_gas (gasCost (instruction_set env ep c) size).
Proof.
  destruct c; simpl;
    unfold constGasFunc, gasExp, gasKeccak256, gasBalance, gasCallDataCopy, gasCodeCopy,
      gasExtCodeSize, gasExtCodeCopy, gasReturnDataCopy, gasExtCodeHash, gasMLoad, gasMStore,
      gasMStore8, gasSLoad, gasSStore, gasMcopy, gasPush, gasDup, gasSwap, makeGasLog, gasTLoad,
      gasCreate, gasCreate2, gasCall, gasCallCode, gasReturn, gasDelegateCall, gasStaticCall,
      gasRevert, gasSuicide, memoryCopierGas, memory_plus; moves_solve.
Qed.
Lemma keeps_mem_size a b : keeps_gas (mem_size a b : M W word).
Proof. unfold mem_size. moves_solve. Qed.
#[local] Hint Resolve keeps_mem_size : moves.
Lemma keeps_memory_needed c : keeps_gas (memory_needed (instruction_set env ep c)).
Proof.
  unfold memory_needed, Uint64WithOverflow. destruct c; simpl; unfold memoryKeccak256, memoryCallDataCopy,
    memoryCodeCopy, memoryExtCodeCopy, memoryReturnDataCopy, memoryMLoad, memoryMStore,
    memoryMStore8, memoryMcopy, memoryLog, memoryCreate, memoryCreate2, memoryCall,
    memoryDelegateCall, memoryStaticCall, memoryReturn, memoryRevert; moves_solve.
Qed.
Lemma keeps_ValidJumpdest w : keeps_gas (ValidJumpdest w : M W bool).
Proof.
  unfold ValidJumpdest. apply moves_bind; [apply _|apply keeps_get|]. intros s.
  destruct (Uint64WithOverflow w) as [d b]. destruct (b || _); [moves_solve|].
  apply moves_bind; [apply _| |moves_solve]. destruct (code_jumpdest_analysis _); [moves_solve|].
  apply moves_bind; [apply _| |moves_solve].
  apply keeps_on_evm. intros e. unfold analyze_jumpdests.
  assert (∀ b, other_panic (codeBitmap b)) as Hb by (intros; apply other_code_loop).
  repeat case_match; simplify_eq; try done; by eapply Hb.
Qed.
#[local] Hint Resolve keeps_ValidJumpdest : moves.
Lemma keeps_pop_topics n : keeps_gas (pop_topics n : M W (list hash)).
Proof. induction n; simpl; moves_solve. Qed.
Lemma keeps_copy_data d a b c : keeps_gas (copy_data d a b c : M W bytes).
Proof. unfold copy_data, done_. moves_solve. Qed.
Lemma keeps_jump_to w : keeps_gas (jump_to w : M W bytes).
Proof. unfold jump_to, done_. moves_solve. Qed.
#[local] Hint Resolve keeps_pop_topics keeps_copy_data keeps_jump_to : moves.

(** The instructions that run other code. *)
Definition calls (c : OpCode) : bool :=
  match c with
  | CREATE | CREATE2 | CALL_ | CALLCODE_ | DELEGATECALL_ | STATICCALL_ => true
  | _ => false
  end.
Lemma keeps_execute c : calls c = false → keeps_gas (execute (instruction_set env ep c)).
Proof.
  intros Hc. destruct c; try discriminate Hc; simpl;
    unfold opStop, opAdd, opMul, opSub, opDiv, opSdiv, opMod, opSmod, opAddmod, opMulmod, opExp,
      opSignExtend, opLt, opGt, opSlt, opSgt, opEq, opIszero, opAnd, opOr, opXor, opNot, opByte,
      opSHL, opSHR, opSAR, opKeccak256, opAddress, opBalance, opOrigin, opCaller, opCallValue,
      opCallDataLoad, opCallDataSize, opCallDataCopy, opCodeSize, opCodeCopy, opGasprice,
      opExtCodeSize, opExtCodeCopy, opReturnDataSize, opReturnDataCopy, opExtCodeHash,
      opBlockhash, opCoinbase, opTimestamp, opNumber, opDifficulty, opGasLimit, opChainID,
      opSelfBalance, opPop, opMload, opMstore, opMstore8, opSload, opSstore, opJump, opJumpi,
      opPc, opMsize, opGas, opJumpdest, opMcopy, opPush0, makePush, makeDup, makeSwap, makeLog,
      opTload, opTstore, opReturn, opRevert, opSuicide, binary, push_block, dup, done_,
      Uint64WithOverflow; moves_solve.
Qed.
End gas.

(** ** The steps of calls and creations *)
Section host.
Context {St : Type} `{!EvmState St} `{!EvmStateEnds St}.
Lemma ends_transfer a b x : ends (transfer a b x : M St unit).
Proof. unfold transfer. moves_solve. Qed.
Lemma ends_has_funds a x : ends (has_funds a x : M St bool).
Proof. unfold has_funds, BalanceGTE. moves_solve. Qed.
#[local] Hint Resolve ends_transfer : moves.
Lemma ends_begin_call precompiles typ a b x : ends (begin_call precompiles typ a b x : M St bool).
Proof. unfold begin_call. destruct typ; moves_solve. Qed.
End host.
Lemma other_CreateAddress `{Keccak} a no : other_panic (CreateAddress a no).
Proof.
  intros p. unfold CreateAddress, enc_struct, AppendBigInt. simpl.
  destruct (no =? 0); [done|]. destruct (0 <? no); [done|]. simpl. by intros [= <-].
Qed.
