(* ===== verification/EvmGas.v ===== *)
(** Gas: what the instructions cost, that a run never gives back more gas than it was given, and
    that more fuel than gas is enough for it to end. *)
From S2P Require Import Prelude Codec Rlp Uint256 Storage EvmMemory EvmAnalysis EvmInterface.
From S2P Require Import EvmMachine EvmInstructions EvmRun EvmFacts.

(** ** Values *)
Section yields.
Context {S : Type}.
(** What [m] returns satisfies [Q]. *)
Definition yields {A} (Q : A → Prop) (m : M S A) : Prop :=
  ∀ s, match m s with (Ret a, _) => Q a | _ => True end.
Lemma yields_ret {A} (Q : A → Prop) a : Q a → yields Q (mret a).
Proof. by intros ? s. Qed.
Lemma yields_bind {A B} (P : A → Prop) (Q : B → Prop) (m : M S A) (k : A → M S B) :
  yields P m → (∀ a, P a → yields Q (k a)) → yields Q (m ≫= k).
Proof.
  intros Hm Hk s. unfold mbind, M_bind. specialize (Hm s).
  destruct (m s) as [[a| |] s1]; [|done..]. by apply Hk.
Qed.
Lemma yields_any {A} (m : M S A) : yields (λ _, True) m.
Proof. intros s. by destruct (m s) as [[] ?]. Qed.
Lemma yields_drop {A B} (Q : B → Prop) (m : M S A) (k : A → M S B) :
  (∀ a, yields Q (k a)) → yields Q (m ≫= k).
Proof. intros Hk. by apply yields_bind with (λ _, True); [apply yields_any|]. Qed.
Lemma yields_mono {A} (P Q : A → Prop) (m : M S A) :
  yields P m → (∀ a, P a → Q a) → yields Q m.
Proof. intros Hm HQ s. specialize (Hm s). destruct (m s) as [[]?]; auto. Qed.
End yields.

Section cost.
Context {St : Type} `{!EvmState St} `{!EvmStateEnds St} `{Uint256} `{Keccak}.
Context (env : environment) (ep : entry_points St).
Abbreviation W := (Machine St).
Abbreviation at_least n := (λ x, n <= x < 2 ^ 64).

Lemma SafeAdd_spec x y :
  0 <= x → 0 <= y → (SafeAdd x y).2 = false → (SafeAdd x y).1 = x + y ∧ x + y < 2 ^ 64.
Proof.
  intros Hx Hy. unfold SafeAdd. simpl. rewrite Z.ltb_ge. intros Ho.
  split; [apply u64_id; unfold is_u64|]; lia.
Qed.
Lemma SafeMul_range x y : (SafeMul x y).2 = false → 0 <= (SafeMul x y).1 < 2 ^ 64.
Proof.
  unfold SafeMul. destruct (_ || _); simpl; [done|]. intros _. apply u64_range.
Qed.
Lemma yields_add x y n :
  0 <= x → 0 <= y → n <= x + y → yields (at_least n) (checked (SafeAdd x y) : M W Z).
Proof.
  intros Hx Hy Hn s. unfold checked. pose proof (SafeAdd_spec x y Hx Hy) as HS.
  destruct (SafeAdd x y) as [z []]; simpl in *; [done|]. destruct (HS eq_refl) as [-> ?]. lia.
Qed.
Lemma yields_mul x y : yields (at_least 0) (checked (SafeMul x y) : M W Z).
Proof.
  intros s. unfold checked. pose proof (SafeMul_range x y) as HS.
  destruct (SafeMul x y) as [z []]; simpl in *; [done|]. by apply HS.
Qed.
Lemma yields_memory_gas n : yields (at_least 0) (memory_gas n : M W Z).
Proof.
  intros s. unfold memory_gas, memoryGasCost.
  repeat case_match; simplify_eq; try done; apply u64_range.
Qed.
Lemma yields_word_gas k p : yields (at_least 0) (word_gas k p : M W Z).
Proof. unfold word_gas. do 2 (apply yields_drop; intros ?). apply yields_mul. Qed.
Lemma yields_const g n : n <= g < 2 ^ 64 → yields (at_least n) (mret g : M W Z).
Proof. intros. by apply yields_ret. Qed.

(** The minimal cost of an instruction: only those that end the run are free. *)
Definition min_cost (c : OpCode) : Z := match c with STOP | RETURN | REVERT => 0 | _ => 1 end.
Lemma memory_plus_cost g size : 1 <= g → yields (at_least 1) (memory_plus g size : M W Z).
Proof.
  intros Hg. unfold memory_plus. eapply yields_bind; [apply yields_memory_gas|].
  intros a Ha. simpl in Ha. apply yields_add; lia.
Qed.
Lemma pass_gas_cost g n : 0 <= g → n <= g → yields (at_least n) (pass_gas g : M W Z).
Proof.
  intros Hg Hn. unfold pass_gas. do 2 (apply yields_drop; intros ?).
  apply yields_bind with (λ t, 0 <= t).
  - intros s. unfold of_outcome, callGas. simpl.
    repeat case_match; simplify_eq; try done; apply u64_range.
  - intros t Ht. apply yields_drop. intros _. apply yields_add; lia.
Qed.
Lemma copier_cost k g size :
  1 <= g → yields (at_least 1) (memoryCopierGas k g size : M W Z).
Proof.
  intros Hg. unfold memoryCopierGas. eapply yields_bind; [apply yields_memory_gas|].
  intros a Ha. eapply yields_bind; [apply (yields_add a g 1); simpl in *; lia|]. intros b Hb.
  eapply yields_bind; [apply yields_word_gas|]. intros c Hc. simpl in *. apply yields_add; lia.
Qed.
Ltac cost_step :=
  lazymatch goal with
  | |- yields _ (memory_gas _ ≫= _) => eapply yields_bind; [apply yields_memory_gas|intros ? ?]
  | |- yields _ (word_gas _ _ ≫= _) => eapply yields_bind; [apply yields_word_gas|intros ? ?]
  | |- yields _ (checked (SafeMul _ _) ≫= _) => eapply yields_bind; [apply yields_mul|intros ? ?]
  | |- yields _ (checked (SafeAdd ?x ?y) ≫= _) =>
      eapply yields_bind; [apply (yields_add x y 1)|intros ? ?]
  | |- yields _ (checked (SafeAdd _ _)) => apply yields_add
  | |- yields _ (_ ≫= _) => apply yields_drop; intros ?
  | |- yields _ (if ?b then _ else _) => destruct b
  | |- yields _ (mret _) => apply yields_const
  | |- yields _ (pass_gas _) => apply pass_gas_cost
  end.
Ltac cost_solve :=
  intros; repeat (cbv beta zeta; cost_step); simpl in *;
  unfold ExpGas, Keccak256WordGas, LogGas, Create2Gas, SuicideRefundGas, NetSstoreNoopGas,
    NetSstoreInitGas, NetSstoreCleanGas, NetSstoreDirtyGas in *; try lia.
Lemma gas_cost_range c size : yields (at_least (min_cost c)) (gasCost (instruction_set env ep c) size).
Proof.
  destruct c; simpl;
    try (by apply yields_const); try (by apply memory_plus_cost); try (by apply copier_cost);
    try (apply yields_memory_gas).
  all: unfold gasExp, gasKeccak256, gasExtCodeCopy, gasSStore, makeGasLog, gasCreate2,
      gasCall, gasCallCode, gasDelegateCall, gasStaticCall, gasSuicide.
  all: cost_solve.
  all: try (pose proof (u64_range (u64 ((BitLen a + 7) / 8) * 50)); unfold is_u64 in *; lia).
  all: try (pose proof (u64_range (n * LogTopicGas)); unfold is_u64 in *; lia).
  all: unfold CallNewAccountGas, CallValueTransferGas; repeat case_match; width_lia.
Qed.

(** ** The gas a call passes on *)
Definition same_stack (s s' : W) : Prop := m_stack s' = m_stack s.
#[export] Instance same_stack_preorder : PreOrder same_stack.
Proof using. split; [done|intros ???; unfold same_stack; congruence]. Qed.
Abbreviation keeps_stack := (moves same_stack (λ _, True)).
Lemma stack_Back n : keeps_stack (Back n : M W word).
Proof using. intros s. unfold Back. by destruct (m_stack s !! n). Qed.
Lemma stack_acc {A} (m : M St A) : keeps_stack (acc m).
Proof using.
  intros s. unfold acc, on_evm, on_state. by destruct (m (evm_state (m_evm s))) as [[] ?].
Qed.
Lemma stack_get_account w : keeps_stack (get_account w).
Proof using. unfold get_account. apply moves_bind; [apply _|apply stack_acc|intros _; by apply moves_ret, _]. Qed.
Lemma stack_memory_gas n : keeps_stack (memory_gas n : M W Z).
Proof using. intros s. unfold memory_gas, memoryGasCost. by repeat case_match; simplify_eq. Qed.
Lemma stack_checked r : keeps_stack (checked r : M W Z).
Proof using. intros s. unfold checked. by destruct r as [? []]. Qed.
#[local] Hint Resolve stack_Back stack_acc stack_get_account stack_memory_gas stack_checked : moves.

(** [pass_gas] leaves what it passes on in the virtual machine and charges it. *)
Lemma pass_gas_spec g s cost s' :
  0 <= g → pass_gas g s = (Ret cost, s') →
  ∃ t, evm_call_gas_tmp (m_evm s') = t ∧ cost = g + t ∧ 0 <= t ∧ cost < 2 ^ 64 ∧ same_stack s s'.
Proof.
  intros Hg. unfold pass_gas.
  intros (s0 & s1 & [= <- <-] & E)%bind_ret_inv.
  apply bind_ret_inv in E as (asked & s1 & E1 & E).
  unfold Back in E1. destruct (m_stack s !! 0%nat); [|done]. injection E1 as <- <-.
  apply bind_ret_inv in E as (t & s1 & E1 & E).
  assert (0 <= t) as Ht.
  { unfold of_outcome, callGas in E1. simpl in E1.
    repeat case_match; simplify_eq; apply u64_range. }
  injection E1 as Et <-. apply bind_ret_inv in E as ([] & s1 & [= <-] & E).
  unfold checked in E. pose proof (SafeAdd_spec g t Hg Ht) as HS.
  destruct (SafeAdd g t) as [sum []]; simpl in *; [done|]. injection E as <- <-.
  destruct (HS eq_refl) as [-> ?]. by exists t.
Qed.
(** What a call charges besides the gas it passes on. *)
Definition call_charge (c : OpCode) (s : W) : Z :=
  match c with
  | CALL_ | CALLCODE_ => 700 + match m_stack s !! 2%nat with Some 0 | None => 0 | _ => 9000 end
  | _ => 700
  end.
Definition passes (c : OpCode) : bool :=
  match c with CALL_ | CALLCODE_ | DELEGATECALL_ | STATICCALL_ => true | _ => false end.

Lemma stack_inv {A} (m : M W A) s a s' : keeps_stack m → m s = (Ret a, s') → m_stack s' = m_stack s.
Proof. intros Hm E. specialize (Hm s). by rewrite E in Hm. Qed.
Lemma yields_inv {A} (Q : A → Prop) (m : M W A) s a s' : yields Q m → m s = (Ret a, s') → Q a.
Proof. intros Hm E. specialize (Hm s). by rewrite E in Hm. Qed.
(** The end of the four: the memory, then the gas passed on. *)
Lemma memory_then_pass base size (s : W) cost s' :
  0 <= base →
  (memoryGas ← memory_gas size; gas ← checked (SafeAdd base memoryGas); pass_gas gas) s
    = (Ret cost, s') →
  base + evm_call_gas_tmp (m_evm s') <= cost ∧ 0 <= evm_call_gas_tmp (m_evm s') ∧ cost < 2 ^ 64 ∧
  m_stack s' = m_stack s.
Proof.
  intros Hb (mg & s1 & E1 & (g & s2 & E2 & E3)%bind_ret_inv)%bind_ret_inv.
  pose proof (yields_inv _ _ _ _ _ (yields_memory_gas size) E1) as Hmg. simpl in Hmg.
  pose proof (stack_inv _ _ _ _ (stack_memory_gas size) E1) as S1.
  pose proof (stack_inv _ _ _ _ (stack_checked _) E2) as S2.
  pose proof (yields_inv _ _ _ _ _ (yields_add base mg (base + mg) Hb ltac:(lia) ltac:(lia)) E2) as Hg.
  simpl in Hg. apply pass_gas_spec in E3 as (t & -> & -> & Ht & Hc & S3); [|lia].
  unfold same_stack in S3. split_and!; [lia|lia|done|congruence].
Qed.
Lemma pass_then_memory base size (s : W) cost s' :
  0 <= base →
  (gas ← memory_gas size; gas ← checked (SafeAdd gas base); pass_gas gas) s = (Ret cost, s') →
  base + evm_call_gas_tmp (m_evm s') <= cost ∧ 0 <= evm_call_gas_tmp (m_evm s') ∧ cost < 2 ^ 64 ∧
  m_stack s' = m_stack s.
Proof.
  intros Hb (mg & s1 & E1 & (g & s2 & E2 & E3)%bind_ret_inv)%bind_ret_inv.
  pose proof (yields_inv _ _ _ _ _ (yields_memory_gas size) E1) as Hmg. simpl in Hmg.
  pose proof (stack_inv _ _ _ _ (stack_memory_gas size) E1) as S1.
  pose proof (stack_inv _ _ _ _ (stack_checked _) E2) as S2.
  pose proof (yields_inv _ _ _ _ _ (yields_add mg base (base + mg) ltac:(lia) Hb ltac:(lia)) E2) as Hg.
  simpl in Hg. apply pass_gas_spec in E3 as (t & -> & -> & Ht & Hc & S3); [|lia].
  unfold same_stack in S3. split_and!; [lia|lia|done|congruence].
Qed.
Lemma call_cost c size s cost s' :
  passes c = true → gasCost (instruction_set env ep c) size s = (Ret cost, s') →
  call_charge c s + evm_call_gas_tmp (m_evm s') <= cost ∧ 0 <= evm_call_gas_tmp (m_evm s') ∧
  cost < 2 ^ 64 ∧ m_stack s' = m_stack s.
Proof.
  intros Hc E. destruct c; try discriminate Hc; simpl in E.
  - unfold gasCall in E.
    apply bind_ret_inv in E as (v & s1 & E1 & E). apply bind_ret_inv in E as (addr & s2 & E2 & E).
    apply bind_ret_inv in E as (a & s3 & E3 & E). apply bind_ret_inv in E as (em & s4 & E4 & E).
    pose proof (stack_inv _ _ _ _ (stack_Back 2) E1) as S1.
    pose proof (stack_inv _ _ _ _ (stack_Back 1) E2) as S2.
    pose proof (stack_inv _ _ _ _ (stack_get_account _) E3) as S3.
    pose proof (stack_inv _ _ _ _ (stack_acc _) E4) as S4.
    cbv zeta in E. apply memory_then_pass in E as (E & ? & ? & S5).
    + unfold Back in E1. unfold call_charge. destruct (m_stack s !! 2%nat) as [x|]; [|done].
      injection E1 as -> _. split_and!; [|done|done|congruence].
      etrans; [|exact E]. apply Z.add_le_mono_r. destruct v, em; by vm_compute.
    + destruct v, em; by vm_compute.
  - unfold gasCallCode in E. apply bind_ret_inv in E as (v & s1 & E1 & E).
    pose proof (stack_inv _ _ _ _ (stack_Back 2) E1) as S1.
    cbv zeta in E. apply memory_then_pass in E as (E & ? & ? & S5).
    + unfold Back in E1. unfold call_charge. destruct (m_stack s !! 2%nat) as [x|]; [|done].
      injection E1 as -> _. split_and!; [|done|done|congruence].
      etrans; [|exact E]. apply Z.add_le_mono_r. destruct v; by vm_compute.
    + destruct v; by vm_compute.
  - by apply (pass_then_memory 700) in E.
  - by apply (pass_then_memory 700) in E.
Qed.
End cost.
