(* ===== verification/EvmTermination.v ===== *)
(** Runs end: with more fuel than gas the loop, the calls and the transactions never run out of
    fuel, and what a call gives back is at most what it was given. *)
From S2P Require Import Prelude Codec Rlp Uint256 Storage EvmMemory EvmAnalysis EvmInterface.
From S2P Require Import EvmMachine EvmInstructions EvmRun EvmFacts EvmGas.

Abbreviation ends_in := (wpp (λ p, p ≠ no_fuel)).
Lemma wpp_ends {S A} (m : M S A) (Q : A → S → Prop) (E : S → Prop) s :
  ends m → (∀ a s', Q a s') → (∀ s', E s') → ends_in m Q E s.
Proof. intros Hm HQ HE. specialize (Hm s). unfold wpp. destruct (m s) as [[] ?]; auto. by destruct Hm. Qed.
Section termination.
Context {St : Type} `{!EvmState St} `{!EvmStateEnds St} `{Uint256} `{Keccak}.
Context (env : environment) (precompiles : address → option (Precompiled St)).
(** Precompiled contracts end, and ask for gas in 64 bits. *)
Context (precompiles_end : ∀ a p f, precompiles a = Some p →
  ends (RequiredGas p f) ∧ ends (Run p f) ∧ yields is_u64 (RequiredGas p f)).
Abbreviation W := (Machine St).
Abbreviation V := (EVM St).

Lemma ends_in_keeps {A} (m : M W A) (Q : A → W → Prop) (E : W → Prop) s :
  moves same_gas (λ p, p ≠ no_fuel) m →
  (∀ a s', gas s' = gas s → Q a s') → (∀ s', gas s' = gas s → E s') → ends_in m Q E s.
Proof.
  intros Hm HQ HE. specialize (Hm s). unfold wpp.
  destruct (m s) as [[] ?]; [by apply HQ|by apply HE|done].
Qed.

(** ** The entry points *)
(** The gas a call returns. *)
Definition call_ends (g : Z) (m : M V call_result) : Prop :=
  ∀ e, ends_in m (λ r _, 0 <= r.1.2 <= g) (λ _, True) e.
Definition create_ends (g : Z) (m : M V (bytes * address * Z * option string)) : Prop :=
  ∀ e, ends_in m (λ r _, 0 <= r.1.2 <= g) (λ _, True) e.
Record entry_ok (n : Z) (ep : entry_points St) : Prop := {
  ok_call typ ref a i g v : 0 <= g < n → call_ends g (ep_call ep typ ref a i g v);
  ok_create_1 a c g v : 0 <= g < n → create_ends g (ep_create_1 ep a c g v);
  ok_create_2 a c g v x : 0 <= g < n → create_ends g (ep_create_2 ep a c g v x)
}.
(** Runs of less than [n] gas. *)
Definition run_ok (n : Z) (run : Contract → bool → M V run_result) : Prop :=
  ∀ c ro e, 0 <= gas_of c < n → gas_of c < 2 ^ 64 →
    ends_in (run c ro) (λ r _, 0 <= r.2 <= gas_of c) (λ _, False) e.

Lemma ends_in_state {A} (m : M St A) (Q : A → V → Prop) (E : V → Prop) e :
  ends m → (∀ a e', Q a e') → (∀ e', E e') → ends_in (on_state m) Q E e.
Proof. intros Hm. apply wpp_ends, ends_on_state, Hm. Qed.
Lemma settle_ends snapshot b ret g err n :
  0 <= g <= n → call_ends n (settle snapshot b (ret, g, err) : M V call_result).
Proof.
  intros Hg e. unfold settle. destruct err as [x|]; [|apply wpp_ret; simpl in *; lia].
  apply wpp_bind, ends_in_state; [apply ends_RevertToSnapshot| |done].
  intros _ e1. apply wpp_ret. simpl. destruct (_ && _); lia.
Qed.
Lemma call_ok n run typ ref a i g v :
  run_ok n run → n <= 2 ^ 64 → 0 <= g < n →
  call_ends g (call_with precompiles run typ ref a i g v).
Proof.
  intros Hr Hn Hg e. unfold call_with. unfold wpp at 1. destruct (_ <? _); [simpl; lia|].
  lazymatch goal with |- match ?m e with _ => _ end => change (ends_in m (λ r (_ : V), 0 <= r.1.2 <= g) (λ _, True) e) end.
  apply wpp_bind. apply wpp_mono with (λ _ _, True) (λ _, True); [|intros b e1 _|done].
  { destruct (sends_value typ); [|done]. apply ends_in_state; [apply ends_has_funds|done..]. }
  destruct b; simpl; [|apply wpp_ret; simpl in *; lia].
  apply wpp_bind, ends_in_state; [apply ends_Snapshot|intros sn e2|done].
  apply wpp_bind, ends_in_state; [apply ends_begin_call|intros go e3|done].
  destruct go; simpl; [|apply wpp_ret; simpl in *; lia].
  apply wpp_bind, ends_in_state; [apply ends_GetCode|intros code e4|done].
  apply wpp_bind.
  assert (∀ fr, call_frame typ ref a i g v = Ret fr → Gas fr = g) as Hfr.
  { intros fr. unfold call_frame. repeat case_match; intros; simplify_eq; done. }
  unfold wpp at 1, of_outcome. destruct (call_frame typ ref a i g v) as [fr|x|x] eqn:Ef.
  2: done.
  2: { unfold call_frame in Ef. repeat case_match; simplify_eq; done. }
  specialize (Hfr fr eq_refl).
  destruct (precompiles a) as [p|] eqn:Ep.
  - destruct (precompiles_end a p fr Ep) as (E1 & E2 & E3).
    apply wpp_bind. unfold run_precompiled. apply wpp_bind.
    pose proof (E1 e4) as E1'. pose proof (E3 e4) as E3'. unfold wpp at 1.
    destruct (RequiredGas p fr e4) as [[need|x|x] e5]; [|done|apply E1'].
    unfold is_u64 in E3'. destruct (Z.leb_spec need g); [|apply settle_ends; simpl in *; lia].
    unfold precompiled_result. unfold wpp at 1. specialize (E2 e5).
    rewrite u64_id by (unfold is_u64; lia).
    destruct (Run p fr e5) as [[r|x|x] e6]; [apply settle_ends; lia..|apply E2].
  - apply wpp_bind. unfold run_code. destruct code as [|b code]; [apply settle_ends; simpl in *; lia|].
    apply wpp_bind, ends_in_state; [apply ends_GetCodeHash|intros h e5|done].
    apply wpp_bind.
    eapply wpp_mono; [apply Hr; simpl; lia| |done]. simpl. intros [[ret err] left] e6 Hl.
    apply wpp_ret, settle_ends. simpl in Hl. lia.
Qed.
Lemma deploy_ends new_acc ret err g n e :
  0 <= g <= n → n < 2 ^ 64 →
  ends_in (deploy new_acc (ret, err, g) : M V run_result) (λ r _, 0 <= r.2 <= n) (λ _, True) e.
Proof.
  intros Hg Hn. unfold deploy. destruct err as [x|]; [done|]. destruct (_ <? _); [done|].
  destruct (Z.ltb_spec g (u64 (u64 (Z.of_nat (length ret)) * CreateDataGas))); [done|].
  apply wpp_bind, ends_in_state; [apply ends_SetCode|intros _ e1|done]. apply wpp_ret. simpl.
  pose proof (u64_range (u64 (Z.of_nat (length ret)) * CreateDataGas)) as Hu. unfold is_u64 in Hu.
  rewrite u64_id by (unfold is_u64; lia). lia.
Qed.
Lemma create_ok n run a c g v na :
  run_ok n run → n <= 2 ^ 64 → 0 <= g < n →
  ∀ e, ends_in (create_with run a c g v na : M V run_result) (λ r _, 0 <= r.2 <= g) (λ _, True) e.
Proof.
  intros Hr Hn Hg e. unfold create_with. unfold wpp at 1. destruct (_ <? _); [simpl; lia|].
  lazymatch goal with |- match ?m e with _ => _ end => change (ends_in m (λ r (_ : V), 0 <= r.2 <= g) (λ _, True) e) end.
  apply wpp_bind, ends_in_state; [apply ends_has_funds|intros b e1|done].
  destruct b; simpl; [|apply wpp_ret; simpl in *; lia].
  apply wpp_bind, ends_in_state; [apply ends_IncrementNonce|intros _ e2|done].
  apply wpp_bind, ends_in_state; [apply ends_GetAccount|intros _ e3|done].
  apply wpp_bind, ends_in_state; [apply ends_GetNonce|intros no e4|done].
  apply wpp_bind, ends_in_state; [apply ends_GetCodeSize|intros sz e5|done].
  destruct (_ || _); [apply wpp_ret; simpl; lia|].
  apply wpp_bind, ends_in_state; [apply ends_Snapshot|intros sn e6|done].
  apply wpp_bind, ends_in_state; [apply ends_IncrementNonce|intros _ e7|done].
  apply wpp_bind, ends_in_state; [apply ends_transfer|intros _ e8|done].
  apply wpp_bind. eapply wpp_mono; [apply Hr; simpl; lia| |done].
  simpl. intros [[ret err] left] e9 Hl. simpl in Hl. apply wpp_bind.
  eapply wpp_mono; [apply (deploy_ends _ _ _ _ g); lia| |done].
  intros [[ret1 err1] left1] e10 Hl1. simpl in Hl1. destruct err1 as [x|]; [|apply wpp_ret; simpl in *; lia].
  apply wpp_bind, ends_in_state; [apply ends_RevertToSnapshot|intros _ e11|done].
  apply wpp_ret. simpl. case_bool_decide; lia.
Qed.
Lemma entry_with_ok n run : run_ok n run → n <= 2 ^ 64 → entry_ok n (entry_with precompiles run).
Proof.
  intros Hr Hn. split; simpl.
  - intros. by eapply call_ok.
  - intros a c g v Hg e. unfold create_1_with.
    apply wpp_bind, ends_in_state; [apply ends_GetNonce|intros no e1|done].
    apply wpp_bind. unfold wpp at 1, of_outcome.
    destruct (CreateAddress a no) as [na|x|x] eqn:Ea; [|done|].
    + apply wpp_bind. eapply wpp_mono; [by eapply create_ok|by intros [[??]?] ?|done].
    + by apply (other_CreateAddress _ _ _ Ea).
  - intros a c g v x Hg e. unfold create_2_with. apply wpp_bind.
    eapply wpp_mono; [by eapply create_ok|by intros [[??]?] ?|done].
Qed.

(** ** The instructions *)
Abbreviation at_most n := (λ _ (s : W), 0 <= gas s <= n).
Lemma keeps_self_ref : moves same_gas (λ p, p ≠ no_fuel) (self_ref : M W ContractRef).
Proof. unfold self_ref. apply moves_bind; [apply _|apply keeps_get|]. intros. apply moves_ret, _. Qed.
Lemma keeps_args a b : moves same_gas (λ p, p ≠ no_fuel) (of_mem (GetPtr a b) : M W bytes).
Proof. apply keeps_of_mem. intros. apply other_GetPtr. Qed.
Lemma keeps_copy a b : moves same_gas (λ p, p ≠ no_fuel) (of_mem (GetCopy a b) : M W bytes).
Proof. apply keeps_of_mem. intros. apply other_GetCopy. Qed.
Lemma keeps_ret_bytes r a b : moves same_gas (λ p, p ≠ no_fuel) (ret_bytes r a b : M W bytes).
Proof. unfold ret_bytes. destruct r; [apply moves_ret, _|apply keeps_args]. Qed.
Lemma gas_GiveGas g (Q : unit → W → Prop) E s :
  0 <= gas s → 0 <= g → gas s + g < 2 ^ 64 →
  (∀ s', gas s' = gas s + g → Q tt s') → ends_in (GiveGas g) Q E s.
Proof.
  intros Hs Hg Hb HQ. unfold GiveGas, modify, wpp. apply HQ. unfold gas. simpl.
  apply u64_id. unfold is_u64, gas in *. lia.
Qed.
Lemma finish_call_gas ret g err a b c d s n :
  0 <= gas s → 0 <= g → gas s + g <= n → n < 2 ^ 64 →
  ends_in (finish_call (ret, g, err) a b c d) (at_most n) (λ s, 0 <= gas s <= n) s.
Proof.
  intros Hs Hg Hb Hn. unfold finish_call.
  apply wpp_bind, ends_in_keeps; [apply keeps_push|intros _ s1 E1|intros; lia].
  apply wpp_bind, ends_in_keeps; [|intros _ s2 E2|intros; lia].
  { apply moves_when; [apply _|]. apply moves_bind; [apply _|apply keeps_ret_bytes|intros].
    apply keeps_on_mem. intros. apply other_Set. }
  apply wpp_bind, gas_GiveGas; [lia..|intros s3 E3].
  apply ends_in_keeps; [apply keeps_ret_bytes|intros; simpl; lia|intros; lia].
Qed.
(** A call made with [g] gas by a contract that has the rest. *)
Lemma call_then_finish n ep typ ref a i g v x1 x2 x3 x4 s m :
  entry_ok n ep → 0 <= g < n → 0 <= gas s → gas s + g <= m → m < 2 ^ 64 →
  ends_in (r ← on_evm (ep_call ep typ ref a i g v); finish_call r x1 x2 x3 x4)
    (at_most m) (λ s, 0 <= gas s <= m) s.
Proof.
  intros Hep Hg Hs Hb Hm. apply wpp_bind.
  pose proof (ok_call _ _ Hep typ ref a i g v Hg (m_evm s)) as Hc.
  unfold wpp at 1, on_evm. unfold wpp in Hc.
  destruct (ep_call ep typ ref a i g v (m_evm s)) as [[[[ret left] err]|x|x] e]; [| |done].
  - simpl in Hc. apply finish_call_gas; unfold gas in *; simpl; lia.
  - unfold gas in *; simpl; lia.
Qed.
Lemma create_then_finish n (create : address → M V (bytes * address * Z * option string)) s m :
  (∀ a, create_ends n (create a)) → 0 <= gas s → 0 <= n → gas s + n <= m → m < 2 ^ 64 →
  ends_in (a ← self_account; r ← on_evm (create a); finish_create r)
    (at_most m) (λ s, 0 <= gas s <= m) s.
Proof.
  intros Hc Hs Hn Hb Hm.
  apply wpp_bind, ends_in_keeps; [apply keeps_self_account|intros a s1 E1|intros; lia].
  apply wpp_bind. specialize (Hc a (m_evm s1)). unfold wpp at 1, on_evm.
  unfold wpp in Hc.
  destruct (create a (m_evm s1)) as [[[[[res addr] left] err]|x|x] e]; [| |done].
  - simpl in Hc. unfold finish_create.
    apply wpp_bind, ends_in_keeps; [apply keeps_push|intros _ s2 E2|].
    2: intros; unfold gas in *; simpl in *; lia.
    apply wpp_bind, gas_GiveGas; [unfold gas in *; simpl in *; lia..|intros s3 E3].
    apply wpp_ret. unfold gas in *; simpl in *; lia.
  - unfold gas in *; simpl; lia.
Qed.
(** The gas a creation takes is all but one 64th. *)
Lemma take_create_gas_spec (Q : Z → W → Prop) E s :
  0 <= gas s < 2 ^ 64 →
  (∀ g s', 0 <= g <= gas s → gas s' + g = gas s → 0 <= gas s' → Q g s') →
  ends_in take_create_gas Q E s.
Proof.
  intros Hs HQ. unfold take_create_gas.
  assert (0 <= gas s / 64 <= gas s) as Hd.
  { split; [apply Z.div_pos; lia|]. apply Z.div_le_upper_bound; lia. }
  unfold wpp, get, mbind, M_bind, UseGas. unfold gas in *. simpl.
  rewrite (u64_id (_ - _)) by (unfold is_u64; lia).
  destruct (Z.ltb_spec (gas_of (m_contract s)) (gas_of (m_contract s) - gas_of (m_contract s) / 64));
    [lia|].
  apply HQ; simpl; [lia| |]; rewrite u64_id by (unfold is_u64; lia); lia.
Qed.

Lemma pop_some x l (Q : word → W → Prop) E s :
  m_stack s = x :: l → Q x (m_with_stack l s) → ends_in pop Q E s.
Proof. intros Hs HQ. unfold wpp, pop. by rewrite Hs. Qed.
Lemma pop_none (Q : word → W → Prop) E s : m_stack s = [] → ends_in pop Q E s.
Proof. intros Hs. unfold wpp, pop. by rewrite Hs. Qed.
Lemma stipend_spec g v : 0 <= g → g + 9700 < 2 ^ 64 → v ≠ 0 → with_stipend g v = g + 2300.
Proof.
  intros Hg Hb Hv. unfold with_stipend. destruct (Z.eqb_spec v 0); [done|].
  apply u64_id. unfold is_u64, CallStipend. lia.
Qed.
(** A call with the stipend when it sends value: what it passes on is paid for. *)
Lemma opCall_gas typ n ep s m :
  entry_ok n ep → 0 <= gas s → 0 <= evm_call_gas_tmp (m_evm s) →
  evm_call_gas_tmp (m_evm s) + gas s + 700 + (match m_stack s !! 2%nat with Some 0 | None => 0 | _ => 9000 end) <= m →
  m <= n → m < 2 ^ 64 →
  ends_in (pop ;; gas ← call_gas_tmp;
    addr ← pop; value ← pop; inOffset ← pop; inSize ← pop; retOffset ← pop; retSize ← pop;
    args ← of_mem (GetPtr (int64 inOffset) (int64 inSize));
    self ← self_ref; a ← get_account addr;
    r ← on_evm (ep_call ep typ self a args (with_stipend gas value) value);
    finish_call r inOffset inSize retOffset retSize) (λ _ s, 0 <= gas s < m) (λ s, 0 <= gas s <= m) s.
Proof.
  intros Hep Hs Ht Hb Hn Hm.
  assert (∀ (Q : Z → W → Prop) E s, Q (evm_call_gas_tmp (m_evm s)) s → ends_in call_gas_tmp Q E s)
    as Htmp by done.
  destruct (m_stack s) as [|x0 [|x1 [|v l]]] eqn:Es.
  { by apply wpp_bind, pop_none. }
  { apply wpp_bind. eapply pop_some; [done|]. apply wpp_bind, Htmp.
    by apply wpp_bind, pop_none. }
  { apply wpp_bind. eapply pop_some; [done|]. apply wpp_bind, Htmp.
    apply wpp_bind. eapply pop_some; [done|]. by apply wpp_bind, pop_none. }
  apply wpp_bind. eapply pop_some; [done|]. apply wpp_bind, Htmp.
  apply wpp_bind. eapply pop_some; [done|]. apply wpp_bind. eapply pop_some; [done|].
  change (evm_call_gas_tmp (m_evm (m_with_stack (x1 :: v :: l) s))) with (evm_call_gas_tmp (m_evm s)).
  set (t := evm_call_gas_tmp (m_evm s)) in *. simpl in Hb.
  assert (0 <= match v with 0 => 0 | _ => 9000 end) as Hv0 by (by destruct v).
  lazymatch goal with |- ends_in _ _ _ ?s0 => assert (gas s0 = gas s) as E0 by done; generalize dependent s0 end.
  intros s0 E0.
  do 4 (apply wpp_bind, ends_in_keeps; [apply keeps_pop|intros|intros; simpl; lia]).
  apply wpp_bind, ends_in_keeps; [apply keeps_args|intros|intros; simpl; lia].
  apply wpp_bind, ends_in_keeps; [apply keeps_self_ref|intros|intros; simpl; lia].
  apply wpp_bind, ends_in_keeps; [apply keeps_get_account|intros|intros; simpl; lia].
  assert (0 <= with_stipend t v ∧ with_stipend t v + gas s + 700 <= m) as [W0 W1].
  { destruct (decide (v = 0)) as [->|Hv]; [unfold with_stipend; simpl; lia|].
    assert (match v with 0 => 0 | _ => 9000 end = 9000) as Ev by (by destruct v).
    rewrite Ev in Hb. rewrite stipend_spec by (done || lia). lia. }
  eapply wpp_mono; [apply (call_then_finish n _ _ _ _ _ _ _ _ _ _ _ _ (m - 700)); try done; lia| |].
  - simpl. intros. lia.
  - simpl. intros. lia.
Qed.
(** A call that sends no value. *)
Lemma opPlainCall_gas typ n ep s m :
  entry_ok n ep → 0 <= gas s → 0 <= evm_call_gas_tmp (m_evm s) →
  evm_call_gas_tmp (m_evm s) + gas s + 700 <= m → m <= n → m < 2 ^ 64 →
  ends_in (pop ;; gas ← call_gas_tmp;
    addr ← pop; inOffset ← pop; inSize ← pop; retOffset ← pop; retSize ← pop;
    args ← of_mem (GetPtr (int64 inOffset) (int64 inSize));
    self ← self_ref; a ← get_account addr;
    r ← on_evm (ep_call ep typ self a args gas 0);
    finish_call r inOffset inSize retOffset retSize) (λ _ s, 0 <= gas s < m) (λ s, 0 <= gas s <= m) s.
Proof.
  intros Hep Hs Ht Hb Hn Hm.
  assert (∀ (Q : Z → W → Prop) E s, Q (evm_call_gas_tmp (m_evm s)) s → ends_in call_gas_tmp Q E s)
    as Htmp by done.
  destruct (m_stack s) as [|x0 l] eqn:Es; [by apply wpp_bind, pop_none|].
  apply wpp_bind. eapply pop_some; [done|]. apply wpp_bind, Htmp.
  change (evm_call_gas_tmp (m_evm (m_with_stack l s))) with (evm_call_gas_tmp (m_evm s)).
  set (t := evm_call_gas_tmp (m_evm s)) in *.
  lazymatch goal with |- ends_in _ _ _ ?s0 => assert (gas s0 = gas s) as E0 by done; generalize dependent s0 end.
  intros s0 E0.
  do 5 (apply wpp_bind, ends_in_keeps; [apply keeps_pop|intros|intros; simpl; lia]).
  apply wpp_bind, ends_in_keeps; [apply keeps_args|intros|intros; simpl; lia].
  apply wpp_bind, ends_in_keeps; [apply keeps_self_ref|intros|intros; simpl; lia].
  apply wpp_bind, ends_in_keeps; [apply keeps_get_account|intros|intros; simpl; lia].
  eapply wpp_mono; [apply (call_then_finish n _ _ _ _ _ _ _ _ _ _ _ _ (m - 700)); try done; lia| |].
  - simpl. intros. lia.
  - simpl. intros. lia.
Qed.
Lemma opCreate_gas n ep s :
  entry_ok n ep → 0 <= gas s < n → gas s < 2 ^ 64 →
  ends_in (opCreate ep) (at_most (gas s)) (λ s', 0 <= gas s' <= gas s) s.
Proof.
  intros Hep Hs Hb. unfold opCreate.
  do 3 (apply wpp_bind, ends_in_keeps; [apply keeps_pop|intros|intros; simpl; lia]).
  apply wpp_bind, ends_in_keeps; [apply keeps_copy|intros|intros; simpl; lia].
  apply wpp_bind, take_create_gas_spec; [lia|]. intros g s1 Hg Hsum Hs1.
  apply create_then_finish with g; [|lia..]. intros ac e. apply (ok_create_1 _ _ Hep). lia.
Qed.
Lemma opCreate2_gas n ep s :
  entry_ok n ep → 0 <= gas s < n → gas s < 2 ^ 64 →
  ends_in (opCreate2 ep) (at_most (gas s)) (λ s', 0 <= gas s' <= gas s) s.
Proof.
  intros Hep Hs Hb. unfold opCreate2.
  do 4 (apply wpp_bind, ends_in_keeps; [apply keeps_pop|intros|intros; simpl; lia]).
  apply wpp_bind, ends_in_keeps; [apply keeps_copy|intros|intros; simpl; lia].
  apply wpp_bind, take_create_gas_spec; [lia|]. intros g s1 Hg Hsum Hs1.
  apply create_then_finish with g; [|lia..]. intros ac e. apply (ok_create_2 _ _ Hep). lia.
Qed.
(** An instruction after it is paid for: it leaves at most what there was before, less for the
    instructions that run other code. *)
Lemma execute_gas c ep s m :
  entry_ok m ep → 0 <= gas s → gas s + min_cost c <= m → m < 2 ^ 64 →
  (passes c = true → 0 <= evm_call_gas_tmp (m_evm s) ∧
     call_charge c s + evm_call_gas_tmp (m_evm s) + gas s <= m) →
  ends_in (execute (instruction_set env ep c))
    (λ _ s', 0 <= gas s' <= m ∧ (min_cost c = 1 → gas s' < m)) (λ s', 0 <= gas s' <= m) s.
Proof.
  intros Hep Hs Hm Hb Hp. destruct (calls c) eqn:Ec.
  2: { assert (0 <= min_cost c) by (by destruct c).
       apply ends_in_keeps; [by apply keeps_execute| |]; intros; lia. }
  destruct c; try discriminate Ec; simpl in *; try (destruct (Hp eq_refl) as [Ht Hc]).
  - eapply wpp_mono; [apply (opCreate_gas m); [done|lia..]| |]; simpl; intros; lia.
  - eapply wpp_mono; [eapply (opCall_gas _ m ep s m); try done; lia| |]; simpl; intros; lia.
  - eapply wpp_mono; [eapply (opCall_gas _ m ep s m); try done; lia| |]; simpl; intros; lia.
  - eapply wpp_mono; [eapply (opPlainCall_gas _ m ep s m); try done; lia| |]; simpl; intros; lia.
  - eapply wpp_mono; [apply (opCreate2_gas m); [done|lia..]| |]; simpl; intros; lia.
  - eapply wpp_mono; [eapply (opPlainCall_gas _ m ep s m); try done; lia| |]; simpl; intros; lia.
Qed.

(** ** A round of the loop *)
Lemma charge_spec c ep size s (Q : unit → W → Prop) (E : W → Prop) :
  0 <= gas s < 2 ^ 64 →
  (∀ s', 0 <= gas s' <= gas s → E s') →
  (∀ s', 0 <= gas s' → gas s' + min_cost c <= gas s →
     (passes c = true → 0 <= evm_call_gas_tmp (m_evm s') ∧
        call_charge c s' + evm_call_gas_tmp (m_evm s') + gas s' <= gas s) → Q tt s') →
  ends_in (charge (instruction_set env ep c) size) Q E s.
Proof.
  intros Hs HE HQ. unfold charge, wpp at 1.
  pose proof (keeps_gasCost env ep c size s) as Hk.
  pose proof (gas_cost_range env ep c size s) as Hr.
  pose proof (call_cost env ep c size s) as Hc.
  destruct (gasCost (instruction_set env ep c) size s) as [[cost|x|x] s1]; [| |done].
  2: { unfold same_gas in Hk. apply HE. lia. }
  unfold same_gas in Hk. unfold mbind, M_bind, UseGas.
  destruct (Z.ltb_spec (gas_of (m_contract s1)) cost) as [Hlt|Hge]; unfold gas in *; [apply HE; simpl; lia|].
  assert (0 <= min_cost c) as Hmin by (by destruct c).
  simpl. apply HQ; simpl; rewrite u64_id by (unfold is_u64; lia); [lia|lia|].
  intros Hpc. destruct (Hc cost s1 Hpc eq_refl) as (C1 & C2 & C3 & C4). split; [done|].
  unfold call_charge in *. simpl. rewrite C4. lia.
Qed.
Lemma Resize_keeps size (s : W) :
  ∃ s' : W, when (0 <? size) (on_mem (λ p m, Ret (Resize size p m))) s = (Ret tt, s') ∧
    gas s' = gas s ∧ m_stack s' = m_stack s ∧
    evm_call_gas_tmp (m_evm s') = evm_call_gas_tmp (m_evm s).
Proof.
  unfold when. destruct (0 <? size); [|by eexists].
  unfold on_mem. destruct (Resize _ _ _) as [p m] eqn:E. by eexists.
Qed.
Lemma step_gas ep s :
  entry_ok (gas s) ep → 0 <= gas s < 2 ^ 64 →
  ends_in (step env ep)
    (λ r s', 0 <= gas s' <= gas s ∧ (r = None → gas s' < gas s)) (λ s', 0 <= gas s' <= gas s) s.
Proof.
  intros Hep Hs. unfold step. apply wpp_bind. unfold get, wpp at 1.
  destruct (decode _) as [c|]; [|apply wpp_throw; lia].
  set (o := instruction_set env ep c). destruct (makeStackFunc _ _ s) as [x|]; [apply wpp_throw; lia|].
  apply wpp_bind, ends_in_keeps; [|intros _ s1 E1|intros; simpl; lia].
  { apply moves_when; [apply _|]. destruct (writes o); [apply moves_throw, _|].
    apply moves_when; [apply _|]. apply moves_bind; [apply _|apply keeps_Back|]. intros v.
    apply moves_fail_if, _. }
  apply wpp_bind, ends_in_keeps; [apply keeps_memory_needed|intros size s2 E2|intros; simpl; lia].
  apply wpp_bind, charge_spec; [lia|intros; simpl; lia|]. intros s3 H1 H2 H3.
  destruct (Resize_keeps size s3) as (s4 & E4 & G4 & S4 & T4).
  apply wpp_bind. unfold wpp at 1. rewrite E4.
  apply wpp_bind. eapply wpp_mono; [apply (execute_gas c ep s4 (gas s)); try done; try lia| |].
  { intros Hp. destruct (H3 Hp) as [H4 H5]. rewrite T4. split; [done|].
    assert (call_charge c s4 = call_charge c s3) as -> by (unfold call_charge; by rewrite S4).
    rewrite G4. lia. }
  2: { simpl. intros. lia. }
  intros res s5 [H5 H6].
  assert (∀ (Q : unit → W → Prop) E s f b, (∀ s', gas s' = gas s → Q tt s') →
    (∀ s, gas (f s) = gas s) → ends_in (when b (modify f)) Q E s) as Hmod.
  { intros Q E s0 f b HQ Hf. unfold wpp, when. destruct b; simpl; by apply HQ. }
  apply wpp_bind, Hmod; [intros s6 E6|done].
  destruct (reverts o) eqn:Er; [apply wpp_ret; split; [lia|done]|].
  destruct (halts o) eqn:Eh; [apply wpp_ret; split; [lia|done]|].
  apply wpp_bind, Hmod; [intros s7 E7|done]. apply wpp_ret. split; [lia|]. intros _.
  assert (min_cost c = 1) as Hc.
  { subst o. destruct c; first [done|discriminate Eh|discriminate Er]. }
  specialize (H6 Hc). lia.
Qed.

(** ** The loop *)
Lemma loop_gas fuel s :
  0 <= gas s < 2 ^ 64 → gas s < Z.of_nat fuel →
  ends_in (loop env precompiles fuel)
    (at_most (gas s)) (λ s', 0 <= gas s' <= gas s) s.
Proof.
  revert s. induction fuel as [|fuel IH]; intros s Hs Hf; [lia|]. simpl.
  apply wpp_bind. eapply wpp_mono; [apply step_gas; [|done]| |].
  - apply entry_with_ok; [|lia]. intros c ro e Hc Hc'. unfold run_with, wpp at 1.
    pose proof (IH (start_run c ro e)) as Hrun. unfold gas in Hrun at 1 2 3. simpl in Hrun.
    specialize (Hrun ltac:(lia) ltac:(lia)). unfold wpp in Hrun.
    destruct (loop env precompiles fuel (start_run c ro e)) as [[[ret err]|x|x] s'];
      unfold gas in *; simpl in *; [lia|lia|done].
  - simpl. intros [r|] s' [H1 H2]; [by apply wpp_ret|]. specialize (H2 eq_refl).
    eapply wpp_mono; [apply IH; lia| |]; simpl; intros; lia.
  - done.
Qed.
Lemma run_is_ok fuel : run_ok (Z.of_nat fuel) (run env precompiles fuel).
Proof.
  intros c ro e Hc Hc'. unfold run, run_with, wpp at 1.
  pose proof (loop_gas fuel (start_run c ro e)) as Hrun. unfold gas in Hrun at 1 2 3. simpl in Hrun.
  specialize (Hrun ltac:(lia) ltac:(lia)). unfold wpp in Hrun.
  destruct (loop env precompiles fuel (start_run c ro e)) as [[[ret err]|x|x] s'];
    unfold gas in *; simpl in *; [lia|lia|done].
Qed.

(** ** Calls and transactions *)
Lemma entry_points_ok fuel :
  Z.of_nat fuel <= 2 ^ 64 → entry_ok (Z.of_nat fuel) (entry_with precompiles (run env precompiles fuel)).
Proof. intros Hf. by apply entry_with_ok; [apply run_is_ok|]. Qed.
(** C5: a call ends.  With more fuel than gas, whatever the code, the caller and the accounts,
    the call never runs out of fuel, and the gas it gives back is at most the gas it was given:
    the loop, the calls and the creations of its instructions included. *)
Theorem call_terminates fuel typ ref a input g v (e : V) :
  0 <= g < Z.of_nat fuel → Z.of_nat fuel <= 2 ^ 64 →
  match (call env precompiles fuel typ ref a input g v e).1 with
  | Ret (_, rest, _) => 0 <= rest <= g
  | Err _ => True
  | Panic p => p ≠ no_fuel
  end.
Proof.
  intros Hg Hf. pose proof (ok_call _ _ (entry_points_ok fuel Hf) typ ref a input g v Hg e) as Hc.
  unfold wpp in Hc. simpl in Hc. unfold call.
  by destruct (call_with _ _ _ _ _ _ _ _ e) as [[[[r l] x]|x|x] ?].
Qed.

(** The refund counter is a uint64. *)
Context (refund_is_u64 : yields is_u64 (GetRefund : M St Z)).
Lemma pay_back_spec t g (Q : Z → St → Prop) E s :
  0 <= g <= TxGasCap t → is_u64 (TxGasCap t) →
  (∀ g' s', g <= g' <= TxGasCap t → TxGasCap t - g <= 2 * (TxGasCap t - g') → Q g' s') →
  (∀ s', E s') → ends_in (pay_back t g) Q E s.
Proof.
  intros Hg Hc HQ HE. unfold pay_back. apply wpp_bind.
  pose proof (ends_GetRefund s) as He. pose proof (refund_is_u64 s) as Hr. unfold wpp at 1.
  destruct (GetRefund s) as [[r|x|x] s1]; [|apply HE|apply He]. apply wpp_ret.
  unfold is_u64 in *. rewrite (u64_id (TxGasCap t - g)) by (unfold is_u64; lia).
  assert (0 <= (TxGasCap t - g) / 2 ∧ 2 * ((TxGasCap t - g) / 2) <= TxGasCap t - g) as [D1 D2]
    by (split; [apply Z.div_pos; lia|apply Z.mul_div_le; lia]).
  rewrite u64_id by (unfold is_u64; lia). apply HQ; lia.
Qed.
Lemma IntrinsicGas_ends data b : other_panic (IntrinsicGas data b).
Proof. intros p. unfold IntrinsicGas. simpl. by repeat case_match. Qed.
Lemma IntrinsicGas_least data b g : IntrinsicGas data b = Ret g → 21000 <= g.
Proof.
  unfold IntrinsicGas. set (base := if b then _ else _).
  assert (21000 <= base <= 53000) as Hb by (subst base; by destruct b).
  destruct data as [|x data]; [intros [= <-]; lia|].
  set (nz := Z.of_nat _). set (n := Z.of_nat (length _)). simpl.
  unfold TxDataNonZeroGas, TxDataZeroGas.
  destruct (Z.ltb_spec ((2 ^ 64 - 1 - base) / 68) nz) as [|Hn1]; [done|].
  assert (68 * nz <= 2 ^ 64 - 1 - base) as Hn2 by (pose proof (Z.mul_div_le (2 ^ 64 - 1 - base) 68); lia).
  assert (0 <= nz) by lia.
  rewrite (u64_id (nz * 68)) by (unfold is_u64; lia).
  rewrite (u64_id (base + _)) by (unfold is_u64; lia).
  pose proof (u64_range (n - nz)) as Hz. unfold is_u64 in Hz. set (z := u64 (n - nz)) in *.
  destruct (Z.ltb_spec ((2 ^ 64 - 1 - (base + nz * 68)) / 4) z) as [|Hz2]; [done|].
  pose proof (Z.mul_div_le (2 ^ 64 - 1 - (base + nz * 68)) 4).
  intros [= <-]. rewrite (u64_id (z * 4)) by (unfold is_u64; lia).
  rewrite u64_id by (unfold is_u64; lia). lia.
Qed.
(** What a transaction may report. *)
Definition charge_ok (t : Transaction) (r : ExecutionResult) : Prop :=
  ConsensusErr r ≠ Some ErrInsufficientBalanceForGas →
  GasUsed r <= TxGasCap t ∧
  (ConsensusErr r = None →
   ∃ need, IntrinsicGas (TxInput t) (bool_decide (To t = None)) = Ret need ∧
     TxGas <= need ∧ need <= 2 * GasUsed r).
Lemma finish_transaction_spec t ret a g err need s :
  IntrinsicGas (TxInput t) (bool_decide (To t = None)) = Ret need → 21000 <= need →
  0 <= g → g + need <= TxGasCap t → is_u64 (TxGasCap t) →
  ends_in (finish_transaction t ret a g err) (λ r _, charge_ok t r) (λ _, True) s.
Proof using Type* refund_is_u64.
  intros Hn Hl Hg Hi Hc. unfold finish_transaction.
  destruct (bool_decide (err = _)) eqn:He.
  { apply bool_decide_eq_true in He as ->. apply wpp_ret. intros _. simpl. by split; [lia|]. }
  apply wpp_bind, pay_back_spec; [lia|done| |done]. intros g' s1 H1 H2.
  apply wpp_bind, wpp_ends; [apply ends_GetLogs| |done]. intros logs s2.
  apply wpp_bind, wpp_ends; [apply ends_AddBalance| |done]. intros _ s3.
  apply wpp_ret. intros _. simpl. unfold is_u64, TxGas in *.
  rewrite u64_id by (unfold is_u64; lia). split; [lia|]. intros _. exists need.
  split_and!; [done|lia|lia].
Qed.
Lemma execute_transaction_spec fuel t g e :
  0 <= g < Z.of_nat fuel → Z.of_nat fuel <= 2 ^ 64 →
  ends_in (execute_transaction env precompiles fuel t g) (λ r _, 0 <= r.1.2 <= g) (λ _, True) e.
Proof.
  intros Hg Hf. pose proof (entry_points_ok fuel Hf) as Hep. unfold execute_transaction.
  destruct (To t) as [to|].
  - apply wpp_bind, ends_in_state; [apply ends_GetAccount| |done]. intros _ e1.
    apply wpp_bind, ends_in_state; [apply ends_SetNonce| |done]. intros _ e2.
    apply wpp_bind. eapply wpp_mono; [by apply (ok_call _ _ Hep)| |done].
    intros [[ret l] err] e3 Hl. by apply wpp_ret.
  - apply wpp_bind, ends_in_state; [apply ends_SetNonce| |done]. intros _ e1.
    by apply (ok_create_1 _ _ Hep).
Qed.
Lemma main_spec fuel t e :
  is_u64 (TxGasCap t) → TxGasCap t < Z.of_nat fuel <= 2 ^ 64 →
  ends_in (main_ env precompiles fuel t) (λ r _, charge_ok t r) (λ _, True) e.
Proof using Type* refund_is_u64.
  intros Hc Hf. unfold main_.
  apply wpp_bind, ends_in_state; [apply ends_GetAccount| |done]. intros _ e1.
  apply wpp_bind, ends_in_state; [apply ends_GetNonce| |done]. intros nonce e2. cbv zeta.
  apply wpp_bind, ends_in_state; [apply ends_has_funds| |done]. intros funds e3.
  destruct funds; simpl negb; cbv iota.
  2: { apply wpp_bind, ends_in_state; [apply ends_GetBalance| |done]. intros b e4.
       apply wpp_bind. unfold wpp at 1, of_outcome, big_div.
       destruct (GasPrice t =? 0); [done|].
       apply wpp_bind, ends_in_state; [apply ends_SubBalance| |done]. intros _ e5.
       apply wpp_bind, wpp_ends; [|intros _ e6; by apply wpp_ret|done].
       apply moves_when; [apply _|]. apply ends_on_state, ends_SetNonce. }
  apply wpp_bind, ends_in_state; [apply ends_SubBalance| |done]. intros _ e4.
  assert (∀ x, x ≠ ErrInsufficientBalanceForGas → charge_ok t (consensusErr (TxGasCap t) x)) as Hcons.
  { intros x Hx _. simpl. split; [lia|done]. }
  destruct (Nonce t <? nonce); [by apply wpp_ret, Hcons|].
  pose proof (IntrinsicGas_ends (TxInput t) (bool_decide (To t = None))) as Hie.
  pose proof (IntrinsicGas_least (TxInput t) (bool_decide (To t = None))) as Hil.
  destruct (IntrinsicGas _ _) as [need|x|x] eqn:Ei; [|clear Hil|by apply (Hie x)].
  2: { apply wpp_bind, ends_in_state; [apply ends_SetNonce| |done]. intros _ e5.
       apply wpp_ret, Hcons. intros ->. unfold IntrinsicGas in Ei. by repeat case_match. }
  specialize (Hil need eq_refl).
  destruct (Z.ltb_spec (TxGasCap t) need) as [Hlt|Hge].
  { apply wpp_bind, ends_in_state; [apply ends_SetNonce| |done]. intros _ e5.
    by apply wpp_ret, Hcons. }
  unfold is_u64 in Hc. rewrite u64_id by (unfold is_u64; lia).
  apply wpp_bind. eapply wpp_mono; [apply execute_transaction_spec; lia| |done].
  intros [[[ret a] l] err] e5 Hl. simpl in Hl.
  assert (ends_in (finish_transaction t ret a l err) (λ r _, charge_ok t r) (λ _, True) (evm_state e5)) as Hft.
  { apply finish_transaction_spec with need; unfold is_u64; (done || lia). }
  unfold wpp, on_state in *. by destruct (finish_transaction _ _ _ _ _ (evm_state e5)) as [[]?].
Qed.
(** C8: a transaction ends, and what it is charged is bounded: with more fuel than its gas cap
    it never runs out of fuel, and one that is executed is charged at least half the intrinsic gas
    of its input and kind, refunds and reverts included.  No transaction is charged more gas than
    its cap but one whose sender cannot pay for that much gas
    ([ErrInsufficientBalanceForGas]): it is charged what the sender's balance buys, of which the
    theorem says nothing. *)
Theorem transaction_terminates fuel t (e : V) :
  is_u64 (TxGasCap t) → TxGasCap t < Z.of_nat fuel <= 2 ^ 64 →
  match (Main env precompiles fuel t e).1 with
  | Ret r => charge_ok t r
  | Err _ => True
  | Panic p => p ≠ no_fuel
  end.
Proof using Type* refund_is_u64.
  intros Hc Hf. pose proof (main_spec fuel t (evm_with_trx t (evm_jumpdests e) e) Hc Hf) as Hm.
  unfold Main. unfold wpp in Hm. by destruct (main_ _ _ _ _ _) as [[]?].
Qed.
End termination.
