(* ===== verification/EvmStack.v ===== *)
(** The stack: the table of the instruction set says what each instruction takes and leaves, and
    the check of the height before it is enough, so that no run accesses the stack outside of it
    and no stack grows beyond the limit. *)
From S2P Require Import Prelude Codec Rlp Uint256 Storage EvmMemory EvmAnalysis EvmInterface.
From S2P Require Import EvmMachine EvmInstructions EvmRun EvmFacts EvmGas.

Section stack.
Context {St : Type} `{!EvmState St} `{!EvmStateEnds St} `{Uint256} `{Keccak}.
Abbreviation W := (Machine St).
Abbreviation V := (EVM St).
Abbreviation no_stack := (λ p : string, p ≠ stack_panic).

(** ** Steps that leave the stack alone *)
Abbreviation flat := (moves same_stack no_stack).
Definition height (s : W) : nat := length (m_stack s).
Lemma flat_step {A} (m : M W A) :
  (∀ s, m_stack (m s).2 = m_stack s) → (∀ s p, (m s).1 = Panic p → p ≠ stack_panic) → flat m.
Proof.
  intros Hm Hp s. specialize (Hm s). specialize (Hp s). destruct (m s) as [[a|x|x] s']; [done..|].
  by apply Hp.
Qed.
Lemma flat_get : flat (get : M W W).
Proof. done. Qed.
Lemma flat_modify f : (∀ s : W, m_stack (f s) = m_stack s) → flat (modify f).
Proof. intros Hf s. apply Hf. Qed.
Lemma flat_on_evm {A} (m : M V A) : (∀ e p, (m e).1 = Panic p → p ≠ stack_panic) → flat (on_evm m).
Proof.
  intros Hm s. unfold on_evm. specialize (Hm (m_evm s)). destruct (m (m_evm s)) as [[] ?]; [done..|].
  by apply Hm.
Qed.
Lemma flat_acc {A} (m : M St A) : ends m → flat (acc m).
Proof.
  intros Hm. apply flat_on_evm. intros e p. unfold on_state. specialize (Hm (evm_state e)).
  destruct (m (evm_state e)) as [[] ?]; try done. intros [= <-]. apply Hm.
Qed.
Lemma flat_outcome {A} (o : outcome A) : other_panic o → flat (of_outcome o : M W A).
Proof. intros Ho. apply moves_outcome; [apply _|]. intros p Hp. by apply Ho. Qed.
Lemma flat_of_mem {A} (f : MemoryPool → Memory → outcome A) :
  (∀ p m, other_panic (f p m)) → flat (of_mem f : M W A).
Proof.
  intros Hf. apply flat_step; [done|]. intros s p E. by apply (Hf (evm_mem_pool (m_evm s)) (m_mem s) p).
Qed.
Lemma flat_on_mem f : (∀ p m, other_panic (f p m)) → flat (on_mem f : M W unit).
Proof.
  intros Hf s. unfold on_mem. specialize (Hf (evm_mem_pool (m_evm s)) (m_mem s)).
  destruct (f _ _) as [[]| |p]; [done..|by apply (Hf p)].
Qed.
Lemma flat_GiveGas g : flat (GiveGas g : M W unit).
Proof. done. Qed.
Lemma flat_UseGas g : flat (UseGas g : M W bool).
Proof. intros s. unfold UseGas. by destruct (_ <? _). Qed.
Lemma flat_memory_gas n : flat (memory_gas n : M W Z).
Proof. intros s. unfold memory_gas, memoryGasCost. by repeat case_match; simplify_eq. Qed.
#[local] Hint Resolve flat_get flat_acc flat_outcome flat_of_mem flat_on_mem flat_GiveGas flat_UseGas
  flat_memory_gas other_go_slice other_getData other_GetPtr other_GetCopy other_Set other_Set32
  other_set_byte other_Copy other_codeSegment other_callGas : moves.
Ltac flat_modify := apply flat_modify; intros ?; reflexivity.
#[local] Hint Extern 3 (moves same_stack _ (modify _)) => flat_modify : moves.
Lemma flat_get_account x : flat (get_account x).
Proof. unfold get_account. moves_solve. Qed.
Lemma flat_self_account : flat (self_account : M W address).
Proof. unfold self_account. moves_solve. Qed.
Lemma flat_checked r : flat (checked r : M W Z).
Proof. unfold checked. moves_solve. Qed.
#[local] Hint Resolve flat_get_account flat_self_account flat_checked : moves.
Lemma flat_ValidJumpdest x : flat (ValidJumpdest x : M W bool).
Proof.
  unfold ValidJumpdest. moves_step; [eauto with moves|].
  destruct (Uint64WithOverflow x) as [d b]. destruct (b || _); [moves_solve|].
  moves_step; [|moves_solve]. destruct (code_jumpdest_analysis _); [moves_solve|].
  moves_step; [|moves_solve]. apply flat_on_evm. intros e p. unfold analyze_jumpdests.
  assert (∀ b, other_panic (codeBitmap b)) as Hb by (intros; apply other_code_loop).
  repeat case_match; simplify_eq/=; try done; intros; simplify_eq; by eapply Hb.
Qed.
Lemma flat_copy_data d a b c : flat (copy_data d a b c : M W bytes).
Proof. unfold copy_data, done_. moves_solve. Qed.
#[local] Hint Resolve flat_ValidJumpdest flat_copy_data : moves.
Lemma flat_jump_to x : flat (jump_to x : M W bytes).
Proof. unfold jump_to, done_. moves_solve. Qed.
#[local] Hint Resolve flat_jump_to : moves.

(** ** Steps from a height to another *)
Definition high {A} (n : nat) (m : M W A) (n' : nat) : Prop :=
  ∀ s, height s = n →
    match m s with
    | (Ret _, s') => height s' = n'
    | (Err _, _) => True
    | (Panic p, _) => p ≠ stack_panic
    end.
Lemma high_flat {A} n (m : M W A) : flat m → high n m n.
Proof.
  intros Hm s <-. specialize (Hm s). unfold height. destruct (m s) as [[]s']; [by rewrite Hm|done..].
Qed.
Lemma high_ret {A} n (a : A) : high n (mret a) n.
Proof. by intros s <-. Qed.
Lemma high_throw {A} n n' e : high n (throw e : M W A) n'.
Proof. by intros s <-. Qed.
Lemma high_bind {A B} n (m : M W A) n1 (k : A → M W B) n2 :
  high n m n1 → (∀ a, high n1 (k a) n2) → high n (m ≫= k) n2.
Proof.
  intros Hm Hk s Hs. specialize (Hm s Hs). unfold mbind, M_bind.
  destruct (m s) as [[a|x|x] s1]; [by apply Hk|done..].
Qed.
Lemma high_when n b (m : M W unit) : high n m n → high n (when b m) n.
Proof. intros Hm. destruct b; [done|apply high_ret]. Qed.
Lemma high_push n d : high n (push d : M W unit) (S n).
Proof. intros s Hs. unfold height in *. simpl. by rewrite Hs. Qed.
Lemma high_pop n : high (S n) (pop : M W word) n.
Proof. intros s Hs. unfold height, pop in *. destruct (m_stack s); [done|]. by injection Hs. Qed.
Lemma high_peek n : high (S n) (peek : M W word) (S n).
Proof. intros s Hs. unfold height, peek in *. by destruct (m_stack s) eqn:E; [done|rewrite E]. Qed.
Lemma high_set_top n y : high (S n) (set_top y : M W unit) (S n).
Proof. intros s Hs. unfold height, set_top in *. by destruct (m_stack s). Qed.
Lemma high_Back n i : (i < n)%nat → high n (Back i : M W word) n.
Proof.
  intros Hi s Hs. unfold height, Back in *.
  destruct (lookup_lt_is_Some_2 (m_stack s) i) as [x ->]; [by rewrite Hs|done].
Qed.
Lemma high_swap n i : (0 < i <= n)%nat → high n (swap i : M W unit) n.
Proof.
  intros Hi s Hs. unfold height, swap in *.
  destruct (lookup_lt_is_Some_2 (m_stack s) (i - 1)%nat) as [x ->]; [lia|].
  destruct (lookup_lt_is_Some_2 (m_stack s) 0%nat) as [y ->]; [lia|]. simpl. by rewrite !length_insert.
Qed.
Lemma high_pop_topics n k : high (n + k) (pop_topics n : M W (list hash)) k.
Proof.
  induction n as [|n IH]; simpl; [apply high_ret|]. eapply high_bind; [apply high_pop|intros t].
  eapply high_bind; [apply IH|intros ts]. apply high_ret.
Qed.
Ltac high_leaf :=
  lazymatch goal with
  | |- high _ pop _ => apply high_pop
  | |- high _ peek _ => apply high_peek
  | |- high _ (set_top _) _ => apply high_set_top
  | |- high _ (push _) _ => apply high_push
  | |- high _ (Back _) _ => apply high_Back; lia
  | |- high _ (swap _) _ => apply high_swap; lia
  | |- high _ (pop_topics _) _ => apply high_pop_topics
  | |- high _ (when _ _) _ => apply high_when
  | |- high _ (throw _) _ => apply high_throw
  | |- high _ (mret _) _ => apply high_ret
  | |- high _ (let '_ := ?x in _) _ => destruct x
  | |- high _ (if ?b then _ else _) _ => destruct b
  | |- high _ (match ?x with _ => _ end) _ => destruct x
  | |- high _ (mbind _ _) _ => eapply high_bind; [|intros ?]
  | |- high _ _ _ => first [solve [eauto 2 with high] | apply high_flat; solve [moves_solve]]
  end.
Ltac high_solve := intros; repeat (cbv beta zeta; high_leaf).
Create HintDb high.
Lemma high_mem_size n a b : (a < n)%nat → (b < n)%nat → high n (mem_size a b : M W word) n.
Proof. intros. unfold mem_size. high_solve. Qed.
Lemma high_pass_gas n g : (0 < n)%nat → high n (pass_gas g : M W Z) n.
Proof. intros. unfold pass_gas. high_solve. Qed.
Lemma high_word_gas n i p : (i < n)%nat → high n (word_gas i p : M W Z) n.
Proof. intros. unfold word_gas. high_solve. Qed.
#[local] Hint Extern 1 (high _ (mem_size _ _) _) => (apply high_mem_size; lia) : high.
#[local] Hint Extern 1 (high _ (pass_gas _) _) => (apply high_pass_gas; lia) : high.
#[local] Hint Extern 1 (high _ (word_gas _ _) _) => (apply high_word_gas; lia) : high.

Context (env : environment) (ep : entry_points St).
(** The instructions that exist. *)
Definition exists_ (c : OpCode) : Prop :=
  match c with
  | PUSH n => 1 <= n <= 32
  | DUP n | SWAP n => 1 <= n <= 16
  | LOG n => 0 <= n <= 4
  | _ => True
  end.
Lemma decode_exists b c : decode b = Some c → exists_ c.
Proof.
  unfold decode. repeat (case_match; [simpl; intros; simplify_eq; simpl; lia|]).
  repeat case_match; intros; simplify_eq; done.
Qed.
Abbreviation takes c := (Z.to_nat (pops (instruction_set env ep c))).
Abbreviation leaves c := (Z.to_nat (pushes (instruction_set env ep c))).
Lemma high_memory_needed c k :
  exists_ c → high (takes c + k) (memory_needed (instruction_set env ep c)) (takes c + k).
Proof.
  intros Hc. unfold memory_needed, Uint64WithOverflow. destruct c; simpl in *; unfold memoryKeccak256, memoryCallDataCopy,
    memoryCodeCopy, memoryExtCodeCopy, memoryReturnDataCopy, memoryMLoad, memoryMStore,
    memoryMStore8, memoryMcopy, memoryLog, memoryCreate, memoryCreate2, memoryCall,
    memoryDelegateCall, memoryStaticCall, memoryReturn, memoryRevert; high_solve.
Qed.
Lemma high_gasCost c size k :
  exists_ c → high (takes c + k) (gasCost (instruction_set env ep c) size) (takes c + k).
Proof.
  intros Hc. destruct c; simpl in *;
    unfold constGasFunc, gasExp, gasKeccak256, gasBalance, gasCallDataCopy, gasCodeCopy,
      gasExtCodeSize, gasExtCodeCopy, gasReturnDataCopy, gasExtCodeHash, gasMLoad, gasMStore,
      gasMStore8, gasSLoad, gasSStore, gasMcopy, gasPush, gasDup, gasSwap, makeGasLog, gasTLoad,
      gasCreate, gasCreate2, gasCall, gasCallCode, gasReturn, gasDelegateCall, gasStaticCall,
      gasRevert, gasSuicide, memoryCopierGas, memory_plus; high_solve.
Qed.
Lemma high_to {A} n (m : M W A) n1 n2 : high n m n1 → n1 = n2 → high n m n2.
Proof. by intros Hm <-. Qed.
(** The code the calls run is as safe. *)
Definition stack_safe {A} (m : M V A) : Prop := ∀ e p, (m e).1 = Panic p → p ≠ stack_panic.
Record entries_safe : Prop := {
  safe_call typ ref a i g v : stack_safe (ep_call ep typ ref a i g v);
  safe_create_1 a c g v : stack_safe (ep_create_1 ep a c g v);
  safe_create_2 a c g v x : stack_safe (ep_create_2 ep a c g v x)
}.
Context (entries : entries_safe).
Lemma flat_call typ ref a i g v : flat (on_evm (ep_call ep typ ref a i g v)).
Proof. by apply flat_on_evm, safe_call. Qed.
Lemma flat_create_1 a c g v : flat (on_evm (ep_create_1 ep a c g v)).
Proof. by apply flat_on_evm, safe_create_1. Qed.
Lemma flat_create_2 a c g v x : flat (on_evm (ep_create_2 ep a c g v x)).
Proof. by apply flat_on_evm, safe_create_2. Qed.
Lemma flat_ret_bytes r a b : flat (ret_bytes r a b : M W bytes).
Proof. unfold ret_bytes. moves_solve. Qed.
#[local] Hint Resolve flat_call flat_create_1 flat_create_2 flat_ret_bytes : moves.
Lemma high_finish_call n r a b c d : high n (finish_call r a b c d : M W bytes) (S n).
Proof. unfold finish_call. high_solve. Qed.
Lemma high_finish_create n r : high n (finish_create r : M W bytes) (S n).
Proof. unfold finish_create. high_solve. Qed.
#[local] Hint Resolve high_finish_call high_finish_create : high.
Lemma high_execute c k :
  exists_ c → high (takes c + k) (execute (instruction_set env ep c)) (leaves c + k).
Proof.
  intros Hc. destruct c; simpl in *;
    unfold opStop, opAdd, opMul, opSub, opDiv, opSdiv, opMod, opSmod, opAddmod, opMulmod, opExp,
      opSignExtend, opLt, opGt, opSlt, opSgt, opEq, opIszero, opAnd, opOr, opXor, opNot, opByte,
      opSHL, opSHR, opSAR, opKeccak256, opAddress, opBalance, opOrigin, opCaller, opCallValue,
      opCallDataLoad, opCallDataSize, opCallDataCopy, opCodeSize, opCodeCopy, opGasprice,
      opExtCodeSize, opExtCodeCopy, opReturnDataSize, opReturnDataCopy, opExtCodeHash,
      opBlockhash, opCoinbase, opTimestamp, opNumber, opDifficulty, opGasLimit, opChainID,
      opSelfBalance, opPop, opMload, opMstore, opMstore8, opSload, opSstore, opJump, opJumpi,
      opPc, opMsize, opGas, opJumpdest, opMcopy, opPush0, makePush, makeDup, makeSwap, makeLog,
      opTload, opTstore, opReturn, opRevert, opSuicide, binary, push_block, dup, done_,
      opCreate, opCreate2, opCall, opCallCode, opDelegateCall, opStaticCall, take_create_gas,
      call_gas_tmp, self_ref, Uint64WithOverflow.
  all: try solve [high_solve].
  - eapply high_to; [high_solve|lia].
  - replace (Z.to_nat (n + 2) + k)%nat with (S (S (Z.to_nat n + k))) by lia. high_solve.
Qed.

(** ** A round *)
Lemma high_charge c size k :
  exists_ c → high (takes c + k) (charge (instruction_set env ep c) size) (takes c + k).
Proof.
  intros Hc s Hs. unfold charge. pose proof (high_gasCost c size k Hc s Hs) as Hg.
  destruct (gasCost _ size s) as [[cost|x|x] s1]; [|done..].
  assert (high (takes c + k) (ok ← UseGas cost; fail_if (negb ok) ErrOutOfGas : M W unit) (takes c + k)) as Hu.
  { apply high_flat. moves_solve. }
  by apply Hu.
Qed.
Definition low (n : Z) (s : W) : Prop := Z.of_nat (height s) <= n.
(** The height after a round, from one within the limit, and no access outside of the stack. *)
Lemma step_height s :
  low StackLimit s →
  match step env ep s with
  | (Ret _, s') => low StackLimit s'
  | (Err _, _) => True
  | (Panic p, _) => p ≠ stack_panic
  end.
Proof.
  intros Hs. unfold step. unfold mbind at 1, M_bind at 1, get.
  destruct (decode _) as [c|] eqn:Ec; [|done]. apply decode_exists in Ec.
  unfold makeStackFunc. fold (height s).
  assert (0 <= pops (instruction_set env ep c) ∧ 0 <= pushes (instruction_set env ep c)) as [Hp Hq].
  { destruct c; simpl in *; lia. }
  destruct (Z.ltb_spec (Z.of_nat (height s)) (pops (instruction_set env ep c))); [done|].
  destruct (Z.ltb_spec StackLimit (Z.of_nat (height s) + pushes (instruction_set env ep c) -
    pops (instruction_set env ep c))); [done|].
  set (k := (height s - takes c)%nat). assert (height s = takes c + k)%nat as Hk by lia.
  lazymatch goal with |- let '_ := ?m s in _ => assert (high (takes c + k) m (leaves c + k)) as Hm end.
  { assert (is_call c = true → 2 < takes c)%nat as Hcall by (by destruct c; try done; simpl; lia).
    eapply high_bind.
    { apply high_when. destruct (writes _); [apply high_throw|].
      destruct (is_call c); [|apply high_ret]. apply (high_bind _ _ (takes c + k)); [apply high_Back|].
      - specialize (Hcall eq_refl). lia.
      - intros v. apply high_flat, moves_fail_if, _. }
    intros _. eapply high_bind; [by apply high_memory_needed|intros size].
    eapply high_bind; [by apply high_charge|intros _].
    eapply high_bind; [apply high_when, high_flat, flat_on_mem; by intros ??? [=]|intros _].
    eapply high_bind; [by apply high_execute|intros res]. high_solve. }
  specialize (Hm s Hk).
  lazymatch type of Hm with let '_ := ?out in _ => destruct out as [[r|x|x] s'] end; [|done..].
  unfold low. rewrite Hm. lia.
Qed.
End stack.

(** ** Calls and runs *)
Section runs.
Context {St : Type} `{!EvmState St} `{!EvmStateEnds St} `{Uint256} `{Keccak}.
Context (env : environment) (precompiles : address → option (Precompiled St)).
Context (precompiles_end : ∀ a p f, precompiles a = Some p → ends (RequiredGas p f) ∧ ends (Run p f)).
Abbreviation W := (Machine St).
Abbreviation V := (EVM St).
Abbreviation safe := (moves (λ _ _ : V, True) (λ p : string, p ≠ stack_panic)).

Lemma safe_ends {A} (m : M V A) : ends m → safe m.
Proof. intros Hm e. specialize (Hm e). destruct (m e) as [[]?]; [done..|apply Hm]. Qed.
Lemma safe_state {A} (m : M St A) : ends m → safe (on_state m).
Proof. intros Hm. by apply safe_ends, ends_on_state. Qed.
Lemma safe_stack {A} (m : M V A) : safe m → stack_safe m.
Proof. intros Hm e p. specialize (Hm e). destruct (m e) as [[]?]; try done. by intros [= <-]. Qed.
#[local] Hint Extern 1 (moves _ _ (on_state _)) => (apply safe_state; solve [eauto 2 with moves]) : moves.
#[local] Hint Resolve ends_has_funds ends_begin_call ends_transfer : moves.
Lemma safe_settle n b r : safe (settle n b r : M V call_result).
Proof. unfold settle. moves_solve. Qed.
Lemma safe_run_precompiled p f g :
  ends (RequiredGas p f) → ends (Run p f) → safe (run_precompiled p f g).
Proof.
  intros H1 H2. unfold run_precompiled. moves_step; [by apply safe_ends|]. destruct (_ <=? _); [|moves_solve].
  intros e. unfold precompiled_result. specialize (H2 e).
  destruct (Run p f e) as [[]?]; [done..|apply H2].
Qed.
Lemma safe_lam {A} (b : V → bool) (o : outcome A) (m : M V A) :
  (∀ p, o ≠ Panic p) → safe m → safe (λ e, if b e then (o, e) else m e).
Proof.
  intros Ho Hm e. destruct (b e); [|apply Hm]. destruct o; [done..|]. by destruct (Ho msg).
Qed.
Lemma safe_call_with run typ ref a i g v :
  (∀ c b, safe (run c b)) → safe (call_with precompiles run typ ref a i g v).
Proof.
  intros Hr. unfold call_with.
  apply (safe_lam (λ e, CallCreateDepth <? evm_depth e)); [done|].
  moves_step; [moves_solve|]. moves_step; [moves_solve|]. do 2 (moves_step; [eauto with moves|]).
  moves_step; [moves_solve|]. moves_step; [eauto with moves|]. moves_step.
  { apply moves_outcome; [apply _|]. intros p. unfold call_frame.
    repeat case_match; intros; by simplify_eq. }
  destruct (precompiles a) as [p|] eqn:Ep.
  - destruct (precompiles_end a p a4 Ep). moves_step; [by apply safe_run_precompiled|apply safe_settle].
  - moves_step; [|apply safe_settle]. unfold run_code. moves_solve.
Qed.
Lemma safe_create_with run a c g v na :
  (∀ c b, safe (run c b)) → safe (create_with run a c g v na : M V run_result).
Proof.
  intros Hr. unfold create_with.
  apply (safe_lam (λ e, CallCreateDepth <? evm_depth e)); [done|]. unfold deploy. moves_solve.
Qed.
Lemma entry_safe run : (∀ c b, safe (run c b)) → entries_safe (entry_with precompiles run).
Proof.
  intros Hr. split; intros; apply safe_stack; simpl.
  - by apply safe_call_with.
  - unfold create_1_with. moves_step; [eauto with moves|]. moves_step.
    { apply moves_outcome; [apply _|]. intros p Hp. by apply (other_CreateAddress _ _ _ Hp). }
    moves_step; [by apply safe_create_with|]. moves_solve.
  - unfold create_2_with. moves_step; [by apply safe_create_with|]. moves_solve.
Qed.
Lemma run_with_safe (loop : M W (bytes * option string)) :
  (∀ s, low StackLimit s → wpp (λ p, p ≠ stack_panic) loop (λ _ _, True) (λ _, True) s) →
  ∀ c b, safe (run_with loop c b).
Proof.
  intros Hl c b e. unfold run_with. specialize (Hl (start_run c b e)). unfold wpp in Hl.
  destruct (loop (start_run c b e)) as [[[]|x|x] s]; [done..|]. by apply Hl.
Qed.
Lemma loop_safe fuel s :
  low StackLimit s → wpp (λ p, p ≠ stack_panic) (loop env precompiles fuel) (λ _ _, True) (λ _, True) s.
Proof.
  revert s. induction fuel as [|fuel IH]; intros s Hs; [done|]. simpl. apply wpp_bind.
  pose proof (step_height env (entry_with precompiles (run_with (loop env precompiles fuel)))
    (entry_safe _ (run_with_safe _ IH)) s Hs) as Hstep.
  unfold wpp at 1. destruct (step _ _ s) as [[[r|]|x|x] s']; [done|by apply IH|done..].
Qed.
(** The states of a frame, as the rounds of the loop go. *)
Inductive frame_reaches (fuel : nat) (c : Contract) (readOnly : bool) (e : V) : W → Prop :=
| frame_starts : frame_reaches fuel c readOnly e (start_run c readOnly e)
| frame_steps s s' :
    frame_reaches fuel c readOnly e s →
    step env (entry_with precompiles (run env precompiles fuel)) s = (Ret None, s') →
    frame_reaches fuel c readOnly e s'.
(** C9: the stack is safe: in every state that a contract reaches, the height of the stack is at
    most the limit, and the next round, the calls it makes included, never accesses a stack outside
    of its bounds, whatever the code. *)
Theorem stack_is_safe fuel c readOnly e s :
  frame_reaches fuel c readOnly e s →
  Z.of_nat (length (m_stack s)) <= StackLimit ∧
  (step env (entry_with precompiles (run env precompiles fuel)) s).1 ≠ Panic stack_panic.
Proof.
  assert (entries_safe (entry_with precompiles (run env precompiles fuel))) as He.
  { apply entry_safe, run_with_safe, loop_safe. }
  intros Hs. assert (low StackLimit s) as Hl.
  { induction Hs as [|s s' _ IH E]; [done|]. pose proof (step_height env _ He s IH) as Hh.
    by rewrite E in Hh. }
  split; [done|]. pose proof (step_height env _ He s Hl) as Hh.
  destruct (step _ _ s) as [[]?]; [done..|]. intros [= ->]. by apply Hh.
Qed.
End runs.
