(* ===== verification/EvmJournal.v ===== *)
(** What the virtual machine asks of the accounts' journal, and what runs get from it: whatever
    the code does, a call or a creation that fails leaves the accounts as they were, and a static
    call changes nothing. *)
From S2P Require Import Prelude Codec Rlp Uint256 Storage EvmMemory EvmAnalysis EvmInterface.
From S2P Require Import EvmMachine EvmInstructions EvmRun EvmFacts EvmGas.

Abbreviation anything := (λ _ : string, True).
(** ** The interface to the journal *)
Class EvmJournal (St : Type) `{!EvmState St} : Type := {
  unseen : relation St;  (** only caches change *)
  changed : relation St;  (** the journal has what changed, and accounts in use keep their code *)
  alike : relation St;  (** the same balances, nonces, codes and slots *)
  restored : relation St;  (** the accounts are those of the first state *)
  nonce_of : St → address → Z;
  code_size_of : St → address → Z;
  unseen_preorder :: PreOrder unseen;
  changed_preorder :: PreOrder changed;
  alike_preorder :: PreOrder alike;
  restored_preorder :: PreOrder restored;
  unseen_changed s t : unseen s t → changed s t;
  unseen_alike s t : unseen s t → alike s t;
  unseen_restored s t : unseen s t → restored s t;
  unseen_nonce s t a : unseen s t →
    nonce_of t a = nonce_of s a ∧ code_size_of t a = code_size_of s a;
  changed_code s t a : changed s t → 0 < nonce_of s a →
    0 < nonce_of t a ∧ code_size_of t a = code_size_of s a;
  (** the reads *)
  j_GetAccount a : moves unseen anything (GetAccount a);
  j_GetBalance a : moves unseen anything (GetBalance a);
  j_GetNonce a : moves unseen anything (GetNonce a);
  j_GetCodeHash a : moves unseen anything (GetCodeHash a);
  j_GetCode a : moves unseen anything (GetCode a);
  j_GetCodeSize a : moves unseen anything (GetCodeSize a);
  j_GetCommittedState a k : moves unseen anything (GetCommittedState a k);
  j_GetState a k : moves unseen anything (GetState a k);
  j_HasSuicided a : moves unseen anything (HasSuicided a);
  j_IsNIL a : moves unseen anything (IsNIL a);
  j_IsEIP161Empty a : moves unseen anything (IsEIP161Empty a);
  j_GetLogs : moves unseen anything GetLogs;
  j_GetRefund : moves unseen anything GetRefund;
  j_Snapshot : moves unseen anything Snapshot;
  j_GetTransientState a k : moves unseen anything (GetTransientState a k);
  GetNonce_value a s n s' : GetNonce a s = (Ret n, s') → nonce_of s' a = n;
  GetCodeSize_value a s n s' : GetCodeSize a s = (Ret n, s') → code_size_of s' a = n;
  (** the changes *)
  j_AddBalance a x : moves changed anything (AddBalance a x);
  j_SubBalance a x : moves changed anything (SubBalance a x);
  j_IncrementNonce a : moves changed anything (IncrementNonce a);
  j_SetNonce a x : moves changed anything (SetNonce a x);
  j_SetState a k x : moves changed anything (SetState a k x);
  j_Suicide a b : moves changed anything (Suicide a b);
  j_AddLog l : moves changed anything (AddLog l);
  j_AddRefund g : moves changed anything (AddRefund g);
  j_SubRefund g : moves changed anything (SubRefund g);
  j_SetTransientState a k v : moves changed anything (SetTransientState a k v);
  j_touch a : moves alike anything (AddBalance a 0);
  j_take_nothing a : moves alike anything (SubBalance a 0);
  IncrementNonce_value a s s' u : IncrementNonce a s = (Ret u, s') →
    nonce_of s' a = nonce_of s a + 1 ∧ code_size_of s' a = code_size_of s a;
  (** code is given to a new account only *)
  SetCode_changed a c s0 s :
    changed s0 s → nonce_of s0 a <= 0 → code_size_of s a = 0 →
    match SetCode a c s with (Panic _, _) => True | (_, s') => changed s0 s' end;
  (** back to a snapshot *)
  revert_restores n s s0 s1 :
    Snapshot s = (Ret n, s0) → changed s0 s1 →
    ∃ t, RevertToSnapshot n s1 = (Ret tt, t) ∧ restored s0 t ∧ changed s0 t ∧
         (alike s0 s1 → alike s0 t)
}.
#[export] Hint Resolve j_GetAccount j_GetBalance j_GetNonce j_GetCodeHash j_GetCode j_GetCodeSize
  j_GetCommittedState j_GetState j_HasSuicided j_IsNIL j_IsEIP161Empty j_GetLogs j_GetRefund
  j_Snapshot j_GetTransientState j_AddBalance j_SubBalance j_IncrementNonce j_SetNonce j_SetState
  j_Suicide j_AddLog j_AddRefund j_SubRefund j_SetTransientState j_touch j_take_nothing : moves.

Section journal.
Context {St : Type} `{!EvmState St} `{!EvmStateEnds St} `{!EvmJournal St} `{Uint256} `{Keccak}.
Context (env : environment).
Abbreviation W := (Machine St).
Abbreviation V := (EVM St).
(** Whether static calls are to change nothing; [strict] asks it of the precompiled contracts. *)
Context (strict : bool).

(** ** Steps of the virtual machine
    What a step changes is in the journal; unless it [writes], it changes nothing in a static
    call. *)
Definition within (writes : bool) (e e' : V) : Prop :=
  evm_read_only e' = evm_read_only e ∧ changed (evm_state e) (evm_state e') ∧
  (writes = false → strict = true → evm_read_only e = true → alike (evm_state e) (evm_state e')).
#[export] Instance within_preorder w : PreOrder (within w).
Proof.
  split; [by split|]. intros e1 e2 e3 (R1 & C1 & A1) (R2 & C2 & A2).
  split_and!; [congruence|by etrans|]. intros Hw Hs Hr. etrans; [by apply A1|].
  apply A2; congruence.
Qed.
Definition withinM (writes : bool) (s s' : W) : Prop := within writes (m_evm s) (m_evm s').
#[export] Instance withinM_preorder w : PreOrder (withinM w).
Proof. unfold withinM. split; [intros s; reflexivity|]. intros s1 s2 s3. apply transitivity. Qed.
Lemma within_writes w e e' : within w e e' → within true e e'.
Proof. intros (?&?&?). by split_and!. Qed.
Lemma within_reading e e' : evm_read_only e = false → within true e e' → within false e e'.
Proof. intros Hr (?&?&?). split_and!; [done..|]. congruence. Qed.
Abbreviation steps w := (moves (withinM w) anything).

(** Steps of the machine that leave the accounts and the mode alone. *)
Definition aside (s s' : W) : Prop :=
  evm_read_only (m_evm s') = evm_read_only (m_evm s) ∧ evm_state (m_evm s') = evm_state (m_evm s).
Lemma aside_within w s s' : aside s s' → withinM w s s'.
Proof. intros [E1 E2]. split_and!; [done|by rewrite E2|]. intros. by rewrite E2. Qed.
Lemma steps_aside {A} w (m : M W A) :
  (∀ s, aside s (m s).2) → steps w m.
Proof.
  intros Hm s. specialize (Hm s). destruct (m s) as [[]s']; simpl in Hm; try done;
    by apply aside_within.
Qed.
Lemma steps_modify w f : (∀ s, aside s (f s)) → steps w (modify f).
Proof. intros Hf. by apply steps_aside. Qed.
Lemma steps_get w : steps w (get : M W W).
Proof. by apply steps_aside. Qed.
Lemma steps_push w d : steps w (push d : M W unit).
Proof. by apply steps_aside. Qed.
Lemma steps_pop w : steps w (pop : M W word).
Proof. apply steps_aside. intros s. unfold pop. by destruct (m_stack s). Qed.
Lemma steps_peek w : steps w (peek : M W word).
Proof. apply steps_aside. intros s. unfold peek. by destruct (m_stack s). Qed.
Lemma steps_set_top w y : steps w (set_top y : M W unit).
Proof. apply steps_aside. intros s. unfold set_top. by destruct (m_stack s). Qed.
Lemma steps_Back w n : steps w (Back n : M W word).
Proof. apply steps_aside. intros s. unfold Back. by destruct (m_stack s !! n). Qed.
Lemma steps_swap w n : steps w (swap n : M W unit).
Proof.
  apply steps_aside. intros s. unfold swap.
  destruct (m_stack s !! (n - 1)%nat); [|done]. by destruct (m_stack s !! 0%nat).
Qed.
Lemma steps_outcome {A} w (o : outcome A) : steps w (of_outcome o : M W A).
Proof. by apply steps_aside. Qed.
Lemma steps_of_mem {A} w (f : MemoryPool → Memory → outcome A) : steps w (of_mem f : M W A).
Proof. by apply steps_aside. Qed.
Lemma steps_on_mem w f : steps w (on_mem f : M W unit).
Proof. apply steps_aside. intros s. unfold on_mem. by destruct (f _ _) as [[]| |]. Qed.
Lemma steps_GiveGas w g : steps w (GiveGas g : M W unit).
Proof. by apply steps_aside. Qed.
Lemma steps_UseGas w g : steps w (UseGas g : M W bool).
Proof. apply steps_aside. intros s. unfold UseGas. by destruct (_ <? _). Qed.
Lemma steps_memory_gas w n : steps w (memory_gas n : M W Z).
Proof.
  apply steps_aside. intros s. unfold memory_gas. by destruct (memoryGasCost _ _) as [[]| |].
Qed.
(** Steps of the accounts. *)
Lemma moves_acc {A} w (m : M St A) :
  moves changed anything m → (w = false → moves alike anything m) → steps w (acc m).
Proof.
  intros Hc Ha s. unfold acc, on_evm, on_state. specialize (Hc (evm_state (m_evm s))).
  assert (w = false → match m (evm_state (m_evm s)) with (Panic _, _) => True | (_, s') => alike (evm_state (m_evm s)) s' end)
    as Ha' by (intros Hw; apply (Ha Hw)).
  destruct (m _) as [[]?]; [| |done]; (split_and!; [done|done|]; intros; by apply Ha').
Qed.
Lemma unseen_moves {A} (R : relation St) (m : M St A) :
  moves unseen anything m → (∀ s t, unseen s t → R s t) → moves R anything m.
Proof using. intros Hm HR s. specialize (Hm s). destruct (m s) as [[]?]; auto. Qed.
Lemma steps_read {A} w (m : M St A) : moves unseen anything m → steps w (acc m).
Proof.
  intros Hm. apply moves_acc; [|intros _]; apply (unseen_moves _ _ Hm);
    [apply unseen_changed|apply unseen_alike].
Qed.
Lemma steps_write {A} (m : M St A) : moves changed anything m → steps true (acc m).
Proof. intros Hm. by apply moves_acc. Qed.
#[local] Hint Resolve steps_get steps_push steps_pop steps_peek steps_set_top steps_Back steps_swap
  steps_outcome steps_of_mem steps_on_mem steps_GiveGas steps_UseGas steps_memory_gas
  steps_write : moves.
#[local] Hint Extern 1 (moves (withinM _) _ (acc _)) => (apply steps_read; solve [eauto 2 with moves]) : moves.
Ltac steps_modify := apply steps_modify; intros ?; by split.
#[local] Hint Extern 3 (moves (withinM _) _ (modify _)) => steps_modify : moves.
Lemma steps_get_account w x : steps w (get_account x).
Proof. unfold get_account. moves_solve. Qed.
Lemma steps_self_account w : steps w (self_account : M W address).
Proof. unfold self_account. moves_solve. Qed.
Lemma steps_checked w r : steps w (checked r : M W Z).
Proof. unfold checked. moves_solve. Qed.
#[local] Hint Resolve steps_get_account steps_self_account steps_checked : moves.
Lemma steps_word_gas w n p : steps w (word_gas n p : M W Z).
Proof. unfold word_gas. moves_solve. Qed.
Lemma steps_pass_gas w g : steps w (pass_gas g : M W Z).
Proof. unfold pass_gas. moves_solve. Qed.
Lemma steps_mem_size w a b : steps w (mem_size a b : M W word).
Proof. unfold mem_size. moves_solve. Qed.
#[local] Hint Resolve steps_word_gas steps_pass_gas steps_mem_size : moves.
Context (ep : entry_points St).
Lemma steps_gasCost c size : steps (writes (instruction_set env ep c)) (gasCost (instruction_set env ep c) size).
Proof.
  destruct c; simpl;
    unfold constGasFunc, gasExp, gasKeccak256, gasBalance, gasCallDataCopy, gasCodeCopy,
      gasExtCodeSize, gasExtCodeCopy, gasReturnDataCopy, gasExtCodeHash, gasMLoad, gasMStore,
      gasMStore8, gasSLoad, gasSStore, gasMcopy, gasPush, gasDup, gasSwap, makeGasLog, gasTLoad,
      gasCreate, gasCreate2, gasCall, gasCallCode, gasReturn, gasDelegateCall, gasStaticCall,
      gasRevert, gasSuicide, memoryCopierGas, memory_plus; moves_solve.
Qed.
Lemma steps_memory_needed w c : steps w (memory_needed (instruction_set env ep c)).
Proof.
  unfold memory_needed, Uint64WithOverflow. destruct c; simpl; unfold memoryKeccak256, memoryCallDataCopy,
    memoryCodeCopy, memoryExtCodeCopy, memoryReturnDataCopy, memoryMLoad, memoryMStore,
    memoryMStore8, memoryMcopy, memoryLog, memoryCreate, memoryCreate2, memoryCall,
    memoryDelegateCall, memoryStaticCall, memoryReturn, memoryRevert; moves_solve.
Qed.
Lemma steps_ValidJumpdest w x : steps w (ValidJumpdest x : M W bool).
Proof.
  unfold ValidJumpdest. moves_step; [eauto with moves|].
  destruct (Uint64WithOverflow x) as [d b]. destruct (b || _); [moves_solve|].
  moves_step; [|moves_solve]. destruct (code_jumpdest_analysis _); [moves_solve|].
  moves_step; [|moves_solve]. apply steps_aside. intros s. unfold on_evm, analyze_jumpdests.
  by repeat case_match; simplify_eq.
Qed.
#[local] Hint Resolve steps_ValidJumpdest : moves.
Lemma steps_pop_topics w n : steps w (pop_topics n : M W (list hash)).
Proof. induction n; simpl; moves_solve. Qed.
Lemma steps_copy_data w d a b c : steps w (copy_data d a b c : M W bytes).
Proof. unfold copy_data, done_. moves_solve. Qed.
Lemma steps_jump_to w x : steps w (jump_to x : M W bytes).
Proof. unfold jump_to, done_. moves_solve. Qed.
#[local] Hint Resolve steps_pop_topics steps_copy_data steps_jump_to : moves.
(** The writing instructions write; the others, but TSTORE and those that run other code, do not. *)
Lemma steps_execute c :
  calls c = false → c ≠ TSTORE →
  steps (writes (instruction_set env ep c)) (execute (instruction_set env ep c)).
Proof.
  intros Hc Ht. destruct c; try discriminate Hc; try done; simpl;
    unfold opStop, opAdd, opMul, opSub, opDiv, opSdiv, opMod, opSmod, opAddmod, opMulmod, opExp,
      opSignExtend, opLt, opGt, opSlt, opSgt, opEq, opIszero, opAnd, opOr, opXor, opNot, opByte,
      opSHL, opSHR, opSAR, opKeccak256, opAddress, opBalance, opOrigin, opCaller, opCallValue,
      opCallDataLoad, opCallDataSize, opCallDataCopy, opCodeSize, opCodeCopy, opGasprice,
      opExtCodeSize, opExtCodeCopy, opReturnDataSize, opReturnDataCopy, opExtCodeHash,
      opBlockhash, opCoinbase, opTimestamp, opNumber, opDifficulty, opGasLimit, opChainID,
      opSelfBalance, opPop, opMload, opMstore, opMstore8, opSload, opSstore, opJump, opJumpi,
      opPc, opMsize, opGas, opJumpdest, opMcopy, opPush0, makePush, makeDup, makeSwap, makeLog,
      opTload, opReturn, opRevert, opSuicide, binary, push_block, dup, done_,
      Uint64WithOverflow; moves_solve.
Qed.

(** ** Instructions that run other code *)
Definition stays (w : bool) {A} (r : outcome A * V) (e : V) : Prop :=
  match r with (Panic _, _) => True | (_, e') => within w e e' end.
(** A call of a static call sends no value. *)
Definition may_send (typ : call_type) (v : Z) (e : V) : Prop :=
  typ = CALL → strict = true → evm_read_only e = true → v = 0.
Record entry_journal : Prop := {
  journal_call typ ref a i g v e : may_send typ v e → stays false (ep_call ep typ ref a i g v e) e;
  journal_create_1 a c g v e : stays true (ep_create_1 ep a c g v e) e;
  journal_create_2 a c g v x e : stays true (ep_create_2 ep a c g v x e) e
}.
Context (entries : entry_journal).
Lemma stays_on_evm {A} w (m : M V A) : (∀ e, stays w (m e) e) → steps w (on_evm m).
Proof. intros Hm s. unfold on_evm. specialize (Hm (m_evm s)). by destruct (m (m_evm s)) as [[]?]. Qed.
Lemma steps_create_1 a c g v : steps true (on_evm (ep_create_1 ep a c g v)).
Proof. apply stays_on_evm. intros e. by apply journal_create_1. Qed.
Lemma steps_create_2 a c g v x : steps true (on_evm (ep_create_2 ep a c g v x)).
Proof. apply stays_on_evm. intros e. by apply journal_create_2. Qed.
Lemma steps_call typ ref a i g v : typ ≠ CALL → steps false (on_evm (ep_call ep typ ref a i g v)).
Proof. intros Ht. apply stays_on_evm. intros e. apply (journal_call entries). intros Hc; by destruct (Ht Hc). Qed.
Lemma steps_ret_bytes w r a b : steps w (ret_bytes r a b : M W bytes).
Proof. unfold ret_bytes. moves_solve. Qed.
#[local] Hint Resolve steps_ret_bytes steps_create_1 steps_create_2 : moves.
#[local] Hint Extern 1 (moves _ _ (on_evm (ep_call _ _ _ _ _ _ _))) => (by apply steps_call) : moves.
Lemma steps_finish_call w r a b c d : steps w (finish_call r a b c d : M W bytes).
Proof. unfold finish_call. moves_solve. Qed.
Lemma steps_finish_create w r : steps w (finish_create r : M W bytes).
Proof. unfold finish_create. moves_solve. Qed.
Lemma steps_self_ref w : steps w (self_ref : M W ContractRef).
Proof. unfold self_ref. moves_solve. Qed.
Lemma steps_call_gas_tmp w : steps w (call_gas_tmp : M W Z).
Proof. unfold call_gas_tmp. moves_solve. Qed.
Lemma steps_take_create_gas w : steps w (take_create_gas : M W Z).
Proof. unfold take_create_gas. moves_solve. Qed.
#[local] Hint Resolve steps_finish_call steps_finish_create steps_self_ref steps_call_gas_tmp
  steps_take_create_gas : moves.
Lemma steps_calls c :
  calls c = true → c ≠ CALL_ →
  steps (writes (instruction_set env ep c)) (execute (instruction_set env ep c)).
Proof.
  intros Hc Hn. destruct c; try discriminate Hc; try done; simpl;
    unfold opCreate, opCreate2, opCallCode, opDelegateCall, opStaticCall; moves_solve.
Qed.
(** TSTORE asks by itself. *)
Lemma steps_opTstore : steps false (opTstore : M W bytes).
Proof.
  intros s. unfold opTstore, get, mbind at 1, M_bind at 1. unfold mbind at 1, M_bind at 1.
  destruct (evm_read_only (m_evm s)) eqn:Er; simpl; [unfold withinM; reflexivity|].
  lazymatch goal with |- context [?m s] => assert (steps true m) as Hm; [unfold done_; moves_solve|];
    specialize (Hm s); destruct (m s) as [[]?] end; [| |done]; by apply within_reading.
Qed.
Lemma pop_cases (s : W) (Q : word → W → Prop) (E : W → Prop) :
  (∀ x l, m_stack s = x :: l → Q x (m_with_stack l s)) → wpp anything pop Q E s.
Proof. intros HQ. unfold wpp, pop. destruct (m_stack s) as [|x l]; [done|]. by apply HQ. Qed.
(** One more step since [s0]. *)
Abbreviation since s0 m s := (wpp anything m (λ _, withinM false s0) (withinM false s0) s).
Lemma since_bind {A B} (m : M W A) (k : A → M W B) s0 s :
  steps false m → withinM false s0 s → (∀ a s', withinM false s0 s' → since s0 (k a) s') →
  since s0 (m ≫= k) s.
Proof.
  intros Hm Hs Hk. apply wpp_bind. eapply wpp_moves; [done|intros a s' Hs'|intros s' Hs'; by etrans].
  apply Hk. by etrans.
Qed.
Lemma since_bind_eq {A B} (m : M W A) (k : A → M W B) s0 s :
  steps false m → withinM false s0 s →
  (∀ a s', m s = (Ret a, s') → withinM false s0 s' → since s0 (k a) s') → since s0 (m ≫= k) s.
Proof.
  intros Hm Hs Hk. apply wpp_bind. specialize (Hm s). unfold wpp at 1.
  destruct (m s) as [[a|x|x] s1] eqn:E; [|by etrans|done]. apply Hk; [done|by etrans].
Qed.
Lemma since_steps {A} (m : M W A) s0 s : steps false m → withinM false s0 s → since s0 m s.
Proof. intros Hm Hs. eapply wpp_moves; [done|intros; by etrans..]. Qed.
Lemma opCall_journal s :
  (strict = true → evm_read_only (m_evm s) = true → m_stack s !! 2%nat = Some 0) →
  since s (opCall ep) s.
Proof.
  intros Hv. unfold opCall.
  apply wpp_bind, pop_cases. intros x0 l0 E0. apply wpp_bind. unfold call_gas_tmp.
  apply wpp_bind. unfold get, wpp at 1. apply wpp_ret.
  apply wpp_bind, pop_cases. intros x1 l1 E1. simpl in E1. subst l0.
  apply wpp_bind, pop_cases. intros v l2 E2. simpl in E2. subst l1.
  lazymatch goal with |- wpp _ _ _ _ ?s0 =>
    assert (withinM false s s0) as W0 by (by apply aside_within); generalize dependent s0 end.
  intros s0 W0. do 4 (apply since_bind; [eauto with moves|done|clear W0; intros ? ? W0]).
  apply since_bind; [eauto with moves|done|clear W0; intros args s1 W0].
  apply since_bind; [eauto with moves|done|clear W0; intros self s2 W0].
  apply since_bind; [eauto with moves|done|clear W0; intros addr s3 W0].
  apply wpp_bind. unfold on_evm, wpp at 1.
  set (gas := with_stipend _ _).
  assert (may_send CALL v (m_evm s3)) as Hm.
  { intros _ Hs Hr. destruct W0 as (R0 & _). rewrite R0 in Hr. specialize (Hv Hs Hr).
    rewrite E0 in Hv. by injection Hv. }
  pose proof (journal_call entries CALL self addr args gas v (m_evm s3) Hm) as Hj. unfold stays in Hj.
  destruct (ep_call ep CALL self addr args gas v (m_evm s3)) as [[r|x|x] e]; [|by etrans|done].
  apply since_steps; [eauto with moves|by etrans].
Qed.
(** Which steps keep the stack. *)
Lemma memoryCall_stack size s s' :
  memory_needed (instruction_set env ep CALL_) s = (Ret size, s') → m_stack s' = m_stack s.
Proof.
  assert (moves same_stack anything (memory_needed (instruction_set env ep CALL_))) as Hm.
  { assert (∀ n, moves same_stack anything (Back n : M W word)) by apply stack_Back.
    assert (∀ r, moves same_stack anything (checked r : M W Z)) by apply stack_checked.
    unfold memory_needed. simpl. unfold memoryCall, mem_size, Uint64WithOverflow. moves_solve. }
  intros E. specialize (Hm s). by rewrite E in Hm.
Qed.
Lemma charge_call_stack size s s' u :
  charge (instruction_set env ep CALL_) size s = (Ret u, s') → m_stack s' = m_stack s.
Proof.
  unfold charge. pose proof (call_cost env ep CALL_ size s) as Hc.
  destruct (gasCost _ size s) as [[cost|x|x] s1]; [|done..]. intros E.
  destruct (Hc cost s1 eq_refl eq_refl) as (_ & _ & _ & <-).
  unfold UseGas, mbind, M_bind, fail_if in E. destruct (_ <? _) in E; simpl in E; [done|].
  unfold mret, M_ret in E. by simplify_eq.
Qed.
Lemma resize_stack size (s s' : W) u :
  when (0 <? size) (on_mem (λ p m, Ret (Resize size p m))) s = (Ret u, s') →
  m_stack s' = m_stack s.
Proof.
  unfold when, on_mem, mret, M_ret. destruct (0 <? size); [|intros E; by simplify_eq].
  destruct (Resize _ _ _) as [p m]. intros E; by simplify_eq.
Qed.
Lemma steps_charge c size :
  steps (writes (instruction_set env ep c)) (charge (instruction_set env ep c) size).
Proof.
  intros s. unfold charge. pose proof (steps_gasCost c size s) as Hg.
  set (w := writes _) in *. destruct (gasCost _ size s) as [[cost|x|x] s1]; [|done..].
  assert (steps w (ok ← UseGas cost; fail_if (negb ok) ErrOutOfGas : M W unit)) as Hu by moves_solve.
  specialize (Hu s1). lazymatch type of Hu with let '_ := ?r in _ => destruct r as [[]s2] end;
    [by etrans..|done].
Qed.
(** A round changes nothing in a static call. *)
Lemma calls_dec c : calls c = false ∨ calls c = true ∧ c ≠ CALL_ ∨ c = CALL_.
Proof. destruct c; auto; by right; left. Qed.
Lemma steps_any_execute c :
  c ≠ CALL_ → steps (writes (instruction_set env ep c)) (execute (instruction_set env ep c)).
Proof.
  intros Hn. destruct (decide (c = TSTORE)) as [->|Ht]; [apply steps_opTstore|].
  destruct (calls_dec c) as [Hc|[[Hc _]|?]]; [by apply steps_execute|by apply steps_calls|done].
Qed.
(** What follows the execution of an instruction. *)
Lemma steps_after w (o : @operation St) res :
  steps w (when (returns o) (modify (λ s, m_with_evm (evm_with_retval res (m_evm s)) s)) ;;
    if reverts o then mret (Some (res, Some ErrExecutionReverted))
    else if halts o then mret (Some (res, None))
    else when (negb (jumps o)) (modify (λ s, m_with_pc (u64 (m_pc s + 1)) s)) ;; mret None
    : M W (option (bytes * option string))).
Proof. moves_solve. Qed.
#[local] Hint Resolve steps_after steps_charge steps_any_execute steps_memory_needed : moves.
Lemma steps_resize w size : steps w (when (0 <? size) (on_mem (λ p m, Ret (Resize size p m)))).
Proof. moves_solve. Qed.
#[local] Hint Resolve steps_resize : moves.
(** The rest of a round, after the guard of static calls. *)
Definition round (c : OpCode) : M W (option (bytes * option string)) :=
  let o := instruction_set env ep c in
  size ← memory_needed o;
  charge o size ;;
  when (0 <? size) (on_mem (λ p m, Ret (Resize size p m))) ;;
  res ← execute o;
  when (returns o) (modify (λ s, m_with_evm (evm_with_retval res (m_evm s)) s)) ;;
  if reverts o then mret (Some (res, Some ErrExecutionReverted))
  else if halts o then mret (Some (res, None))
  else when (negb (jumps o)) (modify (λ s, m_with_pc (u64 (m_pc s + 1)) s)) ;; mret None.
Lemma steps_round c : c ≠ CALL_ → steps (writes (instruction_set env ep c)) (round c).
Proof. intros Hn. unfold round. moves_solve. Qed.
Lemma call_round_journal s :
  (evm_read_only (m_evm s) = true → m_stack s !! 2%nat = Some 0) → since s (round CALL_) s.
Proof.
  intros Hv. apply since_bind_eq; [eauto with moves|done|]. intros size s1 M1 W1. apply memoryCall_stack in M1.
  apply since_bind_eq; [apply (steps_charge CALL_)|done|]. intros u s2 M2 W2.
  apply charge_call_stack in M2.
  apply since_bind_eq; [eauto with moves|done|]. intros u' s3 M3 W3. apply resize_stack in M3.
  apply wpp_bind. eapply wpp_mono; [apply (opCall_journal s3)| |].
  - intros _ Hr. rewrite M3, M2, M1. apply Hv. by rewrite <- Hr; symmetry; apply W3.
  - intros res s4 W4. apply since_steps; [apply steps_after|by etrans].
  - intros s4 W4. by etrans.
Qed.
Lemma step_journal s : since s (step env ep) s.
Proof.
  unfold step. apply wpp_bind. unfold get, wpp at 1.
  destruct (decode _) as [c|]; [|apply wpp_throw; reflexivity].
  destruct (makeStackFunc _ _ s); [apply wpp_throw; reflexivity|].
  change (since s (when (evm_read_only (m_evm s))
    (if writes (instruction_set env ep c) then throw ErrWriteProtection
     else when (is_call c) (v ← Back 2; fail_if (0 <? BitLen v) ErrWriteProtection)) ;; round c) s).
  destruct (decide (c = CALL_)) as [->|Hn].
  - destruct (evm_read_only (m_evm s)) eqn:Er; apply wpp_bind; simpl when.
    2: { apply wpp_ret, call_round_journal. congruence. }
    apply wpp_bind. unfold Back, wpp at 1. destruct (m_stack s !! 2%nat) as [v|] eqn:Ev; [|done].
    unfold fail_if. destruct (Z.ltb_spec 0 (BitLen v)) as [|Hv]; [apply wpp_throw; reflexivity|].
    apply wpp_ret, call_round_journal. intros _. rewrite Ev. f_equal.
    unfold BitLen in Hv. destruct (Z.eqb_spec v 0); [done|]. pose proof (Z.log2_nonneg v). lia.
  - pose proof (steps_round c Hn) as Hr. replace (is_call c) with false by (by destruct c).
    destruct (evm_read_only (m_evm s)) eqn:Er; simpl when; apply wpp_bind.
    + destruct (writes _); [apply wpp_throw; reflexivity|]. apply wpp_ret. by eapply wpp_moves.
    + apply wpp_ret. eapply wpp_moves; [done| |]; intros; by eapply within_reading, within_writes.
Qed.
End journal.

(** ** Calls, creations and the loop *)
Section runs.
Context {St : Type} `{!EvmState St} `{!EvmStateEnds St} `{!EvmJournal St} `{Uint256} `{Keccak}.
Context (env : environment) (precompiles : address → option (Precompiled St)) (strict : bool).
Abbreviation W := (Machine St).
Abbreviation V := (EVM St).
(** What the precompiled contracts change is in the journal too and, when [strict] is asked, they
    change nothing in a static call. *)
Context (precompiles_journal : ∀ a p f, precompiles a = Some p →
  (∀ e, stays strict false (RequiredGas p f e) e) ∧ (∀ e, stays strict false (Run p f e) e)).

(** Steps of the virtual machine: static as the mode says, static ones, and steps that write. *)
Inductive mode : Type := Follows | Static | Writes.
Definition quietly (b : mode) (readOnly : bool) : bool :=
  match b with Follows => readOnly | Static => true | Writes => false end.
Definition inside (b : mode) (e e' : V) : Prop :=
  evm_read_only e' = evm_read_only e ∧ changed (evm_state e) (evm_state e') ∧
  (strict = true → quietly b (evm_read_only e) = true → alike (evm_state e) (evm_state e')).
#[export] Instance inside_preorder b : PreOrder (inside b).
Proof.
  split; [by split|]. intros e1 e2 e3 (R1 & C1 & A1) (R2 & C2 & A2).
  split_and!; [congruence|by etrans|]. intros Hs Hr. etrans; [by apply A1|].
  apply A2; congruence.
Qed.
Lemma inside_within e e' : inside Follows e e' ↔ within strict false e e'.
Proof.
  unfold inside, within. split; intros (?&?&?); split_and!; auto.
Qed.
(** Two copies differing in nothing of the accounts. *)
Lemma inside_state b e e' :
  evm_read_only e' = evm_read_only e → unseen (evm_state e) (evm_state e') → inside b e e'.
Proof.
  intros Hr Hu. split_and!; [done|by apply unseen_changed|]. intros _ _. by apply unseen_alike.
Qed.

(** A step since [e0], in [Q]. *)
Abbreviation during b e0 m Q e := (wpp anything m Q (inside b e0) e).
Lemma during_read {A B} b (m : M St A) (k : A → M V B) e0 e Q :
  moves unseen anything m → inside b e0 e →
  (∀ a e', on_state m e = (Ret a, e') → unseen (evm_state e) (evm_state e') →
     evm_read_only e' = evm_read_only e → inside b e0 e' → during b e0 (k a) Q e') →
  during b e0 (on_state m ≫= k) Q e.
Proof.
  intros Hm He Hk. apply wpp_bind. unfold wpp at 1. unfold on_state in *.
  specialize (Hm (evm_state e)). destruct (m (evm_state e)) as [[a|x|x] s1]; [| |done].
  - apply Hk; [done..|]. etrans; [done|]. by apply inside_state.
  - etrans; [done|]. by apply inside_state.
Qed.
Lemma during_state {A B} b (m : M St A) (k : A → M V B) e0 e Q :
  moves changed anything m →
  (strict = true → quietly b (evm_read_only e) = true →
     match m (evm_state e) with (Panic _, _) => True | (_, s) => alike (evm_state e) s end) →
  inside b e0 e →
  (∀ a e', on_state m e = (Ret a, e') → inside b e0 e' → during b e0 (k a) Q e') →
  during b e0 (on_state m ≫= k) Q e.
Proof.
  intros Hm Ha He Hk. apply wpp_bind. unfold wpp at 1. unfold on_state in *.
  specialize (Hm (evm_state e)).
  destruct (m (evm_state e)) as [[a|x|x] s1]; [| |done].
  - apply Hk; [done|]. etrans; [done|]. by split_and!.
  - etrans; [done|]. by split_and!.
Qed.
Lemma changed_transfer a b v : moves changed anything (transfer a b v : M St unit).
Proof. unfold transfer. moves_solve. Qed.
Lemma alike_transfer a b : moves alike anything (transfer a b 0 : M St unit).
Proof. unfold transfer. moves_solve. Qed.
Lemma unseen_has_funds a v : moves unseen anything (has_funds a v : M St bool).
Proof. unfold has_funds, BalanceGTE. moves_solve. Qed.
Definition static (typ : call_type) : bool := match typ with STATICCALL => true | _ => false end.
Lemma changed_begin typ a b v : moves changed anything (begin_call precompiles typ a b v : M St bool).
Proof.
  pose proof changed_transfer. assert (∀ a, moves changed anything (IsNIL a : M St bool)) as Hn.
  { intros ?. eapply unseen_moves; [apply j_IsNIL|apply unseen_changed]. }
  unfold begin_call. destruct typ; moves_solve.
Qed.
Lemma alike_begin typ a b v :
  (typ = CALL → v = 0) → moves alike anything (begin_call precompiles typ a b v : M St bool).
Proof.
  pose proof alike_transfer. assert (∀ a, moves alike anything (IsNIL a : M St bool)) as Hn.
  { intros ?. eapply unseen_moves; [apply j_IsNIL|apply unseen_alike]. }
  unfold begin_call. destruct typ; intros Hv; [rewrite (Hv eq_refl)|..]; moves_solve.
Qed.
(** Back to the snapshot taken on the way from [e1] to [e2]. *)
Lemma revert_spec {B} b n e1 e2 e (k : unit → M V B) (Q : B → V → Prop) E :
  on_state Snapshot e1 = (Ret n, e2) → inside b e2 e →
  (∀ e', inside b e2 e' → restored (evm_state e2) (evm_state e') → wpp anything (k tt) Q E e') →
  wpp anything (on_state (RevertToSnapshot n) ≫= k) Q E e.
Proof.
  intros Hs (Hr & Hc & Ha) Hk. apply wpp_bind. unfold wpp at 1. unfold on_state in *.
  destruct (Snapshot (evm_state e1)) as [o s1] eqn:Es. injection Hs as -> <-. simpl in *.
  destruct (revert_restores n (evm_state e1) s1 (evm_state e) Es Hc) as (t & -> & Ht & Hct & Hat).
  apply Hk; [|done]. split_and!; [done|done|]. intros. by apply Hat, Ha.
Qed.
Lemma settle_spec b n e1 e2 e pre r :
  on_state Snapshot e1 = (Ret n, e2) → inside b e2 e →
  wpp anything (settle n pre r : M V call_result)
    (λ r' e', inside b e2 e' ∧ (r'.2 ≠ None → restored (evm_state e2) (evm_state e')))
    (inside b e2) e.
Proof.
  intros Hs He. destruct r as [[ret g] err]. unfold settle. destruct err as [x|].
  - eapply revert_spec; [done..|]. intros e' H1 H2. by apply wpp_ret.
  - by apply wpp_ret.
Qed.
Lemma inside_weaken b b' e e' :
  (quietly b (evm_read_only e) = true → quietly b' (evm_read_only e) = true) →
  inside b' e e' → inside b e e'.
Proof. intros Hb (R & C & A). split_and!; [done..|]. intros Hs Hr. apply A; [done|]. by apply Hb. Qed.
Lemma stays_inside b e0 e e' :
  b ≠ Static → inside b e0 e → within strict false e e' → inside b e0 e'.
Proof.
  intros Hb He Hw. etrans; [done|]. apply inside_weaken with Follows; [by destruct b|].
  by apply inside_within.
Qed.
Lemma wpp_stays {R} b e0 e (m : M V R) (Q : R → V → Prop) :
  b ≠ Static → stays strict false (m e) e → inside b e0 e → (∀ r e', inside b e0 e' → Q r e') →
  wpp anything m Q (inside b e0) e.
Proof.
  intros Hb Hm He HQ. unfold wpp, stays in *.
  destruct (m e) as [[a|x|x] e']; [by eapply HQ, stays_inside|by eapply stays_inside|done].
Qed.
Lemma run_precompiled_spec b p f g e0 e (Q : call_result → V → Prop) :
  b ≠ Static →
  (∀ e, stays strict false (RequiredGas p f e) e) → (∀ e, stays strict false (Run p f e) e) →
  inside b e0 e → (∀ r e', inside b e0 e' → Q r e') →
  wpp anything (run_precompiled p f g) Q (inside b e0) e.
Proof.
  intros Hb H1 H2 He HQ. unfold run_precompiled. apply wpp_bind.
  apply (wpp_stays b e0); [done..|]. intros need e1 He1.
  destruct (_ <=? _); [|by apply wpp_ret, HQ]. unfold precompiled_result, wpp.
  pose proof (H2 e1) as Hr. unfold stays in Hr.
  destruct (Run p f e1) as [[r|x|x] e2]; [by eapply HQ, stays_inside..|done].
Qed.
(** Runs: what they change is in the journal, and nothing in a static one. *)
Definition run_journal (run : Contract → bool → M V run_result) : Prop :=
  ∀ c b e, match run c b e with (Panic _, _) => True | (_, e') => inside (if b : bool then Static else Follows) e e' end.
Lemma run_code_spec run typ a code f g b e0 e (Q : call_result → V → Prop) :
  run_journal run → (b = Static → typ = STATICCALL) → inside b e0 e →
  (∀ r e', inside b e0 e' → Q r e') → wpp anything (run_code run typ a code f g) Q (inside b e0) e.
Proof.
  intros Hrun Hb He HQ. unfold run_code. destruct code as [|x code]; [by apply wpp_ret, HQ|].
  apply during_read; [eauto with moves|done|]. intros h e1 _ _ _ I1. apply wpp_bind. unfold wpp at 1.
  set (ro := match typ with STATICCALL => true | _ => false end).
  pose proof (Hrun (NewContract f {| Code := x :: code; CodeHash := h |}) ro e1) as Hr.
  assert (∀ e', inside (if ro then Static else Follows) e1 e' → inside b e0 e') as Hi.
  { intros e' I. etrans; [done|]. eapply inside_weaken; [|done]. subst ro. destruct b; [by destruct typ|by rewrite Hb|done]. }
  destruct (run _ ro e1) as [[[[ret err] left]|y|y] e2]; [by apply wpp_ret, HQ, Hi|by apply Hi|done].
Qed.
Lemma call_journal run typ ref a i g v b e :
  run_journal run → may_send strict typ v e → (b = Static → typ = STATICCALL ∧ precompiles a = None) →
  wpp anything (call_with precompiles run typ ref a i g v)
    (λ r e', inside b e e' ∧ (r.2 ≠ None → restored (evm_state e) (evm_state e'))) (inside b e) e.
Proof.
  intros Hrun Hsend Hb. unfold call_with. unfold wpp at 1.
  destruct (_ <? _); [split; reflexivity|].
  lazymatch goal with |- match ?m e with _ => _ end =>
    change (wpp anything m (λ r e', inside b e e' ∧ (r.2 ≠ None → restored (evm_state e) (evm_state e'))) (inside b e) e) end.
  apply wpp_bind. apply wpp_mono with
    (λ _ e', inside b e e' ∧ evm_read_only e' = evm_read_only e ∧ unseen (evm_state e) (evm_state e')) (inside b e);
    [| |done].
  { destruct (sends_value typ); [|by split_and!].
    pose proof (unseen_has_funds (ref_account ref) v (evm_state e)) as Hf. unfold wpp, on_state.
    destruct (has_funds _ _ _) as [[]s1]; simpl; [|by apply inside_state|done].
    split_and!; [by apply inside_state|done..]. }
  intros funds e1 (I1 & R1 & U1).
  destruct funds; simpl negb; cbv iota; [|apply wpp_ret; split; [done|intros _; by apply unseen_restored]].
  apply during_read; [eauto with moves|done|]. intros n e2 Hsnap U2 R2 I2.
  assert (restored (evm_state e) (evm_state e2)) as Hres.
  { etrans; [by apply unseen_restored|]. by apply unseen_restored. }
  apply wpp_mono with (λ r e', inside b e2 e' ∧ (r.2 ≠ None → restored (evm_state e2) (evm_state e')))
    (inside b e2).
  2: { intros r e' [H1 H2]. split; [by etrans|]. intros Hr. etrans; [done|by apply H2]. }
  2: { intros e' H1. by etrans. }
  apply during_state; [apply changed_begin| |reflexivity|].
  { intros Hs Hr. apply alike_begin. intros ->. destruct b; [|by destruct (Hb eq_refl)|done].
    apply Hsend; [done..|]. simpl in Hr. congruence. }
  intros go e3 _ I3. destruct go; simpl negb; cbv iota; [|by apply wpp_ret].
  apply during_read; [eauto with moves|done|]. intros code e4 _ _ _ I4.
  apply wpp_bind. unfold wpp at 1, of_outcome. destruct (call_frame _ _ _ _ _ _) as [fr|x|x]; [|done..].
  destruct (precompiles a) as [p|] eqn:Ep.
  - destruct (precompiles_journal a p fr Ep) as [H1 H2].
    apply wpp_bind, run_precompiled_spec; [by intros ->; destruct (Hb eq_refl)|done..|].
    intros r e5 I5. by eapply settle_spec.
  - apply wpp_bind, run_code_spec; [done|intros ->; by apply Hb|done|].
    intros r e5 I5. by eapply settle_spec.
Qed.
(** ** Creations *)
Lemma writes_state {A B} (m : M St A) (k : A → M V B) e0 e Q :
  moves changed anything m → inside Writes e0 e →
  (∀ a e', on_state m e = (Ret a, e') → changed (evm_state e) (evm_state e') →
     inside Writes e0 e' → wpp anything (k a) Q (inside Writes e0) e') →
  wpp anything (on_state m ≫= k) Q (inside Writes e0) e.
Proof.
  intros Hm He Hk. apply wpp_bind. unfold wpp at 1. unfold on_state in *.
  specialize (Hm (evm_state e)).
  destruct (m (evm_state e)) as [[a|x|x] s1]; [| |done].
  - apply Hk; [done..|]. etrans; [done|]. by split_and!.
  - etrans; [done|]. by split_and!.
Qed.
Lemma on_state_inv {A} (m : M St A) e a e' :
  on_state m e = (Ret a, e') → m (evm_state e) = (Ret a, evm_state e').
Proof. unfold on_state. destruct (m (evm_state e)) as [o s]. by intros [= -> <-]. Qed.
Lemma deploy_journal na r e0 e :
  inside Writes e0 e → nonce_of (evm_state e0) na <= 0 → code_size_of (evm_state e) na = 0 →
  wpp anything (deploy na r : M V run_result) (λ _ e', inside Writes e0 e') (inside Writes e0) e.
Proof.
  intros He Hn Hc. destruct r as [[ret err] g]. unfold deploy.
  destruct (match err with None => _ | _ => _ end); [by apply wpp_ret|].
  destruct (_ <? _); [by apply wpp_ret|]. apply wpp_bind. unfold wpp at 1, on_state.
  pose proof (SetCode_changed na ret (evm_state e0) (evm_state e)) as Hs.
  destruct He as (R & C & A). specialize (Hs C Hn Hc).
  destruct (SetCode na ret (evm_state e)) as [[u|x|x] s1]; [apply wpp_ret|..|done]; by split_and!.
Qed.
(** What a failed creation leaves: everything but the nonce of its caller. *)
Definition create_restored (c : address) (s s' : St) : Prop :=
  restored s s' ∨
  ∃ s0 s1 u, unseen s s0 ∧ IncrementNonce c s0 = (Ret u, s1) ∧ restored s1 s'.
Lemma create_journal run c code g v na e :
  run_journal run →
  wpp anything (create_with run c code g v na)
    (λ r e', inside Writes e e' ∧ (r.1.2 ≠ None → create_restored c (evm_state e) (evm_state e')))
    (inside Writes e) e.
Proof.
  intros Hrun. unfold create_with. unfold wpp at 1.
  destruct (_ <? _); [split; [reflexivity|intros _; left; reflexivity]|].
  lazymatch goal with |- match ?m e with _ => _ end =>
    change (wpp anything m (λ r e', inside Writes e e' ∧
      (r.1.2 ≠ None → create_restored c (evm_state e) (evm_state e'))) (inside Writes e) e) end.
  apply during_read; [apply unseen_has_funds|reflexivity|]. intros funds e1 _ U1 R1 I1.
  destruct funds; simpl negb; cbv iota.
  2: { apply wpp_ret. split; [done|]. intros _. left. by apply unseen_restored. }
  apply writes_state; [eauto with moves|done|]. intros u e2 H2 _ I2. apply on_state_inv in H2.
  assert (∀ s', restored (evm_state e2) s' → create_restored c (evm_state e) s') as Hout.
  { intros s' Hs'. right. by exists (evm_state e1), (evm_state e2), u. }
  apply during_read; [eauto with moves|done|]. intros [] e3 _ U3 R3 I3.
  apply during_read; [eauto with moves|done|]. intros nonce e4 H4 U4 R4 I4.
  apply during_read; [eauto with moves|done|]. intros size e5 H5 U5 R5 I5.
  apply on_state_inv, GetNonce_value in H4. apply on_state_inv, GetCodeSize_value in H5.
  assert (restored (evm_state e2) (evm_state e5)) as Hr5.
  { do 2 (etrans; [by apply unseen_restored|]). by apply unseen_restored. }
  destruct (Z.eqb_spec nonce 0) as [->|]; [|apply wpp_ret; simpl; auto].
  destruct (Z.eqb_spec size 0) as [->|]; [|apply wpp_ret; simpl; auto]. simpl orb. cbv iota.
  apply during_read; [eauto with moves|done|]. intros n e6 Hsnap U6 R6 I6.
  destruct (unseen_nonce _ _ na U5) as [N5 _]. destruct (unseen_nonce _ _ na U6) as [N6 C6].
  rewrite N5, H4 in N6. rewrite H5 in C6.
  assert (restored (evm_state e2) (evm_state e6)) as Hr6 by (etrans; [done|]; by apply unseen_restored).
  apply wpp_mono with (λ r e', inside Writes e6 e' ∧ (r.1.2 ≠ None → restored (evm_state e6) (evm_state e')))
    (inside Writes e6).
  2: { intros r e' [H1 H2']. split; [by etrans|]. intros Hr. apply Hout. etrans; [done|by apply H2']. }
  2: { intros e' H1. by etrans. }
  apply writes_state; [eauto with moves|reflexivity|]. intros u7 e7 H7 _ I7.
  apply on_state_inv, IncrementNonce_value in H7 as [N7 C7].
  apply writes_state; [apply changed_transfer|done|]. intros u8 e8 _ C8 I8.
  destruct (changed_code _ _ na C8) as [N8 S8]; [lia|].
  apply wpp_bind. unfold wpp at 1.
  lazymatch goal with |- context [run ?ct false e8] => pose proof (Hrun ct false e8) as Hr; destruct (run ct false e8) as [[r|x|x] e9] end; [| |done].
  2: { etrans; [done|]. by apply inside_weaken with Follows. }
  assert (inside Writes e6 e9) as I9 by (etrans; [done|]; by apply inside_weaken with Follows).
  destruct Hr as (_ & C9 & _). destruct (changed_code _ _ na C9 N8) as [N9 S9].
  apply wpp_bind. eapply wpp_mono; [apply (deploy_journal na r e6); [done|lia|congruence]| |done].
  intros [[ret err] left] e10 I10. simpl in I10. destruct err as [x|]; [|by apply wpp_ret].
  eapply revert_spec; [done..|]. intros e' H1 H2'. by apply wpp_ret.
Qed.
(** ** The loop *)
Lemma inside_writes e e' : inside Writes e e' → within strict true e e'.
Proof. intros (?&?&?). by split_and!. Qed.
Lemma entries_journal run :
  run_journal run → entry_journal strict (entry_with precompiles run).
Proof.
  intros Hrun. split; simpl.
  - intros typ ref a i g v e Hs.
    assert (wpp anything (call_with precompiles run typ ref a i g v)
      (λ r e', inside Follows e e' ∧ (r.2 ≠ None → restored (evm_state e) (evm_state e'))) (inside Follows e) e) as Hc.
    { by apply call_journal. }
    unfold wpp in Hc. unfold stays. destruct (call_with _ _ _ _ _ _ _ _ e) as [[r|x|x] e'];
      [apply inside_within, Hc|by apply inside_within|done].
  - intros a c g v e. unfold create_1_with, stays.
    assert (wpp anything (nonce ← on_state (GetNonce a); na ← of_outcome (CreateAddress a nonce);
      r ← create_with run a {| Code := c; CodeHash := None |} g v na;
      let '(ret, err, gas) := r in mret (ret, na, gas, err) : M V _)
      (λ _ e', inside Writes e e') (inside Writes e) e) as Hc.
    { apply during_read; [eauto with moves|reflexivity|]. intros nonce e1 _ _ _ I1.
      apply wpp_bind. unfold wpp at 1, of_outcome. destruct (CreateAddress a nonce) as [na|x|x]; [|done..].
      apply wpp_bind. eapply wpp_mono; [by apply create_journal| |intros; by etrans].
      intros [[ret err] left] e2 [H1 _]. apply wpp_ret. by etrans. }
    unfold wpp in Hc. lazymatch type of Hc with let '_ := ?out in _ => destruct out as [[r|x|x] e'] end; [by apply inside_writes..|done].
  - intros a c g v x e. unfold create_2_with, stays.
    lazymatch goal with |- let '_ := ?m e in _ => assert (wpp anything m (λ _ e', inside Writes e e') (inside Writes e) e) as Hc end.
    { apply wpp_bind. eapply wpp_mono; [by apply create_journal| |done].
      intros [[ret err] left] e2 [H1 _]. by apply wpp_ret. }
    unfold wpp in Hc. lazymatch type of Hc with let '_ := ?out in _ => destruct out as [[r|y|y] e'] end; [by apply inside_writes..|done].
Qed.
Lemma run_with_journal (loop : M W (bytes * option string)) :
  (∀ s, wpp anything loop (λ _, withinM strict false s) (withinM strict false s) s) →
  run_journal (run_with loop).
Proof.
  intros Hl c b e. unfold run_with. specialize (Hl (start_run c b e)). unfold wpp in Hl.
  assert (∀ s, withinM strict false (start_run c b e) s →
    inside (if b : bool then Static else Follows) e (finish_run (evm_read_only e) s)) as Hf.
  { intros s (R & C & A). split_and!; [done|done|]. intros Hs Hr. apply A; [done..|]. simpl.
    destruct b; [apply orb_true_r|]. simpl in Hr. by rewrite Hr. }
  destruct (loop (start_run c b e)) as [[[ret err]|x|x] s]; [by apply Hf..|done].
Qed.
Lemma loop_journal fuel s :
  wpp anything (loop env precompiles fuel) (λ _, withinM strict false s) (withinM strict false s) s.
Proof.
  revert s. induction fuel as [|fuel IH]; intros s; [done|]. simpl.
  apply wpp_bind. eapply wpp_mono; [apply step_journal, entries_journal, run_with_journal, IH| |done].
  intros [r|] s1 H1; [by apply wpp_ret|]. eapply wpp_mono; [apply IH|intros; by etrans..].
Qed.
Lemma runs_journal fuel : run_journal (run env precompiles fuel).
Proof. apply run_with_journal. intros s. apply loop_journal. Qed.
End runs.

(** ** What failed and static calls leave *)
Section results.
Context {St : Type} `{!EvmState St} `{!EvmStateEnds St} `{!EvmJournal St} `{Uint256} `{Keccak}.
Context (env : environment) (precompiles : address → option (Precompiled St)).
(** C6: a failed call leaves the accounts as they were: when a call returns an error, whatever
    the called code did before, calls and creations of its own included, the accounts are those
    of the state the call was made in.  Every precompiled contract is asked to journal what it
    changes.  The accounts of [StateEvm] keep the interface in two ways
    ([transition_state_journal]): with the slots that [SetStateRawIrreversibly] writes as a part of
    the accounts, and then no precompiled contract may write one; or without them, and then the
    contracts may, but what they write so is not restored.  The DPoS and the slashing contract
    write all their storage so. *)
Theorem failed_call_restores fuel typ ref a input g v (e : EVM St) ret left err e' :
  (∀ a p f, precompiles a = Some p →
     (∀ e, stays false false (RequiredGas p f e) e) ∧ (∀ e, stays false false (Run p f e) e)) →
  call env precompiles fuel typ ref a input g v e = (Ret (ret, left, Some err), e') →
  restored (evm_state e) (evm_state e').
Proof.
  intros Hp E.
  pose proof (call_journal precompiles false Hp (run env precompiles fuel) typ ref a input g v Follows e
    (runs_journal env precompiles false Hp fuel)) as Hc.
  unfold wpp in Hc. unfold call in E. rewrite E in Hc. apply Hc; [by intros _|done|done].
Qed.
(** C7: a static call changes nothing: whether it succeeds or fails, whatever code it runs, no
    balance, nonce, code, storage slot, log, refund or transient slot of any account is changed
    by a static call to a contract with code.  Every precompiled contract is asked to change
    nothing while a static call runs.  The standard ones do not; the DPoS and the slashing
    contract do not keep to it, since [EVM.call] runs them whatever [read_only] is, and a static
    call that reaches one of their methods is outside the theorem. *)
Theorem static_call_changes_nothing fuel ref a input g v (e : EVM St) r e' :
  (∀ a p f, precompiles a = Some p →
     (∀ e, stays true false (RequiredGas p f e) e) ∧ (∀ e, stays true false (Run p f e) e)) →
  precompiles a = None →
  call env precompiles fuel STATICCALL ref a input g v e = (Ret r, e') →
  alike (evm_state e) (evm_state e').
Proof.
  intros Hp Ha E.
  pose proof (call_journal precompiles true Hp (run env precompiles fuel) STATICCALL ref a input g v Static e
    (runs_journal env precompiles true Hp fuel)) as Hc.
  unfold wpp in Hc. unfold call in E. rewrite E in Hc. destruct Hc as [(_ & _ & Hq) _]; [done|done|].
  by apply Hq.
Qed.
(** C10: a failed creation leaves the accounts as they were but for the nonce of its caller, which
    is the next one unless the creation was refused before it began.  Every precompiled contract is
    asked to journal what it changes, and the slots written past the journal are part of the
    accounts or not as in [failed_call_restores]: what init code writes through the DPoS contract
    stays. *)
Theorem failed_creation_restores fuel caller code g v na (e : EVM St) ret left err e' :
  (∀ a p f, precompiles a = Some p →
     (∀ e, stays false false (RequiredGas p f e) e) ∧ (∀ e, stays false false (Run p f e) e)) →
  create_with (run env precompiles fuel) caller code g v na e = (Ret (ret, Some err, left), e') →
  create_restored caller (evm_state e) (evm_state e').
Proof.
  intros Hp E.
  pose proof (create_journal precompiles false Hp (run env precompiles fuel) caller code g v na e
    (runs_journal env precompiles false Hp fuel)) as Hc.
  unfold wpp in Hc. rewrite E in Hc. by apply Hc.
Qed.
End results.
