(* ===== verification/StateEvm.v ===== *)
(** The accounts of a block under execution (ebla/state/state_evm: account.go,
    transition_state.go, interface.go; state_db/transient_storage.go): loaded from the database
    on demand, changed in memory with a journal of what undoes each change, flushed to an output
    at the end of every transaction.  [TransitionState] implements the virtual machine's interface
    to the accounts.  Pointers to accounts are their addresses: a map entry is never replaced
    while a transaction runs. *)
From S2P Require Import Prelude Codec Storage EvmInterface.

(** ** Data *)
(** [state_db.Account] *)
Record DbAccount : Type := {
  db_Nonce : Z; db_Balance : Z; db_StorageRootHash : option hash; db_CodeHash : option hash;
  db_CodeSize : Z }.
(** [AccountBody], with the [AccountChange] in it.  The keys and values of the contract storage
    are unsigned integers; a nil map has no entry. *)
Record AccountBody : Type := {
  b_account : DbAccount;
  StorageDirty : gmap Z Z;
  RawStorageDirty : gmap hash bytes;
  b_Code : option bytes;
  CodeDirty : bool;
  suicided : bool;
  sink : bool;  (** whether the mutation of the trie has been started *)
  storage_origin : option (gmap Z Z);
  times_touched : Z;  (** uint32 *)
  mod_count : Z  (** uint32 *)
}.
Record Account : Type := {
  body : option AccountBody;
  in_dirties : bool;
  in_curr_version : bool;
  loaded_from_db : bool;
  deleted : bool
}.
(** [Input]: the committed state, as the block sees it. *)
Record Input : Type := {
  in_GetCode : hash → bytes;
  in_GetAccount : address → option DbAccount;
  in_GetAccountStorage : address → hash → option bytes
}.
(** The closures of the journal. *)
Inductive change : Type :=
| UndoStorage (a : address) (key prev : Z)
| UndoTouch (a : address)
| UndoBalance (a : address) (prev : Z)
| UndoNonce (a : address) (prev : Z)
| UndoCode (a : address)
| UndoSuicide (a : address) (suicided_prev : bool) (balance_prev : Z)
| UndoCreate (a : address) (was_deleted : bool)
| UndoLog (pos : nat)
| UndoRefund (prev : Z).
(** What goes to the output: the account as it is at the update, or its deletion. *)
Inductive output : Type :=
| OutUpdate (a : address) (b : AccountBody)
| OutDelete (a : address).
Record TransitionState : Type := {
  accounts : gmap address Account;
  accounts_in_curr_ver : list address;
  journal : list change;  (** [reverts], the newest first *)
  dirties : list address;
  ts_logs : list LogRecord;
  refund : Z;
  transientStorage : gmap address (gmap hash hash);
  outputs : list output
}.
Definition new_state : TransitionState := {|
  accounts := ∅; accounts_in_curr_ver := []; journal := []; dirties := []; ts_logs := [];
  refund := 0; transientStorage := ∅; outputs := [] |}.
Definition ZeroHash : hash := replicate 32 0.
Definition nil_panic : string := "invalid memory address or nil pointer dereference".

(** ** Updates *)
Definition with_account (x : DbAccount) (b : AccountBody) : AccountBody := {|
  b_account := x; StorageDirty := StorageDirty b; RawStorageDirty := RawStorageDirty b;
  b_Code := b_Code b; CodeDirty := CodeDirty b; suicided := suicided b; sink := sink b;
  storage_origin := storage_origin b; times_touched := times_touched b; mod_count := mod_count b |}.
Definition with_balance (n : Z) (b : AccountBody) : AccountBody :=
  with_account {| db_Nonce := db_Nonce (b_account b); db_Balance := n;
                  db_StorageRootHash := db_StorageRootHash (b_account b);
                  db_CodeHash := db_CodeHash (b_account b);
                  db_CodeSize := db_CodeSize (b_account b) |} b.
Definition with_nonce (n : Z) (b : AccountBody) : AccountBody :=
  with_account {| db_Nonce := n; db_Balance := db_Balance (b_account b);
                  db_StorageRootHash := db_StorageRootHash (b_account b);
                  db_CodeHash := db_CodeHash (b_account b);
                  db_CodeSize := db_CodeSize (b_account b) |} b.
Definition with_code (dirty : bool) (h : option hash) (size : Z) (c : option bytes) (b : AccountBody)
  : AccountBody := {|
  b_account := {| db_Nonce := db_Nonce (b_account b); db_Balance := db_Balance (b_account b);
                  db_StorageRootHash := db_StorageRootHash (b_account b);
                  db_CodeHash := h; db_CodeSize := size |};
  StorageDirty := StorageDirty b; RawStorageDirty := RawStorageDirty b; b_Code := c;
  CodeDirty := dirty; suicided := suicided b; sink := sink b; storage_origin := storage_origin b;
  times_touched := times_touched b; mod_count := mod_count b |}.
Definition with_suicided (s : bool) (b : AccountBody) : AccountBody := {|
  b_account := b_account b; StorageDirty := StorageDirty b; RawStorageDirty := RawStorageDirty b;
  b_Code := b_Code b; CodeDirty := CodeDirty b; suicided := s; sink := sink b;
  storage_origin := storage_origin b; times_touched := times_touched b; mod_count := mod_count b |}.
Definition with_storage (d : gmap Z Z) (o : option (gmap Z Z)) (b : AccountBody) : AccountBody := {|
  b_account := b_account b; StorageDirty := d; RawStorageDirty := RawStorageDirty b;
  b_Code := b_Code b; CodeDirty := CodeDirty b; suicided := suicided b; sink := sink b;
  storage_origin := o; times_touched := times_touched b; mod_count := mod_count b |}.
Definition with_raw (r : gmap hash bytes) (b : AccountBody) : AccountBody := {|
  b_account := b_account b; StorageDirty := StorageDirty b; RawStorageDirty := r;
  b_Code := b_Code b; CodeDirty := CodeDirty b; suicided := suicided b; sink := sink b;
  storage_origin := storage_origin b; times_touched := times_touched b; mod_count := mod_count b |}.
Definition with_counts (touched mods : Z) (b : AccountBody) : AccountBody := {|
  b_account := b_account b; StorageDirty := StorageDirty b; RawStorageDirty := RawStorageDirty b;
  b_Code := b_Code b; CodeDirty := CodeDirty b; suicided := suicided b; sink := sink b;
  storage_origin := storage_origin b; times_touched := touched; mod_count := mods |}.
Definition add_mods (n : Z) (b : AccountBody) : AccountBody :=
  with_counts (times_touched b) (u32 (mod_count b + n)) b.
Definition add_touches (n : Z) (b : AccountBody) : AccountBody :=
  with_counts (u32 (times_touched b + n)) (mod_count b) b.
Definition acc_with_body (o : option AccountBody) (x : Account) : Account := {|
  body := o; in_dirties := in_dirties x; in_curr_version := in_curr_version x;
  loaded_from_db := loaded_from_db x; deleted := deleted x |}.
Definition acc_with_flags (dirties curr del : bool) (x : Account) : Account := {|
  body := body x; in_dirties := dirties; in_curr_version := curr;
  loaded_from_db := loaded_from_db x; deleted := del |}.
(** A body that [new(AccountBody)] makes, for an account read from the database or created. *)
Definition body_of (x : DbAccount) : AccountBody := {|
  b_account := x; StorageDirty := ∅; RawStorageDirty := ∅; b_Code := None; CodeDirty := false;
  suicided := false; sink := false; storage_origin := None; times_touched := 0; mod_count := 0 |}.
Definition empty_account : DbAccount := {|
  db_Nonce := 0; db_Balance := 0; db_StorageRootHash := None; db_CodeHash := None;
  db_CodeSize := 0 |}.

Definition set_accounts (m : gmap address Account) (s : TransitionState) : TransitionState := {|
  accounts := m; accounts_in_curr_ver := accounts_in_curr_ver s; journal := journal s;
  dirties := dirties s; ts_logs := ts_logs s; refund := refund s;
  transientStorage := transientStorage s; outputs := outputs s |}.
Definition set_curr_ver (l : list address) (s : TransitionState) : TransitionState := {|
  accounts := accounts s; accounts_in_curr_ver := l; journal := journal s;
  dirties := dirties s; ts_logs := ts_logs s; refund := refund s;
  transientStorage := transientStorage s; outputs := outputs s |}.
Definition set_journal (l : list change) (s : TransitionState) : TransitionState := {|
  accounts := accounts s; accounts_in_curr_ver := accounts_in_curr_ver s; journal := l;
  dirties := dirties s; ts_logs := ts_logs s; refund := refund s;
  transientStorage := transientStorage s; outputs := outputs s |}.
Definition set_dirties (l : list address) (s : TransitionState) : TransitionState := {|
  accounts := accounts s; accounts_in_curr_ver := accounts_in_curr_ver s; journal := journal s;
  dirties := l; ts_logs := ts_logs s; refund := refund s;
  transientStorage := transientStorage s; outputs := outputs s |}.
Definition set_logs_refund (l : list LogRecord) (r : Z) (s : TransitionState) : TransitionState := {|
  accounts := accounts s; accounts_in_curr_ver := accounts_in_curr_ver s; journal := journal s;
  dirties := dirties s; ts_logs := l; refund := r;
  transientStorage := transientStorage s; outputs := outputs s |}.
Definition set_transient (t : gmap address (gmap hash hash)) (s : TransitionState)
  : TransitionState := {|
  accounts := accounts s; accounts_in_curr_ver := accounts_in_curr_ver s; journal := journal s;
  dirties := dirties s; ts_logs := ts_logs s; refund := refund s;
  transientStorage := t; outputs := outputs s |}.
Definition set_outputs (l : list output) (s : TransitionState) : TransitionState := {|
  accounts := accounts s; accounts_in_curr_ver := accounts_in_curr_ver s; journal := journal s;
  dirties := dirties s; ts_logs := ts_logs s; refund := refund s;
  transientStorage := transientStorage s; outputs := l |}.

Abbreviation TS := TransitionState.
Definition gets {A} (f : TS → A) : M TS A := λ s, (Ret (f s), s).
Definition puts (f : TS → TS) : M TS unit := λ s, (Ret tt, f s).

Section state.
Context `{Keccak} (inp : Input).
(** The key of a storage slot, [bigconv.ToHash]. *)
Definition slot_hash (key : Z) : hash := rev (le_enc 32 key).
Definition EmptyBytesKeccak256 : hash := keccak [].

(** ** transition_state.go: the accounts *)
Definition load_account (a : address) : Account := {|
  body := body_of <$> in_GetAccount inp a; in_dirties := false; in_curr_version := true;
  loaded_from_db := match in_GetAccount inp a with Some _ => true | None => false end;
  deleted := false |}.
Definition GetAccountConcrete (a : address) : M TS Account := λ s,
  match accounts s !! a with
  | Some x =>
      if in_curr_version x then (Ret x, s)
      else
        let x := acc_with_flags (in_dirties x) true (deleted x) x in
        (Ret x, set_curr_ver (accounts_in_curr_ver s ++ [a]) (set_accounts (<[a := x]> (accounts s)) s))
  | None =>
      let x := load_account a in
      (Ret x, set_curr_ver (accounts_in_curr_ver s ++ [a]) (set_accounts (<[a := x]> (accounts s)) s))
  end.
(** The account a pointer points to. *)
Definition get_acc (a : address) : M TS Account := λ s,
  match accounts s !! a with Some x => (Ret x, s) | None => (Panic nil_panic, s) end.
Definition put_acc (a : address) (x : Account) : M TS unit :=
  puts (λ s, set_accounts (<[a := x]> (accounts s)) s).
Definition get_body (a : address) : M TS (option AccountBody) := x ← get_acc a; mret (body x).
(** A field of the body, through the embedded pointer. *)
Definition the_body (a : address) : M TS AccountBody := b ← get_body a; deref b.
Definition update_body (a : address) (f : AccountBody → AccountBody) : M TS unit :=
  x ← get_acc a; b ← deref (body x); put_acc a (acc_with_body (Some (f b)) x).
Definition RegisterChange (c : change) : M TS unit := puts (λ s, set_journal (c :: journal s) s).
(** [register_change]: the change counts; its undo, when there is one, counts it off. *)
Definition register_change (a : address) (c : option change) : M TS unit :=
  update_body a (add_mods 1) ;;
  match c with Some c => RegisterChange c | None => mret tt end.

(** ** account.go: reading *)
Definition body_empty (b : AccountBody) : bool :=
  (db_Nonce (b_account b) =? 0) && (db_Balance (b_account b) =? 0) && (db_CodeSize (b_account b) =? 0).
Definition ts_IsNIL (a : address) : M TS bool :=
  b ← get_body a; mret (match b with None => true | Some _ => false end).
Definition ts_IsEIP161Empty (a : address) : M TS bool :=
  b ← get_body a; mret (match b with None => true | Some b => body_empty b end).
Definition ts_GetBalance (a : address) : M TS Z :=
  b ← get_body a; mret (match b with None => 0 | Some b => db_Balance (b_account b) end).
Definition ts_GetNonce (a : address) : M TS Z :=
  b ← get_body a; mret (match b with None => 0 | Some b => db_Nonce (b_account b) end).
Definition ts_GetCodeHash (a : address) : M TS (option hash) :=
  b ← get_body a;
  mret (match b with
        | None => None
        | Some b => if db_CodeSize (b_account b) =? 0 then Some EmptyBytesKeccak256
                    else db_CodeHash (b_account b)
        end).
Definition ts_GetCode (a : address) : M TS bytes :=
  b ← get_body a;
  match b with
  | None => mret []
  | Some b =>
      if db_CodeSize (b_account b) =? 0 then mret []
      else
        match b_Code b with
        | Some c => mret c
        | None =>
            h ← deref (db_CodeHash (b_account b));
            let c := in_GetCode inp h in
            update_body a (λ b, with_code (CodeDirty b) (db_CodeHash (b_account b))
                                  (db_CodeSize (b_account b)) (Some c) b) ;;
            mret c
        end
  end.
Definition ts_GetCodeSize (a : address) : M TS Z :=
  b ← get_body a; mret (match b with None => 0 | Some b => db_CodeSize (b_account b) end).
(** [get_committed_state]: the origin map, filled from the database. *)
Definition db_slot (a : address) (key : Z) : Z :=
  match in_GetAccountStorage inp a (slot_hash key) with Some v => be_val v | None => 0 end.
Definition read_slot (a : address) (key : Z) (b : AccountBody) : M TS Z :=
  let v := db_slot a key in
  update_body a (λ b, with_storage (StorageDirty b)
                        (Some (<[key := v]> (default ∅ (storage_origin b)))) b) ;;
  mret v.
Definition get_committed_state (a : address) (key : Z) : M TS Z :=
  b ← get_body a;
  match b with
  | None => mret 0
  | Some b =>
      match storage_origin b with
      | None =>
          match db_StorageRootHash (b_account b) with
          | None => mret 0
          | Some _ => read_slot a key b
          end
      | Some o => match o !! key with Some v => mret v | None => read_slot a key b end
      end
  end.
Definition ts_GetCommittedState := get_committed_state.
Definition ts_GetState (a : address) (key : Z) : M TS Z :=
  b ← get_body a;
  match b with
  | None => mret 0
  | Some b => match StorageDirty b !! key with Some v => mret v | None => get_committed_state a key end
  end.
(** [GetRawState]: what the callback is given *)
Definition ts_GetRawState (a : address) (key : hash) : M TS (option bytes) :=
  b ← get_body a;
  match b with
  | None => mret None
  | Some b =>
      mret (match RawStorageDirty b !! key with
            | Some v => Some v
            | None => in_GetAccountStorage inp a key
            end)
  end.
(** [IsNIL() && suicided]: the second is read through the nil body. *)
Definition ts_HasSuicided (a : address) : M TS bool :=
  nil ← ts_IsNIL a;
  if negb nil then mret false else b ← the_body a; mret (suicided b).

(** ** account.go: changes *)
Definition ensure_exists (a : address) : M TS unit :=
  x ← get_acc a;
  match body x with
  | Some _ => mret tt
  | None =>
      put_acc a (acc_with_flags (in_dirties x) (in_curr_version x) false
                   (acc_with_body (Some (body_of empty_account)) x)) ;;
      register_change a (Some (UndoCreate a (deleted x)))
  end.
Definition set_balance (a : address) (amount : Z) : M TS unit :=
  b ← the_body a;
  update_body a (with_balance amount) ;;
  register_change a (Some (UndoBalance a (db_Balance (b_account b)))).
Definition ripemd_addr : address := replicate 19 0 ++ [3].
Definition ts_AddBalance (a : address) (amount : Z) : M TS unit :=
  ensure_exists a ;;
  b ← the_body a;
  if negb (amount =? 0) then set_balance a (db_Balance (b_account b) + amount)
  else if negb (body_empty b) then mret tt
  else
    update_body a (add_touches 1) ;;
    register_change a (Some (UndoTouch a)) ;;
    when (bool_decide (a = ripemd_addr)) (update_body a (add_mods 1)).
Definition ts_SubBalance (a : address) (amount : Z) : M TS unit :=
  ensure_exists a ;;
  b ← the_body a;
  when (negb (amount =? 0)) (set_balance a (db_Balance (b_account b) - amount)).
Definition set_nonce (a : address) (nonce : Z) : M TS unit :=
  b ← the_body a;
  update_body a (with_nonce nonce) ;;
  register_change a (Some (UndoNonce a (db_Nonce (b_account b)))).
Definition ts_SetNonce (a : address) (nonce : Z) : M TS unit :=
  ensure_exists a ;;
  b ← the_body a;
  panic_if (nonce <? db_Nonce (b_account b)) "SetNonce: value to set should be >= current nonce" ;;
  set_nonce a nonce.
Definition ts_IncrementNonce (a : address) : M TS unit :=
  ensure_exists a ;;
  b ← the_body a;
  set_nonce a (db_Nonce (b_account b) + 1).
Definition ts_SetCode (a : address) (code : bytes) : M TS unit :=
  ensure_exists a ;;
  match code with
  | [] => mret tt
  | _ =>
      register_change a (Some (UndoCode a)) ;;
      update_body a (with_code true (Some (keccak code)) (Z.of_nat (length code)) (Some code))
  end.
Definition ts_SetState (a : address) (key value : Z) : M TS unit :=
  ensure_exists a ;;
  prev ← ts_GetState a key;
  if prev =? value then mret tt
  else
    register_change a (Some (UndoStorage a key prev)) ;;
    update_body a (λ b, with_storage (<[key := value]> (StorageDirty b)) (storage_origin b) b).
Definition ts_SetStateRawIrreversibly (a : address) (key : hash) (value : bytes) : M TS unit :=
  ensure_exists a ;;
  update_body a (λ b, with_raw (<[key := value]> (RawStorageDirty b)) b) ;;
  register_change a None.
Definition ts_Suicide (a newAddr : address) : M TS unit :=
  GetAccountConcrete newAddr ;;
  b ← get_body a;
  match b with
  | None => ts_AddBalance newAddr 0
  | Some b =>
      ts_AddBalance newAddr (db_Balance (b_account b)) ;;
      b ← the_body a;
      register_change a (Some (UndoSuicide a (suicided b) (db_Balance (b_account b)))) ;;
      update_body a (λ b, with_suicided true (with_balance 0 b))
  end.

(** ** transition_state.go: logs, refunds, snapshots, transient storage *)
Definition ts_AddLog (log : LogRecord) : M TS unit :=
  n ← gets (λ s, length (ts_logs s));
  RegisterChange (UndoLog n) ;;
  puts (λ s, set_logs_refund (ts_logs s ++ [log]) (refund s) s).
Definition ts_AddRefund (gas : Z) : M TS unit :=
  prev ← gets refund;
  RegisterChange (UndoRefund prev) ;;
  puts (λ s, set_logs_refund (ts_logs s) (u64 (prev + gas)) s).
Definition ts_SubRefund (gas : Z) : M TS unit :=
  prev ← gets refund;
  panic_if (prev <? gas) "Refund counter below zero" ;;
  RegisterChange (UndoRefund prev) ;;
  puts (λ s, set_logs_refund (ts_logs s) (u64 (prev - gas)) s).
Definition ts_Snapshot : M TS nat := gets (λ s, length (journal s)).
(** One closure of the journal; those of accounts count the change off first. *)
Definition undo (c : change) : M TS unit :=
  match c with
  | UndoStorage a key prev =>
      update_body a (add_mods (-1)) ;;
      update_body a (λ b, with_storage (<[key := prev]> (StorageDirty b)) (storage_origin b) b)
  | UndoTouch a => update_body a (add_mods (-1)) ;; update_body a (add_touches (-1))
  | UndoBalance a prev => update_body a (add_mods (-1)) ;; update_body a (with_balance prev)
  | UndoNonce a prev => update_body a (add_mods (-1)) ;; update_body a (with_nonce prev)
  | UndoCode a => update_body a (add_mods (-1)) ;; update_body a (with_code false None 0 None)
  | UndoSuicide a sp bp =>
      update_body a (add_mods (-1)) ;; update_body a (λ b, with_suicided sp (with_balance bp b))
  | UndoCreate a was_deleted =>
      update_body a (add_mods (-1)) ;;
      x ← get_acc a;
      put_acc a (acc_with_flags (in_dirties x) (in_curr_version x) was_deleted (acc_with_body None x))
  | UndoLog pos => puts (λ s, set_logs_refund (take pos (ts_logs s)) (refund s) s)
  | UndoRefund prev => puts (λ s, set_logs_refund (ts_logs s) prev s)
  end.
(** [RevertToSnapshot]: the closures above the snapshot, the newest first. *)
Definition ts_RevertToSnapshot (snapshot : nat) : M TS unit :=
  l ← gets journal;
  for_each (take (length l - snapshot) l) undo ;;
  puts (λ s, set_journal (drop (length l - snapshot) l) s).
Definition ts_GetTransientState (a : address) (key : hash) : M TS hash :=
  gets (λ s, default ZeroHash (transientStorage s !! a ≫= lookup key)).
Definition ts_SetTransientState (a : address) (key value : hash) : M TS unit :=
  prev ← ts_GetTransientState a key;
  if bool_decide (prev = value) then mret tt
  else puts (λ s, set_transient
                    (<[a := <[key := value]> (default ∅ (transientStorage s !! a))]>
                       (transientStorage s)) s).

(** ** The end of a transaction and of a block *)
Inductive dirty_status : Type := Unmodified | Updated | Deleted.
Definition flush (a : address) : M TS dirty_status :=
  x ← get_acc a;
  match body x with
  | None => mret Unmodified
  | Some b =>
      let mods := mod_count b in
      let touched := times_touched b in
      let b := with_counts 0 0 b in
      put_acc a (acc_with_body (Some b) x) ;;
      if mods =? 0 then mret Unmodified
      else if suicided b || body_empty b then
        puts (λ s, set_outputs (outputs s ++ [OutDelete a]) s) ;;
        put_acc a (acc_with_body None x) ;;
        mret Deleted
      else if mods =? touched then mret Unmodified
      else
        puts (λ s, set_outputs (outputs s ++ [OutUpdate a b]) s) ;;
        let origin :=
          if bool_decide (StorageDirty b = ∅) then storage_origin b
          else Some (StorageDirty b ∪ default ∅ (storage_origin b)) in
        let b := {| b_account := b_account b; StorageDirty := ∅; RawStorageDirty := ∅;
                    b_Code := b_Code b; CodeDirty := false; suicided := suicided b; sink := true;
                    storage_origin := origin; times_touched := 0; mod_count := 0 |} in
        put_acc a (acc_with_body (Some b) x) ;;
        mret Updated
  end.
(** [unload]: the entry leaves the map. *)
Definition unload (a : address) : M TS unit := puts (λ s, set_accounts (delete a (accounts s)) s).
Definition commit_account (a : address) : M TS unit :=
  x ← get_acc a;
  put_acc a (acc_with_flags (in_dirties x) false (deleted x) x) ;;
  if deleted x then mret tt
  else
    status ← flush a;
    x ← get_acc a;
    let del := match status with Deleted => true | _ => false end in
    let dirty := negb (in_dirties x) &&
      match status with Updated => true | Deleted => loaded_from_db x | Unmodified => false end in
    put_acc a (acc_with_flags (in_dirties x || dirty) false del x) ;;
    when dirty (puts (λ s, set_dirties (dirties s ++ [a]) s)) ;;
    when (negb (in_dirties x || dirty)) (unload a).
Definition CommitTransaction : M TS unit :=
  l ← gets accounts_in_curr_ver;
  for_each l commit_account ;;
  puts (λ s, set_curr_ver [] (set_journal [] (set_transient ∅ (set_logs_refund [] 0 s)))).
(** [Commit]: the mutations are committed by the output, the accounts leave the map. *)
Definition ts_Commit : M TS unit :=
  l ← gets dirties;
  for_each l unload ;;
  puts (set_dirties []).

(** [TransitionState] is a state of the virtual machine. *)
#[global] Instance transition_state : EvmState TS := {
  GetAccount a := GetAccountConcrete a ;; mret tt;
  GetBalance := ts_GetBalance; GetNonce := ts_GetNonce; GetCodeHash := ts_GetCodeHash;
  GetCode := ts_GetCode; GetCodeSize := ts_GetCodeSize; GetCommittedState := ts_GetCommittedState;
  GetState := ts_GetState; HasSuicided := ts_HasSuicided; IsNIL := ts_IsNIL;
  IsEIP161Empty := ts_IsEIP161Empty; SetCode := ts_SetCode; AddBalance := ts_AddBalance;
  SubBalance := ts_SubBalance; IncrementNonce := ts_IncrementNonce; SetNonce := ts_SetNonce;
  SetState := ts_SetState; Suicide := ts_Suicide; AddLog := ts_AddLog; GetLogs := gets ts_logs;
  AddRefund := ts_AddRefund; SubRefund := ts_SubRefund; GetRefund := gets (λ s, u64 (refund s));
  RevertToSnapshot := ts_RevertToSnapshot; Snapshot := ts_Snapshot;
  GetTransientState := ts_GetTransientState; SetTransientState := ts_SetTransientState
}.
End state.
