(* ===== verification/StateEvmFacts.v ===== *)
(** The journal of the accounts (state_evm): what every operation changes can be undone, the
    changes back to a snapshot restore the accounts as the virtual machine sees them, and what a
    reader does changes nothing.  [TransitionState] keeps what [EvmJournal] promises. *)
From S2P Require Import Prelude Codec Storage EvmInterface StateEvm.

Section facts.
Context `{Keccak} (inp : Input).
(** Whether the slots that contracts write past the journal are looked at too. *)
Context (raw : bool).
#[local] Set Default Proof Using "Type* + raw".
Abbreviation anything := (λ _ : string, True).

(** ** What the virtual machine sees of an account *)
Definition account_at (s : TS) (a : address) : option AccountBody :=
  match accounts s !! a with Some x => body x | None => body_of <$> in_GetAccount inp a end.
Definition committed (a : address) (b : AccountBody) (key : Z) : Z :=
  match storage_origin b with
  | None => match db_StorageRootHash (b_account b) with None => 0 | Some _ => db_slot inp a key end
  | Some o => default (db_slot inp a key) (o !! key)
  end.
Definition slot (a : address) (b : AccountBody) (key : Z) : Z :=
  default (committed a b key) (StorageDirty b !! key).
Definition code_seen (b : AccountBody) : option bytes :=
  match b_Code b with Some c => Some c | None => in_GetCode inp <$> db_CodeHash (b_account b) end.
Record sees (a : address) (b b' : AccountBody) : Prop := {
  sees_nonce : db_Nonce (b_account b') = db_Nonce (b_account b);
  sees_balance : db_Balance (b_account b') = db_Balance (b_account b);
  sees_size : db_CodeSize (b_account b') = db_CodeSize (b_account b);
  sees_hash : db_CodeSize (b_account b) ≠ 0 → db_CodeHash (b_account b') = db_CodeHash (b_account b);
  sees_code : db_CodeSize (b_account b) ≠ 0 → code_seen b' = code_seen b;
  sees_suicided : suicided b' = suicided b;
  sees_committed key : committed a b' key = committed a b key;
  sees_slot key : slot a b' key = slot a b key;
  sees_raw : raw = true → RawStorageDirty b' = RawStorageDirty b
}.
#[export] Instance sees_preorder a : PreOrder (sees a).
Proof.
  split; [by split|]. intros b1 b2 b3 [A1 A2 A3 A4 A5 A6 A7 A8 A9] [B1 B2 B3 B4 B5 B6 B7 B8 B9].
  split; try congruence; intros Hs; [..|by rewrite B9, A9].
  - rewrite B4 by congruence. by apply A4.
  - rewrite B5 by congruence. by apply A5.
Qed.
(** [t] has the accounts of [s], and maybe more of them loaded. *)
Record restores (s t : TS) : Prop := {
  restores_loaded : dom (accounts s) ⊆ dom (accounts t);
  restores_accounts a : option_Forall2 (sees a) (account_at s a) (account_at t a);
  restores_logs : ts_logs t = ts_logs s;
  restores_refund : refund t = refund s
}.
#[export] Instance restores_preorder : PreOrder restores.
Proof.
  split.
  - intros s. split; [done| |done..]. intros a. by destruct (account_at s a); constructor.
  - intros s1 s2 s3 [A1 A2 A3 A4] [B1 B2 B3 B4]. split; [set_solver| |congruence..].
    intros a. specialize (A2 a). specialize (B2 a).
    destruct A2; inversion B2; simplify_eq; constructor. by etrans.
Qed.

(** ** What the journal can undo *)
Definition logged (s s' : TS) : Prop :=
  dom (accounts s) ⊆ dom (accounts s') ∧
  ∃ l, journal s' = l ++ journal s ∧
    ∀ t, restores s' t →
      ∃ t', for_each l undo t = (Ret tt, t') ∧ restores s t' ∧ journal t' = journal t.
Lemma for_each_app {A} (l1 l2 : list A) (f : A → M TS unit) s s1 :
  for_each l1 f s = (Ret tt, s1) → for_each (l1 ++ l2) f s = for_each l2 f s1.
Proof.
  revert s. induction l1 as [|x l1 IH]; intros s; simpl; [by intros [= <-]|].
  intros (u & s2 & E1 & E2)%bind_ret_inv. rewrite (bind_run _ _ _ _ _ E1). by apply IH.
Qed.
#[export] Instance logged_preorder : PreOrder logged.
Proof.
  split.
  - intros s. split; [done|]. exists []. split; [done|]. intros t Ht. by exists t.
  - intros s1 s2 s3 [D1 (l1 & J1 & U1)] [D2 (l2 & J2 & U2)]. split; [set_solver|].
    exists (l2 ++ l1). rewrite J2, J1, app_assoc. split; [done|]. intros t Ht.
    destruct (U2 t Ht) as (t2 & E2 & R2 & K2). destruct (U1 t2 R2) as (t1 & E1 & R1 & K1).
    exists t1. rewrite (for_each_app _ _ _ _ _ E2). split_and!; [done..|congruence].
Qed.
(** Nothing seen changes. *)
Lemma unseen_logged s s' : restores s s' → journal s' = journal s → logged s s'.
Proof.
  intros Hr Hj. split; [apply Hr|]. exists []. split; [done|]. intros t Ht. exists t.
  split_and!; [done|by etrans|done].
Qed.
(** Reverting to the length the journal had. *)
Lemma logged_revert s s1 :
  logged s s1 →
  ∃ t, ts_RevertToSnapshot (length (journal s)) s1 = (Ret tt, t) ∧ restores s t ∧
       journal t = journal s.
Proof.
  intros [_ (l & Hj & Hu)]. destruct (Hu s1) as (t & E & Hr & Ht); [done|].
  exists (set_journal (journal s) t). unfold ts_RevertToSnapshot, gets.
  unfold mbind at 1, M_bind at 1. rewrite Hj, length_app.
  replace (length l + length (journal s) - length (journal s))%nat with (length l) by lia.
  rewrite take_app_length, drop_app_length, (bind_run _ _ _ _ _ E).
  split_and!; [done| |done]. destruct Hr. by split.
Qed.

(** ** Changes of one account *)
Definition set_acct (a : address) (x : Account) (s : TS) : TS :=
  set_accounts (<[a := x]> (accounts s)) s.
Lemma set_acct_twice a x y s : set_acct a y (set_acct a x s) = set_acct a y s.
Proof. unfold set_acct, set_accounts. simpl. by rewrite insert_insert_eq. Qed.
Lemma set_acct_lookup a x s : accounts (set_acct a x s) !! a = Some x.
Proof. apply lookup_insert_eq. Qed.
Lemma account_at_set a x s : account_at (set_acct a x s) a = body x.
Proof. unfold account_at. by rewrite set_acct_lookup. Qed.
Lemma account_at_other a a' x s : a' ≠ a → account_at (set_acct a x s) a' = account_at s a'.
Proof. intros. unfold account_at, set_acct. simpl. by rewrite lookup_insert_ne. Qed.
Lemma account_at_some a x s : accounts s !! a = Some x → account_at s a = body x.
Proof. unfold account_at. by intros ->. Qed.
Lemma dom_set_acct a x s : dom (accounts s) ⊆ dom (accounts (set_acct a x s)).
Proof. simpl. set_solver. Qed.
Lemma update_body_run a f s x b :
  accounts s !! a = Some x → body x = Some b →
  update_body a f s = (Ret tt, set_acct a (acc_with_body (Some (f b)) x) s).
Proof. intros E1 E2. unfold update_body, get_acc, mbind, M_bind. by rewrite E1, E2. Qed.
Lemma restores_set a x' s x :
  accounts s !! a = Some x → option_Forall2 (sees a) (body x) (body x') →
  restores s (set_acct a x' s).
Proof.
  intros E Hb. split; [apply dom_set_acct| |done..]. intros a'.
  destruct (decide (a' = a)) as [->|Hn].
  - by rewrite account_at_set, (account_at_some _ _ _ E).
  - rewrite account_at_other by done. destruct (account_at s a'); by constructor.
Qed.
Lemma update_twice a f g s x b :
  accounts s !! a = Some x → body x = Some b →
  (update_body a f ;; update_body a g) s
    = (Ret tt, set_acct a (acc_with_body (Some (g (f b))) x) s).
Proof.
  intros E1 E2. rewrite (bind_run _ _ _ _ _ (update_body_run a f s x b E1 E2)).
  erewrite update_body_run by (apply set_acct_lookup || done). by rewrite set_acct_twice.
Qed.
(** A loaded account of [s] as [t] has it. *)
Lemma restores_lookup s t a x :
  restores s t → accounts s !! a = Some x →
  ∃ xt, accounts t !! a = Some xt ∧ option_Forall2 (sees a) (body x) (body xt).
Proof.
  intros [Hd Ha _ _] E. assert (a ∈ dom (accounts t)) as [xt Ext]%elem_of_dom.
  { apply Hd, elem_of_dom. by eexists. }
  exists xt. split; [done|]. specialize (Ha a). unfold account_at in Ha. by rewrite E, Ext in Ha.
Qed.
(** The change [c] of the body [b] of an account into [b1]. *)
Lemma logged_change a c g s x b b1 :
  accounts s !! a = Some x → body x = Some b →
  undo c = (update_body a (add_mods (-1)) ;; update_body a g) →
  (∀ bt, sees a b1 bt → sees a b (g (add_mods (-1) bt))) →
  logged s (set_journal (c :: journal s) (set_acct a (acc_with_body (Some b1) x) s)).
Proof.
  intros E1 E2 Hc Hg. split; [apply dom_set_acct|]. exists [c]. split; [done|]. intros t Ht.
  destruct (restores_lookup _ _ a _ Ht (set_acct_lookup a _ s)) as (xt & Ext & Hb).
  simpl in Hb. inversion Hb as [? bt Hs E3 E4|]. simplify_eq. simpl for_each.
  rewrite Hc. erewrite bind_run by (eapply update_twice; [done|by symmetry]).
  eexists. split; [done|]. split; [|done].
  split; [|intros a'| |].
  - etrans; [|apply dom_set_acct]. etrans; [|apply Ht]. apply dom_set_acct.
  - destruct (decide (a' = a)) as [->|Hn].
    + rewrite account_at_set, (account_at_some _ _ _ E1), E2. simpl. constructor. by apply Hg.
    + rewrite account_at_other by done. pose proof (restores_accounts _ _ Ht a') as Ha.
      unfold account_at at 1 in Ha. simpl in Ha. rewrite lookup_insert_ne in Ha by done.
      exact Ha.
  - apply Ht.
  - apply Ht.
Qed.
Lemma register_run a c s x b :
  accounts s !! a = Some x → body x = Some b →
  register_change a (Some c) s
    = (Ret tt, set_journal (c :: journal s) (set_acct a (acc_with_body (Some (add_mods 1 b)) x) s)).
Proof.
  intros E1 E2. unfold register_change.
  by rewrite (bind_run _ _ _ _ _ (update_body_run a _ s x b E1 E2)).
Qed.
Lemma update_register a c f s x b :
  accounts s !! a = Some x → body x = Some b →
  (update_body a f ;; register_change a (Some c)) s
    = (Ret tt, set_journal (c :: journal s)
                 (set_acct a (acc_with_body (Some (add_mods 1 (f b))) x) s)).
Proof.
  intros E1 E2. rewrite (bind_run _ _ _ _ _ (update_body_run a f s x b E1 E2)).
  erewrite register_run by (apply set_acct_lookup || done). by rewrite set_acct_twice.
Qed.
Lemma register_update a c f s x b :
  accounts s !! a = Some x → body x = Some b →
  (register_change a (Some c) ;; update_body a f) s
    = (Ret tt, set_journal (c :: journal s)
                 (set_acct a (acc_with_body (Some (f (add_mods 1 b))) x) s)).
Proof.
  intros E1 E2. rewrite (bind_run _ _ _ _ _ (register_run a c s x b E1 E2)).
  set (s1 := set_journal _ _). assert (accounts s1 !! a = Some (acc_with_body (Some (add_mods 1 b)) x))
    as E3 by apply set_acct_lookup.
  rewrite (update_body_run a f s1 _ _ E3 eq_refl). f_equal. subst s1.
  unfold set_journal, set_acct, set_accounts. simpl. by rewrite insert_insert_eq.
Qed.
(** A step that starts by reading the body of an account. *)
Lemma the_body_inv a {A} (k : AccountBody → M TS A) s :
  (∃ x b, accounts s !! a = Some x ∧ body x = Some b ∧ (b ← the_body a; k b) s = k b s) ∨
  ((b ← the_body a; k b) s).1 = Panic nil_panic.
Proof.
  unfold the_body, get_body, get_acc, mbind, M_bind. destruct (accounts s !! a) as [x|]; [|by right].
  simpl. unfold deref. destruct (body x) as [b|] eqn:E; [|by right]. left. by exists x, b.
Qed.
Lemma moves_the_body (R : relation TS) a {A} (k : AccountBody → M TS A) :
  (∀ s x b, accounts s !! a = Some x → body x = Some b →
     match k b s with (Panic _, _) => True | (_, s') => R s s' end) →
  moves R anything (b ← the_body a; k b).
Proof.
  intros Hk s. destruct (the_body_inv a k s) as [(x & b & E1 & E2 & ->)|E]; [by eapply Hk|].
  lazymatch type of E with (?p).1 = _ => destruct p as [o s1] end. simpl in E. by subst o.
Qed.

(** ** The operations, and what they change *)
Lemma sees_counts a b n m : sees a b (with_counts n m b).
Proof. by split. Qed.
Definition unseen (s s' : TS) : Prop :=
  restores s s' ∧ journal s' = journal s ∧ transientStorage s' = transientStorage s.
Lemma GetAccountConcrete_unseen a s : unseen s (GetAccountConcrete inp a s).2.
Proof.
  unfold GetAccountConcrete. destruct (accounts s !! a) as [x|] eqn:E.
  - destruct (in_curr_version x); simpl; [done|]. split; [|done].
    assert (restores s (set_acct a (acc_with_flags (in_dirties x) true (deleted x) x) s)) as [].
    { apply restores_set with x; [done|]. simpl. by destruct (body x); constructor. }
    by split.
  - simpl. split; [|done]. split; [simpl; set_solver| |done..]. intros a'.
    assert (account_at (set_acct a (load_account inp a) s) a' = account_at s a') as Ha.
    { destruct (decide (a' = a)) as [->|Hn]; [|by apply account_at_other].
      rewrite account_at_set. unfold account_at. by rewrite E. }
    lazymatch goal with |- option_Forall2 _ _ ?y => change y with (account_at (set_acct a (load_account inp a) s) a') end.
    rewrite Ha. by destruct (account_at s a'); constructor.
Qed.
#[export] Instance unseen_preorder : PreOrder unseen.
Proof.
  split; [done|]. intros ??? (?&?&?) (?&?&?). split_and!; [by etrans|congruence..].
Qed.
Abbreviation unseen_step := (moves unseen anything).
Abbreviation logged_step := (moves logged anything).
Lemma moves_impl (R1 R2 : relation TS) {A} (m : M TS A) :
  moves R1 anything m → (∀ s s', R1 s s' → R2 s s') → moves R2 anything m.
Proof. intros Hm HR s. specialize (Hm s). destruct (m s) as [[] ?]; auto. Qed.
Lemma unseen_is_logged {A} (m : M TS A) : unseen_step m → logged_step m.
Proof. intros Hm. apply (moves_impl _ _ _ Hm). intros ?? (?&?&?). by apply unseen_logged. Qed.

Lemma unseen_GetAccount a : unseen_step (GetAccountConcrete inp a).
Proof. intros s. pose proof (GetAccountConcrete_unseen a s). by destruct (GetAccountConcrete inp a s) as [[]?]. Qed.
Lemma unseen_get_acc a : unseen_step (get_acc a).
Proof. intros s. unfold get_acc. by destruct (accounts s !! a). Qed.
Lemma unseen_gets {A} (f : TS → A) : unseen_step (gets f).
Proof. done. Qed.
Lemma unseen_update a f : (∀ b, sees a b (f b)) → unseen_step (update_body a f).
Proof.
  intros Hf s. unfold update_body, get_acc, mbind, M_bind.
  destruct (accounts s !! a) as [x|] eqn:E; [|done]. unfold deref.
  destruct (body x) as [b|] eqn:Eb; [|done]. simpl. split; [|done].
  eapply restores_set; [done|]. rewrite Eb. by constructor.
Qed.
#[local] Hint Resolve unseen_GetAccount unseen_get_acc unseen_gets : moves.
Lemma unseen_get_body a : unseen_step (get_body a).
Proof. unfold get_body. moves_solve. Qed.
#[local] Hint Resolve unseen_get_body : moves.
Lemma unseen_the_body a : unseen_step (the_body a).
Proof. unfold the_body. moves_solve. Qed.
Lemma unseen_reads {A} a (f : option AccountBody → A) : unseen_step (b ← get_body a; mret (f b)).
Proof. moves_solve. Qed.
#[local] Hint Resolve unseen_the_body : moves.
(** Storage, as it is committed and as it is. *)
Definition reads {A} (m : M TS A) (s : TS) (v : A) : Prop :=
  match m s with (Ret v', s') => v' = v ∧ unseen s s' | (Err _, _) => False | (Panic _, _) => True end.
Definition committed_at (s : TS) (a : address) (key : Z) : Z :=
  match account_at s a with Some b => committed a b key | None => 0 end.
Definition slot_at (s : TS) (a : address) (key : Z) : Z :=
  match account_at s a with Some b => slot a b key | None => 0 end.
Lemma read_slot_spec a key b s x :
  accounts s !! a = Some x → body x = Some b →
  match storage_origin b with
  | None => db_StorageRootHash (b_account b) ≠ None
  | Some o => o !! key = None
  end → reads (read_slot inp a key b) s (db_slot inp a key).
Proof.
  intros E1 E2 Ho. unfold reads, read_slot. cbv zeta.
  rewrite (bind_run _ _ _ _ _ (update_body_run a _ s x b E1 E2)). split; [done|]. split; [|done].
  apply restores_set with x; [done|]. rewrite E2. simpl. constructor.
  assert (∀ k, committed a (with_storage (StorageDirty b)
      (Some (<[key := db_slot inp a key]> (default ∅ (storage_origin b)))) b) k = committed a b k) as Hc.
  { intros k. unfold committed. simpl. destruct (decide (k = key)) as [->|Hk].
    - rewrite lookup_insert_eq. simpl. destruct (storage_origin b) as [o|]; [by rewrite Ho|].
      by destruct (db_StorageRootHash _).
    - rewrite lookup_insert_ne by done. destruct (storage_origin b) as [o|]; [done|].
      simpl. rewrite lookup_empty. by destruct (db_StorageRootHash _). }
  split; try done. intros k. unfold slot. simpl. by rewrite Hc.
Qed.
Lemma get_committed_spec a key s : reads (get_committed_state inp a key) s (committed_at s a key).
Proof.
  unfold reads, get_committed_state, get_body, get_acc, committed_at, account_at.
  unfold mbind, M_bind. destruct (accounts s !! a) as [x|] eqn:E; [|done]. simpl.
  destruct (body x) as [b|] eqn:Eb; [|done].
  pose proof (read_slot_spec a key b s x E Eb) as Hr. unfold committed.
  destruct (storage_origin b) as [o|]; [destruct (o !! key)|destruct (db_StorageRootHash _)];
    simpl; try done; by apply Hr.
Qed.
Lemma GetState_spec a key s : reads (ts_GetState inp a key) s (slot_at s a key).
Proof.
  pose proof (get_committed_spec a key s) as Hc. revert Hc.
  unfold reads, ts_GetState, get_body, get_acc, slot_at, committed_at, account_at.
  unfold mbind, M_bind. destruct (accounts s !! a) as [x|] eqn:E; [|done]. simpl.
  destruct (body x) as [b|] eqn:Eb; [|done]. unfold slot.
  by destruct (StorageDirty b !! key).
Qed.
Lemma unseen_committed a key : unseen_step (get_committed_state inp a key).
Proof.
  intros s. pose proof (get_committed_spec a key s) as Hr. unfold reads in Hr.
  destruct (get_committed_state inp a key s) as [[] ?]; [apply Hr|done..].
Qed.
Lemma unseen_GetState a key : unseen_step (ts_GetState inp a key).
Proof.
  intros s. pose proof (GetState_spec a key s) as Hr. unfold reads in Hr.
  destruct (ts_GetState inp a key s) as [[] ?]; [apply Hr|done..].
Qed.
Lemma unseen_GetCode a : unseen_step (ts_GetCode inp a).
Proof.
  intros s. unfold ts_GetCode, get_body, get_acc, mbind, M_bind.
  destruct (accounts s !! a) as [x|] eqn:E; [|done]. simpl.
  destruct (body x) as [b|] eqn:Eb; [|done]. destruct (_ =? 0); [done|].
  destruct (b_Code b) as [c|] eqn:Ec; [done|]. unfold deref.
  destruct (db_CodeHash (b_account b)) as [h|] eqn:Eh; [|done]. simpl.
  rewrite (update_body_run a _ s x b E Eb). split; [|done].
  apply restores_set with x; [done|]. rewrite Eb. simpl. constructor.
  split; try done. intros _. unfold code_seen. simpl. by rewrite Ec, Eh.
Qed.
Lemma unseen_HasSuicided a : unseen_step (ts_HasSuicided a).
Proof. unfold ts_HasSuicided, ts_IsNIL. moves_solve. Qed.

Lemma logged_ensure_exists a : logged_step (ensure_exists a).
Proof.
  intros s. unfold ensure_exists, get_acc, mbind, M_bind.
  destruct (accounts s !! a) as [x|] eqn:E; [|done]. destruct (body x) as [b|] eqn:Eb; [simpl; reflexivity|].
  cbn -[register_change undo].
  set (x1 := acc_with_flags _ _ _ _). set (s1 := set_accounts (<[a := x1]> (accounts s)) s).
  rewrite (register_run a _ s1 x1 (body_of empty_account) (set_acct_lookup a x1 s) eq_refl).
  split; [simpl; set_solver|]. exists [UndoCreate a (deleted x)]. split; [done|].
  intros t Ht. fold (set_acct a x1 s) in s1.
  destruct (restores_lookup _ t a _ Ht (set_acct_lookup a _ s1)) as (xt & Ext & Hb).
  simpl in Hb. inversion Hb as [? bt Hs E3 E4|]. simplify_eq.
  set (xn := acc_with_flags (in_dirties xt) (in_curr_version xt) (deleted x) (acc_with_body None xt)).
  exists (set_acct a xn t). split_and!; [|split|done].
  - simpl for_each. unfold undo. cbv zeta.
    rewrite (bind_run _ _ t tt (set_acct a xn t)); [done|].
    rewrite (bind_run _ _ _ _ _ (update_body_run a _ t xt bt Ext (eq_sym E4))).
    unfold get_acc, put_acc, puts, mbind, M_bind. rewrite set_acct_lookup. cbn.
    f_equal. by apply (set_acct_twice a _ xn t).
  - etrans; [|apply dom_set_acct]. etrans; [|apply Ht]. simpl. set_solver.
  - intros a'. destruct (decide (a' = a)) as [->|Hn].
    + rewrite account_at_set, (account_at_some _ _ _ E), Eb. constructor.
    + rewrite account_at_other by done. pose proof (restores_accounts _ _ Ht a') as Ha.
      unfold account_at at 1 in Ha. simpl in Ha. rewrite !lookup_insert_ne in Ha by done. exact Ha.
  - apply Ht.
  - apply Ht.
Qed.
Lemma logged_set_balance a v : logged_step (set_balance a v).
Proof.
  unfold set_balance. apply moves_the_body. intros s x b E1 E2.
  rewrite (update_register a _ _ s x b E1 E2). eapply logged_change; [done..|].
  intros bt []. by split.
Qed.
Lemma logged_set_nonce a v : logged_step (set_nonce a v).
Proof.
  unfold set_nonce. apply moves_the_body. intros s x b E1 E2.
  rewrite (update_register a _ _ s x b E1 E2). eapply logged_change; [done..|].
  intros bt []. by split.
Qed.
Lemma logged_touch a : logged_step (update_body a (add_touches 1) ;; register_change a (Some (UndoTouch a))).
Proof.
  intros s. destruct (accounts s !! a) as [x|] eqn:E1.
  2: { unfold update_body, get_acc, mbind, M_bind. by rewrite E1. }
  destruct (body x) as [b|] eqn:E2.
  2: { unfold update_body, get_acc, mbind, M_bind. by rewrite E1, E2. }
  rewrite (update_register a _ _ s x b E1 E2). eapply logged_change; [done..|].
  intros bt []. by split.
Qed.
Lemma logged_mods a n : logged_step (update_body a (add_mods n)).
Proof. apply unseen_is_logged, unseen_update. intros b. apply sees_counts. Qed.
#[local] Hint Resolve logged_ensure_exists logged_set_balance logged_set_nonce logged_touch
  logged_mods unseen_is_logged unseen_GetState : moves.
Lemma logged_then {A B C} (m : M TS A) (n : M TS B) (k : B → M TS C) :
  logged_step (m ;; n) → (∀ b, logged_step (k b)) → logged_step (m ;; n ≫= k).
Proof.
  intros Hm Hk s. rewrite <- (bind_assoc m (λ _, n) k). by apply moves_bind; [apply _|..].
Qed.
Lemma logged_AddBalance a v : logged_step (ts_AddBalance a v).
Proof.
  unfold ts_AddBalance. do 2 (moves_step; [eauto with moves|]).
  moves_step; [eauto with moves|]. moves_step; [moves_solve|].
  apply logged_then; [apply logged_touch|]. moves_solve.
Qed.
Lemma logged_SubBalance a v : logged_step (ts_SubBalance a v).
Proof. unfold ts_SubBalance. moves_solve. Qed.
Lemma logged_SetNonce a v : logged_step (ts_SetNonce a v).
Proof. unfold ts_SetNonce. moves_solve. Qed.
Lemma logged_IncrementNonce a : logged_step (ts_IncrementNonce a).
Proof. unfold ts_IncrementNonce. moves_solve. Qed.
Lemma logged_SetState a key v : logged_step (ts_SetState inp a key v).
Proof.
  unfold ts_SetState. moves_step; [eauto with moves|]. intros s.
  pose proof (GetState_spec a key s) as Hg. unfold reads in Hg. unfold mbind at 1, M_bind at 1.
  destruct (ts_GetState inp a key s) as [[prev|x|x] s1] eqn:Eg; [|done|done].
  destruct Hg as [Hv Hu]. assert (logged s s1) as Hl by (by apply unseen_logged; apply Hu).
  destruct (prev =? v); [done|]. unfold register_change.
  destruct (accounts s1 !! a) as [y|] eqn:E1.
  2: { unfold update_body, get_acc, mbind, M_bind. by rewrite E1. }
  destruct (body y) as [b|] eqn:E2.
  2: { unfold update_body, get_acc, mbind, M_bind. by rewrite E1, E2. }
  fold (register_change a (Some (UndoStorage a key prev))).
  rewrite (register_update a _ _ s1 y b E1 E2). etrans; [done|].
  eapply logged_change; [done..|]. intros bt [B1 B2 B3 B4 B5 B6 B7 B8 B9]. split; try done.
  intros k. unfold slot. simpl. destruct (decide (k = key)) as [->|Hk].
  - rewrite lookup_insert_eq. simpl. subst prev. unfold slot_at.
    destruct Hu as [Hr _]. pose proof (restores_accounts _ _ Hr a) as Ha.
    rewrite (account_at_some _ _ _ E1), E2 in Ha. inversion Ha as [b0 ? Hs E3 E4|]. subst.
    symmetry. apply Hs.
  - rewrite lookup_insert_ne by done. specialize (B8 k). unfold slot in B8. simpl in B8.
    rewrite lookup_insert_ne in B8 by done. exact B8.
Qed.
(** An account that has no code. *)
Definition code_size_at (s : TS) (a : address) : Z :=
  match account_at s a with Some b => db_CodeSize (b_account b) | None => 0 end.
Lemma ensure_exists_spec a s :
  match ensure_exists a s with
  | (Ret _, s') => logged s s' ∧ code_size_at s' a = code_size_at s a ∧
      ∃ x b, accounts s' !! a = Some x ∧ body x = Some b
  | (Err _, _) => False
  | (Panic _, _) => True
  end.
Proof.
  pose proof (logged_ensure_exists a s) as Hl. revert Hl.
  unfold ensure_exists, get_acc, mbind, M_bind.
  destruct (accounts s !! a) as [x|] eqn:E; [|done]. destruct (body x) as [b|] eqn:Eb.
  { simpl. intros Hl. split_and!; [done..|]. by exists x, b. }
  cbn -[register_change undo]. set (x1 := acc_with_flags _ _ _ _).
  set (s1 := set_accounts (<[a := x1]> (accounts s)) s).
  rewrite (register_run a _ s1 x1 (body_of empty_account) (set_acct_lookup a x1 s) eq_refl).
  intros Hl. split_and!; [done| |].
  - unfold code_size_at. rewrite (account_at_some _ _ _ E), Eb. unfold account_at.
    simpl. by rewrite lookup_insert_eq.
  - eexists _, _. simpl. by rewrite lookup_insert_eq.
Qed.
Lemma logged_SetCode a c s :
  code_size_at s a = 0 →
  match ts_SetCode a c s with (Panic _, _) => True | (_, s') => logged s s' end.
Proof.
  intros Hs. unfold ts_SetCode. pose proof (ensure_exists_spec a s) as He.
  unfold mbind at 1, M_bind at 1. destruct (ensure_exists a s) as [[[]|e|e] s1]; [|done..].
  destruct He as (Hl & Hc & x & b & E1 & E2). destruct c as [|y c]; [done|].
  rewrite (register_update a _ _ s1 x b E1 E2). etrans; [done|].
  eapply logged_change; [done..|]. intros bt []. rewrite Hs in Hc. unfold code_size_at in Hc.
  rewrite (account_at_some _ _ _ E1), E2 in Hc. by split.
Qed.
Lemma logged_Suicide a n : logged_step (ts_Suicide inp a n).
Proof.
  unfold ts_Suicide. moves_step; [eauto with moves|]. moves_step; [eauto with moves|].
  pose proof logged_AddBalance. moves_step; [|eauto with moves].
  moves_step; [eauto with moves|]. apply moves_the_body. intros s x y E1 E2.
  rewrite (register_update a _ _ s x y E1 E2). eapply logged_change; [done..|].
  intros bt []. by split.
Qed.
(** Logs and the refund counter. *)
Lemma logged_AddLog l : logged_step (ts_AddLog l).
Proof.
  intros s. simpl. split; [done|]. eexists [_]. split; [done|]. intros t [T1 T2 T3 T4]. simpl in *.
  eexists. split; [done|]. split; [|done]. split; [done..| |done]. simpl. by rewrite T3, take_app_length.
Qed.
Lemma logged_refund s r :
  logged s (set_logs_refund (ts_logs s) r (set_journal (UndoRefund (refund s) :: journal s) s)).
Proof.
  split; [done|]. eexists [_]. split; [done|]. intros t [T1 T2 T3 T4]. simpl in *.
  eexists. split; [done|]. split; [|done]. by split.
Qed.
Lemma logged_AddRefund g : logged_step (ts_AddRefund g).
Proof. intros s. apply (logged_refund s). Qed.
Lemma logged_SubRefund g : logged_step (ts_SubRefund g).
Proof.
  intros s. unfold ts_SubRefund, gets, panic_if, mbind, M_bind. destruct (refund s <? g); [done|]. apply (logged_refund s).
Qed.
(** What is written past the journal. *)
Lemma unseen_raw_write a r : raw = false → unseen_step (update_body a (with_raw r)).
Proof. intros Hr. apply unseen_update. intros b. split; try done. by rewrite Hr. Qed.
Lemma raw_body_run a g s :
  (update_body a (λ b, with_raw (g b) b) s).1 = Panic nil_panic ∨
  ∃ r, update_body a (λ b, with_raw (g b) b) s = update_body a (with_raw r) s.
Proof.
  unfold update_body, get_acc, mbind, M_bind. destruct (accounts s !! a) as [x|]; [|by left].
  unfold deref. destruct (body x) as [b|]; [|by left]. right. by exists (g b).
Qed.
Lemma unseen_raw_update a g : raw = false → unseen_step (update_body a (λ b, with_raw (g b) b)).
Proof.
  intros Hr s. destruct (raw_body_run a g s) as [E|[r ->]]; [|by apply unseen_raw_write].
  destruct (update_body _ _ s) as [o t]. simpl in E. by subst o.
Qed.
Lemma logged_SetStateRaw a k v : raw = false → logged_step (ts_SetStateRawIrreversibly a k v).
Proof.
  intros Hr. pose proof (unseen_raw_update a (λ b, <[k := v]> (RawStorageDirty b)) Hr).
  unfold ts_SetStateRawIrreversibly, register_change. moves_solve.
Qed.
Lemma logged_SetTransientState a k v : logged_step (ts_SetTransientState a k v).
Proof.
  unfold ts_SetTransientState, ts_GetTransientState. moves_step; [by apply unseen_is_logged|].
  destruct (bool_decide _); [apply moves_ret, _|]. intros s. by apply unseen_logged; split.
Qed.

(** ** Accounts in use keep their code *)
Definition nonce_at (s : TS) (a : address) : Z :=
  match account_at s a with Some b => db_Nonce (b_account b) | None => 0 end.
Definition code_kept (s s' : TS) : Prop :=
  ∀ a, 0 < nonce_at s a → 0 < nonce_at s' a ∧ code_size_at s' a = code_size_at s a.
#[export] Instance code_kept_preorder : PreOrder code_kept.
Proof using Type*.
  split; [done|]. intros s1 s2 s3 A B a Ha. destruct (A a Ha) as [A1 A2].
  destruct (B a A1) as [B1 B2]. split; [done|congruence].
Qed.
Lemma restores_kept s t : restores s t → code_kept s t.
Proof.
  intros Hr a. unfold nonce_at, code_size_at.
  destruct (restores_accounts _ _ Hr a) as [b b' []|]; [|done]. by split; [lia|].
Qed.
Abbreviation kept_step := (moves code_kept anything).
Lemma unseen_is_kept {A} (m : M TS A) : unseen_step m → kept_step m.
Proof. intros Hm. apply (moves_impl _ _ _ Hm). intros ?? (?&?&?). by apply restores_kept. Qed.
(** A change of one account. *)
Lemma kept_set a x x' s :
  accounts s !! a = Some x →
  (∀ b, body x = Some b → 0 < db_Nonce (b_account b) →
     ∃ b', body x' = Some b' ∧ 0 < db_Nonce (b_account b') ∧
       db_CodeSize (b_account b') = db_CodeSize (b_account b)) →
  code_kept s (set_acct a x' s).
Proof.
  intros E Hb a'. unfold nonce_at, code_size_at. destruct (decide (a' = a)) as [->|Hn].
  - rewrite account_at_set, (account_at_some _ _ _ E). destruct (body x) as [b|]; [|done].
    intros Hp. by destruct (Hb b eq_refl Hp) as (b' & -> & ? & ?).
  - by rewrite account_at_other.
Qed.
Lemma kept_update a f :
  (∀ b, 0 < db_Nonce (b_account b) → 0 < db_Nonce (b_account (f b)) ∧
     db_CodeSize (b_account (f b)) = db_CodeSize (b_account b)) → kept_step (update_body a f).
Proof.
  intros Hf s. unfold update_body, get_acc, mbind, M_bind.
  destruct (accounts s !! a) as [x|] eqn:E; [|done]. unfold deref.
  destruct (body x) as [b|] eqn:Eb; [|done]. apply (kept_set a x); [done|].
  rewrite Eb. intros ? [= <-] Hp. exists (f b). split; [done|]. by apply Hf.
Qed.
Lemma kept_puts f : (∀ s, accounts (f s) = accounts s) → kept_step (puts f).
Proof. intros Hf s. simpl. intros a. unfold nonce_at, code_size_at, account_at. by rewrite Hf. Qed.
Ltac kept_solve := first [by apply kept_puts | apply kept_update; by intros b Hb].
#[local] Hint Extern 2 (moves code_kept _ (puts _)) => kept_solve : moves.
#[local] Hint Extern 2 (moves code_kept _ (update_body _ _)) => kept_solve : moves.
#[local] Hint Resolve unseen_is_kept : moves.
Lemma kept_register a c : kept_step (register_change a c).
Proof. unfold register_change, RegisterChange. moves_solve. Qed.
#[local] Hint Resolve kept_register : moves.
Lemma kept_ensure_exists a : kept_step (ensure_exists a).
Proof.
  intros s. unfold ensure_exists, get_acc, mbind at 1, M_bind at 1.
  destruct (accounts s !! a) as [x|] eqn:E; [|done]. destruct (body x) as [b|] eqn:Eb; [done|].
  unfold mbind at 1, M_bind at 1. cbn -[register_change].
  lazymatch goal with |- context [register_change a ?c ?s1] => pose proof (kept_register a c s1) as Hk; destruct (register_change a c s1) as [[] s2] end; [|..|done].
  - etrans; [|done]. apply (kept_set a x); [done|]. by rewrite Eb.
  - etrans; [|done]. apply (kept_set a x); [done|]. by rewrite Eb.
Qed.
#[local] Hint Resolve kept_ensure_exists : moves.
Lemma kept_set_balance a v : kept_step (set_balance a v).
Proof. unfold set_balance. moves_solve. Qed.
#[local] Hint Resolve kept_set_balance : moves.
Lemma kept_AddBalance a v : kept_step (ts_AddBalance a v).
Proof. unfold ts_AddBalance. moves_solve. Qed.
Lemma kept_SubBalance a v : kept_step (ts_SubBalance a v).
Proof. unfold ts_SubBalance. moves_solve. Qed.
Lemma kept_SetState a k v : kept_step (ts_SetState inp a k v).
Proof. pose proof unseen_GetState. unfold ts_SetState. moves_solve. Qed.
#[local] Hint Resolve kept_AddBalance : moves.
Lemma kept_Suicide a n : kept_step (ts_Suicide inp a n).
Proof. unfold ts_Suicide. moves_solve. Qed.
Lemma kept_AddLog l : kept_step (ts_AddLog l).
Proof. unfold ts_AddLog, RegisterChange. moves_solve. Qed.
Lemma kept_AddRefund g : kept_step (ts_AddRefund g).
Proof. unfold ts_AddRefund, RegisterChange. moves_solve. Qed.
Lemma kept_SubRefund g : kept_step (ts_SubRefund g).
Proof. unfold ts_SubRefund, RegisterChange. moves_solve. Qed.
Lemma kept_SetTransientState a k v : kept_step (ts_SetTransientState a k v).
Proof. unfold ts_SetTransientState, ts_GetTransientState. moves_solve. Qed.
Lemma kept_SetStateRaw a k v : kept_step (ts_SetStateRawIrreversibly a k v).
Proof. unfold ts_SetStateRawIrreversibly. moves_solve. Qed.
Lemma set_nonce_run a v s x b :
  accounts s !! a = Some x → body x = Some b →
  set_nonce a v s = (Ret tt, set_journal (UndoNonce a (db_Nonce (b_account b)) :: journal s)
    (set_acct a (acc_with_body (Some (add_mods 1 (with_nonce v b))) x) s)).
Proof.
  intros E1 E2. unfold set_nonce. rewrite (bind_run _ _ s b s); [by apply update_register|].
  unfold the_body, get_body, get_acc, mbind, M_bind. by rewrite E1; simpl; rewrite E2.
Qed.
Lemma set_nonce_kept a v s x b :
  accounts s !! a = Some x → body x = Some b → db_Nonce (b_account b) <= v →
  code_kept s (set_nonce a v s).2 ∧ nonce_at (set_nonce a v s).2 a = v.
Proof.
  intros E1 E2 Hv. rewrite (set_nonce_run a v s x b E1 E2). simpl. split.
  - apply (kept_set a x); [done|]. rewrite E2. intros ? [= <-] Hp. eexists. split; [done|].
    simpl. split; [lia|done].
  - unfold nonce_at, account_at. simpl. by rewrite lookup_insert_eq.
Qed.
Lemma kept_SetNonce a v : kept_step (ts_SetNonce a v).
Proof.
  unfold ts_SetNonce. moves_step; [eauto with moves|]. apply moves_the_body. intros s x b E1 E2.
  unfold mbind, M_bind, panic_if. destruct (Z.ltb_spec v (db_Nonce (b_account b))) as [|Hv]; [done|].
  destruct (set_nonce_kept a v s x b E1 E2 Hv) as [Hk _].
  simpl. by destruct (set_nonce a v s) as [[] ?].
Qed.
(** The next nonce of an account. *)
Lemma IncrementNonce_spec a s :
  match ts_IncrementNonce a s with
  | (Ret _, s') => code_kept s s' ∧ nonce_at s' a = nonce_at s a + 1
  | (Err _, _) => False
  | (Panic _, _) => True
  end.
Proof.
  unfold ts_IncrementNonce. pose proof (kept_ensure_exists a s) as Hk.
  pose proof (ensure_exists_spec a s) as He.
  assert (match ensure_exists a s with (Ret _, s') => nonce_at s' a = nonce_at s a | _ => True end) as Hn.
  { unfold ensure_exists, get_acc, mbind, M_bind.
    destruct (accounts s !! a) as [x|] eqn:E; [|done]. destruct (body x) as [b|] eqn:Eb; [done|].
    cbn -[register_change]. set (s1 := set_accounts _ s).
    rewrite (register_run a _ s1 _ (body_of empty_account) (set_acct_lookup a _ s) eq_refl).
    unfold nonce_at. rewrite (account_at_some _ _ _ E), Eb. unfold account_at. simpl.
    by rewrite lookup_insert_eq. }
  unfold mbind at 1, M_bind at 1. destruct (ensure_exists a s) as [[[]|e|e] s1]; [|done..].
  destruct He as (_ & _ & x & b & E1 & E2).
  rewrite (bind_run _ _ s1 b s1).
  2: { unfold the_body, get_body, get_acc, mbind, M_bind. by rewrite E1; simpl; rewrite E2. }
  destruct (set_nonce_kept a (db_Nonce (b_account b) + 1) s1 x b E1 E2 ltac:(lia)) as [Hk2 Hn2].
  rewrite (set_nonce_run a _ s1 x b E1 E2) in *. simpl in Hk2, Hn2. split; [by etrans|].
  rewrite Hn2, <- Hn. unfold nonce_at. by rewrite (account_at_some _ _ _ E1), E2.
Qed.
Lemma kept_IncrementNonce a : kept_step (ts_IncrementNonce a).
Proof.
  intros s. pose proof (IncrementNonce_spec a s) as Hi.
  destruct (ts_IncrementNonce a s) as [[]?]; [apply Hi|done..].
Qed.
Lemma GetNonce_spec a s : reads (ts_GetNonce a) s (nonce_at s a).
Proof.
  unfold reads, ts_GetNonce, get_body, get_acc, nonce_at, account_at, mbind, M_bind.
  destruct (accounts s !! a) as [x|]; [|done]. simpl. by destruct (body x).
Qed.
Lemma GetCodeSize_spec a s : reads (ts_GetCodeSize a) s (code_size_at s a).
Proof.
  unfold reads, ts_GetCodeSize, get_body, get_acc, code_size_at, account_at, mbind, M_bind.
  destruct (accounts s !! a) as [x|]; [|done]. simpl. by destruct (body x).
Qed.
(** The code of an account changes no other one. *)
Definition kept_but (a : address) (s s' : TS) : Prop :=
  ∀ a', a' ≠ a → account_at s' a' = account_at s a'.
#[export] Instance kept_but_preorder a : PreOrder (kept_but a).
Proof using Type*. split; [done|]. intros s1 s2 s3 A B a' Ha. by rewrite B, A. Qed.
Lemma SetCode_kept a c s : 
  match ts_SetCode a c s with (Panic _, _) => True | (_, s') => kept_but a s s' end.
Proof.
  unfold ts_SetCode. assert (match ensure_exists a s with (Panic _, _) => True | (_, s') => kept_but a s s' end) as Hk.
  { unfold ensure_exists, get_acc, mbind, M_bind.
    destruct (accounts s !! a) as [x|] eqn:E; [|done]. destruct (body x) as [b|] eqn:Eb; [done|].
    cbn -[register_change]. set (s1 := set_accounts _ s).
    rewrite (register_run a _ s1 _ (body_of empty_account) (set_acct_lookup a _ s) eq_refl).
    intros a' Ha. unfold account_at. simpl. by rewrite !lookup_insert_ne. }
  pose proof (ensure_exists_spec a s) as He.
  unfold mbind at 1, M_bind at 1. destruct (ensure_exists a s) as [[[]|e|e] s1]; [|done..].
  destruct He as (_ & _ & x & b & E1 & E2). destruct c as [|y c]; [done|].
  rewrite (register_update a _ _ s1 x b E1 E2). etrans; [done|].
  intros a' Ha. unfold account_at. simpl. by rewrite lookup_insert_ne.
Qed.

(** ** Steps that change nothing that is seen, but maybe create an empty account *)
Definition balance_at (s : TS) (a : address) : Z :=
  match account_at s a with Some b => db_Balance (b_account b) | None => 0 end.
(** The code and its hash, of an account that has code. *)
Definition code_at (s : TS) (a : address) : option (option bytes * option hash) :=
  match account_at s a with
  | Some b => if db_CodeSize (b_account b) =? 0 then None
              else Some (code_seen b, db_CodeHash (b_account b))
  | None => None
  end.
Definition suicided_at (s : TS) (a : address) : bool :=
  match account_at s a with Some b => suicided b | None => false end.
Definition raw_at (s : TS) (a : address) : gmap hash bytes :=
  match account_at s a with Some b => RawStorageDirty b | None => ∅ end.
Record alike_at (s s' : TS) (a : address) : Prop := {
  alike_balance : balance_at s' a = balance_at s a;
  alike_nonce : nonce_at s' a = nonce_at s a;
  alike_code : code_at s' a = code_at s a;
  alike_suicided : suicided_at s' a = suicided_at s a;
  alike_slots key : slot_at s' a key = slot_at s a key;
  alike_raw : raw = true → raw_at s' a = raw_at s a
}.
Record alike (s s' : TS) : Prop := {
  alike_accounts a : alike_at s s' a;
  alike_logs : ts_logs s' = ts_logs s;
  alike_refund : refund s' = refund s;
  alike_transient : transientStorage s' = transientStorage s
}.
#[export] Instance alike_at_preorder a : PreOrder (λ s s', alike_at s s' a).
Proof.
  split; [by split|]. intros s1 s2 s3 [] []. split; intros; [congruence..|].
  etrans; [|by auto]. by auto.
Qed.
#[export] Instance alike_preorder : PreOrder alike.
Proof.
  split; [by split|]. intros s1 s2 s3 [] []. split; [|congruence..].
  intros a. by apply (transitivity (R := λ s s', alike_at s s' a)) with s2.
Qed.
Lemma sees_alike s s' a :
  option_Forall2 (sees a) (account_at s a) (account_at s' a) → alike_at s s' a.
Proof.
  intros Hs. split; intros;
    unfold balance_at, nonce_at, code_at, suicided_at, slot_at, raw_at; destruct Hs as [b b' []|]; try by auto.
  replace (db_CodeSize (b_account b')) with (db_CodeSize (b_account b)) by congruence.
  destruct (Z.eqb_spec (db_CodeSize (b_account b)) 0); [done|].
  by rewrite sees_code0, sees_hash0.
Qed.
Lemma restores_alike s t :
  restores s t → transientStorage t = transientStorage s → alike s t.
Proof. intros [] Ht. split; [|done..]. intros a. by apply sees_alike. Qed.
Abbreviation alike_step := (moves alike anything).
Lemma unseen_is_alike {A} (m : M TS A) : unseen_step m → alike_step m.
Proof. intros Hm. apply (moves_impl _ _ _ Hm). intros ?? (?&?&?). by apply restores_alike. Qed.
#[local] Hint Resolve unseen_is_alike : moves.
Lemma alike_ensure_exists a : alike_step (ensure_exists a).
Proof.
  intros s. unfold ensure_exists, get_acc, mbind, M_bind.
  destruct (accounts s !! a) as [x|] eqn:E; [|done]. destruct (body x) as [b|] eqn:Eb; [done|].
  cbn -[register_change undo]. set (x1 := acc_with_flags _ _ _ _).
  set (s1 := set_accounts (<[a := x1]> (accounts s)) s).
  rewrite (register_run a _ s1 x1 (body_of empty_account) (set_acct_lookup a x1 s) eq_refl).
  split; [|done..]. intros a'.
  lazymatch goal with |- alike_at _ ?f _ =>
    assert (account_at f a' = if decide (a' = a) then Some (add_mods 1 (body_of empty_account))
                              else account_at s a') as Ha end.
  { unfold account_at. simpl. case_decide; subst; rewrite ?lookup_insert_eq; [done|].
    by rewrite !lookup_insert_ne. }
  case_decide; subst.
  - split; intros; unfold balance_at, nonce_at, code_at, suicided_at, slot_at, raw_at; rewrite Ha;
      by rewrite (account_at_some _ _ _ E), Eb.
  - apply sees_alike. rewrite Ha. by destruct (account_at s a'); constructor.
Qed.
#[local] Hint Resolve alike_ensure_exists : moves.
Lemma alike_mods a n : alike_step (update_body a (add_mods n)).
Proof. apply unseen_is_alike, unseen_update. intros b. apply sees_counts. Qed.
Lemma alike_touches a n : alike_step (update_body a (add_touches n)).
Proof. apply unseen_is_alike, unseen_update. intros b. apply sees_counts. Qed.
#[local] Hint Resolve alike_mods alike_touches : moves.
Lemma alike_register a c : alike_step (register_change a c).
Proof. 
  assert (∀ c, alike_step (RegisterChange c)) by (intros ? s; by split).
  unfold register_change. moves_solve.
Qed.
#[local] Hint Resolve alike_register : moves.
Lemma alike_touch a : alike_step (ts_AddBalance a 0).
Proof. unfold ts_AddBalance. simpl negb. cbv iota. moves_solve. Qed.
Lemma alike_SubBalance a : alike_step (ts_SubBalance a 0).
Proof. unfold ts_SubBalance. do 2 (moves_step; [eauto with moves|]). apply (moves_ret alike). Qed.
(** The transient storage is not in the journal. *)
Lemma undo_transient c s : transientStorage (undo c s).2 = transientStorage s.
Proof.
  assert (∀ a f s, transientStorage (update_body a f s).2 = transientStorage s) as Hu.
  { intros a f s1. unfold update_body, get_acc, mbind, M_bind.
    destruct (accounts s1 !! a) as [x|]; [|done]. simpl. unfold deref. by destruct (body x). }
  unfold undo, mbind, M_bind.
  destruct c; try done;
    (lazymatch goal with |- context [update_body ?a ?f ?s0] =>
       pose proof (Hu a f s0) as H1; destruct (update_body a f s0) as [[]s1]; [|done..] end);
    try (rewrite Hu; exact H1).
  unfold get_acc. destruct (accounts s1 !! a); [|done]. done.
Qed.
Lemma revert_transient n s : transientStorage (ts_RevertToSnapshot n s).2 = transientStorage s.
Proof.
  unfold ts_RevertToSnapshot, gets, mbind, M_bind. generalize (take (length (journal s) - n) (journal s)).
  intros l. assert (transientStorage (for_each l undo s).2 = transientStorage s) as Hl.
  { revert s. induction l as [|c l IH]; intros s; [done|]. simpl. unfold mbind, M_bind.
    pose proof (undo_transient c s) as Hc. destruct (undo c s) as [[[]|e|e] s1]; [|done..].
    simpl in Hc. by rewrite IH. }
  by destruct (for_each l undo s) as [[]s1].
Qed.
End facts.
