(* ===== verification/StateEvmJournal.v ===== *)
(** The accounts under execution keep what the virtual machine is promised: their operations end
    ([EvmStateEnds]) and their journal undoes what they change ([EvmJournal]).  Of the slots written
    past the journal ([SetStateRawIrreversibly]) the promise speaks in one of two ways: with [raw]
    they are part of the accounts, and then a step that writes one is not in the journal; without
    it they are not looked at, and such a step is. *)
From S2P Require Import Prelude Codec Rlp Uint256 Storage EvmMemory EvmAnalysis EvmInterface.
From S2P Require Import EvmMachine EvmInstructions EvmRun EvmFacts EvmGas EvmJournal.
From S2P Require Import StateEvm StateEvmFacts.

Section instances.
Context `{Keccak} (inp : Input).

Lemma ends_get_acc a : ends (get_acc a).
Proof. intros s. unfold get_acc. by destruct (accounts s !! a). Qed.
Lemma ends_gets {A} (f : TS → A) : ends (gets f).
Proof. done. Qed.
Lemma ends_puts f : ends (puts f).
Proof. done. Qed.
Lemma ends_GetAccountConcrete a : ends (GetAccountConcrete inp a).
Proof. intros s. unfold GetAccountConcrete. by repeat case_match; simplify_eq. Qed.
#[local] Hint Resolve ends_get_acc ends_gets ends_puts ends_GetAccountConcrete : moves.
Lemma ends_undo c : ends (undo c).
Proof. destruct c; simpl; unfold update_body, put_acc; moves_solve. Qed.
#[local] Hint Resolve ends_undo : moves.
#[global] Instance transition_state_ends : EvmStateEnds TS (EvmState0 := transition_state inp).
Proof.
  split; simpl; intros;
    unfold ts_GetBalance, ts_GetNonce, ts_GetCodeHash, ts_GetCode, ts_GetCodeSize,
      ts_GetCommittedState, ts_HasSuicided, ts_IsNIL, ts_IsEIP161Empty, ts_SetCode,
      ts_SubBalance, ts_IncrementNonce, ts_SetNonce, ts_SetState, ts_Suicide, ts_AddLog,
      ts_AddRefund, ts_SubRefund, ts_RevertToSnapshot, ts_Snapshot, ts_SetTransientState,
      ts_GetTransientState, ts_AddBalance, ts_GetState, get_committed_state, read_slot, ensure_exists,
      set_balance, set_nonce, register_change, RegisterChange, the_body, get_body, update_body,
      put_acc; moves_solve.
Qed.
Lemma transition_state_refund : yields is_u64 (GetRefund (EvmState := transition_state inp)).
Proof. intros s. apply u64_range. Qed.

(** ** The journal *)
Context (raw : bool).
Definition ts_changed (s s' : TS) : Prop := logged inp raw s s' ∧ code_kept inp s s'.
#[export] Instance ts_changed_preorder : PreOrder ts_changed.
Proof. split; [by split|]. intros ??? [??] [??]. by split; etrans. Qed.
Lemma both_changed {A} (m : M TS A) :
  moves (logged inp raw) (λ _, True) m → moves (code_kept inp) (λ _, True) m →
  moves ts_changed (λ _, True) m.
Proof.
  intros H1 H2 s. specialize (H1 s). specialize (H2 s). by destruct (m s) as [[]?].
Qed.
(** A contract may write past the journal where that is not looked at. *)
Lemma raw_write_changed a k v :
  raw = false → moves ts_changed (λ _, True) (ts_SetStateRawIrreversibly a k v).
Proof. intros Hr. apply both_changed; [by apply logged_SetStateRaw|apply (kept_SetStateRaw inp raw)]. Qed.
(** The journal is cut at the length it had. *)
Lemma ts_revert n s s0 s1 :
  ts_Snapshot s = (Ret n, s0) → ts_changed s0 s1 →
  ∃ t, ts_RevertToSnapshot n s1 = (Ret tt, t) ∧ restores inp raw s0 t ∧ ts_changed s0 t ∧
       (StateEvmFacts.alike inp raw s0 s1 → StateEvmFacts.alike inp raw s0 t).
Proof.
  intros [= <- <-] [Hl _]. destruct (logged_revert _ _ _ _ Hl) as (t & E & Hr & Hj).
  exists t. split_and!; [done|done|split; [by apply unseen_logged|by eapply restores_kept]|].
  intros Ha. apply restores_alike; [done|].
  pose proof (revert_transient raw (length (journal s)) s1) as Ht. rewrite E in Ht. simpl in Ht.
  rewrite Ht. apply Ha.
Qed.
Lemma read_value {A} (m : M TS A) (f : TS → A) s v s' :
  (∀ s, reads inp raw m s (f s)) → (∀ s s', StateEvmFacts.unseen inp raw s s' → f s' = f s) →
  m s = (Ret v, s') → f s' = v.
Proof.
  intros Hm Hf E. specialize (Hm s). unfold reads in Hm. rewrite E in Hm. destruct Hm as [-> Hu].
  by apply Hf.
Qed.
Lemma unseen_nonce_at s s' a : StateEvmFacts.unseen inp raw s s' → nonce_at inp s' a = nonce_at inp s a.
Proof.
  intros (Hr & _ & Ht). by destruct (alike_accounts _ _ _ _ (restores_alike _ _ _ _ Hr Ht) a).
Qed.
Lemma unseen_size_at s s' a :
  StateEvmFacts.unseen inp raw s s' → code_size_at inp s' a = code_size_at inp s a.
Proof.
  intros ([_ Ha _ _] & _). unfold code_size_at. specialize (Ha a). by destruct Ha as [b b' []|].
Qed.
Lemma ts_SetCode_changed a c s0 s :
  ts_changed s0 s → nonce_at inp s0 a <= 0 → code_size_at inp s a = 0 →
  match ts_SetCode a c s with (Panic _, _) => True | (_, s') => ts_changed s0 s' end.
Proof.
  intros [Hl Hk] Hn Hc. pose proof (logged_SetCode inp raw a c s Hc) as Hl'.
  pose proof (SetCode_kept inp raw a c s) as Hb.
  assert (∀ s', kept_but inp a s s' → code_kept inp s0 s') as Hout.
  { intros s' Hs' a' Ha'. destruct (decide (a' = a)) as [->|Hne]; [lia|].
    unfold nonce_at, code_size_at in *. rewrite (Hs' a' Hne). by apply Hk. }
  destruct (ts_SetCode a c s) as [[u|x|x] s']; [| |done]; (split; [by etrans|by apply Hout]).
Qed.
Lemma ts_IncrementNonce_value a s s' u :
  ts_IncrementNonce a s = (Ret u, s') →
  nonce_at inp s' a = nonce_at inp s a + 1 ∧ code_size_at inp s' a = code_size_at inp s a.
Proof.
  intros E. pose proof (IncrementNonce_spec inp false a s) as Hn. rewrite E in Hn. split; [apply Hn|].
  unfold ts_IncrementNonce in E. pose proof (ensure_exists_spec inp false a s) as He.
  apply bind_ret_inv in E as ([] & s1 & E1 & E). rewrite E1 in He. destruct He as (_ & <- & x & b & X1 & X2).
  apply bind_ret_inv in E as (b' & s2 & E2 & E).
  unfold the_body, get_body, get_acc, mbind, M_bind in E2. rewrite X1 in E2. simpl in E2.
  rewrite X2 in E2. injection E2 as <- <-. rewrite (set_nonce_run false a _ s1 x b X1 X2) in E.
  injection E as _ <-. unfold code_size_at, account_at. simpl. by rewrite lookup_insert_eq, X1, X2.
Qed.
#[local] Hint Resolve unseen_GetAccount unseen_gets unseen_get_body unseen_the_body
  unseen_committed unseen_GetState unseen_GetCode unseen_HasSuicided : moves.
#[global] Instance transition_state_journal : EvmJournal TS (EvmState0 := transition_state inp).
Proof using Type* raw.
  unshelve eapply (Build_EvmJournal TS (transition_state inp) (StateEvmFacts.unseen inp raw) ts_changed
    (StateEvmFacts.alike inp raw) (restores inp raw) (nonce_at inp) (code_size_at inp)).
  all: try apply _; simpl.
  - intros s t (?&?&?). split; [by apply unseen_logged|by eapply restores_kept].
  - intros s t (?&?&?). by apply restores_alike.
  - by intros s t (?&?&?).
  - intros s t a Hu. split; [by apply unseen_nonce_at|by apply unseen_size_at].
  - intros s t a [_ Hk]. apply Hk.
  - intros. moves_solve.
  - intros. unfold ts_GetBalance. moves_solve.
  - intros. unfold ts_GetNonce. moves_solve.
  - intros. unfold ts_GetCodeHash. moves_solve.
  - intros. apply unseen_GetCode.
  - intros. unfold ts_GetCodeSize. moves_solve.
  - intros. apply unseen_committed.
  - intros. apply unseen_GetState.
  - intros. apply unseen_HasSuicided.
  - intros. unfold ts_IsNIL. moves_solve.
  - intros. unfold ts_IsEIP161Empty. moves_solve.
  - apply unseen_gets.
  - apply unseen_gets.
  - apply unseen_gets.
  - intros. apply unseen_gets.
  - intros a s n s' E. apply (read_value (ts_GetNonce a) (λ s, nonce_at inp s a) s n s'); [| |done].
    + intros. apply GetNonce_spec.
    + intros. by apply unseen_nonce_at.
  - intros a s n s' E.
    apply (read_value (ts_GetCodeSize a) (λ s, code_size_at inp s a) s n s'); [| |done].
    + intros. apply GetCodeSize_spec.
    + intros. by apply unseen_size_at.
  - intros. apply both_changed; [apply logged_AddBalance|apply (kept_AddBalance inp raw)].
  - intros. apply both_changed; [apply logged_SubBalance|apply (kept_SubBalance inp raw)].
  - intros. apply both_changed; [apply logged_IncrementNonce|apply (kept_IncrementNonce inp raw)].
  - intros. apply both_changed; [apply logged_SetNonce|apply (kept_SetNonce inp raw)].
  - intros. apply both_changed; [apply logged_SetState|apply (kept_SetState inp raw)].
  - intros. apply both_changed; [apply logged_Suicide|apply (kept_Suicide inp raw)].
  - intros. apply both_changed; [apply logged_AddLog|apply (kept_AddLog inp raw)].
  - intros. apply both_changed; [apply logged_AddRefund|apply (kept_AddRefund inp raw)].
  - intros. apply both_changed; [apply logged_SubRefund|apply (kept_SubRefund inp raw)].
  - intros. apply both_changed; [apply logged_SetTransientState|apply (kept_SetTransientState inp raw)].
  - intros. apply alike_touch.
  - intros. apply alike_SubBalance.
  - intros a s s' u. apply ts_IncrementNonce_value.
  - intros a c s0 s. apply ts_SetCode_changed.
  - intros n s s0 s1. apply ts_revert.
Defined.
End instances.
