(* ===== verification/EvmPrecompiles.v ===== *)
(** The standard precompiled contracts (core/vm/contracts.go): their gas, the decoding of their
    inputs and the encoding of their results, and the table they are looked up in.  The hashes
    and the elliptic curves they call are libraries and a parameter here. *)
From Stdlib Require Import Zpow_facts.
From S2P Require Import Prelude Codec Uint256 Storage EvmMemory EvmInterface EvmMachine.
From S2P Require Import EvmInstructions EvmRun.

(** ** The libraries *)
(** What the libraries fail with is an error, never a panic. *)
Class Crypto := {
  Sum256 : bytes → bytes;
  ripemd160_Sum : bytes → bytes;
  RecoverPubkey : bytes → bytes → string + bytes;
  (** bn256 *)
  bn_G1 : Type;
  bn_G2 : Type;
  bn_G1_Unmarshal : bytes → string + bn_G1;
  bn_G2_Unmarshal : bytes → string + bn_G2;
  bn_G1_Add : bn_G1 → bn_G1 → bn_G1;
  bn_G1_ScalarMult : bn_G1 → Z → bn_G1;
  bn_G1_Marshal : bn_G1 → bytes;
  bn_PairingCheck : list bn_G1 → list bn_G2 → bool;
  (** [blake2b.F] *)
  blake2b_F : list Z → list Z → list Z → bool → Z → list Z;
  (** gnark-crypto's bls12-381 *)
  fp : Type;
  fr : Type;
  fp_Element : bytes → string + fp;
  fp_PutElement : fp → bytes;
  fr_SetBytes : bytes → fr;
  G1_IsOnCurve : fp * fp → bool;
  G1_Add : fp * fp → fp * fp → fp * fp;
  G1_ScalarMultiplication : fp * fp → Z → fp * fp;
  G1_MultiExp : list (fp * fp) → list fr → fp * fp;
  G1_IsInSubGroup : fp * fp → bool;
  G2_IsOnCurve : (fp * fp) * (fp * fp) → bool;
  G2_Add : (fp * fp) * (fp * fp) → (fp * fp) * (fp * fp) → (fp * fp) * (fp * fp);
  G2_ScalarMultiplication : (fp * fp) * (fp * fp) → Z → (fp * fp) * (fp * fp);
  G2_MultiExp : list ((fp * fp) * (fp * fp)) → list fr → (fp * fp) * (fp * fp);
  G2_IsInSubGroup : (fp * fp) * (fp * fp) → bool;
  bls_PairingCheck : list (fp * fp) → list ((fp * fp) * (fp * fp)) → string + bool;
  MapToG1 : fp → fp * fp;
  MapToG2 : fp * fp → (fp * fp) * (fp * fp)
}.
Definition of_result {S A} (x : string + A) : M S A :=
  match x with inl e => throw e | inr a => mret a end.

(** ** constants.go *)
Definition EcrecoverGas : Z := 3000.
Definition Sha256BaseGas : Z := 60.
Definition Sha256PerWordGas : Z := 12.
Definition Ripemd160BaseGas : Z := 600.
Definition Ripemd160PerWordGas : Z := 120.
Definition IdentityBaseGas : Z := 15.
Definition IdentityPerWordGas : Z := 3.
Definition ModExpQuadCoeffDiv : Z := 20.
Definition Bn256AddGas : Z := 500.
Definition Bn256ScalarMulGas : Z := 40000.
Definition Bn256PairingBaseGas : Z := 100000.
Definition Bn256PairingPerPointGas : Z := 80000.
Definition Bls12381G1AddGas : Z := 600.
Definition Bls12381G1MulGas : Z := 12000.
Definition Bls12381G2AddGas : Z := 4500.
Definition Bls12381G2MulGas : Z := 55000.
Definition Bls12381PairingBaseGas : Z := 115000.
Definition Bls12381PairingPerPairGas : Z := 23000.
Definition Bls12381MapG1Gas : Z := 5500.
Definition Bls12381MapG2Gas : Z := 110000.
Definition Bls12381MultiExpDiscountTable : list Z :=
  [1200; 888; 764; 641; 594; 547; 500; 453; 438; 423; 408; 394; 379; 364; 349; 334; 330; 326; 322;
   318; 314; 310; 306; 302; 298; 294; 289; 285; 281; 277; 273; 269; 268; 266; 265; 263; 262; 260;
   259; 257; 256; 254; 253; 251; 250; 248; 247; 245; 244; 242; 241; 239; 238; 236; 235; 233; 232;
   231; 229; 228; 226; 225; 223; 222; 221; 220; 219; 219; 218; 217; 216; 216; 215; 214; 213; 213;
   212; 211; 211; 210; 209; 208; 208; 207; 206; 205; 205; 204; 203; 202; 202; 201; 200; 199; 199;
   198; 197; 196; 196; 195; 194; 193; 193; 192; 191; 191; 190; 189; 188; 188; 187; 186; 185; 185;
   184; 183; 182; 182; 181; 180; 179; 179; 178; 177; 176; 176; 175; 174].

(** ** Helpers *)
(** [input[a:b]] of an input known to be long enough *)
Definition part (a b : Z) (input : bytes) : bytes :=
  take (Z.to_nat (b - a)) (drop (Z.to_nat a) input).
Definition ilen (input : bytes) : Z := Z.of_nat (length input).
(** [common.LeftPadBytes] *)
Definition LeftPadBytes (b : bytes) (l : Z) : bytes :=
  if l <=? Z.of_nat (length b) then b else zeros (l - Z.of_nat (length b)) ++ b.
(** [big.Int.BitLen] of a natural number *)
Definition BitLen (x : Z) : Z := if x =? 0 then 0 else Z.log2 x + 1.
(** [big.Int.Exp] with a modulus that is not zero *)
Definition big_Exp (x y m : Z) : Z := Zpow_mod x y m.

(** [crypto.ValidateSignatureValues] *)
Definition secp256k1N : Z := 0xfffffffffffffffffffffffffffffffebaaedce6af48a03bbfd25e8cd0364141.
Definition secp256k1halfN : Z := secp256k1N / 2.
Definition ValidateSignatureValues (v r s : Z) (homestead : bool) : bool :=
  if (r <? 1) || (s <? 1) then false
  else if homestead && (secp256k1halfN <? s) then false
  else (r <? secp256k1N) && (s <? secp256k1N) && ((v =? 0) || (v =? 1)).

(** [binary.BigEndian.Uint32] and [binary.LittleEndian.Uint64] *)
Definition be_Uint32 (b : bytes) : Z := u32 (be_val b).
Definition le_Uint64 (b : bytes) : Z := u64 (le_dec b).

Section contracts.
Context `{Keccak} `{Crypto} {S : Type}.
Abbreviation R := (M S retdata).

(** ** ecrecover *)
Definition ecrecover_Run (input : bytes) : R :=
  let input := RightPadBytes input 128 in
  let r := be_val (part 64 96 input) in
  let s := be_val (part 96 128 input) in
  let v := u8 (nth 63 input 0 - 27) in
  if negb (allZero (part 32 63 input)) || negb (ValidateSignatureValues v r s false) then
    mret (Fresh [])
  else
    match RecoverPubkey (part 0 32 input) (part 64 128 input ++ [v]) with
    | inl _ => mret (Fresh [])
    | inr pubKey => mret (Fresh (LeftPadBytes (drop 12 (keccak (drop 1 pubKey))) 32))
    end.

(** ** Hashes and the copy *)
Definition word_gas (input : bytes) (perWord base : Z) : Z :=
  u64 (u64 (ilen input + 31) / 32 * perWord + base).
Definition sha256hash_RequiredGas (input : bytes) : Z := word_gas input Sha256PerWordGas Sha256BaseGas.
Definition sha256hash_Run (input : bytes) : R := mret (Fresh (Sum256 input)).
Definition ripemd160hash_RequiredGas (input : bytes) : Z :=
  word_gas input Ripemd160PerWordGas Ripemd160BaseGas.
Definition ripemd160hash_Run (input : bytes) : R :=
  mret (Fresh (LeftPadBytes (ripemd160_Sum input) 32)).
Definition dataCopy_RequiredGas (input : bytes) : Z :=
  word_gas input IdentityPerWordGas IdentityBaseGas.
Definition dataCopy_Run (input : bytes) : R := mret SameAsInput.

(** ** bigModExp *)
(** The three lengths at the start of the input, and what follows them. *)
Definition modexp_head (i : Z) (input : bytes) : M S Z :=
  d ← of_outcome (getData input i 32); mret (be_val d).
Definition modexp_rest (input : bytes) : bytes :=
  if 96 <? ilen input then drop 96 input else [].
Definition modexp_multGas (gas : Z) : Z :=
  if gas <=? 64 then gas * gas
  else if gas <=? 1024 then gas * gas / 4 + (96 * gas - 3072)
  else gas * gas / 16 + (480 * gas - 199680).
Definition bigModExp_RequiredGas (input : bytes) : M S Z :=
  baseLen ← modexp_head 0 input;
  expLen ← modexp_head 32 input;
  modLen ← modexp_head 64 input;
  let input := modexp_rest input in
  expHead ← (if ilen input <=? baseLen then mret 0
             else
               d ← of_outcome (getData input (u64 baseLen) (if 32 <? expLen then 32 else u64 expLen));
               mret (be_val d));
  let msb := if 0 <? BitLen expHead then BitLen expHead - 1 else 0 in
  let adjExpLen := (if 32 <? expLen then 8 * (expLen - 32) else 0) + msb in
  let gas := modexp_multGas (Z.max modLen baseLen) * Z.max adjExpLen 1 / ModExpQuadCoeffDiv in
  mret (if 64 <? BitLen gas then 2 ^ 64 - 1 else u64 gas).
Definition bigModExp_Run (input : bytes) : R :=
  baseLen ← modexp_head 0 input;
  expLen ← modexp_head 32 input;
  modLen ← modexp_head 64 input;
  let baseLen := u64 baseLen in
  let expLen := u64 expLen in
  let modLen := u64 modLen in
  let input := modexp_rest input in
  if (baseLen =? 0) && (modLen =? 0) then mret (Fresh [])
  else
    base ← of_outcome (getData input 0 baseLen);
    exp ← of_outcome (getData input baseLen expLen);
    modulus ← of_outcome (getData input (u64 (baseLen + expLen)) modLen);
    if BitLen (be_val modulus) =? 0 then mret (Fresh (LeftPadBytes [] (to_int64 modLen)))
    else mret (Fresh (LeftPadBytes (big_Bytes (big_Exp (be_val base) (be_val exp) (be_val modulus)))
                        (to_int64 modLen))).

(** ** bn256 *)
Definition newCurvePoint (blob : bytes) : M S bn_G1 := of_result (bn_G1_Unmarshal blob).
Definition newTwistPoint (blob : bytes) : M S bn_G2 := of_result (bn_G2_Unmarshal blob).
Definition bn256Add_Run (input : bytes) : R :=
  d ← of_outcome (getData input 0 64); x ← newCurvePoint d;
  d ← of_outcome (getData input 64 64); y ← newCurvePoint d;
  mret (Fresh (bn_G1_Marshal (bn_G1_Add x y))).
Definition bn256ScalarMul_Run (input : bytes) : R :=
  d ← of_outcome (getData input 0 64); p ← newCurvePoint d;
  d ← of_outcome (getData input 64 32);
  mret (Fresh (bn_G1_Marshal (bn_G1_ScalarMult p (be_val d)))).
Definition true32Byte : bytes := zeros 31 ++ [1].
Definition false32Byte : bytes := zeros 32.
Definition errBadPairingInput : string := "bad elliptic curve pairing size".
Definition bn256Pairing_RequiredGas (input : bytes) : Z :=
  u64 (Bn256PairingBaseGas + ilen input / 192 * Bn256PairingPerPointGas).
(** The indices of [k] chunks of [size] bytes. *)
Definition chunks (size : Z) (k : Z) : list Z := map (λ i, Z.of_nat i * size) (seq 0 (Z.to_nat k)).
Definition bn256Pairing_Run (input : bytes) : R :=
  if 0 <? ilen input mod 192 then throw errBadPairingInput
  else
    pairs ← map_m (chunks 192 (ilen input / 192)) (λ i,
      c ← newCurvePoint (part i (i + 64) input);
      t ← newTwistPoint (part (i + 64) (i + 192) input);
      mret (c, t));
    mret (Fresh (if bn_PairingCheck (map fst pairs) (map snd pairs) then true32Byte else false32Byte)).

(** ** blake2F *)
Definition blake2FInputLength : Z := 213.
Definition blake2FFinalBlockBytes : Z := 1.
Definition blake2FNonFinalBlockBytes : Z := 0.
Definition errBlake2FInvalidInputLength : string := "invalid input length".
Definition errBlake2FInvalidFinalFlag : string := "invalid final flag".
Definition blake2F_RequiredGas (input : bytes) : Z :=
  if negb (ilen input =? blake2FInputLength) then 0 else be_Uint32 (part 0 4 input).
(** [n] little-endian words of 64 bits from [offset] on *)
Definition words64 (n : nat) (offset : Z) (input : bytes) : list Z :=
  map (λ i, let o := offset + Z.of_nat i * 8 in le_Uint64 (part o (o + 8) input)) (seq 0 n).
Definition blake2F_Run (input : bytes) : R :=
  if negb (ilen input =? blake2FInputLength) then throw errBlake2FInvalidInputLength
  else
    let flag := nth 212 input 0 in
    if negb (flag =? blake2FNonFinalBlockBytes) && negb (flag =? blake2FFinalBlockBytes) then
      throw errBlake2FInvalidFinalFlag
    else
      let rounds := be_Uint32 (part 0 4 input) in
      let final := flag =? blake2FFinalBlockBytes in
      let h := words64 8 4 input in
      let m := words64 16 68 input in
      let t := words64 2 196 input in
      let h := blake2b_F h m t final rounds in
      mret (Fresh (concat (map (λ i, le_enc 8 (nth i h 0)) (seq 0 8)))).

(** ** bls12-381 *)
Definition errBLS12381InvalidInputLength : string := "invalid input length".
Definition errBLS12381InvalidFieldElementTopBytes : string := "invalid field element top bytes".
Definition errBLS12381G1PointSubgroup : string := "g1 point is not on correct subgroup".
Definition errBLS12381G2PointSubgroup : string := "g2 point is not on correct subgroup".
Abbreviation G1Affine := (fp * fp)%type.
Abbreviation G2Affine := ((fp * fp) * (fp * fp))%type.

Definition decodeBLS12381FieldElement (input : bytes) : M S fp :=
  fail_if (negb (ilen input =? 64)) "invalid field element length" ;;
  fail_if (negb (allZero (part 0 16 input))) errBLS12381InvalidFieldElementTopBytes ;;
  of_result (fp_Element (part 16 64 input)).
Definition decodePointG1 (input : bytes) : M S G1Affine :=
  fail_if (negb (ilen input =? 128)) "invalid g1 point length" ;;
  x ← decodeBLS12381FieldElement (part 0 64 input);
  y ← decodeBLS12381FieldElement (part 64 128 input);
  fail_if (negb (G1_IsOnCurve (x, y))) "invalid point: not on curve" ;;
  mret (x, y).
Definition decodePointG2 (input : bytes) : M S G2Affine :=
  fail_if (negb (ilen input =? 256)) "invalid g2 point length" ;;
  x0 ← decodeBLS12381FieldElement (part 0 64 input);
  x1 ← decodeBLS12381FieldElement (part 64 128 input);
  y0 ← decodeBLS12381FieldElement (part 128 192 input);
  y1 ← decodeBLS12381FieldElement (part 192 256 input);
  fail_if (negb (G2_IsOnCurve ((x0, x1), (y0, y1)))) "invalid point: not on curve" ;;
  mret ((x0, x1), (y0, y1)).
Definition encode_fp (x : fp) : bytes := zeros 16 ++ fp_PutElement x.
Definition encodePointG1 (p : G1Affine) : bytes := encode_fp p.1 ++ encode_fp p.2.
Definition encodePointG2 (p : G2Affine) : bytes :=
  encode_fp p.1.1 ++ encode_fp p.1.2 ++ encode_fp p.2.1 ++ encode_fp p.2.2.
Definition check_length (b : bool) : M S unit := fail_if (negb b) errBLS12381InvalidInputLength.

Definition bls12381G1Add_Run (input : bytes) : R :=
  check_length (ilen input =? 256) ;;
  p0 ← decodePointG1 (part 0 128 input);
  p1 ← decodePointG1 (part 128 256 input);
  mret (Fresh (encodePointG1 (G1_Add p0 p1))).
Definition bls12381G1Mul_Run (input : bytes) : R :=
  check_length (ilen input =? 160) ;;
  p0 ← decodePointG1 (part 0 128 input);
  let e := be_val (part 128 160 input) in
  mret (Fresh (encodePointG1 (G1_ScalarMultiplication p0 e))).
Definition multiExp_RequiredGas (size mulGas : Z) (input : bytes) : Z :=
  let k := ilen input / size in
  if k =? 0 then 0
  else
    let maxDiscountLen := Z.of_nat (length Bls12381MultiExpDiscountTable) in
    let k := if maxDiscountLen <? k then maxDiscountLen else k in
    let discount := nth (Z.to_nat (k - 1)) Bls12381MultiExpDiscountTable 0 in
    u64 (k * mulGas * discount) / 1000.
Definition bls12381G1MultiExp_RequiredGas : bytes → Z := multiExp_RequiredGas 160 Bls12381G1MulGas.
Definition bls12381G1MultiExp_Run (input : bytes) : R :=
  check_length (negb (ilen input =? 0) && (ilen input mod 160 =? 0)) ;;
  pairs ← map_m (chunks 160 (ilen input / 160)) (λ off,
    p ← decodePointG1 (part off (off + 128) input);
    mret (p, fr_SetBytes (part (off + 128) (off + 160) input)));
  mret (Fresh (encodePointG1 (G1_MultiExp (map fst pairs) (map snd pairs)))).
Definition bls12381G2Add_Run (input : bytes) : R :=
  check_length (ilen input =? 512) ;;
  p0 ← decodePointG2 (part 0 256 input);
  p1 ← decodePointG2 (part 256 512 input);
  mret (Fresh (encodePointG2 (G2_Add p0 p1))).
Definition bls12381G2Mul_Run (input : bytes) : R :=
  check_length (ilen input =? 288) ;;
  p0 ← decodePointG2 (part 0 256 input);
  let e := be_val (part 256 288 input) in
  mret (Fresh (encodePointG2 (G2_ScalarMultiplication p0 e))).
Definition bls12381G2MultiExp_RequiredGas : bytes → Z := multiExp_RequiredGas 288 Bls12381G2MulGas.
Definition bls12381G2MultiExp_Run (input : bytes) : R :=
  check_length (negb (ilen input =? 0) && (ilen input mod 288 =? 0)) ;;
  pairs ← map_m (chunks 288 (ilen input / 288)) (λ off,
    p ← decodePointG2 (part off (off + 256) input);
    mret (p, fr_SetBytes (part (off + 256) (off + 288) input)));
  mret (Fresh (encodePointG2 (G2_MultiExp (map fst pairs) (map snd pairs)))).
Definition bls12381Pairing_RequiredGas (input : bytes) : Z :=
  u64 (Bls12381PairingBaseGas + ilen input / 384 * Bls12381PairingPerPairGas).
Definition bls12381Pairing_Run (input : bytes) : R :=
  check_length (negb (ilen input =? 0) && (ilen input mod 384 =? 0)) ;;
  pairs ← map_m (chunks 384 (ilen input / 384)) (λ off,
    p1 ← decodePointG1 (part off (off + 128) input);
    p2 ← decodePointG2 (part (off + 128) (off + 384) input);
    fail_if (negb (G1_IsInSubGroup p1)) errBLS12381G1PointSubgroup ;;
    fail_if (negb (G2_IsInSubGroup p2)) errBLS12381G2PointSubgroup ;;
    mret (p1, p2));
  mret (Fresh (match bls_PairingCheck (map fst pairs) (map snd pairs) with
               | inr true => zeros 31 ++ [1]
               | _ => zeros 32
               end)).
Definition bls12381MapG1_Run (input : bytes) : R :=
  check_length (ilen input =? 64) ;;
  fe ← decodeBLS12381FieldElement input;
  mret (Fresh (encodePointG1 (MapToG1 fe))).
Definition bls12381MapG2_Run (input : bytes) : R :=
  check_length (ilen input =? 128) ;;
  c0 ← decodeBLS12381FieldElement (part 0 64 input);
  c1 ← decodeBLS12381FieldElement (part 64 128 input);
  mret (Fresh (encodePointG2 (MapToG2 (c0, c1)))).
End contracts.

(** ** The contracts and their table *)
Inductive standard : Type :=
| ecrecover | sha256hash | ripemd160hash | dataCopy | bigModExp | bn256Add | bn256ScalarMul
| bn256Pairing | blake2F | bls12381G1Add | bls12381G1Mul | bls12381G1MultiExp | bls12381G2Add
| bls12381G2Mul | bls12381G2MultiExp | bls12381Pairing | bls12381MapG1 | bls12381MapG2.

Section table.
Context `{Keccak} `{Crypto}.
Definition standard_gas {S} (p : standard) (input : bytes) : M S Z :=
  match p with
  | ecrecover => mret EcrecoverGas
  | sha256hash => mret (sha256hash_RequiredGas input)
  | ripemd160hash => mret (ripemd160hash_RequiredGas input)
  | dataCopy => mret (dataCopy_RequiredGas input)
  | bigModExp => bigModExp_RequiredGas input
  | bn256Add => mret Bn256AddGas
  | bn256ScalarMul => mret Bn256ScalarMulGas
  | bn256Pairing => mret (bn256Pairing_RequiredGas input)
  | blake2F => mret (blake2F_RequiredGas input)
  | bls12381G1Add => mret Bls12381G1AddGas
  | bls12381G1Mul => mret Bls12381G1MulGas
  | bls12381G1MultiExp => mret (bls12381G1MultiExp_RequiredGas input)
  | bls12381G2Add => mret Bls12381G2AddGas
  | bls12381G2Mul => mret Bls12381G2MulGas
  | bls12381G2MultiExp => mret (bls12381G2MultiExp_RequiredGas input)
  | bls12381Pairing => mret (bls12381Pairing_RequiredGas input)
  | bls12381MapG1 => mret Bls12381MapG1Gas
  | bls12381MapG2 => mret Bls12381MapG2Gas
  end.
Definition standard_run {S} (p : standard) (input : bytes) : M S retdata :=
  match p with
  | ecrecover => ecrecover_Run input
  | sha256hash => sha256hash_Run input
  | ripemd160hash => ripemd160hash_Run input
  | dataCopy => dataCopy_Run input
  | bigModExp => bigModExp_Run input
  | bn256Add => bn256Add_Run input
  | bn256ScalarMul => bn256ScalarMul_Run input
  | bn256Pairing => bn256Pairing_Run input
  | blake2F => blake2F_Run input
  | bls12381G1Add => bls12381G1Add_Run input
  | bls12381G1Mul => bls12381G1Mul_Run input
  | bls12381G1MultiExp => bls12381G1MultiExp_Run input
  | bls12381G2Add => bls12381G2Add_Run input
  | bls12381G2Mul => bls12381G2Mul_Run input
  | bls12381G2MultiExp => bls12381G2MultiExp_Run input
  | bls12381Pairing => bls12381Pairing_Run input
  | bls12381MapG1 => bls12381MapG1_Run input
  | bls12381MapG2 => bls12381MapG2_Run input
  end.
Definition standard_contract {St} (p : standard) : Precompiled St := {|
  RequiredGas f := standard_gas p (Input f); Run f := standard_run p (Input f) |}.

(** [Precompiles]: an array of 255 entries, found by the last byte of an address whose other
    bytes are zero. *)
Context {P : Type}.
Definition Precompiles : Type := list (option P).
Definition prefix_zero (a : address) : bool := bool_decide (take 19 a = replicate 19 0).
Definition Get (self : Precompiles) (a : address) : option P :=
  let last_byte := nth 19 a 0 in
  if last_byte =? 0 then None
  else
    match nth (Z.to_nat (last_byte - 1)) self None with
    | Some c => if prefix_zero a then Some c else None
    | None => None
    end.
Definition entry_at (pos : nat) : M Precompiles (option P) := λ self, (Ret (nth pos self None), self).
Definition set_entry (pos : nat) (c : P) : M Precompiles unit := λ self,
  (Ret tt, <[pos := Some c]> self).
Definition Put (a : address) (contract : P) : M Precompiles unit :=
  panic_if (negb (prefix_zero a)) "assertion error" ;;
  let last_addr_byte := nth 19 a 0 in
  panic_if (last_addr_byte =? 0) "assertion error" ;;
  let pos := Z.to_nat (last_addr_byte - 1) in
  e ← entry_at pos;
  panic_if (match e with None => false | Some _ => true end) "assertion error" ;;
  set_entry pos contract.
End table.
Arguments Precompiles : clear implicits.

(** [PrecompiledContractsEbla]; position 10 is empty. *)
Definition EblaTable : list (option standard) :=
  map Some [ecrecover; sha256hash; ripemd160hash; dataCopy; bigModExp; bn256Add; bn256ScalarMul;
            bn256Pairing; blake2F] ++ [None] ++
  map Some [bls12381G1Add; bls12381G1Mul; bls12381G1MultiExp; bls12381G2Add; bls12381G2Mul;
            bls12381G2MultiExp; bls12381Pairing; bls12381MapG1; bls12381MapG2].
Definition PrecompiledContractsEbla {St} `{Keccak} `{Crypto} : Precompiles (Precompiled St) :=
  map (fmap standard_contract) EblaTable ++ replicate 236 None.
