(* ===== verification/EvmPrecompilesFacts.v ===== *)
(** Facts of the standard precompiled contracts: they end, cost a 64-bit amount and leave the
    state alone; the modular exponentiation is the mathematical one for every gas that can be
    paid; the table is a map on addresses. *)
From Stdlib Require Import Zpow_facts.
From S2P Require Import Prelude Codec Rlp Uint256 Storage EvmMemory EvmAnalysis EvmInterface.
From S2P Require Import EvmMachine EvmInstructions EvmRun EvmFacts EvmGas EvmJournal EvmPrecompiles.

(** ** They leave the state alone *)
Section pure_.
Context `{Keccak} `{Crypto} {S : Type}.
#[local] Instance eq_preorder : PreOrder (eq (A := S)).
Proof. apply _. Qed.
Abbreviation pure_ := (moves (eq (A := S)) host_panic).

Lemma pure_getData d a n : pure_ (of_outcome (getData d a n)).
Proof using.
  apply moves_outcome; [apply _|]. intros p Hp. unfold getData, go_slice in Hp.
  by repeat case_match; simplify_eq.
Qed.
Lemma pure_result {A} (x : string + A) : pure_ (of_result x).
Proof using. destruct x; [apply moves_throw|apply moves_ret]; apply _. Qed.
Lemma pure_map_m {A B} (l : list A) (f : A → M S B) : (∀ a, pure_ (f a)) → pure_ (map_m l f).
Proof using.
  intros Hf. induction l as [|x l IH]; simpl; [apply moves_ret; apply _|].
  apply moves_bind; [apply _|done|]. intros y. apply moves_bind; [apply _|done|].
  intros. apply moves_ret; apply _.
Qed.
#[local] Hint Resolve pure_getData pure_result pure_map_m : moves.
#[local] Hint Extern 1 (moves _ _ (map_m _ _)) => apply pure_map_m; moves_solve : moves.
Lemma pure_field b : pure_ (decodeBLS12381FieldElement b).
Proof. unfold decodeBLS12381FieldElement. moves_solve. Qed.
#[local] Hint Resolve pure_field : moves.
Lemma pure_G1 b : pure_ (decodePointG1 b).
Proof. unfold decodePointG1. moves_solve. Qed.
Lemma pure_G2 b : pure_ (decodePointG2 b).
Proof. unfold decodePointG2. moves_solve. Qed.
Lemma pure_length b : pure_ (check_length b).
Proof. unfold check_length. moves_solve. Qed.
#[local] Hint Resolve pure_G1 pure_G2 pure_length : moves.
Lemma pure_gas p input : pure_ (standard_gas p input).
Proof. destruct p; simpl; unfold bigModExp_RequiredGas, modexp_head; moves_solve. Qed.
Lemma pure_run p input : pure_ (standard_run p input).
Proof.
  destruct p; simpl; unfold ecrecover_Run, sha256hash_Run, ripemd160hash_Run, dataCopy_Run,
    bigModExp_Run, modexp_head, bn256Add_Run, bn256ScalarMul_Run, bn256Pairing_Run, newCurvePoint,
    newTwistPoint, blake2F_Run, bls12381G1Add_Run, bls12381G1Mul_Run, bls12381G1MultiExp_Run,
    bls12381G2Add_Run, bls12381G2Mul_Run, bls12381G2MultiExp_Run, bls12381Pairing_Run,
    bls12381MapG1_Run, bls12381MapG2_Run; moves_solve.
Qed.
Lemma gas_is_u64 p input : yields is_u64 (standard_gas p input : M S Z).
Proof.
  assert (∀ a b, is_u64 (word_gas input a b)) as Hw by (intros; apply u64_range).
  assert (∀ a b, is_u64 (multiExp_RequiredGas a b input)) as Hm.
  { intros a b. unfold multiExp_RequiredGas. case_match; [done|].
    match goal with |- is_u64 (u64 ?x / 1000) => pose proof (u64_range x) end.
    unfold is_u64 in *. split; [apply Z.div_pos; lia|]. apply Z.div_lt_upper_bound; lia. }
  destruct p; simpl; try (apply yields_ret; first [done|apply Hw|apply Hm|apply u64_range]).
  - unfold bigModExp_RequiredGas. repeat (apply yields_drop; intros ?). apply yields_ret.
    case_match; [done|apply u64_range].
  - apply yields_ret. unfold blake2F_RequiredGas. case_match; [done|].
    unfold be_Uint32. match goal with |- is_u64 (u32 ?x) => pose proof (u32_range x) end.
    unfold is_u32, is_u64 in *. lia.
Qed.
End pure_.

Lemma moves_eq {S A} (R : relation S) `{!Reflexive R} P (m : M S A) :
  moves (eq (A := S)) P m → moves R P m.
Proof. intros Hm s. specialize (Hm s). destruct (m s) as [[] ?]; [by subst..|done]. Qed.

(** What the theorems on calls ask of precompiled contracts. *)
Section standard_table.
Context {St : Type} `{Keccak} `{Crypto}.
Lemma standard_entry (a : address) (p : Precompiled St) :
  Get PrecompiledContractsEbla a = Some p → ∃ q, p = standard_contract q.
Proof.
  unfold Get. case_match; [done|]. destruct (nth _ _ None) as [c|] eqn:E; [|done].
  case_match; [|done]. intros [= <-].
  assert (Some c ∈ (PrecompiledContractsEbla : Precompiles (Precompiled St))) as Hin.
  { rewrite <-E. destruct (decide (Z.to_nat (nth 19 a 0%Z - 1)%Z
      < length (PrecompiledContractsEbla : Precompiles (Precompiled St)))%nat).
    - by apply list_elem_of_In, nth_In.
    - rewrite nth_overflow in E by lia. done. }
  unfold PrecompiledContractsEbla in Hin. apply elem_of_app in Hin as [Hin|Hin].
  - apply list_elem_of_fmap in Hin as ([q|] & E' & _); simpl in E'; simplify_eq. by exists q.
  - by apply elem_of_replicate in Hin as [? _].
Qed.
Lemma standard_ends (a : address) (p : Precompiled St) f :
  Get PrecompiledContractsEbla a = Some p →
  ends (RequiredGas p f) ∧ ends (Run p f) ∧ yields is_u64 (RequiredGas p f).
Proof.
  intros [q ->]%standard_entry. split_and!; simpl.
  - apply moves_eq; [by intros ?|apply pure_gas].
  - apply moves_eq; [by intros ?|apply pure_run].
  - apply gas_is_u64.
Qed.
Context `{!EvmState St} `{!EvmStateEnds St} `{!EvmJournal St}.
Lemma standard_journal strict (a : address) (p : Precompiled St) f :
  Get PrecompiledContractsEbla a = Some p →
  (∀ e, stays strict false (RequiredGas p f e) e) ∧ (∀ e, stays strict false (Run p f e) e).
Proof.
  intros [q ->]%standard_entry. simpl. split; intros e.
  - pose proof (pure_gas q (Input f) e) as Hg. unfold stays.
    destruct (standard_gas q (Input f) e) as [[] ?]; subst; done.
  - pose proof (pure_run q (Input f) e) as Hg. unfold stays.
    destruct (standard_run q (Input f) e) as [[] ?]; subst; done.
Qed.
End standard_table.

(** ** Modular exponentiation *)
(** [n] bytes of the input from [i] on, followed by zeros where it ends. *)
Definition window (input : bytes) (i n : Z) : bytes :=
  RightPadBytes (take (Z.to_nat n) (drop (Z.to_nat i) input)) n.
(** The result on natural numbers of any size, in terms of the whole input. *)
Definition modexp_spec (input : bytes) : bytes :=
  let B := be_val (window input 0 32) in
  let E := be_val (window input 32 32) in
  let L := be_val (window input 64 32) in
  if (B =? 0) && (L =? 0) then []
  else
    let b := be_val (window input 96 B) in
    let e := be_val (window input (96 + B) E) in
    let m := be_val (window input (96 + B + E) L) in
    LeftPadBytes (if m =? 0 then [] else big_Bytes (b ^ e mod m)) L.

Lemma getData_window d a n :
  0 <= a -> 0 <= n < 2 ^ 63 → a + n < 2 ^ 64 → ilen d < 2 ^ 63 → getData d a n = Ret (window d a n).
Proof.
  intros Ha Hn Han Hd. unfold getData, ilen in *.
  set (len := Z.of_nat (length d)) in *. assert (0 <= len) by lia.
  set (start := if len <? a then len else a).
  assert (0 <= start <= len ∧ start <= a) as [Hs Hsa] by (unfold start; destruct (Z.ltb_spec len a); lia).
  rewrite (u64_id (start + n)) by (unfold is_u64; lia).
  set (e := if len <? start + n then len else start + n).
  assert (start <= e <= len) as He by (unfold e; destruct (Z.ltb_spec len (start + n)); lia).
  unfold go_slice. fold len.
  destruct (Z.leb_spec 0 start), (Z.leb_spec start e), (Z.leb_spec e len); try lia. simpl.
  unfold window. f_equal.
  assert (to_int64 n = n) as ->.
  { unfold to_int64. rewrite u64_id by (unfold is_u64; lia). by destruct (Z.ltb_spec n (2 ^ 63)); [|lia]. }
  f_equal. unfold e, start. destruct (Z.ltb_spec len a).
  - rewrite !drop_ge by lia. by rewrite !take_nil.
  - destruct (Z.ltb_spec len (a + n)); [|do 2 f_equal; lia].
    rewrite !take_ge; [done|rewrite length_drop; lia..].
Qed.
Lemma modexp_rest_drop input : modexp_rest input = drop 96 input.
Proof.
  unfold modexp_rest, ilen. destruct (Z.ltb_spec 96 (Z.of_nat (length input))); [done|].
  by rewrite drop_ge by lia.
Qed.
Lemma window_rest input a n : 0 <= a → window (modexp_rest input) a n = window input (96 + a) n.
Proof.
  intros Ha. unfold window. rewrite modexp_rest_drop, drop_drop. do 3 f_equal. lia.
Qed.
Lemma window_bytes input a n : is_bytes input → is_bytes (window input a n).
Proof.
  intros Hi. assert (is_bytes (take (Z.to_nat n) (drop (Z.to_nat a) input))) as Ht
    by (by apply Forall_take, Forall_drop).
  unfold window, RightPadBytes. destruct (_ <=? _); [done|].
  apply Forall_app. split; [done|]. apply Forall_replicate. done.
Qed.
Lemma window_length input a n : 0 <= n → ilen (window input a n) = n.
Proof.
  intros Hn. unfold window, RightPadBytes, ilen.
  pose proof (length_take (drop (Z.to_nat a) input) (Z.to_nat n)).
  destruct (Z.leb_spec n (Z.of_nat (length (take (Z.to_nat n) (drop (Z.to_nat a) input))))); [lia|].
  unfold zeros. rewrite length_app, length_replicate. lia.
Qed.
Lemma window_val input a n : is_bytes input → 0 <= n → 0 <= be_val (window input a n) < 256 ^ n.
Proof.
  intros Hi Hn. pose proof (be_val_bound _ (window_bytes input a n Hi)) as Hb.
  pose proof (window_length input a n Hn) as Hl. unfold ilen in Hl. by rewrite Hl in Hb.
Qed.

Lemma multGas_large x : 2 ^ 40 <= x → 2 ^ 70 <= modexp_multGas x.
Proof.
  intros Hx. unfold modexp_multGas. destruct (Z.leb_spec x 64); [lia|].
  destruct (Z.leb_spec x 1024); [lia|].
  assert (2 ^ 76 <= x * x / 16); [|lia]. apply Z.div_le_lower_bound; [lia|].
  change (16 * 2 ^ 76) with (2 ^ 40 * 2 ^ 40). apply Z.mul_le_mono_nonneg; lia.
Qed.
Lemma multGas_pos x : 1 <= x → 1 <= modexp_multGas x.
Proof.
  intros Hx. unfold modexp_multGas. destruct (Z.leb_spec x 64); [nia|].
  assert (0 <= x * x / 4 ∧ 0 <= x * x / 16) as [? ?] by (split; apply Z.div_pos; nia).
  destruct (Z.leb_spec x 1024); lia.
Qed.
(** Gas that can be paid bounds the lengths. *)
Lemma modexp_gas_bound x adj :
  0 <= x → modexp_multGas x * Z.max adj 1 / ModExpQuadCoeffDiv < 2 ^ 61 →
  x < 2 ^ 40 ∧ (1 <= x → adj < 20 * 2 ^ 61).
Proof.
  intros Hx Hg. unfold ModExpQuadCoeffDiv in Hg.
  assert (modexp_multGas x * Z.max adj 1 < 20 * 2 ^ 61) as Hlt.
  { apply Z.lt_nge. intros Hge. apply Z.lt_nge in Hg. apply Hg.
    apply Z.div_le_lower_bound; [lia|done]. }
  split.
  - destruct (Z.lt_ge_cases x (2 ^ 40)) as [|Hge]; [done|]. apply multGas_large in Hge. nia.
  - intros H1. apply multGas_pos in H1. nia.
Qed.

Section modexp.
Context {S : Type}.
Lemma modexp_head_run i input (s : S) :
  (i = 0 ∨ i = 32 ∨ i = 64) → ilen input < 2 ^ 63 →
  modexp_head i input s = (Ret (be_val (window input i 32)), s).
Proof.
  intros Hi Hl. unfold modexp_head. rewrite getData_window by lia. done.
Qed.
(** The gas, once it is known to be small, in terms of the lengths. *)
Lemma modexp_gas_inv input g (s s' : S) :
  is_bytes input → ilen input < 2 ^ 63 → bigModExp_RequiredGas input s = (Ret g, s') →
  g < 2 ^ 61 → ∃ msb, 0 <= msb ∧
    modexp_multGas (Z.max (be_val (window input 64 32)) (be_val (window input 0 32))) *
      Z.max ((if 32 <? be_val (window input 32 32) then 8 * (be_val (window input 32 32) - 32)
              else 0) + msb) 1 / ModExpQuadCoeffDiv < 2 ^ 61.
Proof.
  intros Hb Hl E Hg. unfold bigModExp_RequiredGas in E.
  erewrite bind_run in E by (apply modexp_head_run; auto).
  erewrite bind_run in E by (apply modexp_head_run; auto).
  erewrite bind_run in E by (apply modexp_head_run; auto).
  apply bind_ret_inv in E as (expHead & s1 & _ & E). cbv [mret M_ret] in E.
  set (B := be_val (window input 0 32)) in *. set (L := be_val (window input 64 32)) in *.
  set (X := be_val (window input 32 32)) in *.
  set (msb := if 0 <? BitLen expHead then BitLen expHead - 1 else 0) in *.
  exists msb. split; [unfold msb; destruct (Z.ltb_spec 0 (BitLen expHead)); lia|].
  match goal with |- ?G < _ => set (gas := G) in * end.
  injection E as E _. destruct (Z.ltb_spec 64 (BitLen gas)) as [|Hbits]; [lia|].
  assert (0 <= L) by (apply window_val; [done|lia]).
  assert (0 <= gas).
  { apply Z.div_pos; [|done]. assert (0 <= modexp_multGas (Z.max L B)); [|nia].
    destruct (Z.eq_dec (Z.max L B) 0) as [->|]; [done|].
    pose proof (multGas_pos (Z.max L B)). lia. }
  rewrite u64_id in E; [lia|]. split; [done|]. unfold BitLen in Hbits.
  destruct (Z.eqb_spec gas 0); [lia|]. apply Z.log2_lt_pow2; lia.
Qed.

(** C40: modexp_correct.  For every input and every amount of gas below 2^61, a call of the
    modular exponentiation that can be paid returns base^exponent mod modulus, of the operands
    read from the input and the zeros that follow it, as long as the modulus: the lengths, cut
    to 64 bits by the code, are then what the input says. *)
Theorem modexp_correct `{Keccak} `{Crypto} input g (s s' : S) :
  is_bytes input → ilen input < 2 ^ 63 → bigModExp_RequiredGas input s = (Ret g, s') →
  g < 2 ^ 61 →
  bigModExp_Run input s = (Ret (Fresh (modexp_spec input)), s) ∧
  ilen (modexp_spec input) = be_val (window input 64 32).
Proof.
  intros Hb Hl E Hg. destruct (modexp_gas_inv _ _ _ _ Hb Hl E Hg) as (msb & Hmsb & Hgas).
  set (B := be_val (window input 0 32)) in *. set (L := be_val (window input 64 32)) in *.
  set (X := be_val (window input 32 32)) in *.
  assert (0 <= B < 256 ^ 32) as HB by (apply window_val; [done|lia]).
  assert (0 <= L < 256 ^ 32) as HL by (apply window_val; [done|lia]).
  assert (0 <= X < 256 ^ 32) as HX by (apply window_val; [done|lia]).
  destruct (modexp_gas_bound (Z.max L B) _ ltac:(lia) Hgas) as [Hmax Hadj].
  unfold bigModExp_Run. erewrite bind_run by (apply modexp_head_run; auto).
  erewrite bind_run by (apply modexp_head_run; auto).
  erewrite bind_run by (apply modexp_head_run; auto). fold B L X. cbv zeta.
  unfold modexp_spec. fold B L X. rewrite (u64_id B), (u64_id L) by (unfold is_u64; lia).
  destruct ((B =? 0) && (L =? 0)) eqn:Hz; [split; [done|unfold ilen; simpl; lia]|].
  assert (X < 2 ^ 63).
  { destruct (Z.ltb_spec 32 X); [|lia]. lia. }
  rewrite (u64_id X), (u64_id (B + X)) by (unfold is_u64; lia).
  assert (ilen (modexp_rest input) < 2 ^ 63).
  { rewrite modexp_rest_drop. unfold ilen in *. rewrite length_drop. lia. }
  rewrite !getData_window by lia. rewrite !window_rest by lia.
  rewrite Z.add_0_r, Z.add_assoc. unfold of_outcome, mbind, M_bind.
  set (b := be_val (window input 96 B)). set (e := be_val (window input (96 + B) X)).
  set (m := be_val (window input (96 + B + X) L)).
  assert (0 <= m < 256 ^ L) as Hm by (apply window_val; [done|lia]).
  assert (to_int64 L = L) as ->.
  { unfold to_int64. rewrite u64_id by (unfold is_u64; lia). by destruct (Z.ltb_spec L (2 ^ 63)); [|lia]. }
  unfold BitLen. destruct (Z.eqb_spec m 0) as [Hm0|Hm0].
  - split; [done|]. unfold LeftPadBytes, ilen, zeros. change (length []) with 0%nat.
    destruct (Z.leb_spec L (Z.of_nat 0)); [simpl length; lia|]. rewrite app_nil_r, length_replicate. lia.
  - pose proof (Z.log2_nonneg m). destruct (Z.eqb_spec (Z.log2 m + 1) 0); [lia|].
    unfold big_Exp. rewrite Zpow_mod_correct by done. split; [done|].
    assert (0 <= b ^ e mod m < m) as Hr by (apply Z.mod_pos_bound; lia).
    assert (length (big_Bytes (b ^ e mod m)) <= Z.to_nat L)%nat as Hlen.
    { apply big_Bytes_length. rewrite Z2Nat.id by lia. lia. }
    unfold LeftPadBytes, ilen, zeros. destruct (Z.leb_spec L (Z.of_nat (length (big_Bytes (b ^ e mod m))))); [lia|].
    rewrite length_app, length_replicate. lia.
Qed.
End modexp.

(** ** The table *)
Lemma address_split (a : address) : length a = 20%nat → a = take 19 a ++ [nth 19 a 0].
Proof.
  intros Ha. do 20 (destruct a as [|? a]; [done|]). by destruct a.
Qed.
(**  [Put] adds one address to the table and changes no other: what
    [Get] then finds at an address is the new contract at the registered address and what it
    found before at every other one, the addresses that only share the last byte included. *)
Theorem precompiles_are_a_map {P : Type} (self self' : Precompiles P) (a b : address) (c : P) :
  length self = 255%nat → is_bytes a → length a = 20%nat → length b = 20%nat →
  Put a c self = (Ret tt, self') → is_bytes b →
  length self' = 255%nat ∧ Get self' b = if bool_decide (b = a) then Some c else Get self b.
Proof.
  intros Hlen Ha La Lb E Hb. unfold Put, Precompiles in *.
  destruct (prefix_zero a) eqn:Hp; [|done]. cbn [negb panic_if] in E. rewrite bind_ret_l in E.
  destruct (Z.eqb_spec (nth 19 a 0) 0) as [|Hne]; [done|]. cbn [panic_if] in E.
  rewrite bind_ret_l in E. set (pos := Z.to_nat (nth 19 a 0 - 1)) in *.
  apply bind_ret_inv in E as (e & s1 & Ee & E). unfold entry_at in Ee. injection Ee as <- <-.
  destruct (nth pos self None); [done|]. cbn [panic_if] in E. rewrite bind_ret_l in E.
  unfold set_entry, Precompiles in E. injection E as <-. split; [by rewrite length_insert|].
  assert (∀ x : address, is_bytes x → length x = 20%nat → 0 <= nth 19 x 0 < 256) as Hbyte.
  { intros x Hx Lx. unfold is_bytes in Hx. rewrite Forall_forall in Hx. apply Hx.
    apply list_elem_of_In, nth_In. lia. }
  pose proof (Hbyte a Ha La). pose proof (Hbyte b Hb Lb). unfold Get, Precompiles in *.
  destruct (Z.eqb_spec (nth 19 b 0) 0) as [Hb0|Hb0].
  { rewrite bool_decide_false; [done|]. intros ->. done. }
  assert (∀ i l d, nth i (l : list (option P)) d = default d (l !! i)) as Hnth
    by (intros; apply nth_lookup).
  rewrite !Hnth. destruct (decide (nth 19 b 0 = nth 19 a 0)) as [Hl|Hl].
  - rewrite Hl. fold pos. rewrite list_lookup_insert_eq by (unfold pos; lia). simpl.
    destruct (prefix_zero b) eqn:Hpb; unfold prefix_zero in *.
    + apply bool_decide_eq_true in Hp, Hpb. rewrite bool_decide_true; [done|].
      rewrite (address_split a La), (address_split b Lb), Hp, Hpb, Hl. done.
    + rewrite bool_decide_false; [by destruct (default None (self !! pos))|].
      intros ->. congruence.
  - rewrite list_lookup_insert_ne by (unfold pos; lia). rewrite bool_decide_false; [done|]. congruence.
Qed.
