(* ===== verification/EvmExamples.v ===== *)
(** A small state on which the properties of the virtual machine are evaluated, and programs on
    which it does what it does not mean to. *)
From S2P Require Import Prelude Codec Rlp Uint256 Storage EvmMemory EvmAnalysis EvmInterface.
From S2P Require Import EvmMachine EvmInstructions EvmRun EvmFacts EvmGas EvmTermination EvmStack.
From S2P Require Import EvmJournal StateEvm StateEvmFacts StateEvmJournal EvmPrecompiles.
From S2P Require Import EvmPrecompilesFacts.

#[local] Existing Instances documented documented_laws id_keccak id_keccak_inj.
(** ** A database of three accounts *)
Definition alice : address := replicate 20 11.
Definition contract_addr : address := replicate 20 1.
Definition keeper_addr : address := replicate 19 0 ++ [0xEE].
Definition data_copy_addr : address := replicate 19 0 ++ [4].
Definition code_at (c : bytes) : Input := {|
  in_GetCode h := h;
  in_GetAccount a :=
    if bool_decide (a = alice) then
      Some {| db_Nonce := 0; db_Balance := 10 ^ 18; db_StorageRootHash := None;
              db_CodeHash := None; db_CodeSize := 0 |}
    else if bool_decide (a = contract_addr) then
      Some {| db_Nonce := 1; db_Balance := 0; db_StorageRootHash := None;
              db_CodeHash := Some c; db_CodeSize := Z.of_nat (length c) |}
    else if bool_decide (a = keeper_addr) then
      Some {| db_Nonce := 0; db_Balance := 1; db_StorageRootHash := None;
              db_CodeHash := None; db_CodeSize := 0 |}
    else None;
  in_GetAccountStorage _ _ := None |}.
Definition env0 : environment := {| get_hash _ := 0; ChainId := 1 |}.
Definition trx0 (data : bytes) : Transaction := {|
  From := alice; GasPrice := 1; To := Some contract_addr; Nonce := 0; TxValue := 5;
  TxGasCap := 100000; TxInput := data |}.
Definition block0 : Block := {|
  Number := 1; Author := alice; GasLimit := 10 ^ 9; Time := 0; Difficulty := 0 |}.
Definition evm0 : EVM TransitionState := {|
  evm_state := new_state; evm_block := block0; evm_trx := trx0 []; evm_depth := 0;
  evm_mem_pool := new_pool 64; evm_jumpdests := ∅; evm_call_gas_tmp := 0; evm_read_only := false;
  evm_last_retval := [] |}.
(** The standard precompiled contracts over libraries of no meaning. *)
#[local] Instance no_crypto : Crypto := {|
  Sum256 b := b; ripemd160_Sum b := b; RecoverPubkey _ _ := inl "no signature";
  bn_G1 := unit; bn_G2 := unit; bn_G1_Unmarshal _ := inr tt; bn_G2_Unmarshal _ := inr tt;
  bn_G1_Add _ _ := tt; bn_G1_ScalarMult _ _ := tt; bn_G1_Marshal _ := zeros 64;
  bn_PairingCheck _ _ := true; blake2b_F h _ _ _ _ := h; fp := unit; fr := unit;
  fp_Element _ := inr tt; fp_PutElement _ := zeros 48; fr_SetBytes _ := tt;
  G1_IsOnCurve _ := true; G1_Add p _ := p; G1_ScalarMultiplication p _ := p;
  G1_MultiExp _ _ := (tt, tt); G1_IsInSubGroup _ := true; G2_IsOnCurve _ := true;
  G2_Add p _ := p; G2_ScalarMultiplication p _ := p; G2_MultiExp _ _ := ((tt, tt), (tt, tt));
  G2_IsInSubGroup _ := true; bls_PairingCheck _ _ := inr true; MapToG1 x := (x, x);
  MapToG2 x := (x, x) |}.
Definition ebla_precompiles : address → option (Precompiled TransitionState) :=
  Get PrecompiledContractsEbla.
Definition exec (c data : bytes) :=
  @Main _ (transition_state (code_at c)) _ _ env0 ebla_precompiles 3000 (trx0 data) evm0.

(** ** Programs *)
(** The caller and the contract are loaded, as a transaction leaves them. *)
Definition evm_at (c : bytes) : EVM TransitionState :=
  evm_with_state
    ((GetAccountConcrete (code_at c) alice ;; GetAccountConcrete (code_at c) contract_addr)
       new_state).2 evm0.
Definition call_at (c : bytes) (typ : call_type) (gas : Z) :=
  @call _ (transition_state (code_at c)) _ _ env0 ebla_precompiles 3000 typ
    {| ref_account := alice; ref_contract := None |} contract_addr [] gas 0 (evm_at c).
(** [return 7 + 3] *)
Definition returns_ten : bytes :=
  [0x60; 7; 0x60; 3; 0x01; 0x60; 0; 0x52; 0x60; 32; 0x60; 0; 0xf3].
(** [slot 0 := 7; revert] *)
Definition stores_and_reverts : bytes := [0x60; 7; 0x60; 0; 0x55; 0x60; 0; 0x60; 0; 0xfd].
Lemma ebla_precompiles_end a p f :
  ebla_precompiles a = Some p → ends (RequiredGas p f) ∧ ends (Run p f) ∧ yields is_u64 (RequiredGas p f).
Proof. apply standard_ends. Qed.
Lemma ebla_precompiles_journal c strict a p f :
  ebla_precompiles a = Some p →
  (∀ e, @stays _ (transition_state (code_at c)) (transition_state_journal _ true) strict false _ (RequiredGas p f e) e) ∧
  (∀ e, @stays _ (transition_state (code_at c)) (transition_state_journal _ true) strict false _ (Run p f e) e).
Proof. intros Hp. by apply (@standard_journal _ _ _ (transition_state (code_at c)) _ (transition_state_journal _ true) strict a). Qed.

(** A contract that, as the contracts of the chain do, writes a slot of its own past the journal, and
    a program that calls it and reverts. *)
Definition keeper_key : hash := replicate 32 1.
Definition keeper : Precompiled TransitionState := {|
  RequiredGas _ := mret 0;
  Run _ := on_state (ts_SetStateRawIrreversibly keeper_addr keeper_key [7]) ;; mret (Fresh []) |}.
Definition with_keeper (a : address) : option (Precompiled TransitionState) :=
  if bool_decide (a = keeper_addr) then Some keeper else ebla_precompiles a.
Definition calls_keeper_and_reverts : bytes :=
  [0x60; 0; 0x60; 0; 0x60; 0; 0x60; 0; 0x60; 0; 0x60; 0xEE; 0x61; 0xff; 0xff; 0xf1;
   0x60; 0; 0x60; 0; 0xfd].
Lemma with_keeper_journal c a p f :
  with_keeper a = Some p →
  (∀ e, @stays _ (transition_state (code_at c)) (transition_state_journal _ false) false false _ (RequiredGas p f e) e) ∧
  (∀ e, @stays _ (transition_state (code_at c)) (transition_state_journal _ false) false false _ (Run p f e) e).
Proof.
  unfold with_keeper. case_bool_decide as Ha; intros Hp.
  - injection Hp as <-. split; intros e; [by split_and!|].
    pose proof (raw_write_changed (code_at c) false keeper_addr keeper_key [7] eq_refl (evm_state e)) as Hw.
    unfold stays. simpl. unfold on_state, mbind, M_bind.
    destruct (ts_SetStateRawIrreversibly _ _ _ (evm_state e)) as [[[]|x|x] s]; [|..|done];
      (split_and!; [done|exact Hw|done]).
  - by apply (@standard_journal _ _ _ (transition_state (code_at c)) _ (transition_state_journal _ false) false a).
Qed.
Definition call_keeper :=
  @call _ (transition_state (code_at calls_keeper_and_reverts)) _ _ env0 with_keeper 3000 CALL
    {| ref_account := alice; ref_contract := None |} contract_addr [] 100000 0
    (evm_at calls_keeper_and_reverts).

Lemma call_terminates_witness :
  let r := call_at returns_ten CALL 2000 in
  r.1 = Ret (Fresh (zeros 31 ++ [10]), 1976, None) ∧
  match r.1 with Ret (_, rest, _) => 0 <= rest <= 2000 | Err _ => True | Panic p => p ≠ no_fuel end.
Proof.
  split; [by vm_compute|]. unfold call_at.
  apply (@call_terminates _ (transition_state (code_at returns_ten)) (transition_state_ends _)
    _ _ env0 ebla_precompiles ebla_precompiles_end 3000); done.
Defined.
Lemma transaction_terminates_witness :
  let r := @Main _ (transition_state (code_at returns_ten)) _ _ env0 ebla_precompiles (Z.to_nat 100001) (trx0 []) evm0 in
  match r.1 with
  | Ret r => charge_ok (trx0 []) r
  | Err _ => True
  | Panic p => p ≠ no_fuel
  end.
Proof.
  apply (@transaction_terminates _ (transition_state (code_at returns_ten)) (transition_state_ends _)
    _ _ env0 ebla_precompiles ebla_precompiles_end (transition_state_refund _)); [done|].
  split; [|]; vm_compute; done.
Defined.
(** With contracts that journal everything, the accounts are restored to the last slot; with one
    that writes past the journal, to all that is not written so. *)
Lemma failed_call_restores_witness :
  match call_at stores_and_reverts CALL 50000 with
  | (Ret (_, _, Some err), e') =>
      err = ErrExecutionReverted ∧
      restores (code_at stores_and_reverts) true (evm_state (evm_at stores_and_reverts)) (evm_state e')
  | _ => False
  end ∧
  match call_keeper with
  | (Ret (_, _, Some err), e') =>
      err = ErrExecutionReverted ∧
      restores (code_at calls_keeper_and_reverts) false
        (evm_state (evm_at calls_keeper_and_reverts)) (evm_state e')
  | _ => False
  end.
Proof.
  split.
  - assert ((call_at stores_and_reverts CALL 50000).1 = Ret (Fresh [], 29988, Some ErrExecutionReverted))
      as Ho by (by vm_compute).
    destruct (call_at stores_and_reverts CALL 50000) as [o e'] eqn:E. simpl in Ho. subst o.
    split; [done|]. unfold call_at in E.
    exact (@failed_call_restores _ _ (transition_state_ends _) (transition_state_journal _ true)
      _ _ env0 ebla_precompiles 3000 CALL _ _ _ _ _ _ _ _ _ _ (ebla_precompiles_journal _ false) E).
  - assert (call_keeper.1 = Ret (Fresh [], 99273, Some ErrExecutionReverted)) as Ho by (by vm_compute).
    destruct call_keeper as [o e'] eqn:E. simpl in Ho. subst o.
    split; [done|]. unfold call_keeper in E.
    exact (@failed_call_restores _ _ (transition_state_ends _) (transition_state_journal _ false)
      _ _ env0 with_keeper 3000 CALL _ _ _ _ _ _ _ _ _ _ (with_keeper_journal _) E).
Defined.
Lemma static_call_changes_nothing_witness :
  match call_at returns_ten STATICCALL 2000 with
  | (Ret (ret, _, _), e') =>
      ret = Fresh (zeros 31 ++ [10]) ∧
      StateEvmFacts.alike (code_at returns_ten) true (evm_state (evm_at returns_ten)) (evm_state e')
  | _ => False
  end.
Proof.
  assert ((call_at returns_ten STATICCALL 2000).1 = Ret (Fresh (zeros 31 ++ [10]), 1976, None)) as Ho
    by (by vm_compute).
  destruct (call_at returns_ten STATICCALL 2000) as [o e'] eqn:E. simpl in Ho. subst o.
  split; [done|]. unfold call_at in E.
  exact (@static_call_changes_nothing _ _ (transition_state_ends _) (transition_state_journal _ true)
    _ _ env0 ebla_precompiles 3000 _ _ _ _ _ _ _ _ (ebla_precompiles_journal _ true)
    (eq_refl : ebla_precompiles contract_addr = None) E).
Defined.
(** A creation whose code reverts. *)
Definition create_at (c init : bytes) (gas : Z) :=
  @create_with _ (transition_state (code_at c))
    (@run _ (transition_state (code_at c)) _ _ env0 ebla_precompiles 3000) alice
    {| Code := init; CodeHash := None |} gas 0 data_copy_addr (evm_at c).
Lemma failed_creation_restores_witness :
  match create_at [] stores_and_reverts 50000 with
  | (Ret (_, Some err, _), e') =>
      err = ErrExecutionReverted ∧
      @create_restored _ (transition_state (code_at [])) (transition_state_journal _ true) alice
        (evm_state (evm_at [])) (evm_state e')
  | _ => False
  end.
Proof.
  assert ((create_at [] stores_and_reverts 50000).1 = Ret ([], Some ErrExecutionReverted, 29988)) as Ho
    by (by vm_compute).
  destruct (create_at [] stores_and_reverts 50000) as [o e'] eqn:E. simpl in Ho. subst o.
  split; [done|]. unfold create_at in E.
  exact (@failed_creation_restores _ _ (transition_state_ends _) (transition_state_journal _ true)
    _ _ env0 ebla_precompiles 3000 _ _ _ _ _ _ _ _ _ _ (ebla_precompiles_journal _ false) E).
Defined.
(** The frame of a contract after its first instruction. *)
Definition frame0 (c : bytes) : Contract :=
  NewContract {| CallerAccount := alice; EvmInterface.Account := contract_addr; EvmInterface.Input := []; Gas := 2000; Value := 0 |}
    {| Code := c; CodeHash := None |}.
Lemma stack_is_safe_witness :
  ∃ s, m_stack s = [7] ∧
    (Z.of_nat (length (m_stack s)) <= StackLimit ∧
     (@step _ (transition_state (code_at returns_ten)) _ _ env0
        (@entry_with _ (transition_state (code_at returns_ten)) _ ebla_precompiles
          (@run _ (transition_state (code_at returns_ten)) _ _ env0 ebla_precompiles 30)) s).1
       ≠ Panic stack_panic).
Proof.
  eexists. split.
  2: { apply (@stack_is_safe _ (transition_state (code_at returns_ten)) (transition_state_ends _) _ _ env0
         ebla_precompiles (λ a p f H, match ebla_precompiles_end a p f H with conj x (conj y _) => conj x y end)
         30 (frame0 returns_ten) false (evm_at returns_ten)).
       eapply frame_steps; [apply frame_starts|]. vm_compute. reflexivity. }
  reflexivity.
Defined.

(** ** Memories and analysis *)
Definition memory_program : list memory_op :=
  [OpEnter; OpResize 64; OpSet32 0 7; OpEnter; OpResize 32; OpSet 1 2 [8; 9]; OpGet 0 4; OpLeave;
   OpGet 30 4; OpLeave].
Lemma memory_refines_bytes_witness :
  spec_ops memory_program []
    = Some ([], [[]; []; []; []; []; []; [0; 8; 9; 0]; []; [0; 7; 0; 0]; []]) ∧
  ∃ y, run_ops memory_program (new_pool 64, [])
         = Ret (y, [[]; []; []; []; []; []; [0; 8; 9; 0]; []; [0; 7; 0; 0]; []]) ∧
       memories_at (new_pool 64) y.1 y.2 [] ∧ (([] : list bytes) = [] → y = (new_pool 64, [])).
Proof.
  split; [by vm_compute|]. apply (memory_refines_bytes (new_pool 64)); [|by vm_compute].
  split; [vm_compute; split; discriminate|by vm_compute].
Defined.
Lemma code_bitmap_marks_data_witness :
  ∃ bits, codeBitmap returns_ten = Ret bits ∧
    ∀ q, 0 <= q < 13 → ∃ b, codeSegment bits q = Ret b ∧ (b = true ↔ op_start returns_ten q).
Proof. exact (code_bitmap_marks_data returns_ten). Defined.

(** [3 ^ 5 mod 7], each operand one byte long *)
Definition modexp_input : bytes := zeros 31 ++ [1] ++ zeros 31 ++ [1] ++ zeros 31 ++ [1] ++ [3; 5; 7].
Lemma modexp_correct_witness :
  bigModExp_Run modexp_input tt = (Ret (Fresh (modexp_spec modexp_input)), tt) ∧
  modexp_spec modexp_input = [5].
Proof.
  split; [|vm_compute; reflexivity].
  apply (modexp_correct modexp_input 0 tt tt); [|done|vm_compute; reflexivity|done].
  repeat constructor; discriminate.
Defined.
Lemma precompiles_are_a_map_witness :
  let a := replicate 19 0 ++ [0xEE] in
  let table := ((Put a 7 : M (Precompiles Z) unit) (replicate 255 None)).2 in
  Get table a = Some 7 ∧ Get table (1 :: drop 1 a) = None.
Proof.
  assert (∀ x : Z, 0 <= x < 256 → is_bytes (x :: replicate 18 0 ++ [0xEE])) as Hb.
  { intros x Hx. constructor; [exact Hx|]. repeat constructor; discriminate. }
  split.
  - apply (precompiles_are_a_map (replicate 255 None) _ (0 :: replicate 18 0 ++ [0xEE])
      (0 :: replicate 18 0 ++ [0xEE]) 7 eq_refl (Hb 0 ltac:(lia)) eq_refl eq_refl eq_refl
      (Hb 0 ltac:(lia))).
  - apply (precompiles_are_a_map (replicate 255 None) _ (0 :: replicate 18 0 ++ [0xEE])
      (1 :: replicate 18 0 ++ [0xEE]) 7 eq_refl (Hb 0 ltac:(lia)) eq_refl eq_refl eq_refl
      (Hb 1 ltac:(lia))).
Defined.

(** * Where the machine does not do what it means to *)
Definition state_of (c : bytes) : EvmState TransitionState := transition_state (code_at c).

(** [PUSH32 2^256 - 1; MLOAD]: the size of the memory needed is computed modulo 2^256, so the
    memory grows by one word only and reading at the offset panics instead of running out of
    gas. *)
Definition reads_at_the_end : bytes := [0x7f] ++ replicate 32 0xff ++ [0x51].
Theorem mload_at_the_end_panics : (call_at reads_at_the_end CALL 100000).1 = Panic slice_panic.
Proof. vm_compute. reflexivity. Qed.

(** [mem[0..32) := 42; staticcall 4 on mem[0..32) to mem[1..33); return returndata]: the copy
    contract returns its input, which is the caller's memory, and the memory is written before
    the return data is copied.  The return data is then no longer the input. *)
Definition copies_onto_its_input : bytes :=
  [0x60; 42; 0x60; 0; 0x52;
   0x60; 32; 0x60; 1; 0x60; 32; 0x60; 0; 0x60; 4; 0x61; 0xff; 0xff; 0xfa; 0x50;
   0x60; 32; 0x60; 0; 0x60; 64; 0x3e; 0x60; 32; 0x60; 64; 0xf3].
Theorem returned_data_overwritten :
  match (call_at copies_onto_its_input CALL 100000).1 with
  | Ret (Fresh b, _, None) => b = replicate 32 0
  | _ => False
  end.
Proof. vm_compute. reflexivity. Qed.

(** [tstore 0 := 7; revert]: the transient storage is not in the journal, so the write of a
    reverted call stays. *)
Definition stores_transiently : bytes := [0x60; 7; 0x60; 0; 0xb4; 0x60; 0; 0x60; 0; 0xfd].
Theorem transient_write_survives_revert :
  let '(o, e) := call_at stores_transiently CALL 100000 in
  (match o with Ret (_, _, Some err) => err = ErrExecutionReverted | _ => False end) ∧
  (@GetTransientState _ (state_of stores_transiently) contract_addr ZeroHash (evm_state e)).1
    = Ret (replicate 31 0 ++ [7]).
Proof. vm_compute. by split. Qed.

(** The write past the journal of a contract that a reverted call called stays. *)
Theorem raw_write_survives_revert :
  let '(o, e) := call_keeper in
  (match o with Ret (_, _, Some err) => err = ErrExecutionReverted | _ => False end) ∧
  (ts_GetRawState (code_at calls_keeper_and_reverts) keeper_addr keeper_key (evm_state e)).1
    = Ret (Some [7]).
Proof. vm_compute. by split. Qed.

(** [HasSuicided] asks for an account that is nil and has destructed itself: after [Suicide] it
    still answers no, so that every SELFDESTRUCT of an account earns the refund again. *)
Theorem suicide_is_not_seen :
  let s := state_of returns_ten in
  ((@Suicide _ s contract_addr alice ;; @HasSuicided _ s contract_addr)
     (evm_state (evm_at returns_ten))).1 = Ret false.
Proof. vm_compute. reflexivity. Qed.
