(* ===== verification/TrieEncoding.v ===== *)
(** The key encodings of the state trie ([ebla/trie/encoding.go]): key bytes, one byte per
    nibble with the terminator 16 ("hex"), and the hex-prefix encoding of a node's key part
    ("compact"); the conversions are inverse to each other on the keys the trie uses. *)
From S2P Require Import Prelude Codec.

Definition MaxDepth : nat := 64.
Definition HexKeyLen : nat := 65.
Definition HexKeyCompactLen : nat := 33.
Definition slice_panic : string := "runtime error: slice bounds out of range".

(** * The conversions *)
Definition hasTerm (s : bytes) : bool :=
  match last s with Some x => x =? 16 | None => false end.

(** [bytes[bi] = nibbles[ni]<<4 | nibbles[ni+1]], two nibbles a turn, [out] from its start. *)
Fixpoint decodeNibbles (nibbles out : bytes) : outcome bytes :=
  match nibbles, out with
  | [], _ => Ret out
  | _, [] => Panic index_panic
  | [_], _ => Panic index_panic
  | a :: b :: nibbles, _ :: out =>
      match decodeNibbles nibbles out with
      | Ret l => Ret (Z.lor (u8 (Z.shiftl a 4)) b :: l)
      | Err e => Err e
      | Panic p => Panic p
      end
  end.

Definition hex_to_compact (key : bytes) : outcome bytes :=
  let terminator := if hasTerm key then 1 else 0 in
  let key := if hasTerm key then take (length key - 1) key else key in
  let len := (length key / 2 + 1)%nat in
  if (HexKeyCompactLen <? len)%nat then Panic slice_panic
  else
    let flag := u8 (Z.shiftl terminator 5) in
    match (if Z.land (Z.of_nat (length key)) 1 =? 1 then
             match key with
             | first :: rest => (Z.lor (Z.lor flag (Z.shiftl 1 4)) first, rest)
             | [] => (flag, key)
             end
           else (flag, key)) with
    | (flag, key) =>
        match decodeNibbles key (replicate (len - 1) 0) with
        | Ret l => Ret (flag :: l)
        | Err e => Err e
        | Panic p => Panic p
        end
    end.

(** [keybytes_to_hex]: [out] has room for the two nibbles of every byte and the terminator. *)
Fixpoint keybytesToHex (str : bytes) : bytes :=
  match str with
  | [] => [16]
  | b :: str => b / 16 :: b mod 16 :: keybytesToHex str
  end.

Definition compact_to_hex (compact : bytes) : outcome bytes :=
  let ret := keybytesToHex compact in
  let first := nth 0 ret 0 in
  let ret := if first <? 2 then take (length ret - 1) ret else ret in
  let chop := 2 - Z.land first 1 in
  if Z.of_nat (length ret) <? chop then Panic slice_panic
  else Ret (drop (Z.to_nat chop) ret).

(** [hexToKeybytes]: [out] is the zeroed array the caller declares. *)
Definition hex_to_keybytes (key out : bytes) : outcome bytes :=
  let key := if hasTerm key then take (length key - 1) key else key in
  if negb (Z.land (Z.of_nat (length key)) 1 =? 0) then
    Panic "can't convert hex key of odd length"
  else decodeNibbles key out.

(** The length of the common prefix of the two keys. *)
Fixpoint prefixLen (a b : bytes) : nat :=
  match a, b with
  | x :: a, y :: b => if x =? y then S (prefixLen a b) else 0
  | _, _ => 0
  end.

(** * Facts *)
Definition is_nibble (x : Z) : Prop := 0 <= x < 16.
Abbreviation is_nibbles := (Forall is_nibble).
#[export] Instance is_nibble_dec x : Decision (is_nibble x).
Proof. unfold is_nibble. apply _. Defined.
(** A hex key: nibbles, then the terminator when the node at the key holds a value. *)
Definition is_hex (key : bytes) : Prop :=
  is_nibbles key ∨ ∃ l, key = l ++ [16] ∧ is_nibbles l.

Lemma is_nibbles_app l k : is_nibbles (l ++ k) ↔ is_nibbles l ∧ is_nibbles k.
Proof. apply Forall_app. Qed.
Lemma hasTerm_snoc l : hasTerm (l ++ [16]) = true.
Proof. unfold hasTerm. by rewrite last_snoc. Qed.
Lemma hasTerm_nibbles l : is_nibbles l → hasTerm l = false.
Proof.
  intros H. unfold hasTerm. destruct (last l) as [x|] eqn:E; [|done].
  apply last_Some_elem_of in E. rewrite Forall_forall in H. specialize (H x E).
  unfold is_nibble in H. lia.
Qed.

Lemma nibble_pair a b : is_nibble a → is_nibble b → Z.lor (u8 (Z.shiftl a 4)) b = 16 * a + b.
Proof.
  unfold is_nibble. intros Ha Hb. unfold u8.
  rewrite Z.mod_small by (rewrite Z.shiftl_mul_pow2; lia). rewrite lor_shl by lia. lia.
Qed.

(** Pairs of nibbles, for the proofs by pairs below. *)
Fixpoint pack (l : bytes) : bytes :=
  match l with a :: b :: l => 16 * a + b :: pack l | _ => [] end.
Lemma pairs_ind (P : bytes → Prop) :
  P [] → (∀ a b l, is_nibble a → is_nibble b → is_nibbles l → P l → P (a :: b :: l)) →
  ∀ n l, length l = (2 * n)%nat → is_nibbles l → P l.
Proof.
  intros H0 H1 n. induction n as [|n IH]; intros [|a [|b l]] Hl Hn; simpl in *; try (done || lia).
  inversion_clear Hn as [|? ? Ha Hn']. inversion_clear Hn' as [|? ? Hb Hn].
  apply H1; [done..|]. apply IH; [lia|done].
Qed.
Lemma length_pack n l : length l = (2 * n)%nat → length (pack l) = n.
Proof.
  revert l. induction n as [|n IH]; intros [|a [|b l]] Hl; simpl in *; try (done || lia).
  f_equal. apply IH. lia.
Qed.
Lemma pack_hex n l : length l = (2 * n)%nat → is_nibbles l → keybytesToHex (pack l) = l ++ [16].
Proof.
  revert n l. apply (pairs_ind (λ l, keybytesToHex (pack l) = l ++ [16])); [done|].
  intros a b l Ha Hb _ IH. unfold is_nibble in *. simpl. rewrite IH.
  rewrite (Z.mul_comm 16), Z.div_add_l, Z.div_small, (Z.add_comm (a * 16)), Z_mod_plus_full,
    Z.mod_small by lia. by rewrite Z.add_0_r.
Qed.
Lemma is_bytes_pack n l : length l = (2 * n)%nat → is_nibbles l → is_bytes (pack l).
Proof.
  revert n l. apply (pairs_ind (λ l, is_bytes (pack l))); [constructor|].
  intros a b l Ha Hb _ IH. unfold is_nibble in *. constructor; [|done]. unfold is_byte. lia.
Qed.
Lemma decodeNibbles_pack n l out :
  length l = (2 * n)%nat → is_nibbles l → (n <= length out)%nat →
  decodeNibbles l out = Ret (pack l ++ drop n out).
Proof.
  revert l out. induction n as [|n IH]; intros [|a [|b l]] out Hl Hn Ho; simpl in *;
    try (done || lia).
  inversion_clear Hn as [|? ? Ha Hn']. inversion_clear Hn' as [|? ? Hb Hn].
  destruct out as [|o out]; simpl in *; [lia|]. rewrite IH by (done || lia).
  by rewrite nibble_pair.
Qed.

(** The compact form: the flag nibble, the odd nibble or a zero, the rest in pairs. *)
Definition compact (t : bool) (l : bytes) : bytes :=
  if Nat.odd (length l) then
    match l with x :: l => 32 * Z.b2z t + 16 + x :: pack l | [] => [] end
  else 32 * Z.b2z t :: pack l.

Lemma hex_cases key :
  is_hex key → ∃ l (t : bool), key = l ++ (if t then [16] else []) ∧ is_nibbles l ∧
    hasTerm key = t ∧ (if hasTerm key then take (length key - 1) key else key) = l.
Proof.
  intros [H | (l & -> & H)].
  - exists key, false. rewrite (hasTerm_nibbles key H), app_nil_r. done.
  - exists l, true. rewrite hasTerm_snoc. split_and!; [done..|].
    rewrite length_app, take_app_le by (simpl; lia). simpl.
    replace (length l + 1 - 1)%nat with (length l) by lia. by rewrite take_ge.
Qed.
Lemma land_1_odd n : (Z.land (Z.of_nat n) 1 =? 1) = Nat.odd n.
Proof.
  change 1 with (Z.ones 1). rewrite Z.land_ones by lia. rewrite <-Nat.negb_even.
  destruct (Nat.even n) eqn:E; simpl; apply Z.eqb_neq || apply Z.eqb_eq.
  - apply Nat.even_spec in E as [m ->]. rewrite Nat2Z.inj_mul, Z.mul_comm.
    change (2 ^ 1) with 2. change (Z.of_nat 2) with 2. rewrite Z_mod_mult. done.
  - assert (Nat.odd n = true) as O by (by rewrite <-Nat.negb_even, E).
    apply Nat.odd_spec in O as [m ->].
    rewrite Nat2Z.inj_add, Nat2Z.inj_mul, Z.mul_comm, Z.add_comm.
    change (2 ^ 1) with 2. change (Z.of_nat 2) with 2. by rewrite Z_mod_plus_full.
Qed.
Lemma hex_to_compact_spec l (t : bool) :
  is_nibbles l → (length l <= 65)%nat →
  hex_to_compact (l ++ (if t then [16] else [])) = Ret (compact t l).
Proof.
  intros Hn Hl. set (key := l ++ _).
  assert (hasTerm key = t ∧ (if hasTerm key then take (length key - 1) key else key) = l)
    as [Ht Hk].
  { destruct (hex_cases key) as (l' & t' & E & Hn' & Ht & Hk).
    { unfold key. destruct t; [right; eauto|left]. by rewrite app_nil_r. }
    assert (t = t') as <-.
    { rewrite <-Ht. unfold key. destruct t; [by rewrite hasTerm_snoc|].
      by rewrite app_nil_r, hasTerm_nibbles. }
    unfold key in E. apply (app_inv_tail _ l l') in E as <-. done. }
  unfold hex_to_compact. rewrite Hk, Ht. clear Hk Ht. clearbody key.
  destruct (Nat.ltb_spec HexKeyCompactLen (length l / 2 + 1)) as [Hbad|_].
  { pose proof (Nat.Div0.div_le_mono (length l) 65 2 Hl) as D. change (65 / 2)%nat with 32%nat in D.
    unfold HexKeyCompactLen in Hbad. lia. }
  assert (u8 (Z.shiftl (if t then 1 else 0) 5) = 32 * Z.b2z t) as -> by by destruct t.
  rewrite land_1_odd. unfold compact. replace (length l / 2 + 1 - 1)%nat with (length l / 2)%nat by lia.
  destruct (Nat.odd (length l)) eqn:O.
  - apply Nat.odd_spec in O as [m Hm]. rewrite Hm.
    destruct l as [|x l]; [simpl in Hm; lia|]. inversion_clear Hn as [|? ? Hx Hn'].
    assert ((2 * m + 1) / 2 = m)%nat as -> by (rewrite Nat.mul_comm, Nat.div_add_l by lia; simpl; lia).
    rewrite (decodeNibbles_pack m) by (simpl in *; rewrite ?length_replicate; done || lia).
    rewrite drop_ge, app_nil_r by (rewrite length_replicate; lia). do 2 f_equal.
    unfold is_nibble in Hx.
    assert (Z.lor (32 * Z.b2z t) (Z.shiftl 1 4) = 32 * Z.b2z t + 16) as -> by by destruct t.
    rewrite (lor_add _ x 4); [lia|lia| |lia]. by destruct t.
  - assert (Nat.even (length l) = true) as Ev by (by rewrite <-Nat.negb_odd, O).
    apply Nat.even_spec in Ev as [m Hm]. rewrite Hm.
    assert ((2 * m) / 2 = m)%nat as -> by (rewrite Nat.mul_comm; apply Nat.div_mul; lia).
    rewrite (decodeNibbles_pack m) by (rewrite ?length_replicate; done || lia).
    by rewrite drop_ge, app_nil_r by (rewrite length_replicate; lia).
Qed.
Lemma compact_length t l : (length (compact t l) = length l / 2 + 1)%nat.
Proof.
  unfold compact. destruct (Nat.odd (length l)) eqn:O.
  - apply Nat.odd_spec in O as [m Hm]. rewrite Hm, (Nat.mul_comm 2), Nat.div_add_l by lia.
    destruct l as [|x l]; simpl in *; [lia|]. rewrite (length_pack m) by lia. simpl. lia.
  - assert (Nat.even (length l) = true) as Ev by (by rewrite <-Nat.negb_odd, O).
    apply Nat.even_spec in Ev as [m Hm]. rewrite Hm, Nat.mul_comm, Nat.div_mul by lia.
    simpl. rewrite (length_pack m) by lia. lia.
Qed.
Lemma compact_bytes t l : is_nibbles l → is_bytes (compact t l).
Proof.
  intros Hn. unfold compact. destruct (Nat.odd (length l)) eqn:O.
  - apply Nat.odd_spec in O as [m Hm]. destruct l as [|x l]; [constructor|].
    inversion_clear Hn as [|? ? Hx Hn']. unfold is_nibble in Hx. constructor.
    + unfold is_byte. destruct t; simpl; lia.
    + apply (is_bytes_pack m); [simpl in *; lia|done].
  - assert (Nat.even (length l) = true) as Ev by (by rewrite <-Nat.negb_odd, O).
    apply Nat.even_spec in Ev as [m Hm]. constructor.
    + unfold is_byte. destruct t; simpl; lia.
    + by apply (is_bytes_pack m).
Qed.
(** The end of [compact_to_hex], from the flag nibble [f] on. *)
Lemma chop_spec (t : bool) f x l :
  (f = if t then 2 else 0) ∨ (f = if t then 3 else 1) →
  (let ret := f :: x :: l ++ [16] in
   let ret := if f <? 2 then take (length ret - 1) ret else ret in
   let chop := 2 - Z.land f 1 in
   if Z.of_nat (length ret) <? chop then Panic slice_panic else Ret (drop (Z.to_nat chop) ret)) =
  Ret (drop (Z.to_nat (2 - Z.land f 1)) (f :: x :: l) ++ (if t then [16] else [])).
Proof.
  intros Hf. set (r := l ++ [16]). assert (length (f :: x :: r) - 1 = length (f :: x :: l))%nat as Hlen.
  { unfold r. simpl. rewrite length_app. simpl. lia. }
  cbv zeta. destruct (Z.ltb_spec f 2).
  - assert (t = false) as -> by (destruct t, Hf; (done || lia)).
    rewrite Hlen. change (f :: x :: r) with ((f :: x :: l) ++ [16]). rewrite take_app_length.
    assert (2 - Z.land f 1 = 2 - f) as -> by (destruct Hf as [-> | ->]; done).
    destruct (Z.ltb_spec (Z.of_nat (length (f :: x :: l))) (2 - f)) as [Hbad|_];
      [simpl in Hbad; destruct Hf as [-> | ->]; lia|]. by rewrite app_nil_r.
  - assert (t = true) as -> by (destruct t, Hf; (done || lia)).
    assert (2 - Z.land f 1 = 4 - f) as -> by (destruct Hf as [-> | ->]; done).
    destruct (Z.ltb_spec (Z.of_nat (length (f :: x :: r))) (4 - f)) as [Hbad|_];
      [simpl in Hbad; destruct Hf as [-> | ->]; lia|].
    f_equal. destruct Hf as [-> | ->]; done.
Qed.
Lemma compact_to_hex_spec t l :
  is_nibbles l → compact_to_hex (compact t l) = Ret (l ++ (if t then [16] else [])).
Proof.
  intros Hn. unfold compact, compact_to_hex. destruct (Nat.odd (length l)) eqn:O.
  - apply Nat.odd_spec in O as [m Hm]. destruct l as [|x l]; [simpl in Hm; lia|].
    inversion_clear Hn as [|? ? Hx Hn']. unfold is_nibble in Hx.
    assert ((32 * Z.b2z t + 16 + x) / 16 = 2 * Z.b2z t + 1) as Ed.
    { symmetry. apply (Z.div_unique _ _ _ x); [lia|]. destruct t; simpl; lia. }
    assert ((32 * Z.b2z t + 16 + x) mod 16 = x) as Em.
    { symmetry. apply (Z.mod_unique _ _ (2 * Z.b2z t + 1)); [lia|]. destruct t; simpl; lia. }
    cbn [keybytesToHex]. rewrite Ed, Em, (pack_hex m) by (done || (simpl in *; lia)).
    cbn [nth]. rewrite (chop_spec t) by (destruct t; tauto). by destruct t.
  - assert (Nat.even (length l) = true) as Ev by (by rewrite <-Nat.negb_odd, O).
    apply Nat.even_spec in Ev as [m Hm].
    assert ((32 * Z.b2z t) / 16 = 2 * Z.b2z t) as Ed by by destruct t.
    assert ((32 * Z.b2z t) mod 16 = 0) as Em by by destruct t.
    cbn [keybytesToHex]. rewrite Ed, Em, (pack_hex m) by (done || (simpl in *; lia)).
    cbn [nth]. rewrite (chop_spec t) by (destruct t; tauto). by destruct t.
Qed.
Lemma compact_inj t l t' l' :
  is_nibbles l → is_nibbles l' → compact t l = compact t' l' → t = t' ∧ l = l'.
Proof.
  intros Hl Hl' E. pose proof (compact_to_hex_spec t l Hl) as E1.
  rewrite E, (compact_to_hex_spec t' l' Hl') in E1. injection E1 as E1.
  assert (t = t') as <-; [|split; [done|by apply (app_inv_tail (if t then [16] else []))]].
  assert (∀ l (t : bool), is_nibbles l → hasTerm (l ++ (if t then [16] else [])) = t) as Hterm.
  { intros k [] Hk; [apply hasTerm_snoc|]. rewrite app_nil_r. by apply hasTerm_nibbles. }
  by rewrite <-(Hterm l t Hl), <-E1, Hterm.
Qed.

(** A key of the trie: 32 bytes, 64 nibbles and the terminator. *)
Lemma keybytes_nibbles k :
  is_bytes k → ∃ l, keybytesToHex k = l ++ [16] ∧ is_nibbles l ∧
    length l = (2 * length k)%nat ∧ pack l = k.
Proof.
  induction 1 as [|b k Hb Hk (l & E & Hn & Hlen & Hp)]; [by exists []|].
  unfold is_byte in Hb. exists (b / 16 :: b mod 16 :: l). cbn [keybytesToHex]. rewrite E.
  split_and!; [done| | |].
  - constructor; [|constructor; [|done]]; unfold is_nibble.
    + split; [apply Z.div_pos; lia|apply Z.div_lt_upper_bound; lia].
    + by apply Z.mod_pos_bound.
  - simpl. lia.
  - cbn [pack]. rewrite Hp. f_equal. symmetry. apply Z.div_mod. lia.
Qed.
Lemma hex_to_keybytes_spec n l (t : bool) out :
  is_nibbles l → length l = (2 * n)%nat → length out = n →
  hex_to_keybytes (l ++ (if t then [16] else [])) out = Ret (pack l).
Proof.
  intros Hn Hl Ho. unfold hex_to_keybytes.
  destruct (hex_cases (l ++ (if t then [16] else []))) as (l' & t' & E & Hn' & Ht & ->).
  { destruct t; [right; eauto|left]. by rewrite app_nil_r. }
  assert (l' = l) as ->.
  { assert (t' = t) as ->.
    { rewrite <-Ht. destruct t; [apply hasTerm_snoc|]. rewrite app_nil_r.
      by apply hasTerm_nibbles. }
    by apply app_inv_tail in E. }
  assert (Z.land (Z.of_nat (length l)) 1 = 0) as ->.
  { pose proof (land_1_odd (length l)) as O. rewrite Hl in *.
    rewrite <-Nat.negb_even, Nat.even_even in O. apply Z.eqb_neq in O.
    pose proof (Z.land_ones (Z.of_nat (2 * n)) 1 ltac:(lia)) as L. change (Z.ones 1) with 1 in L.
    pose proof (Z.mod_pos_bound (Z.of_nat (2 * n)) (2 ^ 1) ltac:(lia)). lia. }
  cbn [negb Z.eqb]. rewrite (decodeNibbles_pack n) by (done || lia).
  by rewrite drop_ge, app_nil_r by lia.
Qed.
Lemma pack_inj n l l' :
  length l = (2 * n)%nat → length l' = (2 * n)%nat → is_nibbles l → is_nibbles l' →
  pack l = pack l' → l = l'.
Proof.
  intros Hl Hl' Hn Hn' E. apply (app_inv_tail [16]).
  by rewrite <-(pack_hex n l), <-(pack_hex n l'), E.
Qed.

(** C32: hex_compact_roundtrip.  The compact form of every hex key the trie can meet (at most 65
    nibbles, with or without the terminator) fits the 33 bytes of the buffer, and
    [compact_to_hex] gives the key back, terminator included; the key bytes are what
    [hex_to_keybytes] recovers from their nibbles.  In particular no two keys share an
    encoding. *)
Theorem hex_compact_roundtrip key k :
  is_hex key → (length key <= HexKeyLen)%nat → is_bytes k →
  (∃ c, hex_to_compact key = Ret c ∧ is_bytes c ∧ (1 <= length c <= HexKeyCompactLen)%nat ∧
    compact_to_hex c = Ret key) ∧
  hex_to_keybytes (keybytesToHex k) (replicate (length k) 0) = Ret k.
Proof.
  intros Hk Hlen Hb. split.
  - destruct (hex_cases key Hk) as (l & t & -> & Hn & _ & _). unfold HexKeyLen in Hlen.
    rewrite length_app in Hlen. exists (compact t l). split_and!.
    + apply hex_to_compact_spec; [done|lia].
    + by apply compact_bytes.
    + rewrite compact_length. lia.
    + rewrite compact_length. unfold HexKeyCompactLen.
      pose proof (Nat.Div0.div_le_mono (length l) 65 2 ltac:(lia)) as D.
      change (65 / 2)%nat with 32%nat in D. lia.
    + by apply compact_to_hex_spec.
  - destruct (keybytes_nibbles k Hb) as (l & -> & Hn & Hl & Hp).
    rewrite (hex_to_keybytes_spec (length k) l true) by (done || by rewrite length_replicate).
    by rewrite Hp.
Qed.
Lemma hex_compact_roundtrip_witness :
  (∃ c, hex_to_compact [15; 1; 12; 11; 8; 16] = Ret c ∧ is_bytes c ∧
    (1 <= length c <= HexKeyCompactLen)%nat ∧ compact_to_hex c = Ret [15; 1; 12; 11; 8; 16]) ∧
  hex_to_keybytes (keybytesToHex [0x12; 0x34; 0x56]) (replicate (length [0x12; 0x34; 0x56]) 0) =
    Ret [0x12; 0x34; 0x56].
Proof.
  apply (hex_compact_roundtrip [15; 1; 12; 11; 8; 16] [0x12; 0x34; 0x56]).
  - right. exists [15; 1; 12; 11; 8]. split; [done|]. repeat (constructor; [vm_compute; done|]).
    constructor.
  - vm_compute. lia.
  - repeat (constructor; [vm_compute; done|]). constructor.
Defined.

(** The tables of [encoding_test.go]. *)
Example hex_compact_table :
  map hex_to_compact
    [[]; [16]; [1; 2; 3; 4; 5]; [0; 1; 2; 3; 4; 5]; [15; 1; 12; 11; 8; 16];
     [0; 15; 1; 12; 11; 8; 16]] =
  map Ret
    [[0x00]; [0x20]; [0x11; 0x23; 0x45]; [0x00; 0x01; 0x23; 0x45]; [0x3f; 0x1c; 0xb8];
     [0x20; 0x0f; 0x1c; 0xb8]].
Proof. reflexivity. Qed.
Example compact_hex_table :
  map compact_to_hex
    [[0x00]; [0x20]; [0x11; 0x23; 0x45]; [0x00; 0x01; 0x23; 0x45]; [0x3f; 0x1c; 0xb8];
     [0x20; 0x0f; 0x1c; 0xb8]] =
  map Ret
    [[]; [16]; [1; 2; 3; 4; 5]; [0; 1; 2; 3; 4; 5]; [15; 1; 12; 11; 8; 16];
     [0; 15; 1; 12; 11; 8; 16]].
Proof. reflexivity. Qed.
