(* ===== verification/Trie.v ===== *)
(** The state trie ([ebla/trie]: layout.go, interface.go, reader.go, writer.go, hash_encoder.go,
    commit_context.go): the nodes in memory and in the node store, reading a node back,
    insertion, deletion, and the commit that hashes the trie and writes what changed.
    The store behind [Input] and [IO] is an argument: reads see the committed block, writes are
    collected in order. *)
From S2P Require Import Prelude Codec Rlp RlpEncoder Storage TrieEncoding.

Abbreviation hash := bytes.
Definition HashLength : nat := 32.
Definition full_node_child_cnt : nat := 16.
Definition assertion_error : string := "assertion error".
Definition impossible : string := "impossible".
Definition out_of_fuel : string := "(out of fuel)".

(** * Interfaces ([interface.go], [layout.go]) *)
Class Schema : Type := {
  ValueStorageToHashEncoding : bytes → outcome bytes;
  MaxValueSizeToStoreInTrie : Z
}.
(** What the store answers: the callback runs once, or not at all when there is nothing. *)
Record Input : Type := {
  GetValue : hash → option bytes;
  GetNode : hash → option bytes
}.
Inductive write : Type :=
| PutValue (k : hash) (v : bytes)
| PutNode (h : hash) (b : bytes).
(** The values a client puts: [EncodeForTrie] is asked when the trie is committed. *)
Class TrieValue (V : Type) := EncodeForTrie : V → bytes * bytes.

Inductive Value (V : Type) : Type :=
| internal_value (enc_storage enc_hash : bytes)
| client_value (v : V).
Arguments internal_value {_} _ _.
Arguments client_value {_} _.

#[warnings="-register-all"]
Inductive node (V : Type) : Type :=
| nil_node
| full_node (children : list (node V)) (h : option hash)
| short_node (key_part : bytes) (val : node V) (h : option hash)
| node_hash (h : hash)
| value_node (val : option (Value V)).
Arguments nil_node {_}.
Arguments full_node {_} _ _.
Arguments short_node {_} _ _ _.
Arguments node_hash {_} _.
Arguments value_node {_} _.
Definition nil_val_node {V} : node V := value_node None.

Definition get_hash {V} (n : node V) : outcome (option hash) :=
  match n with
  | full_node _ h | short_node _ _ h => Ret h
  | node_hash h => Ret (Some h)
  | value_node _ => Panic "N/A"
  | nil_node => Panic "invalid memory address or nil pointer dereference"
  end.

(** [util.PanicIfNotNil]. *)
Definition must {S A} (o : outcome A) : M S A :=
  match o with Ret a => mret a | Err e => go_panic e | Panic p => go_panic p end.
Definition at_index {S A} (l : list A) (i : Z) : M S A :=
  match l !! Z.to_nat i with
  | Some x => if i <? 0 then go_panic index_panic else mret x
  | None => go_panic index_panic
  end.
Definition set_index {S A} (l : list A) (i : Z) (x : A) : M S (list A) :=
  if (0 <=? i) && (i <? Z.of_nat (length l)) then mret (<[Z.to_nat i := x]> l)
  else go_panic index_panic.

(** * Reading nodes ([reader.go]) *)
Section reader.
Context `{Keccak} `{Schema} {V : Type} (db_tx : Input) {St : Type}.

Definition resolve_val_n (key : hash) : M St (node V) :=
  match GetValue db_tx key with
  | Some enc_storage =>
      enc_hash ← of_outcome (ValueStorageToHashEncoding enc_storage);
      mret (value_node (Some (internal_value enc_storage enc_hash)))
  | None => go_panic assertion_error
  end.
Definition resolve_val_n_by_hex_k (hex_key : bytes) : M St (node V) :=
  key ← of_outcome (hex_to_keybytes hex_key (replicate HashLength 0));
  resolve_val_n key.

Definition is_node_hash (n : node V) : bool := match n with node_hash _ => true | _ => false end.

Definition dec_leaf (key_prefix : bytes) (db_hash : option hash) (key_ext content : bytes) :
    M St (node V) :=
  match content with
  | [] =>
      val ← resolve_val_n_by_hex_k (key_prefix ++ key_ext);
      mret (short_node key_ext val db_hash)
  | _ =>
      '(content, _) ← must (SplitString content);
      if (length content =? HashLength)%nat then
        mret (short_node key_ext nil_val_node (Some content))
      else
        panic_if (negb ((0 <? blen content) && (blen content <=? MaxValueSizeToStoreInTrie)))
          assertion_error ;;
        enc_hash ← of_outcome (ValueStorageToHashEncoding content);
        mret (short_node key_ext (value_node (Some (internal_value content enc_hash))) db_hash)
  end.
Definition dec_short (dec : bytes → option hash → bytes → M St (node V * bytes))
    (key_prefix : bytes) (db_hash : option hash) (buf : bytes) (payload_start : Z) :
    M St (node V) :=
  '(key_ext, content) ← must (SplitString (drop (Z.to_nat payload_start) buf));
  key_ext ← of_outcome (compact_to_hex key_ext);
  if hasTerm key_ext then dec_leaf key_prefix db_hash key_ext content
  else
    '(val, _) ← dec (key_prefix ++ key_ext) None content;
    let h := match db_hash with
             | None => if is_node_hash val then Some (keccak buf) else None
             | Some h => Some h
             end in
    mret (short_node key_ext val h).
Fixpoint dec_children (dec : bytes → option hash → bytes → M St (node V * bytes))
    (key_prefix : bytes) (i : Z) (n : nat) (enc : bytes) : M St (list (node V)) :=
  match n with
  | O => mret []
  | S n =>
      '(child, enc) ← dec (key_prefix ++ [i]) None enc;
      children ← dec_children dec key_prefix (i + 1) n enc;
      mret (child :: children)
  end.
Definition dec_full (dec : bytes → option hash → bytes → M St (node V * bytes))
    (key_prefix : bytes) (db_hash : option hash) (enc : bytes) : M St (node V) :=
  children ← dec_children dec key_prefix 0 full_node_child_cnt enc;
  mret (full_node children db_hash).
(** Each nested value is shorter than the one it is part of: the length is fuel enough. *)
Fixpoint dec_node (fuel : nat) (key_prefix : bytes) (db_hash : option hash) (buf : bytes) :
    M St (node V * bytes) :=
  match fuel with
  | O => go_panic out_of_fuel
  | S fuel =>
      '(kind, tagsize, total_size) ← must (ReadKind buf);
      let payload := drop (Z.to_nat tagsize) (take (Z.to_nat total_size) buf) in
      let rest := drop (Z.to_nat total_size) buf in
      match kind with
      | KList =>
          size ← must (CountValues payload);
          if (size =? 1) || (size =? 2) then
            n ← dec_short (dec_node fuel) key_prefix db_hash
                  (take (Z.to_nat total_size) buf) tagsize;
            mret (n, rest)
          else if size =? Z.of_nat full_node_child_cnt then
            n ← dec_full (dec_node fuel) key_prefix db_hash payload;
            mret (n, rest)
          else go_panic impossible
      | KString =>
          match payload with
          | [] => mret (nil_node, rest)
          | _ => if (length payload =? HashLength)%nat then mret (node_hash payload, rest)
                 else go_panic impossible
          end
      | KByte => go_panic impossible
      end
  end.

Definition resolve (h : hash) (key_prefix : bytes) : M St (node V * bytes) :=
  match GetNode db_tx h with
  | Some b =>
      '(n, _) ← dec_node (S (length b)) key_prefix (Some h) b;
      match n with nil_node => go_panic assertion_error | _ => mret (n, b) end
  | None => go_panic assertion_error
  end.

(** [for_each], [for_each_node_hash]: the calls of the callback, in order. *)
Fixpoint for_each (fuel : nat) (n : node V) (with_values : bool) (prefix : bytes) :
    M St (list (hash * option (Value V))) :=
  match fuel with
  | O => go_panic out_of_fuel
  | S fuel =>
      match n with
      | node_hash h =>
          '(n, _) ← resolve h prefix;
          for_each fuel n with_values prefix
      | short_node key_part val _ =>
          let key_extended := prefix ++ key_part in
          match val with
          | value_node v =>
              key ← of_outcome (hex_to_keybytes key_extended (replicate HashLength 0));
              match v with
              | None =>
                  if with_values then
                    n ← resolve_val_n key;
                    match n with
                    | value_node v => mret [(key, v)]
                    | _ => go_panic impossible
                    end
                  else mret [(key, None)]
              | Some v => mret [(key, Some v)]
              end
          | _ => for_each fuel val with_values key_extended
          end
      | full_node children _ =>
          (fix loop (i : Z) (cs : list (node V)) : M St (list (hash * option (Value V))) :=
             match cs with
             | [] => mret []
             | nil_node :: cs => loop (i + 1) cs
             | c :: cs =>
                 l1 ← for_each fuel c with_values (prefix ++ [i]);
                 l2 ← loop (i + 1) cs;
                 mret (l1 ++ l2)
             end) 0 children
      | _ => go_panic impossible
      end
  end.
Definition ForEach (root_hash : hash) (with_values : bool) : M St (list (hash * option (Value V))) :=
  for_each (2 * HexKeyLen + 2) (node_hash root_hash) with_values [].
Fixpoint for_each_node_hash (fuel : nat) (n : node V) (prefix : bytes) :
    M St (list (hash * bytes)) :=
  match fuel with
  | O => go_panic out_of_fuel
  | S fuel =>
      match n with
      | node_hash h =>
          '(n, b) ← resolve h prefix;
          l ← for_each_node_hash fuel n prefix;
          mret ((h, b) :: l)
      | short_node key_part val _ =>
          match val with
          | value_node _ => mret []
          | _ => for_each_node_hash fuel val (prefix ++ key_part)
          end
      | full_node children _ =>
          (fix loop (i : Z) (cs : list (node V)) : M St (list (hash * bytes)) :=
             match cs with
             | [] => mret []
             | nil_node :: cs => loop (i + 1) cs
             | c :: cs =>
                 l1 ← for_each_node_hash fuel c (prefix ++ [i]);
                 l2 ← loop (i + 1) cs;
                 mret (l1 ++ l2)
             end) 0 children
      | _ => go_panic impossible
      end
  end.
Definition ForEachNodeHash (root_hash : hash) : M St (list (hash * bytes)) :=
  for_each_node_hash (2 * HexKeyLen + 2) (node_hash root_hash) [].
End reader.

(** * Insertion and deletion ([writer.go])
    [kbuf_0] is the hex key of the operation; the node of a call is at its prefix of length
    [keypos].  The code changes nodes in place: the result is the node after the change. *)
Section writer.
Context `{Keccak} `{Schema} {V : Type} (db_tx : Input) {St : Type} (kbuf_0 : bytes).

Definition resolve_node (h : hash) (key_prefix : bytes) : M St (node V) :=
  '(n, _) ← resolve db_tx h key_prefix; mret n.

Definition shift (key_part : bytes) (val : node V) (h : option hash) (new_prefix : bytes)
    (pivot : Z) (new_suffix : bytes) (up : bool) : M St (node V) :=
  val ← match val with
        | value_node None => resolve_val_n_by_hex_k db_tx (new_prefix ++ [pivot] ++ new_suffix)
        | _ => mret val
        end;
  if up then mret (short_node (pivot :: new_suffix) val h)
  else match new_suffix with
       | [] => mret val
       | _ => mret (short_node new_suffix val h)
       end.

Fixpoint mpt_insert (fuel : nat) (n : node V) (keypos : nat) (value : node V) : M St (node V) :=
  match fuel with
  | O => go_panic out_of_fuel
  | S fuel =>
      match n with
      | short_node key_part val _ =>
          let matchlen := prefixLen (drop keypos kbuf_0) key_part in
          let keypos_after_match := (keypos + matchlen)%nat in
          if (keypos_after_match =? HexKeyLen)%nat then mret (short_node key_part value None)
          else if (matchlen =? length key_part)%nat then
            val ← mpt_insert fuel val keypos_after_match value;
            mret (short_node key_part val None)
          else
            new_pivot ← at_index key_part (Z.of_nat matchlen);
            moved ← shift key_part val None (take keypos_after_match kbuf_0) new_pivot
                      (drop (matchlen + 1) key_part) false;
            children ← set_index (replicate full_node_child_cnt nil_node) new_pivot moved;
            own ← at_index kbuf_0 (Z.of_nat keypos_after_match);
            children ← set_index children own
                         (short_node (drop (keypos_after_match + 1) kbuf_0) value None);
            let junction := full_node children None in
            if (matchlen =? 0)%nat then mret junction
            else mret (short_node (take matchlen (drop keypos kbuf_0)) junction None)
      | full_node children _ =>
          own ← at_index kbuf_0 (Z.of_nat keypos);
          child ← at_index children own;
          child ← mpt_insert fuel child (keypos + 1) value;
          children ← set_index children own child;
          mret (full_node children None)
      | node_hash h =>
          n ← resolve_node h (take keypos kbuf_0);
          mpt_insert fuel n keypos value
      | nil_node => mret (short_node (drop keypos kbuf_0) value None)
      | value_node _ => go_panic impossible
      end
  end.

(** Which child is left when the one at [deletion_nibble] goes: none when there are several. *)
Fixpoint only_child (children : list (node V)) (deletion_nibble i only : Z) : Z :=
  match children with
  | [] => only
  | c :: cs =>
      match c with
      | nil_node => only_child cs deletion_nibble (i + 1) only
      | _ => if negb (i =? deletion_nibble) then
               if negb (only =? -1) then -1
               else only_child cs deletion_nibble (i + 1) i
             else only_child cs deletion_nibble (i + 1) only
      end
  end.

(** The result of [mpt_del]: the node after the deletion, or the panic [mpt_del_not_found] that
    [write] recovers, with the node as it was left: a short node passed on the way has lost
    its hash, a node read from the store for the search is dropped. *)
Inductive deleted : Type := Deleted (n : node V) | NotFound (n : node V).

Fixpoint mpt_del (fuel : nat) (n : node V) (keypos : nat) : M St deleted :=
  match fuel with
  | O => go_panic out_of_fuel
  | S fuel =>
      match n with
      | short_node key_part val h =>
          let matchlen := prefixLen (drop keypos kbuf_0) key_part in
          if negb (matchlen =? length key_part)%nat then mret (NotFound n)
          else
            let keypos := (keypos + matchlen)%nat in
            if (keypos =? length kbuf_0)%nat then mret (Deleted nil_node)
            else
              r ← mpt_del fuel val keypos;
              match r with
              | NotFound val => mret (NotFound (short_node key_part val None))
              | Deleted (short_node child_key child_val _) =>
                  mret (Deleted (short_node (key_part ++ child_key) child_val None))
              | Deleted child => mret (Deleted (short_node key_part child None))
              end
      | full_node children h =>
          deletion_nibble ← at_index kbuf_0 (Z.of_nat keypos);
          child ← at_index children deletion_nibble;
          r ← mpt_del fuel child (keypos + 1);
          match r with
          | NotFound child =>
              children ← set_index children deletion_nibble child;
              mret (NotFound (full_node children h))
          | Deleted deletion_child =>
              let only_child_nibble :=
                match deletion_child with
                | nil_node => only_child children deletion_nibble 0 (-1)
                | _ => -1
                end in
              if only_child_nibble =? -1 then
                children ← set_index children deletion_nibble deletion_child;
                mret (Deleted (full_node children None))
              else
                only ← at_index children only_child_nibble;
                only ← match only with
                       | node_hash h =>
                           resolve_node h (take keypos kbuf_0 ++ [only_child_nibble])
                       | _ => mret only
                       end;
                match only with
                | short_node key_part val _ =>
                    n ← shift key_part val None (take keypos kbuf_0) only_child_nibble
                          key_part true;
                    mret (Deleted n)
                | _ => mret (Deleted (short_node [only_child_nibble] only None))
                end
          end
      | node_hash h =>
          n' ← resolve_node h (take keypos kbuf_0);
          r ← mpt_del fuel n' keypos;
          match r with
          | NotFound _ => mret (NotFound n)
          | Deleted n => mret (Deleted n)
          end
      | nil_node => mret (NotFound n)
      | value_node _ => go_panic impossible
      end
  end.
End writer.
Arguments Deleted {_} _.
Arguments NotFound {_} _.

(** * Commit ([hash_encoder.go], [commit_context.go], [writer.go]) *)
Record hash_encoder : Type := { encoder : Encoder; disabled : bool }.
(** The two encodings in progress (what is hashed, what is stored) and the writes so far. *)
Record commit_context : Type := {
  enc_hash : hash_encoder;
  enc_storage : Encoder;
  writes : list write
}.
Abbreviation CM := (M commit_context).

Definition storage_enc {A} (m : Enc A) : CM A := λ c,
  let '(o, e) := m (enc_storage c) in
  (o, {| enc_hash := enc_hash c; enc_storage := e; writes := writes c |}).
Definition hash_enc {A} (m : Enc A) : CM A := λ c,
  let '(o, e) := m (encoder (enc_hash c)) in
  (o, {| enc_hash := {| encoder := e; disabled := disabled (enc_hash c) |};
         enc_storage := enc_storage c; writes := writes c |}).
Definition is_disabled : CM bool := λ c, (Ret (disabled (enc_hash c)), c).
Definition Toggle : CM unit := λ c,
  (Ret tt, {| enc_hash := {| encoder := encoder (enc_hash c);
                             disabled := negb (disabled (enc_hash c)) |};
              enc_storage := enc_storage c; writes := writes c |}).
Definition put (w : write) : CM unit := λ c,
  (Ret tt, {| enc_hash := enc_hash c; enc_storage := enc_storage c; writes := writes c ++ [w] |}).
Definition commit_context_Reset : CM unit := λ c,
  (Ret tt, {| enc_hash := {| encoder := encoder_nil; disabled := false |};
              enc_storage := encoder_nil; writes := writes c |}).

Definition hash_AppendString (s : bytes) : CM unit :=
  d ← is_disabled; if (d : bool) then mret tt else hash_enc (Append s).
(** [ListStart]: -1, no position, when the encoder is disabled. *)
Definition hash_ListStart : CM (option nat) :=
  d ← is_disabled;
  if (d : bool) then mret None else pos ← hash_enc ListStart; mret (Some pos).
(** [ListEnd]: the hash [*out] is set when the list is long enough, or the root. *)
Definition hash_ListEnd `{Keccak} (list_pos : option nat) (is_root : bool) (out : option hash) :
    CM (option hash) :=
  d ← is_disabled;
  if (d : bool) then mret out
  else
    match list_pos with
    | None => go_panic index_panic
    | Some pos =>
        hash_enc (ListEnd pos) ;;
        size ← hash_enc (ListSize pos);
        if (size <? Z.of_nat HashLength) && negb is_root then mret out
        else
          b ← hash_enc (Flush pos);
          let h := keccak b in
          when (negb is_root)
            (hash_enc (RevertToListStart pos) ;; hash_enc (Append h)) ;;
          mret (Some h)
    end.

Section commit.
Context `{Keccak} `{Schema} {V : Type} `{!TrieValue V} (FullNodeLevelsToCache : Z).

(** The encodings of a value; a client's value is put.  [val_n.val = val] assigns to a copy of the
    node's value: the node keeps the client's value. *)
Definition commit_value (hex_key : bytes) (v : Value V) : CM (bytes * bytes) :=
  match v with
  | internal_value s h => mret (s, h)
  | client_value v =>
      let '(s, h) := EncodeForTrie v in
      key ← of_outcome (hex_to_keybytes hex_key (replicate HashLength 0));
      put (PutValue key s) ;;
      mret (s, h)
  end.
(** The content of a leaf's encodings; [h] is the hash the node has. *)
Definition commit_leaf (hex_key : bytes) (h : option hash) (v : option (Value V)) : CM bytes :=
  match v with
  | None =>
      panic_if (match h with None => true | Some _ => false end) assertion_error ;; mret []
  | Some v =>
      '(s, e) ← commit_value hex_key v;
      hash_AppendString e ;;
      mret s
  end.

(** The end of a full node: the storage list is closed, the hash taken, the node put. *)
Definition end_full (full_nodes_above : Z) (is_root : bool) (children : list (node V))
    (storage_list_start : nat) (hash_list_start : option nat) : CM (node V) :=
  storage_enc (ListEnd storage_list_start) ;;
  hash_AppendString [] ;;
  h ← hash_ListEnd hash_list_start is_root None;
  match h with
  | None => mret (full_node children None)
  | Some h =>
      b ← storage_enc (ToBytes storage_list_start);
      put (PutNode h b) ;;
      when (negb is_root)
        (storage_enc (RevertToListStart storage_list_start) ;; storage_enc (Append h)) ;;
      if FullNodeLevelsToCache <=? full_nodes_above then mret (node_hash h)
      else mret (full_node children (Some h))
  end.
(** The end of a short node; [s] is the value's encoding when it holds one. *)
Definition end_short (is_root : bool) (s : option bytes) (h : option hash)
    (storage_list_start : nat) (hash_list_start : option nat) : CM (option hash) :=
  h ← hash_ListEnd hash_list_start is_root h;
  match s with
  | None => mret tt
  | Some s =>
      match h with
      | Some h => storage_enc (Append h)
      | None => if blen s <=? MaxValueSizeToStoreInTrie then storage_enc (Append s) else mret tt
      end
  end ;;
  storage_enc (ListEnd storage_list_start) ;;
  when is_root
    (match h with
     | Some h => b ← storage_enc (ToBytes storage_list_start); put (PutNode h b)
     | None => go_panic "invalid memory address or nil pointer dereference"
     end) ;;
  mret h.

Fixpoint commit (full_nodes_above : Z) (key_prefix : bytes) (n : node V) : CM (node V) :=
  let is_root := match key_prefix with [] => true | _ => false end in
  match n with
  | node_hash h =>
      hash_AppendString h ;; storage_enc (Append h) ;; mret n
  | short_node key_part val h =>
      match h with Some h => hash_AppendString h ;; Toggle | None => mret tt end ;;
      storage_list_start ← storage_enc ListStart;
      hash_list_start ← hash_ListStart;
      hashed_key_ext ← of_outcome (hex_to_compact key_part);
      storage_enc (Append hashed_key_ext) ;;
      hash_AppendString hashed_key_ext ;;
      r ← match val with
          | value_node v =>
              s ← commit_leaf (key_prefix ++ key_part) h v; mret (Some s, val)
          | _ =>
              val ← commit full_nodes_above (key_prefix ++ key_part) val; mret (None, val)
          end;
      h' ← end_short is_root r.1 h storage_list_start hash_list_start;
      match h with Some _ => Toggle | None => mret tt end ;;
      mret (short_node key_part r.2 h')
  | full_node children (Some h) =>
      hash_AppendString h ;; storage_enc (Append h) ;;
      if FullNodeLevelsToCache <=? full_nodes_above then mret (node_hash h) else mret n
  | full_node children None =>
      hash_list_start ← hash_ListStart;
      storage_list_start ← storage_enc ListStart;
      children ← (fix loop (i : Z) (cs : list (node V)) : CM (list (node V)) :=
         match cs with
         | [] => mret []
         | c :: cs =>
             c ← match c with
                 | nil_node =>
                     hash_AppendString [] ;; storage_enc (Append []) ;; mret nil_node
                 | _ => commit (u8 (full_nodes_above + 1)) (key_prefix ++ [i]) c
                 end;
             cs ← loop (i + 1) cs;
             mret (c :: cs)
         end) 0 children;
      end_full full_nodes_above is_root children storage_list_start hash_list_start
  | _ => go_panic impossible
  end.
End commit.

(** * The writer *)
Record Writer (V : Type) : Type := {
  root : node V;
  FullNodeLevelsToCache : Z
}.
Arguments root {_} _.
Arguments FullNodeLevelsToCache {_} _.
Record writer_state (V : Type) : Type := {
  the_writer : Writer V;
  written : list write
}.
Arguments the_writer {_} _.
Arguments written {_} _.

Definition Writer_Init {S V} (root_hash : option hash) (levels : Z) : M S (Writer V) :=
  panic_if (negb (levels <=? Z.of_nat MaxDepth)) assertion_error ;;
  mret {| root := match root_hash with Some h => node_hash h | None => nil_node end;
          FullNodeLevelsToCache := levels |}.

Section operations.
Context `{Keccak} `{Schema} {V : Type} `{!TrieValue V} (db_tx : Input).
Abbreviation W := (M (writer_state V)).

Definition get_root : W (node V) := λ w, (Ret (root (the_writer w)), w).
Definition set_root (n : node V) : W unit := λ w,
  (Ret tt, {| the_writer := {| root := n;
                               FullNodeLevelsToCache := FullNodeLevelsToCache (the_writer w) |};
              written := written w |}).
Definition emit (x : write) : W unit := λ w,
  (Ret tt, {| the_writer := the_writer w; written := written w ++ [x] |}).
(** Every call either passes a nibble of the key or reads a node that is not a hash. *)
Definition trie_fuel : nat := 2 * HexKeyLen + 2.

Definition Put (k : hash) (v : V) : W unit :=
  n ← get_root;
  n ← mpt_insert db_tx (keybytesToHex k) trie_fuel n 0 (value_node (Some (client_value v)));
  set_root n.
(** A key that is not there: the panic is recovered, the root stays, nothing is written. *)
Definition Delete (k : hash) : W unit :=
  n ← get_root;
  r ← mpt_del db_tx (keybytesToHex k) trie_fuel n 0;
  match r with
  | NotFound n => set_root n
  | Deleted n => set_root n ;; emit (PutValue k [])
  end.
Definition run_commit (n : node V) : W (node V) := λ w,
  let '(o, c) := (commit_context_Reset ;; commit (FullNodeLevelsToCache (the_writer w)) 0 [] n)
                   {| enc_hash := {| encoder := encoder_nil; disabled := false |};
                      enc_storage := encoder_nil; writes := written w |} in
  (o, {| the_writer := the_writer w; written := writes c |}).
Definition Commit : W (option hash) :=
  n ← get_root;
  match n with
  | nil_node => mret None
  | _ =>
      h ← of_outcome (get_hash n);
      match h with
      | Some h => mret (Some h)
      | None =>
          n ← run_commit n;
          set_root n ;;
          of_outcome (get_hash n)
      end
  end.
End operations.
