(* ===== verification/TrieMap.v ===== *)
(** The abstract trie: what the nodes of [Trie.v] stand for, once read and without caches.
    A trie is a finite map from hex keys to values; the well-formed ones (no empty branch, no
    branch of one child, no key part in front of a key part) are determined by the map. *)
From S2P Require Import Prelude Codec TrieEncoding.

#[warnings="-register-all"]
Inductive trie : Type :=
| Leaf (k : bytes) (v : bytes)
| Ext (p : bytes) (t : trie)
| Branch (ts : list (option trie)).

(** [strip p k]: what follows the prefix [p] in [k]. *)
Fixpoint strip (p k : bytes) : option bytes :=
  match p, k with
  | [], _ => Some k
  | x :: p, y :: k => if x =? y then strip p k else None
  | _, [] => None
  end.
Fixpoint tlookup (t : trie) (k : bytes) : option bytes :=
  match t with
  | Leaf k' v => if bool_decide (k = k') then Some v else None
  | Ext p t => match strip p k with Some k => tlookup t k | None => None end
  | Branch ts =>
      match k with
      | [] => None
      | x :: k =>
          if 0 <=? x then (fix nth_child (ts : list (option trie)) (i : nat) : option bytes :=
             match ts with
             | [] => None
             | o :: ts =>
                 match i with
                 | O => match o with Some t => tlookup t k | None => None end
                 | S i => nth_child ts i
                 end
             end) ts (Z.to_nat x) else None
      end
  end.
Definition olookup (o : option trie) (k : bytes) : option bytes := o ≫= λ t, tlookup t k.
Definition child (ts : list (option trie)) (i : nat) : option trie := default None (ts !! i).
Definition pick (ts : list (option trie)) (x : Z) : option trie :=
  if 0 <=? x then child ts (Z.to_nat x) else None.

Lemma strip_app p k : strip p (p ++ k) = Some k.
Proof. induction p as [|x p IH]; [done|]. simpl. by rewrite Z.eqb_refl. Qed.
Lemma strip_Some p k r : strip p k = Some r ↔ k = p ++ r.
Proof.
  split; [|intros ->; apply strip_app]. revert k. induction p as [|x p IH]; intros [|y k] E;
    simpl in *; try congruence. destruct (Z.eqb_spec x y) as [<-|]; [|done]. by rewrite (IH k).
Qed.
Lemma strip_comp p q k : strip (p ++ q) k = strip p k ≫= strip q.
Proof.
  revert k. induction p as [|x p IH]; intros [|y k]; simpl; try done.
  destruct (x =? y); [apply IH|done].
Qed.
Lemma tlookup_branch ts k :
  tlookup (Branch ts) k =
  match k with [] => None | x :: k => olookup (pick ts x) k end.
Proof.
  destruct k as [|x k]; [done|]. cbn [tlookup]. unfold pick, child. destruct (0 <=? x); [|done].
  generalize (Z.to_nat x) as i. induction ts as [|[t|] ts IH]; intros [|i]; try done; apply IH.
Qed.
Lemma tlookup_ext p t k : tlookup (Ext p t) k = strip p k ≫= tlookup t.
Proof. cbn [tlookup]. by destruct (strip p k). Qed.
Lemma tlookup_leaf k' v k : tlookup (Leaf k' v) k = if bool_decide (k = k') then Some v else None.
Proof. done. Qed.

(** * Well-formed tries over keys of [d] more nibbles, the terminator counted *)
Definition is_key (d : nat) (k : bytes) : Prop :=
  ∃ l, k = l ++ [16] ∧ is_nibbles l ∧ d = S (length l).
Definition two_children (ts : list (option trie)) : Prop :=
  ∃ i j t u, i ≠ j ∧ ts !! i = Some (Some t) ∧ ts !! j = Some (Some u).
Inductive wf : nat → trie → Prop :=
| wf_leaf d k v : is_key d k → wf d (Leaf k v)
| wf_ext d p ts : is_nibbles p → p ≠ [] → wf d (Branch ts) → wf (length p + d) (Ext p (Branch ts))
| wf_branch d ts : length ts = 16%nat → two_children ts →
    (∀ i t, ts !! i = Some (Some t) → wf d t) → wf (S d) (Branch ts).
Definition owf (d : nat) (o : option trie) : Prop := match o with Some t => wf d t | None => True end.

Lemma is_key_length d k : is_key d k → length k = d.
Proof. intros (l & -> & _ & ->). rewrite length_app. simpl. lia. Qed.
Lemma is_key_app d p k : is_nibbles p → is_key d k → is_key (length p + d) (p ++ k).
Proof.
  intros Hp (l & -> & Hl & ->). exists (p ++ l). rewrite <-app_assoc, is_nibbles_app, length_app.
  by split_and!.
Qed.
Lemma is_key_cons d x k : is_nibble x → is_key d k → is_key (S d) (x :: k).
Proof. intros Hx Hk. apply (is_key_app d [x]); [by constructor|done]. Qed.
Lemma is_key_inv d p k : is_key d (p ++ k) → k ≠ [] → is_nibbles p ∧ is_key (d - length p) k.
Proof.
  intros (l & E & Hl & ->) Hne. destruct (exists_last Hne) as (k' & x & ->).
  rewrite app_assoc in E. apply app_inj_tail in E as [<- ->]. apply is_nibbles_app in Hl as [Hp Hk].
  split; [done|]. exists k'. rewrite length_app. split_and!; [done..|]. lia.
Qed.
Lemma is_key_0 k : ¬ is_key 0 k.
Proof. by intros (l & _ & _ & ?). Qed.
Lemma nibble_index x : is_nibble x → (Z.to_nat x < 16)%nat ∧ Z.of_nat (Z.to_nat x) = x.
Proof. unfold is_nibble. lia. Qed.
Lemma index_nibble i : (i < 16)%nat → is_nibble (Z.of_nat i).
Proof. unfold is_nibble. lia. Qed.

Lemma child_some ts i t : child ts i = Some t ↔ ts !! i = Some (Some t).
Proof.
  unfold child. destruct (ts !! i) as [o|]; simpl; [|done]. split; [by intros ->|congruence].
Qed.
Lemma child_insert ts i j o :
  (i < length ts)%nat → child (<[i := o]> ts) j = if decide (i = j) then o else child ts j.
Proof.
  intros Hi. unfold child. destruct (decide (i = j)) as [<-|Hne].
  - by rewrite list_lookup_insert_eq.
  - by rewrite list_lookup_insert_ne.
Qed.
Lemma child_replicate n i : child (replicate n None) i = None.
Proof.
  unfold child. destruct (replicate n None !! i) eqn:E; [|done].
  by apply lookup_replicate in E as [-> _].
Qed.
Lemma child_wf d ts i : wf (S d) (Branch ts) → owf d (child ts i).
Proof.
  inversion 1; subst. destruct (child ts i) as [t|] eqn:E; [|done]. apply child_some in E.
  simpl. eauto.
Qed.

Lemma pick_some d ts x t :
  wf (S d) (Branch ts) → pick ts x = Some t →
  is_nibble x ∧ ts !! Z.to_nat x = Some (Some t) ∧ wf d t.
Proof.
  unfold pick. intros Hwf. destruct (Z.leb_spec 0 x) as [Hx|]; [|done]. intros Hc%child_some.
  inversion Hwf as [| |? ? Hlen _ Hall]; subst. split_and!; [|done|by eapply Hall].
  apply lookup_lt_Some in Hc. unfold is_nibble. lia.
Qed.
Lemma pick_index ts i : pick ts (Z.of_nat i) = child ts i.
Proof. unfold pick. rewrite Nat2Z.id. by destruct (Z.leb_spec 0 (Z.of_nat i)); [|lia]. Qed.
Lemma pick_nibble ts x : is_nibble x → pick ts x = child ts (Z.to_nat x).
Proof. unfold pick, is_nibble. intros. destruct (Z.leb_spec 0 x); [done|lia]. Qed.

(** Only keys of the right length have values, and a trie has at least one. *)
Lemma tlookup_is_key d t k v : wf d t → tlookup t k = Some v → is_key d k.
Proof.
  intros Hwf. revert k v. induction Hwf as [d k0 v0 Hk|d p ts Hp Hne Hwf IH|d ts Hl Htwo Hwf IH];
    intros k v E.
  - rewrite tlookup_leaf in E. case_bool_decide; by simplify_eq.
  - rewrite tlookup_ext in E. destruct (strip p k) as [r|] eqn:Es; [|done].
    apply strip_Some in Es as ->. apply is_key_app; [done|]. by apply (IH r v).
  - rewrite tlookup_branch in E. destruct k as [|x k]; [done|]. unfold olookup in E.
    destruct (pick ts x) as [t|] eqn:Ec; [|done].
    destruct (pick_some d ts x t) as (Hx & Hi & _); [by constructor|done|].
    apply is_key_cons; [done|]. by apply (IH _ _ Hi k v).
Qed.
Lemma tlookup_exists d t : wf d t → ∃ k v, tlookup t k = Some v.
Proof.
  induction 1 as [d k v _|d p ts _ _ _ (k & v & E)|d ts _ (i & _ & t & _ & _ & Hi & _) _ IH].
  - exists k, v. rewrite tlookup_leaf. by rewrite bool_decide_true.
  - exists (p ++ k), v. by rewrite tlookup_ext, strip_app.
  - destruct (IH i t Hi) as (k & v & E). exists (Z.of_nat i :: k), v.
    rewrite tlookup_branch, pick_index. apply child_some in Hi. by rewrite Hi.
Qed.
(** The keys below a branch do not begin with the same nibble. *)
Lemma branch_heads d ts :
  wf d (Branch ts) → ∃ x y k l v w,
    x ≠ y ∧ tlookup (Branch ts) (x :: k) = Some v ∧ tlookup (Branch ts) (y :: l) = Some w.
Proof.
  inversion 1 as [| |d' ? _ (i & j & t & u & Hne & Hi & Hj) Hall]; subst.
  destruct (tlookup_exists _ _ (Hall i t Hi)) as (k & v & Ek).
  destruct (tlookup_exists _ _ (Hall j u Hj)) as (l & w & El).
  exists (Z.of_nat i), (Z.of_nat j), k, l, v, w. rewrite !tlookup_branch, !pick_index.
  apply child_some in Hi, Hj. rewrite Hi, Hj. split_and!; [lia|done|done].
Qed.
Lemma prefix_of_both (p q : bytes) x y k l r s :
  x ≠ y → p ++ x :: k = q ++ r → p ++ y :: l = q ++ s → ∃ z, p = q ++ z.
Proof.
  revert q. induction p as [|a p IH]; intros [|b q] Hne E1 E2; simpl in *; simplify_eq; eauto.
  destruct (IH q) as [z ->]; eauto.
Qed.

(** * Canonical form: the map determines the trie *)
Lemma ext_prefix d p ts q ts' :
  wf d (Branch ts) →
  (∀ k, tlookup (Ext p (Branch ts)) k = tlookup (Ext q (Branch ts')) k) → ∃ z, p = q ++ z.
Proof.
  intros Hwf E. destruct (branch_heads d ts Hwf) as (x & y & k & l & v & w & Hne & Ek & El).
  pose proof (E (p ++ x :: k)) as Ex. pose proof (E (p ++ y :: l)) as Ey.
  rewrite !tlookup_ext, !strip_app in Ex, Ey. cbn [mbind option_bind] in Ex, Ey.
  rewrite Ek in Ex. rewrite El in Ey.
  destruct (strip q (p ++ x :: k)) as [r|] eqn:Er; [|done].
  destruct (strip q (p ++ y :: l)) as [s|] eqn:Es; [|done].
  apply strip_Some in Er, Es. by eapply prefix_of_both.
Qed.
Lemma two_keys d t :
  wf d t → match t with Leaf _ _ => True | _ => ∃ k l v w,
    k ≠ l ∧ tlookup t k = Some v ∧ tlookup t l = Some w end.
Proof.
  inversion 1 as [|d' p ts Hp _ Hwf|d' ts Hlen Htwo Hall]; subst; [done| |].
  - destruct (branch_heads d' ts Hwf) as (x & y & k & l & v & w & Hne & Ek & El).
    exists (p ++ x :: k), (p ++ y :: l), v, w. rewrite !tlookup_ext, !strip_app.
    split_and!; [|done..]. intros E%app_inv_head. congruence.
  - destruct (branch_heads _ ts H) as (x & y & k & l & v & w & Hne & Ek & El).
    exists (x :: k), (y :: l), v, w. split_and!; [congruence|done..].
Qed.
Lemma leaf_unique d t k v :
  wf d t → (∀ k', tlookup (Leaf k v) k' = tlookup t k') → t = Leaf k v.
Proof.
  intros Hwf E. assert (∀ k' w, tlookup t k' = Some w → k' = k ∧ w = v) as Hone.
  { intros k' w. rewrite <-E, tlookup_leaf. case_bool_decide; intros; by simplify_eq. }
  pose proof (two_keys d t Hwf) as Htwo. destruct t as [k' v'| |].
  - destruct (Hone k' v') as [-> ->]; [|done]. rewrite tlookup_leaf. by rewrite bool_decide_true.
  - destruct Htwo as (k1 & k2 & v1 & v2 & Hne & [-> _]%Hone & [-> _]%Hone). done.
  - destruct Htwo as (k1 & k2 & v1 & v2 & Hne & [-> _]%Hone & [-> _]%Hone). done.
Qed.
Lemma ext_not_branch d p ts ts' :
  wf d (Branch ts') → p ≠ [] → ¬ (∀ k, tlookup (Ext p (Branch ts)) k = tlookup (Branch ts') k).
Proof.
  intros Hwf Hp E. destruct (branch_heads d ts' Hwf) as (x & y & k & l & v & w & Hne & Ek & El).
  rewrite <-E, tlookup_ext in Ek, El. destruct p as [|a p]; [done|]. simpl in Ek, El.
  destruct (Z.eqb_spec a x) as [->|]; [|done]. by destruct (Z.eqb_spec x y).
Qed.
Lemma trie_canonical_at d t1 :
  wf d t1 → ∀ t2, wf d t2 → (∀ k, tlookup t1 k = tlookup t2 k) → t1 = t2.
Proof.
  induction 1 as [d k v Hk|d p ts Hp Hne Hwf IH|d ts Hlen Htwo Hwf IH]; intros t2 Hwf2 E.
  - symmetry. by apply (leaf_unique d).
  - inversion Hwf2 as [? k v Hk|d' q ts' Hq Hne' Hwf' Hd|d' ts' Hlen' Htwo' Hall' Hd]; subst.
    + apply (leaf_unique (length p + d)); [by constructor|done].
    + assert (p = q) as ->.
      { destruct (ext_prefix d p ts q ts' Hwf E) as [z1 E1].
        destruct (ext_prefix d' q ts' p ts Hwf') as [z2 E2]; [done|].
        rewrite E1, <-app_assoc in E2. rewrite <-(app_nil_r q) in E2 at 1.
        apply app_inv_head in E2. destruct z1; [|done]. by rewrite E1, app_nil_r. }
      f_equal. apply IH; [by replace d with d' by lia|].
      intros k. specialize (E (q ++ k)). by rewrite !tlookup_ext, !strip_app in E.
    + by destruct (ext_not_branch _ p ts ts' Hwf2 Hne).
  - inversion Hwf2 as [? k v Hk|d' q ts' Hq Hne' Hwf' Hd|d' ts' Hlen' Htwo' Hall' Hd]; subst.
    + apply (leaf_unique (S d)); [by constructor|done].
    + destruct (ext_not_branch (S d) q ts' ts); [by constructor|done|done].
    + f_equal. assert (∀ i, child ts i = child ts' i) as Hc.
      { intros i. assert (∀ k, olookup (child ts i) k = olookup (child ts' i) k) as Ei.
        { intros k. specialize (E (Z.of_nat i :: k)). by rewrite !tlookup_branch, !pick_index in E. }
        destruct (child ts i) as [t|] eqn:E1, (child ts' i) as [t'|] eqn:E2; [| | |done].
        - apply child_some in E1, E2. f_equal. apply (IH i t E1); [by eapply Hall'|done].
        - apply child_some in E1. destruct (tlookup_exists d t (Hwf i t E1)) as (k & v & Ek).
          specialize (Ei k). cbn [olookup mbind option_bind] in Ei. by rewrite Ek in Ei.
        - apply child_some in E2. destruct (tlookup_exists d t' (Hall' i t' E2)) as (k & v & Ek).
          specialize (Ei k). cbn [olookup mbind option_bind] in Ei. by rewrite Ek in Ei. }
      apply list_eq_same_length with 16%nat; [done|done|]. intros i x y _ Hx Hy.
      specialize (Hc i). unfold child in Hc. by rewrite Hx, Hy in Hc.
Qed.
Lemma owf_canonical d o1 o2 :
  owf d o1 → owf d o2 → (∀ k, olookup o1 k = olookup o2 k) → o1 = o2.
Proof.
  destruct o1 as [t1|], o2 as [t2|]; simpl; intros H1 H2 E; [| | |done].
  - f_equal. by apply (trie_canonical_at d).
  - destruct (tlookup_exists d t1 H1) as (k & v & Ek). by rewrite E in Ek.
  - destruct (tlookup_exists d t2 H2) as (k & v & Ek). by rewrite <-E in Ek.
Qed.

(** * Building tries *)
(** [c] in front of a branch; no key part when [c] is empty. *)
Definition wrap (c : bytes) (t : trie) : trie := match c with [] => t | _ => Ext c t end.
Definition two (a : Z) (ta : trie) (b : Z) (tb : trie) : list (option trie) :=
  <[Z.to_nat a := Some ta]> (<[Z.to_nat b := Some tb]> (replicate 16 None)).
(** [k] in front of a trie, joined with the key part the trie begins with. *)
Definition join (k : bytes) (t : trie) : trie :=
  match t with Leaf k' v => Leaf (k ++ k') v | Ext p t => Ext (k ++ p) t | Branch _ => wrap k t end.
Definition is_branch (t : trie) : bool := match t with Branch _ => true | _ => false end.

Lemma wf_wrap d c t : is_nibbles c → wf d t → is_branch t = true → wf (length c + d) (wrap c t).
Proof.
  intros Hc Hwf Ht. destruct t as [| |ts]; [done..|]. destruct c as [|x c]; [done|].
  by apply (wf_ext d (x :: c)).
Qed.
Lemma tlookup_wrap c t k : tlookup (wrap c t) k = strip c k ≫= tlookup t.
Proof. destruct c; [done|apply tlookup_ext]. Qed.
Lemma tlookup_join c t k : tlookup (join c t) k = strip c k ≫= tlookup t.
Proof.
  destruct t as [k' v|p t|ts].
  - cbn [join]. destruct (strip c k) as [r|] eqn:E; cbn [mbind option_bind]; rewrite !tlookup_leaf.
    + apply strip_Some in E as ->. repeat case_bool_decide; simplify_eq; done.
    + rewrite bool_decide_false; [done|]. intros ->. by rewrite strip_app in E.
  - cbn [join]. rewrite tlookup_ext, strip_comp. destruct (strip c k); [|done].
    cbn [mbind option_bind]. by rewrite tlookup_ext.
  - apply tlookup_wrap.
Qed.
Lemma wf_join d c t : is_nibbles c → wf d t → wf (length c + d) (join c t).
Proof.
  intros Hc Hwf. destruct Hwf as [d k v Hk|d p ts Hp Hne Hwf|d ts Hl Htwo Hall]; cbn [join].
  - constructor. by apply is_key_app.
  - rewrite Nat.add_assoc, <-length_app. constructor; [by apply is_nibbles_app| |done].
    by destruct c.
  - apply wf_wrap; [done|by constructor|done].
Qed.

Lemma pick_insert ts a x o :
  length ts = 16%nat → is_nibble a →
  pick (<[Z.to_nat a := o]> ts) x = if bool_decide (x = a) then o else pick ts x.
Proof.
  intros Hl Ha. unfold pick. destruct (Z.leb_spec 0 x).
  - rewrite child_insert by (rewrite Hl; by apply nibble_index). unfold is_nibble in Ha.
    destruct (decide (Z.to_nat a = Z.to_nat x)); case_bool_decide; done || lia.
  - unfold is_nibble in Ha. by rewrite bool_decide_false by lia.
Qed.
Lemma length_two a ta b tb : length (two a ta b tb) = 16%nat.
Proof. unfold two. by rewrite !length_insert, length_replicate. Qed.
Lemma pick_two a ta b tb x :
  is_nibble a → is_nibble b →
  pick (two a ta b tb) x =
  if bool_decide (x = a) then Some ta else if bool_decide (x = b) then Some tb else None.
Proof.
  intros Ha Hb. unfold two. rewrite !pick_insert by (rewrite ?length_insert, ?length_replicate; done).
  unfold pick. rewrite child_replicate. by destruct (0 <=? x).
Qed.
Lemma wf_two d a ta b tb :
  is_nibble a → is_nibble b → a ≠ b → wf d ta → wf d tb → wf (S d) (Branch (two a ta b tb)).
Proof.
  intros Ha Hb Hne Hta Htb. destruct (nibble_index a Ha) as [La Ea], (nibble_index b Hb) as [Lb Eb].
  assert (∀ i t, two a ta b tb !! i = Some (Some t) → t = ta ∨ t = tb) as Hin.
  { intros i t Hi%child_some. rewrite <-pick_index, pick_two in Hi by done.
    repeat case_bool_decide; simplify_eq; auto. }
  constructor; [apply length_two| |].
  - exists (Z.to_nat a), (Z.to_nat b), ta, tb. rewrite <-!child_some, <-!pick_nibble, !pick_two by done.
    rewrite (bool_decide_true (a = a)), (bool_decide_false (b = a)), (bool_decide_true (b = b))
      by congruence. split_and!; [lia|done..].
  - by intros i t [-> | ->]%Hin.
Qed.
Lemma wf_update d ts a t :
  wf (S d) (Branch ts) → is_nibble a → wf d t → wf (S d) (Branch (<[Z.to_nat a := Some t]> ts)).
Proof.
  inversion 1 as [| |? ? Hl (i & j & u & w & Hne & Hi & Hj) Hall]; subst. intros Ha Ht.
  destruct (nibble_index a Ha) as [La _]. constructor; [by rewrite length_insert| |].
  - assert (∀ k t', ts !! k = Some (Some t') →
      ∃ t'', <[Z.to_nat a := Some t]> ts !! k = Some (Some t'')) as Hkeep.
    { intros k t' Hk. destruct (decide (Z.to_nat a = k)) as [<-|Hn].
      - exists t. apply list_lookup_insert_eq. lia.
      - exists t'. by rewrite list_lookup_insert_ne. }
    destruct (Hkeep i u Hi) as [u' Hu], (Hkeep j w Hj) as [w' Hw]. by exists i, j, u', w'.
  - intros k t' Hk. destruct (decide (Z.to_nat a = k)) as [<-|Hn].
    + rewrite list_lookup_insert_eq in Hk by lia. by simplify_eq.
    + rewrite list_lookup_insert_ne in Hk by done. eauto.
Qed.

(** * Insertion and deletion as changes of the map *)
Definition upd (o' o : option trie) (k : bytes) (v : option bytes) : Prop :=
  ∀ k', olookup o' k' = if bool_decide (k' = k) then v else olookup o k'.

Lemma upd_leaf k v : upd (Some (Leaf k v)) None k (Some v).
Proof. intros k'. cbn. done. Qed.
Lemma upd_replace k v v0 : upd (Some (Leaf k v)) (Some (Leaf k v0)) k (Some v).
Proof. intros k'. cbn [olookup mbind option_bind]. rewrite !tlookup_leaf. by case_bool_decide. Qed.
Lemma upd_join o' t p k v :
  upd (Some o') (Some t) k v → upd (Some (join p o')) (Some (join p t)) (p ++ k) v.
Proof.
  intros Hu k'. cbn [olookup mbind option_bind]. rewrite !tlookup_join.
  destruct (strip p k') as [r|] eqn:E.
  - apply strip_Some in E as ->. cbn [mbind option_bind]. specialize (Hu r).
    cbn [olookup mbind option_bind] in Hu. rewrite Hu. repeat case_bool_decide; simplify_eq; done.
  - cbn [mbind option_bind]. rewrite bool_decide_false; [done|]. intros ->.
    by rewrite strip_app in E.
Qed.
Lemma upd_branch ts a o' k v :
  length ts = 16%nat → is_nibble a → upd o' (pick ts a) k v →
  upd (Some (Branch (<[Z.to_nat a := o']> ts))) (Some (Branch ts)) (a :: k) v.
Proof.
  intros Hl Ha Hu k'. cbn [olookup mbind option_bind]. rewrite !tlookup_branch.
  destruct k' as [|x k']; [by rewrite bool_decide_false|]. rewrite pick_insert by done.
  case_bool_decide as Hx; subst.
  - rewrite Hu. repeat case_bool_decide; simplify_eq; done.
  - rewrite bool_decide_false; [done|congruence].
Qed.
(** Two keys that part after [c]: the new leaf beside what was there. *)
Lemma upd_split c a ka b tb v :
  a ≠ b → is_nibble a → is_nibble b →
  upd (Some (wrap c (Branch (two a (Leaf ka v) b tb)))) (Some (join (c ++ [b]) tb))
    (c ++ a :: ka) (Some v).
Proof.
  intros Hne Ha Hb k'. cbn [olookup mbind option_bind].
  rewrite tlookup_wrap, tlookup_join, strip_comp. destruct (strip c k') as [r|] eqn:E.
  - apply strip_Some in E as ->. cbn [mbind option_bind]. rewrite tlookup_branch.
    destruct r as [|x r]; [by rewrite bool_decide_false by (intros ?%app_inv_head; done)|].
    rewrite pick_two by done. simpl strip. destruct (Z.eqb_spec b x) as [<-|Hbx].
    + rewrite (bool_decide_false (b = a)), (bool_decide_true (b = b)) by congruence.
      rewrite bool_decide_false; [done|]. intros ?%app_inv_head. congruence.
    + rewrite (bool_decide_false (x = b)) by congruence. cbn [mbind option_bind].
      repeat case_bool_decide; simplify_eq; cbn [olookup mbind option_bind];
        rewrite ?tlookup_leaf; try done; [by rewrite bool_decide_true|].
      rewrite bool_decide_false; [done|congruence].
  - cbn [mbind option_bind]. rewrite bool_decide_false; [done|]. intros ->.
    by rewrite strip_app in E.
Qed.

(** A deletion that leaves one child: the branch goes. *)
Lemma upd_collapse d ts y k j t :
  wf (S d) (Branch ts) → is_nibble y → upd None (pick ts y) k None →
  pick ts j = Some t → (∀ x, x ≠ y → x ≠ j → pick ts x = None) → j ≠ y →
  upd (Some (join [j] t)) (Some (Branch ts)) (y :: k) None.
Proof.
  intros Hwf Hy Hu Hj Hothers Hne k'. cbn [olookup mbind option_bind].
  rewrite tlookup_join, tlookup_branch. destruct k' as [|x r]; [by case_bool_decide|].
  simpl strip. destruct (Z.eqb_spec j x) as [<-|Hjx].
  - rewrite bool_decide_false by congruence. cbn [mbind option_bind]. by rewrite Hj.
  - cbn [mbind option_bind]. destruct (decide (x = y)) as [->|Hxy].
    + specialize (Hu r). cbn [olookup mbind option_bind] in Hu.
      destruct (decide (r = k)) as [->|Hrk]; [by rewrite bool_decide_true|].
      rewrite bool_decide_false in Hu by done. by rewrite bool_decide_false by congruence.
    + rewrite (Hothers x) by congruence. by rewrite bool_decide_false by congruence.
Qed.
