(* ===== verification/TrieHash.v ===== *)
(** The encodings of an abstract trie, written directly: the Merkle-Patricia encoding that is
    hashed, and the items that are stored for it; what the store holds for a trie; the sizes. *)
From S2P Require Import Prelude Codec Rlp RlpEncoder Storage TrieEncoding Trie TrieMap.

Section hashing.
Context `{Keccak} `{Schema}.

(** A value of the trie: never empty, its storage encoding determines the hashed one. *)
Definition storable (s : bytes) : Prop := s ≠ [] ∧ ∃ h, ValueStorageToHashEncoding s = Ret h.
Definition hash_value (s : bytes) : bytes :=
  match ValueStorageToHashEncoding s with Ret h => h | _ => [] end.
Definition key_compact (k : bytes) : bytes :=
  match hex_to_compact k with Ret c => c | _ => [] end.

(** What a parent holds of the child encoded as [b]: [b] itself, or its hash. *)
Definition child_ref (b : bytes) : bytes :=
  if blen b <? Z.of_nat HashLength then b else AppendString (keccak b).
Fixpoint encode_trie (t : trie) : bytes :=
  match t with
  | Leaf k s => enc_list (AppendString (key_compact k) ++ AppendString (hash_value s))
  | Ext p t => enc_list (AppendString (key_compact p) ++ child_ref (encode_trie t))
  | Branch ts =>
      enc_list (concat (map (λ o, match o with
                                  | Some t => child_ref (encode_trie t)
                                  | None => AppendString []
                                  end) ts) ++ AppendString [])
  end.
Definition trie_hash (t : trie) : hash := keccak (encode_trie t).
(** Referred to by hash. *)
Definition big (t : trie) : bool := negb (blen (encode_trie t) <? Z.of_nat HashLength).

(** What is stored for a trie below the root; a branch that is referred to by hash is an entry
    of its own. *)
Fixpoint store_items (t : trie) : list item :=
  match t with
  | Leaf k s =>
      IString (key_compact k) ::
      (if big t then [IString (trie_hash t)]
       else if blen s <=? MaxValueSizeToStoreInTrie then [IString s] else [])
  | Ext p u =>
      [IString (key_compact p);
       match u with
       | Branch _ => if big u then IString (trie_hash u) else IList (enc_items (store_items u))
       | _ => IList (enc_items (store_items u))
       end]
  | Branch ts =>
      map (λ o, match o with
                | Some u =>
                    match u with
                    | Branch _ =>
                        if big u then IString (trie_hash u) else IList (enc_items (store_items u))
                    | _ => IList (enc_items (store_items u))
                    end
                | None => IString []
                end) ts
  end.
Definition store (t : trie) : bytes := enc_list (enc_items (store_items t)).
Definition store_item (t : trie) : item :=
  if is_branch t && big t then IString (trie_hash t) else IList (enc_items (store_items t)).
Definition store_child (o : option trie) : item :=
  match o with Some t => store_item t | None => IString [] end.
(** The entry of the store: a leaf that is the root is stored with its hash. *)
Definition entry (t : trie) : bytes :=
  match t with
  | Leaf k _ => enc_list (enc_items [IString (key_compact k); IString (trie_hash t)])
  | _ => store t
  end.

Lemma store_items_ext p u : store_items (Ext p u) = [IString (key_compact p); store_item u].
Proof. by destruct u. Qed.
Lemma store_items_branch ts : store_items (Branch ts) = map store_child ts.
Proof.
  cbn [store_items]. apply map_ext. by intros [[| |us]|].
Qed.
Lemma enc_store_item t :
  enc_item (store_item t) =
  if is_branch t && big t then AppendString (trie_hash t) else store t.
Proof. unfold store_item. by destruct (is_branch t && big t). Qed.
Lemma encode_ext p u :
  encode_trie (Ext p u) = enc_list (AppendString (key_compact p) ++ child_ref (encode_trie u)).
Proof. done. Qed.
Lemma encode_branch ts :
  encode_trie (Branch ts) =
  enc_list (concat (map (λ o, match o with
                              | Some t => child_ref (encode_trie t)
                              | None => AppendString []
                              end) ts) ++ AppendString []).
Proof. done. Qed.
Lemma child_ref_big t :
  child_ref (encode_trie t) = if big t then AppendString (trie_hash t) else encode_trie t.
Proof. unfold child_ref, big. by destruct (blen (encode_trie t) <? Z.of_nat HashLength). Qed.

(** * Sizes *)
Context (Hhash : ∀ b, length (keccak b) = HashLength).
Context (Hmax : MaxValueSizeToStoreInTrie < Z.of_nat HashLength).

Lemma AppendString_hash b : length b = HashLength → AppendString b = 0xA0 :: b.
Proof.
  intros Hb. destruct b as [|x [|y b]]; [done|done|]. unfold AppendString, ToRLPString.
  unfold blen. rewrite Hb. done.
Qed.
Lemma AppendString_bounds s : blen s <= blen (AppendString s) <= blen s + 9.
Proof.
  pose proof (blen_nonneg s). destruct (AppendString_cases s) as [(b & -> & _ & ->) | [-> _]];
    [unfold blen; simpl; lia|].
  rewrite blen_app, string_head_length. pose proof (headsize_range (blen s)). lia.
Qed.
Lemma AppendString_pos s : 1 <= blen (AppendString s).
Proof.
  destruct (AppendString_cases s) as [(b & -> & _ & ->) | [-> _]]; [done|].
  rewrite blen_app, string_head_length. pose proof (headsize_range (blen s)).
  pose proof (blen_nonneg s). lia.
Qed.
Lemma enc_list_bounds b : blen b + 1 <= blen (enc_list b) <= blen b + 9.
Proof. rewrite enc_list_blen. pose proof (headsize_range (blen b)). lia. Qed.
Lemma key_compact_spec d l (t : bool) :
  is_nibbles l → (length l <= d)%nat → (d <= HexKeyLen)%nat →
  hex_to_compact (l ++ if t then [16] else []) = Ret (key_compact (l ++ if t then [16] else [])) ∧
  compact_to_hex (key_compact (l ++ if t then [16] else [])) = Ret (l ++ if t then [16] else []) ∧
  blen (key_compact (l ++ if t then [16] else [])) <= 33.
Proof.
  intros Hl Hd Hle. unfold HexKeyLen in Hle.
  assert (hex_to_compact (l ++ if t then [16] else []) = Ret (compact t l)) as E
    by (apply hex_to_compact_spec; [done|lia]).
  unfold key_compact. rewrite E. split_and!; [done|by apply compact_to_hex_spec|].
  unfold blen. rewrite compact_length.
  pose proof (Nat.Div0.div_le_mono (length l) 65 2 ltac:(lia)) as D.
  change (65 / 2)%nat with 32%nat in D. lia.
Qed.
Lemma key_compact_key d k :
  is_key d k → (d <= HexKeyLen)%nat →
  hex_to_compact k = Ret (key_compact k) ∧ compact_to_hex (key_compact k) = Ret k ∧
  blen (key_compact k) <= 33 ∧ hasTerm k = true.
Proof.
  intros (l & -> & Hl & ->) Hd. destruct (key_compact_spec _ l true Hl (Nat.le_succ_diag_r _) Hd)
    as (E1 & E2 & E3). split_and!; [done..|]. apply hasTerm_snoc.
Qed.
Lemma key_compact_part d p :
  is_nibbles p → (length p + d <= HexKeyLen)%nat →
  hex_to_compact p = Ret (key_compact p) ∧ compact_to_hex (key_compact p) = Ret p ∧
  blen (key_compact p) <= 33 ∧ hasTerm p = false.
Proof.
  intros Hp Hd. destruct (key_compact_spec HexKeyLen p false Hp) as (E1 & E2 & E3); [lia|done|].
  rewrite app_nil_r in *. split_and!; [done..|]. by apply hasTerm_nibbles.
Qed.
Lemma blen_concat_le {A} (l : list A) (f g : A → bytes) c :
  0 <= c → Forall (λ x, blen (f x) <= c * blen (g x)) l →
  blen (concat (map f l)) <= c * blen (concat (map g l)).
Proof.
  intros Hc. induction 1 as [|x l Hx _ IH]; simpl; [unfold blen; simpl; lia|].
  rewrite !blen_app. lia.
Qed.
Lemma blen_concat_bound {A} (l : list A) (f : A → bytes) c :
  Forall (λ x, blen (f x) <= c) l → blen (concat (map f l)) <= c * Z.of_nat (length l).
Proof.
  induction 1 as [|x l Hx _ IH]; simpl; [unfold blen; simpl; lia|]. rewrite blen_app. lia.
Qed.
Lemma blen_concat_in {A} (l : list A) (f : A → bytes) x :
  x ∈ l → blen (f x) <= blen (concat (map f l)).
Proof.
  induction 1 as [x l|x y l _ IH]; simpl; rewrite blen_app; pose proof (blen_nonneg (f x)).
  - pose proof (blen_nonneg (concat (map f l))). lia.
  - pose proof (blen_nonneg (f y)). lia.
Qed.

Lemma child_ref_bounds b : 0 <= blen b → blen (child_ref b) <= 33.
Proof.
  intros Hb. unfold child_ref. destruct (Z.ltb_spec (blen b) (Z.of_nat HashLength)) as [Hlt|].
  - unfold HashLength in Hlt. lia.
  - rewrite AppendString_hash by apply Hhash. unfold blen. simpl. rewrite Hhash. unfold HashLength. lia.
Qed.
Lemma AppendString_hash_blen b : length b = HashLength → blen (AppendString b) = 33.
Proof. intros Hb. rewrite AppendString_hash by done. unfold blen. simpl. rewrite Hb. done. Qed.
Lemma small_blen t : big t = false → blen (encode_trie t) <= 31.
Proof.
  unfold big. intros E%negb_false_iff%Z.ltb_lt. unfold HashLength in E. lia.
Qed.
Lemma big_blen t : big t = true → 32 <= blen (encode_trie t).
Proof.
  unfold big. intros E%negb_true_iff%Z.ltb_ge. unfold HashLength in E. lia.
Qed.
(** What is referred to from a small encoding is small. *)
Lemma small_ref t n : blen (child_ref (encode_trie t)) <= n → n < 33 → big t = false.
Proof.
  rewrite child_ref_big. destruct (big t); [|done]. rewrite AppendString_hash_blen by apply Hhash. lia.
Qed.
Lemma small_ext p u : big (Ext p u) = false → big u = false.
Proof.
  intros E%small_blen. cbn [encode_trie] in E.
  pose proof (enc_list_bounds (AppendString (key_compact p) ++ child_ref (encode_trie u))) as B.
  rewrite blen_app in B. pose proof (blen_nonneg (AppendString (key_compact p))).
  apply (small_ref u 31); lia.
Qed.
Lemma small_branch ts i t : big (Branch ts) = false → ts !! i = Some (Some t) → big t = false.
Proof.
  intros E%small_blen Hi. rewrite encode_branch in E.
  match type of E with blen (enc_list ?b) <= _ => pose proof (enc_list_bounds b) as B end.
  rewrite blen_app in B. apply list_elem_of_lookup_2 in Hi.
  pose proof (blen_concat_in ts (λ o, match o with
    | Some t => child_ref (encode_trie t) | None => AppendString [] end) (Some t) Hi) as Hin.
  cbv beta iota in Hin. pose proof (blen_nonneg (AppendString [])). apply (small_ref t 31); lia.
Qed.
Lemma enc_items_cons i l : enc_items (i :: l) = enc_item i ++ enc_items l.
Proof. done. Qed.
Lemma store_leaf_bound d k s :
  is_key d k → (d <= HexKeyLen)%nat → blen (store (Leaf k s)) <= 100.
Proof.
  intros Hk Hd. destruct (key_compact_key d k Hk Hd) as (_ & _ & Hc & _). unfold store.
  cbn [store_items]. rewrite enc_items_cons. cbn [enc_item].
  match goal with |- blen (enc_list (_ ++ ?b)) <= _ => assert (blen b <= 40) as Hb end.
  { destruct (big (Leaf k s)).
    - unfold enc_items. simpl. rewrite app_nil_r. rewrite AppendString_hash_blen by apply Hhash. lia.
    - destruct (Z.leb_spec (blen s) MaxValueSizeToStoreInTrie) as [Hs|]; [|unfold blen; simpl; lia].
      unfold enc_items. simpl. rewrite app_nil_r. pose proof (AppendString_bounds s).
      unfold HashLength in Hmax. lia. }
  match goal with |- blen (enc_list ?b) <= _ => pose proof (enc_list_bounds b) as B end.
  rewrite blen_app in B. pose proof (AppendString_bounds (key_compact k)). lia.
Qed.
Lemma store_small d t :
  wf d t → (d <= HexKeyLen)%nat → big t = false → blen (store t) <= 100 * blen (encode_trie t).
Proof.
  induction 1 as [d k s Hk|d p ts Hp Hne Hwf IH|d ts Hl Htwo Hall IH]; intros Hd Hsm.
  - pose proof (store_leaf_bound d k s Hk Hd). cbn [encode_trie].
    match goal with |- _ <= 100 * blen (enc_list ?b) =>
      pose proof (enc_list_bounds b); pose proof (blen_nonneg b) end. lia.
  - pose proof (small_ext _ _ Hsm) as Hu. specialize (IH ltac:(lia) Hu).
    assert (length p + d <= HexKeyLen)%nat as Hd' by lia.
    destruct (key_compact_part _ p Hp Hd') as (_ & _ & Hc & _).
    unfold store. rewrite store_items_ext, !enc_items_cons, encode_ext. cbn [enc_item].
    rewrite enc_store_item, Hu, andb_false_r. change (enc_items []) with (@nil Z).
    rewrite app_nil_r, child_ref_big, Hu.
    set (a := AppendString (key_compact p)). set (x := store (Branch ts)) in *.
    set (y := encode_trie (Branch ts)) in *. pose proof (enc_list_bounds (a ++ x)) as B1. pose proof (enc_list_bounds (a ++ y)) as B2.
    rewrite blen_app in B1, B2. pose proof (AppendString_bounds (key_compact p)) as Ba.
    fold a in Ba. pose proof (blen_nonneg a). lia.
  - unfold store. rewrite store_items_branch, encode_branch. unfold enc_items. rewrite map_map.
    match goal with |- blen (enc_list ?x) <= 100 * blen (enc_list (?y ++ ?z)) =>
      assert (blen x <= 100 * blen y) as Hxy;
      [|pose proof (enc_list_bounds x); pose proof (enc_list_bounds (y ++ z)) as B;
        rewrite blen_app in B; pose proof (blen_nonneg y); pose proof (AppendString_pos []); lia] end.
    apply blen_concat_le; [lia|]. apply Forall_lookup_2. intros i [t|] Hi; [|by vm_compute].
    pose proof (small_branch ts i t Hsm Hi) as Ht. cbn [store_child].
    rewrite enc_store_item, child_ref_big, Ht, andb_false_r. apply (IH i t Hi); [lia|done].
Qed.
Lemma store_item_bound d t : wf d t → (d <= HexKeyLen)%nat → blen (enc_item (store_item t)) <= 3300.
Proof.
  intros Hwf Hd. rewrite enc_store_item. destruct (is_branch t && big t) eqn:E.
  { rewrite AppendString_hash_blen by apply Hhash. lia. }
  destruct Hwf as [d k s Hk|d p ts Hp Hne Hwf|d ts Hl Htwo Hall].
  - pose proof (store_leaf_bound d k s Hk Hd). lia.
  - assert (blen (enc_item (store_item (Branch ts))) <= 3100) as Hu.
    { rewrite enc_store_item. cbn [is_branch andb]. destruct (big (Branch ts)) eqn:Eb.
      - rewrite AppendString_hash_blen by apply Hhash. lia.
      - pose proof (store_small d (Branch ts) Hwf ltac:(lia) Eb). apply small_blen in Eb. lia. }
    destruct (key_compact_part _ p Hp Hd) as (_ & _ & Hc & _).
    unfold store. rewrite store_items_ext, !enc_items_cons. change (enc_items []) with (@nil Z).
    rewrite app_nil_r. cbn [enc_item] in *.
    match goal with |- blen (enc_list ?b) <= _ => pose proof (enc_list_bounds b) as B end.
    rewrite blen_app in B. pose proof (AppendString_bounds (key_compact p)). lia.
  - cbn [is_branch andb] in E. assert (wf (S d) (Branch ts)) as Hwf by by constructor.
    pose proof (store_small _ _ Hwf Hd E). apply small_blen in E. lia.
Qed.
Lemma store_bound d t : wf d t → (d <= HexKeyLen)%nat → blen (store t) <= 60000.
Proof.
  intros Hwf Hd. destruct (is_branch t) eqn:E.
  - destruct Hwf as [| |d ts Hl Htwo Hall]; [done..|]. unfold store. rewrite store_items_branch.
    unfold enc_items. rewrite map_map.
    match goal with |- blen (enc_list ?b) <= _ =>
      pose proof (enc_list_bounds b); assert (blen b <= 3300 * 16) as Hb; [|lia] end.
    replace 16 with (Z.of_nat (length ts)) by (rewrite Hl; done). apply blen_concat_bound.
    apply Forall_lookup_2. intros i [t|] Hi; [|by vm_compute]. apply (store_item_bound d); [eauto|lia].
  - pose proof (store_item_bound d t Hwf Hd) as Hb. rewrite enc_store_item, E in Hb. simpl in Hb. lia.
Qed.
End hashing.
