(* ===== verification/TrieRep.v ===== *)
(** The nodes of [Trie.v] and the abstract tries: what the store holds of a trie ([stored]), when
    a node stands for one ([rep]: hashes cached, parts still in the store, values not loaded),
    and that reading a stored trie back gives a node that stands for it. *)
From S2P Require Import Prelude Codec Rlp RlpEncoder Storage TrieEncoding Trie TrieMap TrieHash.

Section rep.
Context `{Keccak} `{Schema} {V : Type} `{!TrieValue V} (db_tx : Input).
(** The values that the store has and no operation of the block has changed. *)
Context (clean : bytes → bytes → Prop).

(** Everything below the prefix is in the store: the values, the branches referred to by hash. *)
Inductive stored : bytes → trie → Prop :=
| stored_leaf pre k s : clean (pre ++ k) s → storable s → stored pre (Leaf k s)
| stored_ext pre p t : stored (pre ++ p) t → stored pre (Ext p t)
| stored_branch pre ts :
    (∀ i t, ts !! i = Some (Some t) → stored (pre ++ [Z.of_nat i]) t) →
    (big (Branch ts) = true → GetNode db_tx (trie_hash (Branch ts)) = Some (entry (Branch ts))) →
    stored pre (Branch ts).

(** The hash a node may carry: that of its trie, all of which is stored; the parent refers to
    the node by hash. *)
Definition hash_ok (pre : bytes) (h : option hash) (t : trie) : Prop :=
  match h with
  | Some h => h = trie_hash t ∧ (pre = [] ∨ big t = true) ∧ stored pre t
  | None => True
  end.
Definition has_hash (n : node V) : bool :=
  match n with node_hash _ | full_node _ (Some _) | short_node _ _ (Some _) => true | _ => false end.

Definition vrep (key : bytes) (v : option (Value V)) (s : bytes) : Prop :=
  storable s ∧
  match v with
  | None => clean key s
  | Some (internal_value s' h) => s' = s ∧ h = hash_value s ∧ clean key s
  | Some (client_value x) => EncodeForTrie x = (s, hash_value s)
  end.

(** [rep pre n t]: at the prefix [pre], the node [n] stands for [t]. *)
Inductive rep : bytes → node V → trie → Prop :=
| rep_leaf pre k v s h :
    vrep (pre ++ k) v s → hash_ok pre h (Leaf k s) → (v = None → h ≠ None) →
    rep pre (short_node k (value_node v) h) (Leaf k s)
| rep_ext pre k n t h :
    rep (pre ++ k) n t → hash_ok pre h (Ext k t) →
    match h with Some _ => has_hash n = true ∨ big t = false | None => True end →
    rep pre (short_node k n h) (Ext k t)
| rep_full pre ns ts h :
    length ns = 16%nat → length ts = 16%nat →
    (∀ i n, ts !! i = Some None → ns !! i = Some n → n = nil_node) →
    (∀ i n t, ns !! i = Some n → ts !! i = Some (Some t) → rep (pre ++ [Z.of_nat i]) n t) →
    hash_ok pre h (Branch ts) →
    rep pre (full_node ns h) (Branch ts)
| rep_hash pre t :
    stored pre t → GetNode db_tx (trie_hash t) = Some (entry t) →
    (pre = [] ∨ is_branch t && big t = true) →
    rep pre (node_hash (trie_hash t)) t.
Definition orep (pre : bytes) (n : node V) (o : option trie) : Prop :=
  match o with Some t => rep pre n t | None => n = nil_node end.

(** A node an operation has made: in memory, without a hash, and a leaf whose value is loaded. *)
Definition fresh (n : node V) : bool :=
  match n with node_hash _ | short_node _ (value_node None) _ => false
  | full_node _ (Some _) | short_node _ _ (Some _) => false | _ => true end.

Lemma rep_not_nil pre n t : rep pre n t → n ≠ nil_node.
Proof. by inversion 1. Qed.
Lemma rep_not_value pre n t v : rep pre n t → n ≠ value_node v.
Proof. by inversion 1. Qed.
Lemma orep_child pre ns ts a h :
  rep pre (full_node ns h) (Branch ts) → is_nibble a →
  ∃ n, ns !! Z.to_nat a = Some n ∧ orep (pre ++ [a]) n (pick ts a).
Proof.
  intros Hrep Ha.
  inversion Hrep as [| |? ? ? ? Hns Hts Hnil Hall|]; subst. destruct (nibble_index a Ha) as [Hlt Ea].
  destruct (lookup_lt_is_Some_2 ns (Z.to_nat a)) as [n Hn]; [lia|].
  destruct (lookup_lt_is_Some_2 ts (Z.to_nat a)) as [o Ho]; [lia|].
  exists n. split; [done|]. rewrite pick_nibble by done. unfold child. rewrite Ho. simpl.
  destruct o as [t|]; simpl; [|by apply (Hnil (Z.to_nat a))].
  rewrite <-Ea. by apply (Hall (Z.to_nat a)).
Qed.
Lemma rep_update pre ns ts a n o h :
  rep pre (full_node ns h) (Branch ts) → is_nibble a → orep (pre ++ [a]) n o →
  rep pre (full_node (<[Z.to_nat a := n]> ns) None) (Branch (<[Z.to_nat a := o]> ts)).
Proof.
  intros Hrep Ha Hn. inversion Hrep as [| |? ? ? ? Hns Hts Hnil Hall|]; subst.
  destruct (nibble_index a Ha) as [Hlt Ea].
  constructor; [by rewrite length_insert|by rewrite length_insert| | |done].
  - intros i m Hi Hm. destruct (decide (Z.to_nat a = i)) as [<-|Hne].
    + rewrite list_lookup_insert_eq in Hi by lia. rewrite list_lookup_insert_eq in Hm by lia.
      by simplify_eq.
    + rewrite list_lookup_insert_ne in Hi by done. rewrite list_lookup_insert_ne in Hm by done.
      by apply (Hnil i).
  - intros i m t Hm Hi. destruct (decide (Z.to_nat a = i)) as [<-|Hne].
    + rewrite list_lookup_insert_eq in Hi by lia. rewrite list_lookup_insert_eq in Hm by lia.
      simplify_eq. by rewrite Ea.
    + rewrite list_lookup_insert_ne in Hi by done. rewrite list_lookup_insert_ne in Hm by done.
      by apply (Hall i).
Qed.
Lemma rep_empty_full pre : rep pre (full_node (replicate 16 nil_node) None) (Branch (replicate 16 None)).
Proof.
  constructor; [done|done| | |done].
  - by intros i n _ [-> _]%lookup_replicate.
  - by intros i n t _ [? _]%lookup_replicate.
Qed.
Lemma rep_wrap pre c n t :
  rep (pre ++ c) n t → is_branch t = true →
  rep pre (match c with [] => n | _ => short_node c n None end) (wrap c t).
Proof.
  intros Hr Ht. destruct c as [|x c]; [by rewrite app_nil_r in Hr|]. by constructor.
Qed.

(** * Reading back *)
Context (Hhash : ∀ b, length (keccak b) = HashLength).
Context (Hmax : MaxValueSizeToStoreInTrie < Z.of_nat HashLength).
Context (Hclean : ∀ l s, is_nibbles l → length l = MaxDepth → clean (l ++ [16]) s →
  GetValue db_tx (pack l) = Some s).
Context {St : Type}.

Lemma hash_value_storable s : storable s → ValueStorageToHashEncoding s = Ret (hash_value s).
Proof. intros [_ [h Eh]]. unfold hash_value. by rewrite Eh. Qed.
Lemma resolve_val_spec key s (st : St) :
  is_key HexKeyLen key → clean key s → storable s →
  resolve_val_n_by_hex_k db_tx key st =
    (Ret (value_node (Some (internal_value s (hash_value s)) : option (Value V))), st).
Proof.
  intros (l & -> & Hn & Hl) Hc Hs. unfold HexKeyLen in Hl.
  unfold resolve_val_n_by_hex_k, mbind, M_bind. unfold of_outcome.
  rewrite (hex_to_keybytes_spec 32 l true) by (done || lia).
  unfold resolve_val_n. rewrite (Hclean l s) by (done || unfold MaxDepth; lia).
  unfold mbind, M_bind, of_outcome. by rewrite (hash_value_storable s Hs).
Qed.

(** Reading a value of the encoding: the kinds that occur. *)
Lemma ReadKind_hash h r :
  length h = HashLength → blen r < 2 ^ 62 →
  ReadKind (AppendString h ++ r) = Ret (KString, 1, 33).
Proof.
  intros Hh Hr. rewrite AppendString_hash by done. cbn [app ReadKind].
  assert (blen (0xA0 :: h ++ r) = 33 + blen r) as Hb.
  { rewrite blen_cons, blen_app. unfold blen at 1. rewrite Hh. unfold HashLength. lia. }
  pose proof (blen_nonneg r). rewrite Hb. cbn [Z.ltb Z.compare Pos.compare Pos.compare_cont].
  change (160 - 128 =? 1) with false. cbn [andb].
  rewrite !u64_id by (unfold is_u64; lia).
  destruct (Z.ltb_spec (33 + blen r - 1) (160 - 128)); [lia|done].
Qed.
Lemma ReadKind_nil r : blen r < 2 ^ 62 → ReadKind (AppendString [] ++ r) = Ret (KString, 1, 1).
Proof.
  intros Hr. pose proof (blen_nonneg r). unfold AppendString, EmptyString. cbn [app ReadKind].
  rewrite blen_cons. change (128 <? 128) with false. change (128 <? 184) with true.
  change (128 - 128) with 0. cbn [Z.eqb andb]. rewrite u64_id by (unfold is_u64; lia).
  destruct (Z.ltb_spec (1 + blen r - 1) 0); [lia|done].
Qed.

Abbreviation dec := (dec_node (V := V) (St := St) db_tx).
Lemma dec_hash fuel pre dbh h r (st : St) :
  length h = HashLength → blen r < 2 ^ 62 →
  dec (S fuel) pre dbh (AppendString h ++ r) st = (Ret (node_hash h, r), st).
Proof.
  intros Hh Hr. cbn [dec_node]. rewrite ReadKind_hash by done. unfold mbind, M_bind. cbn [must].
  rewrite AppendString_hash by done. unfold mret, M_ret. cbv beta iota.
  change (Z.to_nat 33) with (S 32). change (Z.to_nat 1) with 1%nat. cbn [app take drop].
  rewrite !drop_0, (take_app_length' h r), (drop_app_length' h r) by done.
  rewrite Hh. by destruct h.
Qed.
Lemma dec_nil fuel pre dbh r (st : St) :
  blen r < 2 ^ 62 → dec (S fuel) pre dbh (AppendString [] ++ r) st = (Ret (nil_node, r), st).
Proof.
  intros Hr. cbn [dec_node]. rewrite ReadKind_nil by done. unfold mbind, M_bind.
  unfold AppendString, EmptyString. cbn [must app]. unfold mret, M_ret. cbv beta iota.
  change (Z.to_nat 1) with 1%nat. cbn [take drop]. by rewrite drop_0.
Qed.
(** A list: its payload's items are counted, the rest is kept. *)
Lemma dec_list fuel pre dbh l r (st : St) :
  blen (enc_list (enc_items l)) + blen r < 2 ^ 62 →
  dec (S fuel) pre dbh (enc_list (enc_items l) ++ r) st =
    (if (Z.of_nat (length l) =? 1) || (Z.of_nat (length l) =? 2) then
       n ← dec_short db_tx (dec fuel) pre dbh (enc_list (enc_items l)) (headsize (blen (enc_items l)));
       mret (n, r)
     else if Z.of_nat (length l) =? 16 then
       n ← dec_full (dec fuel) pre dbh (enc_items l); mret (n, r)
     else go_panic impossible) st.
Proof.
  intros Hr. pose proof (blen_nonneg r). pose proof (enc_list_blen (enc_items l)) as Hb.
  pose proof (headsize_range (blen (enc_items l))). pose proof (blen_nonneg (enc_items l)).
  cbn [dec_node]. rewrite ReadKind_list by lia. unfold mbind, M_bind. cbn [must].
  unfold mret, M_ret. cbv beta iota. rewrite <-Hb.
  assert (Z.to_nat (blen (enc_list (enc_items l))) = length (enc_list (enc_items l))) as ->
    by (unfold blen; lia).
  rewrite take_app_length, drop_app_length.
  assert (drop (Z.to_nat (headsize (blen (enc_items l)))) (enc_list (enc_items l)) = enc_items l)
    as ->.
  { unfold enc_list. apply drop_app_length'.
    pose proof (puthead_length 0xC0 0xF7 (blen (enc_items l))) as Hp. unfold blen in *. lia. }
  unfold CountValues. rewrite CountValues_fuel_items by (done || lia). reflexivity.
Qed.
Lemma short_payload l :
  drop (Z.to_nat (headsize (blen (enc_items l)))) (enc_list (enc_items l)) = enc_items l.
Proof.
  unfold enc_list. apply drop_app_length'.
  pose proof (puthead_length 0xC0 0xF7 (blen (enc_items l))) as Hp.
  pose proof (headsize_range (blen (enc_items l))). unfold blen in *. lia.
Qed.

Lemma short_key l k r fuel pre dbh (st : St) :
  l = IString (key_compact k) :: r → compact_to_hex (key_compact k) = Ret k →
  blen (enc_items l) < 2 ^ 62 →
  dec_short db_tx (dec fuel) pre dbh (enc_list (enc_items l)) (headsize (blen (enc_items l))) st =
    (if hasTerm k then dec_leaf db_tx pre dbh k (enc_items r)
     else
       '(val, _) ← dec fuel (pre ++ k) None (enc_items r);
       let h := match dbh with
                | None => if is_node_hash val then Some (keccak (enc_list (enc_items l))) else None
                | Some h => Some h
                end in
       mret (short_node k val h)) st.
Proof.
  intros -> Hk Hb. rewrite enc_items_cons in *. cbn [enc_item] in *. unfold dec_short.
  change (AppendString (key_compact k) ++ enc_items r) with
    (enc_items (IString (key_compact k) :: r)). rewrite short_payload, enc_items_cons. cbn [enc_item].
  rewrite blen_app in Hb. pose proof (AppendString_bounds (key_compact k)).
  pose proof (blen_nonneg (enc_items r)).
  rewrite SplitString_AppendString by lia. unfold mbind, M_bind. cbn [must].
  unfold mret, M_ret, of_outcome. cbv beta iota. rewrite Hk. cbv beta iota. by destruct (hasTerm k).
Qed.
Lemma dec_leaf_hash pre dbh k s (st : St) :
  dec_leaf db_tx pre dbh k (enc_items [IString (trie_hash (Leaf k s))]) st =
    (Ret (short_node (V := V) k nil_val_node (Some (trie_hash (Leaf k s)))), st).
Proof.
  assert (length (trie_hash (Leaf k s)) = HashLength) as Hh by apply Hhash.
  unfold dec_leaf, enc_items. cbn [map concat enc_item].
  assert (∃ b l, AppendString (trie_hash (Leaf k s)) ++ [] = b :: l) as (b & l & E).
  { rewrite AppendString_hash by done. eauto. }
  assert (blen (trie_hash (Leaf k s)) + blen [] < 2 ^ 63) as Hb.
  { unfold blen. rewrite Hh. done. }
  pose proof (SplitString_AppendString (trie_hash (Leaf k s)) [] Hb) as Hs. rewrite E in *.
  rewrite Hs. unfold mbind, M_bind. cbn [must]. unfold mret, M_ret. cbv beta iota.
  by rewrite Hh, Nat.eqb_refl.
Qed.
Lemma dec_leaf_spec d pre k s (st : St) :
  is_nibbles pre → (length pre + d = HexKeyLen)%nat → is_key d k → stored pre (Leaf k s) →
  ∃ n, dec_leaf db_tx pre None k (enc_items (tail (store_items (Leaf k s)))) st = (Ret n, st) ∧
    rep pre n (Leaf k s) ∧ is_node_hash n = false.
Proof.
  intros Hpre Hd Hk Hst. inversion Hst as [? ? ? Hc Hs| |]; subst. cbn [store_items tail].
  destruct (big (Leaf k s)) eqn:Eb.
  { eexists. split; [apply dec_leaf_hash|]. split; [|done]. constructor; [done| |done].
    split_and!; [done|by right|done]. }
  pose proof Hs as [Hne _].
  destruct (Z.leb_spec (blen s) MaxValueSizeToStoreInTrie) as [Hle|Hgt].
  - exists (short_node k (value_node (Some (internal_value s (hash_value s)))) None).
    split; [|split; [|done]; constructor; [split; [done|done]|done|done]].
    unfold dec_leaf, enc_items. cbn [map concat enc_item].
    assert (∃ b l, AppendString s ++ [] = b :: l) as (b & l & E).
    { pose proof (AppendString_pos s). destruct (AppendString s); [done|]. eauto. }
    assert (blen s + blen [] < 2 ^ 63) as Hb.
    { change (blen []) with 0. unfold HashLength in Hmax. lia. }
    pose proof (SplitString_AppendString s [] Hb) as Hsp. rewrite E in *. rewrite Hsp.
    unfold mbind, M_bind. cbn [must]. unfold mret, M_ret. cbv beta iota.
    destruct (Nat.eqb_spec (length s) HashLength) as [Hbad|_].
    { unfold blen in Hle. rewrite Hbad in Hle. lia. }
    assert (0 < blen s) as Hpos by (destruct s; [done|unfold blen; simpl; lia]).
    destruct (Z.ltb_spec 0 (blen s)), (Z.leb_spec (blen s) MaxValueSizeToStoreInTrie); try lia.
    cbn [andb negb panic_if]. unfold mret, M_ret, of_outcome. by rewrite (hash_value_storable s Hs).
  - exists (short_node k (value_node (Some (internal_value s (hash_value s)))) None).
    split; [|split; [|done]; constructor; [split; [done|done]|done|done]].
    unfold dec_leaf, enc_items. cbn [map concat]. unfold mbind, M_bind.
    rewrite (resolve_val_spec _ s) by (done || (rewrite <-Hd; by apply is_key_app)). done.
Qed.

(** What reading gives: a node in memory that stands for the trie. *)
Definition reads (pre : bytes) (t : trie) (r : bytes) (res : outcome (node V * bytes) * St)
    (st : St) : Prop :=
  ∃ n, res = (Ret (n, r), st) ∧ rep pre n t ∧ (is_node_hash n = true → is_branch t && big t = true).
Definition reads_in_memory (pre : bytes) (t : trie) (r : bytes)
    (res : outcome (node V * bytes) * St) (st : St) : Prop :=
  ∃ n, res = (Ret (n, r), st) ∧ rep pre n t ∧ is_node_hash n = false.
Definition reads_item (t : trie) : Prop :=
  ∀ d pre fuel r (st : St),
    wf d t → is_nibbles pre → (length pre + d = HexKeyLen)%nat → stored pre t →
    (length (enc_item (store_item t)) <= fuel)%nat → blen r < 2 ^ 61 →
    reads pre t r (dec fuel pre None (enc_item (store_item t) ++ r) st) st.

Lemma dec_children_spec d ts pre fuel (st : St) :
  is_nibbles pre → (length pre + S d = HexKeyLen)%nat →
  (∀ i t, ts !! i = Some (Some t) → wf d t ∧ reads_item t) →
  ∀ ts2 ts1, ts = ts1 ++ ts2 → length ts = 16%nat →
  (∀ i t, ts !! i = Some (Some t) → stored (pre ++ [Z.of_nat i]) t) →
  (length (enc_items (map store_child ts2)) <= fuel)%nat →
  ∃ ns, dec_children (dec fuel) pre (Z.of_nat (length ts1)) (length ts2)
      (enc_items (map store_child ts2)) st = (Ret ns, st) ∧ length ns = length ts2 ∧
    (∀ i n, ts2 !! i = Some None → ns !! i = Some n → n = nil_node) ∧
    (∀ i n t, ns !! i = Some n → ts2 !! i = Some (Some t) →
      rep (pre ++ [Z.of_nat (length ts1 + i)]) n t).
Proof.
  intros Hpre Hd Hts ts2. induction ts2 as [|o ts2 IH]; intros ts1 Ets Hlen Hst Hf.
  { exists []. by split_and!. }
  cbn [map length]. rewrite enc_items_cons in *. cbn [map] in Hf. rewrite enc_items_cons, length_app in Hf.
  assert (blen (enc_items (map store_child ts2)) < 2 ^ 61) as Hr.
  { unfold enc_items. rewrite map_map.
    assert (blen (concat (map (λ x, enc_item (store_child x)) ts2)) <= 3300 * Z.of_nat (length ts2)) as Hb.
    { apply blen_concat_bound. apply Forall_lookup_2. intros i [t|] Hi; [|by vm_compute].
      destruct (Hts (length ts1 + S i)%nat t) as [Hwf _].
      { rewrite Ets, lookup_app_r by lia. by replace (length ts1 + S i - length ts1)%nat with (S i) by lia. }
      apply (store_item_bound Hhash Hmax d); [done|unfold HexKeyLen in *; lia]. }
    apply (f_equal length) in Ets. rewrite length_app in Ets. simpl in Ets. lia. }
  destruct (IH (ts1 ++ [o])) as (ns & E & Hl & Hnil & Hall); [by rewrite <-app_assoc|done|done|lia|].
  assert (∃ n, dec fuel (pre ++ [Z.of_nat (length ts1)]) None
    (enc_item (store_child o) ++ enc_items (map store_child ts2)) st =
      (Ret (n, enc_items (map store_child ts2)), st) ∧ orep (pre ++ [Z.of_nat (length ts1)]) n o)
    as (n & En & Hn).
  { pose proof (enc_item_length (store_child o)) as Hpos. unfold blen in Hpos.
    assert (ts !! length ts1 = Some o) as Ho by (rewrite Ets; by apply list_lookup_middle).
    assert (length ts1 < 16)%nat as Hlt by (rewrite <-Hlen; by eapply lookup_lt_Some).
    destruct o as [t|].
    - destruct (Hts _ t Ho) as [Hwf Hre].
      destruct (Hre d (pre ++ [Z.of_nat (length ts1)]) fuel (enc_items (map store_child ts2)) st)
        as (n & En & Hn & _); [done| | |by apply Hst|simpl in Hf; lia|done|by exists n].
      + apply is_nibbles_app. split; [done|]. constructor; [by apply index_nibble|done].
      + rewrite length_app. simpl. lia.
    - destruct fuel as [|fuel]; [lia|]. exists nil_node. split; [|done]. cbn [store_child enc_item].
      apply dec_nil. lia. }
  exists (n :: ns). cbn [dec_children]. unfold mbind, M_bind. rewrite En.
  rewrite length_app in E. cbn [length] in E.
  replace (Z.of_nat (length ts1 + 1)) with (Z.of_nat (length ts1) + 1) in E by lia. rewrite E.
  split_and!; [done|by simpl; rewrite Hl| |].
  - intros [|i] m Hi Hm; simpl in *; [by simplify_eq|by apply (Hnil i)].
  - intros [|i] m t Hm Hi; simpl in *.
    + simplify_eq. by rewrite Nat.add_0_r.
    + specialize (Hall i m t Hm Hi). rewrite length_app in Hall. simpl in Hall.
      by replace (length ts1 + S i)%nat with (length ts1 + 1 + i)%nat by lia.
Qed.

Lemma store_payload t : (length (enc_items (store_items t)) < length (store t))%nat.
Proof.
  unfold store. pose proof (enc_list_bounds (enc_items (store_items t))). unfold blen in *. lia.
Qed.
Lemma store_ext_small p u :
  big u = true → is_branch u = true → store (Ext p u) = encode_trie (Ext p u).
Proof.
  intros Hb Hu. unfold store. rewrite store_items_ext, encode_ext, child_ref_big, Hb.
  rewrite !enc_items_cons, enc_store_item, Hb, Hu. cbn [enc_item andb].
  change (enc_items []) with (@nil Z). by rewrite app_nil_r.
Qed.
Lemma big_ext p u : big u = true → big (Ext p u) = true.
Proof. intros Hb. destruct (big (Ext p u)) eqn:E; [done|]. apply small_ext in E; [congruence|done..]. Qed.

(** The list of a key part and a child: the child is read, and its hash decides the hash. *)
Lemma dec_ext_spec d p ts pre dbh fuel (st : St) :
  wf d (Branch ts) → is_nibbles p → is_nibbles pre → p ≠ [] →
  (length pre + (length p + d) = HexKeyLen)%nat →
  stored pre (Ext p (Branch ts)) → hash_ok pre dbh (Ext p (Branch ts)) →
  reads_item (Branch ts) → (length (store (Ext p (Branch ts))) <= S fuel)%nat →
  ∃ n, dec_short db_tx (dec fuel) pre dbh (store (Ext p (Branch ts)))
      (headsize (blen (enc_items (store_items (Ext p (Branch ts)))))) st = (Ret n, st) ∧
    rep pre n (Ext p (Branch ts)) ∧ is_node_hash n = false.
Proof.
  intros Hwf Hp Hpre Hne Hd Hst Hok Hre Hf. set (u := Branch ts) in *.
  assert (is_branch u = true) as Hu by done. clearbody u.
  assert (wf (length p + d) (Ext p u)) as Hwfe by (destruct u; try done; by constructor).
  pose proof (store_bound Hhash Hmax _ _ Hwfe ltac:(lia)) as Hb.
  destruct (key_compact_part (length pre + d) p Hp ltac:(lia)) as (_ & Hk & _ & Hterm).
  pose proof (store_payload (Ext p u)) as Hpay.
  unfold store at 1. rewrite (short_key _ p [store_item u]); [|apply store_items_ext|done|].
  2:{ unfold blen in *. lia. }
  rewrite Hterm. rewrite enc_items_cons. change (enc_items []) with (@nil Z).
  inversion Hst as [|? ? ? Hstu|]; subst.
  assert (length (enc_item (store_item u)) <= fuel)%nat as Hfu.
  { rewrite store_items_ext, !enc_items_cons, !length_app in Hpay. lia. }
  destruct (Hre d (pre ++ p) fuel [] st Hwf) as (n & En & Hn & Hhn);
    [by apply is_nibbles_app|rewrite length_app; lia|done|done|done|].
  unfold mbind, M_bind. rewrite En. unfold mret, M_ret. cbv beta iota zeta.
  eexists. split; [done|]. split; [|done]. constructor; [done| |].
  - destruct dbh; [done|]. destruct (is_node_hash n); [|done].
    specialize (Hhn eq_refl). apply andb_true_iff in Hhn as [_ Hbig].
    change (keccak (enc_list (enc_items (store_items (Ext p u))))) with (keccak (store (Ext p u))).
    rewrite store_ext_small by done. split_and!; [done|right; by apply big_ext|done].
  - assert (has_hash n = true ∨ big u = false) as Hor.
    { destruct (big u) eqn:Eb; [left|by right]. destruct fuel as [|fuel].
      { pose proof (enc_item_length (store_item u)) as L. unfold blen in L. lia. }
      rewrite enc_store_item, Hu, Eb in En. cbn [andb] in En.
      rewrite dec_hash in En; [|apply Hhash|done]. by injection En as <-. }
    destruct dbh; [done|]. by destruct (is_node_hash n).
Qed.
Lemma reads_item_of t :
  (∀ d pre fuel r (st : St),
    wf d t → is_nibbles pre → (length pre + d = HexKeyLen)%nat → stored pre t →
    (length (store t) <= fuel)%nat → blen r < 2 ^ 61 →
    reads_in_memory pre t r (dec fuel pre None (store t ++ r) st) st) →
  reads_item t.
Proof.
  intros Hmem d pre fuel r st Hwf Hpre Hd Hst Hf Hr. rewrite enc_store_item in *.
  destruct (is_branch t && big t) eqn:E.
  - pose proof E as E'. apply andb_true_iff in E' as [Eb Ebig]. exists (node_hash (trie_hash t)).
    split_and!; [| |done].
    + destruct fuel as [|fuel].
      { rewrite AppendString_hash in Hf by apply Hhash. simpl in Hf. lia. }
      apply dec_hash; [apply Hhash|lia].
    + apply rep_hash; [done| |by right]. destruct t; try done. inversion Hst; subst. auto.
  - destruct (Hmem d pre fuel r st) as (n & En & Hn & Hh); try done. exists n.
    split_and!; [done..|]. by rewrite Hh.
Qed.
(** A branch that is read as an entry of the store or inline. *)
Lemma dec_branch_spec d ts pre dbh fuel r (st : St) :
  wf (S d) (Branch ts) → is_nibbles pre → (length pre + S d = HexKeyLen)%nat →
  stored pre (Branch ts) → hash_ok pre dbh (Branch ts) →
  (∀ i t, ts !! i = Some (Some t) → reads_item t) →
  (length (store (Branch ts)) <= fuel)%nat → blen r < 2 ^ 61 →
  reads_in_memory pre (Branch ts) r (dec fuel pre dbh (store (Branch ts) ++ r) st) st.
Proof.
  intros Hwf Hpre Hd Hst Hok Hre Hf Hr. pose proof (store_payload (Branch ts)) as Hpay.
  pose proof (store_bound Hhash Hmax _ _ Hwf ltac:(lia)) as Hb.
  inversion Hwf as [| |? ? Hl _ Hall]; subst. inversion Hst as [| |? ? Hst' _]; subst.
  destruct fuel as [|fuel]; [lia|]. unfold reads_in_memory, store in *.
  rewrite store_items_branch in *. rewrite dec_list by (unfold blen in *; lia).
  rewrite length_map, Hl. change (Z.of_nat 16 =? 1) with false. change (Z.of_nat 16 =? 2) with false.
  change (Z.of_nat 16 =? 16) with true. cbn [orb].
  destruct (dec_children_spec d ts pre fuel st Hpre Hd) with (ts2 := ts) (ts1 := @nil (option trie))
    as (ns & E & Hlns & Hnil & Hch); try done.
  { intros i t Hi. split; [by eapply Hall|by eapply Hre]. }
  { lia. }
  rewrite Hl in E, Hlns. exists (full_node ns dbh). split_and!; [|by constructor|done].
  unfold dec_full, mbind, M_bind. cbn [length] in E. change (Z.of_nat 0) with 0 in E.
  unfold full_node_child_cnt. by rewrite E.
Qed.
Lemma decode_store d0 t :
  wf d0 t → ∀ d pre fuel r (st : St),
    wf d t → is_nibbles pre → (length pre + d = HexKeyLen)%nat → stored pre t →
    (length (store t) <= fuel)%nat → blen r < 2 ^ 61 →
    reads_in_memory pre t r (dec fuel pre None (store t ++ r) st) st.
Proof.
  induction 1 as [d0 k s Hk|d0 p ts Hp Hne Hwf IH|d0 ts Hl Htwo Hall IH];
    intros d pre fuel r st Hwfd Hpre Hd Hst Hf Hr;
    (match type of Hwfd with wf _ ?t => pose proof (store_payload t) as Hpay end);
    pose proof (store_bound Hhash Hmax _ _ Hwfd ltac:(lia)) as Hb; (destruct fuel as [|fuel]; [lia|]).
  - inversion Hwfd as [? ? ? Hk'| |]; subst.
    destruct (key_compact_key d k Hk' ltac:(lia)) as (_ & Hkc & _ & Hterm).
    destruct (dec_leaf_spec d pre k s st) as (n & En & Hn & Hh); [done..|].
    exists n. split_and!; [|done..]. unfold store in *. rewrite dec_list by (unfold blen in *; lia).
    assert (store_items (Leaf k s) = IString (key_compact k) :: tail (store_items (Leaf k s))) as Ei
      by done.
    assert ((Z.of_nat (length (store_items (Leaf k s))) =? 1) ||
      (Z.of_nat (length (store_items (Leaf k s))) =? 2) = true) as ->.
    { cbn [store_items]. destruct (big _); [done|]. by destruct (_ <=? _). }
    unfold mbind, M_bind. rewrite (short_key _ k _ _ _ _ _ Ei Hkc), Hterm, En;
      [done|unfold blen in *; lia].
  - inversion Hwfd as [|d' ? ? Hp' Hne' Hwf'|]; subst.
    destruct (dec_ext_spec d' p ts pre None fuel st) as (n & En & Hn & Hh); try done.
    { apply reads_item_of. intros. by eapply IH. }
    exists n. split_and!; [|done..]. unfold store in *. rewrite dec_list by (unfold blen in *; lia).
    assert (length (store_items (Ext p (Branch ts))) = 2%nat) as -> by by rewrite store_items_ext.
    change (Z.of_nat 2 =? 1) with false. change (Z.of_nat 2 =? 2) with true. cbn [orb].
    unfold mbind, M_bind. by rewrite En.
  - destruct d as [|d]; [inversion Hwfd|]. apply (dec_branch_spec d); try done.
    intros i t Hi. apply reads_item_of. intros. by eapply IH.
Qed.

(** Reading an entry of the store. *)
Lemma resolve_rep d pre n t (st : St) :
  wf d t → is_nibbles pre → (length pre + d = HexKeyLen)%nat → rep pre n t →
  match n with
  | node_hash h => ∃ m b, resolve db_tx h pre st = (Ret (m, b), st) ∧ rep pre m t ∧
      is_node_hash m = false
  | _ => True
  end.
Proof.
  intros Hwf Hpre Hd Hrep.
  destruct Hrep as [| | |pre t Hst Hget Hroot]; [done..|].
  assert (∃ m, dec (S (length (entry t))) pre (Some (trie_hash t)) (entry t) st = (Ret (m, []), st) ∧
    rep pre m t ∧ is_node_hash m = false) as (m & Em & Hm & Hh).
  2:{ exists m, (entry t). split_and!; [|done..]. unfold resolve. rewrite Hget.
      unfold mbind, M_bind. rewrite Em. apply rep_not_nil in Hm. by destruct m. }
  assert (hash_ok pre (Some (trie_hash t)) t) as Hok.
  { split_and!; [done| |done]. destruct Hroot as [|[_ ?]%andb_true_iff]; auto. }
  pose proof (store_bound Hhash Hmax d t Hwf ltac:(lia)) as Hb.
  destruct Hwf as [d k s Hk|d p ts Hp Hne Hwf|d ts Hl Htwo Hall].
  - destruct (key_compact_key d k Hk ltac:(lia)) as (_ & Hkc & Hlen & Hterm).
    exists (short_node k nil_val_node (Some (trie_hash (Leaf k s)))).
    inversion Hst as [? ? ? Hc Hs| |]; subst. split_and!; [|by constructor|done].
    assert (blen (entry (Leaf k s)) <= 100) as Hbe.
    { cbn [entry]. rewrite !enc_items_cons. change (enc_items []) with (@nil Z). cbn [enc_item].
      match goal with |- blen (enc_list ?b) <= _ => pose proof (enc_list_bounds b) as B end.
      rewrite !blen_app in B. rewrite (AppendString_hash_blen (trie_hash _)) in B by apply Hhash.
      pose proof (AppendString_bounds (key_compact k)). change (blen []) with 0 in B. lia. }
    rewrite <-(app_nil_r (entry _)) at 2. cbn [entry] in *.
    rewrite dec_list by (change (blen []) with 0; lia). cbn [length].
    change (Z.of_nat 2 =? 1) with false. change (Z.of_nat 2 =? 2) with true. cbn [orb].
    match goal with |- context [enc_list (enc_items ?l)] =>
      pose proof (enc_list_bounds (enc_items l)) end.
    unfold mbind, M_bind. rewrite (short_key _ k _ _ _ _ _ eq_refl Hkc) by lia.
    rewrite Hterm. cbn [tail]. by rewrite dec_leaf_hash.
  - destruct (dec_ext_spec d p ts pre (Some (trie_hash (Ext p (Branch ts))))
      (length (store (Ext p (Branch ts)))) st) as (n & En & Hn & Hh); try done.
    { apply reads_item_of. intros. by eapply (decode_store d). }
    { lia. }
    exists n. split_and!; [|done..]. rewrite <-(app_nil_r (entry _)) at 2. cbn [entry] in *.
    unfold store in *. rewrite dec_list by (change (blen []) with 0; lia).
    assert (length (store_items (Ext p (Branch ts))) = 2%nat) as -> by by rewrite store_items_ext.
    change (Z.of_nat 2 =? 1) with false. change (Z.of_nat 2 =? 2) with true. cbn [orb].
    unfold mbind, M_bind. by rewrite En.
  - destruct (dec_branch_spec d ts pre (Some (trie_hash (Branch ts)))
      (S (length (entry (Branch ts)))) [] st) as (n & En & Hn & Hh); try done.
    { by constructor. }
    { intros i t Hi. apply reads_item_of. intros. eapply (decode_store d); eauto. }
    { cbn [entry]. lia. }
    exists n. split_and!; [|done..]. rewrite <-(app_nil_r (entry _)) at 2. exact En.
Qed.
End rep.
