(* ===== verification/TrieFacts.v ===== *)
(** Insertion and deletion of the trie writer on the abstract trie: on every node shape and with
    enough fuel they change the finite map at one key, keep the form canonical, and leave nodes
    that stand for the result. *)
From S2P Require Import Prelude Codec Rlp RlpEncoder Storage TrieEncoding Trie TrieMap TrieHash TrieRep.

(** * Common prefixes *)
Lemma prefixLen_cases x y :
  (∃ r, x = y ++ r ∧ prefixLen x y = length y) ∨
  (∃ b r, y = x ++ b :: r ∧ prefixLen x y = length x) ∨
  (∃ c a b ra rb, x = c ++ a :: ra ∧ y = c ++ b :: rb ∧ a ≠ b ∧ prefixLen x y = length c).
Proof.
  revert y. induction x as [|a x IH]; intros [|b y]; simpl.
  - left. by exists [].
  - right. left. by exists b, y.
  - left. by exists (a :: x).
  - destruct (Z.eqb_spec a b) as [->|Hne]; [|by right; right; exists [], a, b, x, y].
    destruct (IH y) as [(r & -> & ->)|[(b' & r & -> & ->)|(c & a' & b' & ra & rb & -> & -> & Hne & ->)]].
    + left. by exists r.
    + right. left. by exists b', r.
    + right. right. by exists (b :: c), a', b', ra, rb.
Qed.
Lemma prefixLen_refl x : prefixLen x x = length x.
Proof. induction x as [|a x IH]; [done|]. simpl. by rewrite Z.eqb_refl, IH. Qed.

Lemma prefixLen_app p r : prefixLen (p ++ r) p = length p.
Proof. induction p as [|a p IH]; [by destruct r|]. simpl. by rewrite Z.eqb_refl, IH. Qed.

Section operations.
Context `{Keccak} `{Schema} {V : Type} `{!TrieValue V} (db_tx : Input).
Context (clean : bytes → bytes → Prop).
Context (Hhash : ∀ b, length (keccak b) = HashLength).
Context (Hmax : MaxValueSizeToStoreInTrie < Z.of_nat HashLength).
Context (Hclean : ∀ l s, is_nibbles l → length l = MaxDepth → clean (l ++ [16]) s →
  GetValue db_tx (pack l) = Some s).
Context {St : Type}.
Abbreviation rep := (rep (V := V) db_tx clean).
Abbreviation orep := (orep (V := V) db_tx clean).
Abbreviation vrep := (vrep (V := V) clean).

Lemma at_index_run {A} (l : list A) i x (st : St) :
  0 <= i → l !! Z.to_nat i = Some x → at_index l i st = (Ret x, st).
Proof. intros Hi Hl. unfold at_index. rewrite Hl. by destruct (Z.ltb_spec i 0); [lia|]. Qed.
Lemma set_index_run {A} (l : list A) i x (st : St) :
  0 <= i < Z.of_nat (length l) → set_index l i x st = (Ret (<[Z.to_nat i := x]> l), st).
Proof.
  intros Hi. unfold set_index.
  by destruct (Z.leb_spec 0 i), (Z.ltb_spec i (Z.of_nat (length l))); try lia.
Qed.

Lemma resolve_in_memory d pre h t (st : St) :
  wf d t → is_nibbles pre → (length pre + d = HexKeyLen)%nat → rep pre (node_hash h) t →
  ∃ m b, resolve db_tx h pre st = (Ret (m, b), st) ∧ rep pre m t ∧ is_node_hash m = false.
Proof.
  intros Hwf Hpre Hd Hrep. by apply (resolve_rep db_tx clean Hhash Hmax Hclean d pre (node_hash h)).
Qed.
(** A leaf's value, loaded before the leaf moves. *)
Lemma load_spec key v s (st : St) :
  is_key HexKeyLen key → vrep key v s →
  ∃ v', (match v with None => resolve_val_n_by_hex_k db_tx key | _ => mret (value_node v) end) st =
      (Ret (value_node (Some v')), st) ∧ vrep key (Some v') s.
Proof.
  intros Hk Hv. destruct v as [v|]; [by exists v|]. destruct Hv as [Hs Hc].
  eexists. split; [by eapply resolve_val_spec|]. by split_and!.
Qed.
Lemma shift_leaf k0 v s h p x k up (st : St) :
  is_key HexKeyLen (p ++ x :: k) → vrep (p ++ x :: k) v s →
  ∃ v', vrep (p ++ x :: k) (Some v') s ∧
    shift db_tx k0 (value_node v) h p x k up st =
      (Ret (if up then short_node (x :: k) (value_node (Some v')) h
            else match k with [] => value_node (Some v')
                 | _ => short_node k (value_node (Some v')) h end : node V), st).
Proof.
  intros Hk Hv. destruct (load_spec _ v s st Hk Hv) as (v' & E & Hv'). exists v'. split; [done|].
  unfold shift, mbind, M_bind. change (p ++ [x] ++ k) with (p ++ x :: k).
  assert ((match v with None => resolve_val_n_by_hex_k db_tx (p ++ x :: k)
           | Some _ => mret (value_node v) end) st = (Ret (value_node (Some v')), st)) as E2 by done.
  destruct v as [v|]; [|rewrite E2]; destruct up, k; try done; by injection E as ->.
Qed.
Lemma shift_other k0 n h p x k up (st : St) :
  (∀ v, n ≠ value_node v) →
  shift db_tx k0 n h p x k up st =
    (Ret (if up then short_node (x :: k) n h
          else match k with [] => n | _ => short_node k n h end : node V), st).
Proof.
  intros Hn. unfold shift, mbind, M_bind.
  destruct n as [| | | |v]; try (by destruct (Hn v)); by destruct up, k.
Qed.

(** What moves below the junction where two keys part. *)
Lemma moved_spec d pre c a ka b kb val h0 t k0 (st : St) :
  is_nibbles pre → (length pre + d = HexKeyLen)%nat → is_key d (c ++ a :: ka) → a ≠ b →
  wf d t → rep pre (short_node (c ++ b :: kb) val h0) t →
  ∃ moved tb, shift db_tx k0 val None (pre ++ c) b kb false st = (Ret moved, st) ∧
    rep (pre ++ c ++ [b]) moved tb ∧ wf (d - length c - 1) tb ∧ join (c ++ [b]) tb = t ∧
    is_nibbles (c ++ [b]).
Proof.
  intros Hpre Hd Hk Hne Hwf Hrep. inversion Hrep as [? ? v s ? Hv _ _|? ? ? t' ? Hr _ _| |]; subst.
  - inversion Hwf as [? ? ? Hkey| |]; subst.
    assert (kb ≠ []) as Hkb.
    { intros ->. pose proof (is_key_length _ _ Hk) as L1. pose proof (is_key_length _ _ Hkey) as L2.
      rewrite length_app in L1, L2. simpl in L1, L2. destruct ka; [|simpl in L1; lia].
      destruct Hk as (l1 & E1 & _), Hkey as (l2 & E2 & _).
      apply app_inj_tail in E1 as [_ ->], E2 as [_ ->]. done. }
    rewrite (app_assoc c [b] kb : c ++ b :: kb = _) in Hkey.
    destruct (is_key_inv d (c ++ [b]) kb Hkey Hkb) as [Hnib Hkk].
    destruct (shift_leaf k0 v s None (pre ++ c) b kb false st) as (v' & Hv' & E).
    { rewrite <-app_assoc, <-Hd. apply is_key_app; [done|].
      by rewrite (app_assoc c [b] kb : c ++ b :: kb = _). }
    { by rewrite <-app_assoc. }
    exists (short_node kb (value_node (Some v')) None), (Leaf kb s).
    rewrite E. rewrite <-app_assoc in Hv'. split_and!.
    + by destruct kb.
    + constructor; [|done|done]. by rewrite <-!app_assoc.
    + constructor. rewrite length_app in Hkk. simpl in Hkk.
      by replace (d - length c - 1)%nat with (d - (length c + 1))%nat by lia.
    + cbn [join]. by rewrite <-app_assoc.
    + done.
  - inversion Hwf as [|? ? ts Hnib Hne' Hb|]; subst.
    rewrite (app_assoc c [b] kb : c ++ b :: kb = _) in Hnib. apply is_nibbles_app in Hnib as [Hcb Hkb].
    rewrite shift_other by (intros v ->; inversion Hr).
    eexists _, (wrap kb (Branch ts)). split; [done|]. split_and!.
    + replace (pre ++ c ++ b :: kb) with ((pre ++ c ++ [b]) ++ kb) in Hr
        by (by rewrite <-!app_assoc).
      by apply rep_wrap.
    + rewrite length_app. simpl. replace (length c + S (length kb) + d0 - length c - 1)%nat
        with (length kb + d0)%nat by lia. by apply wf_wrap.
    + destruct kb as [|y kb]; cbn [wrap join]; [by destruct c|]. by rewrite <-app_assoc.
    + done.
Qed.

(** Fuel: two calls for every nibble that is left, one more for a node that is not in memory. *)
Definition enough (d : nat) (n : node V) : nat := 2 * d + (if is_node_hash n then 2 else 1).
Lemma enough_any d n : (enough d n <= 2 * d + 2)%nat.
Proof. unfold enough. destruct (is_node_hash n); lia. Qed.
Lemma drop_nibble (pre : bytes) y k : drop (length pre + 1) (pre ++ y :: k) = k.
Proof.
  replace (length pre + 1)%nat with (length (pre ++ [y])) by (rewrite length_app; simpl; lia).
  rewrite (app_assoc pre [y] k : pre ++ y :: k = _). by rewrite drop_app_length.
Qed.
Lemma lookup_nibble (pre : bytes) y k : (pre ++ y :: k) !! length pre = Some y.
Proof. by apply list_lookup_middle. Qed.

(** Below a branch there is a nibble before the terminator. *)
Lemma branch_key d ts k :
  wf (S d) (Branch ts) → is_key (S d) k → ∃ y r, k = y :: r ∧ is_nibble y ∧ is_key d r.
Proof.
  intros Hwf Hk. pose proof (is_key_length _ _ Hk) as L. destruct k as [|y r]; [done|].
  exists y, r. assert (r ≠ []) as Hr.
  { intros ->. inversion Hwf as [| |? ? _ (i & _ & t & _ & _ & Hi & _) Hall]; subst.
    destruct (tlookup_exists d t (Hall i t Hi)) as (k & v & Ek).
    simpl in L. assert (d = 0%nat) as -> by lia.
    by apply (is_key_0 k), (tlookup_is_key _ t k v (Hall i t Hi)). }
  destruct (is_key_inv (S d) [y] r Hk Hr) as [Hy%Forall_inv Hkr]. split_and!; try done.
  simpl in Hkr. by rewrite Nat.sub_0_r in Hkr.
Qed.
Lemma ext_key d p ts r :
  wf d (Branch ts) → is_key (length p + d) (p ++ r) → is_nibbles p → r ≠ [] ∧ is_key d r.
Proof.
  intros Hb Hk Hp. assert (r ≠ []) as Hr.
  { intros ->. pose proof (is_key_length _ _ Hk) as L. rewrite app_nil_r in L.
    destruct (branch_heads _ _ Hb) as (y & _ & k & _ & w & _ & _ & Ew & _).
    pose proof (is_key_length _ _ (tlookup_is_key _ _ _ _ Hb Ew)) as L'. simpl in L'. lia. }
  split; [done|]. destruct (is_key_inv _ p r Hk Hr) as [_ Hkr].
  by replace (length p + d - length p)%nat with d in Hkr by lia.
Qed.

Section insertion.
(** * Insertion *)
Context (x : V) (sv : bytes).
Context (Hx : EncodeForTrie x = (sv, hash_value sv)) (Hsv : storable sv).
Let value : node V := value_node (Some (client_value x)).

(** What insertion at the key [pre ++ k] makes of the node [n] that stands for [o]. *)
Definition inserted (d : nat) (pre k : bytes) (o : option trie) (r : outcome (node V) * St)
    (st : St) : Prop :=
  ∃ n' t', r = (Ret n', st) ∧ rep pre n' t' ∧ wf d t' ∧ upd (Some t') o k (Some sv) ∧
    fresh n' = true ∧ (∀ ts, o = Some (Branch ts) → is_branch t' = true).

Lemma rep_new pre k : rep pre (short_node k value None) (Leaf k sv).
Proof. by constructor. Qed.
Lemma insert_split fuel d pre c a ka b kb val h0 t (st : St) :
  is_nibbles pre → (length pre + d = HexKeyLen)%nat → is_key d (c ++ a :: ka) → a ≠ b →
  wf d t → rep pre (short_node (c ++ b :: kb) val h0) t →
  prefixLen (c ++ a :: ka) (c ++ b :: kb) = length c →
  inserted d pre (c ++ a :: ka) (Some t)
    (mpt_insert db_tx (pre ++ c ++ a :: ka) (S fuel) (short_node (c ++ b :: kb) val h0) (length pre)
       value st) st.
Proof.
  intros Hpre Hd Hk Hne Hwf Hrep Hm.
  destruct (moved_spec d pre c a ka b kb val h0 t (c ++ b :: kb) st)
    as (moved & tb & Es & Hrm & Hwm & Hj & Hcb); [done..|].
  pose proof Hcb as Hcb'. apply is_nibbles_app in Hcb' as [Hc Hb]. apply Forall_inv in Hb.
  assert (is_nibble a ∧ is_key (d - length c - 1) ka) as [Ha Hka].
  { pose proof (is_key_length _ _ Hk) as L.
    destruct ka as [|y ka].
    - exfalso. rewrite length_app in L. simpl in L.
      assert (d - length c - 1 = 0)%nat as E0 by lia. rewrite E0 in Hwm.
      destruct (tlookup_exists _ _ Hwm) as (k' & v' & Ek).
      by apply (is_key_0 k'), (tlookup_is_key _ tb k' v').
    - rewrite (app_assoc c [a] (y :: ka) : c ++ a :: y :: ka = _) in Hk.
      destruct (is_key_inv d (c ++ [a]) (y :: ka) Hk) as [Hca Hka]; [done|].
      apply is_nibbles_app in Hca as [_ Hca%Forall_inv]. split; [done|].
      rewrite length_app in Hka. simpl in Hka.
      by replace (d - length c - 1)%nat with (d - (length c + 1))%nat by lia. }
  pose proof (is_key_length _ _ Hk) as L. rewrite length_app in L. simpl in L.
  assert (Z.to_nat a < 16)%nat as La by by apply nibble_index.
  assert (Z.to_nat b < 16)%nat as Lb by by apply nibble_index.
  set (ns := <[Z.to_nat a := short_node ka value None]>
               (<[Z.to_nat b := moved]> (replicate 16 nil_node)) : list (node V)).
  assert (rep (pre ++ c) (full_node ns None) (Branch (two a (Leaf ka sv) b tb))) as Hrj.
  { apply (rep_update _ _ _ _ _ a _ (Some _) None); [|done|apply rep_new].
    apply (rep_update _ _ _ _ _ b moved (Some tb) None); [apply rep_empty_full|done|].
    by rewrite <-app_assoc. }
  exists (match c with [] => full_node ns None | _ => short_node c (full_node ns None) None end),
    (wrap c (Branch (two a (Leaf ka sv) b tb))).
  split_and!; [|by apply rep_wrap| | |by destruct c|].
  4:{ intros ts [= ->]. inversion Hrep. }
  - cbn [mpt_insert]. rewrite drop_app_length, Hm.
    destruct (Nat.eqb_spec (length pre + length c) HexKeyLen) as [|_]; [lia|].
    destruct (Nat.eqb_spec (length c) (length (c ++ b :: kb))) as [Hbad|_];
      [rewrite length_app in Hbad; simpl in Hbad; lia|].
    unfold mbind, M_bind. rewrite (at_index_run _ _ b) by
      (rewrite ?Nat2Z.id, ?lookup_app_r, ?Nat.sub_diag by lia; done || lia).
    rewrite (app_assoc pre c). rewrite take_app_length' by (by rewrite length_app).
    rewrite drop_app, drop_ge, app_nil_l by lia.
    replace (length c + 1 - length c)%nat with 1%nat by lia. cbn [drop]. rewrite ?drop_0. rewrite Es.
    rewrite set_index_run by (rewrite length_replicate; unfold full_node_child_cnt, is_nibble in *; lia).
    rewrite (at_index_run _ _ a) by
      (rewrite ?Nat2Z.id, ?lookup_app_r, ?length_app, ?Nat.sub_diag by (rewrite ?length_app; lia);
       done || lia).
    rewrite set_index_run by
      (rewrite length_insert, length_replicate; unfold full_node_child_cnt, is_nibble in *; lia).
    rewrite (drop_app (pre ++ c)), drop_ge, app_nil_l by (rewrite length_app; lia).
    rewrite length_app.
    replace (length pre + length c + 1 - (length pre + length c))%nat with 1%nat by lia. cbn [drop]. rewrite ?drop_0.
    rewrite take_app_length. by destruct c.
  - replace d with (length c + S (d - length c - 1))%nat by lia.
    apply wf_wrap; [done| |done]. apply wf_two; try done. by constructor.
  - rewrite <-Hj. by apply upd_split.
Qed.

Lemma insert_spec fuel d pre k n o (st : St) :
  is_nibbles pre → (length pre + d = HexKeyLen)%nat → is_key d k → owf d o → orep pre n o →
  (enough d n <= fuel)%nat →
  inserted d pre k o (mpt_insert db_tx (pre ++ k) fuel n (length pre) value st) st.
Proof.
  revert d pre k n o. induction fuel as [|fuel IH]; intros d pre k n o Hpre Hd Hk Hwf Hrep Hf;
    [unfold enough in Hf; destruct (is_node_hash n); lia|].
  destruct o as [t|]; simpl in Hwf, Hrep.
  2:{ subst n. exists (short_node k value None), (Leaf k sv). cbn [mpt_insert].
      rewrite drop_app_length.
      split_and!; [done|apply rep_new|by constructor|apply upd_leaf|done|done]. }
  pose proof Hrep as Hrep0. destruct Hrep as [pre kp v s h Hv Hh Hh'|pre p n t h Hr Hh Hh'|pre ns ts h Hns Hts Hnil Hall Hh
    |pre t Hst Hget Hroot].
  - inversion Hwf as [? ? ? Hkp| |]; subst. pose proof (is_key_length _ _ Hk) as Lk.
    pose proof (is_key_length _ _ Hkp) as Lkp.
    destruct (prefixLen_cases k kp) as
      [(r & -> & _)|[(b & r & -> & _)|(c & a & b & ra & rb & -> & -> & Hab & Hm)]].
    + rewrite length_app in Lk. destruct r; [|simpl in Lk; lia]. rewrite app_nil_r in *.
      exists (short_node kp value None), (Leaf kp sv). cbn [mpt_insert].
      rewrite drop_app_length, prefixLen_refl, Lkp, Hd, Nat.eqb_refl.
      split_and!; [done|apply rep_new|by constructor|apply upd_replace|done|done].
    + exfalso. rewrite length_app in Lkp. simpl in Lkp. lia.
    + apply (insert_split fuel d pre c a ra b rb _ h (Leaf (c ++ b :: rb) s)); done.
  - inversion Hwf as [|d' ? ts Hp Hne Hb|]; subst. pose proof (is_key_length _ _ Hk) as Lk.
    destruct (prefixLen_cases k p) as
      [(r & -> & Hm)|[(b & r & -> & _)|(c & a & b & ra & rb & -> & -> & Hab & Hm)]].
    + destruct (ext_key d' p ts r Hb Hk Hp) as [_ Hkr].
      pose proof (is_key_length _ _ Hkr) as Lr. assert (0 < length p)%nat by (destruct p; simpl; [done|lia]).
      destruct (IH d' (pre ++ p) r n (Some (Branch ts)))
        as (n' & t' & E & Hr' & Hwf' & Hu & Hfr & Hbr);
        [by apply is_nibbles_app|rewrite length_app; lia|done|done|done| |].
      { pose proof (enough_any d' n). unfold enough in Hf. simpl in Hf. lia. }
      rewrite length_app, <-app_assoc in E. specialize (Hbr ts eq_refl).
      exists (short_node p n' None), (Ext p t'). destruct t' as [| |ts']; [done..|].
      split_and!; [| |by constructor| | |done].
      * cbn [mpt_insert]. rewrite drop_app_length, Hm.
        destruct (Nat.eqb_spec (length pre + length p) HexKeyLen) as [Hbad|_].
        { destruct r; [simpl in Lr; subst d'; inversion Hb|simpl in Lr; lia]. }
        rewrite Nat.eqb_refl. unfold mbind, M_bind. by rewrite E.
      * by constructor.
      * apply (upd_join _ _ p) in Hu. destruct p; [done|]. apply Hu.
      * destruct n'; try done. inversion Hr'.
    + exfalso. rewrite length_app in Lk. simpl in Lk. lia.
    + apply (insert_split fuel _ pre c a ra b rb _ h (Ext (c ++ b :: rb) (Branch ts))); done.
  - inversion Hwf as [| |d' ? _ _ _]; subst. destruct (branch_key d' ts k Hwf Hk) as (y & r & -> & Hy & Hkr).
    pose proof Hrep0 as Hrep.
    destruct (orep_child db_tx clean pre ns ts y h Hrep Hy) as (c & Hc & Hoc).
    destruct (IH d' (pre ++ [y]) r c (pick ts y)) as (n' & t' & E & Hr' & Hwf' & Hu & Hfr & _);
      [apply is_nibbles_app; split; [done|by constructor]|rewrite length_app; simpl; lia|done| |done| |].
    { rewrite pick_nibble by done. by apply child_wf. }
    { pose proof (enough_any d' c). unfold enough in Hf. simpl in Hf. lia. }
    rewrite length_app, <-app_assoc in E. destruct (nibble_index y Hy) as [Ly _].
    exists (full_node (<[Z.to_nat y := n']> ns) None), (Branch (<[Z.to_nat y := Some t']> ts)).
    split_and!; [|by eapply (rep_update db_tx clean pre ns ts y n' (Some t'))|by apply wf_update
      |by apply upd_branch|done|done].
    cbn [mpt_insert]. unfold mbind, M_bind. unfold is_nibble in Hy.
    rewrite (at_index_run _ _ y) by (rewrite ?Nat2Z.id; (apply lookup_nibble || lia)).
    rewrite (at_index_run _ _ c) by (done || lia). simpl in E. rewrite E.
    by rewrite set_index_run by lia.
  - destruct (resolve_in_memory d pre (trie_hash t) t st) as (n & b & Hres & Hr & Hnh); [done..|].
    destruct (IH d pre k n (Some t)) as (n' & t' & E & Hr' & Hwf' & Hu & Hfr & Hbr);
      [done..| |].
    { unfold enough in *. rewrite Hnh. simpl in Hf. lia. }
    exists n', t'. split_and!; try done. cbn [mpt_insert]. rewrite take_app_length.
    unfold resolve_node, mbind, M_bind. rewrite Hres. apply E.
Qed.

End insertion.

(** * Deletion *)
(** The children left beside the one that goes, by index. *)
Definition live (n : node V) : bool := match n with nil_node => false | _ => true end.
Fixpoint others (children : list (node V)) (del i : Z) : list Z :=
  match children with
  | [] => []
  | c :: cs => if live c && negb (i =? del) then i :: others cs del (i + 1) else others cs del (i + 1)
  end.
Lemma only_child_others children del i only :
  0 <= i → -1 <= only →
  only_child children del i only =
  match (if only =? -1 then others children del i else only :: others children del i) with
  | [j] => j
  | _ => -1
  end.
Proof.
  revert i only. induction children as [|c cs IH]; intros i only Hi Ho; cbn [only_child others].
  { destruct (Z.eqb_spec only (-1)); [by subst|done]. }
  assert (only_child (c :: cs) del i only =
    if live c && negb (i =? del) then
      if negb (only =? -1) then -1 else only_child cs del (i + 1) i
    else only_child cs del (i + 1) only) as Hstep.
  { cbn [only_child]. by destruct c, (i =? del). }
  cbn [only_child] in Hstep. rewrite Hstep. clear Hstep.
  destruct (live c && negb (i =? del)); [|apply IH; lia].
  destruct (Z.eqb_spec only (-1)) as [->|]; cbn [negb]; [|by destruct (others cs del (i + 1))].
  rewrite IH by lia. by destruct (Z.eqb_spec i (-1)); [lia|].
Qed.
Lemma others_spec children del i j :
  j ∈ others children del i ↔
  ∃ m n, j = i + Z.of_nat m ∧ children !! m = Some n ∧ live n = true ∧ j ≠ del.
Proof.
  revert i. induction children as [|c cs IH]; intros i; cbn [others].
  { rewrite elem_of_nil. split; [done|]. by intros (m & n & _ & ? & _). }
  assert (j ∈ others cs del (i + 1) ↔ ∃ m n, j = i + Z.of_nat (S m) ∧ (c :: cs) !! S m = Some n ∧
    live n = true ∧ j ≠ del) as Hrest.
  { rewrite IH. split; intros (m & n & -> & ?); exists m, n; (split; [lia|done]). }
  destruct (live c && negb (i =? del)) eqn:E.
  - apply andb_true_iff in E as [Hc Hd]. apply negb_true_iff, Z.eqb_neq in Hd.
    rewrite elem_of_cons, Hrest. split.
    + intros [->|(m & n & Hm)]; [exists 0%nat, c; split_and!; (done || lia)|by exists (S m), n].
    + intros ([|m] & n & -> & Hn & Hl & Hj); [left; lia|right; by exists m, n].
  - rewrite Hrest. split; [intros (m & n & Hm); by exists (S m), n|].
    intros ([|m] & n & -> & Hn & Hl & Hj); [|by exists m, n].
    simpl in Hn. simplify_eq. rewrite Hl in E. simpl in E. rewrite Z.add_0_r in Hj.
    apply negb_false_iff, Z.eqb_eq in E. done.
Qed.
Lemma others_lt children del i j1 j2 l : others children del i = j1 :: j2 :: l → j1 < j2.
Proof.
  revert i. induction children as [|c cs IH]; intros i E; cbn [others] in E; [done|].
  destruct (live c && negb (i =? del)); [|by eapply IH]. injection E as <- E.
  assert (j2 ∈ others cs del (i + 1)) as Hin by (rewrite E; left).
  apply others_spec in Hin as (m & n & -> & _). lia.
Qed.
Lemma live_rep pre n t : rep pre n t → live n = true.
Proof. by inversion 1. Qed.
Lemma child_live pre ns ts h m :
  rep pre (full_node ns h) (Branch ts) → (m < 16)%nat →
  ∃ n, ns !! m = Some n ∧ live n = match child ts m with Some _ => true | None => false end.
Proof.
  intros Hrep Hm. destruct (orep_child db_tx clean pre ns ts (Z.of_nat m) h Hrep (index_nibble m Hm)) as (n & Hn & Ho).
  rewrite Nat2Z.id in Hn. rewrite pick_index in Ho. exists n. split; [done|].
  destruct (child ts m); simpl in Ho; [by eapply live_rep|by subst].
Qed.
(** What [only_child] tells of a branch that loses the child at [y]. *)
Lemma only_child_spec d pre ns ts h y :
  wf (S d) (Branch ts) → rep pre (full_node ns h) (Branch ts) → is_nibble y →
  let j := only_child ns y 0 (-1) in
  (j = -1 ∧ wf (S d) (Branch (<[Z.to_nat y := None]> ts))) ∨
  (is_nibble j ∧ j ≠ y ∧ (∃ t, pick ts j = Some t) ∧
   ∀ z, z ≠ y → z ≠ j → pick ts z = None).
Proof.
  intros Hwf Hrep Hy j.
  assert (∀ z, z ∈ others ns y 0 ↔ (∃ t, pick ts z = Some t) ∧ z ≠ y) as Hin.
  { intros z. rewrite others_spec. split.
    - intros (m & n & -> & Hn & Hl & Hne). rewrite Z.add_0_l in *. split; [|done].
      assert (m < 16)%nat as Hm.
      { apply lookup_lt_Some in Hn. inversion Hrep; lia. }
      destruct (child_live pre ns ts h m Hrep Hm) as (n' & Hn' & Hl').
      rewrite pick_index. destruct (child ts m) as [t|]; [by exists t|]. simplify_eq. congruence.
    - intros ((t & Ht) & Hne). destruct (pick_some d ts z t Hwf Ht) as (Hz & Hi & _).
      destruct (nibble_index z Hz) as [Hlt Ex].
      destruct (child_live pre ns ts h (Z.to_nat z) Hrep Hlt) as (n & Hn & Hl).
      exists (Z.to_nat z), n. rewrite Ex. split_and!; [lia|done| |done].
      rewrite Hl. apply child_some in Hi. by rewrite Hi. }
  unfold j. rewrite only_child_others by lia. cbn [Z.eqb].
  destruct (others ns y 0) as [|j1 [|j2 l]] eqn:Eo.
  - exfalso. pose proof Hwf as Hwf2.
    inversion Hwf2 as [| |? ? Hl (a & b & t & u & Hab & Ha & Hb) _]; subst.
    assert (∀ m t', ts !! m = Some (Some t') → Z.of_nat m = y) as Hall.
    { intros m t' Hm. destruct (decide (Z.of_nat m = y)) as [|Hne]; [done|].
      destruct (Hin (Z.of_nat m)) as [_ Hbad]. exfalso. eapply not_elem_of_nil, Hbad.
      split; [|done]. exists t'. rewrite pick_index. by apply child_some. }
    pose proof (Hall a t Ha). pose proof (Hall b u Hb). lia.
  - right. destruct (Hin j1) as [H1 _]. destruct H1 as [[t Ht] Hne]; [by left|].
    split_and!; [|done|by exists t|].
    + by destruct (pick_some d ts j1 t Hwf Ht).
    + intros z Hxy Hxj. destruct (pick ts z) as [u|] eqn:Ex; [|done].
      destruct (Hin z) as [_ H2]. exfalso. apply Hxj. eapply list_elem_of_singleton, H2. eauto.
  - left. split; [done|].
    pose proof (others_lt _ _ _ _ _ _ Eo) as Hlt.
    destruct (Hin j1) as [H1 _], (Hin j2) as [H2 _].
    destruct H1 as [[t Ht] Hn1]; [by left|]. destruct H2 as [[u Hu] Hn2]; [by right; left|].
    destruct (pick_some d ts j1 t Hwf Ht) as (Hj1 & Hi1 & _).
    destruct (pick_some d ts j2 u Hwf Hu) as (Hj2 & Hi2 & _).
    inversion Hwf as [| |? ? Hl _ Hall]; subst. unfold is_nibble in *.
    constructor; [by rewrite length_insert| |].
    + exists (Z.to_nat j1), (Z.to_nat j2), t, u.
      rewrite !list_lookup_insert_ne by lia. split_and!; [lia|done..].
    + intros i t' Hi. destruct (decide (Z.to_nat y = i)) as [<-|Hne].
      * rewrite list_lookup_insert_eq in Hi by lia. done.
      * rewrite list_lookup_insert_ne in Hi by done. by eapply Hall.
Qed.

(** What deletion at the key [pre ++ k] makes of the node that stands for [o]. *)
Definition deletes (d : nat) (pre k : bytes) (o : option trie) (r : outcome (@deleted V) * St)
    (st : St) : Prop :=
  match olookup o k with
  | None => ∃ n', r = (Ret (NotFound n'), st) ∧ orep pre n' o
  | Some _ => ∃ n' o', r = (Ret (Deleted n'), st) ∧ orep pre n' o' ∧ owf d o' ∧ upd o' o k None ∧
      fresh n' = true ∧ (∀ ts, o = Some (Branch ts) → is_Some o')
  end.

(** The only child takes the place of the branch. *)
Definition collapse (p : bytes) (j : Z) (only : node V) : M St (node V) :=
  match only with
  | short_node kp v _ => shift db_tx kp v None p j kp true
  | _ => mret (short_node [j] only None)
  end.
Lemma collapse_spec d pre j m t (st : St) :
  is_nibbles pre → (length pre + S d = HexKeyLen)%nat → is_nibble j → wf d t →
  rep (pre ++ [j]) m t → is_node_hash m = false →
  ∃ n', collapse pre j m st = (Ret n', st) ∧ rep pre n' (join [j] t) ∧ fresh n' = true.
Proof.
  intros Hpre Hd Hj Hwf Hrep Hm.
  inversion Hrep as [? kp v s h Hv _ _|? p n t' h Hr _ _|? ns ts h Hns Hts Hnil Hall Hh|]; subst; [| | |done].
  - inversion Hwf as [? ? ? Hkp| |]; subst. rewrite <-app_assoc in Hv. cbn [app] in Hv.
    destruct (shift_leaf kp v s None pre j kp true st) as (v' & Hv' & E).
    { rewrite <-Hd. apply is_key_app; [done|]. by apply is_key_cons. }
    { done. }
    eexists. split; [apply E|]. split; [|done]. by constructor.
  - inversion Hwf as [|? ? ts Hp Hne Hb|]; subst. eexists. split_and!.
    + apply shift_other. intros v ->. inversion Hr.
    + rewrite <-app_assoc in Hr. by constructor.
    + cbn [fresh]. destruct n; try done. inversion Hr.
  - eexists. split_and!; [done| |done]. by constructor.
Qed.
(** The end of the deletion below a branch, once the child at [y] is gone. *)
Definition delete_child (pre : bytes) (children : list (node V)) (y : Z) (dc : node V) :
    M St (@deleted V) :=
  let j := match dc with nil_node => only_child children y 0 (-1) | _ => -1 end in
  if j =? -1 then
    children ← set_index children y dc; mret (Deleted (full_node children None))
  else
    only ← at_index children j;
    only ← match only with node_hash h => resolve_node db_tx h (pre ++ [j]) | _ => mret only end;
    match only with
    | short_node key_part val _ =>
        n ← shift db_tx key_part val None pre j key_part true; mret (Deleted n)
    | _ => mret (Deleted (short_node [j] only None))
    end.
Lemma delete_child_collapse pre children y j only m n' (st : St) :
  j = only_child children y 0 (-1) → is_nibble j → children !! Z.to_nat j = Some only →
  (match only with node_hash h => resolve_node db_tx h (pre ++ [j]) | _ => mret only end) st =
    (Ret m, st) →
  collapse pre j m st = (Ret n', st) →
  delete_child pre children y nil_node st = (Ret (Deleted n'), st).
Proof.
  intros Ej Hj Hc Hm Hn. unfold delete_child. rewrite <-Ej. unfold is_nibble in Hj.
  destruct (Z.eqb_spec j (-1)); [lia|]. unfold mbind, M_bind.
  rewrite (at_index_run _ _ only) by (done || lia). rewrite Hm. unfold collapse in Hn.
  destruct m; unfold mret, M_ret in *; try by injection Hn as <-. by rewrite Hn.
Qed.
Lemma delete_child_spec d pre ns ts h y k dc o' (st : St) :
  is_nibbles pre → (length pre + S d = HexKeyLen)%nat → wf (S d) (Branch ts) →
  rep pre (full_node ns h) (Branch ts) → is_nibble y →
  orep (pre ++ [y]) dc o' → owf d o' → upd o' (pick ts y) k None →
  ∃ n' t', delete_child pre ns y dc st = (Ret (Deleted n'), st) ∧ rep pre n' t' ∧ wf (S d) t' ∧
    upd (Some t') (Some (Branch ts)) (y :: k) None ∧ fresh n' = true.
Proof.
  intros Hpre Hd Hwf Hrep Hy Hdc Ho' Hu. pose proof Hrep as Hrep2.
  inversion Hrep2 as [| |? ? ? ? Hns Hts _ _ _|]; subst.
  assert (∀ dc' : node V, set_index ns y dc' st = (Ret (<[Z.to_nat y := dc']> ns), st)) as Hset.
  { intros dc'. apply set_index_run. unfold is_nibble in Hy. lia. }
  destruct o' as [t'|]; simpl in Hdc, Ho'.
  - exists (full_node (<[Z.to_nat y := dc]> ns) None), (Branch (<[Z.to_nat y := Some t']> ts)).
    split_and!; [|by eapply (rep_update db_tx clean pre ns ts y dc (Some t'))|by apply wf_update
      |by apply upd_branch|done].
    unfold delete_child. destruct dc; try (by inversion Hdc);
      cbv zeta; change (-1 =? -1) with true; cbv iota; unfold mbind, M_bind; by rewrite Hset.
  - subst dc. destruct (only_child_spec d pre ns ts h y Hwf Hrep Hy)
      as [[Ej Hw]|(Hj & Hne & (t & Ht) & Hothers)].
    + exists (full_node (<[Z.to_nat y := nil_node]> ns) None), (Branch (<[Z.to_nat y := None]> ts)).
      split_and!; [|by eapply (rep_update db_tx clean pre ns ts y nil_node None)|done|by apply upd_branch|done].
      unfold delete_child. rewrite Ej. cbv zeta. change (-1 =? -1) with true. cbv iota. unfold mbind, M_bind. by rewrite Hset.
    + set (j := only_child ns y 0 (-1)) in *.
      destruct (orep_child db_tx clean pre ns ts j h Hrep Hj) as (only & Honly & Hor). rewrite Ht in Hor.
      destruct (pick_some d ts j t Hwf Ht) as (_ & _ & Hwt).
      assert (∃ m, (match only with node_hash h => resolve_node db_tx h (pre ++ [j])
                    | _ => mret only end) st = (Ret m, st) ∧ rep (pre ++ [j]) m t ∧
                   is_node_hash m = false) as (m & Em & Hrm & Hm).
      { simpl in Hor. inversion Hor; subst; try by eexists.
        destruct (resolve_in_memory d (pre ++ [j]) (trie_hash t) t st)
          as (m & b & Hres & Hrm & Hm); [done| | |done|].
        { apply is_nibbles_app. split; [done|by constructor]. }
        { rewrite length_app. simpl. lia. }
        exists m. split_and!; [|done..]. unfold resolve_node, mbind, M_bind. by rewrite Hres. }
      destruct (collapse_spec d pre j m t st) as (n' & En & Hrn & Hfn); [done..|].
      exists n', (join [j] t). split_and!; [|done| | |done].
      * by apply (delete_child_collapse pre ns y j only m n').
      * apply (wf_join d [j]); [by constructor|done].
      * by apply (upd_collapse d).
Qed.

Lemma mpt_del_full kbuf fuel children h keypos :
  mpt_del (St := St) db_tx kbuf (S fuel) (full_node children h) keypos =
    (y ← at_index kbuf (Z.of_nat keypos);
     child ← at_index children y;
     r ← mpt_del db_tx kbuf fuel child (keypos + 1);
     match r with
     | NotFound child =>
         children ← set_index children y child; mret (NotFound (full_node children h))
     | Deleted dc => delete_child (take keypos kbuf) children y dc
     end).
Proof. reflexivity. Qed.

(** The end of the deletion below a key part: [p] is joined with the key part below it. *)
Definition delete_below (p : bytes) (child : node V) : @deleted V :=
  match child with
  | short_node child_key child_val _ => Deleted (short_node (p ++ child_key) child_val None)
  | _ => Deleted (short_node p child None)
  end.
Lemma delete_below_spec pre p n t :
  p ≠ [] → rep (pre ++ p) n t → fresh n = true →
  ∃ n', delete_below p n = Deleted n' ∧ rep pre n' (join p t) ∧ fresh n' = true.
Proof.
  intros Hp Hrep Hf.
  inversion Hrep as [? kp v s h Hv _ Hh|? q m t' h Hr _ _|? ns ts h Hns Hts Hnil Hall Hh|]; subst;
    [| | |done].
  - eexists. split_and!; [done| |].
    + constructor; [by rewrite app_assoc|done|]. intros ->. done.
    + by destruct v.
  - eexists. split_and!; [done| |].
    + constructor; [by rewrite app_assoc|done|done].
    + cbn [fresh]. destruct m; try (done || inversion Hr).
  - eexists. split_and!; [done| |done]. destruct p as [|x p]; [done|]. by constructor.
Qed.

Lemma delete_spec fuel d pre k n o (st : St) :
  is_nibbles pre → (length pre + d = HexKeyLen)%nat → is_key d k → owf d o → orep pre n o →
  (enough d n <= fuel)%nat →
  deletes d pre k o (mpt_del db_tx (pre ++ k) fuel n (length pre) st) st.
Proof.
  revert d pre k n o. induction fuel as [|fuel IH]; intros d pre k n o Hpre Hd Hk Hwf Hrep Hf;
    [unfold enough in Hf; destruct (is_node_hash n); lia|].
  destruct o as [t|]; simpl in Hwf, Hrep.
  2:{ subst n. by exists nil_node. }
  pose proof Hrep as Hrep0. unfold deletes. cbn [olookup mbind option_bind].
  destruct Hrep as [pre kp v s h Hv Hh Hh'|pre p n t h Hr Hh Hh'|pre ns ts h Hns Hts Hnil Hall Hh
    |pre t Hst Hget Hroot].
  - inversion Hwf as [? ? ? Hkp| |]; subst. pose proof (is_key_length _ _ Hk) as Lk.
    pose proof (is_key_length _ _ Hkp) as Lkp. rewrite tlookup_leaf. cbn [mpt_del].
    rewrite drop_app_length. case_bool_decide as Ek.
    + subst kp. rewrite prefixLen_refl, Nat.eqb_refl. cbn [negb].
      rewrite length_app, Nat.eqb_refl. exists nil_node, None. split_and!; try done.
      intros k'. cbn [olookup mbind option_bind]. rewrite tlookup_leaf. by case_bool_decide.
    + destruct (Nat.eqb_spec (prefixLen k kp) (length kp)) as [Em|_]; [|by eexists].
      exfalso. destruct (prefixLen_cases k kp) as
        [(r & -> & _)|[(b & r & -> & _)|(c & a & b & ra & rb & -> & -> & _ & Hm)]].
      * rewrite length_app in Lk. destruct r; [by rewrite app_nil_r in Ek|simpl in Lk; lia].
      * rewrite length_app in Lkp. simpl in Lkp. lia.
      * rewrite Hm, length_app in Em. simpl in Em. lia.
  - inversion Hwf as [|d' ? ts Hp Hne Hb|]; subst. pose proof (is_key_length _ _ Hk) as Lk.
    rewrite tlookup_ext. cbn [mpt_del]. rewrite drop_app_length.
    destruct (Nat.eqb_spec (prefixLen k p) (length p)) as [Em|Em]; cbn [negb].
    + destruct (prefixLen_cases k p) as
        [(r & -> & _)|[(b & r & -> & _)|(c & a & b & ra & rb & -> & -> & _ & Hm)]];
        [|rewrite length_app in Lk; simpl in Lk; lia|rewrite Hm, length_app in Em; simpl in Em; lia].
      rewrite strip_app, Em. cbn [mbind option_bind].
      destruct (ext_key d' p ts r Hb Hk Hp) as [Hrne Hkr]. pose proof (is_key_length _ _ Hkr) as Lr.
      assert (0 < length p)%nat by (destruct p; simpl; [done|lia]).
      assert (0 < length r)%nat by (destruct r; simpl; [done|lia]).
      destruct (Nat.eqb_spec (length pre + length p) (length (pre ++ p ++ r))) as [Hbad|_];
        [rewrite !length_app in Hbad; lia|].
      assert (deletes d' (pre ++ p) r (Some (Branch ts))
        (mpt_del db_tx (pre ++ p ++ r) fuel n (length pre + length p) st) st) as Hdel.
      { rewrite <-length_app, app_assoc. apply IH; try done.
        - by apply is_nibbles_app.
        - rewrite length_app. lia.
        - pose proof (enough_any d' n). unfold enough in Hf. simpl in Hf. lia. }
      unfold deletes in Hdel. cbn [olookup mbind option_bind] in Hdel. unfold mbind, M_bind.
      destruct (tlookup (Branch ts) r) as [v|].
      * destruct Hdel as (n' & o' & -> & Hr' & Hwf' & Hu & Hfr & Hsome).
        destruct (Hsome ts eq_refl) as [t' ->]. simpl in Hr', Hwf'.
        destruct (delete_below_spec pre p n' t' Hne Hr' Hfr) as (m & Em' & Hrm & Hfm).
        exists m, (Some (join p t')). split_and!; [|done|by apply wf_join| |done|done].
        -- unfold delete_below in Em'. destruct n'; by rewrite <-Em'.
        -- apply (upd_join _ _ p) in Hu as Hu'. by destruct p.
      * destruct Hdel as (n' & -> & Hr'). exists (short_node p n' None). split; [done|].
        by constructor.
    + destruct (strip p k) as [r|] eqn:Es; [|by eexists].
      apply strip_Some in Es as ->. by rewrite prefixLen_app in Em.
  - inversion Hwf as [| |d' ? _ _ _]; subst.
    destruct (branch_key d' ts k Hwf Hk) as (y & r & -> & Hy & Hkr).
    destruct (orep_child db_tx clean pre ns ts y h Hrep0 Hy) as (c & Hc & Hoc).
    rewrite tlookup_branch, mpt_del_full. unfold is_nibble in Hy.
    rewrite take_app_length. unfold mbind, M_bind.
    rewrite (at_index_run _ _ y) by (rewrite ?Nat2Z.id; (apply lookup_nibble || lia)).
    rewrite (at_index_run _ _ c) by (done || lia).
    assert (deletes d' (pre ++ [y]) r (pick ts y)
      (mpt_del db_tx (pre ++ y :: r) fuel c (length pre + 1) st) st) as Hdel.
    { replace (length pre + 1)%nat with (length (pre ++ [y])) by (rewrite length_app; simpl; lia).
      replace (pre ++ y :: r) with ((pre ++ [y]) ++ r) by (by rewrite <-app_assoc).
      apply IH; try done.
      - apply is_nibbles_app. split; [done|by constructor].
      - rewrite length_app. simpl. lia.
      - rewrite pick_nibble by done. by apply child_wf.
      - pose proof (enough_any d' c). unfold enough in Hf. simpl in Hf. lia. }
    unfold deletes in Hdel. destruct (olookup (pick ts y) r) as [v|].
    + destruct Hdel as (dc & o' & -> & Hdc & Ho' & Hu & _).
      destruct (delete_child_spec d' pre ns ts h y r dc o' st)
        as (n' & t' & -> & Hrn & Hwt & Hut & Hfn); [done..|].
      by exists n', (Some t').
    + destruct Hdel as (n' & -> & Hn'). rewrite set_index_run by lia.
      eexists. split; [done|]. simpl.
      pose proof (rep_update db_tx clean pre ns ts y n' (pick ts y) h Hrep0 Hy Hn') as Hru.
      inversion Hru as [| |? ? ? ? Hl1 _ Hnil' Hall' _|]; subst.
      assert (<[Z.to_nat y := pick ts y]> ts = ts) as Ets.
      { rewrite pick_nibble by done. apply list_insert_id. unfold child.
        destruct (lookup_lt_is_Some_2 ts (Z.to_nat y)) as [o Ho]; [lia|]. by rewrite Ho. }
      rewrite Ets in *. by constructor.
  - destruct (resolve_in_memory d pre (trie_hash t) t st) as (n & b & Hres & Hr & Hnh); [done..|].
    cbn [mpt_del]. rewrite take_app_length. unfold resolve_node, mbind, M_bind. rewrite Hres.
    assert (deletes d pre k (Some t) (mpt_del db_tx (pre ++ k) fuel n (length pre) st) st) as Hdel.
    { apply IH; try done. unfold enough in *. rewrite Hnh. simpl in Hf. lia. }
    unfold deletes in Hdel. cbn [olookup mbind option_bind] in Hdel. unfold mret, M_ret.
    destruct (tlookup t k) as [v|].
    + destruct Hdel as (n' & o' & -> & Hdel). by exists n', o'.
    + destruct Hdel as (n' & -> & _). by exists (node_hash (trie_hash t)).
Qed.
End operations.
