(* ===== verification/TrieCommit.v ===== *)
(** The commit of the trie writer: what it hashes is the Merkle-Patricia encoding of the trie
    the nodes stand for, what it writes makes the whole trie readable from the root hash, and
    the nodes it leaves stand for the same trie in the new store. *)
From S2P Require Import Prelude Codec Rlp RlpEncoder Storage TrieEncoding Trie TrieMap TrieHash TrieRep.

Ltac ctx_simpl := cbn [enc_hash enc_storage writes encoder disabled negb andb when].

(** * The two encodings in progress *)
Section encoders.
Context `{Keccak}.
Context (Hhash : ∀ b, length (keccak b) = HashLength).

(** From [c], opened with [f], to [c1]: [bh] more is hashed unless hashing is off, [bs] more is
    stored, [ws] is written. *)
Definition adds (f : Encoder → Encoder) (c c1 : commit_context) (bh bs : bytes)
    (ws : list write) : Prop :=
  disabled (enc_hash c1) = disabled (enc_hash c) ∧
  (if disabled (enc_hash c) then encoder (enc_hash c1) = encoder (enc_hash c)
   else appended (f (encoder (enc_hash c))) (encoder (enc_hash c1)) bh) ∧
  appended (f (enc_storage c)) (enc_storage c1) bs ∧
  writes c1 = writes c ++ ws.
Abbreviation adds_more := (adds (λ e, e)).

(** Room for [n] more bytes. *)
Definition ready (n : Z) (c : commit_context) : Prop :=
  (valid (enc_storage c) ∧ n < room (enc_storage c)) ∧
  (disabled (enc_hash c) = false → valid (encoder (enc_hash c)) ∧ n < room (encoder (enc_hash c))).

Lemma adds_refl c : adds_more c c [] [] [].
Proof.
  split_and!; [done| |apply appended_nil|by rewrite app_nil_r].
  destruct (disabled _); [done|apply appended_nil].
Qed.
Lemma adds_trans f c c1 c2 b1 s1 w1 b2 s2 w2 :
  adds f c c1 b1 s1 w1 → adds_more c1 c2 b2 s2 w2 → adds f c c2 (b1 ++ b2) (s1 ++ s2) (w1 ++ w2).
Proof.
  intros (D1 & H1 & S1 & W1) (D2 & H2 & S2 & W2). rewrite D1 in *. split_and!.
  - done.
  - destruct (disabled (enc_hash c)); [congruence|]. by eapply appended_app.
  - by eapply appended_app.
  - by rewrite W2, W1, app_assoc.
Qed.
Lemma ready_adds f n m c c1 bh bs ws :
  (∀ e, room (f e) = room e ∧ (valid e → valid (f e))) →
  adds f c c1 bh bs ws → ready n c → 0 <= m → blen bh + m <= n → blen bs + m <= n → ready m c1.
Proof.
  intros Hf (D & Hh & Hs & _) [[Vs Rs] Rh] Hm Hbh Hbs. pose proof (blen_nonneg bh).
  pose proof (blen_nonneg bs). split.
  - destruct (Hf (enc_storage c)) as [Er Ev]. split.
    + apply (appended_valid _ _ _ Hs); [by apply Ev|lia].
    + rewrite (appended_room _ _ _ Hs). lia.
  - rewrite D. intros Hd. destruct (Rh Hd) as [Vh Rh']. rewrite Hd in Hh.
    destruct (Hf (encoder (enc_hash c))) as [Er Ev]. split.
    + apply (appended_valid _ _ _ Hh); [by apply Ev|lia].
    + rewrite (appended_room _ _ _ Hh). lia.
Qed.
Lemma ready_more n m c c1 bh bs ws :
  adds_more c c1 bh bs ws → ready n c → 0 <= m → blen bh + m <= n → blen bs + m <= n → ready m c1.
Proof. by apply ready_adds. Qed.
Lemma ready_opened n m c c1 bh bs ws :
  adds started c c1 bh bs ws → ready n c → 0 <= m → blen bh + m <= n → blen bs + m <= n → ready m c1.
Proof. by apply ready_adds. Qed.
Lemma ready_le n m c : ready n c → m <= n → ready m c.
Proof.
  intros [[Vs Rs] Rh] Hle. split; [split; [done|lia]|]. intros Hd. destruct (Rh Hd). split; [done|lia].
Qed.

(** * The operations *)
Lemma hash_append_run n c s :
  ready n c → blen (AppendString s) <= n →
  ∃ c', hash_AppendString s c = (Ret tt, c') ∧ adds_more c c' (AppendString s) [] [].
Proof.
  intros [_ Rh] Hb. unfold hash_AppendString, is_disabled, mbind, M_bind.
  destruct (disabled (enc_hash c)) eqn:D.
  - exists c. split; [done|]. split_and!; [done|by rewrite D|apply appended_nil|by rewrite app_nil_r].
  - destruct (Rh eq_refl) as [V R]. unfold hash_enc.
    destruct (Append_spec (encoder (enc_hash c)) s V ltac:(lia)) as (e & E & A). rewrite E.
    eexists. split; [done|]. split_and!; simpl; [done|by rewrite D|apply appended_nil|by rewrite app_nil_r].
Qed.
Lemma storage_append_run n c s :
  ready n c → blen (AppendString s) <= n →
  ∃ c', storage_enc (Append s) c = (Ret tt, c') ∧ adds_more c c' [] (AppendString s) [].
Proof.
  intros [[V R] _] Hb. unfold storage_enc.
  destruct (Append_spec (enc_storage c) s V ltac:(lia)) as (e & E & A). rewrite E.
  eexists. split; [done|]. split_and!; simpl; [done| |done|by rewrite app_nil_r].
  destruct (disabled _); [done|apply appended_nil].
Qed.
Lemma put_run c w :
  ∃ c', put w c = (Ret tt, c') ∧ adds_more c c' [] [] [w].
Proof.
  eexists. split; [done|]. split_and!; simpl; [done| |apply appended_nil|done].
  destruct (disabled _); [done|apply appended_nil].
Qed.

(** Both lists opened, in either order. *)
Definition hash_pos (c : commit_context) : option nat :=
  if disabled (enc_hash c) then None else Some (length (lheads (encoder (enc_hash c)))).
Definition storage_pos (c : commit_context) : nat := length (lheads (enc_storage c)).
Definition opened (c : commit_context) : commit_context :=
  {| enc_hash := {| encoder := if disabled (enc_hash c) then encoder (enc_hash c)
                               else started (encoder (enc_hash c));
                    disabled := disabled (enc_hash c) |};
     enc_storage := started (enc_storage c); writes := writes c |}.
Lemma open_storage_first {A} (k : nat → option nat → CM A) c :
  (s ← storage_enc ListStart; h ← hash_ListStart; k s h) c = k (storage_pos c) (hash_pos c) (opened c).
Proof.
  unfold hash_pos, storage_pos, opened, mbind, M_bind, storage_enc, hash_ListStart, is_disabled.
  rewrite ListStart_run. cbn. destruct c as [[e d] es w]. cbn. by destruct d.
Qed.
Lemma open_hash_first {A} (k : nat → option nat → CM A) c :
  (h ← hash_ListStart; s ← storage_enc ListStart; k s h) c = k (storage_pos c) (hash_pos c) (opened c).
Proof.
  unfold hash_pos, storage_pos, opened, mbind, M_bind, storage_enc, hash_ListStart, is_disabled.
  destruct c as [[e d] es w]. cbn. by destruct d.
Qed.
Lemma opened_adds c : adds started c (opened c) [] [] [].
Proof.
  split_and!; simpl; [done| |apply appended_nil|by rewrite app_nil_r].
  destruct (disabled (enc_hash c)); [done|apply appended_nil].
Qed.

(** The storage list closed, [c2] otherwise like [c1]. *)
Lemma storage_close n c c1 bh bs ws :
  adds started c c1 bh bs ws → ready n c → blen (enc_list bs) <= n →
  ∃ e, storage_enc (ListEnd (storage_pos c)) c1 =
      (Ret tt, {| enc_hash := enc_hash c1; enc_storage := e; writes := writes c1 |}) ∧
    list_closed (enc_storage c) e (storage_pos c) bs.
Proof.
  intros (_ & _ & A & _) [[V R] _] Hb.
  destruct (ListEnd_spec (enc_storage c) (enc_storage c1) bs V A ltac:(lia)) as (e & E & Hc).
  exists e. split; [|done]. unfold storage_enc, storage_pos. by rewrite E.
Qed.
(** The hash list closed: hashed when it is long enough or the root; unless it is the root, the
    parent's encoding goes on behind the reference. *)
Definition hash_adds (f : Encoder → Encoder) (c c1 : commit_context) (bh : bytes) : Prop :=
  disabled (enc_hash c1) = disabled (enc_hash c) ∧
  (if disabled (enc_hash c) then encoder (enc_hash c1) = encoder (enc_hash c)
   else appended (f (encoder (enc_hash c))) (encoder (enc_hash c1)) bh).
Lemma adds_hash f c c1 bh bs ws : adds f c c1 bh bs ws → hash_adds f c c1 bh.
Proof. by intros (D & A & _). Qed.
(** One more string for the hash; nothing else changes. *)
Lemma hash_append_last n c c1 bh s :
  hash_adds started c c1 bh → ready n c → blen bh + blen (AppendString s) <= n →
  ∃ c2, hash_AppendString s c1 = (Ret tt, c2) ∧ hash_adds started c c2 (bh ++ AppendString s) ∧
    enc_storage c2 = enc_storage c1 ∧ writes c2 = writes c1.
Proof.
  intros (D & A) [_ Rh] Hb. pose proof (blen_nonneg bh). pose proof (AppendString_pos s).
  unfold hash_AppendString, is_disabled, mbind, M_bind.
  rewrite D. destruct (disabled (enc_hash c)) eqn:Hd.
  { exists c1. split_and!; [done| |done|done]. split; rewrite Hd; done. }
  destruct (Rh eq_refl) as [Vh R]. unfold hash_enc.
  destruct (Append_spec (encoder (enc_hash c1)) s) as (e & E & Ae).
  { apply (appended_valid _ _ _ A); [done|]. rewrite started_room. lia. }
  { rewrite (appended_room _ _ _ A), started_room. lia. }
  rewrite E. eexists. split_and!; [done| |done|done]. split; simpl; [by rewrite D|].
  rewrite Hd. by eapply appended_app.
Qed.
Lemma hash_close n c c1 bh is_root out :
  hash_adds started c c1 bh → ready n c → blen (enc_list bh) <= n → 33 <= n →
  ∃ eh, hash_ListEnd (hash_pos c) is_root out c1 =
      (Ret (if disabled (enc_hash c) then out
            else if (blen (enc_list bh) <? Z.of_nat HashLength) && negb is_root then out
            else Some (keccak (enc_list bh))),
       {| enc_hash := {| encoder := eh; disabled := disabled (enc_hash c) |};
          enc_storage := enc_storage c1; writes := writes c1 |}) ∧
    (if disabled (enc_hash c) then eh = encoder (enc_hash c)
     else is_root = false → appended (encoder (enc_hash c)) eh (child_ref (enc_list bh))).
Proof.
  intros (D & A) [_ Rh] Hb H33. unfold hash_ListEnd, is_disabled, mbind, M_bind, hash_pos.
  rewrite D. destruct (disabled (enc_hash c)) eqn:Hd.
  { exists (encoder (enc_hash c1)). split; [|done]. destruct c1 as [[e d] es w]. simpl in *. by subst d. }
  destruct (Rh eq_refl) as [V R].
  destruct (ListEnd_spec _ _ bh V A ltac:(lia)) as (e2 & E & [Ha Hs Hf Hr]).
  unfold hash_enc. rewrite E. ctx_simpl. rewrite Hs. ctx_simpl. unfold child_ref.
  destruct (Z.ltb_spec (blen (enc_list bh)) (Z.of_nat HashLength)) as [Hlt|Hge].
  - destruct is_root; ctx_simpl.
    + rewrite Hf. ctx_simpl. unfold mret, M_ret. rewrite D. eexists. split; [done|done].
    + rewrite D. eexists. split; [done|]. done.
  - ctx_simpl. rewrite Hf. destruct is_root; ctx_simpl.
    + unfold mret, M_ret. rewrite D. eexists. split; [done|done].
    + unfold mbind, M_bind. ctx_simpl. rewrite Hr. ctx_simpl.
      destruct (Append_spec (encoder (enc_hash c)) (keccak (enc_list bh)) V) as (e3 & E3 & A3).
      { rewrite AppendString_hash_blen by apply Hhash. lia. }
      rewrite E3. ctx_simpl. rewrite D. eexists. split; [done|done].
Qed.
End encoders.

(** * Short nodes: the frame around the value or the child *)
Section short.
Context `{Keccak} `{Schema} {V : Type}.
Context (Hhash : ∀ b, length (keccak b) = HashLength).
Context (Hmax : MaxValueSizeToStoreInTrie < Z.of_nat HashLength).
Abbreviation adds_more := (adds (λ e, e)).

(** The hash a node gets when its list [bh] closes. *)
Definition closed_hash (is_root off : bool) (h : option hash) (bh : bytes) : option hash :=
  if off then h
  else if (blen (enc_list bh) <? Z.of_nat HashLength) && negb is_root then h
  else Some (keccak (enc_list bh)).
(** What follows the key in the stored list of a leaf with the value [s]. *)
Definition leaf_tail (s : option bytes) (h : option hash) : bytes :=
  match s with
  | None => []
  | Some s =>
      match h with
      | Some h => AppendString h
      | None => if blen s <=? MaxValueSizeToStoreInTrie then AppendString s else []
      end
  end.
Definition hash_len_ok (h : option hash) : Prop :=
  match h with Some h => length h = HashLength | None => True end.
Lemma closed_hash_len is_root off h bh : hash_len_ok h → hash_len_ok (closed_hash is_root off h bh).
Proof.
  unfold closed_hash. destruct off; [done|].
  destruct ((blen (enc_list bh) <? Z.of_nat HashLength) && negb is_root); simpl; auto.
Qed.
Lemma leaf_tail_bound s h : hash_len_ok h → blen (leaf_tail s h) <= 41.
Proof.
  intros Hh. destruct s as [s|]; [|by vm_compute]. cbn [leaf_tail]. destruct h as [h|].
  - rewrite AppendString_hash_blen by done. lia.
  - destruct (Z.leb_spec (blen s) MaxValueSizeToStoreInTrie); [|by vm_compute].
    pose proof (AppendString_bounds s). unfold HashLength in Hmax. lia.
Qed.

Lemma end_short_spec n is_root s h c c1 bh bs ws :
  adds started c c1 bh bs ws → ready n c → hash_len_ok h →
  blen bh + 9 <= n → blen bs + 60 <= n → 33 <= n →
  (is_root = true → disabled (enc_hash c) = false) →
  let h' := closed_hash is_root (disabled (enc_hash c)) h bh in
  let b := enc_list (bs ++ leaf_tail s h') in
  ∃ c2, end_short is_root s h (storage_pos c) (hash_pos c) c1 = (Ret h', c2) ∧
    (if is_root then writes c2 = writes c ++ ws ++ [PutNode (keccak (enc_list bh)) b]
     else adds_more c c2 (child_ref (enc_list bh)) b ws).
Proof.
  intros A Hr Hh Hbh Hbs H33 Hroot h' b. pose proof (enc_list_bounds bh).
  destruct (hash_close Hhash n c c1 bh is_root h (adds_hash _ _ _ _ _ _ A) Hr) as (eh & Eh & Heh); [lia|lia|].
  unfold end_short, mbind, M_bind. rewrite Eh. clear Eh. fold (closed_hash is_root (disabled (enc_hash c)) h bh).
  fold h'. cbv beta iota.
  set (c1' := {| enc_hash := _; enc_storage := _; writes := _ |}).
  assert (∃ c3, (match s with
    | None => mret tt
    | Some s => match h' with
                | Some h => storage_enc (Append h)
                | None => if blen s <=? MaxValueSizeToStoreInTrie then storage_enc (Append s) else mret tt
                end
    end : CM unit) c1' = (Ret tt, c3) ∧ enc_hash c3 = enc_hash c1' ∧ writes c3 = writes c1' ∧
    appended (enc_storage c1') (enc_storage c3) (leaf_tail s h')) as (c3 & E3 & Hh3 & Hw3 & A3).
  { destruct A as (_ & _ & As & _). destruct Hr as [[V0 R0] _].
    assert (∀ x, blen (AppendString x) <= 41 → ∃ c3, storage_enc (Append x) c1' = (Ret tt, c3) ∧
      enc_hash c3 = enc_hash c1' ∧ writes c3 = writes c1' ∧
      appended (enc_storage c1') (enc_storage c3) (AppendString x)) as Happ.
    { intros x Hx. destruct (Append_spec (enc_storage c1) x) as (e & E & Ae).
      - apply (appended_valid _ _ _ As); [done|]. rewrite started_room. lia.
      - rewrite (appended_room _ _ _ As), started_room. lia.
      - unfold storage_enc. cbn [c1' enc_storage]. rewrite E. by eexists. }
    pose proof (leaf_tail_bound s h' (closed_hash_len _ _ _ _ Hh)) as Hb.
    destruct s as [s|]; [|exists c1'; split_and!; [done..|apply appended_nil]].
    cbn [leaf_tail] in *. destruct h' as [x|]; [by apply Happ|].
    destruct (blen s <=? MaxValueSizeToStoreInTrie); [by apply Happ|].
    exists c1'; split_and!; [done..|apply appended_nil]. }
  rewrite E3. cbv beta iota.
  pose proof (leaf_tail_bound s h' (closed_hash_len _ _ _ _ Hh)) as Htb.
  assert (adds started c {| enc_hash := enc_hash c1; enc_storage := enc_storage c3; writes := writes c3 |}
    bh (bs ++ leaf_tail s h') ws) as A4.
  { destruct A as (D & Hhc & As & W). split_and!; simpl; [done|done| |by rewrite Hw3].
    by eapply appended_app. }
  pose proof (enc_list_bounds (bs ++ leaf_tail s h')) as Hbb. rewrite blen_app in Hbb.
  destruct (storage_close n c _ _ _ _ A4 Hr ltac:(lia)) as (e & Ee & [La _ Lf _]).
  unfold storage_enc in Ee |- *. cbn [enc_storage enc_hash writes] in Ee.
  destruct (ListEnd (storage_pos c) (enc_storage c3)) as [o e']. injection Ee as -> <-.
  cbv beta iota. destruct is_root; cbn [when].
  - assert (h' = Some (keccak (enc_list bh))) as Eh'.
    { unfold h', closed_hash. by rewrite (Hroot eq_refl), andb_false_r. }
    unfold b in *. clearbody h'. subst h'. unfold mbind, M_bind. ctx_simpl. unfold ToBytes. rewrite Lf. cbv beta iota. unfold put, mret, M_ret.
    eexists. split; [done|]. ctx_simpl. destruct A as (_ & _ & _ & W). rewrite Hw3. cbn [c1' writes].
    by rewrite W, <-app_assoc.
  - eexists. split; [done|]. destruct A as (D & _ & _ & W). split_and!; ctx_simpl.
    + by rewrite Hh3.
    + rewrite Hh3. cbn [c1' enc_hash encoder]. destruct (disabled (enc_hash c)); auto.
    + done.
    + by rewrite Hw3.
Qed.

(** [commit] of a short node, with [m] for its value or child. *)
Definition short_commit (is_root : bool) (k : bytes) (h : option hash)
    (m : CM (option bytes * node V)) : CM (node V) :=
  match h with Some h => hash_AppendString h ;; Toggle | None => mret tt end ;;
  storage_list_start ← storage_enc ListStart;
  hash_list_start ← hash_ListStart;
  hashed_key_ext ← of_outcome (hex_to_compact k);
  storage_enc (Append hashed_key_ext) ;;
  hash_AppendString hashed_key_ext ;;
  r ← m;
  h' ← end_short is_root r.1 h storage_list_start hash_list_start;
  match h with Some _ => Toggle | None => mret tt end ;;
  mret (short_node k r.2 h').

Definition toggled (c : commit_context) : commit_context :=
  {| enc_hash := {| encoder := encoder (enc_hash c); disabled := negb (disabled (enc_hash c)) |};
     enc_storage := enc_storage c; writes := writes c |}.
(** The part from the opening of the lists to their end. *)
Lemma short_body n is_root k kc h c (m : CM (option bytes * node V)) bv sv
    (P : option bytes * node V → list write → Prop) :
  hex_to_compact k = Ret kc → blen kc <= 33 → ready n c → hash_len_ok h →
  blen bv + 100 <= n → blen sv + 200 <= n → 0 <= n →
  (is_root = true → disabled (enc_hash c) = false) →
  (∀ c1, ready (n - 100) c1 → disabled (enc_hash c1) = disabled (enc_hash c) →
    ∃ r c2 ws, m c1 = (Ret r, c2) ∧ adds_more c1 c2 bv sv ws ∧ P r ws) →
  let bh := AppendString kc ++ bv in
  let h' := closed_hash is_root (disabled (enc_hash c)) h bh in
  ∃ r c' ws, P r ws ∧
    (storage_list_start ← storage_enc ListStart;
     hash_list_start ← hash_ListStart;
     hashed_key_ext ← of_outcome (hex_to_compact k);
     storage_enc (Append hashed_key_ext) ;;
     hash_AppendString hashed_key_ext ;;
     r ← m;
     h' ← end_short is_root r.1 h storage_list_start hash_list_start;
     match h with Some _ => Toggle | None => mret tt end ;;
     mret (short_node k r.2 h')) c =
    (match h with Some _ => Toggle | None => mret tt end ;; mret (short_node k r.2 h')) c' ∧
    let b := enc_list (AppendString kc ++ sv ++ leaf_tail r.1 h') in
    (if is_root then writes c' = writes c ++ ws ++ [PutNode (keccak (enc_list bh)) b]
     else adds_more c c' (child_ref (enc_list bh)) b ws).
Proof.
  intros Hkc Hlen Hr Hh Hbv Hsv Hn Hroot Hm bh h'. pose proof (AppendString_bounds kc) as Hkb.
  pose proof (blen_nonneg bv). pose proof (blen_nonneg sv). pose proof (blen_nonneg kc).
  rewrite open_storage_first. pose proof (opened_adds c) as A0.
  assert (ready (n - 0) (opened c)) as R0 by (apply (ready_opened n _ _ _ _ _ _ A0 Hr); unfold blen; simpl; lia).
  destruct (storage_append_run (n - 0) (opened c) kc R0 ltac:(lia)) as (c1 & E1 & A1).
  assert (ready (n - 45) c1) as R1 by (apply (ready_more _ _ _ _ _ _ _ A1 R0); change (blen []) with 0; lia).
  destruct (hash_append_run (n - 45) c1 kc R1 ltac:(lia)) as (c2 & E2 & A2).
  assert (ready (n - 100) c2) as R2 by (apply (ready_more _ _ _ _ _ _ _ A2 R1); change (blen []) with 0; lia).
  pose proof (adds_trans _ _ _ _ _ _ _ _ _ _ (adds_trans _ _ _ _ _ _ _ _ _ _ A0 A1) A2) as A02.
  cbn [app] in A02. rewrite app_nil_r in A02.
  destruct (Hm c2 R2) as (r & c3 & ws & E3 & A3 & HP); [by destruct A02|].
  pose proof (adds_trans _ _ _ _ _ _ _ _ _ _ A02 A3) as A03. cbn [app] in A03.
  destruct (end_short_spec n is_root r.1 h c c3 _ _ _ A03 Hr Hh) as (c4 & E4 & A4).
  { rewrite blen_app. lia. }
  { rewrite blen_app. lia. }
  { lia. }
  { done. }
  rewrite <-app_assoc in A4. exists r, c4, ws. split_and!; [done| |done].
  unfold mbind, M_bind, of_outcome. rewrite Hkc. cbv beta iota. rewrite E1, E2, E3, E4. done.
Qed.
Lemma short_frame n is_root k kc h c (m : CM (option bytes * node V)) bv sv
    (P : option bytes * node V → list write → Prop) :
  hex_to_compact k = Ret kc → blen kc <= 33 → ready n c → hash_len_ok h →
  blen bv + 150 <= n → blen sv + 250 <= n → 0 <= n →
  (is_root = true → disabled (enc_hash c) = false ∧ h = None) →
  (h ≠ None → disabled (enc_hash c) = false) →
  let off := match h with Some _ => true | None => disabled (enc_hash c) end in
  (∀ c1, ready (n - 150) c1 → disabled (enc_hash c1) = off →
    ∃ r c2 ws, m c1 = (Ret r, c2) ∧ adds_more c1 c2 bv sv ws ∧ P r ws) →
  let bh := AppendString kc ++ bv in
  let h' := closed_hash is_root off h bh in
  ∃ r c' ws, P r ws ∧ short_commit is_root k h m c = (Ret (short_node k r.2 h'), c') ∧
    let b := enc_list (AppendString kc ++ sv ++ leaf_tail r.1 h') in
    (if is_root then writes c' = writes c ++ ws ++ [PutNode (keccak (enc_list bh)) b]
     else adds_more c c' (match h with Some h => AppendString h | None => child_ref (enc_list bh) end)
            b ws).
Proof.
  intros Hkc Hlen Hr Hh Hbv Hsv Hn Hroot Hen off Hm bh h'. pose proof (blen_nonneg bv).
  destruct h as [h|].
  - destruct is_root; [by destruct (Hroot eq_refl)|]. specialize (Hen ltac:(done)).
    destruct (hash_append_run n c h Hr) as (c1 & E1 & A1).
    { rewrite AppendString_hash_blen by done. lia. }
    assert (ready (n - 33) c1) as R1.
    { apply (ready_more _ _ _ _ _ _ _ A1 Hr); rewrite ?AppendString_hash_blen by done;
        change (blen []) with 0; lia. }
    assert (disabled (enc_hash c1) = false) as D1 by (destruct A1 as [-> _]; done).
    assert (ready (n - 33) (toggled c1)) as R1'.
    { split; [apply R1|]. simpl. by rewrite D1. }
    destruct (short_body (n - 33) false k kc (Some h) (toggled c1) m bv sv P Hkc Hlen R1' Hh)
      as (r & c2 & ws & HP & E2 & A2); [lia..|done| |].
    { intros c3 R3 D3. apply Hm; [by apply (ready_le _ _ _ R3); lia|]. rewrite D3. simpl. by rewrite D1. }
    exists r, (toggled c2), ws. split; [done|].
    simpl disabled in E2, A2. rewrite D1 in E2, A2. simpl negb in E2, A2. split.
    + unfold short_commit. unfold mbind at 1, M_bind at 1. unfold mbind at 1, M_bind at 1. rewrite E1.
      cbv beta iota. change (Toggle c1) with (Ret tt, toggled c1). cbv beta iota. rewrite E2.
      unfold mbind, M_bind. reflexivity.
    + destruct A1 as (_ & Ha1 & S1 & W1), A2 as (D2 & Ha2 & S2 & W2).
      simpl in D2, Ha2, S2, W2. rewrite D1 in D2, Ha2. simpl in D2, Ha2. rewrite Hen in Ha1.
      split_and!; simpl.
      * by rewrite D2, Hen.
      * rewrite Hen, Ha2. done.
      * apply (appended_app _ _ _ [] _ S1 S2).
      * rewrite app_nil_r in W1. by rewrite W2, W1.
  - destruct (short_body n is_root k kc None c m bv sv P Hkc Hlen Hr Hh)
      as (r & c2 & ws & HP & E2 & A2); [lia..| | |].
    { intros Hr'. by destruct (Hroot Hr'). }
    { intros c3 R3 D3. apply Hm; [by apply (ready_le _ _ _ R3); lia|done]. }
    exists r, c2, ws. split_and!; [done| |done]. unfold short_commit. unfold mbind at 1, M_bind at 1.
    cbv beta iota. unfold mret at 1, M_ret at 1. cbv beta iota. rewrite E2. done.
Qed.
End short.

(** * The nodes *)
Section nodes.
Context `{Keccak} `{Schema} {V : Type} `{!TrieValue V}.
Context (Hhash : ∀ b, length (keccak b) = HashLength).
Context (Hmax : MaxValueSizeToStoreInTrie < Z.of_nat HashLength).
Context (db_tx : Input) (clean : bytes → bytes → Prop).
Context (levels : Z).
(** A bound on the hashed encodings of the values: with it no buffer reaches 2^32 bytes. *)
Context (L : Z) (HL : 0 <= L).
Abbreviation adds_more := (adds (λ e, e)).

Definition small_values (t : trie) : Prop := ∀ k s, tlookup t k = Some s → blen (hash_value s) <= L.
Definition need (d : nat) : Z := 60000 * (Z.of_nat d + 1) + L.

(** The store after the block: what it had, and the writes of the commit. *)
Definition keeps (db' : Input) (clean' : bytes → bytes → Prop) : Prop :=
  (∀ h b, GetNode db_tx h = Some b → GetNode db' h = Some b) ∧
  (∀ k s, clean k s → clean' k s).
Definition sees (db' : Input) (clean' : bytes → bytes → Prop) (ws : list write) : Prop :=
  (∀ h b, PutNode h b ∈ ws → GetNode db' h = Some b) ∧
  (∀ l s, is_nibbles l → length l = MaxDepth → PutValue (pack l) s ∈ ws → clean' (l ++ [16]) s).

Lemma stored_mono db' clean' pre t :
  keeps db' clean' → stored db_tx clean pre t → stored db' clean' pre t.
Proof.
  intros [Hn Hv]. induction 1 as [pre k s Hc Hs|pre p t _ IH|pre ts _ IH Hget].
  - constructor; auto.
  - by constructor.
  - constructor; auto.
Qed.
Lemma vrep_mono db' clean' key (v : option (Value V)) s :
  keeps db' clean' → vrep clean key v s → vrep clean' key v s.
Proof.
  intros [_ Hv] [Hs Hr]. split; [done|]. destruct v as [[|]|]; [|done|auto].
  destruct Hr as (? & ? & ?). auto.
Qed.
Lemma hash_ok_mono db' clean' pre h t :
  keeps db' clean' → hash_ok db_tx clean pre h t → hash_ok db' clean' pre h t.
Proof.
  intros Hk. destruct h; [|done]. intros (? & ? & ?). split_and!; [done..|]. by apply stored_mono.
Qed.
Lemma rep_mono db' clean' pre (n : node V) t :
  keeps db' clean' → rep db_tx clean pre n t → rep db' clean' pre n t.
Proof.
  intros Hk. induction 1 as [pre k v s h Hv Hh Hh'|pre k n t h _ IH Hh Hh'|pre ns ts h Hns Hts Hnil _ IH Hh
    |pre t Hst Hget Hroot].
  - constructor; [by eapply vrep_mono|by apply hash_ok_mono|done].
  - constructor; [done|by apply hash_ok_mono|done].
  - constructor; try done. by apply hash_ok_mono.
  - constructor; [by apply stored_mono|by apply Hk|done].
Qed.
Lemma sees_app db' clean' w1 w2 :
  sees db' clean' (w1 ++ w2) ↔ sees db' clean' w1 ∧ sees db' clean' w2.
Proof.
  unfold sees. setoid_rewrite elem_of_app. split.
  - intros [Hn Hv]. split; split; eauto.
  - intros [[Hn1 Hv1] [Hn2 Hv2]]. split.
    + intros h b [?|?]; eauto.
    + intros l s ? ? [?|?]; eauto.
Qed.
(** What is put of the values is what the trie holds. *)
Definition puts (pre : bytes) (t : trie) (ws : list write) : Prop :=
  ∀ x s, PutValue x s ∈ ws → ∃ l k,
    x = pack l ∧ is_nibbles l ∧ length l = MaxDepth ∧ l ++ [16] = pre ++ k ∧ tlookup t k = Some s.
Lemma puts_nil pre t : puts pre t [].
Proof. by intros x s ?%not_elem_of_nil. Qed.
Lemma puts_app pre t w1 w2 : puts pre t w1 → puts pre t w2 → puts pre t (w1 ++ w2).
Proof. intros H1' H2' x s [?|?]%elem_of_app; eauto. Qed.
Lemma puts_node pre t h b : puts pre t [PutNode h b].
Proof. by intros x s ?%list_elem_of_singleton. Qed.
Lemma puts_ext pre p t ws : puts (pre ++ p) t ws → puts pre (Ext p t) ws.
Proof.
  intros Hp x s (l & k & -> & Hl & Hlen & E & Ek)%Hp. exists l, (p ++ k).
  rewrite tlookup_ext, strip_app, app_assoc. by split_and!.
Qed.
Lemma puts_child pre ts i t ws :
  ts !! i = Some (Some t) → puts (pre ++ [Z.of_nat i]) t ws → puts pre (Branch ts) ws.
Proof.
  intros Hi Hp x s (l & k & -> & Hl & Hlen & E & Ek)%Hp. exists l, (Z.of_nat i :: k).
  rewrite <-app_assoc in E. rewrite tlookup_branch, pick_index. apply child_some in Hi.
  rewrite Hi. by split_and!.
Qed.
Lemma puts_leaf pre k s ws : puts [] (Leaf (pre ++ k) s) ws → puts pre (Leaf k s) ws.
Proof.
  intros Hp x s' (l & k' & -> & Hl & Hlen & E & Ek)%Hp. rewrite tlookup_leaf in Ek.
  case_bool_decide as Hk; [|done]. injection Ek as <-. subst k'. exists l, k.
  rewrite tlookup_leaf, bool_decide_true by done. by split_and!.
Qed.
Lemma small_values_ext p t : small_values (Ext p t) → small_values t.
Proof. intros Hs k s Ek. apply (Hs (p ++ k) s). by rewrite tlookup_ext, strip_app. Qed.
Lemma small_values_child ts i t :
  ts !! i = Some (Some t) → small_values (Branch ts) → small_values t.
Proof.
  intros Hi Hs k s Ek. apply (Hs (Z.of_nat i :: k) s). rewrite tlookup_branch, pick_index.
  apply child_some in Hi. by rewrite Hi.
Qed.
Lemma small_values_leaf k s : small_values (Leaf k s) → blen (hash_value s) <= L.
Proof. intros Hs. apply (Hs k). rewrite tlookup_leaf. by rewrite bool_decide_true. Qed.
Lemma need_pos d : 60000 <= need d.
Proof. unfold need. lia. Qed.

(** A leaf's value: a client's value is put under the key of the leaf. *)
Lemma commit_leaf_spec n key v s h c :
  is_key HexKeyLen key → vrep clean key v s → (v = None → h ≠ None) →
  blen (hash_value s) + 9 <= n → ready n c →
  (v = None → disabled (enc_hash c) = true) →
  ∃ s' c' ws, commit_leaf key h v c = (Ret s', c') ∧
    adds_more c c' (AppendString (hash_value s)) [] ws ∧ (h = None → s' = s) ∧
    puts [] (Leaf key s) ws ∧
    ∀ db' clean', keeps db' clean' → sees db' clean' ws → clean' key s ∧ vrep clean' key v s.
Proof.
  intros Hk [Hs Hv] Hh Hn Hr Hoff. pose proof (AppendString_bounds (hash_value s)).
  pose proof (blen_nonneg (hash_value s)).
  destruct v as [v|].
  2:{ exists [], c, []. split_and!; [|..].
      - unfold commit_leaf. destruct h; [done|by destruct (Hh eq_refl)].
      - split_and!; [done|by rewrite (Hoff eq_refl)|apply appended_nil
          |by rewrite app_nil_r].
      - intros ->. by destruct (Hh eq_refl).
      - apply puts_nil.
      - intros db' clean' Hkp _. split; [by apply Hkp|]. by apply (vrep_mono _ _ _ _ _ Hkp). }
  assert (∃ c1 ws, commit_value key v c = (Ret (s, hash_value s), c1) ∧ adds_more c c1 [] [] ws ∧
    puts [] (Leaf key s) ws ∧
    ∀ db' clean', keeps db' clean' → sees db' clean' ws → clean' key s) as (c1 & ws & E1 & A1 & Hputs & Hc1).
  { destruct v as [s' h'|x]; simpl in Hv.
    - destruct Hv as (-> & -> & Hc). exists c, []. split_and!; [done|apply adds_refl|apply puts_nil|].
      intros db' clean' Hkp _. by apply Hkp.
    - destruct Hk as (l & -> & Hl & Hlen). unfold HexKeyLen in Hlen.
      destruct (put_run c (PutValue (pack l) s)) as (c1 & E1 & A1).
      exists c1, [PutValue (pack l) s]. split_and!; [|done| |].
      + unfold commit_value. rewrite Hv. unfold mbind, M_bind, of_outcome.
        rewrite (hex_to_keybytes_spec 32 l true) by (done || lia). by rewrite E1.
      + intros x' s' [= -> ->]%list_elem_of_singleton. exists l, (l ++ [16]).
        rewrite tlookup_leaf, bool_decide_true by done. unfold MaxDepth. by split_and!; [..|lia| |].
      + intros db' clean' _ [_ Hv']. apply Hv'; [done|unfold MaxDepth; lia|by left]. }
  destruct (hash_append_run n c1 (hash_value s)) as (c2 & E2 & A2).
  { apply (ready_more _ _ _ _ _ _ _ A1 Hr); change (blen []) with 0; lia. }
  { lia. }
  exists s, c2, ws. split_and!; [| |done|done|].
  - unfold commit_leaf, mbind, M_bind. rewrite E1. by rewrite E2.
  - pose proof (adds_trans _ _ _ _ _ _ _ _ _ _ A1 A2) as A.
    cbn [app] in A. by rewrite app_nil_r in A.
  - intros db' clean' Hkp Hse. specialize (Hc1 db' clean' Hkp Hse). split; [done|]. split; [done|].
    destruct v as [s' h'|x]; [|exact Hv]. destruct Hv as (-> & -> & _). by split_and!.
Qed.

(** * Nodes below the root *)
Definition committed (c : commit_context) (pre : bytes) (t : trie)
    (r : outcome (node V) * commit_context) : Prop :=
  ∃ n' c' ws, r = (Ret n', c') ∧
    adds_more c c' (child_ref (encode_trie t)) (enc_item (store_item t)) ws ∧
    (has_hash n' = true ∨ big t = false) ∧ puts pre t ws ∧
    ∀ db' clean', keeps db' clean' → sees db' clean' ws →
      rep db' clean' pre n' t ∧ stored db' clean' pre t.
(** Hashing is off only below a node whose hash is known: what is met is hashed or small. *)
Definition settled (c : commit_context) (n : node V) (t : trie) : Prop :=
  disabled (enc_hash c) = true → is_branch t && has_hash n = true ∨ big t = false.
Definition commits (d : nat) (t : trie) : Prop :=
  ∀ pre n c lvl, pre ≠ [] → is_nibbles pre → (length pre + d = HexKeyLen)%nat →
    rep db_tx clean pre n t → small_values t → ready (need d) c → settled c n t →
    committed c pre t (commit levels lvl pre n c).

Lemma trie_hash_len t : length (trie_hash t) = HashLength.
Proof. apply Hhash. Qed.
Lemma hash_ok_len pre h t : hash_ok db_tx clean pre h t → hash_len_ok h.
Proof. destruct h; [|done]. intros [-> _]. apply trie_hash_len. Qed.

Lemma commit_short_leaf lvl pre k v h :
  commit levels lvl pre (short_node k (value_node v) h) =
  short_commit (match pre with [] => true | _ => false end) k h
    (s ← commit_leaf (pre ++ k) h v; mret (Some s, value_node v)).
Proof. reflexivity. Qed.
Lemma commit_short_ext lvl pre k n h :
  (∀ v, n ≠ value_node v) →
  commit levels lvl pre (short_node k n h) =
  short_commit (match pre with [] => true | _ => false end) k h
    (n ← commit levels lvl (pre ++ k) n; mret (None, n)).
Proof. intros Hn. destruct n as [| | | |v]; try reflexivity. by destruct (Hn v). Qed.
Lemma leaf_store k s h' :
  h' = (if big (Leaf k s) then Some (trie_hash (Leaf k s)) else None) →
  enc_list (AppendString (key_compact k) ++ [] ++ leaf_tail (Some s) h') = store (Leaf k s).
Proof.
  intros ->. unfold store. cbn [store_items]. rewrite enc_items_cons. cbn [enc_item app].
  do 2 f_equal. destruct (big (Leaf k s)); cbn [leaf_tail]; [|destruct (_ <=? _); [|done]];
    unfold enc_items; cbn [map concat enc_item]; by rewrite app_nil_r.
Qed.
Lemma closed_hash_big off t bh h :
  enc_list bh = encode_trie t → h = None → (off = true → big t = false) →
  closed_hash false off h bh = if big t then Some (trie_hash t) else None.
Proof.
  intros Ebh -> Hoff. unfold closed_hash. rewrite Ebh. unfold big in *. cbn [negb].
  destruct off; [by rewrite Hoff|]. rewrite andb_true_r.
  by destruct (blen (encode_trie t) <? Z.of_nat HashLength).
Qed.

Definition at_root (pre : bytes) : bool := match pre with [] => true | _ => false end.
(** What [commit] of a short node leaves: at the root the node is put, below it goes into the
    encodings of its parent. *)
Definition short_done (pre : bytes) (h h' : option hash) (c c' : commit_context) (bh b : bytes)
    (ws : list write) : Prop :=
  if at_root pre then writes c' = writes c ++ ws ++ [PutNode (keccak (enc_list bh)) b]
  else adds_more c c' (match h with Some h => AppendString h | None => child_ref (enc_list bh) end) b ws.
Definition hashing (pre : bytes) (h : option hash) (c : commit_context) : Prop :=
  (pre = [] → disabled (enc_hash c) = false ∧ h = None) ∧ (h ≠ None → disabled (enc_hash c) = false).
Definition off_below (h : option hash) (c : commit_context) : bool :=
  match h with Some _ => true | None => disabled (enc_hash c) end.
Lemma leaf_frame d lvl pre k v h s c :
  is_key d k → is_nibbles pre → (length pre + d = HexKeyLen)%nat →
  rep db_tx clean pre (short_node k (value_node v) h) (Leaf k s) → blen (hash_value s) <= L →
  ready (need d) c → hashing pre h c →
  let bh := AppendString (key_compact k) ++ AppendString (hash_value s) in
  let h' := closed_hash (at_root pre) (off_below h c) h bh in
  ∃ s' c' ws, commit levels lvl pre (short_node k (value_node v) h) c =
      (Ret (short_node k (value_node v) h'), c') ∧
    short_done pre h h' c c' bh (enc_list (AppendString (key_compact k) ++ [] ++ leaf_tail (Some s') h')) ws ∧
    (h = None → s' = s) ∧ puts pre (Leaf k s) ws ∧
    ∀ db' clean', keeps db' clean' → sees db' clean' ws → clean' (pre ++ k) s ∧ vrep clean' (pre ++ k) v s.
Proof.
  intros Hk Hpre Hd Hrep HL' Hr [Hroot Hen] bh h'. pose proof (need_pos d).
  inversion Hrep as [? ? ? ? ? Hv Hok Hh| | |]; subst.
  destruct (key_compact_key d k Hk ltac:(lia)) as (Hkc & _ & Hlen & _).
  pose proof (AppendString_bounds (hash_value s)). pose proof (blen_nonneg (hash_value s)).
  destruct (short_frame Hhash Hmax (need d) (at_root pre) k (key_compact k) h c
    (s ← commit_leaf (pre ++ k) h v; mret (Some s, value_node v)) (AppendString (hash_value s)) []
    (λ r ws, ∃ s', r = (Some s', value_node v) ∧ (h = None → s' = s) ∧ puts pre (Leaf k s) ws ∧
       ∀ db' clean', keeps db' clean' → sees db' clean' ws →
         clean' (pre ++ k) s ∧ vrep clean' (pre ++ k) v s))
    as (r & c' & ws & (s' & -> & Hs' & Hputs & Hdb) & E & A); try done.
  { by eapply hash_ok_len. }
  { unfold need in *. lia. }
  { change (blen []) with 0. lia. }
  { lia. }
  { intros Hx. apply Hroot. by destruct pre. }
  { intros c1 R1 D1. destruct (commit_leaf_spec (need d - 150) (pre ++ k) v s h c1)
      as (s' & c2 & ws & E & A & Hs' & Hputs & Hdb); [|done|done| |done| |].
    - rewrite <-Hd. by apply is_key_app.
    - unfold need. lia.
    - intros Hvn. rewrite D1. specialize (Hh Hvn). by destruct h.
    - exists (Some s', value_node v), c2, ws. unfold mbind, M_bind. rewrite E.
      split_and!; [done|done|]. exists s'. split_and!; [done|done|by apply puts_leaf|done]. }
  exists s', c', ws. by split_and!.
Qed.

(** A node whose hash is known is big; hashing is on where it matters. *)
Lemma settled_short pre k n h t c :
  pre ≠ [] → hash_ok db_tx clean pre h t → settled c (short_node k n h) t → is_branch t = false →
  (big t = true → disabled (enc_hash c) = false) ∧
  (h ≠ None → h = Some (trie_hash t) ∧ big t = true) ∧ hashing pre h c.
Proof.
  intros Hne Hok Hset Hb.
  assert (big t = true → disabled (enc_hash c) = false) as Hen.
  { intros Hbig. destruct (disabled (enc_hash c)) eqn:D; [|done].
    destruct (Hset D) as [Hx|Hx]; [by rewrite Hb in Hx|congruence]. }
  assert (h ≠ None → h = Some (trie_hash t) ∧ big t = true) as Hsome.
  { destruct h as [h|]; [|done]. destruct Hok as (-> & [?|?] & _); done. }
  split_and!; [done..|]. split; [done|]. intros Hh. apply Hen. by apply Hsome.
Qed.
Lemma closed_hash_short pre h t c bh :
  pre ≠ [] → enc_list bh = encode_trie t → (big t = true → disabled (enc_hash c) = false) →
  (h ≠ None → h = Some (trie_hash t) ∧ big t = true) →
  closed_hash (at_root pre) (off_below h c) h bh = if big t then Some (trie_hash t) else None.
Proof.
  intros Hne Ebh Hen Hsome. destruct pre; [done|]. destruct h as [h|].
  - destruct Hsome as [-> ->]; done.
  - apply closed_hash_big; [done|done|]. cbn [off_below]. intros Ho.
    destruct (big t); [|done]. specialize (Hen eq_refl). congruence.
Qed.
Lemma short_done_below pre h h' c c' bh t ws :
  pre ≠ [] → enc_list bh = encode_trie t → is_branch t = false →
  (h ≠ None → h = Some (trie_hash t) ∧ big t = true) →
  short_done pre h h' c c' bh (store t) ws →
  adds_more c c' (child_ref (encode_trie t)) (enc_item (store_item t)) ws.
Proof.
  intros Hne Ebh Hb Hsome A. destruct pre; [done|]. unfold short_done in A. cbn [at_root] in A.
  rewrite Ebh in A. rewrite enc_store_item, Hb. cbn [andb]. destruct h as [h|]; [|exact A].
  destruct Hsome as [Eh Eb]; [done|]. injection Eh as ->. rewrite child_ref_big, Eb. exact A.
Qed.

Lemma commit_leaf_node d k s : is_key d k → commits d (Leaf k s).
Proof.
  intros Hk pre n c lvl Hne Hpre Hd Hrep Hsv Hr Hset.
  inversion Hrep as [? ? v ? h Hv Hok Hh| | |? ? _ _ [?|?]]; subst; [|done|done].
  apply small_values_leaf in Hsv.
  destruct (settled_short _ _ _ _ _ _ Hne Hok Hset eq_refl) as (Hen & Hsome & Hhg).
  destruct (leaf_frame d lvl pre k v h s c Hk Hpre Hd Hrep Hsv Hr Hhg)
    as (s' & c' & ws & E & A & Hs' & Hputs & Hdb).
  rewrite (closed_hash_short _ _ (Leaf k s)) in E, A by done.
  exists (short_node k (value_node v) (if big (Leaf k s) then Some (trie_hash (Leaf k s)) else None)), c', ws.
  split_and!; [exact E| | |done|].
  - assert (leaf_tail (Some s') (if big (Leaf k s) then Some (trie_hash (Leaf k s)) else None) =
      leaf_tail (Some s) (if big (Leaf k s) then Some (trie_hash (Leaf k s)) else None)) as Elt.
    { destruct h as [h|]; [|by rewrite Hs']. destruct Hsome as [_ ->]; done. }
    rewrite Elt, leaf_store in A by done. by eapply short_done_below.
  - cbn [has_hash]. destruct (big (Leaf k s)); auto.
  - intros db' clean' Hkp Hse. destruct (Hdb db' clean' Hkp Hse) as [Hc Hv'].
    assert (stored db' clean' pre (Leaf k s)) as Hst by (constructor; [done|by destruct Hv]).
    split; [|done]. constructor; [done| |].
    + destruct (big (Leaf k s)) eqn:Eb; [|done]. by split_and!; [|right|].
    + intros Hvn. destruct Hsome as [_ ->]; [by apply Hh|done].
Qed.
Lemma ext_store p u h' :
  enc_list (AppendString (key_compact p) ++ enc_item (store_item u) ++ leaf_tail None h') =
  store (Ext p u).
Proof.
  unfold store. rewrite store_items_ext, !enc_items_cons. cbn [leaf_tail enc_item].
  change (enc_items []) with (@nil Z). done.
Qed.
Lemma ext_frame d lvl pre p n h u c :
  wf d u → is_branch u = true → is_nibbles p → p ≠ [] → commits d u →
  is_nibbles pre → (length pre + (length p + d) = HexKeyLen)%nat →
  rep db_tx clean pre (short_node p n h) (Ext p u) → small_values (Ext p u) →
  ready (need (length p + d)) c → hashing pre h c →
  (h = None → disabled (enc_hash c) = true → big u = false) →
  let bh := AppendString (key_compact p) ++ child_ref (encode_trie u) in
  let h' := closed_hash (at_root pre) (off_below h c) h bh in
  ∃ n' c' ws, commit levels lvl pre (short_node p n h) c = (Ret (short_node p n' h'), c') ∧
    short_done pre h h' c c' bh (store (Ext p u)) ws ∧ (has_hash n' = true ∨ big u = false) ∧
    puts pre (Ext p u) ws ∧
    ∀ db' clean', keeps db' clean' → sees db' clean' ws →
      rep db' clean' (pre ++ p) n' u ∧ stored db' clean' (pre ++ p) u.
Proof.
  intros Hwf Hu Hp Hpne Hc Hpre Hd Hrep Hsv Hr [Hroot Hen] Hoff bh h'.
  inversion Hrep as [|? ? ? ? ? Hrep0 Hok Hh| |]; subst.
  destruct (key_compact_part (length pre + d) p Hp ltac:(lia)) as (Hkc & _ & Hlen & _).
  pose proof (child_ref_bounds Hhash (encode_trie u) (blen_nonneg _)) as Bv.
  pose proof (store_item_bound Hhash Hmax d u Hwf ltac:(lia)) as Bs.
  destruct (short_frame Hhash Hmax (need (length p + d)) (at_root pre) p (key_compact p) h c
    (n ← commit levels lvl (pre ++ p) n; mret (None, n)) (child_ref (encode_trie u))
    (enc_item (store_item u))
    (λ r ws, r.1 = None ∧ (has_hash r.2 = true ∨ big u = false) ∧ puts pre (Ext p u) ws ∧
       ∀ db' clean', keeps db' clean' → sees db' clean' ws →
         rep db' clean' (pre ++ p) r.2 u ∧ stored db' clean' (pre ++ p) u))
    as ([o n'] & c' & ws & (Ho & Hn' & Hputs & Hdb) & E & A); try done.
  { by eapply hash_ok_len. }
  1-3: unfold need in *; lia.
  { intros Hx. apply Hroot. by destruct pre. }
  { intros c1 R1 D1. destruct (Hc (pre ++ p) n c1 lvl) as (n' & c2 & ws & E & A & Hn' & Hputs & Hdb); try done.
    - intros [_ ?]%app_eq_nil. done.
    - by apply is_nibbles_app.
    - rewrite length_app. lia.
    - by eapply small_values_ext.
    - apply (ready_le _ _ _ R1). destruct p; [done|]. unfold need. cbn [length]. lia.
    - intros D. rewrite D1 in D. destruct h as [h|]; [|right; by apply Hoff].
      rewrite Hu. cbn [andb]. exact Hh.
    - exists (None, n'), c2, ws. unfold mbind, M_bind. rewrite E. split_and!; try done.
      by apply puts_ext. }
  cbn [fst snd] in A, E, Ho, Hn', Hdb. subst o. rewrite ext_store in A. exists n', c', ws.
  rewrite commit_short_ext by (intros v; by eapply rep_not_value). by split_and!.
Qed.
Lemma commit_ext_node d p ts :
  wf d (Branch ts) → is_nibbles p → p ≠ [] → commits d (Branch ts) →
  commits (length p + d) (Ext p (Branch ts)).
Proof.
  intros Hwf Hp Hpne Hc pre n c lvl Hne Hpre Hd Hrep Hsv Hr Hset. set (u := Branch ts) in *.
  assert (is_branch u = true) as Hu by done. clearbody u.
  inversion Hrep as [|? ? n0 ? h Hrep0 Hok Hh| |? ? _ _ [?|?]]; subst; [|done|done].
  destruct (settled_short _ _ _ _ _ _ Hne Hok Hset eq_refl) as (Hen & Hsome & Hhg).
  destruct (ext_frame d lvl pre p n0 h u c) as (n' & c' & ws & E & A & Hn' & Hputs & Hdb); try done.
  { intros _ D. destruct (Hset D) as [?|?]; [done|]. by eapply small_ext. }
  rewrite (closed_hash_short _ _ (Ext p u)) in E, A by done.
  exists (short_node p n' (if big (Ext p u) then Some (trie_hash (Ext p u)) else None)), c', ws.
  split_and!; [exact E|by eapply short_done_below| |done|].
  - cbn [has_hash]. destruct (big (Ext p u)); auto.
  - intros db' clean' Hkp Hse. destruct (Hdb db' clean' Hkp Hse) as [Hr' Hst].
    assert (stored db' clean' pre (Ext p u)) as Hst' by by constructor.
    split; [|done]. constructor; [done| |].
    + destruct (big (Ext p u)) eqn:Eb; [|done]. by split_and!; [|right|].
    + by destruct (big (Ext p u)).
Qed.

(** * Full nodes *)
Definition full_result (lvl : Z) (children : list (node V)) (h : option hash) : node V :=
  match h with
  | None => full_node children None
  | Some h => if levels <=? lvl then node_hash h else full_node children (Some h)
  end.
Lemma end_full_spec n lvl is_root children c c1 bh bs ws :
  adds started c c1 bh bs ws → ready n c → blen bh + 40 <= n → blen bs + 40 <= n → 33 <= n →
  (is_root = true → disabled (enc_hash c) = false) →
  let bh' := bh ++ AppendString [] in
  let h := closed_hash is_root (disabled (enc_hash c)) None bh' in
  ∃ c2, end_full levels lvl is_root children (storage_pos c) (hash_pos c) c1 =
      (Ret (full_result lvl children h), c2) ∧
    (if is_root then writes c2 = writes c ++ ws ++ [PutNode (keccak (enc_list bh')) (enc_list bs)]
     else adds_more c c2 (child_ref (enc_list bh'))
            (match h with Some h => AppendString h | None => enc_list bs end)
            (ws ++ match h with Some h => [PutNode h (enc_list bs)] | None => [] end)).
Proof.
  intros A Hr Hbh Hbs H33 Hroot bh' h. pose proof (enc_list_bounds bs). pose proof (blen_nonneg bh).
  assert (blen (AppendString []) = 1) as E1 by done.
  pose proof (enc_list_bounds bh') as Bh'. assert (blen bh' = blen bh + 1) as Lb.
  { unfold bh'. by rewrite blen_app, E1. }
  destruct (storage_close n c c1 _ _ _ A Hr) as (e & Es & [La _ Lf Lr]); [lia|].
  unfold end_full, mbind, M_bind. rewrite Es. cbv beta iota.
  set (c1' := {| enc_hash := _; enc_storage := _; writes := _ |}).
  assert (hash_adds started c c1' bh) as A1 by (by destruct A as (D & Ah & _)).
  destruct (hash_append_last n c c1' bh [] A1 Hr) as (c2 & E2 & A2 & S2 & W2); [lia|].
  rewrite E2. cbv beta iota.
  destruct (hash_close Hhash n c c2 bh' is_root None A2 Hr) as (eh & E3 & Heh); [lia|lia|].
  fold bh' in E3, Heh. rewrite E3. fold (closed_hash is_root (disabled (enc_hash c)) None bh').
  fold h. cbv beta iota. clear E2 E3. rewrite S2, W2. cbn [c1' enc_storage writes].
  destruct A as (_ & _ & As & W).
  destruct h as [x|] eqn:Ex; cbn [full_result].
  2:{ assert (is_root = false) as Er.
      { destruct is_root; [|done]. unfold h, closed_hash in Ex. rewrite Hroot, andb_false_r in Ex; done. }
      eexists. split; [done|]. rewrite Er. split_and!; ctx_simpl; [done| |done|by rewrite app_nil_r].
      destruct (disabled (enc_hash c)); [done|by apply Heh]. }
  assert (x = keccak (enc_list bh')) as Exk.
  { unfold h, closed_hash in Ex. destruct (disabled (enc_hash c)); [done|].
    destruct (_ && _); [done|]. by injection Ex. }
  unfold storage_enc at 1. ctx_simpl. unfold ToBytes. rewrite Lf. cbv beta iota.
  unfold put. ctx_simpl.
  destruct is_root; cbn [negb when].
  - eexists. split; [by destruct (levels <=? lvl)|]. ctx_simpl. by rewrite W, Exk, <-app_assoc.
  - unfold storage_enc, mbind, M_bind. ctx_simpl. rewrite Lr. cbv beta iota. ctx_simpl.
    destruct Hr as [[V0 R0] _]. destruct (Append_spec (enc_storage c) x V0) as (e4 & E4 & A4).
    { rewrite Exk, AppendString_hash_blen by apply Hhash. lia. }
    rewrite E4. cbv beta iota.
    eexists. split; [by destruct (levels <=? lvl)|]. split_and!; ctx_simpl; [done| |done|].
    + destruct (disabled (enc_hash c)); [done|by apply Heh].
    + by rewrite W, <-app_assoc.
Qed.

(** The loop over the children. *)
Definition commit_children (lvl : Z) (pre : bytes) : Z → list (node V) → CM (list (node V)) :=
  fix loop (i : Z) (cs : list (node V)) : CM (list (node V)) :=
    match cs with
    | [] => mret []
    | c :: cs =>
        c ← match c with
            | nil_node => hash_AppendString [] ;; storage_enc (Append []) ;; mret nil_node
            | _ => commit levels (u8 (lvl + 1)) (pre ++ [i]) c
            end;
        cs ← loop (i + 1) cs;
        mret (c :: cs)
    end.
Lemma commit_full_none lvl pre children :
  commit levels lvl pre (full_node children None) =
  (hash_list_start ← hash_ListStart;
   storage_list_start ← storage_enc ListStart;
   children ← commit_children lvl pre 0 children;
   end_full levels lvl (match pre with [] => true | _ => false end) children
     storage_list_start hash_list_start).
Proof. reflexivity. Qed.
Definition ref_child (o : option trie) : bytes :=
  match o with Some t => child_ref (encode_trie t) | None => AppendString [] end.
Lemma append_both {A} n c s (m : CM A) :
  ready n c → 2 * blen (AppendString s) <= n →
  ∃ c', (hash_AppendString s ;; storage_enc (Append s) ;; m) c = m c' ∧
    adds_more c c' (AppendString s) (AppendString s) [].
Proof.
  intros Hr Hn. pose proof (AppendString_pos s).
  destruct (hash_append_run _ c s Hr ltac:(lia)) as (c1 & E1 & A1).
  assert (ready (n - blen (AppendString s)) c1) as R1.
  { apply (ready_more _ _ _ _ _ _ _ A1 Hr); change (blen []) with 0; lia. }
  destruct (storage_append_run _ c1 s R1 ltac:(lia)) as (c2 & E2 & A2).
  pose proof (adds_trans _ _ _ _ _ _ _ _ _ _ A1 A2) as Ad. rewrite app_nil_r in Ad.
  exists c2. split; [|exact Ad]. unfold mbind, M_bind. rewrite E1. cbv beta iota. by rewrite E2.
Qed.
Definition ostored (db' : Input) (clean' : bytes → bytes → Prop) (pre : bytes) (o : option trie) : Prop :=
  match o with Some t => stored db' clean' pre t | None => True end.
Definition oputs (pre : bytes) (o : option trie) (ws : list write) : Prop :=
  match o with Some t => puts pre t ws | None => ws = [] end.
Lemma commit_child d lvl pre n o c :
  is_nibbles pre → pre ≠ [] → (length pre + d = HexKeyLen)%nat →
  (∀ t, o = Some t → commits d t ∧ small_values t) →
  orep db_tx clean pre n o → ready (need d) c →
  (disabled (enc_hash c) = true → ∀ t, o = Some t → big t = false) →
  ∃ n' c' ws,
    match n with
    | nil_node => hash_AppendString [] ;; storage_enc (Append []) ;; mret nil_node
    | _ => commit levels lvl pre n
    end c = (Ret n', c') ∧
    adds_more c c' (ref_child o) (enc_item (store_child o)) ws ∧ oputs pre o ws ∧
    ∀ db' clean', keeps db' clean' → sees db' clean' ws →
      orep db' clean' pre n' o ∧ ostored db' clean' pre o.
Proof.
  intros Hpre Hne Hd Ho Hn Hr Hoff. pose proof (need_pos d). destruct o as [t|].
  - destruct (Ho t eq_refl) as [Hc Hsv].
    destruct (Hc pre n c lvl) as (n' & c' & ws & E & A & _ & Hputs & Hdb); try done.
    { intros D. right. by apply Hoff. }
    exists n', c', ws. split_and!; [|done..]. apply rep_not_nil in Hn. by destruct n.
  - cbn [orep] in Hn. subst n.
    destruct (append_both _ c [] (mret (@nil_node V)) Hr) as (c' & E & A); [change (blen _) with 1; lia|].
    by exists nil_node, c', [].
Qed.
Lemma blen_ref_child o : 0 <= blen (ref_child o) <= 33.
Proof.
  split; [apply blen_nonneg|]. destruct o as [t|]; [|by vm_compute].
  apply child_ref_bounds; [done|apply blen_nonneg].
Qed.
Lemma commit_children_spec d lvl pre ts :
  is_nibbles pre → (length pre + S d = HexKeyLen)%nat → length ts = 16%nat →
  (∀ i t, ts !! i = Some (Some t) → wf d t ∧ commits d t ∧ small_values t) →
  ∀ ts2 ts1 ns2 c, ts = ts1 ++ ts2 → length ns2 = length ts2 →
  (∀ i n o, ns2 !! i = Some n → ts2 !! i = Some o →
     orep db_tx clean (pre ++ [Z.of_nat (length ts1 + i)]) n o) →
  ready (need d + 3400 * Z.of_nat (length ts2)) c →
  (disabled (enc_hash c) = true → ∀ i t, ts !! i = Some (Some t) → big t = false) →
  ∃ ns' c' ws, commit_children lvl pre (Z.of_nat (length ts1)) ns2 c = (Ret ns', c') ∧
    adds_more c c' (concat (map ref_child ts2)) (enc_items (map store_child ts2)) ws ∧
    length ns' = length ts2 ∧ puts pre (Branch ts) ws ∧
    ∀ db' clean', keeps db' clean' → sees db' clean' ws →
      ∀ i n o, ns' !! i = Some n → ts2 !! i = Some o →
        orep db' clean' (pre ++ [Z.of_nat (length ts1 + i)]) n o ∧
        ostored db' clean' (pre ++ [Z.of_nat (length ts1 + i)]) o.
Proof.
  intros Hpre Hd Hlen Hts ts2. induction ts2 as [|o ts2 IH]; intros ts1 ns2 c Ets Hl Hns Hr Hoff.
  { destruct ns2; [|done]. exists [], c, []. split_and!; [done|apply adds_refl|done|apply puts_nil|done]. }
  destruct ns2 as [|n ns2]; [done|]. cbn [length] in *. injection Hl as Hl.
  assert (ts !! length ts1 = Some o) as Ho by (rewrite Ets; by apply list_lookup_middle).
  assert (length ts1 < 16)%nat as Hlt by (rewrite <-Hlen; by eapply lookup_lt_Some).
  pose proof (blen_ref_child o) as Bh.
  assert (0 <= blen (enc_item (store_child o)) <= 3300) as Bs.
  { split; [apply blen_nonneg|]. destruct o as [t|]; [|by vm_compute]. destruct (Hts _ _ Ho) as [Hwf _].
    apply (store_item_bound Hhash Hmax d); [done|lia]. }
  assert (is_nibbles (pre ++ [Z.of_nat (length ts1)])) as Hpre1.
  { apply is_nibbles_app. split; [done|]. constructor; [by apply index_nibble|done]. }
  destruct (commit_child d (u8 (lvl + 1)) (pre ++ [Z.of_nat (length ts1)]) n o c Hpre1)
    as (n' & c1 & w1 & E1 & A1 & Hp1 & Hdb1).
  { by destruct pre. }
  { rewrite length_app. simpl. lia. }
  { intros t ->. by apply (Hts (length ts1)). }
  { rewrite <-(Nat.add_0_r (length ts1)). by apply Hns. }
  { apply (ready_le _ _ _ Hr). lia. }
  { intros D t ->. by apply (Hoff D (length ts1)). }
  destruct (IH (ts1 ++ [o]) ns2 c1) as (ns' & c2 & w2 & E2 & A2 & Hl2 & Hp2 & Hdb2).
  { by rewrite <-app_assoc. }
  { done. }
  { intros i m o' Hm Hi. rewrite length_app. cbn [length].
    replace (length ts1 + 1 + i)%nat with (length ts1 + S i)%nat by lia. by apply Hns. }
  { pose proof (need_pos d). apply (ready_more _ _ _ _ _ _ _ A1 Hr); lia. }
  { destruct A1 as [-> _]. done. }
  exists (n' :: ns'), c2, (w1 ++ w2). split_and!.
  - rewrite length_app in E2. cbn [length] in E2.
    replace (Z.of_nat (length ts1 + 1)) with (Z.of_nat (length ts1) + 1) in E2 by lia.
    cbn [commit_children]. unfold mbind, M_bind in *. rewrite E1. by rewrite E2.
  - by apply (adds_trans _ _ _ _ _ _ _ _ _ _ A1 A2).
  - simpl. by rewrite Hl2.
  - apply puts_app; [|done]. destruct o as [t|]; [by eapply puts_child|].
    cbn [oputs] in Hp1. subst w1. apply puts_nil.
  - intros db' clean' Hkp [Hse1 Hse2]%sees_app [|i] m o' Hm Hi; simpl in Hm, Hi.
    + simplify_eq. rewrite Nat.add_0_r. by apply Hdb1.
    + specialize (Hdb2 db' clean' Hkp Hse2 i m o' Hm Hi). rewrite length_app in Hdb2.
      cbn [length] in Hdb2. by replace (length ts1 + S i)%nat with (length ts1 + 1 + i)%nat by lia.
Qed.

Lemma blen_children d ts :
  length ts = 16%nat → (d < HexKeyLen)%nat → (∀ i t, ts !! i = Some (Some t) → wf d t) →
  blen (concat (map ref_child ts)) <= 33 * 16 ∧ blen (enc_items (map store_child ts)) <= 3300 * 16.
Proof.
  intros Hts Hd Hwf. change 16 with (Z.of_nat 16). rewrite <-Hts. split.
  - apply blen_concat_bound. apply Forall_lookup_2. intros i o _. apply blen_ref_child.
  - unfold enc_items. rewrite map_map. apply blen_concat_bound. apply Forall_lookup_2.
    intros i [t|] Hi; [|by vm_compute]. apply (store_item_bound Hhash Hmax d); [by eapply Hwf|lia].
Qed.
(** The reference to a branch that is hashed. *)
Lemma commit_reference d pre t n' c (m : CM (node V)) :
  is_branch t && big t = true → ready (need d) c →
  (∀ c', m c' = (Ret n', c')) → has_hash n' = true →
  (∀ db' clean', keeps db' clean' → rep db' clean' pre n' t ∧ stored db' clean' pre t) →
  committed c pre t ((hash_AppendString (trie_hash t) ;; storage_enc (Append (trie_hash t)) ;; m) c).
Proof.
  intros Hb Hr Hm Hn Hdb. pose proof (need_pos d).
  destruct (append_both _ c (trie_hash t) m Hr) as (c' & E & A).
  { rewrite AppendString_hash_blen by apply trie_hash_len. lia. }
  exists n', c', []. rewrite E, Hm. split_and!; [done| |by left|apply puts_nil|by auto].
  rewrite enc_store_item, child_ref_big, Hb. apply andb_true_iff in Hb as [_ ->]. exact A.
Qed.
Lemma full_result_rep db' clean' pre ns ts lvl h :
  rep db' clean' pre (full_node ns None) (Branch ts) →
  stored db' clean' pre (Branch ts) → (pre = [] ∨ big (Branch ts) = true) →
  GetNode db' (trie_hash (Branch ts)) = Some (entry (Branch ts)) →
  h = trie_hash (Branch ts) → rep db' clean' pre (full_result lvl ns (Some h)) (Branch ts).
Proof.
  intros Hrep Hst Hb Hget ->. unfold full_result. destruct (levels <=? lvl).
  - apply rep_hash; [done|done|]. destruct Hb as [->| ->]; auto.
  - inversion Hrep; subst. constructor; try done.
Qed.
Lemma full_parts pre ns ts h d :
  rep db_tx clean pre (full_node ns h) (Branch ts) → wf (S d) (Branch ts) →
  length ns = 16%nat ∧ length ts = 16%nat ∧
  (∀ i n o, ns !! i = Some n → ts !! i = Some o → orep db_tx clean (pre ++ [Z.of_nat i]) n o).
Proof.
  intros Hrep Hwf. inversion Hrep as [| |? ? ? ? Hns Hts Hnil Hall|]; subst. split_and!; [done..|].
  intros i n [t|] Hn Ho; [by eapply Hall|by eapply Hnil].
Qed.
Lemma parts_rep db' clean' pre ns ts :
  length ns = 16%nat → length ts = 16%nat →
  (∀ i n o, ns !! i = Some n → ts !! i = Some o →
     orep db' clean' (pre ++ [Z.of_nat i]) n o ∧ ostored db' clean' (pre ++ [Z.of_nat i]) o) →
  (big (Branch ts) = true → GetNode db' (trie_hash (Branch ts)) = Some (entry (Branch ts))) →
  rep db' clean' pre (full_node ns None) (Branch ts) ∧ stored db' clean' pre (Branch ts).
Proof.
  intros Hns Hts Hall Hget. split.
  - constructor; [done..| | |done].
    + intros i n Ho Hn. by destruct (Hall i n None Hn Ho).
    + intros i n t Hn Ho. by destruct (Hall i n (Some t) Hn Ho).
  - constructor; [|done]. intros i t Ho. destruct (lookup_lt_is_Some_2 ns i) as [n Hn].
    { rewrite Hns, <-Hts. by eapply lookup_lt_Some. }
    by destruct (Hall i n (Some t) Hn Ho).
Qed.
(** A branch in memory, up to the end of its lists. *)
Lemma full_frame d lvl pre ns ts c :
  wf (S d) (Branch ts) → (∀ i t, ts !! i = Some (Some t) → commits d t) →
  is_nibbles pre → (length pre + S d = HexKeyLen)%nat →
  rep db_tx clean pre (full_node ns None) (Branch ts) → small_values (Branch ts) →
  ready (need (S d)) c → (disabled (enc_hash c) = true → big (Branch ts) = false) →
  ∃ ns' c1 ws, commit levels lvl pre (full_node ns None) c =
      end_full levels lvl (at_root pre) ns' (storage_pos c) (hash_pos c) c1 ∧
    adds started c c1 (concat (map ref_child ts)) (enc_items (map store_child ts)) ws ∧
    puts pre (Branch ts) ws ∧
    ∀ db' clean', keeps db' clean' → sees db' clean' ws →
      (big (Branch ts) = true → GetNode db' (trie_hash (Branch ts)) = Some (entry (Branch ts))) →
      rep db' clean' pre (full_node ns' None) (Branch ts) ∧ stored db' clean' pre (Branch ts).
Proof.
  intros Hwf Hcs Hpre Hd Hrep Hsv Hr Hoff.
  inversion Hwf as [| |? ? _ _ Hwfc]; subst. pose proof (need_pos d).
  destruct (full_parts _ _ _ _ _ Hrep Hwf) as (Hns & Hts & Hparts).
  rewrite commit_full_none, open_hash_first. pose proof (opened_adds c) as A0.
  destruct (commit_children_spec d lvl pre ts Hpre Hd Hts) with (ts2 := ts) (ts1 := @nil (option trie))
    (ns2 := ns) (c := opened c) as (ns' & c1 & ws & E1 & A1 & Hns' & Hputs & Hdb); try done.
  { intros i t Hi. split_and!; [by eapply Hwfc|by eapply Hcs|by eapply small_values_child]. }
  { by rewrite Hns. }
  { rewrite Hts. apply (ready_opened _ _ _ _ _ _ _ A0 Hr); change (blen []) with 0; unfold need; lia. }
  { intros D i t Hi. eapply small_branch; eauto. }
  pose proof (adds_trans _ _ _ _ _ _ _ _ _ _ A0 A1) as A01. cbn [app length] in A01, E1.
  change (Z.of_nat 0) with 0 in E1. cbn [length Nat.add] in Hdb.
  exists ns', c1, ws. split_and!; [|done|done|].
  - unfold mbind at 1, M_bind at 1. by rewrite E1.
  - intros db' clean' Hkp Hse Hget. apply parts_rep; [lia|done|by apply Hdb|done].
Qed.
Lemma children_list ts :
  enc_list (concat (map ref_child ts) ++ AppendString []) = encode_trie (Branch ts) ∧
  enc_list (enc_items (map store_child ts)) = store (Branch ts).
Proof. split; [done|]. unfold store. by rewrite store_items_branch. Qed.
Lemma commit_full_node d ts :
  wf (S d) (Branch ts) → (∀ i t, ts !! i = Some (Some t) → commits d t) → commits (S d) (Branch ts).
Proof.
  intros Hwf Hcs pre n c lvl Hne Hpre Hd Hrep Hsv Hr Hset.
  inversion Hrep as [| |? ns ? h Hns Hts Hnil Hall Hok|? ? Hst Hget Hb]; subst.
  2:{ destruct Hb as [?|Hb]; [done|].
      apply (commit_reference (S d) pre _ (node_hash (trie_hash (Branch ts)))); try done.
      intros db' clean' Hkp. split; [by eapply rep_mono|by eapply stored_mono]. }
  destruct h as [h|].
  { destruct Hok as (-> & [?|Hb] & Hst); [done|]. cbn [commit].
    apply (commit_reference (S d) pre _ (full_result lvl ns (Some (trie_hash (Branch ts))))); try done.
    { intros c'. unfold full_result. by destruct (levels <=? lvl). }
    { unfold full_result. by destruct (levels <=? lvl). }
    intros db' clean' Hkp. pose proof (stored_mono _ _ _ _ Hkp Hst) as Hst'. split; [|done].
    apply full_result_rep; try done; [|by right|by inversion Hst'; auto].
    eapply rep_mono; [done|]. by constructor. }
  assert (disabled (enc_hash c) = true → big (Branch ts) = false) as Hoff.
  { intros D. by destruct (Hset D). }
  destruct (full_frame d lvl pre ns ts c Hwf Hcs Hpre Hd Hrep Hsv Hr Hoff)
    as (ns' & c1 & ws & -> & A1 & Hputs & Hdb).
  destruct (children_list ts) as [Ee Es]. inversion Hwf as [| |? ? _ _ Hwfc]; subst.
  pose proof (blen_children d ts Hts ltac:(lia) Hwfc) as [Bh Bs].
  destruct pre as [|x0 pre]; [done|]. cbn [at_root]. set (pre' := x0 :: pre) in *.
  destruct (end_full_spec (need (S d)) lvl false ns' c c1 _ _ _ A1 Hr)
    as (c2 & E2 & A2); [unfold need; lia..|done|].
  rewrite (closed_hash_big _ _ _ None Ee eq_refl Hoff) in E2, A2. rewrite Ee, Es in A2.
  exists (full_result lvl ns' (if big (Branch ts) then Some (trie_hash (Branch ts)) else None)), c2,
    (ws ++ if big (Branch ts) then [PutNode (trie_hash (Branch ts)) (store (Branch ts))] else []).
  split_and!.
  - exact E2.
  - rewrite enc_store_item. cbn [is_branch andb]. destruct (big (Branch ts)); exact A2.
  - destruct (big (Branch ts)); [|by right]. left. unfold full_result. by destruct (levels <=? lvl).
  - apply puts_app; [done|]. destruct (big (Branch ts)); [apply puts_node|apply puts_nil].
  - intros db' clean' Hkp [Hse1 Hse2]%sees_app.
    assert (big (Branch ts) = true → GetNode db' (trie_hash (Branch ts)) = Some (entry (Branch ts)))
      as Hget.
    { intros Eb. rewrite Eb in Hse2. apply Hse2. by left. }
    destruct (Hdb _ _ Hkp Hse1 Hget) as [Hr' Hst'].
    split; [|done]. destruct (big (Branch ts)) eqn:Eb; [|exact Hr']. apply full_result_rep; auto.
Qed.
Theorem wf_commits d t : wf d t → commits d t.
Proof.
  induction 1 as [d k s Hk|d p ts Hp Hne Hwf IH|d ts Hl Htwo Hall IH].
  - by apply commit_leaf_node.
  - by apply commit_ext_node.
  - apply commit_full_node; [by constructor|done].
Qed.

(** * The root *)
Lemma get_hash_none (n : node V) pre t :
  rep db_tx clean pre n t → get_hash n = Ret None → has_hash n = false.
Proof. by destruct 1 as [? ? ? ? [|]|? ? ? ? [|]|? ? ? [|]|]. Qed.
Lemma root_short h' bh b c c' ws :
  closed_hash true false None bh = h' → short_done [] None h' c c' bh b ws →
  h' = Some (keccak (enc_list bh)) ∧ writes c' = writes c ++ ws ++ [PutNode (keccak (enc_list bh)) b].
Proof. unfold closed_hash. rewrite andb_false_r. by intros <- A. Qed.
Definition root_committed (t : trie) (c : commit_context) (r : outcome (node V) * commit_context) : Prop :=
  ∃ n' c' ws, r = (Ret n', c') ∧ writes c' = writes c ++ ws ∧
    get_hash n' = Ret (Some (trie_hash t)) ∧ puts [] t ws ∧
    ∀ db' clean', keeps db' clean' → sees db' clean' ws →
      rep db' clean' [] n' t ∧ stored db' clean' [] t ∧ GetNode db' (trie_hash t) = Some (entry t).
Lemma root_put t n' b c c' ws ws0 r :
  r = (Ret n', c') → writes c' = writes c ++ ws → ws = ws0 ++ [PutNode (trie_hash t) b] →
  b = entry t → puts [] t ws0 → get_hash n' = Ret (Some (trie_hash t)) →
  (∀ db' clean', keeps db' clean' → sees db' clean' ws0 →
     GetNode db' (trie_hash t) = Some (entry t) → rep db' clean' [] n' t ∧ stored db' clean' [] t) →
  root_committed t c r.
Proof.
  intros -> Ew -> -> Hputs Eh Hdb. exists n', c', (ws0 ++ [PutNode (trie_hash t) (entry t)]).
  split_and!; [done..|apply puts_app; [done|apply puts_node]|]. intros db' clean' Hkp [Hse [Hp _]]%sees_app.
  assert (GetNode db' (trie_hash t) = Some (entry t)) as Hg by (apply Hp; by left).
  by destruct (Hdb db' clean' Hkp Hse Hg).
Qed.
Theorem commit_root t n c :
  wf HexKeyLen t → rep db_tx clean [] n t → get_hash n = Ret None → small_values t →
  ready (need HexKeyLen) c → disabled (enc_hash c) = false →
  root_committed t c (commit levels 0 [] n c).
Proof.
  intros Hwf Hrep Hgh Hsv Hr Hen. apply (get_hash_none _ _ _ Hrep) in Hgh.
  assert (is_nibbles []) as Hnil by constructor.
  assert (hashing [] None c) as Hhg by done.
  remember HexKeyLen as D eqn:HD in Hwf. destruct Hwf as [d k s Hk|d p ts Hp Hne Hwf|d ts Hl Htwo Hall].
  - inversion Hrep as [? ? v ? h Hv Hok Hh| | |]; subst; [|done]. destruct h; [done|].
    apply small_values_leaf in Hsv.
    destruct (leaf_frame HexKeyLen 0 [] k v None s c Hk Hnil eq_refl Hrep Hsv Hr Hhg)
      as (s' & c' & ws & E & A & Hs' & Hputs & Hdb). cbn [at_root off_below] in E, A. rewrite Hen in E, A.
    destruct (root_short _ _ _ _ _ _ eq_refl A) as [Eh Ew]. rewrite Eh in E.
    eapply root_put; [exact E|exact Ew|reflexivity| |done|done|].
    + rewrite Eh. cbn [entry leaf_tail app]. rewrite !enc_items_cons. cbn [enc_item].
      change (enc_items []) with (@nil Z). by rewrite app_nil_r.
    + intros db' clean' Hkp Hse _. destruct (Hdb db' clean' Hkp Hse) as [Hc Hv'].
      assert (stored db' clean' [] (Leaf k s)) as Hst by (constructor; [done|by destruct Hv]).
      split; [|done]. constructor; [done| |done]. split_and!; [done|by left|done].
  - inversion Hrep as [|? ? n0 ? h Hrep0 Hok Hh| |]; subst; [|done]. destruct h; [done|].
    destruct (ext_frame d 0 [] p n0 None (Branch ts) c) as (n' & c' & ws & E & A & Hn' & Hputs & Hdb); try done.
    { by apply wf_commits. }
    { by rewrite HD. }
    { congruence. }
    cbn [at_root off_below] in E, A. rewrite Hen in E, A.
    destruct (root_short _ _ _ _ _ _ eq_refl A) as [Eh Ew]. rewrite Eh in E.
    eapply root_put; [exact E|exact Ew|reflexivity|done|done|done|].
    intros db' clean' Hkp Hse _. destruct (Hdb db' clean' Hkp Hse) as [Hr' Hst].
    assert (stored db' clean' [] (Ext p (Branch ts))) as Hst' by by constructor.
    split; [|done]. constructor; [done| |done]. split_and!; [done|by left|done].
  - inversion Hrep as [| |? ns ? h Hns Hts Hnil' Hall' Hok|]; subst; [|done]. destruct h; [done|].
    assert (wf (S d) (Branch ts)) as Hwf by by constructor.
    destruct (full_frame d 0 [] ns ts c Hwf) as (ns' & c1 & ws & E & A1 & Hputs & Hdb); try done.
    { intros i t Hi. apply wf_commits. by eapply Hall. }
    { by rewrite HD. }
    { congruence. }
    destruct (children_list ts) as [Ee Es].
    pose proof (blen_children d ts Hts ltac:(lia) Hall) as [Bh Bs]. cbn [at_root] in E.
    destruct (end_full_spec (need HexKeyLen) 0 true ns' c c1 _ _ _ A1 Hr)
      as (c2 & E2 & A2); [unfold need; lia..|done|].
    unfold closed_hash in E2. rewrite Hen, andb_false_r in E2. rewrite Ee in E2, A2. rewrite Es in A2.
    rewrite E. eapply root_put; [exact E2|exact A2|reflexivity|done|done| |].
    + cbn [full_result]. by destruct (levels <=? 0).
    + intros db' clean' Hkp Hse Hg. destruct (Hdb db' clean' Hkp Hse) as [Hr' Hst]; [done|].
      split; [|done]. apply full_result_rep; auto.
Qed.
End nodes.
