(* ===== verification/TrieBuild.v ===== *)
(** The Merkle-Patricia trie of a finite map, defined on the pairs of key and value alone as in
    appendix D of the Ethereum yellow paper: one pair makes a leaf, pairs with a common prefix an
    extension, others a branch on the first nibble.  It is well formed and holds exactly the
    pairs, so by canonicity it is the trie every sequence of operations arrives at. *)
From S2P Require Import Prelude Codec Rlp Storage TrieEncoding Trie TrieMap TrieHash.

Abbreviation pairs := (list (bytes * bytes)).

Fixpoint common (p k : bytes) : bytes :=
  match p, k with
  | x :: p, y :: k => if x =? y then x :: common p k else []
  | _, _ => []
  end.
(** The longest common prefix of [k] and all keys. *)
Definition shared (k : bytes) (kvs : pairs) : bytes := foldr (λ kv p, common p kv.1) k kvs.
Definition without (n : nat) (kvs : pairs) : pairs := map (λ kv, (drop n kv.1, kv.2)) kvs.
(** The pairs whose key begins with the nibble [i], without it. *)
Definition below (i : nat) (kvs : pairs) : pairs :=
  omap (λ kv, match kv.1 with
              | x :: k => if x =? Z.of_nat i then Some (k, kv.2) else None
              | [] => None
              end) kvs.
Fixpoint build (fuel : nat) (kvs : pairs) : option trie :=
  match fuel, kvs with
  | O, _ | _, [] => None
  | _, [(k, v)] => Some (Leaf k v)
  | S fuel, (k, _) :: rest =>
      let p := shared k rest in
      let b := Branch (map (λ i, build fuel (below i (without (length p) kvs))) (seq 0 16)) in
      Some (match p with [] => b | _ => Ext p b end)
  end.

(** The trie of a map from 32-byte keys to values, and its root hash; the empty map has none. *)
Definition hex_pairs (m : gmap bytes bytes) : pairs :=
  map (λ kv, (keybytesToHex kv.1, kv.2)) (map_to_list m).
Definition mpt (m : gmap bytes bytes) : option trie := build HexKeyLen (hex_pairs m).
Definition root_hash `{Keccak} `{Schema} (m : gmap bytes bytes) : option hash := trie_hash <$> mpt m.

(** * The parts *)
Lemma common_prefix p k : ∃ r s, p = common p k ++ r ∧ k = common p k ++ s ∧
  ∀ x r' s', r = x :: r' → s ≠ x :: s'.
Proof.
  revert k. induction p as [|x p IH]; intros [|y k]; simpl; try by eexists _, _.
  destruct (Z.eqb_spec x y) as [<-|Hne].
  - destruct (IH k) as (r & s & Ep & Ek & Hd). exists r, s. simpl. by rewrite <-Ep, <-Ek.
  - exists (x :: p), (y :: k). split_and!; [done..|]. congruence.
Qed.
Lemma shared_spec k kvs :
  (∃ r, k = shared k kvs ++ r) ∧ ∀ k' v, (k', v) ∈ kvs → ∃ r, k' = shared k kvs ++ r.
Proof.
  induction kvs as [|[k1 v1] kvs [(r & Er) IH]]; simpl.
  - split; [exists []; by rewrite app_nil_r|by intros ? ? ?%not_elem_of_nil].
  - destruct (common_prefix (shared k kvs) k1) as (r1 & s1 & E1 & E2 & _). split.
    + exists (r1 ++ r). rewrite Er at 1. rewrite E1 at 1. by rewrite <-app_assoc.
    + intros k' v [[= -> ->]|Hin]%elem_of_cons; [by exists s1|].
      destruct (IH k' v Hin) as [r' ->]. exists (r1 ++ r'). rewrite E1 at 1. by rewrite <-app_assoc.
Qed.
(** Nothing longer is shared. *)
Lemma shared_longest k kvs x :
  ¬ ((∃ r, k = shared k kvs ++ x :: r) ∧
     ∀ k' v, (k', v) ∈ kvs → ∃ r, k' = shared k kvs ++ x :: r).
Proof.
  induction kvs as [|[k1 v1] kvs IH]; simpl.
  - intros [(r & E) _]. apply (f_equal length) in E. rewrite length_app in E. simpl in E. lia.
  - intros [(r & Er) Hall]. destruct (common_prefix (shared k kvs) k1) as (r1 & s1 & E1 & E2 & Hd).
    destruct (Hall k1 v1) as [s Es]; [by left|]. rewrite E2 in Es at 1.
    apply app_inv_head in Es as ->.
    destruct r1 as [|y r1].
    + rewrite app_nil_r in E1. apply IH. rewrite E1. split; [by exists r|].
      intros k' v Hin. apply (Hall k' v). by right.
    + destruct (decide (y = x)) as [->|Hne]; [by apply (Hd x r1 s)|].
      destruct (shared_spec k kvs) as [(r' & Er') _]. rewrite E1 in Er'.
      pose proof (eq_trans (eq_sym Er) Er') as E. rewrite <-app_assoc in E.
      apply app_inv_head in E. simpl in E. congruence.
Qed.
Lemma elem_of_below i kvs k v : (k, v) ∈ below i kvs ↔ (Z.of_nat i :: k, v) ∈ kvs.
Proof.
  unfold below. rewrite list_elem_of_omap. split.
  - intros ([[|x k'] v'] & Hin & E); simpl in E; [done|]. destruct (Z.eqb_spec x (Z.of_nat i)); [|done].
    by simplify_eq.
  - intros Hin. exists (Z.of_nat i :: k, v). split; [done|]. simpl. by rewrite Z.eqb_refl.
Qed.
Lemma elem_of_without p kvs k v :
  (∀ k' v', (k', v') ∈ kvs → ∃ r, k' = p ++ r) →
  (k, v) ∈ without (length p) kvs ↔ (p ++ k, v) ∈ kvs.
Proof.
  intros Hp. unfold without. rewrite list_elem_of_fmap. split.
  - intros ([k' v'] & [= -> ->] & Hin). destruct (Hp k' v' Hin) as [r ->].
    cbn [fst snd]. by rewrite drop_app_length.
  - intros Hin. exists (p ++ k, v). cbn [fst snd]. by rewrite drop_app_length.
Qed.

(** * The trie is well formed and holds the pairs *)
Definition keyed (d : nat) (kvs : pairs) : Prop := NoDup kvs.*1 ∧ ∀ k v, (k, v) ∈ kvs → is_key d k.
Definition holds (o : option trie) (kvs : pairs) : Prop := ∀ k v, olookup o k = Some v ↔ (k, v) ∈ kvs.

Lemma keyed_unique d kvs k v v' : keyed d kvs → (k, v) ∈ kvs → (k, v') ∈ kvs → v = v'.
Proof.
  intros [Hnd _]. induction kvs as [|[k1 v1] kvs IH]; [by intros ?%not_elem_of_nil|].
  apply NoDup_cons in Hnd as [Hn Hnd]. simpl in Hn.
  assert (∀ u, (k1, u) ∉ kvs) as Hn' by (intros u Hu; apply Hn, list_elem_of_fmap; by exists (k1, u)).
  intros [E1|H1]%elem_of_cons [E2|H2]%elem_of_cons.
  - congruence.
  - injection E1 as -> ->. by destruct (Hn' v').
  - injection E2 as -> ->. by destruct (Hn' v).
  - by apply IH.
Qed.
Lemma keyed_below i d kvs : (i < 16)%nat → (0 < d)%nat → keyed (S d) kvs → keyed d (below i kvs).
Proof.
  intros Hi Hd [Hnd Hk]. split.
  - clear Hk. induction kvs as [|[k v] kvs IH]; [constructor|]. apply NoDup_cons in Hnd as [Hn Hnd].
    specialize (IH Hnd). unfold below in *. simpl in *. destruct k as [|x k]; [done|].
    destruct (Z.eqb_spec x (Z.of_nat i)) as [->|]; [|done]. simpl. constructor; [|done].
    intros ([k' v'] & -> & Hin)%list_elem_of_fmap. apply Hn, list_elem_of_fmap.
    apply (elem_of_below i) in Hin. by exists (Z.of_nat i :: k', v').
  - intros k v Hin%elem_of_below. apply Hk in Hin. pose proof (is_key_length _ _ Hin) as Hl.
    destruct (is_key_inv (S d) [Z.of_nat i] k Hin) as [_ E]; [by destruct k; simpl in Hl; [lia|]|].
    simpl in E. by rewrite Nat.sub_0_r in E.
Qed.
Lemma keyed_without p d kvs :
  (∀ k v, (k, v) ∈ kvs → ∃ r, k = p ++ r ∧ r ≠ []) → keyed d kvs →
  keyed (d - length p) (without (length p) kvs).
Proof.
  intros Hp [Hnd Hk]. split.
  - clear Hk. induction kvs as [|[k v] kvs IH]; [constructor|]. apply NoDup_cons in Hnd as [Hn Hnd].
    simpl. constructor; [|apply IH; [|done]; intros; apply (Hp _ v0); by right].
    intros ([k' v'] & E & Hin)%list_elem_of_fmap. simpl in E.
    destruct (Hp k v) as (r & -> & _); [by left|]. rewrite drop_app_length in E. subst k'.
    apply elem_of_without in Hin.
    2:{ intros k' v0 Hin'. destruct (Hp k' v0) as (r' & -> & _); [by right|by exists r']. }
    apply Hn, list_elem_of_fmap. by exists (p ++ r, v').
  - intros k v Hin. apply elem_of_without in Hin.
    2:{ intros k' v0 Hin'. destruct (Hp k' v0 Hin') as (r' & -> & _). by exists r'. }
    destruct (Hp _ _ Hin) as (r & E & Hr). apply app_inv_head in E as ->.
    by apply is_key_inv; [apply (Hk _ v)|].
Qed.
Definition built (d : nat) (o : option trie) (kvs : pairs) : Prop := owf d o ∧ holds o kvs.

Lemma build_some fuel kvs : kvs ≠ [] → is_Some (build (S fuel) kvs).
Proof. by destruct kvs as [|[k v] [|]]. Qed.
(** The branch over pairs whose keys begin with more than one nibble. *)
Lemma branch_built d fuel kvs :
  (0 < d)%nat → keyed (S d) kvs → (∀ kvs, keyed d kvs → built d (build (S fuel) kvs) kvs) →
  (∃ x k v y k' v', x ≠ y ∧ (x :: k, v) ∈ kvs ∧ (y :: k', v') ∈ kvs) →
  built (S d) (Some (Branch (map (λ i, build (S fuel) (below i kvs)) (seq 0 16)))) kvs.
Proof.
  intros Hd Hk IH Htwo. set (ts := map _ _).
  assert (∀ i, (i < 16)%nat → ts !! i = Some (build (S fuel) (below i kvs))) as Hts.
  { intros i Hi. unfold ts. rewrite list_lookup_fmap, lookup_seq_lt by done. done. }
  assert (∀ i, (i < 16)%nat → built d (build (S fuel) (below i kvs)) (below i kvs)) as Hb.
  { intros i Hi. by apply IH, keyed_below. }
  assert (∀ x k v, (x :: k, v) ∈ kvs → is_nibble x) as Hx.
  { intros x k v Hin. pose proof (proj2 Hk _ _ Hin) as Hkey.
    destruct (is_key_inv _ [x] k Hkey) as [Hn _]; [|by inversion Hn].
    apply is_key_length in Hkey. by destruct k; simpl in Hkey; [lia|]. }
  assert (length ts = 16%nat) as Hl by done. split.
  - constructor; [done| |].
    + destruct Htwo as (x & k & v & y & k' & v' & Hne & H1 & H2).
      destruct (nibble_index x (Hx _ _ _ H1)) as [Hi Ei], (nibble_index y (Hx _ _ _ H2)) as [Hj Ej].
      rewrite <-Ei in H1. rewrite <-Ej in H2.
      apply elem_of_below in H1. apply elem_of_below in H2.
      destruct (build_some fuel (below (Z.to_nat x) kvs)) as [t Et].
      { intros E. rewrite E in H1. by apply not_elem_of_nil in H1. }
      destruct (build_some fuel (below (Z.to_nat y) kvs)) as [u Eu].
      { intros E. rewrite E in H2. by apply not_elem_of_nil in H2. }
      exists (Z.to_nat x), (Z.to_nat y), t, u. rewrite !Hts, Et, Eu by done. split_and!; [lia|done..].
    + intros i t Hi. assert (i < 16)%nat as Hlt by (rewrite <-Hl; by eapply lookup_lt_Some).
      rewrite Hts in Hi by done. destruct (Hb i Hlt) as [Hw _]. by simplify_eq; rewrite Hi in Hw.
  - intros [|x k] v.
    + split; [done|]. intros Hin. apply (proj2 Hk) in Hin. by apply is_key_length in Hin.
    + cbn [olookup mbind option_bind]. rewrite tlookup_branch. split.
      * unfold pick. destruct (Z.leb_spec 0 x) as [H0|]; [|done]. intros E.
        assert (Z.to_nat x < 16)%nat as Hi.
        { destruct (decide (Z.to_nat x < 16)%nat); [done|]. unfold child in E.
          by rewrite lookup_ge_None_2 in E by lia. }
        unfold child in E. rewrite Hts in E by done. cbn [default] in E.
        apply (proj2 (Hb _ Hi)), elem_of_below in E. by rewrite Z2Nat.id in E.
      * intros Hin. destruct (nibble_index x (Hx _ _ _ Hin)) as [Hi Ei].
        rewrite pick_nibble by by eapply Hx. unfold child. rewrite Hts by done. cbn [default].
        apply (proj2 (Hb _ Hi)), elem_of_below. by rewrite Ei.
Qed.

(** What two keys share is shorter than either. *)
Lemma shared_short d k v k2 v2 rest :
  keyed d ((k, v) :: (k2, v2) :: rest) →
  ∀ k' v', (k', v') ∈ (k, v) :: (k2, v2) :: rest →
    ∃ r, k' = shared k ((k2, v2) :: rest) ++ r ∧ r ≠ [].
Proof.
  intros [Hnd Hk] k' v' Hin. destruct (shared_spec k ((k2, v2) :: rest)) as [[r0 E0] Hall].
  set (p := shared k ((k2, v2) :: rest)) in *.
  assert (∀ k' v', (k', v') ∈ (k, v) :: (k2, v2) :: rest → ∃ r, k' = p ++ r ∧ length r = (d - length p)%nat)
    as Hp.
  { intros k1 v1 Hin1. pose proof (is_key_length _ _ (Hk _ _ Hin1)) as Hl.
    apply elem_of_cons in Hin1 as [[= -> ->]|Hin1].
    - exists r0. split; [done|]. rewrite E0, length_app in Hl. lia.
    - destruct (Hall _ _ Hin1) as [r ->]. exists r. rewrite length_app in Hl. split; [done|lia]. }
  destruct (Hp _ _ Hin) as (r & -> & Hr). exists r. split; [done|]. intros ->. simpl in Hr.
  destruct (Hp k v ltac:(by left)) as (r1 & E1 & L1), (Hp k2 v2 ltac:(right; by left)) as (r2 & E2 & L2).
  destruct r1, r2; simpl in *; try lia. apply NoDup_cons in Hnd as [Hn _]. apply Hn.
  rewrite app_nil_r in E1, E2. apply elem_of_cons. left. cbn [fst]. congruence.
Qed.
Lemma two_heads d k v rest :
  let p := shared k rest in
  let kvs := (k, v) :: rest in
  keyed d kvs → (∀ k' v', (k', v') ∈ kvs → ∃ r, k' = p ++ r ∧ r ≠ []) →
  ∃ x k v y k' v', x ≠ y ∧ (x :: k, v) ∈ without (length p) kvs ∧ (y :: k', v') ∈ without (length p) kvs.
Proof.
  intros p kvs Hk Hp.
  assert (∀ k v, (k, v) ∈ without (length p) kvs ↔ (p ++ k, v) ∈ kvs) as Hw.
  { intros. apply elem_of_without. intros k' v' Hin. destruct (Hp _ _ Hin) as (r & -> & _). by exists r. }
  destruct (Hp k v ltac:(by left)) as (r0 & E0 & Hr0). destruct r0 as [|x r0]; [done|].
  destruct (decide (Forall (λ kv, head (drop (length p) kv.1) = Some x) rest)) as [Hall|Hex].
  - exfalso. apply (shared_longest k rest x). fold p. split; [by exists r0|]. intros k' v' Hin.
    destruct (Hp k' v') as (r & -> & Hr); [by right|]. rewrite Forall_forall in Hall.
    specialize (Hall _ Hin). cbn [fst] in Hall. rewrite drop_app_length in Hall.
    destruct r as [|y r]; [done|]. injection Hall as ->. by exists r.
  - apply not_Forall_Exists in Hex; [|apply _]. apply Exists_exists in Hex as ([k' v'] & Hin & Hne).
    destruct (Hp k' v') as (r & -> & Hr); [by right|]. unfold compose in Hne. cbn [fst] in Hne.
    rewrite drop_app_length in Hne. destruct r as [|y r]; [done|].
    exists x, r0, v, y, r, v'. rewrite !Hw, <-E0. split_and!; [|by left|by right].
    intros ->. by apply Hne.
Qed.
(** A single trailing nibble is the terminator. *)
Lemma is_key_1 k : is_key 1 k → k = [16].
Proof. intros (l & -> & _ & Hl). by destruct l. Qed.

Lemma build_more fuel k v k2 v2 rest :
  build (S fuel) ((k, v) :: (k2, v2) :: rest) =
  let kvs := (k, v) :: (k2, v2) :: rest in
  let p := shared k ((k2, v2) :: rest) in
  let b := Branch (map (λ i, build fuel (below i (without (length p) kvs))) (seq 0 16)) in
  Some (match p with [] => b | _ => Ext p b end).
Proof. done. Qed.
(** The pairs behind what they share: keys of at least two more nibbles. *)
Lemma more_keyed d k v k2 v2 rest :
  let p := shared k ((k2, v2) :: rest) in
  let kvs := (k, v) :: (k2, v2) :: rest in
  keyed d kvs → is_nibbles p ∧ ∃ n, (0 < n)%nat ∧ d = (length p + S n)%nat ∧
    keyed (S n) (without (length p) kvs).
Proof.
  intros p kvs Hk. pose proof (shared_short _ _ _ _ _ _ Hk) as Hp. fold p kvs in Hp.
  pose proof (keyed_without p d kvs Hp Hk) as Hw.
  destruct (Hp k v ltac:(by left)) as (r & Er & Hr).
  assert (is_key d (p ++ r)) as Hkr by (rewrite <-Er; apply (proj2 Hk k v); by left).
  destruct (is_key_inv _ _ _ Hkr Hr) as [Hn Hd]. split; [done|].
  destruct (two_heads d k v ((k2, v2) :: rest) Hk Hp) as (x & k1 & v1 & y & k3 & v3 & Hne & H1 & H2).
  fold p kvs in H1, H2. apply is_key_length in Hkr. rewrite length_app in Hkr.
  destruct r as [|r0 r]; [done|]. simpl in Hkr. pose proof (proj2 Hw _ _ H1) as K1.
  pose proof (proj2 Hw _ _ H2) as K2.
  exists (d - length p - 1)%nat. assert (S (d - length p - 1) = (d - length p)%nat) as -> by lia.
  split_and!; [|lia|done].
  destruct (decide (d - length p = 1)%nat) as [E|]; [|lia]. rewrite E in K1, K2.
  apply is_key_1 in K1, K2. congruence.
Qed.
Lemma ext_built d p b kvs :
  is_nibbles p → is_branch b = true →
  (∀ k v, (k, v) ∈ kvs → ∃ r, k = p ++ r ∧ r ≠ []) →
  built d (Some b) (without (length p) kvs) →
  built (length p + d) (Some (match p with [] => b | _ => Ext p b end)) kvs.
Proof.
  intros Hn Hb Hp [Hwf Hh].
  assert (∀ k v, (k, v) ∈ without (length p) kvs ↔ (p ++ k, v) ∈ kvs) as Hw.
  { intros. apply elem_of_without. intros k' v' Hin. destruct (Hp _ _ Hin) as (r & -> & _). by exists r. }
  unfold holds in Hh. setoid_rewrite Hw in Hh. clear Hw.
  destruct b as [| |ts]; [done..|]. destruct p as [|x p]; [done|]. remember (x :: p) as q eqn:Eq. split.
  - constructor; [done|by subst q|done].
  - intros k v. specialize (Hh (default [] (strip q k)) v). cbn [olookup mbind option_bind] in *.
    rewrite tlookup_ext. destruct (strip q k) as [r|] eqn:Es; cbn [default id option_bind mbind] in *.
    + apply strip_Some in Es as ->. done.
    + split; [done|]. intros Hin. destruct (Hp k v Hin) as (r & -> & _).
      by rewrite strip_app in Es.
Qed.
Theorem build_spec fuel : ∀ d kvs, keyed d kvs → (d <= S fuel)%nat → built d (build (S fuel) kvs) kvs.
Proof.
  induction fuel as [|fuel IH]; intros d kvs Hk Hd.
  all: destruct kvs as [|[k v] [|[k2 v2] rest]];
    [by split; [|intros k v; split; [|intros ?%not_elem_of_nil]]| |].
  1,3: split; [constructor; apply (proj2 Hk k v); by left|]; intros k' v';
    cbn [build olookup mbind option_bind]; rewrite tlookup_leaf, list_elem_of_singleton;
    case_bool_decide; split; congruence.
  all: destruct (more_keyed _ _ _ _ _ _ Hk) as (Hp & n & Hn & -> & Hw); [idtac].
  { lia. }
  pose proof (shared_short _ _ _ _ _ _ Hk) as Hs.
  pose proof (two_heads _ _ _ _ Hk Hs) as Htwo. rewrite build_more. cbv zeta.
  apply ext_built; [done|done|done|].
  apply (branch_built n fuel); [done|done| |done]. intros kvs' Hk'. apply IH; [done|lia].
Qed.

Lemma holds_unique d o o' kvs : owf d o → holds o kvs → built d o' kvs → o = o'.
Proof.
  intros Hw Hh [Hw' Hh']. apply (owf_canonical d); [done|done|]. intros k.
  apply option_eq. intros v. by rewrite (Hh k v), (Hh' k v).
Qed.

(** * The trie of a map *)
Definition hash_key (k : bytes) : Prop := length k = HashLength ∧ is_bytes k.
Definition hash_keys (m : gmap bytes bytes) : Prop := ∀ k, is_Some (m !! k) → hash_key k.

Lemma hash_keys_insert m k s : hash_keys m → hash_key k → hash_keys (<[k := s]> m).
Proof. intros Hm Hk k' [<-|[_ H]]%lookup_insert_is_Some; [done|by apply Hm]. Qed.
Lemma hash_keys_delete m k : hash_keys m → hash_keys (delete k m).
Proof. intros Hm k' [_ H]%lookup_delete_is_Some. by apply Hm. Qed.

Lemma hash_key_hex k : hash_key k → ∃ l, keybytesToHex k = l ++ [16] ∧ is_nibbles l ∧
  length l = MaxDepth ∧ pack l = k.
Proof.
  intros [Hl Hb]. destruct (keybytes_nibbles k Hb) as (l & E & Hn & Hlen & Hp). exists l.
  rewrite Hl in Hlen. by split_and!.
Qed.
Lemma hash_key_is_key k : hash_key k → is_key HexKeyLen (keybytesToHex k).
Proof.
  intros (l & E & Hn & Hl & _)%hash_key_hex. exists l. rewrite Hl. by split_and!.
Qed.
Lemma is_key_hash_key x : is_key HexKeyLen x → ∃ k, hash_key k ∧ x = keybytesToHex k.
Proof.
  intros (l & -> & Hn & Hl). assert (length l = (2 * 32)%nat) as Hl' by (unfold HexKeyLen in Hl; lia).
  exists (pack l). split; [split|].
  - by apply length_pack.
  - by apply (is_bytes_pack 32).
  - by rewrite (pack_hex 32).
Qed.
Lemma hex_inj k k' : hash_key k → hash_key k' → keybytesToHex k = keybytesToHex k' → k = k'.
Proof.
  intros (l & E & _ & _ & <-)%hash_key_hex (l' & E' & _ & _ & <-)%hash_key_hex EE.
  rewrite E, E' in EE. by apply app_inv_tail in EE as ->.
Qed.

Lemma elem_of_hex_pairs m x s :
  (x, s) ∈ hex_pairs m ↔ ∃ k, x = keybytesToHex k ∧ m !! k = Some s.
Proof.
  unfold hex_pairs. rewrite list_elem_of_fmap. split.
  - intros ([k v] & [= -> ->] & Hin). apply elem_of_map_to_list in Hin. by exists k.
  - intros (k & -> & Hk). exists (k, s). split; [done|]. by apply elem_of_map_to_list.
Qed.
Lemma hex_pairs_keyed m : hash_keys m → keyed HexKeyLen (hex_pairs m).
Proof.
  intros Hm. split.
  - unfold hex_pairs. rewrite <-list_fmap_compose.
    pose proof (NoDup_fst_map_to_list m) as Hnd.
    assert (∀ k v, (k, v) ∈ map_to_list m → hash_key k) as Hk.
    { intros k v Hin%elem_of_map_to_list. apply Hm. by exists v. }
    induction (map_to_list m) as [|[k v] l IH]; [constructor|]. apply NoDup_cons in Hnd as [Hn Hnd].
    simpl. constructor; [|apply IH; [done|]; intros k' v' Hin; apply (Hk k' v'); by right].
    intros ([k' v'] & E & Hin)%list_elem_of_fmap. cbn [compose fst] in E.
    apply hex_inj in E as ->; [|apply (Hk k v); by left|apply (Hk k' v'); by right].
    apply Hn, list_elem_of_fmap. by exists (k', v').
  - intros x s (k & -> & Hk)%elem_of_hex_pairs. apply hash_key_is_key, Hm. by exists s.
Qed.
Lemma mpt_built m : hash_keys m → built HexKeyLen (mpt m) (hex_pairs m).
Proof. intros Hm. unfold mpt, HexKeyLen. apply (build_spec 64); [by apply hex_pairs_keyed|done]. Qed.
Lemma mpt_wf m : hash_keys m → owf HexKeyLen (mpt m).
Proof. by intros [? _]%mpt_built. Qed.
Lemma mpt_lookup m k : hash_keys m → hash_key k → olookup (mpt m) (keybytesToHex k) = m !! k.
Proof.
  intros Hm Hk. apply option_eq. intros s. destruct (mpt_built m Hm) as [_ Hh].
  rewrite (Hh _ _), elem_of_hex_pairs. split; [|by exists k].
  intros (k' & E & Hk'). apply hex_inj in E as ->; [done|done|]. apply Hm. by exists s.
Qed.
Lemma olookup_is_key d o x s : owf d o → olookup o x = Some s → is_key d x.
Proof. destruct o as [t|]; [|done]. apply tlookup_is_key. Qed.
(** From here on [mpt] is unfolded last: the fuel is a number. *)
#[global] Strategy 100 [mpt].
(** The trie is determined by the values under the 32-byte keys. *)
Lemma mpt_unique m o :
  hash_keys m → owf HexKeyLen o →
  (∀ k, hash_key k → olookup o (keybytesToHex k) = m !! k) → o = mpt m.
Proof.
  intros Hm Hw Ho. apply (owf_canonical HexKeyLen); [done|by apply mpt_wf|]. intros x.
  assert (∀ s, olookup o x = Some s ∨ olookup (mpt m) x = Some s → olookup o x = olookup (mpt m) x)
    as Hx.
  { intros s Hs. assert (is_key HexKeyLen x) as Hk.
    { destruct Hs as [Hs|Hs]; (eapply olookup_is_key; [|exact Hs]); [done|by apply mpt_wf]. }
    apply is_key_hash_key in Hk as (k & Hk & ->). by rewrite Ho, mpt_lookup. }
  destruct (olookup o x) as [s|] eqn:E1; [by apply (Hx s); left|].
  destruct (olookup (mpt m) x) as [s|] eqn:E2; [by apply (Hx s); right|done].
Qed.
Lemma mpt_insert_upd m k s o :
  hash_keys m → hash_key k → owf HexKeyLen o →
  upd o (mpt m) (keybytesToHex k) (Some s) → o = mpt (<[k := s]> m).
Proof.
  intros Hm Hk Hw Hu. apply mpt_unique; [by apply hash_keys_insert|done|]. intros k' Hk'.
  rewrite (Hu _). case_bool_decide as E.
  - apply hex_inj in E as ->; [|done..]. by rewrite lookup_insert_eq.
  - rewrite lookup_insert_ne by congruence. by apply mpt_lookup.
Qed.
Lemma mpt_delete_upd m k o :
  hash_keys m → hash_key k → owf HexKeyLen o →
  upd o (mpt m) (keybytesToHex k) None → o = mpt (delete k m).
Proof.
  intros Hm Hk Hw Hu. apply mpt_unique; [by apply hash_keys_delete|done|]. intros k' Hk'.
  rewrite (Hu _). case_bool_decide as E.
  - apply hex_inj in E as ->; [|done..]. by rewrite lookup_delete_eq.
  - rewrite lookup_delete_ne by congruence. by apply mpt_lookup.
Qed.
