(* ===== verification/TrieRun.v ===== *)
(** Blocks of operations on a trie writer: what [Put], [Delete] and [Commit] do to the map the
    writer stands for, the hash a commit returns, and what the store holds after its writes. *)
From S2P Require Import Prelude Codec Rlp RlpEncoder Storage TrieEncoding Trie TrieMap TrieHash TrieRep TrieFacts TrieCommit TrieBuild.

(** * A store after a list of writes; an empty value is the absence of one *)
Definition apply_write (db : Input) (w : write) : Input :=
  match w with
  | PutValue k v =>
      {| GetValue := λ k', if bool_decide (k' = k) then match v with [] => None | _ => Some v end
                           else GetValue db k';
         GetNode := GetNode db |}
  | PutNode h b =>
      {| GetValue := GetValue db; GetNode := λ h', if bool_decide (h' = h) then Some b else GetNode db h' |}
  end.
Definition apply_writes (db : Input) (ws : list write) : Input := foldl apply_write db ws.
(** No node is put under a hash that other bytes have: what a collision-free hash promises. *)
Definition nodes_agree (db : Input) (ws : list write) : Prop :=
  ∀ h b b', PutNode h b ∈ ws → GetNode db h = Some b' ∨ PutNode h b' ∈ ws → b = b'.

Section stores.
Implicit Types (db : Input) (ws : list write).

Lemma apply_writes_snoc db ws w : apply_writes db (ws ++ [w]) = apply_write (apply_writes db ws) w.
Proof. unfold apply_writes. by rewrite foldl_app. Qed.
Lemma apply_writes_node db ws h b :
  nodes_agree db ws → GetNode db h = Some b ∨ PutNode h b ∈ ws →
  GetNode (apply_writes db ws) h = Some b.
Proof.
  intros Ha Hb.
  assert (∀ ws', (∀ b', PutNode h b' ∈ ws' → b' = b) → GetNode db h = Some b ∨ PutNode h b ∈ ws' →
    GetNode (apply_writes db ws') h = Some b) as Hx.
  2:{ apply Hx; [|done]. intros b' Hin. by apply (Ha h b' b). }
  clear Ha Hb. intros ws'. induction ws' as [|w ws' IH] using rev_ind; intros Hu Hb.
  { destruct Hb as [Hb|Hb]; [done|]. by apply not_elem_of_nil in Hb. }
  rewrite apply_writes_snoc. setoid_rewrite elem_of_app in Hu. setoid_rewrite list_elem_of_singleton in Hu.
  rewrite elem_of_app, list_elem_of_singleton in Hb. destruct w as [k v|h' b']; simpl.
  - apply IH; [auto|]. destruct Hb as [?|[?|?]]; [by left|by right|done].
  - case_bool_decide as E; [subst h'; f_equal; auto|]. apply IH; [auto|].
    destruct Hb as [?|[?|?]]; [by left|by right|congruence].
Qed.
Lemma apply_writes_value db ws k s :
  s ≠ [] → (∀ s', PutValue k s' ∈ ws → s' = s) → GetValue db k = Some s ∨ PutValue k s ∈ ws →
  GetValue (apply_writes db ws) k = Some s.
Proof.
  intros Hs. induction ws as [|w ws IH] using rev_ind; intros Hu Hb.
  { destruct Hb as [Hb|Hb]; [done|]. by apply not_elem_of_nil in Hb. }
  rewrite apply_writes_snoc. setoid_rewrite elem_of_app in Hu. setoid_rewrite list_elem_of_singleton in Hu.
  rewrite elem_of_app, list_elem_of_singleton in Hb. destruct w as [k' v|h b]; simpl.
  - case_bool_decide as E.
    + subst k'. rewrite (Hu v) by auto. by destruct s.
    + apply IH; [auto|]. destruct Hb as [?|[?|?]]; [by left|by right|congruence].
  - apply IH; [auto|]. destruct Hb as [?|[?|?]]; [by left|by right|done].
Qed.
Lemma apply_writes_other db ws k :
  (∀ s, PutValue k s ∉ ws) → GetValue (apply_writes db ws) k = GetValue db k.
Proof.
  induction ws as [|w ws IH] using rev_ind; intros Hu; [done|].
  rewrite apply_writes_snoc. setoid_rewrite not_elem_of_app in Hu.
  destruct w as [k' v|h b]; simpl; [|by apply IH; intros s; apply Hu].
  case_bool_decide as E; [|by apply IH; intros s; apply Hu].
  subst k'. destruct (Hu v) as [_ Hn]. by destruct Hn; apply list_elem_of_singleton.
Qed.
Lemma apply_writes_app db ws1 ws2 :
  apply_writes db (ws1 ++ ws2) = apply_writes (apply_writes db ws1) ws2.
Proof. unfold apply_writes. by rewrite foldl_app. Qed.
Lemma apply_writes_node_from db ws h b :
  GetNode (apply_writes db ws) h = Some b → GetNode db h = Some b ∨ PutNode h b ∈ ws.
Proof.
  induction ws as [|w ws IH] using rev_ind; [by left|].
  rewrite apply_writes_snoc, elem_of_app, list_elem_of_singleton. destruct w as [k v|h' b']; simpl.
  - intros [?|?]%IH; auto.
  - case_bool_decide as E; [|intros [?|?]%IH; auto]. intros [= <-]. subst h'. by right; right.
Qed.
End stores.

(** * Operations between two commits *)
Inductive trie_op (V : Type) : Type :=
| OpPut (k : hash) (v : V)
| OpDelete (k : hash).
Arguments OpPut {_} _ _.
Arguments OpDelete {_} _.

Section run.
Context `{Keccak} `{Schema} {V : Type} `{!TrieValue V}.
Context (Hhash : ∀ b, length (keccak b) = HashLength).
Context (Hmax : MaxValueSizeToStoreInTrie < Z.of_nat HashLength).
(** [L] bounds the hashed encodings of the values: 2^32 bytes, less what the trie adds. *)
Context (L : Z) (HL : 0 <= L <= 2 ^ 31).

Definition run_op (db_tx : Input) (op : trie_op V) : M (writer_state V) unit :=
  match op with OpPut k v => Put db_tx k v | OpDelete k => Delete db_tx k end.
Fixpoint run_ops (db_tx : Input) (ops : list (trie_op V)) : M (writer_state V) unit :=
  match ops with [] => mret tt | op :: ops => run_op db_tx op ;; run_ops db_tx ops end.

(** The map behind it: a value is its storage encoding. *)
Definition map_op (op : trie_op V) (m : gmap bytes bytes) : gmap bytes bytes :=
  match op with OpPut k v => <[k := (EncodeForTrie v).1]> m | OpDelete k => delete k m end.
Definition map_ops (ops : list (trie_op V)) (m : gmap bytes bytes) : gmap bytes bytes :=
  foldl (λ m op, map_op op m) m ops.
(** What is written at once: the removal of a value that is there. *)
Definition op_writes (op : trie_op V) (m : gmap bytes bytes) : list write :=
  match op with
  | OpDelete k => if m !! k is Some _ then [PutValue k []] else []
  | OpPut _ _ => []
  end.
Fixpoint ops_writes (ops : list (trie_op V)) (m : gmap bytes bytes) : list write :=
  match ops with [] => [] | op :: ops => op_writes op m ++ ops_writes ops (map_op op m) end.
(** The values a client may put. *)
Definition value_ok (s : bytes) : Prop := storable s ∧ blen (hash_value s) <= L.
Definition op_ok (op : trie_op V) : Prop :=
  match op with
  | OpPut k v => hash_key k ∧ value_ok (EncodeForTrie v).1 ∧
                 (EncodeForTrie v).2 = hash_value (EncodeForTrie v).1
  | OpDelete k => hash_key k
  end.
Definition map_ok (m : gmap bytes bytes) : Prop :=
  hash_keys m ∧ ∀ k s, m !! k = Some s → value_ok s.

(** The values of the store that nothing written since has changed. *)
Definition clean_in (db : Input) (log : list write) (key s : bytes) : Prop :=
  ∃ k, key = keybytesToHex k ∧ hash_key k ∧ GetValue db k = Some s ∧ ∀ s', PutValue k s' ∉ log.
(** What the store must hold for a writer to be opened at the root of [m]. *)
Definition stores_map (db : Input) (m : gmap bytes bytes) : Prop :=
  match mpt m with
  | Some t => stored db (clean_in db []) [] t ∧ GetNode db (trie_hash t) = Some (entry t)
  | None => True
  end.
(** The writer stands for [m]; a root that has a hash is the root of the store; under a key that
    has no value nothing is left to read. *)
Record models (db : Input) (w : writer_state V) (m : gmap bytes bytes) : Prop := {
  models_ok : map_ok m;
  models_root : orep db (clean_in db (written w)) [] (root (the_writer w)) (mpt m);
  models_hash : has_hash (root (the_writer w)) = true → written w = [] ∧ stores_map db m;
  models_gone : ∀ k, hash_key k → m !! k = None → GetValue (apply_writes db (written w)) k = None
}.

Lemma clean_in_read db log l s :
  is_nibbles l → length l = MaxDepth → clean_in db log (l ++ [16]) s → GetValue db (pack l) = Some s.
Proof.
  intros Hl Hlen (k & E & Hk & Hg & _). destruct (hash_key_hex k Hk) as (l' & E' & _ & _ & <-).
  rewrite E' in E. by apply app_inv_tail in E as ->.
Qed.
(** Only the values the trie holds matter. *)
Lemma stored_restrict db (clean clean' : bytes → bytes → Prop) pre t :
  (∀ k s, tlookup t k = Some s → clean (pre ++ k) s → clean' (pre ++ k) s) →
  stored db clean pre t → stored db clean' pre t.
Proof.
  intros Hc Hst. induction Hst as [pre k s Hk Hs|pre p t _ IH|pre ts _ IH Hget].
  - constructor; [|done]. apply Hc; [|done]. by rewrite tlookup_leaf, bool_decide_true.
  - constructor. apply IH. intros k s Ek Hk. rewrite <-app_assoc in *. apply Hc; [|done].
    by rewrite tlookup_ext, strip_app.
  - constructor; [|done]. intros i t Hi. apply (IH i t Hi). intros k s Ek Hk.
    rewrite <-app_assoc in *. apply Hc; [|done]. cbn [app]. rewrite tlookup_branch, pick_index.
    apply child_some in Hi. by rewrite Hi.
Qed.
Lemma rep_restrict db (clean clean' : bytes → bytes → Prop) pre (n : node V) t :
  (∀ k s, tlookup t k = Some s → clean (pre ++ k) s → clean' (pre ++ k) s) →
  rep db clean pre n t → rep db clean' pre n t.
Proof.
  intros Hc Hrep. assert (∀ h pre t, (∀ k s, tlookup t k = Some s → clean (pre ++ k) s → clean' (pre ++ k) s) →
    hash_ok db clean pre h t → hash_ok db clean' pre h t) as Hok.
  { intros [h|] pre' t' Hc'; [|done]. intros (? & ? & ?). split_and!; [done..|].
    by eapply stored_restrict. }
  induction Hrep as [pre k v s h Hv Hh Hh'|pre k n t h Hr IH Hh Hh'|pre ns ts h Hns Hts Hnil Hr IH Hh
    |pre t Hst Hget Hroot].
  - constructor; [|by apply Hok|done]. destruct Hv as [Hs Hv]. split; [done|].
    assert (clean (pre ++ k) s → clean' (pre ++ k) s) as Hck.
    { apply Hc. by rewrite tlookup_leaf, bool_decide_true. }
    destruct v as [[|]|]; [|done|auto]. destruct Hv as (? & ? & ?). auto.
  - constructor; [|by apply Hok|done]. apply IH. intros k' s Ek Hk. rewrite <-app_assoc in *.
    apply Hc; [|done]. by rewrite tlookup_ext, strip_app.
  - constructor; try done; [|by apply Hok]. intros i n t Hn Hi. apply (IH i n t Hn Hi). intros k s Ek Hk.
    rewrite <-app_assoc in *. apply Hc; [|done]. cbn [app]. rewrite tlookup_branch, pick_index.
    apply child_some in Hi. by rewrite Hi.
  - constructor; [by eapply stored_restrict|done..].
Qed.

Lemma map_ok_op op m : op_ok op → map_ok m → map_ok (map_op op m).
Proof.
  destruct op as [k v|k]; simpl.
  - intros (Hk & Hv & _) [Hm Hs]. split; [by apply hash_keys_insert|].
    intros k' s [[-> <-]|[_ E]]%lookup_insert_Some; [done|by eapply Hs].
  - intros Hk [Hm Hs]. split; [by apply hash_keys_delete|].
    intros k' s [_ E]%lookup_delete_Some. by eapply Hs.
Qed.
Lemma fresh_no_hash (n : node V) : fresh n = true → has_hash n = false.
Proof. by destruct n as [|? [|]|? [| | | |[|]] [|]| |]. Qed.

Definition same_levels (w w' : writer_state V) : Prop :=
  FullNodeLevelsToCache (the_writer w') = FullNodeLevelsToCache (the_writer w).
Lemma put_models db w m k v :
  op_ok (OpPut k v) → models db w m →
  ∃ w', Put db k v w = (Ret tt, w') ∧ models db w' (<[k := (EncodeForTrie v).1]> m) ∧
    written w' = written w ∧ same_levels w w'.
Proof.
  intros (Hk & [Hst Hle] & Ee) [Hok Hr Hh Hg].
  assert (EncodeForTrie v = ((EncodeForTrie v).1, hash_value (EncodeForTrie v).1)) as Hv.
  { rewrite <-Ee. by destruct (EncodeForTrie v). }
  destruct (insert_spec db (clean_in db (written w)) Hhash Hmax (clean_in_read db (written w)) v
    (EncodeForTrie v).1 Hv Hst trie_fuel HexKeyLen [] (keybytesToHex k) (root (the_writer w)) (mpt m) w)
    as (n' & t' & E & Hr' & Hw' & Hu & Hf & _); try done.
  { by apply hash_key_is_key. }
  { by apply mpt_wf, Hok. }
  { apply enough_any. }
  cbn [app length] in E. unfold Put, mbind, M_bind, get_root. cbv beta iota.
  change (Z.of_nat 0) with 0 in E. rewrite E. eexists. split; [done|].
  split; [|done]. assert (Some t' = mpt (<[k := (EncodeForTrie v).1]> m)) as Et.
  { apply mpt_insert_upd; [apply Hok|done|done|done]. }
  constructor; simpl.
  - apply (map_ok_op (OpPut k v)); [by split_and!|done].
  - by rewrite <-Et.
  - by rewrite (fresh_no_hash _ Hf).
  - intros k' Hk' [Hn _]%lookup_insert_None. by apply Hg.
Qed.

(** A key that is not found leaves no root hash that was not there. *)
Lemma not_found_hash {St} db kb fuel (n : node V) pos (st st' : St) n' :
  mpt_del db kb fuel n pos st = (Ret (NotFound n'), st') → has_hash n' = true → has_hash n = true.
Proof.
  destruct fuel as [|fuel]; [done|]. destruct n as [|children h|kp val h|h|v]; cbn [mpt_del].
  - by intros [= <- _].
  - intros (a & s1 & _ & E)%bind_ret_inv. apply bind_ret_inv in E as (c & s2 & _ & E).
    apply bind_ret_inv in E as ([d|c'] & s3 & _ & E).
    + destruct (_ =? -1); apply bind_ret_inv in E as (o & s4 & _ & E); [done|].
      apply bind_ret_inv in E as ([| |kp val h'| |] & s5 & _ & E); try done.
      by apply bind_ret_inv in E as (? & ? & _ & E).
    + apply bind_ret_inv in E as (cs & s4 & _ & [= <- _]). done.
  - destruct (negb _); [by intros [= <- _]|]. destruct (_ =? _)%nat; [done|].
    intros ([d|c'] & s1 & _ & E)%bind_ret_inv; [by destruct d|]. injection E as <- _. done.
  - done.
  - done.
Qed.
Lemma delete_root {St} db log x o v fuel (n : node V) (st : St) :
  is_key HexKeyLen x → owf HexKeyLen o → olookup o x = v → orep db (clean_in db log) [] n o →
  (2 * HexKeyLen + 2 <= fuel)%nat →
  match v with
  | None => ∃ n', mpt_del db x fuel n 0 st = (Ret (NotFound n'), st) ∧
      orep db (clean_in db log) [] n' o
  | Some _ => ∃ n' o', mpt_del db x fuel n 0 st = (Ret (Deleted n'), st) ∧
      orep db (clean_in db log) [] n' o' ∧ owf HexKeyLen o' ∧ upd o' o x None ∧ has_hash n' = false
  end.
Proof.
  intros Hk Hw <- Hr Hf. pose proof (enough_any HexKeyLen n) as He.
  pose proof (delete_spec db (clean_in db log) Hhash Hmax (clean_in_read db log) fuel HexKeyLen []
    x n o st (Forall_nil_2 _) eq_refl Hk Hw Hr (Nat.le_trans _ _ _ He Hf)) as Hd.
  unfold deletes in Hd. destruct (olookup o x) as [s|]; [|done].
  destruct Hd as (n' & o' & E & Hr' & Hw' & Hu & Hf' & _). exists n', o'. split_and!; [done..|].
  by apply fresh_no_hash.
Qed.
Lemma delete_models db w m k :
  hash_key k → models db w m →
  ∃ w', Delete db k w = (Ret tt, w') ∧ models db w' (delete k m) ∧
    written w' = written w ++ op_writes (OpDelete k) m ∧ same_levels w w'.
Proof.
  intros Hk [Hok Hr Hh Hgone].
  pose proof (delete_root db (written w) _ _ _ trie_fuel _ w (hash_key_is_key k Hk)
    (mpt_wf m (proj1 Hok)) (mpt_lookup m k (proj1 Hok) Hk) Hr (le_n _)) as Hd.
  unfold Delete, mbind, M_bind, get_root. cbv beta iota. cbn [op_writes].
  destruct (m !! k) as [s|] eqn:Em.
  - destruct Hd as (n' & o' & E & Hr' & Hw' & Hu & Hf). rewrite E. eexists. split; [done|].
    apply mpt_delete_upd in Hu; [|apply Hok|done..]. subst o'. split; [|done]. pose proof (map_ok_op (OpDelete k) m Hk Hok) as Hok'. constructor; [done| | |].
    + simpl. destruct (mpt (delete k m)) as [t|] eqn:Eo; [|done]. eapply rep_restrict; [|exact Hr'].
      intros x s' Ex (k' & E' & Hk' & Hg & Hn). exists k'. split_and!; [done..|].
      intros s0 [?|[= -> ->]%list_elem_of_singleton]%elem_of_app; [by apply (Hn s0)|].
      cbn [app] in E'. subst x. assert (olookup (mpt (delete k m)) (keybytesToHex k) = Some s') as El
        by by rewrite Eo. rewrite mpt_lookup, lookup_delete_eq in El; [done|apply Hok'|done].
    + cbn [the_writer root]. by rewrite Hf.
    + cbn [written]. intros k' Hk' Hn. rewrite apply_writes_snoc. simpl.
      case_bool_decide as E'; [done|]. apply Hgone; [done|]. by rewrite lookup_delete_ne in Hn.
  - destruct Hd as (n' & E & Hr'). rewrite E. rewrite delete_id by done. rewrite app_nil_r.
    eexists. split; [done|]. split; [|done]. constructor; [done|done| |done]. simpl. intros Hn.
    apply Hh. by eapply not_found_hash.
Qed.
Lemma run_op_models db w m op :
  op_ok op → models db w m →
  ∃ w', run_op db op w = (Ret tt, w') ∧ models db w' (map_op op m) ∧
    written w' = written w ++ op_writes op m ∧ same_levels w w'.
Proof.
  intros Hop Hm. destruct op as [k v|k]; cbn [run_op map_op].
  - destruct (put_models db w m k v Hop Hm) as (w' & E & Hm' & Hw & Hl). exists w'.
    cbn [op_writes]. rewrite app_nil_r. by split_and!.
  - by apply delete_models.
Qed.
Lemma run_ops_models db ops : ∀ w m,
  Forall op_ok ops → models db w m →
  ∃ w', run_ops db ops w = (Ret tt, w') ∧ models db w' (map_ops ops m) ∧
    written w' = written w ++ ops_writes ops m ∧ same_levels w w'.
Proof.
  induction ops as [|op ops IH]; intros w m Hok Hm.
  { exists w. cbn [ops_writes]. rewrite app_nil_r. by split_and!. }
  inversion Hok as [|? ? Hop Hops]; subst.
  destruct (run_op_models db w m op Hop Hm) as (w1 & E1 & Hm1 & Hw1 & Hl1).
  destruct (IH w1 (map_op op m) Hops Hm1) as (w2 & E2 & Hm2 & Hw2 & Hl2).
  exists w2. split_and!; [|done| |].
  - cbn [run_ops]. unfold mbind, M_bind. by rewrite E1.
  - rewrite Hw2, Hw1. cbn [ops_writes]. by rewrite app_assoc.
  - unfold same_levels in *. by rewrite Hl2.
Qed.

(** * Commit *)
(** What the store holds after the writes of a commit. *)
Lemma commit_keeps (db : Input) (log ws : list write) (t : trie) (m : gmap bytes bytes) :
  map_ok m → (∀ k s, hash_key k → tlookup t (keybytesToHex k) = Some s → m !! k = Some s) →
  puts [] t ws → nodes_agree db (log ++ ws) →
  let db' := apply_writes db (log ++ ws) in
  keeps db (λ x s, clean_in db log x s ∧ tlookup t x = Some s) db' (clean_in db' []) ∧
  sees db' (clean_in db' []) ws.
Proof.
  intros [Hkeys Hm] Ht Hp Ha db'.
  assert (∀ k s s', hash_key k → tlookup t (keybytesToHex k) = Some s → PutValue k s' ∈ ws → s' = s) as Hu.
  { intros k s s' Hk Ek (l & x & -> & Hl & Hlen & E & Ex)%Hp. cbn [app] in E. subst x.
    rewrite (pack_hex 32) in Ek by (done || unfold MaxDepth in *; lia). congruence. }
  assert (∀ k s, hash_key k → tlookup t (keybytesToHex k) = Some s →
    (GetValue db k = Some s ∧ ∀ s', PutValue k s' ∉ log) ∨ PutValue k s ∈ ws →
    clean_in db' [] (keybytesToHex k) s) as Hc.
  { intros k s Hk Ek Hor. exists k. split_and!; [done..| |by intros s' ?%not_elem_of_nil].
    unfold db'. rewrite apply_writes_app. apply apply_writes_value.
    - by apply (Hm k s (Ht k s Hk Ek)).
    - intros s'. by apply Hu.
    - destruct Hor as [[Hg Hn]|?]; [left|by right]. by rewrite apply_writes_other. }
  split; split.
  - intros h b Hg. apply apply_writes_node; auto.
  - intros x s [(k & -> & Hk & Hg & Hn) Ex]. apply Hc; auto.
  - intros h b Hin. apply apply_writes_node; [done|]. right. apply elem_of_app. by right.
  - intros l s Hl Hlen Hin. destruct (Hp _ _ Hin) as (l' & x & E & Hl' & Hlen' & Ex & El).
    apply (pack_inj 32) in E as <-; [|unfold MaxDepth in *; lia..|done|done]. cbn [app] in Ex. subst x.
    assert (length l = (2 * 32)%nat) as Hl32 by (unfold MaxDepth in *; lia).
    rewrite <-(pack_hex 32) in * by done. apply Hc; [|done|by right].
    split; [by apply length_pack|by apply (is_bytes_pack 32)].
Qed.
Definition flushed (w : writer_state V) : writer_state V := {| the_writer := the_writer w; written := [] |}.
Definition commits_map (db : Input) (w : writer_state V) (m : gmap bytes bytes)
    (r : outcome (option hash) * writer_state V) : Prop :=
  ∃ w' ws, r = (Ret (root_hash m), w') ∧ written w' = written w ++ ws ∧ same_levels w w' ∧
    (∀ k s, PutValue k s ∈ ws → hash_key k ∧ m !! k = Some s) ∧
    (nodes_agree db (written w') →
     let db' := apply_writes db (written w') in models db' (flushed w') m ∧ stores_map db' m).

Lemma get_hash_rep (n : node V) db clean pre t :
  rep db clean pre n t → get_hash n = Ret None ∨
    ∃ h, get_hash n = Ret (Some h) ∧ has_hash n = true ∧ (h = trie_hash t).
Proof.
  destruct 1 as [? ? ? ? [h|] ? Hok|? ? ? ? [h|] ? Hok|? ? ? [h|] ? ? ? ? Hok|]; try (by left);
    right; eexists; split_and!; try done; by destruct Hok.
Qed.
Lemma reset_ready : ready (need L HexKeyLen) {|
  enc_hash := {| encoder := encoder_nil; disabled := false |}; enc_storage := encoder_nil; writes := [] |}.
Proof.
  assert (valid encoder_nil ∧ need L HexKeyLen < room encoder_nil) as Hr; [|by split].
  split; [done|]. unfold need. change (room encoder_nil) with (2 ^ 32 - 1). unfold HexKeyLen. lia.
Qed.
Lemma commit_trie (db : Input) (w : writer_state V) (t : trie) (m : gmap bytes bytes) :
  map_ok m → wf HexKeyLen t →
  (∀ x s, tlookup t x = Some s → ∃ k, hash_key k ∧ x = keybytesToHex k ∧ m !! k = Some s) →
  rep db (clean_in db (written w)) [] (root (the_writer w)) t →
  get_hash (root (the_writer w)) = Ret None →
  ∃ w' ws, Commit w = (Ret (Some (trie_hash t)), w') ∧ written w' = written w ++ ws ∧
    same_levels w w' ∧ (∀ k s, PutValue k s ∈ ws → hash_key k ∧ m !! k = Some s) ∧
    (nodes_agree db (written w') →
     let db' := apply_writes db (written w') in
     rep db' (clean_in db' []) [] (root (the_writer w')) t ∧
     stored db' (clean_in db' []) [] t ∧ GetNode db' (trie_hash t) = Some (entry t)).
Proof.
  intros Hok Hwf Hlk Hr Hgh.
  set (clean := λ x s, clean_in db (written w) x s ∧ tlookup t x = Some s).
  assert (rep db clean [] (root (the_writer w)) t) as Hr'.
  { eapply rep_restrict; [|exact Hr]. by intros k s Ek Hc. }
  assert (small_values L t) as Hsv.
  { intros x s (k & _ & _ & Ek)%Hlk. by apply (proj2 Hok k s). }
  set (c0 := {| enc_hash := {| encoder := encoder_nil; disabled := false |};
                enc_storage := encoder_nil; writes := written w |}).
  assert (ready (need L HexKeyLen) c0) as Hrdy by apply reset_ready.
  destruct (commit_root Hhash Hmax db clean (FullNodeLevelsToCache (the_writer w)) L ltac:(lia)
    t _ c0 Hwf Hr' Hgh Hsv Hrdy eq_refl) as (n' & c' & ws & E & Ew & Eh & Hp & Hdb).
  exists {| the_writer := {| root := n'; FullNodeLevelsToCache := FullNodeLevelsToCache (the_writer w) |};
            written := writes c' |}, ws.
  split_and!; [|done|done| |].
  - unfold Commit, mbind, M_bind, get_root. cbv beta iota.
    destruct (root (the_writer w)) eqn:En; [by apply rep_not_nil in Hr| | | |exfalso; by eapply rep_not_value].
    all: unfold of_outcome; rewrite Hgh; cbv beta iota; unfold run_commit, mbind, M_bind;
      unfold commit_context_Reset; cbn [writes]; fold c0; rewrite E; cbv beta iota;
      unfold set_root; cbn [the_writer written root]; by rewrite Eh.
  - intros k s (l & x & E' & Hl & Hlen & Ex & El)%Hp. cbn [app] in Ex. subst x.
    apply Hlk in El as (k' & Hk' & Ek & Em). subst k.
    assert (hash_key (pack l)) as Hk.
    { split; [by apply length_pack|by apply (is_bytes_pack 32)]. }
    split; [done|].
    rewrite <-(pack_hex 32) in Ek by (done || unfold MaxDepth in *; lia).
    by apply hex_inj in Ek as ->.
  - cbn [written the_writer root]. rewrite Ew. cbn [c0 writes]. intros Ha.
    destruct (commit_keeps db (written w) ws t m Hok) as [Hkp Hse]; [|done|done|by apply Hdb].
    intros k s Hk (k' & Hk' & E' & Em)%Hlk. by apply hex_inj in E' as ->.
Qed.
Theorem commit_models db w m : models db w m → commits_map db w m (Commit w).
Proof.
  intros Hm. pose proof Hm as [Hok Hr Hh Hgone]. pose proof (mpt_wf m (proj1 Hok)) as Hwf.
  assert (∀ x s, olookup (mpt m) x = Some s → ∃ k, hash_key k ∧ x = keybytesToHex k ∧ m !! k = Some s)
    as Hlk.
  { intros x s E. destruct (is_key_hash_key x) as (k & Hk & ->); [by eapply olookup_is_key|].
    exists k. by rewrite mpt_lookup in E by (done || apply Hok). }
  unfold commits_map, root_hash.
  destruct (mpt m) as [t|] eqn:Em; simpl in Hr, Hwf, Hlk; cbn [fmap option_fmap option_map].
  2:{ exists w, []. unfold Commit, mbind, M_bind, get_root. rewrite Hr.
      split_and!; [done|by rewrite app_nil_r|done|by intros k s ?%not_elem_of_nil|]. intros _. unfold stores_map. rewrite Em.
      split; [|done]. constructor; [done|by rewrite Em|simpl; by rewrite Hr|done]. }
  destruct (get_hash_rep _ _ _ _ _ Hr) as [Hn|(h & Eh & Hhas & ->)].
  - destruct (commit_trie db w t m Hok Hwf Hlk Hr Hn) as (w' & ws & E & Ew & Hl & Hput & Hdb).
    exists w', ws. split_and!; [done..|]. intros Ha. destruct (Hdb Ha) as (Hr' & Hst & Hg).
    set (db' := apply_writes db (written w')) in *.
    assert (stores_map db' m) as Hs by (unfold stores_map; by rewrite Em).
    split; [|done]. constructor; [done|by rewrite Em|done|]. intros k Hk Hmk. cbn [flushed written].
    change (GetValue (apply_writes db (written w')) k = None). rewrite Ew, apply_writes_app.
    rewrite apply_writes_other by (intros s Hin; apply Hput in Hin as [_ ?]; congruence). auto.
  - destruct (Hh Hhas) as [Hw Hs]. exists w, []. split_and!.
    + unfold Commit, mbind, M_bind, get_root. destruct (root (the_writer w)) eqn:En; try done.
      all: unfold of_outcome; by rewrite Eh.
    + by rewrite app_nil_r.
    + done.
    + by intros k s ?%not_elem_of_nil.
    + rewrite Hw in *. intros _. split; [|done]. constructor; [done| |done|done].
      by rewrite Em.
Qed.

(** * Stores, writers and blocks *)
(** The store holds the trie of [m] and, under every key, its value. *)
Record store_ok (db : Input) (m : gmap bytes bytes) : Prop := {
  store_map_ok : map_ok m;
  store_trie : stores_map db m;
  store_values : ∀ k, hash_key k → GetValue db k = m !! k
}.
Lemma stored_values db pre t k s :
  stored db (clean_in db []) pre t → tlookup t k = Some s → clean_in db [] (pre ++ k) s.
Proof.
  intros Hst. revert k s. induction Hst as [pre k0 s0 Hc _|pre p t _ IH|pre ts _ IH _]; intros k s E.
  - rewrite tlookup_leaf in E. case_bool_decide; by simplify_eq.
  - rewrite tlookup_ext in E. destruct (strip p k) as [r|] eqn:Es; [|done].
    apply strip_Some in Es as ->. rewrite app_assoc. by apply IH.
  - rewrite tlookup_branch in E. destruct k as [|x k]; [done|]. unfold olookup, pick in E.
    destruct (Z.leb_spec 0 x) as [Hx|]; [|done].
    destruct (child ts (Z.to_nat x)) as [t|] eqn:Ec; [|done]. apply child_some in Ec.
    specialize (IH _ _ Ec k s E). rewrite <-app_assoc in IH. by rewrite Z2Nat.id in IH.
Qed.
Lemma models_store db w m :
  models db w m → written w = [] → stores_map db m → store_ok db m.
Proof.
  intros [Hok _ _ Hgone] Hw Hs. constructor; [done..|]. intros k Hk. rewrite Hw in Hgone.
  destruct (m !! k) as [s|] eqn:E; [|by apply Hgone].
  rewrite <-(mpt_lookup m k (proj1 Hok) Hk) in E. unfold stores_map in Hs.
  destruct (mpt m) as [t|]; [|done]. destruct Hs as [Hst _].
  destruct (stored_values _ _ _ _ _ Hst E) as (k' & E' & Hk' & Hg & _). by apply hex_inj in E' as ->.
Qed.
(** A writer opened at the root of the store. *)
Definition opened_at (m : gmap bytes bytes) (levels : Z) : writer_state V :=
  {| the_writer := {| root := match root_hash m with Some h => node_hash h | None => nil_node end;
                      FullNodeLevelsToCache := levels |};
     written := [] |}.
Lemma opened_models db m levels : store_ok db m → models db (opened_at m levels) m.
Proof.
  intros [Hok Hs Hv]. constructor; [done| |done|].
  - unfold opened_at, root_hash, stores_map in *. cbn [the_writer root written].
    destruct (mpt m) as [t|]; [|done]. destruct Hs as [Hst Hg]. apply rep_hash; auto.
  - intros k Hk Hn. simpl. by rewrite Hv.
Qed.

Definition run_block (db : Input) (ops : list (trie_op V)) : M (writer_state V) (option hash) :=
  run_ops db ops ;; Commit.
Theorem block_models db w m ops :
  models db w m → Forall op_ok ops →
  ∃ w', run_block db ops w = (Ret (root_hash (map_ops ops m)), w') ∧ same_levels w w' ∧
    (nodes_agree db (written w') →
     models (apply_writes db (written w')) (flushed w') (map_ops ops m) ∧
     store_ok (apply_writes db (written w')) (map_ops ops m)).
Proof.
  intros Hm Hops. destruct (run_ops_models db ops w m Hops Hm) as (w1 & E1 & Hm1 & _ & Hl1).
  destruct (commit_models db w1 _ Hm1) as (w2 & ws & E2 & Ew & Hl2 & _ & Hdb).
  exists w2. split_and!.
  - unfold run_block, mbind, M_bind. by rewrite E1.
  - unfold same_levels in *. by rewrite Hl2.
  - intros Ha. destruct (Hdb Ha) as [Hm2 Hs]. split; [done|]. by eapply models_store.
Qed.
End run.
