(* ===== verification/TrieReader.v ===== *)
(** [Reader.ForEach] over a committed trie: it lists exactly the pairs of the map, every key
    once, in the order of the keys. *)
From Stdlib Require Import Sorted.
From S2P Require Import Prelude Codec Rlp RlpEncoder Storage TrieEncoding Trie TrieMap TrieHash TrieRep TrieFacts TrieCommit TrieBuild TrieRun.

(** * The pairs of a trie, in order *)
Fixpoint entries (t : trie) : list (bytes * bytes) :=
  match t with
  | Leaf k s => [(k, s)]
  | Ext p t => map (λ e, (p ++ e.1, e.2)) (entries t)
  | Branch ts =>
      (fix loop (i : Z) (ts : list (option trie)) : list (bytes * bytes) :=
         match ts with
         | [] => []
         | o :: ts =>
             match o with Some t => map (λ e, (i :: e.1, e.2)) (entries t) | None => [] end ++
             loop (i + 1) ts
         end) 0 ts
  end.
Fixpoint branch_entries (i : Z) (ts : list (option trie)) : list (bytes * bytes) :=
  match ts with
  | [] => []
  | o :: ts =>
      match o with Some t => map (λ e, (i :: e.1, e.2)) (entries t) | None => [] end ++
      branch_entries (i + 1) ts
  end.
Lemma entries_branch ts : entries (Branch ts) = branch_entries 0 ts.
Proof. cbn [entries]. generalize 0. induction ts as [|o ts IH]; intros i; [done|]. simpl. by rewrite IH. Qed.

(** The order of the keys, nibble by nibble. *)
Fixpoint key_lt (k l : bytes) : Prop :=
  match k, l with
  | [], _ :: _ => True
  | x :: k, y :: l => x < y ∨ x = y ∧ key_lt k l
  | _, [] => False
  end.
Lemma key_lt_app p k l : key_lt k l → key_lt (p ++ k) (p ++ l).
Proof. intros Hk. induction p as [|x p IH]; [done|]. right. by split. Qed.
Lemma key_lt_irrefl k : ¬ key_lt k k.
Proof. induction k as [|x k IH]; simpl; [tauto|]. intros [?|[_ ?]]; [lia|done]. Qed.

Definition in_order (l : list (bytes * bytes)) : Prop := StronglySorted (λ a b, key_lt a.1 b.1) l.
Lemma in_order_map (f : bytes → bytes) l :
  (∀ k k', key_lt k k' → key_lt (f k) (f k')) → in_order l →
  in_order (map (λ e, (f e.1, e.2)) l).
Proof.
  intros Hf. induction 1 as [|a l Hl IH Ha]; [constructor|]. simpl. constructor; [done|].
  apply Forall_map. eapply Forall_impl; [exact Ha|]. intros e He. by apply Hf.
Qed.
Lemma in_order_app l1 l2 :
  in_order l1 → in_order l2 → (∀ a b, a ∈ l1 → b ∈ l2 → key_lt a.1 b.1) → in_order (l1 ++ l2).
Proof.
  intros H1 H2 Hlt. induction H1 as [|a l Hl IH Ha]; [done|]. simpl. constructor.
  - apply IH. intros a' b Ha' Hb. apply Hlt; [by right|done].
  - apply Forall_app. split; [done|]. apply Forall_forall. intros b Hb. apply Hlt; [by left|done].
Qed.
Lemma branch_entries_head ts i e : e ∈ branch_entries i ts → ∃ x k, e.1 = x :: k ∧ i <= x.
Proof.
  revert i. induction ts as [|o ts IH]; intros i; simpl; [by intros ?%not_elem_of_nil|].
  intros [He|He]%elem_of_app.
  - destruct o as [t|]; [|by apply not_elem_of_nil in He].
    apply list_elem_of_fmap in He as (e' & -> & _). eexists _, _. split; [done|lia].
  - destruct (IH _ He) as (x & k & E & Hx). exists x, k. split; [done|lia].
Qed.
Lemma entries_in_order d t : wf d t → in_order (entries t).
Proof.
  induction 1 as [d k s Hk|d p ts Hp Hne Hwf IH|d ts Hl Htwo Hall IH].
  - repeat constructor.
  - cbn [entries] in *. apply in_order_map; [|done]. intros. by apply key_lt_app.
  - rewrite entries_branch. clear Hl Htwo Hall.
    assert (∀ t, Some t ∈ ts → in_order (entries t)) as IH'.
    { intros t (i & Hi)%list_elem_of_lookup. by eapply IH. }
    clear IH. generalize 0. induction ts as [|o ts IHts]; intros i; [constructor|]. simpl.
    apply in_order_app.
    + destruct o as [t|]; [|constructor]. apply in_order_map; [|apply IH'; by left].
      intros. by right.
    + apply IHts. intros t Ht. apply IH'. by right.
    + intros a b Ha (x & k & Eb & Hx)%branch_entries_head. destruct o as [t|];
        [|by apply not_elem_of_nil in Ha]. apply list_elem_of_fmap in Ha as (e & -> & _).
      rewrite Eb. left. lia.
Qed.
Lemma elem_of_branch_entries ts i k s :
  (k, s) ∈ branch_entries i ts ↔
  ∃ j t k', ts !! j = Some (Some t) ∧ k = (i + Z.of_nat j) :: k' ∧ (k', s) ∈ entries t.
Proof.
  revert i. induction ts as [|o ts IH]; intros i; simpl.
  { split; [by intros ?%not_elem_of_nil|]. by intros (j & t & k' & Hj & _). }
  rewrite elem_of_app, IH. split.
  - intros [He|(j & t & k' & Hj & -> & Hin)].
    + destruct o as [t|]; [|by apply not_elem_of_nil in He].
      apply list_elem_of_fmap in He as ([k' s'] & [= -> ->] & Hin). exists 0%nat, t, k'.
      split_and!; [done| |done]. f_equal. lia.
    + exists (S j), t, k'. split_and!; [done| |done]. f_equal. lia.
  - intros ([|j] & t & k' & Hj & -> & Hin); simpl in Hj.
    + left. simplify_eq. apply list_elem_of_fmap. exists (k', s). split; [|done].
      by rewrite Z.add_0_r.
    + right. exists j, t, k'. split_and!; [done| |done]. f_equal. lia.
Qed.
Lemma elem_of_entries d t k s : wf d t → (k, s) ∈ entries t ↔ tlookup t k = Some s.
Proof.
  intros Hwf. revert k s. induction Hwf as [d k0 s0 Hk|d p ts Hp Hne Hwf IH|d ts Hl Htwo Hall IH]; intros k s.
  - cbn [entries]. rewrite list_elem_of_singleton, tlookup_leaf. case_bool_decide; split; congruence.
  - rewrite tlookup_ext. change (entries (Ext p (Branch ts))) with
      (map (λ e, (p ++ e.1, e.2)) (entries (Branch ts))). rewrite list_elem_of_fmap. split.
    + intros ([k' s'] & [= -> ->] & Hin). rewrite strip_app. by apply IH.
    + destruct (strip p k) as [r|] eqn:E; [|done]. apply strip_Some in E as ->. simpl. intros Hr.
      exists (r, s). split; [done|]. by apply IH.
  - rewrite entries_branch, elem_of_branch_entries, tlookup_branch. split.
    + intros (j & t & k' & Hj & -> & Hin). rewrite Z.add_0_l, pick_index.
      pose proof (proj2 (child_some ts j t) Hj) as ->. by apply (IH j t Hj).
    + destruct k as [|x k]; [done|]. unfold olookup. destruct (pick ts x) as [t|] eqn:Ec; [|done].
      destruct (pick_some d ts x t) as (Hx & Hi & _); [by constructor|done|]. simpl. intros E.
      exists (Z.to_nat x), t, k. split_and!; [done| |by apply (IH _ _ Hi)].
      rewrite Z2Nat.id by (unfold is_nibble in Hx; lia). by rewrite Z.add_0_l.
Qed.

Section reader.
Context `{Keccak} `{Schema} {V : Type} `{!TrieValue V} (db_tx : Input).
Context (clean : bytes → bytes → Prop).
Context (Hhash : ∀ b, length (keccak b) = HashLength).
Context (Hmax : MaxValueSizeToStoreInTrie < Z.of_nat HashLength).
Context (Hclean : ∀ l s, is_nibbles l → length l = MaxDepth → clean (l ++ [16]) s →
  GetValue db_tx (pack l) = Some s).
Context {St : Type}.

(** [EncodeForTrie] of what a callback gets. *)
Definition value_encodings (v : Value V) : bytes * bytes :=
  match v with internal_value s h => (s, h) | client_value x => EncodeForTrie x end.
Definition visited (pre : bytes) (e : bytes * bytes) (kv : hash * option (Value V)) : Prop :=
  hash_key kv.1 ∧ keybytesToHex kv.1 = pre ++ e.1 ∧
  ∃ v, kv.2 = Some v ∧ value_encodings v = (e.2, hash_value e.2).
Definition visits (pre : bytes) (es : list (bytes * bytes)) (r : outcome (list (hash * option (Value V))) * St)
    (st : St) : Prop :=
  ∃ l, r = (Ret l, st) ∧ Forall2 (visited pre) es l.

Lemma visited_under pre p es l :
  Forall2 (visited (pre ++ p)) es l → Forall2 (visited pre) (map (λ e, (p ++ e.1, e.2)) es) l.
Proof.
  intros Hv. apply Forall2_fmap_l. eapply Forall2_impl; [exact Hv|].
  intros e kv (Hk & E & Hx). split_and!; [done| |done]. simpl. by rewrite app_assoc.
Qed.
Lemma visit_leaf fuel pre k v h s (st : St) :
  is_key HexKeyLen (pre ++ k) → rep db_tx clean pre (short_node k (value_node v) h) (Leaf k s) →
  visits pre [(k, s)] (for_each db_tx (S fuel) (short_node k (value_node v) h) true pre st) st.
Proof.
  intros Hk Hrep. inversion Hrep as [? ? ? ? ? [Hs Hv] _ _| | |]; subst.
  destruct Hk as (l & E & Hl & Hlen). unfold HexKeyLen in Hlen.
  assert (length l = (2 * 32)%nat) as Hl2 by lia.
  assert (hash_key (pack l) ∧ keybytesToHex (pack l) = pre ++ k) as [Hkey Hhex].
  { rewrite (pack_hex 32), E by done. split; [|done]. split; [by apply length_pack|].
    by apply (is_bytes_pack 32). }
  assert (∀ v', value_encodings v' = (s, hash_value s) →
    Forall2 (visited pre) [(k, s)] [(pack l, Some v')]) as Hone.
  { intros v' Ev. constructor; [|constructor]. split_and!; [done..|]. by exists v'. }
  unfold visits. cbn [for_each]. unfold mbind, M_bind, of_outcome. rewrite E.
  rewrite (hex_to_keybytes_spec 32 l true) by (done || lia).
  destruct v as [v|].
  - exists [(pack l, Some v)]. split; [done|]. apply Hone.
    destruct v as [s' h'|x]; [|done]. by destruct Hv as (-> & -> & _).
  - exists [(pack l, Some (internal_value s (hash_value s)))]. split; [|by apply Hone].
    rewrite E in Hv. unfold resolve_val_n. rewrite (Hclean l s) by (done || unfold MaxDepth; lia).
    unfold mbind, M_bind, of_outcome. by rewrite (hash_value_storable Hmax s Hs).
Qed.

(** The loop over the children. *)
Definition for_children (fuel : nat) (pre : bytes) :
    Z → list (node V) → M St (list (hash * option (Value V))) :=
  fix loop (i : Z) (cs : list (node V)) : M St (list (hash * option (Value V))) :=
    match cs with
    | [] => mret []
    | nil_node :: cs => loop (i + 1) cs
    | c :: cs =>
        l1 ← for_each db_tx fuel c true (pre ++ [i]);
        l2 ← loop (i + 1) cs;
        mret (l1 ++ l2)
    end.
Lemma for_each_full fuel pre children h :
  for_each db_tx (S fuel) (full_node children h) true pre = for_children fuel pre 0 children.
Proof. reflexivity. Qed.
Lemma for_children_spec fuel pre (st : St) ts : ∀ i ns,
  length ns = length ts →
  (∀ j n, ts !! j = Some None → ns !! j = Some n → n = nil_node) →
  (∀ j n t, ns !! j = Some n → ts !! j = Some (Some t) → n ≠ nil_node ∧
     visits (pre ++ [i + Z.of_nat j]) (entries t) (for_each db_tx fuel n true (pre ++ [i + Z.of_nat j]) st) st) →
  visits pre (branch_entries i ts) (for_children fuel pre i ns st) st.
Proof.
  induction ts as [|o ts IH]; intros i [|n ns] Hl Hnil Hall; try done.
  { by exists []. }
  injection Hl as Hl. destruct (IH (i + 1) ns Hl) as (l2 & E2 & F2).
  { intros j m Hj Hm. by apply (Hnil (S j)). }
  { intros j m t Hm Hj. specialize (Hall (S j) m t Hm Hj).
    by replace (i + 1 + Z.of_nat j) with (i + Z.of_nat (S j)) by lia. }
  destruct o as [t|]; cbn [branch_entries].
  - destruct (Hall 0%nat n t eq_refl eq_refl) as [Hn (l1 & E1 & F1)]. rewrite Z.add_0_r in E1, F1.
    exists (l1 ++ l2). split.
    + assert (for_children fuel pre i (n :: ns) =
        (l1 ← for_each db_tx fuel n true (pre ++ [i]); l2 ← for_children fuel pre (i + 1) ns;
         mret (l1 ++ l2))) as -> by by destruct n.
      unfold mbind, M_bind. rewrite E1. cbv beta iota. by rewrite E2.
    + apply Forall2_app; [|done]. by apply (visited_under pre [i]).
  - rewrite (Hnil 0%nat n eq_refl eq_refl). by exists l2.
Qed.

Theorem for_each_spec fuel : ∀ d pre n t (st : St),
  wf d t → is_nibbles pre → (length pre + d = HexKeyLen)%nat → rep db_tx clean pre n t →
  (enough d n <= fuel)%nat → visits pre (entries t) (for_each db_tx fuel n true pre st) st.
Proof.
  induction fuel as [|fuel IH]; intros d pre n t st Hwf Hpre Hd Hrep Hf;
    [unfold enough in Hf; destruct (is_node_hash n); lia|].
  pose proof Hrep as Hrep0.
  destruct Hrep as [pre kp v s h _ _ _|pre p n t h Hr _ _|pre ns ts h Hns Hts Hnil Hall _
    |pre t Hst Hget Hroot].
  - apply visit_leaf; [|done]. rewrite <-Hd. apply is_key_app; [done|]. by inversion Hwf.
  - inversion Hwf as [|d' ? ts Hp Hne Hwf'|]; subst.
    destruct (IH d' (pre ++ p) n (Branch ts) st Hwf') as (l & E & F).
    { by apply is_nibbles_app. }
    { rewrite length_app. lia. }
    { done. }
    { pose proof (enough_any d' n). unfold enough in Hf. cbn [is_node_hash] in Hf.
      destruct p; [done|]. simpl in Hf. lia. }
    exists l. split; [|by apply visited_under].
    rewrite <-E. destruct n as [| | | |v]; try reflexivity.
    exfalso. eapply rep_not_value; [exact Hr|reflexivity].
  - inversion Hwf as [| |d' ? _ Htwo Hwf']; subst. rewrite entries_branch, for_each_full.
    apply for_children_spec; [lia|done|]. intros j m t Hm Hj. rewrite Z.add_0_l.
    assert (j < 16)%nat as Hj16 by (rewrite <-Hts; by eapply lookup_lt_Some).
    split; [by eapply rep_not_nil, Hall|]. apply (IH d').
    + by eapply Hwf'.
    + apply is_nibbles_app. split; [done|]. constructor; [by apply index_nibble|done].
    + rewrite length_app. simpl. lia.
    + by apply Hall.
    + pose proof (enough_any d' m). unfold enough in Hf. simpl in Hf. lia.
  - destruct (resolve_rep db_tx clean Hhash Hmax Hclean d pre (node_hash (trie_hash t)) t st Hwf Hpre Hd Hrep0)
      as (m & b & E & Hm & Hh).
    destruct (IH d pre m t st Hwf Hpre Hd Hm) as (l & El & F).
    { unfold enough in *. rewrite Hh. cbn [is_node_hash] in Hf. lia. }
    exists l. split; [|done]. cbn [for_each]. unfold mbind, M_bind. rewrite E. exact El.
Qed.
End reader.
