(* ===== verification/TrieHistory.v ===== *)
(** Whole histories of a trie: blocks of operations, each ending with a commit whose writes the
    store then has; the writer kept between blocks or opened anew at the last root.  The roots
    are those of the maps, the store follows the map, and [ForEach] lists it. *)
From Stdlib Require Import Sorted.
From S2P Require Import Prelude Codec Rlp RlpEncoder Storage TrieEncoding Trie TrieMap TrieHash TrieRep TrieFacts TrieCommit TrieBuild TrieRun TrieReader.

Section history.
Context `{Keccak} `{Schema} {V : Type} `{!TrieValue V}.

(** A block: is the writer opened anew, and the operations. *)
Record block : Type := { reopen : bool; block_ops : list (trie_op V) }.

Definition set_writer (W : Writer V) : M (writer_state V) unit :=
  λ w, (Ret tt, {| the_writer := W; written := written w |}).
Definition run_one (levels : Z) (b : block) (last : option hash) (db : Input) :
    M (writer_state V) (option hash) :=
  (if reopen b then W ← Writer_Init last levels; set_writer W else mret tt) ;;
  run_block db (block_ops b).
(** A history from the store [db], whose last root is [last]: the roots, the store, the writer
    and all writes. *)
Fixpoint run_blocks (levels : Z) (blocks : list block) (last : option hash) (db : Input)
    (w : writer_state V) : outcome (list (option hash)) * Input * writer_state V * list write :=
  match blocks with
  | [] => (Ret [], db, w, [])
  | b :: blocks =>
      match run_one levels b last db w with
      | (Ret h, w') =>
          let '(o, db', w'', ws) :=
            run_blocks levels blocks h (apply_writes db (written w')) (flushed w') in
          (match o with Ret hs => Ret (h :: hs) | Err e => Err e | Panic p => Panic p end,
           db', w'', written w' ++ ws)
      | (Err e, w') => (Err e, db, w', [])
      | (Panic p, w') => (Panic p, db, w', [])
      end
  end.
(** The maps after the blocks, and their roots. *)
Definition map_block (b : block) (m : gmap bytes bytes) : gmap bytes bytes := map_ops (block_ops b) m.
Definition map_blocks (blocks : list block) (m : gmap bytes bytes) : gmap bytes bytes :=
  foldl (λ m b, map_block b m) m blocks.
Fixpoint roots (blocks : list block) (m : gmap bytes bytes) : list (option hash) :=
  match blocks with
  | [] => []
  | b :: blocks => root_hash (map_block b m) :: roots blocks (map_block b m)
  end.

Lemma nodes_agree_app db ws1 ws2 :
  nodes_agree db (ws1 ++ ws2) → nodes_agree db ws1 ∧ nodes_agree (apply_writes db ws1) ws2.
Proof.
  intros Ha.
  split; intros h b b' Hb Hb'.
  - apply (Ha h); [apply elem_of_app; by left|]. destruct Hb' as [?|?]; [by left|].
    right. apply elem_of_app. by left.
  - apply (Ha h); [apply elem_of_app; by right|]. destruct Hb' as [[?|?]%apply_writes_node_from|?]; [by left| |];
      right; apply elem_of_app; auto.
Qed.

Section facts.
Context (Hhash : ∀ b, length (keccak b) = HashLength).
Context (Hmax : MaxValueSizeToStoreInTrie < Z.of_nat HashLength).
Context (L : Z) (HL : 0 <= L <= 2 ^ 31).
Context (levels : Z) (Hlevels : levels <= Z.of_nat MaxDepth).

Lemma reopened (b : block) db (w : writer_state V) m :
  store_ok L db m → models L db w m → written w = [] →
  ∃ w0, run_one levels b (root_hash m) db w = run_block db (block_ops b) w0 ∧ models L db w0 m.
Proof.
  intros Hs Hm Hw. unfold run_one. destruct (reopen b); [|by exists w].
  exists (opened_at m levels). split; [|by apply opened_models].
  unfold Writer_Init, panic_if, opened_at, set_writer.
  destruct (Z.leb_spec levels (Z.of_nat MaxDepth)); [|lia].
  cbn [negb]. unfold mbind, M_bind, mret, M_ret. cbv beta iota. by rewrite Hw.
Qed.
Theorem history_models blocks : ∀ db w m,
  Forall (λ b, Forall (op_ok L) (block_ops b)) blocks →
  store_ok L db m → models L db w m → written w = [] →
  let '(o, db', w', ws) := run_blocks levels blocks (root_hash m) db w in
  nodes_agree db ws →
  o = Ret (roots blocks m) ∧ store_ok L db' (map_blocks blocks m) ∧
  models L db' w' (map_blocks blocks m).
Proof.
  induction blocks as [|b blocks IH]; intros db w m Hok Hs Hm Hw.
  { cbn [run_blocks]. done. }
  inversion Hok as [|? ? Hb Hbs]; subst. cbn [run_blocks roots].
  destruct (reopened b db w m Hs Hm Hw) as (w0 & -> & Hm0).
  destruct (block_models Hhash Hmax L HL db w0 m (block_ops b) Hm0 Hb) as (w' & E & _ & Hdb).
  rewrite E. change (map_ops (block_ops b) m) with (map_block b m) in *.
  specialize (IH (apply_writes db (written w')) (flushed w') (map_block b m) Hbs).
  destruct (run_blocks levels blocks (root_hash (map_block b m)) (apply_writes db (written w')) (flushed w'))
    as [[[o db'] w''] ws]. intros [Ha1 Ha2]%nodes_agree_app.
  destruct (Hdb Ha1) as [Hm' Hs']. by destruct (IH Hs' Hm' eq_refl Ha2) as (-> & ? & ?).
Qed.

(** C11: trie_history_refines_map.  Take a store that holds the trie of a map [m], and any
    sequence of blocks of [Put] and [Delete] (of keys that are there or not), each ended by
    [Commit], with the writer kept or opened anew at the last root before any block.  No operation
    panics or runs out of fuel; the root [Commit] returns is each time the hash of the
    Merkle-Patricia trie of the map the operations make, as the yellow paper defines it from the
    map alone (none for the empty map), so it depends on nothing but the map; and when the writes
    have reached the store, every value read from it is that of the map, deleted ones gone, and the
    store holds the trie of the map under that root.  The store's entries under one hash are
    assumed to agree. *)
Theorem trie_history_refines_map blocks db m :
  store_ok L db m → Forall (λ b, Forall (op_ok L) (block_ops b)) blocks →
  let '(o, db', w', ws) := run_blocks levels blocks (root_hash m) db (opened_at m levels) in
  nodes_agree db ws →
  o = Ret (roots blocks m) ∧
  (∀ k, hash_key k → GetValue db' k = map_blocks blocks m !! k) ∧
  store_ok L db' (map_blocks blocks m).
Proof.
  intros Hs Hb. assert (models L db (opened_at m levels) m) as Hm by by apply opened_models.
  pose proof (history_models blocks db (opened_at m levels) m Hb Hs Hm eq_refl) as Hh.
  destruct (run_blocks _ _ _ _ _) as [[[o db'] w'] ws]. intros Ha.
  destruct (Hh Ha) as (-> & Hs' & _). split; [reflexivity|].
  split; [|exact Hs']. by destruct Hs' as [_ _ Hv].
Qed.

(** C12: ForEach_lists_map.  On a store that holds the trie of [m], [ForEach] with values, started
    at the root hash of [m], calls the callback exactly once for every key of the map, in the
    order of the keys, with the value's two encodings; it neither panics nor runs out of fuel. *)
Theorem ForEach_lists_map {St} db m h (st : St) :
  store_ok L db m → root_hash m = Some h →
  ∃ l : list (hash * option (Value V)), ForEach db h true st = (Ret l, st) ∧
    StronglySorted (λ a b, key_lt (keybytesToHex a.1) (keybytesToHex b.1)) l ∧
    (∀ k s, hash_key k →
      m !! k = Some s ↔ ∃ v, (k, Some v) ∈ l ∧ value_encodings v = (s, hash_value s)) ∧
    ∀ k o, (k, o) ∈ l → hash_key k ∧ is_Some o.
Proof.
  intros Hs Hroot. assert (models L db (opened_at m 0) m) as [Hok Hr _ _] by by apply opened_models.
  unfold opened_at in Hr. rewrite Hroot in Hr. cbn [the_writer root written] in Hr.
  unfold root_hash in Hroot. pose proof (mpt_wf m (proj1 Hok)) as Hwf.
  pose proof (λ k, mpt_lookup m k (proj1 Hok)) as Hlk.
  destruct (mpt m) as [t|]; [|done]. simpl in Hr, Hwf, Hlk.
  destruct (for_each_spec db (clean_in db []) Hhash Hmax (clean_in_read db []) (2 * HexKeyLen + 2)
    HexKeyLen [] (node_hash h) t st Hwf (Forall_nil_2 _) eq_refl Hr (enough_any _ _)) as (l & E & F).
  exists l. split_and!; [done| | |].
  - pose proof (entries_in_order _ _ Hwf) as Ho. clear - F Ho. induction F as [|e kv es l Hx F IH]; [constructor|].
    apply StronglySorted_inv in Ho as [Ho He]. constructor; [by apply IH|].
    apply Forall_forall. intros kv' Hin. apply list_elem_of_lookup in Hin as [i Hi].
    destruct (Forall2_lookup_r _ _ _ _ _ F Hi) as (e' & Hi' & (_ & -> & _)).
    destruct Hx as (_ & -> & _). apply key_lt_app. rewrite Forall_forall in He. apply He.
    by eapply list_elem_of_lookup_2.
  - intros k s Hk. rewrite <-(Hlk k Hk), <-(elem_of_entries _ _ _ _ Hwf). split.
    + intros [i Hi]%list_elem_of_lookup.
      destruct (Forall2_lookup_l _ _ _ _ _ F Hi) as ([k' o] & Hi' & (Hk' & E' & (v & E2 & Ev))).
      cbn [fst snd app] in *. apply hex_inj in E' as ->; [|done..]. subst o. exists v.
      split; [by eapply list_elem_of_lookup_2|done].
    + intros (v & [i Hi]%list_elem_of_lookup & Ev).
      destruct (Forall2_lookup_r _ _ _ _ _ F Hi) as ([x s'] & Hi' & (_ & E' & (v' & [= <-] & Ev'))).
      cbn [fst snd app] in *. rewrite Ev in Ev'. injection Ev' as ->. subst x.
      by eapply list_elem_of_lookup_2.
  - intros k o [i Hi]%list_elem_of_lookup.
    destruct (Forall2_lookup_r _ _ _ _ _ F Hi) as (e & _ & (Hk & _ & (v & E' & _))).
    cbn [fst snd] in *. subst o. split; [done|by eexists].
Qed.
End facts.
End history.
