(* ===== verification/TrieSchemas.v ===== *)
(** The two tries of the state ([ebla/state/state_db]: main_trie.go, account_trie.go,
    block_reader.go; util_rlp): how accounts and storage values are encoded for the trie, the
    schemas that recompute the hashed encoding from the stored one, and the reads of accounts,
    storage and code. *)
From S2P Require Import Prelude Codec Rlp RlpEncoder Storage EvmInterface StateEvm Trie TrieHash.

(** * Storage tries ([account_trie.go]) *)
Definition ToRLPStringSimple (s : bytes) : bytes := ToRLPString s.
Definition AccountTrieSchema : Schema := {|
  ValueStorageToHashEncoding := λ enc_storage, Ret (ToRLPStringSimple enc_storage);
  MaxValueSizeToStoreInTrie := 8
|}.
Record acc_storage_trie_value : Type := { sv_enc_storage : bytes; sv_enc_hash : bytes }.
Definition NewAccStorageTrieValue (enc_storage : bytes) : acc_storage_trie_value :=
  {| sv_enc_storage := enc_storage; sv_enc_hash := ToRLPStringSimple enc_storage |}.
Definition storage_EncodeForTrie (v : acc_storage_trie_value) : bytes * bytes :=
  (sv_enc_storage v, sv_enc_hash v).

(** * The main trie ([main_trie.go]) *)
(** A result whose error is dropped. *)
Definition ignore_error (m : Enc unit) : Enc unit := λ e,
  match m e with (Err _, e') => (Ret tt, e') | r => r end.
(** [new(common.Hash).SetBytes]. *)
Definition Hash_SetBytes (b : bytes) : hash :=
  if (HashLength <? length b)%nat then drop (length b - HashLength) b
  else replicate (HashLength - length b) 0 ++ b.
(** [HashView]: no hash for no bytes. *)
Definition HashView (b : bytes) : outcome (option hash) :=
  match b with
  | [] => Ret None
  | _ => if (length b =? HashLength)%nat then Ret (Some b) else Panic assertion_error
  end.
Definition MustSplit {S} (b : bytes) : M S (Kind * bytes * bytes) := must (Split b).
Definition MustSplitString {S} (b : bytes) : M S (bytes * bytes) := must (SplitString b).
Definition MustSplitList {S} (b : bytes) : M S (bytes * bytes) := must (SplitList b).
(** A computation without state. *)
Definition run_pure {A} (m : M unit A) : outcome A := (m tt).1.

(** [util_rlp.RLPListAt] *)
Fixpoint nth_item (n : nat) (rest : bytes) : M unit bytes :=
  '(_, ret, rest) ← MustSplit rest;
  match n with O => mret ret | S n => nth_item n rest end.
Definition RLPListAt (list : bytes) (pos : nat) : M unit bytes :=
  '(_, rest, _) ← MustSplit list; nth_item pos rest.

(** * The columns of the database ([state_db/db.go]) *)
Inductive Column := COL_code | COL_main_trie_node | COL_main_trie_value | COL_acc_trie_node
  | COL_acc_trie_value.
(** [Reader.Get]: the callback's argument, if it is called. *)
Abbreviation db_Get := (Column → hash → option bytes).
(** A call of [Put]. *)
Abbreviation db_put := (Column * hash * bytes)%type.

Section accounts.
Context `{Keccak}.

(** [state_common.EmptyRLPListHash]: the hash of the encoding of no bytes. *)
Definition EmptyRLPListHash : hash := keccak (AppendString []).
Definition EmptyBytesKeccak256 : hash := keccak [].
Definition IsEmptyStateRoot (state_root : option hash) : bool :=
  match state_root with
  | None => true
  | Some h => bool_decide (h = EmptyRLPListHash) || bool_decide (h = ZeroHash)
  end.

(** The four fields that are hashed; an absent root or code hash is replaced. *)
Definition main_ValueStorageToHashEncoding (enc_storage : bytes) : outcome bytes :=
  ((rlp_list ← ListStart;
    '(next, curr) ← must (SplitList enc_storage);
    '(curr, next) ← must (SplitString next);
    Append curr ;;
    '(curr, next) ← must (SplitString next);
    Append curr ;;
    '(curr, next) ← must (SplitString next);
    Append (match curr with [] => EmptyRLPListHash | _ => curr end) ;;
    '(curr, next) ← must (SplitString next);
    Append (match curr with [] => EmptyBytesKeccak256 | _ => curr end) ;;
    ListEnd rlp_list ;;
    ToBytes_all) encoder_nil).1.
Definition MainTrieSchema : Schema := {|
  ValueStorageToHashEncoding := main_ValueStorageToHashEncoding;
  MaxValueSizeToStoreInTrie := 8
|}.

Definition DecodeAccountFromTrie (enc_storage : bytes) : outcome DbAccount := run_pure (
  '(rest, tmp) ← MustSplitList enc_storage;
  '(tmp, rest) ← MustSplitString rest;
  let nonce := be_val tmp in
  '(tmp, rest) ← MustSplitString rest;
  let balance := be_val tmp in
  '(tmp, rest) ← MustSplitString rest;
  let root := match tmp with [] => None | _ => Some (Hash_SetBytes tmp) end in
  '(tmp, rest) ← MustSplitString rest;
  let code := match tmp with [] => None | _ => Some (Hash_SetBytes tmp) end in
  '(tmp, rest) ← MustSplitString rest;
  size ← of_outcome (DEC_b_endian_compact_64 tmp);
  mret {| db_Nonce := nonce; db_Balance := balance; db_StorageRootHash := root;
          db_CodeHash := code; db_CodeSize := size |}).

Definition Account_EncodeForTrie (a : DbAccount) : outcome (bytes * bytes) := (
  (storage_rlp_list ← ListStart;
   ignore_error (Append_BigInt (db_Nonce a)) ;;
   ignore_error (Append_BigInt (db_Balance a)) ;;
   match db_StorageRootHash a with Some h => Append h | None => AppendEmptyString end ;;
   match db_CodeHash a with Some h => Append h | None => AppendEmptyString end ;;
   Append_Uint (db_CodeSize a) ;;
   ListEnd storage_rlp_list ;;
   enc_storage ← ToBytes_all;
   Reset ;;
   hash_rlp_list ← ListStart;
   ignore_error (Append_BigInt (db_Nonce a)) ;;
   ignore_error (Append_BigInt (db_Balance a)) ;;
   Append (default EmptyRLPListHash (db_StorageRootHash a)) ;;
   Append (default EmptyBytesKeccak256 (db_CodeHash a)) ;;
   ListEnd hash_rlp_list ;;
   enc_hash ← ToBytes_all;
   mret (enc_storage, enc_hash)) encoder_nil).1.
Definition StorageRoot (acc_enc_storage : bytes) : outcome (option hash) :=
  run_pure (b ← RLPListAt acc_enc_storage 2; of_outcome (HashView b)).
Definition CodeHash (acc_enc_storage : bytes) : outcome (option hash) :=
  run_pure (b ← RLPListAt acc_enc_storage 3; of_outcome (HashView b)).

(** * The adapters of the tries to the columns *)
Definition MainTrieInputAdapter (get : db_Get) : Trie.Input := {|
  GetValue := λ key, get COL_main_trie_value key;
  GetNode := λ h, get COL_main_trie_node h
|}.
Definition acc_trie_db_key (addr : address) (key : hash) : hash := keccak (addr ++ key).
Definition AccountTrieInputAdapter (addr : address) (get : db_Get) : Trie.Input := {|
  GetValue := λ key, get COL_acc_trie_value (acc_trie_db_key addr key);
  GetNode := λ h, get COL_acc_trie_node h
|}.
(** [PutValue], [PutNode] of the two adapters: what is put. *)
Definition MainTrieIOAdapter_Put (w : write) : db_put :=
  match w with
  | PutValue key v => (COL_main_trie_value, key, v)
  | PutNode h b => (COL_main_trie_node, h, b)
  end.
Definition AccountTrieIOAdapter_Put (addr : address) (w : write) : db_put :=
  match w with
  | PutValue key v => (COL_acc_trie_value, acc_trie_db_key addr key, v)
  | PutNode h b => (COL_acc_trie_node, h, b)
  end.

(** * Reading the state of a block ([block_reader.go]) *)
Section reader.
Context (get : db_Get).
Definition GetCode (h : hash) : bytes := default [] (get COL_code h).
Definition GetAccountStorage (addr : address) (key : hash) : option bytes :=
  GetValue (AccountTrieInputAdapter addr get) (keccak key).
Definition GetRawAccount (addr : address) : option bytes :=
  GetValue (MainTrieInputAdapter get) (keccak addr).
Definition GetAccount (addr : address) : outcome (option DbAccount) :=
  match GetRawAccount addr with
  | None => Ret None
  | Some v =>
      match DecodeAccountFromTrie v with Ret a => Ret (Some a) | Err e => Err e | Panic p => Panic p end
  end.
Definition GetCodeByAddress (addr : address) : outcome bytes :=
  match GetRawAccount addr with
  | None => Ret []
  | Some acc =>
      match CodeHash acc with
      | Ret (Some h) => Ret (GetCode h)
      | Ret None => Ret []
      | Err e => Err e
      | Panic p => Panic p
      end
  end.
(** The calls of [f]: the key and the stored encoding. *)
Definition ForEachStorage (addr : address) : outcome (list (hash * option bytes)) :=
  match GetRawAccount addr with
  | None => Ret []
  | Some acc =>
      match StorageRoot acc with
      | Ret (Some root) =>
          run_pure (
            l ← @ForEach _ AccountTrieSchema acc_storage_trie_value (AccountTrieInputAdapter addr get)
                  _ root true;
            mret (map (λ kv, (kv.1, match kv.2 with
                                    | Some (internal_value s _) => Some s
                                    | Some (client_value v) => Some (storage_EncodeForTrie v).1
                                    | None => None
                                    end)) l))
      | Ret None => Ret []
      | Err e => Err e
      | Panic p => Panic p
      end
  end.
Definition ForEachAccountNodeHashByRoot (storage_root : option hash) : outcome (list (hash * bytes)) :=
  match storage_root with
  | None => Ret []
  | Some root =>
      run_pure (@ForEachNodeHash _ AccountTrieSchema acc_storage_trie_value
        (AccountTrieInputAdapter ZeroAddress get) _ root)
  end.
Definition ForEachMainNodeHashByRoot (storage_root : option hash) : outcome (list (hash * bytes)) :=
  match storage_root with
  | None => Ret []
  | Some root =>
      run_pure (@ForEachNodeHash _ MainTrieSchema DbAccount (MainTrieInputAdapter get) _ root)
  end.
End reader.
End accounts.

(** * What the encodings are *)
Section encodings.
Context `{Keccak}.
Context (Hhash : ∀ b, length (keccak b) = HashLength).

(** [m] writes [b]. *)
Definition appends (m : Enc unit) (b : bytes) : Prop :=
  ∀ e, valid e → blen b < room e → ∃ e', m e = (Ret tt, e') ∧ appended e e' b.
Lemma appends_Append s : appends (Append s) (AppendString s).
Proof. intros e Hv Hr. by apply Append_spec. Qed.
Lemma appends_empty : appends AppendEmptyString (AppendString []).
Proof. intros e Hv Hr. by apply AppendRaw_spec. Qed.
Lemma AppendString_big i : 0 <= i → AppendString (big_Bytes i) =
  if i =? 0 then [EmptyString] else AppendString (big_Bytes i).
Proof. destruct (Z.eqb_spec i 0) as [->|]; done. Qed.
Lemma appends_BigInt i : 0 <= i → appends (ignore_error (Append_BigInt i)) (AppendString (big_Bytes i)).
Proof.
  intros Hi e Hv Hr. unfold ignore_error, Append_BigInt. destruct (Z.eqb_spec i 0) as [->|Hne].
  - destruct (appends_empty e Hv Hr) as (e' & -> & A). by exists e'.
  - destruct (Z.ltb_spec 0 i); [|lia]. destruct (appends_Append _ e Hv Hr) as (e' & -> & A). by exists e'.
Qed.
Lemma be_val_compact i : is_u64 i → be_val (ENC_b_endian_compact_64 i) = i.
Proof.
  intros Hi. pose proof (SizeInBytes_range i).
  rewrite ENC_b_endian_compact_64_be, be_val_rev, le_dec_enc, Z2Nat.id by lia.
  by apply Z.mod_small, SizeInBytes_fits.
Qed.
(** An unsigned integer is written as its bytes without leading zeros. *)
Definition uint_bytes (i : Z) : bytes := if i =? 0 then [] else ENC_b_endian_compact_64 i.
Lemma AppendUint_string i : is_u64 i → AppendUint i = AppendString (uint_bytes i).
Proof.
  intros Hi. unfold AppendUint, uint_bytes. destruct (Z.eqb_spec i 0) as [->|Hne]; [done|].
  pose proof (SizeInBytes_range i) as Hr. pose proof (ENC_compact_length i) as Hl.
  destruct (Z.ltb_spec i 128) as [H128|H128].
  - assert (ENC_b_endian_compact_64 i = [u8 i]) as ->.
    { unfold ENC_b_endian_compact_64. rewrite Z.shiftl_1_l.
      destruct (Z.ltb_spec i (2 ^ 8)); [|lia]. simpl. by rewrite Z.shiftr_0_r. }
    unfold is_u64 in Hi. unfold AppendString, ToRLPString. rewrite u8_id by (unfold is_byte; lia).
    destruct (Z.leb_spec i 0x7F); [done|lia].
  - rewrite putint_be. set (c := ENC_b_endian_compact_64 i) in *.
    assert (blen c = SizeInBytes i) as Hbl by (unfold blen; rewrite Hl; lia).
    destruct (AppendString_cases c) as [(b & Ec & Hb & _) | [-> _]].
    + exfalso. pose proof (be_val_compact i Hi) as Hv. fold c in Hv.
      rewrite Ec in Hv. unfold be_val in Hv. simpl in Hv. lia.
    + unfold string_head. rewrite Hbl. destruct (Z.ltb_spec (SizeInBytes i) 56); [|lia].
      rewrite (u8_id (SizeInBytes i)) by (unfold is_byte; lia). simpl. by rewrite Z.add_comm.
Qed.
Lemma appends_Uint i : is_u64 i → appends (Append_Uint i) (AppendString (uint_bytes i)).
Proof.
  intros Hi. rewrite <-AppendUint_string by done. intros e Hv Hr. unfold Append_Uint, AppendUint in *.
  destruct (i =? 0); [by apply AppendRaw_spec|]. destruct (i <? 128); by apply AppendRaw_spec.
Qed.

(** A list written element by element, and what comes after it. *)
Definition seq_then {A} (ms : list (Enc unit)) (k : Enc A) : Enc A := foldr (λ m r, m ;; r) k ms.
Lemma seq_then_spec {A} ms bs (k : Enc A) : Forall2 appends ms bs →
  ∀ e, valid e → blen (concat bs) < room e →
  ∃ e', seq_then ms k e = k e' ∧ appended e e' (concat bs).
Proof.
  induction 1 as [|m b ms bs Hm _ IH]; intros e Hv Hr.
  { exists e. split; [done|apply appended_nil]. }
  cbn [concat] in *. rewrite blen_app in Hr. pose proof (blen_nonneg (concat bs)).
  pose proof (blen_nonneg b). destruct (Hm e Hv ltac:(lia)) as (e1 & E1 & A1).
  destruct (IH e1) as (e2 & E2 & A2).
  { by apply (appended_valid _ _ _ A1); [|lia]. }
  { rewrite (appended_room _ _ _ A1). lia. }
  exists e2. split; [|by eapply appended_app]. cbn [seq_then foldr]. unfold mbind, M_bind.
  rewrite E1. exact E2.
Qed.
Lemma list_then_spec {A} ms bs (k : Enc A) : Forall2 appends ms bs →
  ∀ e, valid e → blen (enc_list (concat bs)) < room e →
  ∃ e', (pos ← ListStart; seq_then ms (ListEnd pos ;; k)) e = k e' ∧
    appended e e' (enc_list (concat bs)).
Proof.
  intros Hms e Hv Hr. pose proof (enc_list_bounds (concat bs)).
  unfold mbind at 1, M_bind at 1. rewrite ListStart_run. cbv beta iota.
  destruct (seq_then_spec ms bs (ListEnd (length (lheads e)) ;; k) Hms (started e) (started_valid e Hv))
    as (e1 & -> & A1).
  { rewrite started_room. lia. }
  destruct (ListEnd_spec e e1 _ Hv A1 Hr) as (e2 & E2 & [A2 _ _ _]).
  exists e2. split; [|done]. unfold mbind, M_bind. by rewrite E2.
Qed.

(** * Accounts *)
Definition hash_ok32 (h : option hash) : Prop :=
  match h with Some h => length h = HashLength | None => True end.
Record account_ok (a : DbAccount) : Prop := {
  nonce_ok : 0 <= db_Nonce a < 2 ^ 256;
  balance_ok : 0 <= db_Balance a < 2 ^ 256;
  root_ok : hash_ok32 (db_StorageRootHash a);
  code_ok : hash_ok32 (db_CodeHash a);
  size_ok : is_u64 (db_CodeSize a)
}.
Definition fields_storage (a : DbAccount) : list bytes :=
  [big_Bytes (db_Nonce a); big_Bytes (db_Balance a); default [] (db_StorageRootHash a);
   default [] (db_CodeHash a); uint_bytes (db_CodeSize a)].
Definition fields_hash (a : DbAccount) : list bytes :=
  [big_Bytes (db_Nonce a); big_Bytes (db_Balance a);
   default EmptyRLPListHash (db_StorageRootHash a); default EmptyBytesKeccak256 (db_CodeHash a)].
Definition enc_strings (l : list bytes) : bytes := enc_list (concat (map AppendString l)).
Definition account_storage (a : DbAccount) : bytes := enc_strings (fields_storage a).
Definition account_hashed (a : DbAccount) : bytes := enc_strings (fields_hash a).

Lemma blen_big i : 0 <= i < 2 ^ 256 → blen (big_Bytes i) <= 32.
Proof. intros Hi. pose proof (big_Bytes_length i 32 ltac:(simpl; lia)). unfold blen. lia. Qed.
Lemma blen_uint i : is_u64 i → blen (uint_bytes i) <= 8.
Proof.
  intros Hi. unfold uint_bytes. destruct (i =? 0); [by vm_compute|]. unfold blen.
  rewrite ENC_compact_length. pose proof (SizeInBytes_range i). lia.
Qed.
Lemma blen_hash h d : hash_ok32 h → length d = HashLength ∨ d = [] → blen (default d h) <= 32.
Proof.
  unfold blen, HashLength. intros Hh Hd. destruct h as [h|]; simpl in *.
  - unfold HashLength in Hh. lia.
  - destruct Hd as [Hd| ->]; [unfold HashLength in Hd|simpl]; lia.
Qed.
Ltac fields_tac :=
  repeat (apply Forall_cons; split); try apply Forall_nil_2; try done;
  try (apply blen_hash; [done|]).
Lemma fields_storage_bounds a : account_ok a → Forall (λ s, blen s <= 32) (fields_storage a).
Proof.
  intros [Hn Hb Hr Hc Hs]. pose proof (blen_big _ Hn). pose proof (blen_big _ Hb).
  pose proof (blen_uint _ Hs). fields_tac; [by right|by right|lia].
Qed.
Lemma fields_hash_bounds a : account_ok a → Forall (λ s, blen s <= 32) (fields_hash a).
Proof.
  intros [Hn Hb Hr Hc Hs]. pose proof (blen_big _ Hn). pose proof (blen_big _ Hb).
  fields_tac; left; apply Hhash.
Qed.
Lemma blen_strings l : Forall (λ s, blen s <= 32) l →
  blen (concat (map AppendString l)) <= 41 * Z.of_nat (length l).
Proof.
  intros Hl. apply blen_concat_bound. eapply Forall_impl; [exact Hl|]. intros s Hs.
  pose proof (AppendString_bounds s). simpl in *. lia.
Qed.
Lemma strings_small l n : Forall (λ s, blen s <= 32) l → (length l <= n)%nat → (n <= 5)%nat →
  blen (enc_strings l) <= 220.
Proof.
  intros Hl Hn Hn5. unfold enc_strings. pose proof (enc_list_bounds (concat (map AppendString l))).
  pose proof (blen_strings l Hl). lia.
Qed.

Definition storage_writes (a : DbAccount) : list (Enc unit) :=
  [ignore_error (Append_BigInt (db_Nonce a)); ignore_error (Append_BigInt (db_Balance a));
   match db_StorageRootHash a with Some h => Append h | None => AppendEmptyString end;
   match db_CodeHash a with Some h => Append h | None => AppendEmptyString end;
   Append_Uint (db_CodeSize a)].
Definition hash_writes (a : DbAccount) : list (Enc unit) :=
  [ignore_error (Append_BigInt (db_Nonce a)); ignore_error (Append_BigInt (db_Balance a));
   Append (default EmptyRLPListHash (db_StorageRootHash a));
   Append (default EmptyBytesKeccak256 (db_CodeHash a))].
Lemma storage_writes_spec a :
  account_ok a → Forall2 appends (storage_writes a) (map AppendString (fields_storage a)).
Proof.
  intros [Hn Hb Hr Hc Hs]. repeat apply Forall2_cons_2; [apply appends_BigInt; lia|apply appends_BigInt; lia| | |
    by apply appends_Uint|constructor].
  - destruct (db_StorageRootHash a); [apply appends_Append|apply appends_empty].
  - destruct (db_CodeHash a); [apply appends_Append|apply appends_empty].
Qed.
Lemma hash_writes_spec a :
  account_ok a → Forall2 appends (hash_writes a) (map AppendString (fields_hash a)).
Proof.
  intros [Hn Hb Hr Hc Hs]. repeat apply Forall2_cons_2; [apply appends_BigInt; lia|apply appends_BigInt; lia| | |
    constructor]; apply appends_Append.
Qed.
Lemma encode_account a :
  account_ok a → Account_EncodeForTrie a = Ret (account_storage a, account_hashed a).
Proof.
  intros Ha. pose proof (fields_storage_bounds a Ha) as Bs. pose proof (fields_hash_bounds a Ha) as Bh.
  pose proof (strings_small _ 5 Bs ltac:(simpl; lia) (le_n _)) as Ls.
  pose proof (strings_small _ 4 Bh ltac:(simpl; lia) ltac:(lia)) as Lh.
  destruct (list_then_spec (hash_writes a) _
    (enc_hash ← ToBytes_all; mret (account_storage a, enc_hash)) (hash_writes_spec a Ha) encoder_nil)
    as (e2 & E2 & A2); [done|change (blen (enc_strings (fields_hash a)) < 2 ^ 32 - 1); lia|].
  destruct (list_then_spec (storage_writes a) _
    (enc_storage ← ToBytes_all; Reset ;; hash_rlp_list ← ListStart;
     seq_then (hash_writes a) (ListEnd hash_rlp_list ;;
       (enc_hash ← ToBytes_all; mret (enc_storage, enc_hash))))
    (storage_writes_spec a Ha) encoder_nil) as (e1 & E1 & A1); [done|change (blen (enc_strings (fields_storage a)) < 2 ^ 32 - 1); lia|].
  unfold Account_EncodeForTrie.
  match type of E1 with ?m _ = _ => match goal with |- (?m' _).1 = _ => change m' with m end end.
  rewrite E1. unfold mbind at 1, M_bind at 1. rewrite (ToBytes_all_spec _ _ A1). cbv beta iota.
  unfold mbind at 1, M_bind at 1. cbn [Reset]. cbv beta iota.
  change (enc_list (concat (map AppendString (fields_storage a)))) with (account_storage a).
  unfold Reset. rewrite E2. unfold mbind, M_bind. by rewrite (ToBytes_all_spec _ _ A2).
Qed.

(** * Reading the encoding *)
Lemma must_bind {S A B} (o : outcome A) x (f : A → M S B) : o = Ret x → (must o ≫= f) = f x.
Proof. by intros ->. Qed.
Lemma of_outcome_bind {S A B} (o : outcome A) x (f : A → M S B) : o = Ret x → (of_outcome o ≫= f) = f x.
Proof. by intros ->. Qed.
Definition short_strings (l : list bytes) : Prop := Forall (λ s, blen s <= 32) l ∧ (length l <= 5)%nat.
Lemma short_payload_bound l : short_strings l → blen (concat (map AppendString l)) <= 205.
Proof. intros [Hl Hn]. pose proof (blen_strings l Hl). lia. Qed.
Lemma split_strings l : short_strings l → SplitList (enc_strings l) = Ret (concat (map AppendString l), []).
Proof.
  intros Hl. pose proof (short_payload_bound l Hl). unfold enc_strings.
  rewrite <-(app_nil_r (enc_list _)). apply SplitList_enc_list. change (blen []) with 0. lia.
Qed.
Lemma split_next s l : short_strings (s :: l) →
  SplitString (concat (map AppendString (s :: l))) = Ret (s, concat (map AppendString l)) ∧
  short_strings l.
Proof.
  intros [[Hs Hl]%Forall_cons Hn]. assert (short_strings l) as Hsl by (split; [done|simpl in Hn; lia]).
  pose proof (short_payload_bound l Hsl). split; [|done]. cbn [map concat].
  apply SplitString_AppendString. lia.
Qed.
(** What follows an element that is read. *)
Lemma must_next {S B} s l (f : bytes * bytes → M S B) : short_strings (s :: l) →
  (must (SplitString (concat (map AppendString (s :: l)))) ≫= f) = f (s, concat (map AppendString l)).
Proof. intros Hs. apply must_bind. by apply split_next. Qed.
Lemma short_tail s l : short_strings (s :: l) → short_strings l.
Proof. intros Hs. by apply split_next in Hs as [_ ?]. Qed.
Lemma fields_short a : account_ok a → short_strings (fields_storage a).
Proof. intros Ha. split; [by apply fields_storage_bounds|simpl; lia]. Qed.

Lemma uint_roundtrip i : is_u64 i → DEC_b_endian_compact_64 (uint_bytes i) = Ret i.
Proof.
  intros Hi. unfold uint_bytes. destruct (Z.eqb_spec i 0) as [->|Hne]; [done|].
  rewrite DEC_b_endian_compact_64_spec; [by rewrite be_val_compact|apply ENC_compact_bytes|].
  rewrite ENC_compact_length. pose proof (SizeInBytes_range i). lia.
Qed.
Lemma opt_hash_decoded h : hash_ok32 h →
  match default [] h with [] => None | _ => Some (Hash_SetBytes (default [] h)) end = h.
Proof.
  destruct h as [h|]; simpl; [|done]. intros Hl. unfold Hash_SetBytes.
  rewrite Hl, Nat.ltb_irrefl, Nat.sub_diag. cbn [replicate app]. by destruct h.
Qed.
Lemma decode_account a : account_ok a → DecodeAccountFromTrie (account_storage a) = Ret a.
Proof.
  intros Ha. pose proof (fields_short a Ha) as S5. pose proof Ha as [Hn Hb Hr Hc Hs].
  unfold DecodeAccountFromTrie, run_pure, MustSplitList, MustSplitString.
  rewrite (must_bind _ _ _ (split_strings _ S5)). cbv beta iota. unfold fields_storage in *.
  pose proof (short_tail _ _ S5) as S4. pose proof (short_tail _ _ S4) as S3.
  pose proof (short_tail _ _ S3) as S2. pose proof (short_tail _ _ S2) as S1.
  rewrite (must_next _ _ _ S5). cbv beta iota zeta. rewrite (must_next _ _ _ S4). cbv beta iota zeta.
  rewrite (must_next _ _ _ S3). cbv beta iota zeta. rewrite (must_next _ _ _ S2). cbv beta iota zeta.
  rewrite (must_next _ _ _ S1). cbv beta iota zeta.
  rewrite !be_val_big_Bytes, !opt_hash_decoded by (done || lia).
  rewrite (of_outcome_bind _ _ _ (uint_roundtrip _ Hs)). by destruct a.
Qed.
Lemma SplitString_Split b s r : SplitString b = Ret (s, r) → ∃ k, Split b = Ret (k, s, r).
Proof. unfold SplitString. destruct (Split b) as [[[[] c] t]| |]; intros [= <- <-]; eauto. Qed.
Lemma SplitList_Split b s r : SplitList b = Ret (s, r) → ∃ k, Split b = Ret (k, s, r).
Proof. unfold SplitList. destruct (Split b) as [[[[] c] t]| |]; intros [= <- <-]; eauto. Qed.
Lemma nth_item_spec n : ∀ l s, short_strings l → l !! n = Some s →
  nth_item n (concat (map AppendString l)) tt = (Ret s, tt).
Proof.
  induction n as [|n IH]; intros [|x l] s Hl Hi; try done;
    destruct (split_next x l Hl) as [E Hl']; apply SplitString_Split in E as [k E]; simpl in Hi;
    cbn [nth_item]; unfold MustSplit; rewrite (must_bind _ _ _ E).
  - by injection Hi as ->.
  - by apply IH.
Qed.
Lemma RLPListAt_spec l n s :
  short_strings l → l !! n = Some s → RLPListAt (enc_strings l) n tt = (Ret s, tt).
Proof.
  intros Hl Hi. pose proof (split_strings l Hl) as E. apply SplitList_Split in E as [k E].
  unfold RLPListAt, MustSplit. rewrite (must_bind _ _ _ E). by apply nth_item_spec.
Qed.
Lemma HashView_default h : hash_ok32 h → HashView (default [] h) = Ret h.
Proof.
  destruct h as [h|]; simpl; [|done]. intros Hl. unfold HashView. rewrite Hl, Nat.eqb_refl. by destruct h.
Qed.
Lemma hash_at l n h : short_strings l → l !! n = Some (default [] h) → hash_ok32 h →
  run_pure (b ← RLPListAt (enc_strings l) n; of_outcome (HashView b)) = Ret h.
Proof.
  intros Hl Hi Hh. unfold run_pure, mbind, M_bind. rewrite (RLPListAt_spec _ _ _ Hl Hi).
  unfold of_outcome. by rewrite HashView_default.
Qed.
Lemma account_hashes a : account_ok a →
  StorageRoot (account_storage a) = Ret (db_StorageRootHash a) ∧
  CodeHash (account_storage a) = Ret (db_CodeHash a).
Proof.
  intros Ha. pose proof (fields_short a Ha). pose proof Ha as [_ _ Hr Hc _].
  split; by apply hash_at.
Qed.
Lemma or_default h d : hash_ok32 h →
  match default [] h with [] => d | _ => default [] h end = default d h.
Proof. destruct h as [[|x h]|]; simpl; [|done|done]. unfold hash_ok32, HashLength. done. Qed.
Lemma main_schema a :
  account_ok a → main_ValueStorageToHashEncoding (account_storage a) = Ret (account_hashed a).
Proof.
  intros Ha. pose proof (fields_short a Ha) as S5. pose proof Ha as [Hn Hb Hr Hc Hs].
  pose proof (strings_small _ 4 (fields_hash_bounds a Ha) ltac:(simpl; lia) ltac:(lia)) as Lh.
  destruct (list_then_spec (map Append (fields_hash a)) (map AppendString (fields_hash a)) ToBytes_all)
    with (e := encoder_nil) as (e2 & E2 & A2).
  { apply Forall2_fmap, Forall_Forall2_diag, Forall_true. intros x. apply appends_Append. }
  { done. }
  { change (blen (enc_strings (fields_hash a)) < 2 ^ 32 - 1). lia. }
  unfold main_ValueStorageToHashEncoding. rewrite (ToBytes_all_spec _ _ A2) in E2.
  enough (∀ p : outcome bytes * Encoder, p = (Ret (account_hashed a), e2) → p.1 = Ret (account_hashed a)) as Hx.
  2:{ by intros p ->. }
  apply Hx. clear Hx. unfold account_hashed, enc_strings. rewrite <-E2. clear E2 A2 Lh.
  rewrite !(bind_run _ _ _ _ _ (ListStart_run encoder_nil)).
  rewrite (must_bind _ _ _ (split_strings _ S5)). cbv beta iota. unfold fields_storage in *.
  pose proof (short_tail _ _ S5) as S4. pose proof (short_tail _ _ S4) as S3.
  pose proof (short_tail _ _ S3) as S2.
  rewrite (must_next _ _ _ S5). cbv beta iota. rewrite (must_next _ _ _ S4). cbv beta iota.
  rewrite (must_next _ _ _ S3). cbv beta iota. rewrite (must_next _ _ _ S2). cbv beta iota.
  by rewrite !or_default by done.
Qed.

(** C29: account_encoding_roundtrip.  For every account the state can hold (nonce and balance of
    at most 256 bits, roots of 32 bytes or none, a 64-bit code size) [EncodeForTrie] neither fails
    nor panics; its stored encoding is never empty, [DecodeAccountFromTrie] gives the account back,
    [StorageRoot] and [CodeHash] read the two hashes out of it, and [ValueStorageToHashEncoding]
    of the main trie's schema recomputes from it exactly the encoding that [EncodeForTrie] gives
    to be hashed, so a trie read back from the store hashes as the one that was written. *)
Theorem account_encoding_roundtrip a :
  account_ok a →
  ∃ enc_storage enc_hash, Account_EncodeForTrie a = Ret (enc_storage, enc_hash) ∧
    enc_storage ≠ [] ∧
    DecodeAccountFromTrie enc_storage = Ret a ∧
    StorageRoot enc_storage = Ret (db_StorageRootHash a) ∧
    CodeHash enc_storage = Ret (db_CodeHash a) ∧
    main_ValueStorageToHashEncoding enc_storage = Ret enc_hash.
Proof.
  intros Ha. exists (account_storage a), (account_hashed a). destruct (account_hashes a Ha) as [Er Ec].
  split_and!; [by apply encode_account| |by apply decode_account|done|done|by apply main_schema].
  intros E. pose proof (enc_list_bounds (concat (map AppendString (fields_storage a)))) as B.
  change (account_storage a = []) in E. unfold account_storage, enc_strings in E. rewrite E in B.
  pose proof (blen_nonneg (concat (map AppendString (fields_storage a)))). change (blen []) with 0 in B. lia.
Qed.
End encodings.

Lemma account_encoding_roundtrip_witness :
  let a := {| db_Nonce := 300; db_Balance := 10 ^ 20; db_StorageRootHash := Some (replicate 32 7);
              db_CodeHash := None; db_CodeSize := 200 |} in
  let H : Keccak := λ b, replicate 32 (blen b) in
  account_ok a ∧
  ∃ enc_storage enc_hash, Account_EncodeForTrie a = Ret (enc_storage, enc_hash) ∧
    enc_storage ≠ [] ∧
    DecodeAccountFromTrie enc_storage = Ret a ∧
    StorageRoot enc_storage = Ret (db_StorageRootHash a) ∧
    CodeHash enc_storage = Ret (db_CodeHash a) ∧
    main_ValueStorageToHashEncoding enc_storage = Ret enc_hash.
Proof.
  intros a H. assert (account_ok a) as Ha by (by constructor). split; [exact Ha|].
  apply (account_encoding_roundtrip (λ b, length_replicate 32 (blen b)) a Ha).
Defined.
