(* ===== verification/TrieExamples.v ===== *)
(** The trie on concrete blocks: a history of puts, deletions and reopened writers over storage
    values, the roots and the listing computed, and the instances of the trie's theorems. *)
From Stdlib Require Import Sorted.
From S2P Require Import Prelude Codec Rlp RlpEncoder Storage TrieEncoding Trie TrieMap TrieHash TrieRep TrieCommit TrieBuild TrieRun TrieReader TrieHistory TrieSchemas.

(** A hash for the examples: 32 bytes of a polynomial in the bytes. *)
Definition toy_hash (b : bytes) : bytes :=
  le_enc 32 (foldl (λ a x, (a * 257 + x + 1) mod 2 ^ 256) 7 b).
#[local] Instance toy : Keccak := toy_hash.
#[local] Instance slots : Schema := AccountTrieSchema.
#[local] Instance slot_values : TrieValue acc_storage_trie_value := storage_EncodeForTrie.
Lemma le_enc_length n x : length (le_enc n x) = n.
Proof. revert x. induction n as [|n IH]; intros x; [done|]. simpl. by rewrite IH. Qed.
Lemma toy_length (b : bytes) : length (keccak b) = HashLength.
Proof. apply le_enc_length. Qed.
Lemma slots_max : MaxValueSizeToStoreInTrie < Z.of_nat HashLength.
Proof. done. Qed.

Definition empty_store : Trie.Input := {| GetValue := λ _, None; GetNode := λ _, None |}.
Definition slot_key (i : Z) : bytes := replicate 30 0xAB ++ [i; 0x10].
Definition slot (b : bytes) : acc_storage_trie_value := NewAccStorageTrieValue b.
(** Three values; then, with the writer opened anew, a change, a deletion and a deletion of a key
    that is not there; then everything deleted but one; then that one, too. *)
Definition example_blocks : list (@block acc_storage_trie_value) := [
  {| reopen := false; block_ops :=
       [OpPut (slot_key 1) (slot [5]); OpPut (slot_key 2) (slot (replicate 40 9));
        OpPut (slot_key 17) (slot [200; 1])] |};
  {| reopen := true; block_ops :=
       [OpPut (slot_key 2) (slot [6]); OpDelete (slot_key 1); OpDelete (slot_key 9)] |};
  {| reopen := false; block_ops := [OpDelete (slot_key 2)] |};
  {| reopen := true; block_ops := [OpDelete (slot_key 17)] |}].
Definition example_run := run_blocks 0 example_blocks None empty_store (opened_at ∅ 0).

(** The nodes written: no two under one hash differ. *)
Definition put_agrees (w1 w2 : write) : bool :=
  match w1, w2 with
  | PutNode h b, PutNode h' b' => negb (bool_decide (h = h')) || bool_decide (b = b')
  | _, _ => true
  end.
Lemma nodes_agree_empty ws :
  forallb (λ w1, forallb (put_agrees w1) ws) ws = true → nodes_agree empty_store ws.
Proof.
  intros Hf h b b' Hb [Hb'|Hb']; [done|]. rewrite forallb_forall in Hf.
  apply list_elem_of_In in Hb, Hb'. specialize (Hf _ Hb). rewrite forallb_forall in Hf.
  specialize (Hf _ Hb'). cbn [put_agrees] in Hf. rewrite bool_decide_true in Hf by done.
  by apply bool_decide_eq_true in Hf.
Qed.
Lemma storage_value_ok L s : s ≠ [] → blen (ToRLPString s) <= L → value_ok L s.
Proof. intros Hs Hl. split; [split; [done|by eexists]|done]. Qed.

Example example_values :
  let '(o, db, w, ws) := example_run in
  (match o with Ret l => map (λ h : option hash, match h with Some _ => true | None => false end) l | _ => [] end,
   length ws, map (λ i, GetValue db (slot_key i)) [1; 2; 17]) =
  ([true; true; true; false], 12%nat, [None; None; None]).
Proof. vm_compute. reflexivity. Qed.

Lemma empty_store_ok : store_ok 100 empty_store ∅.
Proof.
  constructor; [split|done|done]; [|by intros k s ?%lookup_empty_Some].
  intros k [s Hs]. by apply lookup_empty_Some in Hs.
Qed.
Lemma example_ops_ok : Forall (λ b, Forall (op_ok 100) (block_ops b)) example_blocks.
Proof.
  assert (∀ i, is_byte i → hash_key (slot_key i)) as Hk.
  { intros i Hi. split; [done|]. apply Forall_app. split; [by apply Forall_replicate|].
    repeat constructor; unfold is_byte in *; lia. }
  assert (∀ i s, is_byte i → s ≠ [] → blen (ToRLPString s) <= 100 →
    op_ok 100 (OpPut (slot_key i) (slot s))) as Hput.
  { intros i s Hi Hs Hl. split_and!; [by apply Hk|by apply storage_value_ok|done]. }
  assert (∀ i, is_byte i → op_ok 100 (OpDelete (slot_key i) : trie_op acc_storage_trie_value)) as Hdel.
  { intros i Hi. by apply Hk. }
  repeat (apply Forall_cons; split); try apply Forall_nil_2;
    (apply Hput || apply Hdel); try done; by vm_compute.
Qed.
Lemma trie_history_refines_map_witness :
  store_ok 100 empty_store ∅ ∧ Forall (λ b, Forall (op_ok 100) (block_ops b)) example_blocks ∧
  let '(o, db', w', ws) := run_blocks 0 example_blocks (root_hash ∅) empty_store (opened_at ∅ 0) in
  nodes_agree empty_store ws ∧
  o = Ret (roots example_blocks ∅) ∧
  (∀ k, hash_key k → GetValue db' k = map_blocks example_blocks ∅ !! k) ∧
  store_ok 100 db' (map_blocks example_blocks ∅).
Proof.
  split; [exact empty_store_ok|]. split; [exact example_ops_ok|].
  pose proof (trie_history_refines_map toy_length slots_max 100 ltac:(lia) 0 ltac:(done)
    example_blocks empty_store ∅ empty_store_ok example_ops_ok) as Hh.
  assert (forallb (λ w1, forallb (put_agrees w1)
    (run_blocks 0 example_blocks (root_hash ∅) empty_store (opened_at ∅ 0)).2)
    (run_blocks 0 example_blocks (root_hash ∅) empty_store (opened_at ∅ 0)).2 = true) as Ha
    by (vm_compute; reflexivity).
  destruct (run_blocks _ _ _ _ _) as [[[o db'] w'] ws].
  apply nodes_agree_empty in Ha. split; [exact Ha|exact (Hh Ha)].
Defined.

(** The store after the first block, as the theorem on histories gives it. *)
Definition first_block : list (@block acc_storage_trie_value) := take 1 example_blocks.
Definition first_store : Trie.Input :=
  let '(_, db, _, _) := run_blocks 0 first_block None empty_store (opened_at ∅ 0) in db.
Definition first_map : gmap bytes bytes := map_blocks first_block ∅.
Definition first_root : hash := default [] (root_hash first_map).
Lemma first_store_ok : store_ok 100 first_store first_map.
Proof.
  pose proof (history_models toy_length slots_max 100 ltac:(lia) 0 ltac:(done)
    first_block empty_store (opened_at ∅ 0) ∅) as Hh.
  assert (Forall (λ b, Forall (op_ok 100) (block_ops b)) first_block) as Hok.
  { apply Forall_take, example_ops_ok. }
  specialize (Hh Hok empty_store_ok (opened_models toy_length slots_max 100 ltac:(lia) _ _ 0 empty_store_ok) eq_refl).
  assert (forallb (λ w1, forallb (put_agrees w1)
    (run_blocks 0 first_block (root_hash ∅) empty_store (opened_at ∅ 0)).2)
    (run_blocks 0 first_block (root_hash ∅) empty_store (opened_at ∅ 0)).2 = true) as Ha
    by (vm_compute; reflexivity).
  unfold first_store. change None with (root_hash ∅).
  destruct (run_blocks _ _ _ _ _) as [[[o db'] w'] ws].
  apply nodes_agree_empty in Ha. by destruct (Hh Ha) as (_ & ? & _).
Qed.
Lemma ForEach_lists_map_witness :
  store_ok 100 first_store first_map ∧ root_hash first_map = Some first_root ∧
  ∃ l : list (hash * option (Value acc_storage_trie_value)),
    ForEach first_store first_root true tt = (Ret l, tt) ∧
    StronglySorted (λ a b, key_lt (keybytesToHex a.1) (keybytesToHex b.1)) l ∧
    (∀ k s, hash_key k →
      first_map !! k = Some s ↔ ∃ v, (k, Some v) ∈ l ∧ value_encodings v = (s, hash_value s)) ∧
    ∀ k o, (k, o) ∈ l → hash_key k ∧ is_Some o.
Proof.
  assert (root_hash first_map = Some first_root) as Hr by (vm_compute; reflexivity).
  split; [exact first_store_ok|]. split; [exact Hr|].
  exact (ForEach_lists_map toy_length slots_max 100 ltac:(lia) first_store first_map first_root tt
    first_store_ok Hr).
Defined.
