(* ===== verification/StateDb.v ===== *)
(** The database of the state (ebla/state/state_db_rocksdb: db.go, latest_state.go, misc.go;
    state_db/db.go): versioned values, the block that is being written, the commit of its batch,
    the readers of a block, the views of the latest values, the life of the options across
    restarts, and pruning.  RocksDB (github.com/linxGnu/grocksdb) is third-party: its operations
    are a class, its documented behaviour a class of laws.  The tasks of the single writer thread
    are run when they are submitted. *)
From Stdlib Require Import Sorted.
From S2P Require Import Prelude Codec Rlp RlpEncoder Storage EvmInterface StateEvm Trie TrieHash TrieReader TrieSchemas.

#[global] Instance Column_eq_dec : EqDecision Column.
Proof. solve_decision. Defined.
(** The column families: those of [state_db], and the three of the package. *)
Inductive cf : Type :=
| cf_default
| cf_col (c : Column)
| col_main_trie_value_latest
| col_acc_trie_value_latest
| col_config_changes.
#[global] Instance cf_eq_dec : EqDecision cf.
Proof. solve_decision. Defined.

(** * RocksDB *)
Inductive batch_op : Type := BatchPutCF (c : cf) (k v : bytes).
Class RocksDB (R : Type) : Type := {
  GetCF : R → cf → bytes → option bytes;
  PutCF : cf → bytes → bytes → R → R;
  DeleteCF : cf → bytes → R → R;
  (** A batch is written as a whole or not at all, with an error. *)
  Write : list batch_op → R → option string * R;
  (** What an iterator over [R] finds at a key or before it. *)
  SeekForPrev : R → cf → bytes → option (bytes * bytes);
  (** What an iterator passes from [SeekToFirst] until it is not valid. *)
  Iterate : R → cf → list (bytes * bytes);
  DropColumnFamily : cf → R → R;
  CreateColumnFamily : cf → R → R
}.
Definition batch_put (c : cf) (m : gmap bytes bytes) (op : batch_op) : gmap bytes bytes :=
  match op with BatchPutCF c' k v => if bool_decide (c' = c) then <[k := v]> m else m end.
(** The documented behaviour: an ordered map per column family, the order bytewise. *)
Class RocksLaws (R : Type) `{RocksDB R} : Type := {
  contents : R → cf → gmap bytes bytes;
  get_law r c k : GetCF r c k = contents r c !! k;
  put_law r c k v c' : contents (PutCF c k v r) c' =
    if bool_decide (c' = c) then <[k := v]> (contents r c') else contents r c';
  delete_law r c k c' : contents (DeleteCF c k r) c' =
    if bool_decide (c' = c) then delete k (contents r c') else contents r c';
  write_law r ops c : match Write ops r with
    | (None, r') => contents r' c = foldl (batch_put c) (contents r c) ops
    | (Some _, r') => contents r' c = contents r c
    end;
  seek_law r c t : match SeekForPrev r c t with
    | Some (k, v) => contents r c !! k = Some v ∧ ¬ key_lt t k ∧
        ∀ k', is_Some (contents r c !! k') → ¬ key_lt t k' → ¬ key_lt k k'
    | None => ∀ k', is_Some (contents r c !! k') → key_lt t k'
    end;
  iterate_sorted r c : StronglySorted (λ a b, key_lt a.1 b.1) (Iterate r c);
  iterate_law r c k v : (k, v) ∈ Iterate r c ↔ contents r c !! k = Some v;
  drop_law r c c' : c' ≠ c → contents (DropColumnFamily c r) c' = contents r c';
  create_law r c c' : contents (CreateColumnFamily c (DropColumnFamily c r)) c' =
    if bool_decide (c' = c) then ∅ else contents r c'
}.

(** * Keys with a version ([misc.go]) *)
Definition VersionedKeyLength : nat := 40.
Definition SetKey (prefix self : bytes) : bytes := prefix ++ drop HashLength self.
(** [binary.BigEndian.PutUint64] *)
Definition PutUint64 (n : Z) : bytes := rev (le_enc 8 n).
Definition SetVersion (block_num : Z) (self : bytes) : bytes :=
  take HashLength self ++ PutUint64 block_num.
Definition zero_key : bytes := replicate VersionedKeyLength 0.

(** * The state *)
Definition BlockNumberNIL : Z := 2 ^ 64 - 1.
Record StateDescriptor : Type := { BlockNum : Z; StateRoot : hash }.
#[export] Program Instance StateDescriptor_codec : RlpCodec StateDescriptor := {
  rlp_wf d := is_u64 (BlockNum d) ∧ length (StateRoot d) = HashLength;
  rlp_encode d := enc_struct [Ret (AppendUint (BlockNum d)); Ret (AppendString (StateRoot d))];
  rlp_decode := decodeStruct (
    n ← Stream_uint 64; r ← decodeByteArray 32; mret {| BlockNum := n; StateRoot := r |})
}.
Next Obligation.
  intros [n r] (Hn & Hr). simpl in *. unfold enc_struct. cbn [enc_fields]. rewrite app_nil_r.
  assert (blen r = 32) as Hb by (unfold blen; by rewrite Hr).
  eexists. split; [reflexivity|].
  assert (∀ s, enc_list s ≠ []) as Hne.
  { intros s E. pose proof (enc_list_bounds s) as B. rewrite E in B. change (blen []) with 0 in B.
    pose proof (blen_nonneg s). lia. }
  split; [apply Hne|]. intros rest. apply decodeStruct_enc_list.
  - assert (blen (AppendUint n) <= 9).
    { rewrite AppendUint_string by done. pose proof (blen_uint n Hn) as Hl.
      destruct (AppendString_cases (uint_bytes n)) as [(b & _ & _ & ->)|[-> _]]; [unfold blen; simpl; lia|].
      rewrite blen_app, string_head_length. unfold headsize.
      destruct (Z.ltb_spec (blen (uint_bytes n)) 56); lia. }
    assert (blen (AppendString r) <= 33).
    { destruct (AppendString_cases r) as [(b & _ & _ & ->)|[-> _]]; [unfold blen; simpl; lia|].
      rewrite blen_app, string_head_length, Hb. change (headsize 32) with 1. lia. }
    rewrite blen_app. lia.
  - rewrite <-(app_nil_r (AppendString r)), app_assoc.
    rewrite <-app_assoc.
    rewrite (bind_run _ _ _ _ _ (Stream_uint_AppendUint 64 n _ ltac:(auto) ltac:(exact Hn))).
    change 32 with (Z.of_nat HashLength). rewrite <-Hr.
    rewrite (bind_run _ _ _ _ _ (decodeByteArray_AppendString r [] ltac:(lia))). done.
Qed.

(** [DB] with its [LatestState]. *)
Record DB (R : Type) : Type := {
  db : R;
  DisableMostRecentTrieValueViews : bool;
  batch : list batch_op;
  state_desc : StateDescriptor;
  pending_blk_n : Z
}.
Arguments db {_} _.
Arguments DisableMostRecentTrieValueViews {_} _.
Arguments batch {_} _.
Arguments state_desc {_} _.
Arguments pending_blk_n {_} _.

(** [[]byte(s)] *)
Definition ascii_bytes (s : string) : bytes :=
  map (λ a, Z.of_N (Ascii.N_of_ascii a)) (String.list_ascii_of_string s).
Definition last_committed_desc_key : bytes := ascii_bytes "last_committed_descriptor".
Definition most_recent_trie_value_views_status_key : bytes :=
  ascii_bytes "most_recent_trie_value_views_status".

Section db.
Context {R : Type} `{!RocksDB R}.
Abbreviation D := (M (DB R)).

Definition set_db (r : R) (d : DB R) : DB R := {|
  db := r; DisableMostRecentTrieValueViews := DisableMostRecentTrieValueViews d;
  batch := batch d; state_desc := state_desc d; pending_blk_n := pending_blk_n d |}.
Definition set_batch (b : list batch_op) (d : DB R) : DB R := {|
  db := db d; DisableMostRecentTrieValueViews := DisableMostRecentTrieValueViews d;
  batch := b; state_desc := state_desc d; pending_blk_n := pending_blk_n d |}.
Definition set_desc (s : StateDescriptor) (d : DB R) : DB R := {|
  db := db d; DisableMostRecentTrieValueViews := DisableMostRecentTrieValueViews d;
  batch := batch d; state_desc := s; pending_blk_n := pending_blk_n d |}.
Definition set_pending (n : Z) (d : DB R) : DB R := {|
  db := db d; DisableMostRecentTrieValueViews := DisableMostRecentTrieValueViews d;
  batch := batch d; state_desc := state_desc d; pending_blk_n := n |}.

(** * Reading the state of a block *)
(** [versioned_read_columns] *)
Definition versioned (c : cf) : bool :=
  match c with cf_col (COL_acc_trie_value | COL_main_trie_value) => true | _ => false end.
(** The callback's argument: no call for no bytes. *)
Definition some_bytes (v : bytes) : option bytes := match v with [] => None | _ => Some v end.
(** [bytes.HasPrefix] *)
Definition HasPrefix (s prefix : bytes) : bool := bool_decide (take (length prefix) s = prefix).
Definition block_state_reader_Get (r : R) (blk_n : Z) (col : cf) (k : hash) : option bytes :=
  if blk_n =? BlockNumberNIL then None
  else if versioned col then
    match SeekForPrev r col (SetVersion blk_n (SetKey k zero_key)) with
    | Some (k', v) => if HasPrefix k' k then some_bytes v else None
    | None => None
    end
  else GetCF r col k ≫= some_bytes.
Definition DB_GetBlockStateReader (d : DB R) (blk_n : Z) : db_Get :=
  λ col k, block_state_reader_Get (db d) blk_n (cf_col col) k.
Definition GetCommittedDescriptor (d : DB R) : StateDescriptor := state_desc d.
(** [state_db.GetBlockStateReader]; the numbers of the message are left out. *)
Definition GetBlockStateReader (blk_n : Z) : D db_Get := λ d,
  if BlockNum (GetCommittedDescriptor d) <? blk_n then
    (Panic "Requested blk num is greater than the last committed", d)
  else (Ret (DB_GetBlockStateReader d blk_n), d).

(** * The block that is written ([latest_state.go]) *)
Record PendingBlockState : Type := {
  reader_blk_n : Z;
  blk_n : Z;
  trie_value_key_buf : bytes
}.
Definition BeginPendingBlock : D PendingBlockState := λ d,
  let n := u64 (pending_blk_n d + 1) in
  (Ret {| reader_blk_n := BlockNum (state_desc d); blk_n := n;
          trie_value_key_buf := SetVersion n zero_key |}, set_pending n d).
Definition GetNumber (p : PendingBlockState) : Z := blk_n p.
Definition latest_col (col : Column) : cf :=
  match col with
  | COL_acc_trie_value => col_acc_trie_value_latest
  | COL_main_trie_value => col_main_trie_value_latest
  | _ => cf_col col
  end.
Definition PendingBlockState_Get (d : DB R) (p : PendingBlockState) : db_Get := λ col k,
  block_state_reader_Get (db d) (reader_blk_n p)
    (if DisableMostRecentTrieValueViews d then cf_col col else latest_col col) k.
(** What a put adds to the batch.  The key buffer keeps its version; its first 32 bytes are
    overwritten by every key. *)
Definition put_ops (views_disabled : bool) (key_buf : bytes) (col : Column) (k : hash) (v : bytes)
    : list batch_op :=
  if negb (versioned (cf_col col)) then [BatchPutCF (cf_col col) k v]
  else BatchPutCF (cf_col col) (SetKey k key_buf) v ::
       (if views_disabled then [] else [BatchPutCF (latest_col col) k v]).
Definition PendingBlockState_Put (p : PendingBlockState) (col : Column) (k : hash) (v : bytes)
    : D unit := λ d,
  (Ret tt, set_batch (batch d ++
     put_ops (DisableMostRecentTrieValueViews d) (trie_value_key_buf p) col k v) d).
(** [Commit]: the batch with the new descriptor is written; the batch is empty afterwards. *)
Definition LatestState_Commit (state_root : hash) : D (option string) := λ d,
  let desc := {| BlockNum := pending_blk_n d; StateRoot := state_root |} in
  match MustEncodeToBytes desc with
  | Ret v =>
      match Write (batch d ++ [BatchPutCF cf_default last_committed_desc_key v]) (db d) with
      | (None, r) => (Ret None, set_batch [] (set_desc desc (set_db r d)))
      | (Some e, r) => (Ret (Some e), set_batch [] (set_db r d))
      end
  | Err e => (Err e, d)
  | Panic p => (Panic p, d)
  end.

(** * Start-up *)
Definition err_not_supported : string :=
  "This database doesn't anymore support the most recent trie value views feature".
Definition enabled : bytes := ascii_bytes "enabled".
Definition disabled : bytes := ascii_bytes "disabled".
Definition disabling : bytes := ascii_bytes "disabling".
Definition put_status (v : bytes) (r : R) : R :=
  PutCF cf_default most_recent_trie_value_views_status_key v r.
(** The status of the views, checked against the option.  [dropped] is what the next opening
    of the database finds: the two column families are created anew. *)
Definition init_views (disable : bool) (blk : Z) (r : R) : outcome R :=
  let status := default [] (GetCF r cf_default most_recent_trie_value_views_status_key) in
  match status with
  | [] =>
      if disable then Ret (put_status disabled r)
      else if blk =? BlockNumberNIL then Ret (put_status enabled r)
      else Panic err_not_supported
  | _ =>
      let differs := negb (Bool.eqb (bool_decide (status = enabled)) (negb disable)) in
      if differs && negb disable then Panic err_not_supported
      else
        let '(status, r) := if differs then (disabling, put_status disabling r) else (status, r) in
        if bool_decide (status = disabling) then
          Ret (put_status disabled
                 (DropColumnFamily col_acc_trie_value_latest
                    (DropColumnFamily col_main_trie_value_latest r)))
        else Ret r
  end.
Definition no_descriptor : StateDescriptor := {| BlockNum := BlockNumberNIL; StateRoot := ZeroHash |}.
Definition LatestState_Init (disable : bool) (r : R) : outcome (DB R) :=
  let desc :=
    match GetCF r cf_default last_committed_desc_key ≫= some_bytes with
    | Some v => MustDecodeBytes rlp_decode v
    | None => Ret no_descriptor
    end in
  match desc with
  | Ret desc =>
      match init_views disable (BlockNum desc) r with
      | Ret r => Ret {| db := r; DisableMostRecentTrieValueViews := disable; batch := [];
                        state_desc := desc; pending_blk_n := BlockNum desc |}
      | Err e => Err e
      | Panic p => Panic p
      end
  | Err e => Err e
  | Panic p => Panic p
  end.

(** * The changes of the configuration *)
Definition SaveDPOSConfigChange (blk : Z) (cfg : bytes) (d : DB R) : DB R :=
  set_db (PutCF col_config_changes (big_Bytes blk) cfg (db d)) d.
Definition GetDPOSConfigChanges (d : DB R) : gmap Z bytes :=
  foldl (λ res kv, <[u64 (be_val kv.1) := kv.2]> res) ∅ (Iterate (db d) col_config_changes).

(** * Pruning *)
Definition prefix_of (k : bytes) : bytes := take HashLength k.
Definition version_of (k : bytes) : Z := be_val (take 8 (drop HashLength k)).
(** The loop of [deleteStateValues]: an entry goes when the next entry of its key has a version
    below the block.  An iterator that is not valid has no key to read. *)
Fixpoint values_to_prune (blk_num : Z) (l : list (bytes * bytes)) : list bytes :=
  match l with
  | (prev_key, _) :: (((key, _) :: _) as l') =>
      (if bool_decide (prefix_of prev_key = prefix_of key) && (version_of key <? blk_num)
       then [prev_key] else []) ++ values_to_prune blk_num l'
  | _ => []
  end.
Definition invalid_iterator : string := "(iterator not valid)".
(** The deletions in batches of [db_prune_buffer_max_size] are the deletions in their order. *)
Definition delete_all (c : cf) (keys : list bytes) : D unit := λ d,
  (Ret tt, set_db (foldl (λ r k, DeleteCF c k r) (db d) keys) d).
Definition entries_of (c : cf) : D (list (bytes * bytes)) := λ d,
  match Iterate (db d) c with [] => (Panic invalid_iterator, d) | l => (Ret l, d) end.
Definition deleteStateValues (blk_num : Z) : D unit :=
  l ← entries_of (cf_col COL_acc_trie_value);
  delete_all (cf_col COL_acc_trie_value) (values_to_prune blk_num l).
Definition RecreateColumn (c : Column) (nodes : list (hash * bytes)) : D unit := λ d,
  (Ret tt, set_db (foldl (λ r kv, PutCF (cf_col c) kv.1 kv.2 r)
     (CreateColumnFamily (cf_col c) (DropColumnFamily (cf_col c) (db d))) nodes) d).
Section prune.
Context `{Keccak}.
(** The nodes of the tries of the roots; a node is put once, its bytes are the same each time. *)
Fixpoint nodes_of_roots (f : option hash → outcome (list (hash * bytes))) (roots : list hash)
    : D (list (hash * bytes)) :=
  match roots with
  | [] => mret []
  | h :: roots => l ← of_outcome (f (Some h)); l' ← nodes_of_roots f roots; mret (l ++ l')
  end.
Definition recreateMainTrie (state_root_to_keep : list hash) (blk_num : Z) : D unit :=
  current_block_state ← GetBlockStateReader blk_num;
  nodes_to_keep ← nodes_of_roots (ForEachMainNodeHashByRoot current_block_state) state_root_to_keep;
  RecreateColumn COL_main_trie_node nodes_to_keep.
(** The loop of [deleteStateRoot]: the values that go, and the storage roots of those that stay. *)
Fixpoint roots_to_keep (blk_num : Z) (l : list (bytes * bytes)) : D (list bytes * list hash) :=
  match l with
  | [] => mret ([], [])
  | (prev_key, v) :: l' =>
      account ← of_outcome (DecodeAccountFromTrie v);
      '(prune, keep) ← roots_to_keep blk_num l';
      let root := match db_StorageRootHash account with Some h => [h] | None => [] end in
      mret (match l' with
            | (key, _) :: _ =>
                if bool_decide (prefix_of prev_key = prefix_of key) && (version_of key <? blk_num)
                then (prev_key :: prune, keep) else (prune, root ++ keep)
            | [] => (prune, root ++ keep)
            end)
  end.
Definition deleteStateRoot (blk_num : Z) : D unit :=
  current_block_state ← GetBlockStateReader blk_num;
  l ← entries_of (cf_col COL_main_trie_value);
  '(value_to_prune, storage_root_to_keep) ← roots_to_keep blk_num l;
  delete_all (cf_col COL_main_trie_value) value_to_prune ;;
  account_nodes_to_keep ←
    nodes_of_roots (ForEachAccountNodeHashByRoot current_block_state) storage_root_to_keep;
  RecreateColumn COL_acc_trie_node account_nodes_to_keep.
(** [Prune]: the three tasks work on different columns; here one after the other. *)
Definition Prune (state_root_to_keep : list hash) (blk_num : Z) : D unit :=
  deleteStateValues blk_num ;;
  recreateMainTrie state_root_to_keep blk_num ;;
  deleteStateRoot blk_num.
End prune.
End db.
