(* ===== verification/TrieSink.v ===== *)
(** The output of a block (ebla/state/state_transition/trie_sink.go): the updates of the accounts
    go to the storage tries and to the main trie, whose roots the commits compute.
    Three kinds of threads work for the sink, each with its queue.  The tasks of a mutation touch
    that mutation only; here each runs when it is submitted.  The tasks of the main trie stay in
    their queue until the join in [Commit]; they read mutations through [EncodeForTrie] only, which
    waits for the mutation's tasks.  Reads see the last committed block; what a thread puts is kept
    in its order, and the threads' puts follow each other, as one schedule has it. *)
From S2P Require Import Prelude Codec Rlp Storage EvmInterface StateEvm Trie TrieSchemas.

(** [TrieSinkAccountMutation]; [trie_writer] is nil until the storage changes. *)
Record TrieSinkAccountMutation : Type := {
  mut_addr : address;
  acc : DbAccount;
  pending : bool;
  enc_storage : bytes;
  enc_hash : bytes;
  trie_writer : option (writer_state acc_storage_trie_value)
}.
Abbreviation Mutation := TrieSinkAccountMutation.
(** A task of the main trie's thread; a mutation is its place in the list of mutations. *)
Inductive main_task : Type :=
| MainPut (k : hash) (m : nat)
| MainDelete (k : hash).
Record TrieSink : Type := {
  thread_main_trie_write : list main_task;
  main_trie_writer : writer_state Mutation;
  mutations : list Mutation;
  code_puts : list db_put
}.
Abbreviation SinkM := (M TrieSink).

Definition set_queue (q : list main_task) (s : TrieSink) : TrieSink := {|
  thread_main_trie_write := q; main_trie_writer := main_trie_writer s;
  mutations := mutations s; code_puts := code_puts s |}.
Definition set_main (w : writer_state Mutation) (s : TrieSink) : TrieSink := {|
  thread_main_trie_write := thread_main_trie_write s; main_trie_writer := w;
  mutations := mutations s; code_puts := code_puts s |}.
Definition set_mutations (l : list Mutation) (s : TrieSink) : TrieSink := {|
  thread_main_trie_write := thread_main_trie_write s; main_trie_writer := main_trie_writer s;
  mutations := l; code_puts := code_puts s |}.
Definition set_code_puts (l : list db_put) (s : TrieSink) : TrieSink := {|
  thread_main_trie_write := thread_main_trie_write s; main_trie_writer := main_trie_writer s;
  mutations := mutations s; code_puts := l |}.
Definition set_mutation (id : nat) (m : Mutation) : SinkM unit := λ s,
  (Ret tt, set_mutations (<[id := m]> (mutations s)) s).
Definition get_mutation (id : nat) : SinkM Mutation := λ s,
  match mutations s !! id with Some m => (Ret m, s) | None => (Panic nil_panic, s) end.
Definition submit_main (t : main_task) : SinkM unit := λ s,
  (Ret tt, set_queue (thread_main_trie_write s ++ [t]) s).
Definition Put_code (h : hash) (code : bytes) : SinkM unit := λ s,
  (Ret tt, set_code_puts (code_puts s ++ [(COL_code, h, code)]) s).
(** What is put to the database in the block. *)
Definition mutation_puts `{Keccak} (m : Mutation) : list db_put :=
  match trie_writer m with
  | Some w => map (AccountTrieIOAdapter_Put (mut_addr m)) (written w)
  | None => []
  end.
Definition sink_puts `{Keccak} (s : TrieSink) : list db_put :=
  code_puts s ++ concat (map mutation_puts (mutations s)) ++
  map MainTrieIOAdapter_Put (written (main_trie_writer s)).

Definition with_acc (a : DbAccount) (m : Mutation) : Mutation := {|
  mut_addr := mut_addr m; acc := a; pending := pending m; enc_storage := enc_storage m;
  enc_hash := enc_hash m; trie_writer := trie_writer m |}.
Definition with_pending (b : bool) (m : Mutation) : Mutation := {|
  mut_addr := mut_addr m; acc := acc m; pending := b; enc_storage := enc_storage m;
  enc_hash := enc_hash m; trie_writer := trie_writer m |}.
Definition with_writer (w : option (writer_state acc_storage_trie_value)) (m : Mutation) : Mutation := {|
  mut_addr := mut_addr m; acc := acc m; pending := pending m; enc_storage := enc_storage m;
  enc_hash := enc_hash m; trie_writer := w |}.
Definition with_encodings (s h : bytes) (m : Mutation) : Mutation := {|
  mut_addr := mut_addr m; acc := acc m; pending := pending m; enc_storage := s; enc_hash := h;
  trie_writer := trie_writer m |}.
Definition with_root (r : option hash) (a : DbAccount) : DbAccount := {|
  db_Nonce := db_Nonce a; db_Balance := db_Balance a; db_StorageRootHash := r;
  db_CodeHash := db_CodeHash a; db_CodeSize := db_CodeSize a |}.
Definition no_account : DbAccount := {|
  db_Nonce := 0; db_Balance := 0; db_StorageRootHash := None; db_CodeHash := None; db_CodeSize := 0 |}.

(** [EncodeForTrie] of a mutation whose tasks are done. *)
#[global] Instance mutation_value : TrieValue Mutation := λ m, (enc_storage m, enc_hash m).
#[global] Instance slot_value : TrieValue acc_storage_trie_value := storage_EncodeForTrie.

Section sink.
Context `{Keccak} (get : db_Get).

Definition TrieSink_Init {S} (state_root : hash) (levels : Z) : M S TrieSink :=
  let state_root := if IsEmptyStateRoot (Some state_root) then None else Some state_root in
  w ← Writer_Init state_root levels;
  mret {| thread_main_trie_write := []; main_trie_writer := {| the_writer := w; written := [] |};
          mutations := []; code_puts := [] |}.
(** [SetIO]: a new block is written; no account holds a mutation of the last one any more. *)
Definition SetIO : SinkM unit := λ s,
  (Ret tt, {| thread_main_trie_write := thread_main_trie_write s;
              main_trie_writer := {| the_writer := the_writer (main_trie_writer s); written := [] |};
              mutations := []; code_puts := [] |}).
Definition StartMutation (addr : address) : SinkM nat := λ s,
  (Ret (length (mutations s)), set_mutations (mutations s ++ [
     {| mut_addr := addr; acc := no_account; pending := false; enc_storage := []; enc_hash := [];
        trie_writer := None |}]) s).
Definition Delete (addr : address) : SinkM unit := submit_main (MainDelete (keccak addr)).

(** A run of a mutation's writer. *)
Definition on_writer {A} (id : nat) (w : writer_state acc_storage_trie_value)
    (m : M (writer_state acc_storage_trie_value) A) : SinkM A := λ s,
  match mutations s !! id with
  | None => (Panic nil_panic, s)
  | Some mu =>
      let '(o, w') := m w in
      (o, set_mutations (<[id := with_writer (Some w') mu]> (mutations s)) s)
  end.
(** The bodies of the two loops of [Update]. *)
Definition write_storage (addr : address) (kv : Z * Z) : M (writer_state acc_storage_trie_value) unit :=
  let trie_io := AccountTrieInputAdapter addr get in
  let k_h := keccak (slot_hash kv.1) in
  if kv.2 =? 0 then Trie.Delete (H0 := AccountTrieSchema) trie_io k_h
  else Trie.Put (H0 := AccountTrieSchema) trie_io k_h (NewAccStorageTrieValue (big_Bytes kv.2)).
Definition write_raw (addr : address) (kv : hash * bytes) : M (writer_state acc_storage_trie_value) unit :=
  let trie_io := AccountTrieInputAdapter addr get in
  let k_h := keccak kv.1 in
  if (length kv.2 =? 0)%nat then Trie.Delete (H0 := AccountTrieSchema) trie_io k_h
  else Trie.Put (H0 := AccountTrieSchema) trie_io k_h (NewAccStorageTrieValue kv.2).
(** [Update]; [storage] and [raw] are the two maps in the order in which the loops visit them. *)
Definition Update (id : nat) (upd : AccountBody) (storage : list (Z * Z)) (raw : list (hash * bytes))
    : SinkM unit :=
  when (CodeDirty upd)
    (h ← deref (db_CodeHash (b_account upd)); Put_code h (default [] (b_Code upd))) ;;
  m ← get_mutation id;
  when (negb (pending m))
    (set_mutation id (with_pending true m) ;; submit_main (MainPut (keccak (mut_addr m)) id)) ;;
  m ← get_mutation id;
  set_mutation id (with_acc (b_account upd) m) ;;
  if (length storage =? 0)%nat && (length raw =? 0)%nat then mret tt
  else
    w ← match trie_writer m with
        | Some w => mret w
        | None =>
            w ← Writer_Init (db_StorageRootHash (b_account upd)) 0;
            mret {| the_writer := w; written := [] |}
        end;
    on_writer id w
      (Prelude.for_each storage (write_storage (mut_addr m)) ;;
       Prelude.for_each raw (write_raw (mut_addr m))).
(** [Commit] of a mutation. *)
Definition Mutation_Commit (id : nat) : SinkM unit :=
  m ← get_mutation id;
  if negb (pending m) then mret tt
  else
    set_mutation id (with_pending false m) ;;
    match trie_writer m with
    | Some w =>
        r ← on_writer id w (Trie.Commit (H0 := AccountTrieSchema));
        m ← get_mutation id;
        set_mutation id (with_acc (with_root r (acc m)) m)
    | None => mret tt
    end ;;
    m ← get_mutation id;
    '(s, h) ← of_outcome (Account_EncodeForTrie (acc m));
    set_mutation id (with_encodings s h m).

(** The tasks of the main trie; what they put goes to the database. *)
Fixpoint main_ops (muts : list Mutation) (q : list main_task) : M (writer_state Mutation) unit :=
  match q with
  | [] => mret tt
  | MainPut k id :: q =>
      m ← deref (muts !! id);
      Trie.Put (H0 := MainTrieSchema) (MainTrieInputAdapter get) k m ;;
      main_ops muts q
  | MainDelete k :: q =>
      Trie.Delete (H0 := MainTrieSchema) (MainTrieInputAdapter get) k ;;
      main_ops muts q
  end.
(** [Commit] of the sink: the queue is run to its end. *)
Definition TrieSink_Commit : SinkM hash := λ s,
  let '(o, w) := (main_ops (mutations s) (thread_main_trie_write s) ;;
                  Trie.Commit (H0 := MainTrieSchema)) (main_trie_writer s) in
  (match o with
   | Ret r => Ret (default EmptyRLPListHash r)
   | Err e => Err e
   | Panic p => Panic p
   end, set_queue [] (set_main w s)).
End sink.

(** * A block ([TransitionState.CommitTransaction] and [Commit] of state_evm on this output)
    An account's pointer to its mutation goes with its body: a deleted account has none. *)
Record Flushed : Type := { the_output : output; storage_order : list (Z * Z); raw_order : list (hash * bytes) }.
Record Host : Type := { the_sink : TrieSink; sinks : gmap address nat }.
Abbreviation HostM := (M Host).
Definition on_sink {A} (m : SinkM A) : HostM A := λ h,
  let '(o, s) := m (the_sink h) in (o, {| the_sink := s; sinks := sinks h |}).
Definition set_sinks (f : gmap address nat → gmap address nat) : HostM unit := λ h,
  (Ret tt, {| the_sink := the_sink h; sinks := f (sinks h) |}).
Definition the_mutation (a : address) : HostM nat := λ h,
  match sinks h !! a with Some id => (Ret id, h) | None => (Panic nil_panic, h) end.

Section block.
Context `{Keccak} (get : db_Get).
(** What [flush] of account.go gives to the output. *)
Definition flush_output (f : Flushed) : HostM unit :=
  match the_output f with
  | OutUpdate a b =>
      id ← (if sink b then the_mutation a
            else id ← on_sink (StartMutation a); set_sinks <[a := id]> ;; mret id);
      on_sink (Update get id b (storage_order f) (raw_order f))
  | OutDelete a => on_sink (Delete a) ;; set_sinks (delete a)
  end.
(** [TransitionState.Commit]: the accounts of the block that are not deleted. *)
Definition commit_accounts (l : list address) : HostM unit :=
  Prelude.for_each l (λ a, id ← the_mutation a; on_sink (Mutation_Commit id)).
Definition sink_block (outs : list Flushed) (dirties : list address) : HostM hash :=
  on_sink SetIO ;;
  Prelude.for_each outs flush_output ;;
  commit_accounts dirties ;;
  on_sink (TrieSink_Commit get).
End block.
