(* ===== verification/TrieSinkMaps.v ===== *)
(** What the parts of the sink's block do to the maps: a trie keeps standing in a store that has
    more, a commit asks only for the values that are in the trie, the writes of a storage trie are
    those of its map, the tasks of the main trie make the map of the accounts' encodings; and what
    the puts of a block leave in the database. *)
From S2P Require Import Prelude Codec Rlp RlpEncoder Storage DposData EvmInterface StateEvm TrieEncoding Trie TrieMap TrieHash TrieRep TrieFacts TrieCommit TrieBuild TrieRun TrieSchemas StateDb TrieSink.

(** * A store that has more *)
Section transfer.
Context `{Keccak} `{Schema} {V : Type} `{!TrieValue V}.
(** The values under the keys of a trie and the nodes that are not empty are those of [db]. *)
Record extends (db db' : Input) : Prop := {
  same_values : ∀ k, hash_key k → GetValue db' k = GetValue db k;
  same_nodes : ∀ h b, b ≠ [] → GetNode db h = Some b → GetNode db' h = Some b
}.
Lemma entry_nonempty t : entry t ≠ [].
Proof. destruct t; apply enc_list_nonempty. Qed.
Lemma extends_clean db db' log k s : extends db db' → clean_in db log k s → clean_in db' log k s.
Proof. intros He (k' & -> & Hk & Hg & Hn). exists k'. by rewrite (same_values _ _ He). Qed.
Lemma stored_extends db db' log pre t : extends db db' →
  stored db (clean_in db log) pre t → stored db' (clean_in db' log) pre t.
Proof.
  intros He. induction 1 as [pre k s Hc Hs|pre p t _ IH|pre ts _ IH Hget].
  - constructor; [|done]. by eapply extends_clean.
  - by constructor.
  - constructor; [done|]. intros Hb. apply (same_nodes _ _ He); [apply entry_nonempty|by apply Hget].
Qed.
Lemma hash_ok_extends db db' log pre h t : extends db db' →
  hash_ok db (clean_in db log) pre h t → hash_ok db' (clean_in db' log) pre h t.
Proof.
  intros He. destruct h; [|done]. intros (? & ? & ?). split_and!; [done..|]. by eapply stored_extends.
Qed.
Lemma rep_extends db db' log pre (n : node V) t : extends db db' →
  rep db (clean_in db log) pre n t → rep db' (clean_in db' log) pre n t.
Proof.
  intros He. induction 1 as [pre k v s h [Hs Hv] Hh Hh'|pre k n t h _ IH Hh Hh'|pre ns ts h Hns Hts Hnil _ IH Hh
    |pre t Hst Hget Hroot].
  - constructor; [|by eapply hash_ok_extends|done]. split; [done|].
    destruct v as [[|]|]; [|done|by eapply extends_clean].
    destruct Hv as (? & ? & ?). split_and!; [done..|by eapply extends_clean].
  - constructor; [done|by eapply hash_ok_extends|done].
  - constructor; try done. by eapply hash_ok_extends.
  - constructor; [by eapply stored_extends|apply (same_nodes _ _ He); [apply entry_nonempty|done]|done].
Qed.
Lemma stores_map_extends db db' m : extends db db' → stores_map db m → stores_map db' m.
Proof.
  intros He. unfold stores_map. destruct (mpt m) as [t|]; [|done]. intros [Hst Hg].
  split; [by eapply stored_extends|]. apply (same_nodes _ _ He); [apply entry_nonempty|done].
Qed.
Context (L : Z).
Lemma store_extends db db' m : extends db db' → store_ok L db m → store_ok L db' m.
Proof.
  intros He [Hok Hs Hv]. constructor; [done|by eapply stores_map_extends|].
  intros k Hk. rewrite (same_values _ _ He) by done. by apply Hv.
Qed.
Lemma models_extends db db' (w : writer_state V) m :
  written w = [] → extends db db' → models L db w m → models L db' w m.
Proof.
  intros Hw He [Hok Hr Hh Hg]. constructor; [done| | |].
  - destruct (mpt m) as [t|]; simpl in *; [by eapply rep_extends|done].
  - intros Hx. destruct (Hh Hx) as [? Hs]. split; [done|]. by eapply stores_map_extends.
  - rewrite Hw in *. intros k Hk Hn. simpl in *. rewrite (same_values _ _ He) by done. by apply Hg.
Qed.
Lemma extends_trans db1 db2 db3 : extends db1 db2 → extends db2 db3 → extends db1 db3.
Proof.
  intros [V1 N1] [V2 N2]. split; [|eauto]. intros k Hk. by rewrite V2, V1.
Qed.
End transfer.

(** * Which encodings a commit asks for *)
Section instances.
Context `{Keccak} `{Schema} {V : Type} (E1 E2 : TrieValue V).
(** The two agree on the values with a good encoding. *)
Context (good : bytes → Prop).
Context (Hsame : ∀ v s, good s → EncodeForTrie (TrieValue := E1) v = (s, hash_value s) → EncodeForTrie (TrieValue := E2) v = (s, hash_value s)).
Definition all_good (t : trie) : Prop := ∀ k s, tlookup t k = Some s → good s.

Lemma good_leaf k s : all_good (Leaf k s) → good s.
Proof. intros Hg. apply (Hg k). by rewrite tlookup_leaf, bool_decide_true. Qed.
Lemma good_ext p t : all_good (Ext p t) → all_good t.
Proof. intros Hg k s E. apply (Hg (p ++ k)). by rewrite tlookup_ext, strip_app. Qed.
Lemma good_child ts i t : all_good (Branch ts) → ts !! i = Some (Some t) → all_good t.
Proof.
  intros Hg Hi k s E. apply (Hg (Z.of_nat i :: k)). rewrite tlookup_branch, pick_index.
  apply child_some in Hi. by rewrite Hi.
Qed.
Lemma rep_change db clean pre (n : node V) t :
  rep (TrieValue0 := E1) db clean pre n t → all_good t → rep (TrieValue0 := E2) db clean pre n t.
Proof.
  induction 1 as [pre k v s h [Hs Hv] Hh Hh'|pre k n t h _ IH Hh Hh'|pre ns ts h Hns Hts Hnil _ IH Hh
    |pre t Hst Hget Hroot]; intros Hg.
  - constructor; [|done|done]. split; [done|]. destruct v as [[|]|]; [done| |done].
    apply Hsame; [by apply good_leaf in Hg|done].
  - constructor; [by apply IH, (good_ext k)|done|done].
  - constructor; try done. intros i n t Hn Hi. apply (IH i n t Hn Hi). by eapply good_child.
  - by constructor.
Qed.
Lemma bind_ext {St A B} (m1 m2 : M St A) (k1 k2 : A → M St B) c :
  m1 c = m2 c → (∀ a c', k1 a c' = k2 a c') → (m1 ≫= k1) c = (m2 ≫= k2) c.
Proof. intros Hm Hk. unfold mbind, M_bind. rewrite Hm. destruct (m2 c) as [[a|e|p] c']; auto. Qed.
(** A commit puts the same, whichever of the two encodes the values. *)
Lemma commit_same levels db clean pre (n : node V) t :
  rep (TrieValue0 := E1) db clean pre n t → all_good t → ∀ lvl c,
  commit (TrieValue0 := E2) levels lvl pre n c = commit (TrieValue0 := E1) levels lvl pre n c.
Proof.
  induction 1 as [pre k v s h [Hs Hv] Hh Hh'|pre k n t h Hr IH Hh Hh'|pre ns ts h Hns Hts Hnil Hr IH Hh
    |pre t Hst Hget Hroot]; intros Hg lvl c.
  - cbn [commit]. repeat (apply bind_ext; [done|intros ? ?]).
    apply bind_ext; [|done]. apply bind_ext; [|done].
    unfold commit_leaf. destruct v as [[|x]|]; [done| |done]. apply bind_ext; [|done].
    unfold commit_value. by rewrite Hv, (Hsame x s (good_leaf _ _ Hg) Hv).
  - cbn [commit]. repeat (apply bind_ext; [done|intros ? ?]).
    apply bind_ext; [|done].
    assert (∀ v, n ≠ value_node v) as Hnv by (intros v ->; by inversion Hr).
    destruct n as [| | | |v]; try (by destruct (Hnv v)); (apply bind_ext; [|done]); by apply IH, (good_ext k).
  - cbn [commit]. destruct h as [h|]; [done|]. repeat (apply bind_ext; [done|intros ? ?]).
    apply bind_ext; [|done].
    assert (∀ j n, ns !! j = Some n → n = nil_node ∨ ∀ lvl c,
      commit (TrieValue0 := E2) levels lvl (pre ++ [0 + Z.of_nat j]) n c =
      commit (TrieValue0 := E1) levels lvl (pre ++ [0 + Z.of_nat j]) n c) as Hc.
    { intros j n Hj. destruct (lookup_lt_is_Some_2 ts j) as [o Ho].
      { apply lookup_lt_Some in Hj. lia. }
      destruct o as [t|]; [right|left; by eapply Hnil].
      intros lvl' c0. apply (IH j n t Hj Ho). by eapply good_child. }
    clear -Hc. revert Hc. generalize c'0 as c. generalize 0 as i.
    induction ns as [|n ns IHns]; intros i c Hc; [done|]. cbn beta iota.
    apply bind_ext.
    + destruct (Hc 0%nat n eq_refl) as [-> | Hn]; [done|]. rewrite Z.add_0_r in Hn.
      destruct n; [done|apply Hn..].
    + intros n' c'. apply bind_ext; [|done]. apply IHns. intros j m Hj.
      destruct (Hc (S j) m Hj) as [-> | Hm]; [by left|right]. intros lvl' c0.
      rewrite <-Z.add_assoc. rewrite Nat2Z.inj_succ in Hm. replace (1 + Z.of_nat j) with (Z.succ (Z.of_nat j)) by lia.
      apply Hm.
  - done.
Qed.
Context (L : Z).
Definition good_map (m : gmap bytes bytes) : Prop := ∀ k s, m !! k = Some s → good s.
Lemma good_mpt m t : map_ok L m → mpt m = Some t → good_map m → all_good t.
Proof.
  intros Hok Em Hg k s Ek. pose proof (mpt_wf m (proj1 Hok)) as Hwf. rewrite Em in Hwf.
  destruct (is_key_hash_key k) as (k' & Hk & ->).
  { eapply (olookup_is_key _ (Some t)); [exact Hwf|exact Ek]. }
  apply (Hg k'). rewrite <-(mpt_lookup m k' (proj1 Hok) Hk), Em. exact Ek.
Qed.
Lemma models_change db w m :
  models (TrieValue0 := E1) L db w m → good_map m → models (TrieValue0 := E2) L db w m.
Proof.
  intros [Hok Hr Hh Hgone] Hg. constructor; [done| |done|done].
  destruct (mpt m) as [t|] eqn:Em; [|done]. simpl in *. eapply rep_change; [done|]. by eapply good_mpt.
Qed.
Lemma Commit_same db w m :
  models (TrieValue0 := E1) L db w m → good_map m →
  Commit (TrieValue0 := E2) w = Commit (TrieValue0 := E1) w.
Proof.
  intros [Hok Hr _ _] Hg.
  assert (∀ w', the_writer w' = the_writer w →
    run_commit (TrieValue0 := E2) (root (the_writer w)) w' =
    run_commit (TrieValue0 := E1) (root (the_writer w)) w') as Hrun.
  { intros w' Ew. unfold run_commit. destruct (mpt m) as [t|] eqn:Em; simpl in Hr; [|by rewrite Hr].
    match goal with |- (let '(_, _) := ?a in _) = (let '(_, _) := ?b in _) => assert (a = b) as -> end; [|done].
    apply bind_ext; [done|]. intros _ c. eapply commit_same; [done|]. by eapply good_mpt. }
  unfold Commit, mbind, M_bind, get_root. cbv beta iota.
  destruct (root (the_writer w)); try done; unfold of_outcome;
    (destruct (get_hash _) as [[?|]|?|?]; [done| |done..]); by rewrite Hrun.
Qed.
End instances.

(** * Storage tries *)
Definition value_limit : Z := 2 ^ 31.
Section slots.
Context `{Keccak}.
Context (Hkey : ∀ b, hash_key (keccak b)).

Definition storage_op (kv : Z * Z) : trie_op acc_storage_trie_value :=
  let k := keccak (slot_hash kv.1) in
  if kv.2 =? 0 then OpDelete k else OpPut k (NewAccStorageTrieValue (big_Bytes kv.2)).
Definition raw_op (kv : hash * bytes) : trie_op acc_storage_trie_value :=
  let k := keccak kv.1 in
  if (length kv.2 =? 0)%nat then OpDelete k else OpPut k (NewAccStorageTrieValue kv.2).
(** What an [Update] does to a storage trie. *)
Definition slot_ops (storage : list (Z * Z)) (raw : list (hash * bytes)) : list (trie_op acc_storage_trie_value) :=
  map storage_op storage ++ map raw_op raw.
Definition slots_ok (storage : list (Z * Z)) (raw : list (hash * bytes)) : Prop :=
  Forall (λ kv, 0 <= kv.2 < 2 ^ 256) storage ∧ Forall (λ kv, blen kv.2 < 2 ^ 30) raw.
#[local] Existing Instance AccountTrieSchema.

Lemma run_ops_app {V} `{!TrieValue V} db (ops1 ops2 : list (trie_op V)) w :
  run_ops db (ops1 ++ ops2) w = (run_ops db ops1 ;; run_ops db ops2) w.
Proof.
  revert w. induction ops1 as [|op ops1 IH]; intros w; [done|]. cbn [app run_ops].
  rewrite bind_assoc. apply bind_ext; [done|]. intros _ c. apply IH.
Qed.
Lemma write_storage_ops get a storage w :
  Prelude.for_each storage (write_storage get a) w =
  run_ops (AccountTrieInputAdapter a get) (map storage_op storage) w.
Proof.
  revert w. induction storage as [|kv l IH]; intros w; [done|]. cbn [map run_ops Prelude.for_each].
  apply bind_ext; [|intros _ c; apply IH]. unfold write_storage, storage_op.
  destruct (kv.2 =? 0); cbn [run_op]; reflexivity.
Qed.
Lemma write_raw_ops get a raw w :
  Prelude.for_each raw (write_raw get a) w = run_ops (AccountTrieInputAdapter a get) (map raw_op raw) w.
Proof.
  revert w. induction raw as [|kv l IH]; intros w; [done|]. cbn [map run_ops Prelude.for_each].
  apply bind_ext; [|intros _ c; apply IH]. unfold write_raw, raw_op.
  destruct (length kv.2 =? 0)%nat; cbn [run_op]; reflexivity.
Qed.
Lemma writes_run_ops get a storage raw w :
  (Prelude.for_each storage (write_storage get a) ;; Prelude.for_each raw (write_raw get a)) w =
  run_ops (AccountTrieInputAdapter a get) (slot_ops storage raw) w.
Proof.
  unfold slot_ops. rewrite run_ops_app. apply bind_ext; [apply write_storage_ops|].
  intros _ c. apply write_raw_ops.
Qed.

Lemma slot_value_ok (s : bytes) : s ≠ [] → blen s < 2 ^ 30 → value_ok value_limit s.
Proof.
  intros Hs Hl. split; [split; [done|by eexists]|].
  change (blen (ToRLPString s) <= value_limit).
  pose proof (AppendString_length s) as B. unfold AppendString in B.
  change value_limit with 2147483648. change (2 ^ 30) with 1073741824 in Hl.
  destruct s; [done|lia].
Qed.
Lemma slot_ops_ok storage raw : slots_ok storage raw → Forall (op_ok value_limit) (slot_ops storage raw).
Proof.
  intros [Hs Hr]. apply Forall_app_2; apply Forall_map.
  - eapply Forall_impl; [exact Hs|]. intros [k v] Hv. simpl in Hv. unfold storage_op. cbn [fst snd].
    destruct (Z.eqb_spec v 0) as [->|Hne]; [apply Hkey|]. split; [apply Hkey|]. split; [|done].
    change (value_ok value_limit (big_Bytes v)). apply slot_value_ok.
    + intros E. apply Hne. rewrite <-(be_val_big_Bytes v) by lia. simpl in E. by rewrite E.
    + pose proof (big_Bytes_length v 32 ltac:(simpl; lia)) as B. unfold blen.
      simpl. change (2 ^ 30) with 1073741824. lia.
  - eapply Forall_impl; [exact Hr|]. intros [k v] Hv. simpl in Hv. unfold raw_op. cbn [fst snd].
    destruct (Nat.eqb_spec (length v) 0) as [E|Hne]; [apply Hkey|]. split; [apply Hkey|]. split; [|done].
    change (value_ok value_limit v). apply slot_value_ok; [|done]. by intros ->.
Qed.
Definition op_key {V} (op : trie_op V) : hash := match op with OpPut k _ | OpDelete k => k end.
(** Before a commit only removals are written, each of a key that an operation has. *)
Lemma ops_writes_erase {V} `{!TrieValue V} (ops : list (trie_op V)) m x :
  x ∈ ops_writes ops m → ∃ k, x = PutValue k [] ∧ k ∈ map op_key ops.
Proof.
  revert m. induction ops as [|op ops IH]; intros m; cbn [ops_writes map]; [by intros ?%elem_of_nil|].
  rewrite elem_of_app. intros [Hx|Hx].
  - destruct op as [k v|k]; cbn [op_writes] in Hx; [by apply elem_of_nil in Hx|].
    destruct (m !! k); [|by apply elem_of_nil in Hx]. apply list_elem_of_singleton in Hx as ->.
    exists k. split; [done|]. by left.
  - apply IH in Hx as (k & -> & Hk). exists k. split; [done|]. by right.
Qed.
(** The order of operations on different keys does not matter. *)
Lemma map_ops_lookup {V} `{!TrieValue V} (ops : list (trie_op V)) m k :
  k ∉ map op_key ops → map_ops ops m !! k = m !! k.
Proof.
  unfold map_ops. revert m. induction ops as [|op ops IH]; intros m Hk; [done|]. cbn [foldl map] in *.
  apply not_elem_of_cons in Hk as [Hne Hk]. rewrite IH by done.
  destruct op as [k' v|k']; cbn [map_op op_key] in *; [by rewrite lookup_insert_ne|by rewrite lookup_delete_ne].
Qed.
Lemma map_ops_perm {V} `{!TrieValue V} (ops ops' : list (trie_op V)) m :
  NoDup (map op_key ops) → ops ≡ₚ ops' → map_ops ops m = map_ops ops' m.
Proof.
  unfold map_ops. intros Hnd Hp. revert m Hnd. induction Hp as [|op l l' _ IH|x y l|l1 l2 l3 Hp1 IH1 _ IH2];
    intros m Hnd; cbn [foldl map] in *.
  - done.
  - apply NoDup_cons in Hnd as [_ Hnd]. by apply IH.
  - f_equal. apply NoDup_cons in Hnd as [Hn _]. apply not_elem_of_cons in Hn as [Hne _].
    destruct x as [k v|k], y as [k' v'|k']; cbn [map_op op_key] in *.
    + by rewrite insert_insert_ne.
    + by rewrite delete_insert_ne.
    + by rewrite delete_insert_ne.
    + by rewrite delete_delete.
  - rewrite IH1 by done. apply IH2. by rewrite <-Hp1.
Qed.
End slots.

(** * The database after the puts of a block *)
Definition apply_put (get : db_Get) (p : db_put) : db_Get := λ col k,
  if bool_decide (col = p.1.1 ∧ k = p.1.2) then match p.2 with [] => None | v => Some v end
  else get col k.
Definition apply_puts (get : db_Get) (ps : list db_put) : db_Get := foldl apply_put get ps.
(** Under a hash there is one string: what a collision-free hash promises for these columns. *)
Definition hashed_column (col : Column) : bool :=
  match col with COL_code | COL_main_trie_node | COL_acc_trie_node => true | _ => false end.
Definition puts_agree (get : db_Get) (ps : list db_put) : Prop :=
  ∀ col h b b', hashed_column col → (col, h, b) ∈ ps → get col h = Some b' ∨ (col, h, b') ∈ ps → b = b'.

Lemma apply_puts_snoc get ps p : apply_puts get (ps ++ [p]) = apply_put (apply_puts get ps) p.
Proof. unfold apply_puts. by rewrite foldl_app. Qed.
Lemma apply_puts_app get ps1 ps2 : apply_puts get (ps1 ++ ps2) = apply_puts (apply_puts get ps1) ps2.
Proof. unfold apply_puts. by rewrite foldl_app. Qed.
Lemma apply_puts_other get ps col k :
  (∀ k' v, (col, k', v) ∈ ps → k' ≠ k) → apply_puts get ps col k = get col k.
Proof.
  induction ps as [|[[col' k'] v] ps IH] using rev_ind; intros Hn; [done|].
  rewrite apply_puts_snoc. unfold apply_put. simpl. case_bool_decide as E.
  - destruct E as [-> ->]. exfalso. apply (Hn k' v); [|done]. rewrite elem_of_app. right. by left.
  - apply IH. intros k0 v0 Hin. apply (Hn k0 v0). rewrite elem_of_app. by left.
Qed.
(** What is under a hash, and not empty, stays. *)
Lemma apply_puts_hashed get ps col h b :
  hashed_column col → puts_agree get ps → b ≠ [] → get col h = Some b ∨ (col, h, b) ∈ ps →
  apply_puts get ps col h = Some b.
Proof.
  intros Hc Ha Hb Hor.
  assert (∀ ps', (∀ b', (col, h, b') ∈ ps' → b' = b) → get col h = Some b ∨ (col, h, b) ∈ ps' →
    apply_puts get ps' col h = Some b) as Hx.
  2:{ apply Hx; [|done]. intros b' Hin. by apply (Ha col h b' b). }
  clear Ha Hor ps. induction ps' as [|[[col' h'] b'] ps IH] using rev_ind; intros Hu Hor.
  { destruct Hor as [?|?%elem_of_nil]; done. }
  rewrite apply_puts_snoc. unfold apply_put. simpl. case_bool_decide as E.
  - destruct E as [<- <-]. rewrite (Hu b') by (rewrite elem_of_app; right; by left). by destruct b.
  - apply IH.
    + intros b0 Hin. apply Hu. rewrite elem_of_app. by left.
    + destruct Hor as [?|Hin]; [by left|]. rewrite elem_of_app, list_elem_of_singleton in Hin.
      destruct Hin as [?|[= -> -> ->]]; [by right|]. by destruct E.
Qed.

Section puts.
Context `{Keccak}.
(** A string whose hash is that of no other string. *)
Definition safe (b : bytes) : Prop := ∀ b', keccak b' = keccak b → b' = b.

Definition own_writes (a : address) (tagged : list (address * write)) : list write :=
  omap (λ bw, if bool_decide (bw.1 = a) then Some bw.2 else None) tagged.
Definition tagged_put (bw : address * write) : db_put := AccountTrieIOAdapter_Put bw.1 bw.2.
Lemma own_writes_app a t1 t2 : own_writes a (t1 ++ t2) = own_writes a t1 ++ own_writes a t2.
Proof. apply omap_app. Qed.
Lemma elem_of_own_writes a t w : w ∈ own_writes a t ↔ (a, w) ∈ t.
Proof.
  unfold own_writes. rewrite list_elem_of_omap. split.
  - intros ([b w'] & Hin & E). simpl in E. case_bool_decide; simplify_eq. done.
  - intros Hin. exists (a, w). split; [done|]. simpl. by rewrite bool_decide_eq_true_2.
Qed.
(** The values of an account's trie after the puts of all accounts. *)
Lemma tagged_values get t a k :
  (∀ b k' v, (b, PutValue k' v) ∈ t → safe (b ++ k') ∧ hash_key k') → hash_key k →
  GetValue (AccountTrieInputAdapter a (apply_puts get (map tagged_put t))) k =
  GetValue (apply_writes (AccountTrieInputAdapter a get) (own_writes a t)) k.
Proof.
  intros Hs Hk. induction t as [|[b w] t IH] using rev_ind; [done|].
  assert (Ht : ∀ b0 k' v, (b0, PutValue k' v) ∈ t → safe (b0 ++ k') ∧ hash_key k').
  { intros b0 k' v Hin. apply (Hs b0 k' v). rewrite elem_of_app. by left. }
  specialize (IH Ht). rewrite map_app, own_writes_app. simpl. rewrite apply_puts_snoc. simpl in IH.
  unfold apply_put. cbn [own_writes]. simpl. destruct w as [k' v|h v]; simpl.
  - destruct (Hs b k' v) as [Hsafe Hk']; [rewrite elem_of_app; right; by left|].
    case_bool_decide as E.
    + destruct E as [_ E]. apply Hsafe in E. apply app_inj_2 in E as [-> ->]; [|by destruct Hk, Hk'; congruence].
      rewrite bool_decide_eq_true_2 by done. rewrite apply_writes_snoc. simpl.
      rewrite bool_decide_eq_true_2 by done. by destruct v.
    + rewrite IH. case_bool_decide as Eb; [|by rewrite app_nil_r].
      subst b. rewrite apply_writes_snoc. simpl. rewrite bool_decide_eq_false_2; [done|].
      intros ->. by destruct E.
  - rewrite IH.
    case_bool_decide; [|by rewrite app_nil_r]. by rewrite apply_writes_snoc.
Qed.
Lemma main_values get ws k :
  GetValue (MainTrieInputAdapter (apply_puts get (map MainTrieIOAdapter_Put ws))) k =
  GetValue (apply_writes (MainTrieInputAdapter get) ws) k.
Proof.
  induction ws as [|w ws IH] using rev_ind; [done|].
  rewrite map_app. simpl. rewrite apply_puts_snoc, apply_writes_snoc. simpl in IH.
  unfold apply_put. destruct w as [k' v|h v]; simpl.
  - case_bool_decide as E; case_bool_decide as E'; [by destruct v|by destruct E|by destruct E|done].
  - done.
Qed.
End puts.

(** * The accounts as a map *)
Record waccount : Type := { w_account : DbAccount; w_slots : gmap bytes bytes; w_code : bytes }.
Abbreviation world := (gmap address waccount).
Definition slots_of (W : world) (a : address) : gmap bytes bytes :=
  match W !! a with Some x => w_slots x | None => ∅ end.

Section world.
Context `{Keccak}.
Context (Hkey : ∀ b, hash_key (keccak b)).
Lemma keccak_32 b : length (keccak b) = HashLength.
Proof. apply Hkey. Qed.

(** The account with the root of its storage; the field of [w_account] is not read. *)
Definition slots_root (m : gmap bytes bytes) : option hash := root_hash (H0 := AccountTrieSchema) m.
Definition rooted (x : waccount) : DbAccount := with_root (slots_root (w_slots x)) (w_account x).
(** The main trie's map, and the state root. *)
Definition main_pairs (l : list (address * waccount)) : list (bytes * bytes) :=
  map (λ ax, (keccak ax.1, account_storage (rooted ax.2))) l.
Definition main_map (W : world) : gmap bytes bytes := list_to_map (main_pairs (map_to_list W)).
Definition state_root (W : world) : hash :=
  default EmptyRLPListHash (root_hash (H0 := MainTrieSchema) (main_map W)).
Record world_account_ok (a : address) (x : waccount) : Prop := {
  wa_safe : safe a;
  wa_account : account_ok (rooted x);
  wa_slots : ∀ k, is_Some (w_slots x !! k) → safe (a ++ k);
  wa_code : is_Some (db_CodeHash (w_account x)) → w_code x ≠ []
}.
Definition world_ok (W : world) : Prop := ∀ a x, W !! a = Some x → world_account_ok a x.

Lemma main_map_lookup W k s : world_ok W →
  main_map W !! k = Some s ↔ ∃ a x, W !! a = Some x ∧ k = keccak a ∧ s = account_storage (rooted x).
Proof.
  intros Hok. unfold main_map. rewrite <-elem_of_list_to_map.
  - unfold main_pairs. rewrite list_elem_of_fmap. split.
    + intros ([a x] & [= -> ->] & Hin). apply elem_of_map_to_list in Hin. eauto.
    + intros (a & x & Ha & -> & ->). exists (a, x). split; [done|]. by apply elem_of_map_to_list.
  - unfold main_pairs. rewrite map_map. simpl. rewrite <-(map_map fst keccak).
    pose proof (NoDup_fst_map_to_list W) as Hnd.
    assert (Hs : ∀ a, a ∈ (map_to_list W).*1 → safe a).
    { intros a ([a' x] & -> & Hin)%list_elem_of_fmap. apply elem_of_map_to_list in Hin. by apply (Hok _ _ Hin). }
    change ((map_to_list W).*1) with (map fst (map_to_list W)) in *.
    revert Hnd Hs. generalize (map fst (map_to_list W)) as l. induction l as [|a l IH]; intros Hnd Hs; [constructor|].
    apply NoDup_cons in Hnd as [Hn Hnd]. simpl. apply NoDup_cons. split.
    + intros (b & E & Hb)%list_elem_of_fmap. apply Hn.
      rewrite (Hs b (list_elem_of_further _ _ _ Hb) a E). done.
    + apply IH; [done|]. intros b Hb. apply Hs. by right.
Qed.
Lemma main_map_at W a : world_ok W → safe a →
  main_map W !! keccak a = match W !! a with Some x => Some (account_storage (rooted x)) | None => None end.
Proof.
  intros Hok Hs. destruct (W !! a) as [x|] eqn:Ea.
  - apply main_map_lookup; [done|]. eauto.
  - destruct (main_map W !! keccak a) as [s|] eqn:E; [|done]. exfalso.
    apply main_map_lookup in E as (b & x & Eb & E & _); [|done].
    rewrite (Hs b (eq_sym E)) in Eb. congruence.
Qed.

(** A value that no account is encoded as. *)
Definition dummy_storage : bytes := account_storage no_account ++ [0].
Lemma no_account_ok : account_ok no_account.
Proof. split; simpl; unfold is_u64; lia || done. Qed.
Lemma account_value_ok a : account_ok a → value_ok (H0 := MainTrieSchema) value_limit (account_storage a).
Proof.
  intros Ha. pose proof (main_schema keccak_32 a Ha) as Es. split; [split|].
  - apply enc_list_nonempty.
  - exists (account_hashed a). exact Es.
  - unfold hash_value. simpl. rewrite Es.
    pose proof (strings_small _ 4 (fields_hash_bounds keccak_32 a Ha) ltac:(simpl; lia) ltac:(lia)) as Ls.
    change value_limit with 2147483648. unfold account_hashed. lia.
Qed.
Lemma dummy_other a : account_ok a → account_storage a ≠ dummy_storage.
Proof.
  intros Ha E. pose proof (fields_short a Ha) as S1. pose proof (fields_short _ no_account_ok) as S2.
  pose proof (split_strings _ S1) as E1.
  change (SplitList (account_storage a) = Ret (concat (map AppendString (fields_storage a)), [])) in E1.
  rewrite E in E1. unfold dummy_storage, account_storage, enc_strings in E1.
  rewrite SplitList_enc_list in E1; [done|]. pose proof (short_payload_bound _ S2). change (blen [0]) with 1. lia.
Qed.
Lemma main_split s s' p r r' : SplitList s = Ret (p, r) → SplitList s' = Ret (p, r') →
  main_ValueStorageToHashEncoding s = main_ValueStorageToHashEncoding s'.
Proof.
  intros E E'. unfold main_ValueStorageToHashEncoding. f_equal. apply bind_ext; [done|].
  intros pos e. rewrite (must_bind _ _ _ E), (must_bind _ _ _ E'). done.
Qed.
Lemma dummy_ok : value_ok (H0 := MainTrieSchema) value_limit dummy_storage ∧
  hash_value (H0 := MainTrieSchema) dummy_storage = account_hashed no_account.
Proof.
  assert (main_ValueStorageToHashEncoding dummy_storage = Ret (account_hashed no_account)) as Ed.
  { rewrite <-(main_schema keccak_32 _ no_account_ok). pose proof (fields_short _ no_account_ok) as S2.
    eapply main_split.
    - unfold dummy_storage, account_storage, enc_strings. apply SplitList_enc_list.
      pose proof (short_payload_bound _ S2). change (blen [0]) with 1. lia.
    - apply (split_strings _ S2). }
  destruct (account_value_ok _ no_account_ok) as [_ Hl].
  assert (Eh : hash_value (H0 := MainTrieSchema) dummy_storage = account_hashed no_account).
  { unfold hash_value. simpl. by rewrite Ed. }
  split; [|done]. split; [split|].
  - unfold dummy_storage. intros [E _]%app_eq_nil. by apply enc_list_nonempty in E.
  - by exists (account_hashed no_account).
  - rewrite Eh. revert Hl. unfold hash_value. simpl. by rewrite (main_schema keccak_32 _ no_account_ok).
Qed.

(** * The main trie *)
(** Mutations that are dropped before the commit have no encoding; they are given the dummy. *)
Definition dummy_value : TrieValue Mutation := λ m,
  match enc_storage m with [] => (dummy_storage, account_hashed no_account) | s => (s, enc_hash m) end.
Definition not_dummy (s : bytes) : Prop := s ≠ dummy_storage.
#[local] Existing Instance MainTrieSchema.

Lemma from_dummy v s : not_dummy s → EncodeForTrie (TrieValue := dummy_value) v = (s, hash_value s) →
  EncodeForTrie (TrieValue := mutation_value) v = (s, hash_value s).
Proof.
  unfold EncodeForTrie, dummy_value, mutation_value. intros Hs.
  destruct (enc_storage v) eqn:E; [by intros [= <- _]|]. by intros [= <- ->].
Qed.
Lemma to_dummy v s : s ≠ [] → EncodeForTrie (TrieValue := mutation_value) v = (s, hash_value s) →
  EncodeForTrie (TrieValue := dummy_value) v = (s, hash_value s).
Proof.
  unfold EncodeForTrie, dummy_value, mutation_value. intros Hs [= <- ->].
  by destruct (enc_storage v).
Qed.
Lemma main_map_good W : world_ok W → good_map not_dummy (main_map W).
Proof.
  intros Hok k s E. apply main_map_lookup in E as (a & x & Ea & _ & ->); [|done].
  apply dummy_other. by apply (Hok _ _ Ea).
Qed.

Definition task_key (t : main_task) : hash := match t with MainPut k _ | MainDelete k => k end.
Definition the_mutation_at (muts : list Mutation) (id : nat) : Mutation :=
  default {| mut_addr := []; acc := no_account; pending := false; enc_storage := []; enc_hash := [];
             trie_writer := None |} (muts !! id).
Definition task_op (muts : list Mutation) (t : main_task) : trie_op Mutation :=
  match t with MainPut k id => OpPut k (the_mutation_at muts id) | MainDelete k => OpDelete k end.
Definition task_there (muts : list Mutation) (t : main_task) : Prop :=
  match t with MainPut _ id => is_Some (muts !! id) | MainDelete _ => True end.
Lemma main_ops_run get muts q w : Forall (task_there muts) q →
  main_ops get muts q w = run_ops (MainTrieInputAdapter get) (map (task_op muts) q) w.
Proof.
  intros Hq. revert w. induction Hq as [|t q Ht Hq IH]; intros w; [done|].
  destruct t as [k id|k]; cbn [main_ops map run_ops task_op run_op].
  - simpl in Ht. destruct Ht as [mu Em]. unfold the_mutation_at. rewrite Em. cbn [default deref].
    unfold mbind at 1, M_bind at 1. cbn [mret M_ret]. apply bind_ext; [reflexivity|]. intros _ c. apply IH.
  - apply bind_ext; [reflexivity|]. intros _ c. apply IH.
Qed.
(** The last task with a key decides. *)
Definition last_task (q : list main_task) (k : hash) : option main_task :=
  foldl (λ r t, if bool_decide (task_key t = k) then Some t else r) None q.
Lemma last_task_snoc q t k :
  last_task (q ++ [t]) k = if bool_decide (task_key t = k) then Some t else last_task q k.
Proof. unfold last_task. by rewrite foldl_app. Qed.
Lemma last_task_in q k t : last_task q k = Some t → t ∈ q ∧ task_key t = k.
Proof.
  induction q as [|t' q IH] using rev_ind; [done|]. rewrite last_task_snoc, elem_of_app, list_elem_of_singleton.
  case_bool_decide; [intros [= <-]; auto|]. intros ?%IH. tauto.
Qed.
Lemma last_task_none q k t : last_task q k = None → t ∈ q → task_key t ≠ k.
Proof.
  induction q as [|t' q IH] using rev_ind; [by intros _ ?%elem_of_nil|].
  rewrite last_task_snoc, elem_of_app, list_elem_of_singleton.
  case_bool_decide as E; [done|]. intros Hn [Ht | ->]; [by apply IH|done].
Qed.
Lemma last_task_lookup muts q m k :
  map_ops (TrieValue0 := dummy_value) (map (task_op muts) q) m !! k =
  match last_task q k with
  | Some (MainPut _ id) => Some (EncodeForTrie (TrieValue := dummy_value) (the_mutation_at muts id)).1
  | Some (MainDelete _) => None
  | None => m !! k
  end.
Proof.
  unfold map_ops. induction q as [|t q IH] using rev_ind; [done|].
  rewrite map_app, foldl_app, last_task_snoc. cbn [map foldl]. case_bool_decide as E.
  - subst k. destruct t as [k id|k]; cbn [map_op task_op task_key].
    + by rewrite lookup_insert_eq.
    + by rewrite lookup_delete_eq.
  - rewrite <-IH. destruct t as [k' id|k']; cbn [map_op task_op task_key] in *.
    + by rewrite lookup_insert_ne.
    + by rewrite lookup_delete_ne.
Qed.

Definition mutation_ok (mu : Mutation) : Prop :=
  enc_storage mu = [] ∨ ∃ a, account_ok a ∧ enc_storage mu = account_storage a ∧ enc_hash mu = account_hashed a.
Lemma dummy_value_ok mu : mutation_ok mu →
  value_ok value_limit (EncodeForTrie (TrieValue := dummy_value) mu).1 ∧
  (EncodeForTrie (TrieValue := dummy_value) mu).2 =
    hash_value (EncodeForTrie (TrieValue := dummy_value) mu).1.
Proof.
  unfold EncodeForTrie, dummy_value. intros [-> | (a & Ha & Es & Eh)].
  - cbn [fst snd]. destruct dummy_ok as [? E]. by rewrite E.
  - rewrite Es. pose proof (account_value_ok a Ha) as Hv.
    destruct (account_storage a) as [|b l] eqn:E; [by destruct Hv as [[? _] _]|]. cbn [fst snd].
    split; [done|]. rewrite Eh. unfold hash_value. simpl. rewrite <-E. by rewrite (main_schema keccak_32 a Ha).
Qed.
Lemma main_commit get (wm : writer_state Mutation) W0 W muts q :
  models (TrieValue0 := mutation_value) value_limit (MainTrieInputAdapter get) wm (main_map W0) →
  world_ok W0 → world_ok W →
  Forall (λ t, task_there muts t ∧ hash_key (task_key t)) q → Forall mutation_ok muts →
  map_ops (TrieValue0 := dummy_value) (map (task_op muts) q) (main_map W0) = main_map W →
  ∃ w', (main_ops get muts q ;; Commit (TrieValue0 := mutation_value)) wm =
          (Ret (root_hash (main_map W)), w') ∧
    (nodes_agree (MainTrieInputAdapter get) (written w') →
     let db' := apply_writes (MainTrieInputAdapter get) (written w') in
     models (TrieValue0 := mutation_value) value_limit db' (flushed w') (main_map W) ∧
     store_ok value_limit db' (main_map W)).
Proof.
  intros Hm Hok0 Hok Hq Hmu Emap.
  assert (HL : 0 <= value_limit <= 2 ^ 31) by (unfold value_limit; lia).
  assert (Hmax : MaxValueSizeToStoreInTrie < Z.of_nat HashLength) by done.
  assert (Hm1 : models (TrieValue0 := dummy_value) value_limit (MainTrieInputAdapter get) wm (main_map W0)).
  { eapply (models_change mutation_value dummy_value (λ s, s ≠ [])); [apply to_dummy|exact Hm|].
    intros k s E. apply main_map_lookup in E as (a & x & _ & _ & ->); [|done]. apply enc_list_nonempty. }
  destruct (run_ops_models (TrieValue0 := dummy_value) keccak_32 Hmax value_limit HL
    (MainTrieInputAdapter get) (map (task_op muts) q) wm (main_map W0)) as (w1 & E1 & Hm2 & _ & _).
  { apply Forall_map. eapply Forall_impl; [exact Hq|]. intros [k id|k] [Ht Hk]; [|done]. simpl in *.
    destruct Ht as [mu Em]. unfold the_mutation_at. rewrite Em. cbn [default].
    eapply Forall_lookup_1 in Hmu; [|exact Em]. destruct (dummy_value_ok mu Hmu). done. }
  { done. }
  rewrite Emap in Hm2.
  assert (Hsame : Commit (TrieValue0 := mutation_value) w1 = Commit (TrieValue0 := dummy_value) w1).
  { eapply (Commit_same dummy_value mutation_value not_dummy); [apply from_dummy|exact Hm2|].
    by apply main_map_good. }
  destruct (commit_models (TrieValue0 := dummy_value) keccak_32 Hmax value_limit HL _ _ _ Hm2)
    as (w2 & ws & E2 & Ew & Hl & _ & Hdb).
  exists w2. split.
  - rewrite (bind_run _ _ wm tt w1), Hsame, E2; [done|].
    rewrite main_ops_run; [exact E1|]. eapply Forall_impl; [exact Hq|]. by intros t [? _].
  - intros Ha. destruct (Hdb Ha) as [Hm3 Hs]. split.
    + eapply (models_change dummy_value mutation_value not_dummy); [apply from_dummy|exact Hm3|].
      by apply main_map_good.
    + eapply (models_store (TrieValue0 := dummy_value) keccak_32 Hmax value_limit HL); [exact Hm3|done|exact Hs].
Qed.
End world.
