(* ===== verification/TrieSinkRun.v ===== *)
(** The runs of the sink in a block: what an [Update], a [Delete] and the commits make of its state,
    and the invariant of the outputs of a block. *)
From S2P Require Import Prelude Codec Rlp RlpEncoder Storage DposData EvmInterface StateEvm TrieEncoding Trie TrieMap TrieHash TrieRep TrieFacts TrieCommit TrieBuild TrieRun TrieSchemas StateDb TrieSink TrieSinkMaps.

Section run.
Context `{Keccak}.
Context (Hkey : ∀ b, hash_key (keccak b)).
#[local] Existing Instance AccountTrieSchema.

(** * [Update] *)
Definition slots_writer (root : option hash) : writer_state acc_storage_trie_value := {|
  the_writer := {| root := match root with Some h => node_hash h | None => nil_node end;
                   FullNodeLevelsToCache := 0 |};
  written := [] |}.
Definition no_slots (storage : list (Z * Z)) (raw : list (hash * bytes)) : bool :=
  (length storage =? 0)%nat && (length raw =? 0)%nat.
(** The mutation after an update; [w] is its writer then. *)
Definition updated_mutation (mu : Mutation) (upd : AccountBody) (w : option (writer_state acc_storage_trie_value)) : Mutation := {|
  mut_addr := mut_addr mu; acc := b_account upd; pending := true; enc_storage := enc_storage mu;
  enc_hash := enc_hash mu; trie_writer := w |}.
Definition updated_sink (s : TrieSink) (id : nat) (mu : Mutation) (upd : AccountBody)
    (w : option (writer_state acc_storage_trie_value)) : TrieSink := {|
  thread_main_trie_write := thread_main_trie_write s ++
    (if pending mu then [] else [MainPut (keccak (mut_addr mu)) id]);
  main_trie_writer := main_trie_writer s;
  mutations := <[id := updated_mutation mu upd w]> (mutations s);
  code_puts := code_puts s ++
    (if CodeDirty upd then [(COL_code, default [] (db_CodeHash (b_account upd)), default [] (b_Code upd))]
     else []) |}.
Lemma insert_twice {A} (l : list A) i x y : <[i := y]> (<[i := x]> l) = <[i := y]> l.
Proof. apply list_insert_insert_eq. Qed.
Lemma Update_run get s id mu upd storage raw w' :
  mutations s !! id = Some mu →
  (CodeDirty upd = true → is_Some (db_CodeHash (b_account upd))) →
  (if no_slots storage raw then w' = trie_writer mu
   else ∃ w, w' = Some w ∧
     run_ops (AccountTrieInputAdapter (mut_addr mu) get) (slot_ops storage raw)
       (default (slots_writer (db_StorageRootHash (b_account upd))) (trie_writer mu)) = (Ret tt, w)) →
  Update get id upd storage raw s = (Ret tt, updated_sink s id mu upd w').
Proof.
  intros Em Hcode Hw. assert (Hlt := lookup_lt_Some _ _ _ Em).
  (* the code *)
  set (s1 := {| thread_main_trie_write := thread_main_trie_write s;
                main_trie_writer := main_trie_writer s; mutations := mutations s;
                code_puts := code_puts (updated_sink s id mu upd w') |}).
  assert (E1 : (when (CodeDirty upd)
    (h ← deref (db_CodeHash (b_account upd)); Put_code h (default [] (b_Code upd)))) s = (Ret tt, s1)).
  { unfold s1, updated_sink. cbn [code_puts]. destruct (CodeDirty upd).
    - destruct (Hcode eq_refl) as [h Eh]. rewrite Eh. done.
    - rewrite app_nil_r. by destruct s. }
  unfold Update. rewrite (bind_run _ _ _ _ _ E1).
  assert (Eg : get_mutation id s1 = (Ret mu, s1)) by (unfold get_mutation, s1; cbn [mutations]; by rewrite Em).
  rewrite (bind_run _ _ _ _ _ Eg).
  (* the task of the main trie *)
  set (s2 := {| thread_main_trie_write := thread_main_trie_write (updated_sink s id mu upd w');
                main_trie_writer := main_trie_writer s; mutations := <[id := with_pending true mu]> (mutations s);
                code_puts := code_puts (updated_sink s id mu upd w') |}).
  assert (E2 : (when (negb (pending mu))
    (set_mutation id (with_pending true mu) ;; submit_main (MainPut (keccak (mut_addr mu)) id))) s1 = (Ret tt, s2)).
  { unfold s2, s1, updated_sink. cbn [thread_main_trie_write]. destruct (pending mu) eqn:Ep; cbn [negb when].
    - rewrite app_nil_r. unfold mret, M_ret. repeat f_equal.
      rewrite list_insert_id; [done|]. rewrite Em. f_equal. by destruct mu; simpl in Ep; subst.
    - done. }
  rewrite (bind_run _ _ _ _ _ E2).
  assert (Eg2 : get_mutation id s2 = (Ret (with_pending true mu), s2)).
  { unfold get_mutation, s2. cbn [mutations]. by rewrite list_lookup_insert_eq. }
  rewrite (bind_run _ _ _ _ _ Eg2).
  (* the account *)
  set (s3 := updated_sink s id mu upd (trie_writer mu)).
  assert (E3 : set_mutation id (with_acc (b_account upd) (with_pending true mu)) s2 = (Ret tt, s3)).
  { unfold set_mutation, set_mutations, s2. cbn. by rewrite insert_twice. }
  rewrite (bind_run _ _ _ _ _ E3). unfold no_slots in Hw. destruct (_ && _); [by subst w'|].
  destruct Hw as (w & -> & Ew). cbn [trie_writer with_pending].
  assert (E4 : (match trie_writer mu with
    | Some w => mret w
    | None => w ← Writer_Init (db_StorageRootHash (b_account upd)) 0;
        mret {| the_writer := w; written := [] |}
    end : M TrieSink (writer_state acc_storage_trie_value)) s3 =
    (Ret (default (slots_writer (db_StorageRootHash (b_account upd))) (trie_writer mu)), s3)).
  { by destruct (trie_writer mu). }
  rewrite (bind_run _ _ _ _ _ E4). unfold on_writer.
  assert (Em3 : mutations s3 !! id = Some (updated_mutation mu upd (trie_writer mu))).
  { unfold s3. cbn [mutations updated_sink]. by rewrite list_lookup_insert_eq. }
  rewrite Em3. cbn [mut_addr with_pending]. rewrite (writes_run_ops Hkey), Ew.
  unfold set_mutations, s3. cbn. by rewrite insert_twice.
Qed.

(** * The outputs of a block on the map *)
Definition code_of (W : world) (a : address) : bytes :=
  match W !! a with Some x => w_code x | None => [] end.
Definition code_hash_of (W : world) (a : address) : option hash :=
  match W !! a with Some x => db_CodeHash (w_account x) | None => None end.
Definition updated (W : world) (a : address) (b : AccountBody) : waccount := {|
  w_account := b_account b;
  w_slots := map_ops (slot_ops (map_to_list (StorageDirty b)) (map_to_list (RawStorageDirty b))) (slots_of W a);
  w_code := if CodeDirty b then default [] (b_Code b) else code_of W a |}.
Definition apply_out (W : world) (f : Flushed) : world :=
  match the_output f with
  | OutUpdate a b => <[a := updated W a b]> W
  | OutDelete a => delete a W
  end.
(** The accounts with a mutation in the block. *)
Definition live_after (live : gset address) (f : Flushed) : gset address :=
  match the_output f with OutUpdate a _ => {[a]} ∪ live | OutDelete a => live ∖ {[a]} end.
(** What the accounts under execution give to the output: the pointer to the mutation is kept; the
    root in the body is the one the account had before the block; the two maps are visited in some
    order.  The hashes of what is written are those of nothing else. *)
Record update_ok (W0 : world) (live : gset address) (W : world) (f : Flushed) (a : address) (b : AccountBody) : Prop := {
  u_safe : safe a;
  u_sink : sink b = bool_decide (a ∈ live);
  u_root : db_StorageRootHash (b_account b) = slots_root (slots_of W0 a);
  u_account : account_ok (b_account b);
  u_storage : storage_order f ≡ₚ map_to_list (StorageDirty b);
  u_raw : raw_order f ≡ₚ map_to_list (RawStorageDirty b);
  u_slots : slots_ok (storage_order f) (raw_order f);
  u_keys : NoDup (map op_key (slot_ops (storage_order f) (raw_order f)));
  u_slots_safe : Forall (λ op, safe (a ++ op_key op)) (slot_ops (storage_order f) (raw_order f));
  u_code : if CodeDirty b then is_Some (db_CodeHash (b_account b)) ∧ default [] (b_Code b) ≠ []
           else db_CodeHash (b_account b) = code_hash_of W a
}.
(** An account that is deleted had no storage before the block. *)
Definition flush_ok (W0 : world) (live : gset address) (W : world) (f : Flushed) : Prop :=
  match the_output f with
  | OutUpdate a b => update_ok W0 live W f a b
  | OutDelete a => safe a ∧ slots_of W0 a = ∅
  end.

(** The database holds the accounts. *)
Record represents (get : db_Get) (W : world) : Prop := {
  r_main : store_ok (H0 := MainTrieSchema) value_limit (MainTrieInputAdapter get) (main_map W);
  r_slots : ∀ a, store_ok value_limit (AccountTrieInputAdapter a get) (slots_of W a);
  r_code : ∀ a x h, W !! a = Some x → db_CodeHash (w_account x) = Some h → get COL_code h = Some (w_code x)
}.

(** * The mutations *)
Definition erasures (a : address) (ws : list write) : Prop :=
  ∀ x, x ∈ ws → ∃ k, x = PutValue k [] ∧ hash_key k ∧ safe (a ++ k).
(** A writer stands for the slots; without one they are those before the block. *)
Definition slots_written (get : db_Get) (W0 : world) (a : address)
    (w : option (writer_state acc_storage_trie_value)) (m : gmap bytes bytes) : Prop :=
  match w with
  | None => m = slots_of W0 a
  | Some w => models value_limit (AccountTrieInputAdapter a get) w m ∧ erasures a (written w)
  end.
Lemma slot_value_limit : 0 <= value_limit <= 2 ^ 31.
Proof. unfold value_limit. lia. Qed.
Lemma slot_max : MaxValueSizeToStoreInTrie < Z.of_nat HashLength.
Proof. done. Qed.
Lemma updated_slots W0 live W f a b : update_ok W0 live W f a b →
  w_slots (updated W a b) = map_ops (slot_ops (storage_order f) (raw_order f)) (slots_of W a).
Proof.
  intros Hu. cbn [updated w_slots]. symmetry. apply map_ops_perm; [by apply Hu|].
  unfold slot_ops. by rewrite (u_storage _ _ _ _ _ _ Hu), (u_raw _ _ _ _ _ _ Hu).
Qed.
Lemma slots_update get W0 live W f a b w :
  represents get W0 → update_ok W0 live W f a b → slots_written get W0 a w (slots_of W a) →
  ∃ w', (if no_slots (storage_order f) (raw_order f) then w' = w
         else ∃ w1, w' = Some w1 ∧
           run_ops (AccountTrieInputAdapter a get) (slot_ops (storage_order f) (raw_order f))
             (default (slots_writer (db_StorageRootHash (b_account b))) w) = (Ret tt, w1)) ∧
    slots_written get W0 a w' (w_slots (updated W a b)).
Proof.
  intros Hr Hu Hw. rewrite (updated_slots _ _ _ _ _ _ Hu).
  destruct (no_slots _ _) eqn:En.
  { exists w. split; [done|]. unfold no_slots in En. apply andb_true_iff in En as [E1 E2].
    apply Nat.eqb_eq, length_zero_iff_nil in E1, E2. by rewrite E1, E2. }
  set (w0 := default (slots_writer (db_StorageRootHash (b_account b))) w).
  assert (Hm : models value_limit (AccountTrieInputAdapter a get) w0 (slots_of W a) ∧ erasures a (written w0)).
  { unfold w0. destruct w as [w|]; [done|]. simpl in Hw. rewrite Hw. split.
    - rewrite (u_root _ _ _ _ _ _ Hu).
      exact (opened_models (keccak_32 Hkey) slot_max value_limit slot_value_limit _ _ 0 (r_slots _ _ Hr a)).
    - by intros x ?%elem_of_nil. }
  destruct Hm as [Hm He].
  destruct (run_ops_models (keccak_32 Hkey) slot_max value_limit slot_value_limit _
    (slot_ops (storage_order f) (raw_order f)) w0 _ (slot_ops_ok Hkey _ _ (u_slots _ _ _ _ _ _ Hu)) Hm)
    as (w1 & E1 & Hm1 & Ew & _).
  exists (Some w1). split; [by exists w1|]. split; [done|]. rewrite Ew. intros x [Hx|Hx]%elem_of_app; [by apply He|].
  apply ops_writes_erase in Hx as (k & -> & Hk). exists k. split; [done|].
  apply list_elem_of_fmap in Hk as (op & -> & Hop). pose proof (u_slots_safe _ _ _ _ _ _ Hu) as Hs.
  rewrite Forall_forall in Hs. split; [|by apply Hs].
  pose proof (slot_ops_ok Hkey _ _ (u_slots _ _ _ _ _ _ Hu)) as Ho. rewrite Forall_forall in Ho.
  specialize (Ho op Hop). destruct op; simpl in *; [by destruct Ho|done].
Qed.

(** * The invariant of the outputs of a block *)
Definition live_mutation (get : db_Get) (W0 W : world) (a : address) (mu : Mutation) : Prop :=
  mut_addr mu = a ∧ pending mu = true ∧
  ∃ x, W !! a = Some x ∧ acc mu = w_account x ∧
    db_StorageRootHash (w_account x) = slots_root (slots_of W0 a) ∧
    slots_written get W0 a (trie_writer mu) (w_slots x).
(** What holds of every mutation of the block, the dropped ones included: nothing is encoded, only
    removals are written; one that was dropped is older than the one in use, and its account had
    no storage. *)
Definition block_mutation (W0 : world) (sinks : gmap address nat) (id : nat) (mu : Mutation) : Prop :=
  safe (mut_addr mu) ∧ enc_storage mu = [] ∧
  match trie_writer mu with Some w => erasures (mut_addr mu) (written w) | None => True end ∧
  (sinks !! mut_addr mu = Some id ∨
   slots_of W0 (mut_addr mu) = ∅ ∧ ∀ id', sinks !! mut_addr mu = Some id' → (id < id')%nat).
Definition task_ok (muts : list Mutation) (t : main_task) : Prop :=
  task_there muts t ∧ ∃ a, safe a ∧ task_key t = keccak a.
Record flushing (get : db_Get) (W0 : world) (wm : writer_state Mutation) (h : Host) (live : gset address)
    (W : world) : Prop := {
  f_main : main_trie_writer (the_sink h) = wm;
  f_live : dom (sinks h) = live;
  f_sinks : ∀ a id, sinks h !! a = Some id → ∃ mu, mutations (the_sink h) !! id = Some mu ∧
    live_mutation get W0 W a mu ∧
    last_task (thread_main_trie_write (the_sink h)) (keccak a) = Some (MainPut (keccak a) id);
  f_rest : ∀ a, a ∉ live → safe a →
    (last_task (thread_main_trie_write (the_sink h)) (keccak a) = None ∧ W !! a = W0 !! a) ∨
    (last_task (thread_main_trie_write (the_sink h)) (keccak a) = Some (MainDelete (keccak a)) ∧
     W !! a = None ∧ slots_of W0 a = ∅);
  f_tasks : Forall (task_ok (mutations (the_sink h))) (thread_main_trie_write (the_sink h));
  f_mutations : ∀ id mu, mutations (the_sink h) !! id = Some mu → block_mutation W0 (sinks h) id mu;
  f_world : world_ok W;
  f_code : ∀ a x k, W !! a = Some x → db_CodeHash (w_account x) = Some k →
    get COL_code k = Some (w_code x) ∨ (COL_code, k, w_code x) ∈ code_puts (the_sink h);
  f_code_column : Forall (λ p, p.1.1 = COL_code) (code_puts (the_sink h))
}.

Lemma slots_of_insert W a x a' : slots_of (<[a := x]> W) a' = if decide (a = a') then w_slots x else slots_of W a'.
Proof. unfold slots_of. destruct (decide (a = a')) as [->|]; [by rewrite lookup_insert_eq|by rewrite lookup_insert_ne]. Qed.
(** The slots of an account that has no mutation are those of before. *)
Lemma rest_slots get W0 wm h live W a :
  flushing get W0 wm h live W → a ∉ live → safe a → slots_of W a = slots_of W0 a.
Proof.
  intros Hf Ha Hs. unfold slots_of.
  destruct (f_rest _ _ _ _ _ _ Hf a Ha Hs) as [[_ ->]|(_ & -> & E)]; [done|]. unfold slots_of in E.
  by rewrite E.
Qed.
Lemma updated_account_ok W0 live W f a b x :
  update_ok W0 live W f a b → world_ok W → x = updated W a b → world_account_ok a x.
Proof.
  intros Hu Hok ->.
  assert (Hk : ∀ k, is_Some (slots_of W a !! k) → safe (a ++ k)).
  { intros k Ev. unfold slots_of in Ev. destruct (W !! a) as [x|] eqn:Ea; [|by destruct Ev].
    by apply (wa_slots _ _ (Hok a x Ea)). }
  split; [by apply Hu| | |].
  - destruct (u_account _ _ _ _ _ _ Hu) as [Hn Hb _ Hc Hs].
    split; [exact Hn|exact Hb| |exact Hc|exact Hs].
    cbn [rooted with_root db_StorageRootHash]. unfold slots_root, root_hash.
    generalize (mpt (w_slots (updated W a b))). intros [t|]; [apply keccak_32, Hkey|exact I].
  - intros k [v Ev]. rewrite (updated_slots _ _ _ _ _ _ Hu) in Ev.
    destruct (decide (k ∈ map op_key (slot_ops (storage_order f) (raw_order f)))) as [Hin|Hn].
    + apply list_elem_of_fmap in Hin as (op & -> & Hop).
      pose proof (u_slots_safe _ _ _ _ _ _ Hu) as Hs. rewrite Forall_forall in Hs. by apply Hs.
    + rewrite map_ops_lookup in Ev by done. apply Hk. by exists v.
  - cbn [w_account w_code updated]. pose proof (u_code _ _ _ _ _ _ Hu) as Hc.
    destruct (CodeDirty b); [by destruct Hc|]. rewrite Hc. unfold code_hash_of, code_of.
    destruct (W !! a) as [x|] eqn:Ea; [apply (wa_code _ _ (Hok a x Ea))|by intros [? ?]].
Qed.

(** The state before the [Update] of account [a]: [id] is its mutation [mu], old or just started. *)
Record updating (get : db_Get) (W0 : world) (h : Host) (live : gset address) (W : world) (a : address)
    (s1 : TrieSink) (id : nat) (mu : Mutation) : Prop := {
  up_queue : thread_main_trie_write s1 = thread_main_trie_write (the_sink h);
  up_main : main_trie_writer s1 = main_trie_writer (the_sink h);
  up_codes : code_puts s1 = code_puts (the_sink h);
  up_mutation : mutations s1 !! id = Some mu;
  up_others : ∀ id' mu', id' ≠ id →
    mutations s1 !! id' = Some mu' ↔ mutations (the_sink h) !! id' = Some mu';
  up_there : ∀ id', is_Some (mutations (the_sink h) !! id') → is_Some (mutations s1 !! id');
  up_addr : mut_addr mu = a;
  up_plain : enc_storage mu = [];
  up_slots : slots_written get W0 a (trie_writer mu) (slots_of W a);
  up_pending : if pending mu then
      last_task (thread_main_trie_write (the_sink h)) (keccak a) = Some (MainPut (keccak a) id)
    else True;
  up_newest : ∀ id' mu', id' ≠ id → mutations (the_sink h) !! id' = Some mu' → mut_addr mu' = a →
    slots_of W0 a = ∅ ∧ (id' < id)%nat;
  up_live : ∀ id', sinks h !! a = Some id' → id' = id;
  up_same : ∀ mu', mutations (the_sink h) !! id = Some mu' → mu' = mu
}.
Lemma updating_live get W0 wm h live W a id mu :
  flushing get W0 wm h live W → sinks h !! a = Some id → mutations (the_sink h) !! id = Some mu →
  updating get W0 h live W a (the_sink h) id mu.
Proof.
  intros Hf Es Em. destruct (f_sinks _ _ _ _ _ _ Hf a id Es) as (mu' & Em' & (Ea & Ep & x & Ex & _ & _ & Hw) & El).
  rewrite Em in Em'. injection Em' as <-.
  destruct (f_mutations _ _ _ _ _ _ Hf id mu Em) as (_ & Hplain & _ & _).
  split; try done.
  - unfold slots_of. by rewrite Ex.
  - by rewrite Ep.
  - intros id' mu' Hne Em' Ea'. destruct (f_mutations _ _ _ _ _ _ Hf id' mu' Em') as (_ & _ & _ & [Ei|[Hz Hlt]]).
    + rewrite Ea' in Ei. congruence.
    + rewrite Ea' in Hz, Hlt. split; [done|]. by apply Hlt.
  - intros id' E. congruence.
  - intros mu' E. congruence.
Qed.
Definition new_mutation (a : address) : Mutation := {|
  mut_addr := a; acc := no_account; pending := false; enc_storage := []; enc_hash := []; trie_writer := None |}.
Lemma updating_new get W0 wm h live W a :
  flushing get W0 wm h live W → a ∉ live → safe a →
  updating get W0 h live W a
    (set_mutations (mutations (the_sink h) ++ [new_mutation a]) (the_sink h))
    (length (mutations (the_sink h))) (new_mutation a).
Proof.
  intros Hf Ha Hs. assert (En : sinks h !! a = None).
  { apply not_elem_of_dom. by rewrite (f_live _ _ _ _ _ _ Hf). }
  split; try done.
  - cbn [mutations set_mutations]. by apply list_lookup_middle.
  - intros id' mu' Hne. cbn [mutations set_mutations].
    destruct (decide (id' < length (mutations (the_sink h)))%nat); [by rewrite lookup_app_l|].
    rewrite lookup_app_r, !lookup_ge_None_2 by (simpl; lia). done.
  - intros id' [mu' E]. exists mu'. cbn [mutations set_mutations]. by apply lookup_app_l_Some.
  - simpl. by eapply rest_slots.
  - intros id' mu' _ Em Ea. split; [|by eapply lookup_lt_Some].
    destruct (f_mutations _ _ _ _ _ _ Hf id' mu' Em) as (_ & _ & _ & [Ei|[Hz _]]).
    + rewrite Ea in Ei. congruence.
    + by rewrite Ea in Hz.
  - intros id' E. congruence.
  - intros mu' E. apply lookup_lt_Some in E. lia.
Qed.

Lemma queue_after get W0 h live W a s1 id mu b w' k :
  updating get W0 h live W a s1 id mu →
  last_task (thread_main_trie_write (updated_sink s1 id mu b w')) k =
  if bool_decide (k = keccak a) then Some (MainPut (keccak a) id)
  else last_task (thread_main_trie_write (the_sink h)) k.
Proof.
  intros Hu. cbn [thread_main_trie_write updated_sink]. rewrite (up_queue _ _ _ _ _ _ _ _ _ Hu), (up_addr _ _ _ _ _ _ _ _ _ Hu).
  pose proof (up_pending _ _ _ _ _ _ _ _ _ Hu) as Hp. destruct (pending mu).
  - rewrite app_nil_r. case_bool_decide; [by subst|done].
  - rewrite last_task_snoc. cbn [task_key]. repeat case_bool_decide; congruence.
Qed.
Lemma mutations_after get W0 h live W a s1 id mu b w' id' mu' :
  updating get W0 h live W a s1 id mu → id' ≠ id →
  mutations (updated_sink s1 id mu b w') !! id' = Some mu' ↔ mutations (the_sink h) !! id' = Some mu'.
Proof.
  intros Hu Hne. cbn [mutations updated_sink]. rewrite list_lookup_insert_ne by done.
  by apply (up_others _ _ _ _ _ _ _ _ _ Hu).
Qed.
Lemma mutation_after get W0 h live W a s1 id mu b w' :
  updating get W0 h live W a s1 id mu →
  mutations (updated_sink s1 id mu b w') !! id = Some (updated_mutation mu b w').
Proof.
  intros Hu. cbn [mutations updated_sink]. apply list_lookup_insert_eq.
  eapply lookup_lt_Some, (up_mutation _ _ _ _ _ _ _ _ _ Hu).
Qed.
Lemma tasks_after get W0 wm h live W a s1 id mu b w' :
  flushing get W0 wm h live W → updating get W0 h live W a s1 id mu → safe a →
  Forall (task_ok (mutations (updated_sink s1 id mu b w')))
    (thread_main_trie_write (updated_sink s1 id mu b w')).
Proof.
  intros Hf Hu Hs. cbn [thread_main_trie_write updated_sink mutations].
  rewrite (up_queue _ _ _ _ _ _ _ _ _ Hu), (up_addr _ _ _ _ _ _ _ _ _ Hu).
  pose proof (mutation_after _ _ _ _ _ _ _ _ _ b w' Hu) as Em. cbn [mutations updated_sink] in Em.
  assert (Hthere : ∀ id', is_Some (mutations (the_sink h) !! id') →
    is_Some (<[id:=updated_mutation mu b w']> (mutations s1) !! id')).
  { intros id' Hid. apply (up_there _ _ _ _ _ _ _ _ _ Hu) in Hid. destruct Hid as [m E].
    destruct (decide (id = id')) as [->|Hne]; [by rewrite Em|].
    rewrite list_lookup_insert_ne by done. by exists m. }
  apply Forall_app_2.
  - eapply Forall_impl; [apply (f_tasks _ _ _ _ _ _ Hf)|]. intros t [Ht Ha]. split; [|done].
    destruct t as [k id'|k]; [by apply Hthere|done].
  - destruct (pending mu); [constructor|]. apply Forall_singleton. split; [|by exists a].
    simpl. by rewrite Em.
Qed.
Lemma flushing_update get W0 wm h live W a s1 id mu f b :
  represents get W0 → flushing get W0 wm h live W → update_ok W0 live W f a b →
  updating get W0 h live W a s1 id mu →
  ∃ w', Update get id b (storage_order f) (raw_order f) s1 = (Ret tt, updated_sink s1 id mu b w') ∧
    flushing get W0 wm {| the_sink := updated_sink s1 id mu b w'; sinks := <[a := id]> (sinks h) |}
      ({[a]} ∪ live) (<[a := updated W a b]> W).
Proof.
  intros Hr Hf Ho Hu. pose proof (u_safe _ _ _ _ _ _ Ho) as Hs.
  destruct (slots_update get W0 live W f a b (trie_writer mu) Hr Ho (up_slots _ _ _ _ _ _ _ _ _ Hu))
    as (w' & Ew & Hw').
  exists w'. split.
  { apply Update_run.
    - apply (up_mutation _ _ _ _ _ _ _ _ _ Hu).
    - intros Ed. pose proof (u_code _ _ _ _ _ _ Ho) as Hc. rewrite Ed in Hc. by destruct Hc.
    - by rewrite (up_addr _ _ _ _ _ _ _ _ _ Hu). }
  split; cbn [the_sink sinks].
  - cbn [main_trie_writer updated_sink]. rewrite (up_main _ _ _ _ _ _ _ _ _ Hu). apply Hf.
  - rewrite dom_insert_L. by rewrite (f_live _ _ _ _ _ _ Hf).
  - intros a' id' Es. rewrite (queue_after _ _ _ _ _ _ _ _ _ _ _ _ Hu).
    destruct (decide (a' = a)) as [->|Hne].
    + rewrite lookup_insert_eq in Es. injection Es as <-. rewrite bool_decide_eq_true_2 by done.
      exists (updated_mutation mu b w'). split_and!; [by eapply mutation_after| |done].
      split_and!; [apply (up_addr _ _ _ _ _ _ _ _ _ Hu)|done|]. exists (updated W a b).
      rewrite lookup_insert_eq. split_and!; [done|done|apply Ho|done].
    + rewrite lookup_insert_ne in Es by done.
      destruct (f_sinks _ _ _ _ _ _ Hf a' id' Es) as (mu' & Em & (Ea & Ep & x & Ex & Hx) & El).
      rewrite bool_decide_eq_false_2 by (intros E; by apply Hne, Hs).
      exists mu'. split_and!; [|split_and!; [done..|]|done].
      * eapply mutations_after; [done| |done]. intros ->. apply Hne.
        rewrite <-Ea, (up_same _ _ _ _ _ _ _ _ _ Hu mu' Em). apply (up_addr _ _ _ _ _ _ _ _ _ Hu).
      * exists x. rewrite lookup_insert_ne by done. by split.
  - intros a' Ha' Hs'. rewrite not_elem_of_union, not_elem_of_singleton in Ha'. destruct Ha' as [Hne Ha'].
    rewrite (queue_after _ _ _ _ _ _ _ _ _ _ _ _ Hu).
    rewrite bool_decide_eq_false_2 by (intros E; by apply Hne, Hs).
    rewrite lookup_insert_ne by done. by apply (f_rest _ _ _ _ _ _ Hf).
  - by eapply tasks_after.
  - intros id' mu' Em. destruct (decide (id' = id)) as [->|Hne].
    + rewrite (mutation_after _ _ _ _ _ _ _ _ _ b w' Hu) in Em. injection Em as <-.
      unfold block_mutation. cbn [mut_addr enc_storage trie_writer updated_mutation].
      rewrite (up_addr _ _ _ _ _ _ _ _ _ Hu), lookup_insert_eq.
      split_and!; [done|apply (up_plain _ _ _ _ _ _ _ _ _ Hu)| |by left].
      destruct w' as [w'|]; [by destruct Hw'|done].
    + apply (mutations_after _ _ _ _ _ _ _ _ _ _ _ _ _ Hu Hne) in Em.
      destruct (f_mutations _ _ _ _ _ _ Hf id' mu' Em) as (H1 & H2 & H3 & H4).
      split_and!; [done..|]. destruct (decide (mut_addr mu' = a)) as [E|Hn].
      * rewrite E, lookup_insert_eq. right.
        destruct (up_newest _ _ _ _ _ _ _ _ _ Hu id' mu' Hne Em E) as [Hz Hlt].
        split; [done|]. by intros ? [= <-].
      * by rewrite lookup_insert_ne.
  - intros a' x Ex. destruct (decide (a = a')) as [<-|Hne].
    + rewrite lookup_insert_eq in Ex. injection Ex as <-.
      exact (updated_account_ok W0 live W f a b _ Ho (f_world _ _ _ _ _ _ Hf) eq_refl).
    + rewrite lookup_insert_ne in Ex by done. by apply (f_world _ _ _ _ _ _ Hf).
  - cbn [code_puts updated_sink]. rewrite (up_codes _ _ _ _ _ _ _ _ _ Hu). intros a' x k Ex Ek.
    rewrite elem_of_app. destruct (decide (a = a')) as [<-|Hne].
    + rewrite lookup_insert_eq in Ex. injection Ex as <-. cbn [w_account w_code updated] in *.
      pose proof (u_code _ _ _ _ _ _ Ho) as Hc. destruct (CodeDirty b).
      * right. right. rewrite Ek. by left.
      * rewrite Hc in Ek. unfold code_hash_of, code_of in *. destruct (W !! a) as [x|] eqn:Ea; [|done].
        destruct (f_code _ _ _ _ _ _ Hf a x k Ea Ek) as [?|?]; auto.
    + rewrite lookup_insert_ne in Ex by done.
      destruct (f_code _ _ _ _ _ _ Hf a' x k Ex Ek) as [?|?]; auto.
  - cbn [code_puts updated_sink]. rewrite (up_codes _ _ _ _ _ _ _ _ _ Hu).
    apply Forall_app_2; [apply (f_code_column _ _ _ _ _ _ Hf)|]. destruct (CodeDirty b); by repeat constructor.
Qed.

Definition deleted_host (h : Host) (a : address) : Host := {|
  the_sink := set_queue (thread_main_trie_write (the_sink h) ++ [MainDelete (keccak a)]) (the_sink h);
  sinks := delete a (sinks h) |}.
Lemma flushing_delete get W0 wm h live W a :
  flushing get W0 wm h live W → safe a → slots_of W0 a = ∅ →
  flushing get W0 wm (deleted_host h a) (live ∖ {[a]}) (delete a W).
Proof.
  intros Hf Hs Hz. split; cbn [the_sink sinks deleted_host set_queue main_trie_writer
    thread_main_trie_write mutations code_puts].
  - apply Hf.
  - rewrite dom_delete_L. by rewrite (f_live _ _ _ _ _ _ Hf).
  - intros a' id Es. apply lookup_delete_Some in Es as [Hne Es].
    destruct (f_sinks _ _ _ _ _ _ Hf a' id Es) as (mu & Em & (Ea & Ep & x & Ex & Hx) & El).
    exists mu. split_and!; [done| |].
    + split_and!; [done..|]. exists x. by rewrite lookup_delete_ne.
    + rewrite last_task_snoc. cbn [task_key]. by rewrite bool_decide_eq_false_2 by (intros E; exact (Hne (eq_sym (Hs a' (eq_sym E))))).
  - intros a' Ha' Hs'. rewrite last_task_snoc. cbn [task_key].
    destruct (decide (a = a')) as [<-|Hne].
    + right. rewrite bool_decide_eq_true_2, lookup_delete_eq by done. done.
    + rewrite bool_decide_eq_false_2 by (intros E; exact (Hne (Hs' a E))). rewrite lookup_delete_ne by done.
      apply (f_rest _ _ _ _ _ _ Hf); [|done]. intros Hin. apply Ha'. apply elem_of_difference.
      split; [done|]. by rewrite elem_of_singleton.
  - apply Forall_app_2; [apply Hf|]. apply Forall_singleton. split; [done|]. by exists a.
  - intros id mu Em. destruct (f_mutations _ _ _ _ _ _ Hf id mu Em) as (H1 & H2 & H3 & H4).
    split_and!; [done..|]. destruct (decide (mut_addr mu = a)) as [E|Hn].
    + rewrite E, lookup_delete_eq. right. split; [done|]. by intros ?.
    + by rewrite lookup_delete_ne.
  - intros a' x Ex. apply lookup_delete_Some in Ex as [_ Ex]. by apply (f_world _ _ _ _ _ _ Hf).
  - intros a' x k Ex Ek. apply lookup_delete_Some in Ex as [_ Ex].
    exact (f_code _ _ _ _ _ _ Hf a' x k Ex Ek).
  - exact (f_code_column _ _ _ _ _ _ Hf).
Qed.
Lemma flush_run get W0 wm h live W f :
  represents get W0 → flushing get W0 wm h live W → flush_ok W0 live W f →
  ∃ h', flush_output get f h = (Ret tt, h') ∧
    flushing get W0 wm h' (live_after live f) (apply_out W f).
Proof.
  intros Hr Hf Ho. unfold flush_output, flush_ok, live_after, apply_out in *. destruct (the_output f) as [a b|a].
  - pose proof (u_sink _ _ _ _ _ _ Ho) as Esink. destruct (decide (a ∈ live)) as [Hin|Hn].
    + rewrite bool_decide_eq_true_2 in Esink by done. rewrite Esink.
      rewrite <-(f_live _ _ _ _ _ _ Hf) in Hin. apply elem_of_dom in Hin as [id Es].
      destruct (f_sinks _ _ _ _ _ _ Hf a id Es) as (mu & Em & _).
      destruct (flushing_update get W0 wm h live W a (the_sink h) id mu f b Hr Hf Ho
        (updating_live _ _ _ _ _ _ _ _ _ Hf Es Em)) as (w' & E & Hf').
      assert (Et : the_mutation a h = (Ret id, h)) by (unfold the_mutation; by rewrite Es).
      rewrite (bind_run _ _ _ _ _ Et). unfold on_sink. rewrite E. eexists. split; [done|].
      by rewrite insert_id in Hf' by done.
    + rewrite bool_decide_eq_false_2 in Esink by done. rewrite Esink.
      destruct (flushing_update get W0 wm h live W a _ _ _ f b Hr Hf Ho
        (updating_new _ _ _ _ _ _ _ Hf Hn (u_safe _ _ _ _ _ _ Ho))) as (w' & E & Hf').
      eexists. split; [|exact Hf']. unfold StartMutation, set_sinks, on_sink, mbind, M_bind, mret, M_ret.
      cbn [the_sink sinks]. fold (new_mutation a). by rewrite E.
  - destruct Ho as [Hs Hz]. exists (deleted_host h a). split; [done|]. by apply flushing_delete.
Qed.
(** The condition on all outputs of a block, and the accounts they leave. *)
Fixpoint outputs_ok (W0 : world) (live : gset address) (W : world) (outs : list Flushed) : Prop :=
  match outs with
  | [] => True
  | f :: outs => flush_ok W0 live W f ∧ outputs_ok W0 (live_after live f) (apply_out W f) outs
  end.
Lemma flushes_run get W0 wm outs : ∀ h live W,
  represents get W0 → flushing get W0 wm h live W → outputs_ok W0 live W outs →
  ∃ h', Prelude.for_each outs (flush_output get) h = (Ret tt, h') ∧
    flushing get W0 wm h' (foldl live_after live outs) (foldl apply_out W outs).
Proof.
  induction outs as [|f outs IH]; intros h live W Hr Hf Ho; [by exists h|].
  destruct Ho as [Ho Hos]. destruct (flush_run get W0 wm h live W f Hr Hf Ho) as (h1 & E1 & Hf1).
  destruct (IH h1 _ _ Hr Hf1 Hos) as (h2 & E2 & Hf2). exists h2. split; [|done].
  cbn [Prelude.for_each]. by rewrite (bind_run _ _ _ _ _ E1).
Qed.

(** * The commits of the mutations *)
Definition committed_mutation (get : db_Get) (W0 W : world) (a : address) (mu : Mutation) : Prop :=
  mut_addr mu = a ∧ ∃ x, W !! a = Some x ∧
    enc_storage mu = account_storage (rooted x) ∧ enc_hash mu = account_hashed (rooted x) ∧
    match trie_writer mu with
    | None => w_slots x = slots_of W0 a
    | Some w =>
        (∀ k v, PutValue k v ∈ written w → safe (a ++ k) ∧ hash_key k) ∧
        (nodes_agree (AccountTrieInputAdapter a get) (written w) →
         store_ok value_limit (apply_writes (AccountTrieInputAdapter a get) (written w)) (w_slots x))
    end.
Lemma rooted_same x r : db_StorageRootHash (w_account x) = r → with_root r (w_account x) = w_account x.
Proof. intros <-. by destruct (w_account x). Qed.
(** The state with the mutation [id] replaced. *)
Definition with_mutation (id : nat) (mu : Mutation) (s : TrieSink) : TrieSink :=
  set_mutations (<[id := mu]> (mutations s)) s.
Lemma get_with id mu s : (id < length (mutations s))%nat →
  get_mutation id (with_mutation id mu s) = (Ret mu, with_mutation id mu s).
Proof.
  intros Hlt. unfold get_mutation, with_mutation. cbn [mutations set_mutations].
  by rewrite list_lookup_insert_eq.
Qed.
Lemma set_with id mu mu' s :
  set_mutation id mu' (with_mutation id mu s) = (Ret tt, with_mutation id mu' s).
Proof.
  unfold set_mutation, with_mutation, set_mutations.
  cbn [mutations thread_main_trie_write main_trie_writer code_puts]. by rewrite insert_twice.
Qed.
Lemma on_writer_with {A} id w (m : M (writer_state acc_storage_trie_value) A) mu s o w' :
  (id < length (mutations s))%nat → m w = (o, w') →
  on_writer id w m (with_mutation id mu s) = (o, with_mutation id (with_writer (Some w') mu) s).
Proof.
  intros Hlt E. unfold on_writer, with_mutation, set_mutations.
  cbn [mutations thread_main_trie_write main_trie_writer code_puts].
  rewrite list_lookup_insert_eq by done. by rewrite E, insert_twice.
Qed.
(** The root of the storage: the writer's, or the one of before where there is none. *)
Lemma mutation_root (get : db_Get) (W0 W : world) a s id mu x : (id < length (mutations s))%nat →
  W !! a = Some x → acc mu = w_account x →
  db_StorageRootHash (w_account x) = slots_root (slots_of W0 a) →
  slots_written get W0 a (trie_writer mu) (w_slots x) → mut_addr mu = a →
  (∀ k, is_Some (w_slots x !! k) → safe (a ++ k)) →
  ∃ mu', (match trie_writer mu with
    | Some w =>
        r ← on_writer id w (Trie.Commit (H0 := AccountTrieSchema));
        m ← get_mutation id;
        set_mutation id (with_acc (with_root r (acc m)) m)
    | None => mret tt
    end) (with_mutation id (with_pending false mu) s) = (Ret tt, with_mutation id mu' s) ∧
    acc mu' = rooted x ∧ mut_addr mu' = a ∧
    match trie_writer mu' with
    | None => w_slots x = slots_of W0 a
    | Some w =>
        (∀ k v, PutValue k v ∈ written w → safe (a ++ k) ∧ hash_key k) ∧
        (nodes_agree (AccountTrieInputAdapter a get) (written w) →
         store_ok value_limit (apply_writes (AccountTrieInputAdapter a get) (written w)) (w_slots x))
    end.
Proof.
  intros Hlt Ex Eacc Eroot Hw Ea Hkeys. destruct (trie_writer mu) as [w|] eqn:Et.
  - destruct Hw as [Hm He].
    destruct (commit_models (keccak_32 Hkey) slot_max value_limit slot_value_limit _ _ _ Hm)
      as (w2 & ws & E2 & Ew & _ & Hput & Hdb).
    exists (with_acc (rooted x) (with_writer (Some w2) (with_pending false mu))). split_and!.
    + rewrite (bind_run _ _ _ _ _ (on_writer_with id w _ _ _ _ _ Hlt E2)).
      rewrite (bind_run _ _ _ _ _ (get_with _ _ _ Hlt)), set_with. cbn [acc with_writer with_pending].
      by rewrite Eacc.
    + done.
    + done.
    + cbn [trie_writer with_acc with_writer]. split.
      * intros k v Hin. rewrite Ew in Hin. apply elem_of_app in Hin as [Hin|Hin].
        -- destruct (He _ Hin) as (k' & [= -> ->] & ? & ?). done.
        -- apply Hput in Hin as [Hk Ek]. split; [|done]. apply Hkeys. by exists v.
      * intros Ha. destruct (Hdb Ha) as [Hm2 Hs].
        eapply (models_store (keccak_32 Hkey) slot_max value_limit slot_value_limit); [exact Hm2|done|exact Hs].
  - exists (with_pending false mu). split_and!; [done| |done|].
    + cbn [acc with_pending]. rewrite Eacc. unfold rooted. symmetry. apply rooted_same.
      rewrite Eroot. simpl in Hw. by rewrite Hw.
    + cbn [trie_writer with_pending]. by rewrite Et.
Qed.
Lemma Mutation_Commit_run get W0 W a s id mu :
  world_ok W → mutations s !! id = Some mu → live_mutation get W0 W a mu →
  ∃ mu', Mutation_Commit id s = (Ret tt, with_mutation id mu' s) ∧ committed_mutation get W0 W a mu'.
Proof.
  intros Hok Em (Ea & Ep & x & Ex & Eacc & Eroot & Hw). assert (Hlt := lookup_lt_Some _ _ _ Em).
  pose proof (Hok a x Ex) as [Hsafe Hacc Hkeys _].
  assert (Eg : get_mutation id s = (Ret mu, s)) by (unfold get_mutation; by rewrite Em).
  destruct (mutation_root get W0 W a s id mu x) as (mu1 & E1 & Eacc1 & Ea1 & H1); [done..|].
  unfold Mutation_Commit. rewrite (bind_run _ _ _ _ _ Eg), Ep. cbn [negb].
  assert (E0 : set_mutation id (with_pending false mu) s = (Ret tt, with_mutation id (with_pending false mu) s)) by done.
  rewrite (bind_run _ _ _ _ _ E0), (bind_run _ _ _ _ _ E1), (bind_run _ _ _ _ _ (get_with _ _ _ Hlt)).
  rewrite Eacc1. unfold mbind at 1, M_bind at 1, of_outcome.
  rewrite (encode_account (keccak_32 Hkey) _ Hacc), set_with. eexists. split; [done|].
  split; [done|]. exists x. by split_and!.
Qed.
End run.
