(* ===== verification/TrieSinkRefine.v ===== *)
(** A block on the sink is a block on the accounts: the commits of the mutations and of the main
    trie, what the database holds with the puts of the sink and of all its mutations, and blocks one
    after the other. *)
From S2P Require Import Prelude Codec Rlp RlpEncoder Storage DposData EvmInterface StateEvm TrieEncoding Trie TrieMap TrieHash TrieRep TrieFacts TrieCommit TrieBuild TrieRun TrieSchemas StateDb TrieSink TrieSinkMaps TrieSinkRun.

Section commit.
Context `{Keccak}.
Context (Hkey : ∀ b, hash_key (keccak b)).
#[local] Existing Instance AccountTrieSchema.

(** * The commits of the accounts *)
(** [h1] is [h] with the mutations of [l] committed. *)
Record committing (get : db_Get) (W0 W : world) (h : Host) (l : list address) (h1 : Host) : Prop := {
  c_queue : thread_main_trie_write (the_sink h1) = thread_main_trie_write (the_sink h);
  c_main : main_trie_writer (the_sink h1) = main_trie_writer (the_sink h);
  c_codes : code_puts (the_sink h1) = code_puts (the_sink h);
  c_sinks : sinks h1 = sinks h;
  c_length : length (mutations (the_sink h1)) = length (mutations (the_sink h));
  c_done : ∀ a id, a ∈ l → sinks h !! a = Some id →
    ∃ mu, mutations (the_sink h1) !! id = Some mu ∧ committed_mutation get W0 W a mu;
  c_others : ∀ id, (∀ a, a ∈ l → sinks h !! a ≠ Some id) →
    mutations (the_sink h1) !! id = mutations (the_sink h) !! id
}.
Lemma committing_nil get W0 W h : committing get W0 W h [] h.
Proof. split; try done. by intros a id ?%elem_of_nil. Qed.
(** Two accounts have two mutations. *)
Lemma sinks_inj get W0 wm h live W a b id :
  flushing get W0 wm h live W → sinks h !! a = Some id → sinks h !! b = Some id → a = b.
Proof.
  intros Hf Ea Eb. destruct (f_sinks _ _ _ _ _ _ Hf a id Ea) as (mu & Em & [<- _] & _).
  destruct (f_sinks _ _ _ _ _ _ Hf b id Eb) as (mu' & Em' & [<- _] & _). congruence.
Qed.
Lemma commit_account_run get W0 wm h live W l h1 a :
  flushing get W0 wm h live W → committing get W0 W h l h1 → a ∈ live → a ∉ l →
  ∃ h2, (id ← the_mutation a; on_sink (Mutation_Commit id)) h1 = (Ret tt, h2) ∧
    committing get W0 W h (l ++ [a]) h2.
Proof.
  intros Hf Hc Ha Hl. rewrite <-(f_live _ _ _ _ _ _ Hf) in Ha. apply elem_of_dom in Ha as [id Es].
  destruct (f_sinks _ _ _ _ _ _ Hf a id Es) as (mu & Em & Hlive & _).
  assert (Em1 : mutations (the_sink h1) !! id = Some mu).
  { rewrite (c_others _ _ _ _ _ _ Hc); [done|]. intros b Hb Eb.
    by rewrite (sinks_inj _ _ _ _ _ _ _ _ _ Hf Eb Es) in Hb. }
  destruct (Mutation_Commit_run Hkey get W0 W a (the_sink h1) id mu (f_world _ _ _ _ _ _ Hf) Em1 Hlive)
    as (mu' & E & Hmu').
  assert (Et : the_mutation a h1 = (Ret id, h1)).
  { unfold the_mutation. by rewrite (c_sinks _ _ _ _ _ _ Hc), Es. }
  exists {| the_sink := with_mutation id mu' (the_sink h1); sinks := sinks h1 |}. split.
  { rewrite (bind_run _ _ _ _ _ Et). unfold on_sink. by rewrite E. }
  assert (Hlt := lookup_lt_Some _ _ _ Em1).
  split; cbn [the_sink sinks with_mutation set_mutations thread_main_trie_write main_trie_writer code_puts mutations].
  - apply Hc.
  - apply Hc.
  - apply Hc.
  - apply Hc.
  - rewrite length_insert. apply Hc.
  - intros b id' Hb Eb. destruct (decide (id' = id)) as [->|Hne].
    + rewrite (sinks_inj _ _ _ _ _ _ _ _ _ Hf Eb Es). exists mu'. split; [|done]. by apply list_lookup_insert_eq.
    + rewrite list_lookup_insert_ne by done. apply (c_done _ _ _ _ _ _ Hc b); [|done].
      apply elem_of_app in Hb as [Hb|Hb%list_elem_of_singleton]; [done|]. congruence.
  - intros id' Hn. rewrite list_lookup_insert_ne.
    + apply (c_others _ _ _ _ _ _ Hc). intros b Hb. apply Hn, elem_of_app. by left.
    + intros ->. apply (Hn a); [|done]. apply elem_of_app. right. by left.
Qed.
Lemma commits_run get W0 wm h live W l : ∀ l0 h1,
  flushing get W0 wm h live W → committing get W0 W h l0 h1 → NoDup (l0 ++ l) → Forall (λ a, a ∈ live) l →
  ∃ h2, commit_accounts l h1 = (Ret tt, h2) ∧ committing get W0 W h (l0 ++ l) h2.
Proof.
  induction l as [|a l IH]; intros l0 h1 Hf Hc Hnd Hl.
  { exists h1. by rewrite app_nil_r. }
  apply Forall_cons in Hl as [Ha Hl].
  destruct (commit_account_run get W0 wm h live W l0 h1 a Hf Hc Ha) as (h2 & E & Hc2).
  { apply NoDup_app in Hnd as (_ & Hn & _). intros Hin. apply (Hn a Hin). by left. }
  rewrite (cons_middle a l0 l), app_assoc in Hnd |- *.
  destruct (IH (l0 ++ [a]) h2 Hf Hc2 Hnd Hl) as (h3 & E3 & Hc3). exists h3. split; [|done].
  unfold commit_accounts in *. cbn [Prelude.for_each]. by rewrite (bind_run _ _ _ _ _ E).
Qed.

(** * The main trie's tasks *)
Definition dirties_ok (live : gset address) (l : list address) : Prop :=
  NoDup l ∧ ∀ a, a ∈ l ↔ a ∈ live.
Section end_of_block.
Context (get : db_Get) (W0 : world) (wm : writer_state Mutation) (h : Host) (live : gset address) (W : world)
  (l : list address) (h1 : Host).
Context (Hr : represents get W0) (Hok0 : world_ok W0) (Hf : flushing get W0 wm h live W)
  (Hd : dirties_ok live l) (Hc : committing get W0 W h l h1).

Lemma live_committed a id : sinks h !! a = Some id →
  ∃ mu, mutations (the_sink h1) !! id = Some mu ∧ committed_mutation get W0 W a mu.
Proof.
  intros Es. apply (c_done _ _ _ _ _ _ Hc); [|done]. apply (proj2 Hd).
  rewrite <-(f_live _ _ _ _ _ _ Hf). apply elem_of_dom. by exists id.
Qed.
(** Each mutation is committed, or was dropped and is as it was. *)
Lemma mutation_end id mu : mutations (the_sink h1) !! id = Some mu →
  (∃ a, sinks h !! a = Some id ∧ committed_mutation get W0 W a mu) ∨
  mutations (the_sink h) !! id = Some mu ∧ ∀ a, sinks h !! a ≠ Some id.
Proof.
  intros Em. destruct (mutations (the_sink h) !! id) as [mu0|] eqn:Em0.
  2:{ apply lookup_ge_None in Em0. apply lookup_lt_Some in Em. rewrite (c_length _ _ _ _ _ _ Hc) in Em. lia. }
  destruct (decide (sinks h !! mut_addr mu0 = Some id)) as [Es|Hn].
  - left. destruct (live_committed _ _ Es) as (mu' & Em' & Hmu'). exists (mut_addr mu0). split; [done|].
    by replace mu with mu' by congruence.
  - assert (Hno : ∀ a, sinks h !! a ≠ Some id).
    { intros a Es. destruct (f_sinks _ _ _ _ _ _ Hf a id Es) as (mu' & Em' & [<- _] & _). congruence. }
    right. split; [|done]. rewrite <-Em. rewrite (c_others _ _ _ _ _ _ Hc) by auto. done.
Qed.
Lemma mutations_end_ok : Forall mutation_ok (mutations (the_sink h1)).
Proof.
  apply Forall_lookup. intros id mu Em. destruct (mutation_end id mu Em) as [(a & _ & _ & x & Ex & Es & Eh & _)|[Em0 _]].
  - right. exists (rooted x). split_and!; [|done..]. apply (wa_account _ _ (f_world _ _ _ _ _ _ Hf a x Ex)).
  - left. by destruct (f_mutations _ _ _ _ _ _ Hf id mu Em0) as (_ & ? & _).
Qed.
Lemma tasks_end : Forall (λ t, task_there (mutations (the_sink h1)) t ∧ hash_key (task_key t))
  (thread_main_trie_write (the_sink h)).
Proof.
  eapply Forall_impl; [exact (f_tasks _ _ _ _ _ _ Hf)|]. intros t [Ht (a & _ & ->)]. split; [|apply Hkey].
  destruct t as [k id|k]; [|done]. simpl in *. apply lookup_lt_is_Some. rewrite (c_length _ _ _ _ _ _ Hc).
  by apply lookup_lt_is_Some.
Qed.
Lemma untouched_main k : last_task (thread_main_trie_write (the_sink h)) k = None →
  main_map W0 !! k = main_map W !! k.
Proof.
  intros En.
  assert (Hsame : ∀ a, safe a → k = keccak a → W !! a = W0 !! a).
  { intros a Hs ->. destruct (decide (a ∈ live)) as [Ha|Ha].
    - rewrite <-(f_live _ _ _ _ _ _ Hf) in Ha. apply elem_of_dom in Ha as [id Es].
      destruct (f_sinks _ _ _ _ _ _ Hf a id Es) as (_ & _ & _ & El). congruence.
    - destruct (f_rest _ _ _ _ _ _ Hf a Ha Hs) as [[_ ?]|[El _]]; [done|congruence]. }
  apply option_eq. intros s.
  rewrite (main_map_lookup Hkey W0 k s Hok0), (main_map_lookup Hkey W k s (f_world _ _ _ _ _ _ Hf)).
  split; intros (a & x & Ea & Ek & Es); exists a, x; split_and!; try done.
  - by rewrite (Hsame a (wa_safe _ _ (Hok0 _ _ Ea)) Ek).
  - by rewrite <-(Hsame a (wa_safe _ _ (f_world _ _ _ _ _ _ Hf _ _ Ea)) Ek).
Qed.
Lemma main_end :
  map_ops (TrieValue0 := dummy_value)
    (map (task_op (mutations (the_sink h1))) (thread_main_trie_write (the_sink h))) (main_map W0) = main_map W.
Proof.
  apply map_eq. intros k. rewrite (last_task_lookup Hkey).
  destruct (last_task (thread_main_trie_write (the_sink h)) k) as [t|] eqn:El; [|by apply untouched_main].
  destruct (last_task_in _ _ _ El) as [Hin Ek].
  pose proof (f_tasks _ _ _ _ _ _ Hf) as Ht. rewrite Forall_forall in Ht.
  destruct (Ht t Hin) as [_ (a & Hs & Ea)]. rewrite <-Ek, Ea in *. clear Ek k.
  rewrite (main_map_at Hkey W a (f_world _ _ _ _ _ _ Hf) Hs).
  destruct (decide (a ∈ live)) as [Ha|Ha].
  - rewrite <-(f_live _ _ _ _ _ _ Hf) in Ha. apply elem_of_dom in Ha as [id Es].
    destruct (f_sinks _ _ _ _ _ _ Hf a id Es) as (_ & _ & _ & El').
    rewrite El in El'. injection El' as ->.
    destruct (live_committed _ _ Es) as (mu & Em & _ & x & Ex & Est & _ & _).
    rewrite Ex. unfold the_mutation_at. rewrite Em. cbn [default].
    unfold EncodeForTrie, dummy_value, Datatypes.id. rewrite Est.
    destruct (account_storage (rooted x)) as [|b s] eqn:E; [|done]. by apply enc_list_nonempty in E.
  - destruct (f_rest _ _ _ _ _ _ Hf a Ha Hs) as [[El' _]|(El' & -> & _)]; rewrite El in El'; [done|].
    by injection El' as ->.
Qed.
End end_of_block.
End commit.

(** * Writes and puts *)
(** The values after some writes depend on those of before only. *)
Lemma writes_values_ext db db' ws k :
  GetValue db k = GetValue db' k → GetValue (apply_writes db ws) k = GetValue (apply_writes db' ws) k.
Proof.
  intros E. induction ws as [|w ws IH] using rev_ind; [done|]. rewrite !apply_writes_snoc.
  destruct w; simpl; [by case_bool_decide|done].
Qed.

Section writes.
Context `{Keccak}.
Definition mutation_writes (mu : Mutation) : list write :=
  match trie_writer mu with Some w => written w | None => [] end.
Definition tagged_of (muts : list Mutation) : list (address * write) :=
  concat (map (λ mu, map (pair (mut_addr mu)) (mutation_writes mu)) muts).
Lemma tagged_puts muts : map tagged_put (tagged_of muts) = concat (map mutation_puts muts).
Proof.
  unfold tagged_of. rewrite concat_map, map_map. f_equal. apply map_ext. intros mu.
  unfold mutation_puts, mutation_writes. rewrite map_map. by destruct (trie_writer mu).
Qed.
Lemma elem_of_tagged muts b x :
  (b, x) ∈ tagged_of muts ↔ ∃ id mu, muts !! id = Some mu ∧ mut_addr mu = b ∧ x ∈ mutation_writes mu.
Proof.
  unfold tagged_of. rewrite list_elem_of_In, in_concat. setoid_rewrite <-list_elem_of_In. split.
  - intros (l & Hl & Hx). apply list_elem_of_fmap in Hl as (mu & -> & Hmu).
    apply list_elem_of_lookup in Hmu as [id Em]. apply list_elem_of_fmap in Hx as (x' & [= -> ->] & Hx).
    eauto.
  - intros (id & mu & Em & <- & Hx). eexists. split; [apply list_elem_of_fmap; exists mu; split; [done|]|].
    + by eapply list_elem_of_lookup_2.
    + apply list_elem_of_fmap. eauto.
Qed.
Lemma tagged_app m1 m2 : tagged_of (m1 ++ m2) = tagged_of m1 ++ tagged_of m2.
Proof. unfold tagged_of. by rewrite map_app, concat_app. Qed.
Lemma own_one a mu : mut_addr mu = a → own_writes a (tagged_of [mu]) = mutation_writes mu.
Proof.
  intros <-. unfold tagged_of, own_writes. cbn [map concat]. rewrite app_nil_r.
  induction (mutation_writes mu) as [|w ws IH]; [done|]. cbn [map omap list_omap].
  rewrite bool_decide_eq_true_2 by done. cbn [snd]. f_equal. exact IH.
Qed.
(** Writes that only remove, where nothing is. *)
Lemma erasures_values a db ws k : erasures a ws → (ws ≠ [] → GetValue db k = None) →
  GetValue (apply_writes db ws) k = GetValue db k.
Proof.
  intros He Hn. destruct (decide (ws = [])) as [->|Hne]; [done|]. specialize (Hn Hne). clear Hne.
  rewrite Hn. induction ws as [|w ws IH] using rev_ind; [done|]. rewrite apply_writes_snoc.
  destruct (He w) as (k' & -> & _ & _); [apply elem_of_app; right; by left|]. simpl.
  case_bool_decide; [done|]. apply IH. intros x Hx. apply He, elem_of_app. by left.
Qed.

(** The puts of the three kinds; each kind has its columns. *)
Definition all_puts (cps : list db_put) (t : list (address * write)) (ws : list write) : list db_put :=
  cps ++ map tagged_put t ++ map MainTrieIOAdapter_Put ws.
Context (get : db_Get) (cps : list db_put) (t : list (address * write)) (ws : list write).
Context (Hcps : Forall (λ p, p.1.1 = COL_code) cps).
Context (Hagree : puts_agree get (all_puts cps t ws)).

Lemma code_puts_other col k : col ≠ COL_code → apply_puts get cps col k = get col k.
Proof.
  intros Hc. apply apply_puts_other. intros k' v Hin. rewrite Forall_forall in Hcps.
  by destruct (Hc (Hcps _ Hin)).
Qed.
Lemma account_value_after a k :
  (∀ b k' v, (b, PutValue k' v) ∈ t → safe (b ++ k') ∧ hash_key k') → hash_key k →
  GetValue (AccountTrieInputAdapter a (apply_puts get (all_puts cps t ws))) k =
  GetValue (apply_writes (AccountTrieInputAdapter a get) (own_writes a t)) k.
Proof.
  intros Hs Hk. unfold all_puts. rewrite !apply_puts_app. simpl.
  rewrite apply_puts_other.
  - transitivity (GetValue (apply_writes (AccountTrieInputAdapter a (apply_puts get cps)) (own_writes a t)) k).
    + by apply (tagged_values (apply_puts get cps) t a k).
    + apply writes_values_ext. simpl. by apply code_puts_other.
  - intros k' v Hin. apply list_elem_of_fmap in Hin as (w & E & _). by destruct w.
Qed.
Lemma main_value_after k :
  GetValue (MainTrieInputAdapter (apply_puts get (all_puts cps t ws))) k =
  GetValue (apply_writes (MainTrieInputAdapter get) ws) k.
Proof.
  unfold all_puts. rewrite !apply_puts_app, main_values. apply writes_values_ext. simpl.
  rewrite apply_puts_other; [by apply code_puts_other|].
  intros k' v Hin. apply list_elem_of_fmap in Hin as ([b w] & E & _). by destruct w.
Qed.
Lemma elem_of_all p : p ∈ all_puts cps t ws ↔
  p ∈ cps ∨ (∃ bw, bw ∈ t ∧ p = tagged_put bw) ∨ (∃ w, w ∈ ws ∧ p = MainTrieIOAdapter_Put w).
Proof.
  unfold all_puts. rewrite !elem_of_app, !list_elem_of_fmap. split.
  - intros [?|[(x & -> & ?)|(x & -> & ?)]]; eauto.
  - intros [?|[(x & ? & ->)|(x & ? & ->)]]; eauto.
Qed.
Lemma account_nodes_agree a lw : (∀ x, x ∈ lw → (a, x) ∈ t) → nodes_agree (AccountTrieInputAdapter a get) lw.
Proof.
  intros Hlw h b b' Hb Hb'. apply (Hagree COL_acc_trie_node h b b'); [done| |].
  - apply elem_of_all. right; left. exists (a, PutNode h b). auto.
  - destruct Hb' as [?|?]; [by left|]. right. apply elem_of_all. right; left. exists (a, PutNode h b'). auto.
Qed.
Lemma main_nodes_agree : nodes_agree (MainTrieInputAdapter get) ws.
Proof.
  intros h b b' Hb Hb'. apply (Hagree COL_main_trie_node h b b'); [done| |].
  - apply elem_of_all. right; right. exists (PutNode h b). auto.
  - destruct Hb' as [?|?]; [by left|]. right. apply elem_of_all. right; right. exists (PutNode h b'). auto.
Qed.
Lemma main_extends : extends (apply_writes (MainTrieInputAdapter get) ws)
  (MainTrieInputAdapter (apply_puts get (all_puts cps t ws))).
Proof.
  split; [intros k _; apply main_value_after|]. intros h b Hb Hn. simpl.
  apply apply_puts_hashed; [done..|]. apply apply_writes_node_from in Hn as [?|?]; [by left|].
  right. apply elem_of_all. right; right. exists (PutNode h b). auto.
Qed.
(** The writes of the mutation in use, after those of the dropped ones. *)
Lemma account_extends a dead lw :
  (∀ b k' v, (b, PutValue k' v) ∈ t → safe (b ++ k') ∧ hash_key k') →
  own_writes a t = dead ++ lw → erasures a dead →
  (dead ≠ [] → ∀ k, hash_key k → GetValue (AccountTrieInputAdapter a get) k = None) →
  extends (apply_writes (AccountTrieInputAdapter a get) lw)
    (AccountTrieInputAdapter a (apply_puts get (all_puts cps t ws))).
Proof.
  intros Hs E He Hdead. split.
  - intros k Hk. rewrite account_value_after by done. rewrite E, apply_writes_app.
    apply writes_values_ext. by apply (erasures_values a); auto.
  - intros h b Hb Hn. apply apply_puts_hashed; [done..|]. apply apply_writes_node_from in Hn as [?|Hin]; [by left|].
    right. apply elem_of_all. right; left. exists (a, PutNode h b). split; [|done].
    apply elem_of_own_writes. rewrite E. apply elem_of_app. by right.
Qed.
End writes.

Section refine.
Context `{Keccak}.
Context (Hkey : ∀ b, hash_key (keccak b)).
#[local] Existing Instance AccountTrieSchema.

Section end_of_block.
Context (get : db_Get) (W0 : world) (wm : writer_state Mutation) (h : Host) (live : gset address) (W : world)
  (l : list address) (h1 : Host).
Context (Hr : represents get W0) (Hok0 : world_ok W0) (Hf : flushing get W0 wm h live W)
  (Hd : dirties_ok live l) (Hc : committing get W0 W h l h1).

Definition dropped (a : address) (mu : Mutation) : Prop :=
  mut_addr mu = a → slots_of W0 a = ∅ ∧ erasures a (mutation_writes mu).
Lemma dropped_writes a muts : Forall (dropped a) muts →
  erasures a (own_writes a (tagged_of muts)) ∧ (own_writes a (tagged_of muts) ≠ [] → slots_of W0 a = ∅).
Proof.
  intros Hm. rewrite Forall_lookup in Hm. split.
  - intros x Hx. apply elem_of_own_writes, elem_of_tagged in Hx as (id & mu & Em & Ea & Hx).
    by apply (Hm id mu Em Ea).
  - intros Hne. destruct (own_writes a (tagged_of muts)) as [|x r] eqn:E; [done|].
    assert (Hx : x ∈ own_writes a (tagged_of muts)) by (rewrite E; by left).
    apply elem_of_own_writes, elem_of_tagged in Hx as (id & mu & Em & Ea & Hx). by apply (Hm id mu Em Ea).
Qed.
Lemma mutation_dropped a id mu : mutations (the_sink h1) !! id = Some mu → sinks h !! a ≠ Some id → dropped a mu.
Proof.
  intros Em Hn Ea.
  destruct (mutation_end Hkey get W0 wm h live W l h1 Hr Hok0 Hf Hd Hc id mu Em) as [(b & Eb & Hb & _)|[Em0 Hno]]; [congruence|].
  destruct (f_mutations _ _ _ _ _ _ Hf id mu Em0) as (_ & _ & He & [Es|[Hz _]]); [by destruct (Hno _ Es)|].
  rewrite Ea in *. split; [done|]. unfold mutation_writes.
  destruct (trie_writer mu); [done|]. by intros x ?%elem_of_nil.
Qed.
Lemma tagged_safe b k v : (b, PutValue k v) ∈ tagged_of (mutations (the_sink h1)) → safe (b ++ k) ∧ hash_key k.
Proof.
  intros (id & mu & Em & Ea & Hx)%elem_of_tagged. unfold mutation_writes in Hx.
  destruct (mutation_end Hkey get W0 wm h live W l h1 Hr Hok0 Hf Hd Hc id mu Em)
    as [(a & Es & Ha & x & Ex & _ & _ & Hw)|[Em0 Hno]].
  - destruct (trie_writer mu) as [w|]; [|by apply elem_of_nil in Hx]. destruct Hw as [Hw _].
    replace b with a by congruence. by apply (Hw k v).
  - destruct (f_mutations _ _ _ _ _ _ Hf id mu Em0) as (_ & _ & He & _).
    destruct (trie_writer mu) as [w|]; [|by apply elem_of_nil in Hx]. rewrite Ea in He.
    by destruct (He _ Hx) as (k' & [= <- _] & ? & ?).
Qed.
(** The writes of an account: those of the dropped mutations and then those of the one in use. *)
Lemma own_split a :
  ∃ dead lw, own_writes a (tagged_of (mutations (the_sink h1))) = dead ++ lw ∧
    erasures a dead ∧ (dead ≠ [] → slots_of W0 a = ∅) ∧
    (nodes_agree (AccountTrieInputAdapter a get) lw →
     store_ok value_limit (apply_writes (AccountTrieInputAdapter a get) lw) (slots_of W a)).
Proof.
  set (muts := mutations (the_sink h1)). destruct (sinks h !! a) as [id|] eqn:Es.
  - destruct (live_committed Hkey get W0 wm h live W l h1 Hr Hok0 Hf Hd Hc a id Es) as (mu & Em & Ea & x & Ex & _ & _ & Hw).
    assert (Hlast : Forall (dropped a) (take id muts) ∧ own_writes a (tagged_of (drop (S id) muts)) = []).
    { split.
      - apply Forall_lookup. intros i m Ei. apply lookup_take_Some in Ei as [Ei Hlt].
        apply (mutation_dropped a i m Ei). rewrite Es. intros [= ->]. lia.
      - destruct (own_writes a _) as [|y r] eqn:E; [done|]. exfalso.
        assert (Hy : y ∈ own_writes a (tagged_of (drop (S id) muts))) by (rewrite E; by left).
        apply elem_of_own_writes, elem_of_tagged in Hy as (i & m & Ei & Eam & _). rewrite lookup_drop in Ei.
        destruct (mutation_end Hkey get W0 wm h live W l h1 Hr Hok0 Hf Hd Hc _ m Ei) as [(b & Eb & Hb & _)|[Em0 _]].
        + rewrite <-Hb, Eam, Es in Eb. injection Eb. lia.
        + destruct (f_mutations _ _ _ _ _ _ Hf _ m Em0) as (_ & _ & _ & [E0|[_ Hlt]]); rewrite Eam in *.
          * rewrite Es in E0. injection E0. lia.
          * specialize (Hlt id Es). lia. }
    destruct Hlast as [Hdead Hnil]. destruct (dropped_writes a _ Hdead) as [He Hz].
    exists (own_writes a (tagged_of (take id muts))), (mutation_writes mu). split_and!; [|done..|].
    + rewrite <-(take_drop_middle muts id mu Em) at 1.
      change (mu :: drop (S id) muts) with ([mu] ++ drop (S id) muts).
      rewrite !tagged_app, !own_writes_app, Hnil, app_nil_r. by rewrite own_one.
    + unfold mutation_writes, slots_of at 1. rewrite Ex. destruct (trie_writer mu) as [w|].
      * by apply Hw.
      * intros _. rewrite Hw. apply (r_slots _ _ Hr).
  - destruct (dropped_writes a muts) as [He Hz].
    { apply Forall_lookup. intros i m Ei. apply (mutation_dropped a i m Ei). by rewrite Es. }
    exists (own_writes a (tagged_of muts)), []. rewrite app_nil_r. split_and!; [done..|]. intros _.
    replace (slots_of W a) with (slots_of W0 a); [apply (r_slots _ _ Hr)|].
    assert (Ha : a ∉ live) by (by rewrite <-(f_live _ _ _ _ _ _ Hf), not_elem_of_dom).
    unfold slots_of. destruct (W0 !! a) as [x0|] eqn:E0, (W !! a) as [x|] eqn:E; [..|done].
    + destruct (f_rest _ _ _ _ _ _ Hf a Ha (wa_safe _ _ (Hok0 _ _ E0))) as [[_ ?]|(_ & ? & _)]; congruence.
    + destruct (f_rest _ _ _ _ _ _ Hf a Ha (wa_safe _ _ (Hok0 _ _ E0))) as [[_ ?]|(_ & _ & Hs)]; [congruence|].
      unfold slots_of in Hs. by rewrite E0 in Hs.
    + destruct (f_rest _ _ _ _ _ _ Hf a Ha (wa_safe _ _ (f_world _ _ _ _ _ _ Hf _ _ E))) as [[_ ?]|(_ & ? & _)]; congruence.
Qed.
Lemma accounts_after ws cps :
  cps = code_puts (the_sink h) → puts_agree get (all_puts cps (tagged_of (mutations (the_sink h1))) ws) → ∀ a,
  store_ok value_limit
    (AccountTrieInputAdapter a (apply_puts get (all_puts cps (tagged_of (mutations (the_sink h1))) ws))) (slots_of W a).
Proof.
  intros -> Hagree a. destruct (own_split a) as (dead & lw & E & He & Hz & Hs).
  eapply store_extends; [|apply Hs].
  - apply (account_extends get _ _ ws (f_code_column _ _ _ _ _ _ Hf) Hagree a dead lw); [|done..|].
    + intros b k v. apply tagged_safe.
    + intros Hne k Hk. rewrite (store_values _ _ _ (r_slots _ _ Hr a)) by done. by rewrite (Hz Hne), lookup_empty.
  - apply (account_nodes_agree get _ _ ws (f_code_column _ _ _ _ _ _ Hf) Hagree). intros x Hx. apply elem_of_own_writes. rewrite E.
    apply elem_of_app. by right.
Qed.
Lemma codes_after ws cps a x k :
  cps = code_puts (the_sink h) → puts_agree get (all_puts cps (tagged_of (mutations (the_sink h1))) ws) →
  W !! a = Some x → db_CodeHash (w_account x) = Some k →
  apply_puts get (all_puts cps (tagged_of (mutations (the_sink h1))) ws) COL_code k = Some (w_code x).
Proof.
  intros -> Hagree Ex Ek. apply apply_puts_hashed; [done|done| |].
  - apply (wa_code _ _ (f_world _ _ _ _ _ _ Hf a x Ex)). by rewrite Ek.
  - destruct (f_code _ _ _ _ _ _ Hf a x k Ex Ek) as [?|?]; [by left|right].
    apply elem_of_app. by left.
Qed.
End end_of_block.
End refine.

(** * Blocks *)
Section blocks.
Context `{Keccak}.
Context (Hkey : ∀ b, hash_key (keccak b)).

(** A sink between two blocks. *)
Definition clean_writer (s : TrieSink) : writer_state Mutation := flushed (main_trie_writer s).
Record sink_holds (get : db_Get) (s : TrieSink) (W : world) : Prop := {
  h_world : world_ok W;
  h_db : represents get W;
  h_queue : thread_main_trie_write s = [];
  h_trie : models (H0 := MainTrieSchema) value_limit (MainTrieInputAdapter get) (clean_writer s) (main_map W)
}.
Definition host_of (s : TrieSink) : Host := {| the_sink := s; sinks := ∅ |}.
Lemma flushing_start get s W : sink_holds get s W →
  flushing get W (clean_writer s)
    {| the_sink := {| thread_main_trie_write := thread_main_trie_write s; main_trie_writer := clean_writer s;
                      mutations := []; code_puts := [] |}; sinks := ∅ |} ∅ W.
Proof.
  intros [Hw Hd Hq Ht]. split; cbn [the_sink sinks main_trie_writer thread_main_trie_write mutations code_puts].
  - done.
  - apply dom_empty_L.
  - intros a id Es. by rewrite lookup_empty in Es.
  - intros a _ _. left. by rewrite Hq.
  - rewrite Hq. constructor.
  - by intros id mu Em.
  - done.
  - intros a x k Ex Ek. left. by apply (r_code _ _ Hd a x k).
  - constructor.
Qed.
Definition block : Type := list Flushed * list address.
Definition block_ok (W0 : world) (b : block) : Prop :=
  outputs_ok W0 ∅ W0 b.1 ∧ dirties_ok (foldl live_after ∅ b.1) b.2.
Definition after_block (W0 : world) (b : block) : world := foldl apply_out W0 b.1.
(** A block on the sink is the block on the accounts. *)
Lemma sink_block_run get s W b : sink_holds get s W → block_ok W b →
  ∃ h, sink_block get b.1 b.2 (host_of s) = (Ret (state_root (after_block W b)), h) ∧
    (puts_agree get (sink_puts (the_sink h)) →
     sink_holds (apply_puts get (sink_puts (the_sink h))) (the_sink h) (after_block W b)).
Proof.
  intros Hs [Ho Hd]. pose proof (flushing_start get s W Hs) as Hf0.
  destruct (flushes_run Hkey get W _ b.1 _ _ _ (h_db _ _ _ Hs) Hf0 Ho) as (h1 & E1 & Hf).
  destruct (commits_run Hkey get W _ h1 _ _ b.2 [] h1 Hf (committing_nil Hkey _ _ _ _)) as (h2 & E2 & Hc);
    [apply Hd|by apply Forall_forall, Hd|].
  set (wm := clean_writer s) in *. set (live := foldl live_after ∅ b.1) in *.
  change (foldl apply_out W b.1) with (after_block W b) in *. set (W' := after_block W b) in *.
  pose proof (h_world _ _ _ Hs) as Hok0. pose proof (h_db _ _ _ Hs) as Hr.
  destruct (main_commit Hkey get wm W W' (mutations (the_sink h2)) (thread_main_trie_write (the_sink h1)))
    as (w' & E3 & Hdb).
  { exact (h_trie _ _ _ Hs). }
  { done. }
  { exact (f_world _ _ _ _ _ _ Hf). }
  { exact (tasks_end Hkey get W wm h1 live W' b.2 h2 Hr Hok0 Hf Hd Hc). }
  { exact (mutations_end_ok Hkey get W wm h1 live W' b.2 h2 Hr Hok0 Hf Hd Hc). }
  { exact (main_end Hkey get W wm h1 live W' b.2 h2 Hr Hok0 Hf Hd Hc). }
  set (s3 := set_queue [] (set_main w' (the_sink h2))).
  exists {| the_sink := s3; sinks := sinks h2 |}. split.
  - unfold sink_block. assert (E0 : on_sink SetIO (host_of s) = (Ret tt,
      {| the_sink := {| thread_main_trie_write := thread_main_trie_write s; main_trie_writer := wm;
                        mutations := []; code_puts := [] |}; sinks := ∅ |})) by done.
    rewrite (bind_run _ _ _ _ _ E0), (bind_run _ _ _ _ _ E1), (bind_run _ _ _ _ _ E2).
    unfold on_sink, TrieSink_Commit. rewrite (c_queue _ _ _ _ _ _ Hc), (c_main _ _ _ _ _ _ Hc).
    rewrite (f_main _ _ _ _ _ _ Hf), E3. done.
  - cbn [the_sink]. intros Hagree.
    assert (Ep : sink_puts s3 = all_puts (code_puts (the_sink h1)) (tagged_of (mutations (the_sink h2))) (written w')).
    { unfold sink_puts, all_puts, s3. cbn [code_puts mutations main_trie_writer set_queue set_main].
      by rewrite tagged_puts, (c_codes _ _ _ _ _ _ Hc). }
    rewrite Ep in *. destruct Hdb as [Hm Hst].
    { exact (main_nodes_agree get _ _ _ (f_code_column _ _ _ _ _ _ Hf) Hagree). }
    pose proof (main_extends get _ _ _ (f_code_column _ _ _ _ _ _ Hf) Hagree) as Hext.
    split; [exact (f_world _ _ _ _ _ _ Hf)| |done|].
    + split.
      * by eapply store_extends.
      * by apply (accounts_after Hkey get W wm h1 live W' b.2 h2 Hr Hok0 Hf Hd Hc).
      * intros a x k Ex Ek. exact (codes_after Hkey get W wm h1 live W' b.2 h2 Hr Hok0 Hf Hd Hc _ _ a x k eq_refl Hagree Ex Ek).
    + by eapply models_extends.
Qed.

(** The blocks one after the other: each reads the database with the puts of those before it.  The
    roots, and all puts. *)
Fixpoint sink_blocks (get : db_Get) (s : TrieSink) (bs : list block) : outcome (list hash) * list db_put :=
  match bs with
  | [] => (Ret [], [])
  | b :: bs =>
      let '(o, h) := sink_block get b.1 b.2 (host_of s) in
      let ps := sink_puts (the_sink h) in
      match o with
      | Ret r =>
          let '(os, ps') := sink_blocks (apply_puts get ps) (the_sink h) bs in
          (match os with Ret rs => Ret (r :: rs) | Err e => Err e | Panic p => Panic p end, ps ++ ps')
      | Err e => (Err e, ps)
      | Panic p => (Panic p, ps)
      end
  end.
(** The accounts after each block. *)
Fixpoint worlds (W : world) (bs : list block) : list world :=
  match bs with [] => [] | b :: bs => after_block W b :: worlds (after_block W b) bs end.
Fixpoint blocks_ok (W : world) (bs : list block) : Prop :=
  match bs with [] => True | b :: bs => block_ok W b ∧ blocks_ok (after_block W b) bs end.
Definition last_world (W : world) (bs : list block) : world := foldl after_block W bs.
Lemma puts_from get ps col k v : apply_puts get ps col k = Some v → get col k = Some v ∨ (col, k, v) ∈ ps.
Proof.
  induction ps as [|[[col' k'] v'] ps IH] using rev_ind; [by left|].
  rewrite apply_puts_snoc, elem_of_app, list_elem_of_singleton. unfold apply_put. simpl.
  case_bool_decide as E; [|intros [?|?]%IH; auto]. destruct E as [-> ->].
  destruct v'; [done|]. intros [= <-]. auto.
Qed.
Lemma puts_agree_app get ps1 ps2 : puts_agree get (ps1 ++ ps2) →
  puts_agree get ps1 ∧ puts_agree (apply_puts get ps1) ps2.
Proof.
  intros Ha. split; intros col h b b' Hcol Hb Hb'; apply (Ha col h b b' Hcol).
  - apply elem_of_app. by left.
  - rewrite elem_of_app. tauto.
  - apply elem_of_app. by right.
  - rewrite elem_of_app. destruct Hb' as [[?|?]%puts_from|?]; tauto.
Qed.
Lemma sink_blocks_run bs : ∀ get s W, sink_holds get s W → blocks_ok W bs →
  puts_agree get (sink_blocks get s bs).2 →
  (sink_blocks get s bs).1 = Ret (map state_root (worlds W bs)) ∧
  world_ok (last_world W bs) ∧ represents (apply_puts get (sink_blocks get s bs).2) (last_world W bs).
Proof.
  induction bs as [|b bs IH]; intros get s W Hs Hok Ha.
  { split_and!; [done|apply Hs|apply (h_db _ _ _ Hs)]. }
  destruct Hok as [Hb Hbs]. destruct (sink_block_run get s W b Hs Hb) as (h & E & Hh).
  cbn [sink_blocks] in *. rewrite E in *.
  specialize (IH (apply_puts get (sink_puts (the_sink h))) (the_sink h) (after_block W b)).
  destruct (sink_blocks _ (the_sink h) bs) as [os ps]. cbn [fst snd] in *.
  apply puts_agree_app in Ha as [Ha1 Ha2].
  destruct (IH (Hh Ha1) Hbs Ha2) as (-> & Hw & Hr). rewrite apply_puts_app. by split_and!.
Qed.
Lemma mpt_empty : mpt ∅ = None.
Proof. symmetry. apply mpt_unique; [by intros k [s Es]|done|]. intros k _. by rewrite lookup_empty. Qed.
Lemma mpt_none m : hash_keys m → mpt m = None → m = ∅.
Proof.
  intros Hm E. apply map_eq. intros k. rewrite lookup_empty.
  destruct (m !! k) as [s|] eqn:Ek; [|done].
  rewrite <-(mpt_lookup m k Hm), E in Ek by (apply Hm; by exists s). done.
Qed.
(** [TrieSink_Init] on the last root. *)
Lemma TrieSink_Init_holds {S} get W levels (st : S) :
  levels <= Z.of_nat MaxDepth → world_ok W → represents get W →
  IsEmptyStateRoot (Some (state_root W)) = bool_decide (main_map W = ∅) →
  ∃ s, TrieSink_Init (state_root W) levels st = (Ret s, st) ∧ sink_holds get s W.
Proof.
  intros Hl Hw Hr He. assert (El : (levels <=? Z.of_nat MaxDepth) = true) by lia.
  exists {| thread_main_trie_write := [];
            main_trie_writer := opened_at (H0 := MainTrieSchema) (main_map W) levels;
            mutations := []; code_puts := [] |}. split.
  - unfold TrieSink_Init, Writer_Init. rewrite He, El. unfold state_root, opened_at, root_hash.
    case_bool_decide as E.
    + by rewrite E, (mpt_empty : mpt ∅ = None).
    + destruct (mpt (main_map W)) as [t|] eqn:Em; [done|]. destruct E. apply mpt_none; [|done].
      exact (proj1 (store_map_ok _ _ _ (r_main _ _ Hr))).
  - split; [done|done|done|].
    exact (opened_models (H0 := MainTrieSchema) (TrieValue0 := mutation_value) (keccak_32 Hkey) ltac:(done)
      value_limit slot_value_limit _ _ levels (r_main _ _ Hr)).
Qed.

(** What the reader of a block sees. *)
Definition reads_as (get : db_Get) (W : world) : Prop := ∀ a, safe a →
  GetAccount get a = Ret (rooted <$> W !! a) ∧
  (∀ k, GetAccountStorage get a k = slots_of W a !! keccak k) ∧
  (∀ x k, W !! a = Some x → db_CodeHash (w_account x) = Some k → GetCodeByAddress get a = Ret (w_code x)).
Lemma represents_reads get W : world_ok W → represents get W → reads_as get W.
Proof.
  intros Hw Hr a Hs.
  assert (Er : GetRawAccount get a =
    match W !! a with Some x => Some (account_storage (rooted x)) | None => None end).
  { rewrite <-(main_map_at Hkey W a Hw Hs). apply (store_values _ _ _ (r_main _ _ Hr)), Hkey. }
  split_and!.
  - unfold GetAccount. rewrite Er. destruct (W !! a) as [x|] eqn:Ex; [|done].
    by rewrite (decode_account _ (wa_account _ _ (Hw a x Ex))).
  - intros k. apply (store_values _ _ _ (r_slots _ _ Hr a)), Hkey.
  - intros x k Ex Ek. unfold GetCodeByAddress. rewrite Er, Ex.
    destruct (account_hashes _ (wa_account _ _ (Hw a x Ex))) as [_ ->].
    cbn [rooted with_root db_CodeHash]. rewrite Ek. unfold GetCode. by rewrite (r_code _ _ Hr a x k Ex Ek).
Qed.

(** C13: blocks_refine_accounts. Blocks that are written through the sink of the state (transactions
    flush updates and deletions, the commit joins the mutations' storage tries and then the tasks of
    the main trie) are updates of a map from addresses to accounts: the roots returned are the roots
    of the maps after each block, and the database with all puts of each block (code, storage tries in
    the order of their mutations, main trie) reads back as the last map: accounts, storage values and
    code.  The database is asked to represent the first map.  Asked of the hash: 32 bytes, no second
    preimage of the keys in use, and one string under each hash of the node and code columns.  Asked
    of the blocks ([blocks_ok]): well-formed accounts, and an account that is deleted had no storage
    before the block, since the code leaves the slots of a deleted account in the database. *)
Theorem blocks_refine_accounts get W0 levels bs s :
  levels <= Z.of_nat MaxDepth → world_ok W0 → represents get W0 →
  IsEmptyStateRoot (Some (state_root W0)) = bool_decide (main_map W0 = ∅) →
  TrieSink_Init (state_root W0) levels tt = (Ret s, tt) → blocks_ok W0 bs →
  puts_agree get (sink_blocks get s bs).2 →
  (sink_blocks get s bs).1 = Ret (map state_root (worlds W0 bs)) ∧
  reads_as (apply_puts get (sink_blocks get s bs).2) (last_world W0 bs).
Proof.
  intros Hl Hw Hr He Hs Hb Ha. destruct (TrieSink_Init_holds get W0 levels tt Hl Hw Hr He) as (s' & E & Hh).
  rewrite Hs in E. injection E as <-. destruct (sink_blocks_run bs get s W0 Hh Hb Ha) as (Ho & Hw' & Hr').
  split; [done|]. by apply represents_reads.
Qed.
End blocks.
