(* ===== verification/TrieSinkExamples.v ===== *)
(** Two blocks through the sink. *)
From S2P Require Import Prelude Codec Rlp RlpEncoder Storage DposData EvmInterface StateEvm TrieEncoding Trie TrieMap TrieHash TrieRep TrieFacts TrieCommit TrieBuild TrieRun TrieSchemas StateDb TrieSink TrieSinkMaps TrieSinkRun TrieSinkRefine.

(** A hash for the example: the strings of a table have hashes of their own. *)
Definition sender : address := replicate 20 0xAA.
Definition receiver : address := replicate 20 0xBB.
Definition place_hash (i : Z) : bytes := i :: replicate 31 0.
Definition table : list bytes := [sender; receiver; slot_hash 1; sender ++ place_hash 2].
Fixpoint place (l : list bytes) (i : Z) (b : bytes) : option Z :=
  match l with [] => None | x :: l => if bool_decide (x = b) then Some i else place l (i + 1) b end.
#[local] Instance sink_keccak : Keccak := λ b,
  match place table 0 b with
  | Some i => place_hash i
  | None => 255 :: le_enc 31 (foldl (λ a x, (a * 257 + x + 1) mod 2 ^ 248) 7 b)
  end.
Lemma place_bounds l : ∀ i b j, place l i b = Some j → i <= j < i + Z.of_nat (length l).
Proof.
  induction l as [|x l IH]; intros i b j; [done|]. cbn [place length]. case_bool_decide.
  - intros [= <-]. lia.
  - intros ?%IH. lia.
Qed.
Lemma place_inj l : ∀ i b b' j, place l i b = Some j → place l i b' = Some j → b = b'.
Proof.
  induction l as [|x l IH]; intros i b b' j; [done|]. cbn [place]. repeat case_bool_decide; subst; intros E E'.
  - done.
  - injection E as <-. apply place_bounds in E'. lia.
  - injection E' as <-. apply place_bounds in E. lia.
  - by eapply IH.
Qed.
Lemma sink_keccak_key b : hash_key (keccak b).
Proof.
  unfold keccak, sink_keccak. destruct (place table 0 b) as [i|] eqn:E.
  - apply place_bounds in E. split; [done|]. unfold place_hash. constructor.
    + change (length table) with 4%nat in E. unfold is_byte. lia.
    + by apply Forall_replicate.
  - split; [by rewrite length_cons, length_le_enc|]. constructor; [done|apply le_enc_bytes].
Qed.
Lemma table_safe b : is_Some (place table 0 b) → safe b.
Proof.
  intros [i E] b'. unfold keccak, sink_keccak. rewrite E. pose proof (place_bounds _ _ _ _ E) as Hi.
  change (length table) with 4%nat in Hi. destruct (place table 0 b') as [i'|] eqn:E'.
  - intros [= ->]. by eapply place_inj.
  - intros [= Ei _]. lia.
Qed.

(** The sender gets code and a slot, and changes both its balance and the slot in the block's next
    transaction; the receiver is created and, in the next block, deleted, where the sender clears
    the slot. *)
Definition example_body (nonce balance : Z) (root code_hash : option hash) (storage : gmap Z Z)
    (code : option bytes) (dirty old : bool) : AccountBody := {|
  b_account := {| db_Nonce := nonce; db_Balance := balance; db_StorageRootHash := root;
                  db_CodeHash := code_hash; db_CodeSize := match code_hash with Some _ => 2 | None => 0 end |};
  StorageDirty := storage; RawStorageDirty := ∅; b_Code := code; CodeDirty := dirty; suicided := false;
  sink := old; storage_origin := None; times_touched := 0; mod_count := 0 |}.
Definition flushed_update (a : address) (storage : list (Z * Z)) (b : AccountBody) : Flushed :=
  {| the_output := OutUpdate a b; storage_order := storage; raw_order := [] |}.
Definition example_code : bytes := [96; 0].
Definition code_hash : option hash := Some (keccak example_code).
Definition body_1 := example_body 1 1000 None code_hash {[1 := 5]} (Some example_code) true false.
Definition body_2 := example_body 0 7 None None ∅ None false false.
Definition body_3 := example_body 2 990 None code_hash {[1 := 6]} None false true.
Definition first_block : TrieSinkRefine.block :=
  ([flushed_update sender [(1, 5)] body_1; flushed_update receiver [] body_2;
    flushed_update sender [(1, 6)] body_3], [sender; receiver]).
Definition first_world : world := after_block ∅ first_block.
Definition body_4 := example_body 3 980 (slots_root (slots_of first_world sender)) code_hash {[1 := 0]} None false false.
Definition second_block : TrieSinkRefine.block :=
  ([flushed_update sender [(1, 0)] body_4;
    {| the_output := OutDelete receiver; storage_order := []; raw_order := [] |}], [sender]).
Definition example_sink_blocks := [first_block; second_block].
Definition example_sink : TrieSink := {|
  thread_main_trie_write := [];
  main_trie_writer := {| the_writer := {| root := nil_node; FullNodeLevelsToCache := 0 |}; written := [] |};
  mutations := []; code_puts := [] |}.
Definition no_db : db_Get := λ _ _, None.

Definition put_pair_agrees (p q : db_put) : bool :=
  negb (hashed_column p.1.1 && bool_decide (p.1 = q.1)) || bool_decide (p.2 = q.2).
Lemma puts_agree_check ps : forallb (λ p, forallb (put_pair_agrees p) ps) ps = true → puts_agree no_db ps.
Proof.
  intros Hf col h b b' Hcol Hb [Hb'|Hb']; [done|]. rewrite forallb_forall in Hf.
  apply list_elem_of_In in Hb, Hb'. specialize (Hf _ Hb). rewrite forallb_forall in Hf.
  specialize (Hf _ Hb'). unfold put_pair_agrees in Hf. cbn [fst snd] in Hf.
  rewrite bool_decide_true in Hf by done. apply orb_true_iff in Hf as [Hf|Hf].
  - apply negb_true_iff in Hf. rewrite andb_true_r in Hf. by rewrite Hf in Hcol.
  - by apply bool_decide_eq_true in Hf.
Qed.

Lemma example_slot_safe : safe (sender ++ keccak (slot_hash 1)).
Proof. apply table_safe. vm_compute. by eexists. Qed.
(** An update of the sender's slot or of no slot. *)
Lemma example_update_ok W0 live W a storage b :
  is_Some (place table 0 a) → sink b = bool_decide (a ∈ live) →
  db_StorageRootHash (b_account b) = slots_root (slots_of W0 a) → account_ok (b_account b) →
  map_to_list (StorageDirty b) = storage → RawStorageDirty b = ∅ →
  (storage = [] ∨ a = sender ∧ ∃ v, 0 <= v < 2 ^ 256 ∧ storage = [(1, v)]) →
  (if CodeDirty b then is_Some (db_CodeHash (b_account b)) ∧ default [] (b_Code b) ≠ []
   else db_CodeHash (b_account b) = code_hash_of W a) →
  flush_ok W0 live W (flushed_update a storage b).
Proof.
  intros Ha Hs Hr Hacc Est Er Hst Hc. unfold flush_ok. cbn [the_output flushed_update].
  assert (Hops : slot_ops storage [] = [] ∨
    a = sender ∧ ∃ op, slot_ops storage [] = [op] ∧ op_key op = keccak (slot_hash 1)).
  { destruct Hst as [->|(-> & v & _ & ->)]; [by left|right]. split; [done|]. eexists. split; [reflexivity|].
    unfold storage_op. by destruct (_ =? 0). }
  split; cbn [storage_order raw_order flushed_update]; try done.
  - by apply table_safe.
  - by rewrite Est.
  - rewrite Er. by rewrite map_to_list_empty.
  - split; [|constructor]. destruct Hst as [->|(_ & v & Hv & ->)]; [constructor|by apply Forall_singleton].
  - destruct Hops as [->|(_ & op & -> & _)]; [constructor|]. cbn. apply NoDup_singleton.
  - destruct Hops as [->|(-> & op & -> & E)]; [constructor|]. apply Forall_singleton. rewrite E.
    apply example_slot_safe.
Qed.
Lemma dirties_check live l :
  bool_decide (NoDup l) = true → bool_decide (list_to_set l = live) = true → dirties_ok live l.
Proof.
  intros Hn%bool_decide_eq_true He%bool_decide_eq_true. split; [done|]. intros a. by rewrite <-He, elem_of_list_to_set.
Qed.
Lemma example_root_ok : hash_ok32 (slots_root (slots_of first_world sender)).
Proof. vm_compute. done. Qed.
Lemma example_blocks_ok : blocks_ok ∅ example_sink_blocks.
Proof.
  assert (S1 : is_Some (place table 0 sender)) by (vm_compute; by eexists).
  assert (S2 : is_Some (place table 0 receiver)) by (vm_compute; by eexists).
  assert (Hup : ∀ W0 live W v b, sink b = bool_decide (sender ∈ live) →
    db_StorageRootHash (b_account b) = slots_root (slots_of W0 sender) → account_ok (b_account b) →
    map_to_list (StorageDirty b) = [(1, v)] → RawStorageDirty b = ∅ → 0 <= v < 10 →
    (if CodeDirty b then is_Some (db_CodeHash (b_account b)) ∧ default [] (b_Code b) ≠ []
     else db_CodeHash (b_account b) = code_hash_of W sender) →
    flush_ok W0 live W (flushed_update sender [(1, v)] b)).
  { intros W0 live W v b ? ? ? ? ? Hv ?. apply example_update_ok; try done. right. split; [done|].
    exists v. split; [|done]. split; [lia|]. change (2 ^ 256) with (Z.pow_pos 2 256). lia. }
  split; [|split; [|done]]; split; cbn [fst snd first_block second_block outputs_ok].
  - split_and!; [| | |done].
    + apply Hup; [vm_compute; reflexivity..|split; cbn; done || lia|done|done|lia|]. by split; [eexists|].
    + apply example_update_ok; [exact S2|vm_compute; reflexivity..|split; cbn; done || lia|done|done|by left|].
      vm_compute. reflexivity.
    + apply Hup; [vm_compute; reflexivity..|split; cbn; done || lia|done|done|lia|]. vm_compute. reflexivity.
  - by apply dirties_check; vm_compute.
  - split_and!; [| |done].
    + apply Hup; [vm_compute; reflexivity..| |done|done|lia|vm_compute; reflexivity].
      split; [cbn; lia..|exact example_root_ok|done|done].
    + split; [by apply table_safe|]. apply map_empty. intros k. vm_compute. reflexivity.
  - by apply dirties_check; vm_compute.
Qed.
Lemma empty_stores `{Schema} db : (∀ k, GetValue db k = None) → store_ok value_limit db ∅.
Proof.
  intros Hdb. split; [split| |].
  - intros k [s Es]. by rewrite lookup_empty in Es.
  - intros k s Es. by rewrite lookup_empty in Es.
  - unfold stores_map. by rewrite mpt_empty.
  - intros k _. by rewrite lookup_empty.
Qed.
Lemma no_db_represents : represents no_db ∅.
Proof.
  split.
  - unfold main_map. rewrite map_to_list_empty. by apply empty_stores.
  - intros a. by apply empty_stores.
  - intros a x k Ex. by rewrite lookup_empty in Ex.
Qed.
(** The roots are those of the two maps, and the sender is read back, the receiver is gone. *)
Lemma blocks_refine_accounts_witness :
  (sink_blocks no_db example_sink example_sink_blocks).1 = Ret (map state_root (worlds ∅ example_sink_blocks)) ∧
  reads_as (apply_puts no_db (sink_blocks no_db example_sink example_sink_blocks).2)
    (last_world ∅ example_sink_blocks).
Proof.
  apply (blocks_refine_accounts sink_keccak_key no_db ∅ 0 example_sink_blocks example_sink).
  - done.
  - by intros a x Ea.
  - exact no_db_represents.
  - vm_compute. reflexivity.
  - vm_compute. reflexivity.
  - exact example_blocks_ok.
  - apply puts_agree_check. vm_compute. reflexivity.
Defined.
