(* ===== verification/StateDbFacts.v ===== *)
(** What the database of the state is: the values of every block, readable at that block ever
    after, across commits that fail, crashes and restarts.  The abstract state is the list of the
    blocks with what each put; a reader at block [n] finds the last put of the blocks up to [n]. *)
From Stdlib Require Import Sorted.
From S2P Require Import Prelude Codec Rlp RlpEncoder Storage EvmInterface StateEvm Trie TrieReader TrieSchemas StateDb.

(** * The bytewise order *)
Lemma key_lt_trans k l m : key_lt k l → key_lt l m → key_lt k m.
Proof.
  revert l m. induction k as [|x k IH]; intros [|y l] [|z m]; simpl; try done.
  intros [?|[-> ?]] [?|[-> ?]]; [left; lia|left; lia|left; lia|]. right. split; [done|by eapply IH].
Qed.
Lemma key_lt_total k l : key_lt k l ∨ k = l ∨ key_lt l k.
Proof.
  revert l. induction k as [|x k IH]; intros [|y l]; simpl; auto.
  destruct (Z.lt_trichotomy x y) as [?|[->|?]]; auto. destruct (IH l) as [?|[->|?]]; auto.
Qed.
Lemma key_lt_app_inv p k l : key_lt (p ++ k) (p ++ l) → key_lt k l.
Proof. induction p as [|x p IH]; [done|]. simpl. intros [?|[_ ?]]; [lia|auto]. Qed.
(** Prefixes of one length decide before what follows them. *)
Lemma key_lt_prefix p q k l : length p = length q → key_lt p q → key_lt (p ++ k) (q ++ l).
Proof.
  revert q. induction p as [|x p IH]; intros [|y q] Hl; simpl in *; try done.
  intros [?|[-> ?]]; [by left|]. right. split; [done|]. apply IH; [lia|done].
Qed.
Lemma key_lt_be k l : is_bytes k → is_bytes l → length k = length l → key_lt k l ↔ be_val k < be_val l.
Proof.
  intros Hk. revert l. induction Hk as [|x k Hx Hk IH]; intros l Hl Hlen.
  { destruct l; [|done]. split; [done|lia]. }
  destruct Hl as [|y l Hy Hl]; [done|]. simpl in Hlen. injection Hlen as Hlen.
  change (x :: k) with ([x] ++ k). change (y :: l) with ([y] ++ l). rewrite !be_val_app, <-Hlen.
  change (be_val [x]) with (256 * 0 + x). change (be_val [y]) with (256 * 0 + y).
  pose proof (be_val_bound k Hk) as Bk. pose proof (be_val_bound l Hl) as Bl. rewrite <-Hlen in Bl.
  set (P := 256 ^ Z.of_nat (length k)) in *. simpl. rewrite (IH l Hl Hlen). split.
  - intros [?|[-> ?]]; [|lia]. assert (x * P + P <= y * P) by nia. lia.
  - intros Hlt. destruct (Z.lt_trichotomy x y) as [?|[->|?]]; [by left|right; split; [done|lia]|].
    assert (y * P + P <= x * P) by nia. lia.
Qed.
Lemma PutUint64_bytes n : is_bytes (PutUint64 n).
Proof. apply is_bytes_rev, le_enc_bytes. Qed.
Lemma length_PutUint64 n : length (PutUint64 n) = 8%nat.
Proof. unfold PutUint64. by rewrite length_rev, length_le_enc. Qed.
Lemma be_PutUint64 n : is_u64 n → be_val (PutUint64 n) = n.
Proof. intros Hn. unfold PutUint64. rewrite be_val_rev, le_dec_enc. by apply Z.mod_small. Qed.
Lemma PutUint64_lt n m : is_u64 n → is_u64 m → key_lt (PutUint64 n) (PutUint64 m) ↔ n < m.
Proof.
  intros Hn Hm. rewrite key_lt_be by (apply PutUint64_bytes || by rewrite !length_PutUint64).
  by rewrite !be_PutUint64.
Qed.

(** * Keys with a version *)
Definition vkey (k : hash) (n : Z) : bytes := k ++ PutUint64 n.
Lemma SetVersion_key k n buf : length k = HashLength → SetVersion n (SetKey k buf) = vkey k n.
Proof. intros Hk. unfold SetVersion, SetKey, vkey. by rewrite <-Hk, take_app_length. Qed.
Lemma SetKey_version k n : SetKey k (SetVersion n zero_key) = vkey k n.
Proof. done. Qed.
Lemma vkey_inj k k' n n' : length k = HashLength → length k' = HashLength → is_u64 n → is_u64 n' →
  vkey k n = vkey k' n' → k = k' ∧ n = n'.
Proof.
  intros Hk Hk' Hn Hn' E. apply app_inj_1 in E as [-> E]; [|by rewrite Hk, Hk']. split; [done|].
  apply (f_equal be_val) in E. by rewrite !be_PutUint64 in E.
Qed.
Lemma vkey_prefix k n : length k = HashLength → prefix_of (vkey k n) = k.
Proof. intros Hk. unfold prefix_of, vkey. by rewrite <-Hk, take_app_length. Qed.
Lemma vkey_version k n : length k = HashLength → is_u64 n → version_of (vkey k n) = n.
Proof.
  intros Hk Hn. unfold version_of, vkey. rewrite <-Hk, drop_app_length.
  rewrite take_ge by by rewrite length_PutUint64. by apply be_PutUint64.
Qed.
Lemma vkey_HasPrefix k k' n : length k = HashLength → length k' = HashLength →
  HasPrefix (vkey k' n) k = bool_decide (k' = k).
Proof.
  intros Hk Hk'. unfold HasPrefix, vkey. apply bool_decide_ext.
  by rewrite Hk, <-Hk', take_app_length.
Qed.
Lemma vkey_lt k n m : is_u64 n → is_u64 m → key_lt (vkey k n) (vkey k m) ↔ n < m.
Proof.
  intros Hn Hm. rewrite <-PutUint64_lt by done. unfold vkey.
  split; [apply key_lt_app_inv|apply key_lt_app].
Qed.
(** Between two versions of a key there are versions of that key only. *)
Lemma vkey_between k n m k' n' : length k = HashLength → length k' = HashLength →
  ¬ key_lt (vkey k' n') (vkey k n) → ¬ key_lt (vkey k m) (vkey k' n') → k' = k.
Proof.
  intros Hk Hk' H1 H2. destruct (key_lt_total k' k) as [Hlt|[?|Hlt]]; [|done|].
  - destruct H1. apply key_lt_prefix; [by rewrite Hk, Hk'|done].
  - destruct H2. apply key_lt_prefix; [by rewrite Hk, Hk'|done].
Qed.

(** * The history of the blocks *)
Record block_puts : Type := { b_puts : list db_put; b_root : hash }.
(** The last put of a key in a column. *)
Definition put_of (puts : list db_put) (col : Column) (k : hash) : option bytes :=
  snd <$> last (filter (λ p, p.1 = (col, k)) puts).
Definition puts_upto (h : list block_puts) (n : nat) : list db_put := concat (b_puts <$> take (S n) h).
Definition all_puts (h : list block_puts) : list db_put := concat (b_puts <$> h).
(** What a reader at block [n] is to find: values as of the block; nodes and code, whose keys
    are hashes of what they are, as of the last block. *)
Definition read_at (h : list block_puts) (n : nat) : db_Get := λ col k,
  put_of (if versioned (cf_col col) then puts_upto h n else all_puts h) col k ≫= some_bytes.
Definition or_else {A} (o o' : option A) : option A := match o with Some _ => o | None => o' end.

Lemma put_of_app l1 l2 col k : put_of (l1 ++ l2) col k = or_else (put_of l2 col k) (put_of l1 col k).
Proof.
  unfold put_of. rewrite filter_app, last_app. by destruct (last (filter _ l2)).
Qed.
Lemma put_of_snoc l p col k :
  put_of (l ++ [p]) col k = if bool_decide (p.1 = (col, k)) then Some p.2 else put_of l col k.
Proof.
  rewrite put_of_app. unfold put_of at 1. case_bool_decide as E.
  - by rewrite filter_cons_True.
  - by rewrite filter_cons_False.
Qed.
Lemma puts_upto_S h n b : h !! S n = Some b → puts_upto h (S n) = puts_upto h n ++ b_puts b.
Proof.
  intros Hb. unfold puts_upto. rewrite (take_S_r _ _ _ Hb), fmap_app, concat_app. simpl. by rewrite app_nil_r.
Qed.
Lemma puts_upto_all h n : length h = S n → puts_upto h n = all_puts h.
Proof. intros Hl. unfold puts_upto, all_puts. by rewrite take_ge by lia. Qed.
Lemma all_puts_snoc h b : all_puts (h ++ [b]) = all_puts h ++ b_puts b.
Proof. unfold all_puts. rewrite fmap_app, concat_app. simpl. by rewrite app_nil_r. Qed.
Lemma puts_upto_app h h' n : (n < length h)%nat → puts_upto (h ++ h') n = puts_upto h n.
Proof. intros Hn. unfold puts_upto. by rewrite take_app_le by lia. Qed.

(** The newest version up to [n]. *)
Definition newest_upto (f : Z → option bytes) (n : Z) (o : option bytes) : Prop :=
  match o with
  | Some v => ∃ m, 0 <= m <= n ∧ f m = Some v ∧ ∀ m', m < m' <= n → f m' = None
  | None => ∀ m, 0 <= m <= n → f m = None
  end.
Lemma newest_unique f n o o' : newest_upto f n o → newest_upto f n o' → o = o'.
Proof.
  destruct o as [v|], o' as [v'|]; simpl; [| | |done].
  2:{ intros (m & ? & E & _) Hn. by rewrite Hn in E. }
  2:{ intros Hn (m & ? & E & _). by rewrite Hn in E. }
  intros (m & Hm & E & Hx) (m' & Hm' & E' & Hx'). f_equal.
  destruct (Z.lt_trichotomy m m') as [?|[->|?]]; [|congruence|].
  - rewrite Hx in E' by lia. done.
  - rewrite Hx' in E by lia. done.
Qed.
Lemma newest_ext f g n o : (∀ m, 0 <= m <= n → f m = g m) → newest_upto f n o → newest_upto g n o.
Proof.
  intros Hfg. destruct o as [v|]; simpl.
  - intros (m & Hm & E & Hx). exists m. rewrite <-Hfg by lia. split_and!; [lia|lia|done|].
    intros m' Hm'. rewrite <-Hfg by lia. auto.
  - intros Hn m Hm. rewrite <-Hfg by lia. auto.
Qed.
Definition block_put (h : list block_puts) (col : Column) (k : hash) (m : Z) : option bytes :=
  h !! Z.to_nat m ≫= λ b, put_of (b_puts b) col k.
Lemma newest_puts h col k n :
  (n < length h)%nat → newest_upto (block_put h col k) (Z.of_nat n) (put_of (puts_upto h n) col k).
Proof.
  induction n as [|n IH]; intros Hn.
  - assert (∃ b, h !! 0%nat = Some b) as [b Hb] by by apply lookup_lt_is_Some.
    assert (puts_upto h 0 = b_puts b) as ->.
    { unfold puts_upto. destruct h as [|b' h]; [done|]. simpl in *. injection Hb as ->. by rewrite app_nil_r. }
    assert (block_put h col k 0 = put_of (b_puts b) col k) as E.
    { unfold block_put. change (Z.to_nat 0) with 0%nat. by rewrite Hb. }
    destruct (put_of (b_puts b) col k) as [v|]; simpl.
    + exists 0. split_and!; [lia|lia|done|lia].
    + intros m Hm. by replace m with 0 by lia.
  - assert (∃ b, h !! S n = Some b) as [b Hb] by by apply lookup_lt_is_Some.
    rewrite (puts_upto_S h n b Hb), put_of_app. specialize (IH ltac:(lia)).
    assert (block_put h col k (Z.of_nat (S n)) = put_of (b_puts b) col k) as E.
    { unfold block_put. by rewrite Nat2Z.id, Hb. }
    destruct (put_of (b_puts b) col k) as [v|]; cbn [or_else].
    + exists (Z.of_nat (S n)). split_and!; [lia|lia|done|lia].
    + destruct (put_of (puts_upto h n) col k) as [v|]; simpl in *.
      * destruct IH as (m & Hm & Em & Hx). exists m. split_and!; [lia|lia|done|]. intros m' Hm'.
        destruct (decide (m' = Z.of_nat (S n))) as [->|]; [done|]. apply Hx. lia.
      * intros m Hm. destruct (decide (m = Z.of_nat (S n))) as [->|]; [done|]. apply IH. lia.
Qed.

(** * Reading *)
Section facts.
Context {R : Type} `{RocksLaws R}.
Implicit Types (r : R) (col : Column) (k : hash).

Definition versioned_keys (m : gmap bytes bytes) : Prop :=
  ∀ key, is_Some (m !! key) → ∃ k n, key = vkey k n ∧ length k = HashLength ∧ is_u64 n.
Lemma read_versioned r c k n :
  versioned c = true → versioned_keys (contents r c) → length k = HashLength →
  0 <= n < BlockNumberNIL →
  ∃ o, newest_upto (λ m, contents r c !! vkey k m) n o ∧
    block_state_reader_Get r n c k = o ≫= some_bytes.
Proof.
  intros Hc Hm Hk Hn. unfold block_state_reader_Get. destruct (Z.eqb_spec n BlockNumberNIL) as [->|_]; [lia|].
  rewrite Hc, SetVersion_key by done. unfold BlockNumberNIL in Hn.
  assert (∀ m, 0 <= m <= n → is_u64 m) as Hu by (unfold is_u64; lia).
  pose proof (seek_law r c (vkey k n)) as Hs. destruct (SeekForPrev r c (vkey k n)) as [[k' v]|].
  2:{ exists None. split; [|done]. intros m Hmn. apply eq_None_not_Some. intros Hi%Hs.
      apply vkey_lt in Hi; [lia|by apply Hu; lia|by apply Hu]. }
  destruct Hs as (E & Hle & Hmax). destruct (Hm k' ltac:(by eexists)) as (k0 & m & -> & Hk0 & Hm0).
  rewrite vkey_HasPrefix by done. case_bool_decide as Ek.
  - subst k0. exists (Some v). split; [|done]. rewrite vkey_lt in Hle by (done || by apply Hu; lia).
    unfold is_u64 in Hm0. exists m. split_and!; [lia|lia|done|]. intros m' Hm'.
    apply eq_None_not_Some. intros Hi. apply (Hmax (vkey k m') Hi).
    + rewrite vkey_lt by (apply Hu; lia). lia.
    + rewrite vkey_lt by (apply Hu; lia). lia.
  - exists None. split; [|done]. intros m' Hm'. apply eq_None_not_Some. intros Hi. apply Ek.
    apply (vkey_between k m' n k0 m Hk Hk0); [|done]. apply Hmax; [done|].
    rewrite vkey_lt by (apply Hu; lia). lia.
Qed.
Lemma read_plain r c k n :
  versioned c = false → n ≠ BlockNumberNIL → block_state_reader_Get r n c k = contents r c !! k ≫= some_bytes.
Proof.
  intros Hc Hn. unfold block_state_reader_Get. destruct (Z.eqb_spec n BlockNumberNIL); [done|].
  by rewrite Hc, get_law.
Qed.

(** * The batch of a block *)
Definition block_ops (dis : bool) (n : Z) (l : list db_put) : list batch_op :=
  concat (map (λ p, put_ops dis (SetVersion n zero_key) p.1.1 p.1.2 p.2) l).
Definition hash_puts (l : list db_put) : Prop := Forall (λ p, length p.1.2 = HashLength) l.
Lemma block_ops_snoc dis n l p :
  block_ops dis n (l ++ [p]) = block_ops dis n l ++ put_ops dis (SetVersion n zero_key) p.1.1 p.1.2 p.2.
Proof. unfold block_ops. rewrite map_app, concat_app. simpl. by rewrite app_nil_r. Qed.

Lemma batch_versioned dis n l col m key :
  versioned (cf_col col) = true → hash_puts l → is_u64 n →
  foldl (batch_put (cf_col col)) m (block_ops dis n l) !! key =
  or_else (if bool_decide (key = vkey (prefix_of key) n) then put_of l col (prefix_of key) else None)
          (m !! key).
Proof.
  intros Hc Hl Hn. induction l as [|[[col' k'] v] l IH] using rev_ind.
  { simpl. by destruct (bool_decide _). }
  apply Forall_app in Hl as [Hl Hp]. apply Forall_inv in Hp. cbn [fst snd] in Hp.
  rewrite block_ops_snoc, foldl_app. cbn [fst snd]. set (mm := foldl _ m _) in *.
  rewrite put_of_snoc. cbn [fst snd].
  assert (foldl (batch_put (cf_col col)) mm (put_ops dis (SetVersion n zero_key) col' k' v) =
          if bool_decide (col' = col) then <[vkey k' n := v]> mm else mm) as ->.
  { unfold put_ops. rewrite SetKey_version. destruct (bool_decide_reflect (col' = col)) as [Ec|Ec].
    - subst col'. rewrite Hc. cbn [negb]. destruct dis, col; simpl; by rewrite ?bool_decide_true.
    - destruct (versioned (cf_col col')) eqn:Ev; cbn [negb]; [|simpl; by rewrite bool_decide_false by congruence].
      destruct dis, col'; simpl; rewrite ?bool_decide_false by congruence; try done;
        by destruct col. }
  destruct (bool_decide_reflect (col' = col)) as [Ec|Ec].
  - subst col'. destruct (decide (key = vkey k' n)) as [->|Hne].
    + rewrite lookup_insert_eq, !vkey_prefix by done. by rewrite !bool_decide_true.
    + rewrite lookup_insert_ne by done. rewrite IH by done.
      destruct (bool_decide_reflect (key = vkey (prefix_of key) n)) as [Ek|Ek]; [|done].
      rewrite bool_decide_false; [done|]. intros [= E]. destruct Hne. by rewrite E.
  - rewrite IH by done. destruct (bool_decide_reflect (key = vkey (prefix_of key) n)); [|done]. rewrite bool_decide_false; [done|]. congruence.
Qed.
(** The other families: the last put of the key, if there is one. *)
Definition family_of (dis : bool) (col : Column) (c : cf) : Prop :=
  if versioned (cf_col col) then dis = false ∧ c = latest_col col else c = cf_col col.
Lemma batch_plain dis n l col c m key :
  family_of dis col c →
  foldl (batch_put c) m (block_ops dis n l) !! key = or_else (put_of l col key) (m !! key).
Proof.
  intros Hc. induction l as [|[[col' k'] v] l IH] using rev_ind; [done|].
  rewrite block_ops_snoc, foldl_app. cbn [fst snd]. set (mm := foldl _ m _) in *.
  rewrite put_of_snoc. cbn [fst snd].
  assert (foldl (batch_put c) mm (put_ops dis (SetVersion n zero_key) col' k' v) =
          if bool_decide (col' = col) then <[k' := v]> mm else mm) as ->.
  { unfold put_ops, family_of in *. destruct (bool_decide_reflect (col' = col)) as [Ec|Ec].
    - subst col'. destruct (versioned (cf_col col)) eqn:Ev; cbn [negb].
      + destruct Hc as [-> ->]. destruct col; simpl; done.
      + subst c. simpl. by rewrite bool_decide_true.
    - destruct col, col', dis; simpl in *; destruct_and?; subst; simpl; try done;
        rewrite ?bool_decide_false by congruence; try done; by destruct Hc as [[= ] _]. }
  destruct (bool_decide_reflect (col' = col)) as [Ec|Ec].
  - subst col'. destruct (decide (key = k')) as [->|Hne].
    + rewrite lookup_insert_eq. by rewrite bool_decide_true.
    + rewrite lookup_insert_ne by done. rewrite IH. by rewrite bool_decide_false by congruence.
  - rewrite IH. by rewrite bool_decide_false by congruence.
Qed.
Lemma batch_elsewhere dis n l c m :
  c = cf_default ∨ c = col_config_changes → foldl (batch_put c) m (block_ops dis n l) = m.
Proof.
  intros Hc. induction l as [|[[col' k'] v] l IH] using rev_ind; [done|].
  rewrite block_ops_snoc, foldl_app, IH. unfold put_ops. cbn [fst snd].
  destruct Hc as [-> | ->]; by destruct col', dis.
Qed.

(** * Runs of the database *)
(** A block: its puts and its root; [None]: committed, [Some e]: the write has failed. *)
Definition run_block (b : block_puts) : M (DB R) (option string) :=
  p ← BeginPendingBlock;
  Prelude.for_each (b_puts b) (λ x, PendingBlockState_Put p x.1.1 x.1.2 x.2) ;;
  LatestState_Commit (b_root b).
Abbreviation history := (list block_puts).
(** Keys and roots are hashes; block numbers stay below [BlockNumberNIL]. *)
Definition block_ok (h : history) (b : block_puts) : Prop :=
  hash_puts (b_puts b) ∧ length (b_root b) = HashLength ∧ Z.of_nat (length h) < BlockNumberNIL.
(** A failing write makes the caller panic: what follows is a restart, as after a crash, which
    leaves at any time the database as it is and loses the rest. *)
Inductive db_step : DB R * history → DB R * history → Prop :=
| step_block d h b d' :
    block_ok h b → run_block b d = (Ret None, d') → db_step (d, h) (d', h ++ [b])
| step_failed d h b e d' disable d'' :
    block_ok h b → run_block b d = (Ret (Some e), d') →
    LatestState_Init disable (db d') = Ret d'' → db_step (d, h) (d'', h)
| step_restart d h disable d' :
    LatestState_Init disable (db d) = Ret d' → db_step (d, h) (d', h)
| step_config d h blk cfg : db_step (d, h) (SaveDPOSConfigChange blk cfg d, h).
(** A database is new when it is empty. *)
Definition new_db (r : R) : Prop := ∀ c, contents r c = ∅.
Definition reachable (d : DB R) (h : history) : Prop :=
  ∃ r disable d0, new_db r ∧ LatestState_Init disable r = Ret d0 ∧ rtc db_step (d0, []) (d, h).

Definition desc_of (h : history) : StateDescriptor :=
  match last h with
  | None => no_descriptor
  | Some b => {| BlockNum := Z.of_nat (length h) - 1; StateRoot := b_root b |}
  end.
Definition desc_bytes (h : history) : option bytes :=
  match h with
  | [] => None
  | _ => match MustEncodeToBytes (desc_of h) with Ret v => Some v | _ => None end
  end.
(** The database holds the history. *)
Record holds (r : R) (dis : bool) (h : history) : Prop := {
  holds_keys col : versioned (cf_col col) = true → versioned_keys (contents r (cf_col col));
  holds_versions col k n : versioned (cf_col col) = true → length k = HashLength → is_u64 n →
    contents r (cf_col col) !! vkey k n = block_put h col k n;
  holds_last col c k : family_of dis col c → contents r c !! k = put_of (all_puts h) col k;
  holds_desc : contents r cf_default !! last_committed_desc_key = desc_bytes h;
  holds_status : contents r cf_default !! most_recent_trie_value_views_status_key =
    Some (if dis then disabled else enabled)
}.
Definition history_ok (h : history) : Prop :=
  Z.of_nat (length h) <= BlockNumberNIL ∧ Forall (λ b, hash_puts (b_puts b) ∧ length (b_root b) = HashLength) h.
Record stands (d : DB R) (h : history) : Prop := {
  stands_ok : history_ok h;
  stands_holds : holds (db d) (DisableMostRecentTrieValueViews d) h;
  stands_batch : batch d = [];
  stands_desc : state_desc d = desc_of h;
  stands_pending : pending_blk_n d = BlockNum (desc_of h)
}.

Lemma desc_codec h : history_ok h → h ≠ [] →
  ∃ v, desc_bytes h = Some v ∧ v ≠ [] ∧ MustEncodeToBytes (desc_of h) = Ret v ∧
    MustDecodeBytes rlp_decode v = Ret (desc_of h).
Proof.
  intros [Hn Hr] Hne. destruct (rlp_roundtrip (desc_of h)) as (v & E & Hv & D).
  { unfold desc_of. destruct (last h) as [b|] eqn:El.
    - apply last_Some_elem_of in El. rewrite Forall_forall in Hr. simpl. unfold BlockNumberNIL in Hn.
      assert (length h ≠ 0%nat) by by destruct h. split; [unfold is_u64; lia|]. by apply (Hr b).
    - by apply last_None in El. }
  exists v. unfold desc_bytes. rewrite E. by destruct h.
Qed.
Lemma block_ops_run p l (d : DB R) : trie_value_key_buf p = SetVersion (blk_n p) zero_key →
  Prelude.for_each l (λ x, PendingBlockState_Put p x.1.1 x.1.2 x.2) d =
  (Ret tt, set_batch (batch d ++ block_ops (DisableMostRecentTrieValueViews d) (blk_n p) l) d).
Proof.
  intros Hp. revert d. induction l as [|x l IH]; intros d.
  { simpl. unfold block_ops. simpl. rewrite app_nil_r. by destruct d. }
  cbn [Prelude.for_each]. unfold mbind, M_bind, PendingBlockState_Put. rewrite IH, Hp. cbn [set_batch batch].
  unfold block_ops. simpl. by rewrite app_assoc.
Qed.
Lemma next_number h : Z.of_nat (length h) < BlockNumberNIL →
  u64 (BlockNum (desc_of h) + 1) = Z.of_nat (length h).
Proof.
  intros Hn. unfold desc_of. destruct (last h) as [b|] eqn:El; simpl.
  - replace (_ - 1 + 1) with (Z.of_nat (length h)) by lia. apply u64_id. unfold is_u64, BlockNumberNIL in *. lia.
  - apply last_None in El as ->. done.
Qed.
Lemma desc_snoc h b : desc_of (h ++ [b]) = {| BlockNum := Z.of_nat (length h); StateRoot := b_root b |}.
Proof. unfold desc_of. rewrite last_snoc, length_app. simpl. f_equal. lia. Qed.
Lemma history_ok_snoc h b : history_ok h → block_ok h b → history_ok (h ++ [b]).
Proof.
  intros [Hn Hr] (Hp & Hroot & Hlt). split; [rewrite length_app; simpl; lia|].
  apply Forall_app. split; [done|]. by repeat constructor.
Qed.
(** A block runs up to the write of its batch. *)
Lemma run_block_spec d h b : stands d h → block_ok h b →
  ∃ v, desc_bytes (h ++ [b]) = Some v ∧
    let ops := block_ops (DisableMostRecentTrieValueViews d) (Z.of_nat (length h)) (b_puts b) ++
               [BatchPutCF cf_default last_committed_desc_key v] in
    run_block b d = (Ret (Write ops (db d)).1, set_batch [] (
      (if (Write ops (db d)).1 is Some _ then id else set_desc (desc_of (h ++ [b])))
        (set_db (Write ops (db d)).2 (set_pending (Z.of_nat (length h)) d)))).
Proof.
  intros [Hok Hh Hb Hd Hp] Hbk. pose proof (next_number h (proj2 (proj2 Hbk))) as Hn.
  destruct (desc_codec (h ++ [b])) as (v & Ev & _ & Em & _).
  { by apply history_ok_snoc. } { by destruct h. }
  exists v. split; [done|]. intros ops. unfold run_block, mbind, M_bind, BeginPendingBlock.
  rewrite Hp, Hn. rewrite block_ops_run by done. cbn [blk_n set_pending batch set_batch
    DisableMostRecentTrieValueViews db state_desc pending_blk_n]. rewrite Hb. cbn [app].
  unfold LatestState_Commit. cbn [batch set_batch pending_blk_n db set_pending].
  rewrite desc_snoc in Em. rewrite Em, desc_snoc. fold ops. by destruct (Write ops (db d)) as [[e|] r].
Qed.

Lemma holds_ext r r' dis h : (∀ c, contents r' c = contents r c) → holds r dis h → holds r' dis h.
Proof.
  intros E [Hk Hv Hl Hd Hs]. constructor; intros; rewrite E; eauto.
Qed.
Lemma block_put_snoc h b col k n : is_u64 n → 
  block_put (h ++ [b]) col k n =
  if n =? Z.of_nat (length h) then put_of (b_puts b) col k else block_put h col k n.
Proof.
  intros Hn. unfold is_u64, block_put in *. destruct (Z.eqb_spec n (Z.of_nat (length h))) as [->|Hne].
  - by rewrite Nat2Z.id, list_lookup_middle.
  - destruct (Z.lt_ge_cases n (Z.of_nat (length h))).
    + by rewrite lookup_app_l by lia.
    + rewrite (lookup_ge_None_2 h) by lia. rewrite lookup_ge_None_2; [done|]. rewrite length_app. simpl. lia.
Qed.
Lemma put_of_hash l col k v : hash_puts l → put_of l col k = Some v → length k = HashLength.
Proof.
  intros Hl E. unfold put_of in E. apply fmap_Some in E as (p & Hin%last_Some_elem_of & _).
  apply list_elem_of_filter in Hin as [Ep Hin]. unfold hash_puts in Hl. rewrite Forall_forall in Hl.
  specialize (Hl p Hin). by rewrite Ep in Hl.
Qed.
(** A batch that is written takes the database to the next block. *)
Lemma write_holds r r' dis h b v : holds r dis h → history_ok h → block_ok h b →
  desc_bytes (h ++ [b]) = Some v →
  Write (block_ops dis (Z.of_nat (length h)) (b_puts b) ++
         [BatchPutCF cf_default last_committed_desc_key v]) r = (None, r') →
  holds r' dis (h ++ [b]).
Proof.
  intros [Hk Hv Hl Hd Hs] [Hok _] (Hp & Hroot & Hlt) Ev E. set (n := Z.of_nat (length h)) in *.
  assert (is_u64 n) as Hn by (unfold is_u64, BlockNumberNIL in *; lia).
  assert (∀ c, contents r' c = foldl (batch_put c) (contents r c) (block_ops dis n (b_puts b) ++
    [BatchPutCF cf_default last_committed_desc_key v])) as Hc.
  { intros c. pose proof (write_law r (block_ops dis n (b_puts b) ++
      [BatchPutCF cf_default last_committed_desc_key v]) c) as Hw. by rewrite E in Hw. }
  assert (∀ c, c ≠ cf_default → contents r' c = foldl (batch_put c) (contents r c) (block_ops dis n (b_puts b)))
    as Hc'.
  { intros c Hne. rewrite Hc, foldl_app. simpl. by rewrite bool_decide_false. }
  assert (contents r' cf_default = <[last_committed_desc_key := v]> (contents r cf_default)) as Hdef.
  { rewrite Hc, foldl_app, batch_elsewhere by auto. done. }
  constructor.
  - intros col Hcol key [x Ex]. rewrite Hc', batch_versioned in Ex by done. unfold or_else in Ex.
    case_bool_decide as Ek; [|by eapply Hk; eauto].
    destruct (put_of _ _ _) as [x'|] eqn:Ep; [|by eapply Hk; eauto].
    exists (prefix_of key), n. split_and!; [done| |done]. by eapply put_of_hash.
  - intros col k m Hcol Hk' Hm. rewrite Hc', batch_versioned by done. rewrite vkey_prefix by done.
    rewrite block_put_snoc by done. fold n. destruct (Z.eqb_spec m n) as [->|Hne].
    + rewrite bool_decide_true by done. rewrite Hv by done. unfold block_put at 1, or_else.
      rewrite lookup_ge_None_2 by lia. by destruct (put_of _ _ _).
    + rewrite bool_decide_false by (intros E'; apply vkey_inj in E'; tauto). by apply Hv.
  - intros col c k Hf. rewrite Hc'.
    2:{ intros ->. unfold family_of in Hf. destruct (versioned (cf_col col)); [|done].
        destruct Hf as [_ Hf]. by destruct col. }
    rewrite (batch_plain _ _ _ _ _ _ _ Hf), all_puts_snoc, put_of_app. by rewrite (Hl _ _ _ Hf).
  - by rewrite Hdef, lookup_insert_eq.
  - rewrite Hdef, lookup_insert_ne; [done|]. by vm_compute.
Qed.
Lemma desc_bytes_nil h : desc_bytes h = None → history_ok h → h = [].
Proof.
  intros E Hok. destruct h as [|b h]; [done|].
  by destruct (desc_codec (b :: h) Hok) as (v & E' & _); [|rewrite E' in E].
Qed.
Lemma init_views_status (dis disable : bool) blk r :
  GetCF r cf_default most_recent_trie_value_views_status_key = Some (if dis then disabled else enabled) →
  init_views disable blk r =
    if dis then (if disable then Ret r else Panic err_not_supported)
    else if disable then
      Ret (put_status disabled (DropColumnFamily col_acc_trie_value_latest
        (DropColumnFamily col_main_trie_value_latest (put_status disabling r))))
    else Ret r.
Proof. intros E. unfold init_views. rewrite E. by destruct dis, disable. Qed.
(** A restart finds the last committed block, and loses the views when they are given up. *)
Lemma init_stands r dis h disable d :
  holds r dis h → history_ok h → LatestState_Init disable r = Ret d → stands d h.
Proof.
  intros Hh Hok E. pose proof Hh as [Hk Hv Hl Hd Hs]. unfold LatestState_Init in E.
  rewrite get_law, Hd in E.
  set (desc := match desc_bytes h ≫= some_bytes with Some v => _ | None => _ end) in E.
  assert (desc = Ret (desc_of h)) as ->.
  { unfold desc. destruct (desc_bytes h) as [v|] eqn:Ed; simpl.
    - destruct (desc_codec h Hok) as (v' & Ed' & Hne & _ & D); [by intros ->|].
      rewrite Ed' in Ed. injection Ed as <-. by destruct v'.
    - by rewrite (desc_bytes_nil h Ed Hok). }
  destruct (init_views disable (BlockNum (desc_of h)) r) as [r'| |] eqn:Ei; try done.
  injection E as <-. constructor; try done. cbn [db DisableMostRecentTrieValueViews].
  rewrite (init_views_status dis) in Ei by by rewrite get_law.
  destruct dis, disable; try done; injection Ei as <-; try done.
  assert (∀ c, c ≠ col_main_trie_value_latest → c ≠ col_acc_trie_value_latest → c ≠ cf_default →
    contents (put_status disabled (DropColumnFamily col_acc_trie_value_latest
      (DropColumnFamily col_main_trie_value_latest (put_status disabling r)))) c = contents r c) as Hc.
  { intros c H1 H2 H3. unfold put_status. rewrite put_law, bool_decide_false by done.
    rewrite !drop_law by done. by rewrite put_law, bool_decide_false by done. }
  assert (contents (put_status disabled (DropColumnFamily col_acc_trie_value_latest
      (DropColumnFamily col_main_trie_value_latest (put_status disabling r)))) cf_default =
    <[most_recent_trie_value_views_status_key := disabled]>
      (<[most_recent_trie_value_views_status_key := disabling]> (contents r cf_default))) as Hdef.
  { unfold put_status. rewrite put_law, bool_decide_true by done. rewrite !drop_law by done.
    by rewrite put_law, bool_decide_true. }
  constructor.
  - intros col Hcol. rewrite Hc by done. by apply Hk.
  - intros col k n Hcol. rewrite Hc by done. by apply Hv.
  - intros col c k Hf. unfold family_of in Hf. destruct (versioned (cf_col col)) eqn:Ev; [by destruct Hf|].
    subst c. rewrite Hc by done. apply Hl. unfold family_of. by rewrite Ev.
  - rewrite Hdef, !lookup_insert_ne by by vm_compute. done.
  - by rewrite Hdef, lookup_insert_eq.
Qed.
Lemma init_new r disable d : new_db r → LatestState_Init disable r = Ret d → stands d [].
Proof.
  intros Hr E. unfold LatestState_Init in E. rewrite get_law, Hr, lookup_empty in E. simpl in E.
  unfold init_views in E. rewrite get_law, Hr, lookup_empty in E. cbn [default] in E.
  assert (∀ v c, contents (put_status v r) c =
    if bool_decide (c = cf_default) then {[most_recent_trie_value_views_status_key := v]} else ∅) as Hc.
  { intros v c. unfold put_status. rewrite put_law, Hr. done. }
  assert (∀ dis : bool, holds (put_status (if dis then disabled else enabled) r) dis []) as Hh.
  { intros dis. constructor.
    - intros col Hcol key. rewrite Hc. simpl. intros [? E']. by rewrite lookup_empty in E'.
    - intros col k n Hcol Hk Hn. rewrite Hc. simpl. by rewrite lookup_empty.
    - intros col c k Hf. rewrite Hc, bool_decide_false; [by rewrite lookup_empty|]. intros ->.
      unfold family_of in Hf. destruct (versioned (cf_col col)); [|done]. destruct Hf as [_ Hf].
      by destruct col.
    - rewrite Hc. simpl. by rewrite lookup_singleton_ne.
    - rewrite Hc. simpl. by rewrite lookup_singleton_eq. }
  assert (history_ok []) as Hok by (split; [done|constructor]).
  rewrite Z.eqb_refl in E. destruct disable; injection E as <-; constructor; try done.
  - apply (Hh true).
  - apply (Hh false).
Qed.

Lemma step_stands d h d' h' : db_step (d, h) (d', h') → stands d h → stands d' h'.
Proof.
  intros Hstep Hs. pose proof Hs as [Hok Hh Hb Hd Hp].
  inversion Hstep as [? ? b ? Hbk E|? ? b e d1 disable ? Hbk E Ei|? ? disable ? Ei|? ? blk cfg]; subst.
  - destruct (run_block_spec d h b Hs Hbk) as (v & Ev & Er). cbv zeta in Er. rewrite Er in E.
    destruct (Write _ (db d)) as [[e|] r] eqn:Ew; cbn [fst snd] in E; [done|]. injection E as <-.
    constructor.
    + by apply history_ok_snoc.
    + exact (write_holds _ _ _ _ _ _ Hh Hok Hbk Ev Ew).
    + done.
    + done.
    + by rewrite desc_snoc.
  - destruct (run_block_spec d h' b Hs Hbk) as (v & Ev & Er). cbv zeta in Er. rewrite Er in E.
    set (ops := _ ++ _) in E. pose proof (λ c, write_law (db d) ops c) as Hw.
    destruct (Write ops (db d)) as [[e'|] r] eqn:Ew; cbn [fst snd] in E; [|done]. injection E as <- <-.
    eapply init_stands; [|done|exact Ei]. eapply holds_ext; [|exact Hh]. exact Hw.
  - by eapply init_stands.
  - constructor; try done. destruct Hh as [Hk Hv Hl Hds Hst].
    assert (∀ c, c ≠ col_config_changes →
      contents (db (SaveDPOSConfigChange blk cfg d)) c = contents (db d) c) as Hc.
    { intros c Hne. simpl. by rewrite put_law, bool_decide_false. }
    constructor.
    + intros col. rewrite Hc by done. apply Hk.
    + intros col k n. rewrite Hc by done. apply Hv.
    + intros col c k Hf. rewrite Hc; [by apply Hl|]. intros ->. unfold family_of in Hf.
      destruct (versioned (cf_col col)); [|done]. destruct Hf as [_ Hf]. by destruct col.
    + by rewrite Hc.
    + by rewrite Hc.
Qed.
Lemma reachable_stands d h : reachable d h → stands d h.
Proof.
  intros (r & disable & d0 & Hr & Ei & Hrtc). apply (init_new _ _ _ Hr) in Ei.
  remember (d0, []) as s0 eqn:E0. remember (d, h) as s1 eqn:E1. revert d h E1.
  enough (stands s1.1 s1.2) as Hx by by intros d' h' ->.
  clear Hr. assert (stands s0.1 s0.2) as Hs by by rewrite E0. clear E0 Ei d0.
  induction Hrtc as [|[d h] [d' h'] s2 Hstep _ IH]; [done|]. apply IH. by eapply step_stands.
Qed.

(** * What is read *)
Lemma committed_number d h : stands d h → h ≠ [] → BlockNum (GetCommittedDescriptor d) = Z.of_nat (length h) - 1.
Proof.
  intros Hs Hne. unfold GetCommittedDescriptor. rewrite (stands_desc _ _ Hs). unfold desc_of.
  destruct (last h) eqn:El; [done|]. by apply last_None in El.
Qed.
Lemma reader_reads r dis h n col k :
  holds r dis h → history_ok h → (n < length h)%nat → length k = HashLength →
  block_state_reader_Get r (Z.of_nat n) (cf_col col) k = read_at h n col k.
Proof.
  intros [Hk Hv Hl _ _] [Hok _] Hn Hlen. unfold read_at. unfold BlockNumberNIL in Hok.
  destruct (versioned (cf_col col)) eqn:Ev.
  - destruct (read_versioned r (cf_col col) k (Z.of_nat n) Ev (Hk _ Ev) Hlen) as (o & Ho & ->).
    { unfold BlockNumberNIL. lia. }
    f_equal. eapply newest_unique; [|by apply newest_puts]. eapply newest_ext; [|exact Ho].
    intros m Hm. apply (Hv col k m Ev Hlen). unfold is_u64. lia.
  - rewrite read_plain; [|done|unfold BlockNumberNIL; lia]. f_equal. apply Hl.
    unfold family_of. by rewrite Ev.
Qed.
Lemma pending_reads d h p d' col k :
  stands d h → BeginPendingBlock d = (Ret p, d') → length k = HashLength →
  PendingBlockState_Get d' p col k = match h with [] => None | _ => read_at h (length h - 1) col k end.
Proof.
  intros Hs E Hlen. pose proof Hs as [Hok Hh _ Hd _]. injection E as <- <-.
  unfold PendingBlockState_Get. cbn [reader_blk_n DisableMostRecentTrieValueViews set_pending db].
  destruct h as [|b h0] eqn:Eh; rewrite <-?Eh in *.
  { unfold block_state_reader_Get. rewrite Hd, Eh. done. }
  assert (h ≠ []) as Hne by by rewrite Eh. clear Eh b h0.
  change (state_desc d) with (GetCommittedDescriptor d). rewrite (committed_number d h) by done.
  assert (length h ≠ 0%nat) by by destruct h.
  replace (Z.of_nat (length h) - 1) with (Z.of_nat (length h - 1)) by lia.
  destruct (DisableMostRecentTrieValueViews d) eqn:Edis.
  { eapply reader_reads; [done..|lia|done]. }
  destruct (versioned (cf_col col)) eqn:Ev.
  - rewrite read_plain; [|by destruct col|].
    2:{ pose proof (proj1 Hok). unfold BlockNumberNIL in *. lia. }
    rewrite (holds_last _ _ _ Hh col); [|unfold family_of; by rewrite Ev].
    unfold read_at. rewrite Ev. by rewrite puts_upto_all by lia.
  - replace (latest_col col) with (cf_col col) by by destruct col.
    eapply reader_reads; [done..|lia|done].
Qed.
End facts.

(** C14: database_keeps_every_block.  Take a database that was new once, and any sequence of
    blocks, writes of a batch that fail, crashes and restarts (with or without the views of the
    latest values, where the code lets it start), and changes of the configuration.  The descriptor
    is that of the last committed block.  A reader of any committed block finds, for every key, the
    last value put at that block or before, whatever was put later; an empty value reads as none;
    nodes and code are those last put.  The block that is begun next reads the state of the last
    committed block, with the views and without them; the first one reads nothing. *)
Theorem database_keeps_every_block {R} `{RocksLaws R} (d : DB R) (h : list block_puts) :
  reachable d h →
  GetCommittedDescriptor d = desc_of h ∧
  (∀ n col k, (n < length h)%nat → length k = HashLength →
     ∃ get, GetBlockStateReader (Z.of_nat n) d = (Ret get, d) ∧ get col k = read_at h n col k) ∧
  (∀ p d' col k, BeginPendingBlock d = (Ret p, d') → length k = HashLength →
     PendingBlockState_Get d' p col k =
       match h with [] => None | _ => read_at h (length h - 1) col k end).
Proof.
  intros Hr%reachable_stands. pose proof Hr as [Hok Hh _ Hd _]. split_and!; [done| |].
  - intros n col k Hn Hk. exists (DB_GetBlockStateReader d (Z.of_nat n)). split.
    + unfold GetBlockStateReader. rewrite (committed_number d h Hr) by (intros ->; simpl in Hn; lia).
      destruct (Z.ltb_spec (Z.of_nat (length h) - 1) (Z.of_nat n)); [lia|done].
    + unfold DB_GetBlockStateReader. by eapply reader_reads.
  - intros. by eapply pending_reads.
Qed.
