(* ===== verification/StateDbMemory.v ===== *)
(** A database in memory with the behaviour the laws of [RocksLaws] ask for: a finite map per
    column family.  The laws can hold, and the properties of the database run on it. *)
From stdpp Require Import sorting.
From Stdlib Require Import Sorted.
From S2P Require Import Prelude Codec Rlp Storage EvmInterface StateEvm Trie TrieReader TrieSchemas StateDb StateDbFacts.

#[global] Instance key_lt_dec : RelDecision key_lt.
Proof.
  intros k. induction k as [|x k IH]; intros [|y l]; simpl; [right; tauto|by left|right; tauto|].
  destruct (decide (x < y)); [by left; left|].
  destruct (decide (x = y)) as [->|]; [|by right; intros [?|[? _]]].
  destruct (IH l); [by left; right|]. right. intros [?|[_ ?]]; [lia|done].
Defined.

Definition memory : Type := cf → gmap bytes bytes.
(** Of two entries the one with the greater key. *)
Definition greater (a : option (bytes * bytes)) (b : bytes * bytes) : option (bytes * bytes) :=
  match a with
  | Some a => if decide (key_lt a.1 b.1) then Some b else Some a
  | None => Some b
  end.
Definition entry_le (a b : bytes * bytes) : Prop := ¬ key_lt b.1 a.1.
#[local] Instance entry_le_dec : RelDecision entry_le := λ a b, decide (¬ key_lt b.1 a.1).
Definition update (c : cf) (f : gmap bytes bytes → gmap bytes bytes) (r : memory) : memory := λ c',
  if bool_decide (c' = c) then f (r c') else r c'.
#[export] Instance memory_rocks : RocksDB memory := {
  GetCF r c k := r c !! k;
  PutCF c k v := update c <[k := v]>;
  DeleteCF c k := update c (delete k);
  Write ops r := (None, λ c, foldl (batch_put c) (r c) ops);
  SeekForPrev r c t :=
    foldl greater None (filter (λ e, ¬ key_lt t e.1) (map_to_list (r c)));
  Iterate r c := merge_sort entry_le (map_to_list (r c));
  DropColumnFamily c := update c (λ _, ∅);
  CreateColumnFamily c r := r
}.

Lemma greatest_spec l e0 :
  match foldl greater e0 l with
  | Some e => (Some e = e0 ∨ e ∈ l) ∧ (∀ e', Some e' = e0 ∨ e' ∈ l → ¬ key_lt e.1 e'.1)
  | None => e0 = None ∧ l = []
  end.
Proof.
  revert e0. induction l as [|a l IH]; intros e0; simpl.
  - destruct e0 as [e|]; [|done]. split; [by left|]. intros e' [[= ->]|Hin]; [apply key_lt_irrefl|].
    by apply not_elem_of_nil in Hin.
  - specialize (IH (greater e0 a)). destruct (foldl greater (greater e0 a) l) as [e|].
    2:{ destruct IH as [IH _]. destruct e0 as [e0|]; simpl in IH; [|done]. by destruct (decide _). }
    destruct IH as [Hin Hmax]. split.
    + destruct Hin as [Hin|Hin]; [|right; by right]. destruct e0 as [e0|]; simpl in Hin.
      * destruct (decide _); injection Hin as ->; [right; by left|by left].
      * injection Hin as ->. right. by left.
    + intros e' He' Hlt. assert (¬ key_lt e.1 a.1 ∧ ∀ e1, Some e1 = e0 → ¬ key_lt e.1 e1.1) as [Ha H0].
      { destruct e0 as [e1|]; simpl in Hmax.
        - destruct (decide (key_lt e1.1 a.1)) as [Hd|Hd].
          + pose proof (Hmax a ltac:(by left)) as Hea. split; [done|]. intros e2 [= ->] He2.
            apply Hea. by eapply key_lt_trans.
          + pose proof (Hmax e1 ltac:(by left)) as He1. split; [|by intros e2 [= ->]].
            intros Hea. destruct (key_lt_total e1.1 a.1) as [?|[E|?]]; [done| |].
            * apply He1. by rewrite E.
            * apply He1. by eapply key_lt_trans.
        - split; [|done]. apply Hmax. by left. }
      destruct He' as [He'|[-> |He']%elem_of_cons]; [by eapply H0|done|]. eapply Hmax; [by right|done].
Qed.
#[local] Instance entry_le_total : Total entry_le.
Proof.
  intros a b. unfold entry_le. destruct (decide (key_lt b.1 a.1)) as [Hd|Hd]; [|by left]. right.
  intros Hlt. apply (key_lt_irrefl b.1). by eapply key_lt_trans.
Qed.
#[local] Instance entry_le_trans : Transitive entry_le.
Proof.
  intros a b c Hab Hbc Hlt. unfold entry_le in *.
  destruct (key_lt_total b.1 a.1) as [?|[E|?]]; [done|by rewrite <-E in Hlt|].
  apply Hbc. by eapply key_lt_trans.
Qed.
Lemma sorted_lt (l : list (bytes * bytes)) :
  NoDup l.*1 → StronglySorted entry_le l → StronglySorted (λ a b, key_lt a.1 b.1) l.
Proof.
  intros Hnd Hs. induction Hs as [|a l Hs IH Ha]; [constructor|]. simpl in Hnd.
  apply NoDup_cons in Hnd as [Hn Hnd]. constructor; [auto|]. apply Forall_forall. intros b Hb.
  rewrite Forall_forall in Ha. pose proof (Ha b Hb) as Hle. unfold entry_le in Hle.
  destruct (key_lt_total a.1 b.1) as [?|[E|?]]; [done| |done]. destruct Hn. rewrite E.
  by apply list_elem_of_fmap_2.
Qed.
#[export] Program Instance memory_laws : RocksLaws memory := { contents r := r }.
Next Obligation. done. Qed.
Next Obligation. intros. simpl. unfold update. by case_bool_decide. Qed.
Next Obligation. intros. simpl. unfold update. by case_bool_decide. Qed.
Next Obligation. done. Qed.
Next Obligation.
  intros r c t. simpl. pose proof (greatest_spec (filter (λ e, ¬ key_lt t e.1) (map_to_list (r c))) None) as Hg.
  destruct (foldl greater None _) as [[k v]|].
  - destruct Hg as [[?|[Hle Hin]%list_elem_of_filter] Hmax]; [done|]. split_and!; [|done|].
    + by apply elem_of_map_to_list.
    + intros k' [v' Hk'] Hle'. apply (Hmax (k', v')). right. apply list_elem_of_filter.
      split; [done|]. by apply elem_of_map_to_list.
  - destruct Hg as [_ Hn]. intros k' [v' Hk']. destruct (decide (key_lt t k')) as [|Hnl]; [done|].
    assert ((k', v') ∈ filter (λ e, ¬ key_lt t e.1) (map_to_list (r c))) as Hin.
    { apply list_elem_of_filter. split; [done|]. by apply elem_of_map_to_list. }
    rewrite Hn in Hin. by apply not_elem_of_nil in Hin.
Qed.
Next Obligation.
  intros r c. simpl. apply sorted_lt; [|apply StronglySorted_merge_sort; apply _].
  rewrite (merge_sort_Permutation entry_le). apply NoDup_fst_map_to_list.
Qed.
Next Obligation.
  intros r c k v. simpl. rewrite (merge_sort_Permutation entry_le). apply elem_of_map_to_list.
Qed.
Next Obligation. intros. simpl. unfold update. by rewrite bool_decide_false. Qed.
Next Obligation. intros. simpl. unfold update. done. Qed.

(** * A database with two blocks, restarted without the views between them *)
Definition ex_key : hash := replicate 32 1.
Definition ex_blocks : list block_puts := [
  {| b_puts := [(COL_main_trie_value, ex_key, [7]); (COL_code, ex_key, [1; 2])]; b_root := replicate 32 9 |};
  {| b_puts := [(COL_main_trie_value, ex_key, [])]; b_root := replicate 32 8 |}].
Definition after {A B} (p : outcome A * B) : B := p.2.
Definition opened (disable : bool) (r : memory) : DB memory :=
  match LatestState_Init disable r with
  | Ret d => d
  | _ => {| db := r; DisableMostRecentTrieValueViews := disable; batch := []; state_desc := no_descriptor;
            pending_blk_n := 0 |}
  end.
Definition ex_block (i : nat) : block_puts := nth i ex_blocks {| b_puts := []; b_root := [] |}.
Definition ex_d1 : DB memory := after (run_block (ex_block 0) (opened false (λ _, ∅))).
Definition ex_d2 : DB memory := after (run_block (ex_block 1) (opened true (db ex_d1))).
Lemma pair_of {A B} (p : A * B) a : p.1 = a → p = (a, p.2).
Proof. by destruct p as [? ?]; intros <-. Qed.
Definition is_ret {A} (o : outcome A) : bool := match o with Ret _ => true | _ => false end.
Lemma opened_ok disable r : is_ret (LatestState_Init disable r) = true → LatestState_Init disable r = Ret (opened disable r).
Proof. unfold opened. by destruct (LatestState_Init disable r). Qed.
Lemma ex_reachable : reachable ex_d2 ex_blocks.
Proof.
  exists (λ _, ∅), false, (opened false (λ _, ∅)). split; [done|].
  split; [apply opened_ok; by vm_compute|].
  eapply rtc_l; [apply (step_block _ _ (ex_block 0) ex_d1)|].
  { split_and!; [by repeat constructor|done|done]. }
  { apply pair_of. by vm_compute. }
  eapply rtc_l; [apply (step_restart _ _ true (opened true (db ex_d1)))|].
  { apply opened_ok. by vm_compute. }
  eapply rtc_l; [apply (step_block _ _ (ex_block 1) ex_d2)|].
  { split_and!; [by repeat constructor|done|done]. }
  { apply pair_of. by vm_compute. }
  constructor.
Qed.
Lemma database_keeps_every_block_witness :
  reachable ex_d2 ex_blocks ∧
  (GetCommittedDescriptor ex_d2 = {| BlockNum := 1; StateRoot := replicate 32 8 |} ∧
   (∀ n col k, (n < 2)%nat → length k = HashLength →
      ∃ get, GetBlockStateReader (Z.of_nat n) ex_d2 = (Ret get, ex_d2) ∧
        get col k = read_at ex_blocks n col k) ∧
   (∀ p d' col k, BeginPendingBlock ex_d2 = (Ret p, d') → length k = HashLength →
      PendingBlockState_Get d' p col k = read_at ex_blocks 1 col k)) ∧
  read_at ex_blocks 0 COL_main_trie_value ex_key = Some [7] ∧
  read_at ex_blocks 1 COL_main_trie_value ex_key = None ∧
  read_at ex_blocks 1 COL_code ex_key = Some [1; 2].
Proof.
  split; [exact ex_reachable|]. split; [|by vm_compute].
  exact (database_keeps_every_block ex_d2 ex_blocks ex_reachable).
Defined.
