(* ===== verification/StateDbPrune.v ===== *)
(** Pruning the database: which versions of a value go, that no block from the one before the
    given one on reads another value afterwards, and which nodes are still there.  A value that
    is empty, as the deletion of an account leaves it, makes pruning panic. *)
From Stdlib Require Import Sorted.
From S2P Require Import Prelude Codec Rlp RlpEncoder Storage EvmInterface StateEvm TrieEncoding Trie TrieReader TrieSchemas StateDb StateDbFacts.

Abbreviation sorted_entries := (StronglySorted (λ a b : bytes * bytes, key_lt a.1 b.1)).
Abbreviation acc_nodes := (cf_col COL_acc_trie_node).
Abbreviation main_nodes := (cf_col COL_main_trie_node).
Abbreviation acc_values := (cf_col COL_acc_trie_value).
Abbreviation main_values := (cf_col COL_main_trie_value).
(** What goes has a newer version below the block. *)
Lemma pruned_successor blk l key :
  sorted_entries l → key ∈ values_to_prune blk l →
  ∃ key' v, (key', v) ∈ l ∧ key_lt key key' ∧ prefix_of key = prefix_of key' ∧ version_of key' < blk.
Proof.
  induction 1 as [|[k v] l Hs IH Hlt]; [by intros ?%not_elem_of_nil|].
  destruct l as [|[k' v'] l]; [by intros ?%not_elem_of_nil|].
  change (values_to_prune blk ((k, v) :: (k', v') :: l)) with
    ((if bool_decide (prefix_of k = prefix_of k') && (version_of k' <? blk) then [k] else []) ++
     values_to_prune blk ((k', v') :: l)).
  intros [Hin|Hin]%elem_of_app.
  - destruct (bool_decide_reflect (prefix_of k = prefix_of k')) as [Ep|]; [|by apply not_elem_of_nil in Hin].
    destruct (Z.ltb_spec (version_of k') blk); [|by apply not_elem_of_nil in Hin].
    apply list_elem_of_singleton in Hin as ->. exists k', v'. split_and!; [right; by left| |done|done].
    by apply Forall_inv in Hlt.
  - destruct (IH Hin) as (key' & w & Hk & Hx). exists key', w. split; [by right|done].
Qed.

Section prune.
Context {R : Type} `{RocksLaws R}.
Implicit Types (r : R) (d : DB R).

Lemma contents_delete_all c keys r c' key :
  contents (foldl (λ r k, DeleteCF c k r) r keys) c' !! key =
  if bool_decide (c' = c ∧ key ∈ keys) then None else contents r c' !! key.
Proof.
  revert r. induction keys as [|k keys IH]; intros r; simpl.
  { rewrite bool_decide_false; [done|]. by intros [_ ?%not_elem_of_nil]. }
  rewrite IH, delete_law. destruct (decide (c' = c)) as [->|Hc].
  - rewrite (bool_decide_true (c = c)) by done. destruct (decide (key = k)) as [->|Hk].
    + rewrite lookup_delete_eq. rewrite (bool_decide_true (_ ∧ k ∈ k :: keys)) by (split; [done|by left]).
      by case_bool_decide.
    + rewrite lookup_delete_ne by done.
      assert (bool_decide (c = c ∧ key ∈ keys) = bool_decide (c = c ∧ key ∈ k :: keys)) as ->; [|done].
      apply bool_decide_ext. rewrite elem_of_cons. tauto.
  - rewrite !bool_decide_false by tauto. done.
Qed.
(** The version that is newest at the block before the given one, or later, stays. *)
Lemma newest_stays r col blk n m k v :
  versioned_keys (contents r (cf_col col)) → length k = HashLength → 0 <= m <= n →
  n < BlockNumberNIL → blk <= n + 1 → contents r (cf_col col) !! vkey k m = Some v →
  (∀ m', m < m' <= n → contents r (cf_col col) !! vkey k m' = None) →
  vkey k m ∉ values_to_prune blk (Iterate r (cf_col col)).
Proof.
  intros Hk Hlen Hm Hn Hblk E Hx Hin.
  assert (∀ m, 0 <= m <= n → is_u64 m) as Hu by (unfold BlockNumberNIL, is_u64 in *; lia).
  apply pruned_successor in Hin as (key' & w & Hin & Hlt & Hp & Hv); [|apply iterate_sorted].
  apply iterate_law in Hin. destruct (Hk key' ltac:(by eexists)) as (k0 & m' & -> & Hk0 & Hm').
  rewrite !vkey_prefix in Hp by done. subst k0. rewrite vkey_version in Hv by done.
  apply vkey_lt in Hlt; [|by apply Hu|done]. rewrite Hx in Hin by lia. done.
Qed.
(** Reading at the block before the given one or later is reading before the pruning. *)
Lemma pruned_reads r r' col blk n k :
  versioned (cf_col col) = true → versioned_keys (contents r (cf_col col)) →
  (∀ key, contents r' (cf_col col) !! key =
     if bool_decide (key ∈ values_to_prune blk (Iterate r (cf_col col))) then None
     else contents r (cf_col col) !! key) →
  length k = HashLength → 0 <= n < BlockNumberNIL → blk <= n + 1 →
  block_state_reader_Get r' n (cf_col col) k = block_state_reader_Get r n (cf_col col) k.
Proof.
  intros Hc Hk Hr' Hlen Hn Hblk.
  assert (versioned_keys (contents r' (cf_col col))) as Hk'.
  { intros key [v E]. apply Hk. rewrite Hr' in E. case_bool_decide; [done|by eexists]. }
  destruct (read_versioned r (cf_col col) k n Hc Hk Hlen Hn) as (o & Ho & ->).
  destruct (read_versioned r' (cf_col col) k n Hc Hk' Hlen Hn) as (o' & Ho' & ->).
  f_equal. symmetry. eapply newest_unique; [|exact Ho']. destruct o as [v|]; simpl in *.
  2:{ intros m Hm. rewrite Hr', Ho by done. by case_bool_decide. }
  destruct Ho as (m & Hm & E & Hx). exists m. split_and!; [lia|lia| |].
  2:{ intros m' Hm'. rewrite Hr', Hx by done. by case_bool_decide. }
  rewrite Hr', bool_decide_false; [done|]. eapply newest_stays; eauto; lia.
Qed.
(** The entry a read value comes from stays. *)
Lemma read_stays r col blk n k v :
  versioned (cf_col col) = true → versioned_keys (contents r (cf_col col)) →
  length k = HashLength → 0 <= n < BlockNumberNIL → blk <= n + 1 →
  block_state_reader_Get r n (cf_col col) k = Some v →
  ∃ key, (key, v) ∈ Iterate r (cf_col col) ∧ key ∉ values_to_prune blk (Iterate r (cf_col col)).
Proof.
  intros Hc Hk Hlen Hn Hblk Hg. destruct (read_versioned r (cf_col col) k n Hc Hk Hlen Hn) as (o & Ho & E).
  rewrite E in Hg. destruct o as [v'|]; [|done]. simpl in Hg. assert (v' = v) as -> by (destruct v' as [|? ?]; simpl in Hg; congruence).
  destruct Ho as (m & Hm & Em & Hx). exists (vkey k m). split; [by apply iterate_law|].
  eapply newest_stays; eauto; lia.
Qed.

Lemma roots_to_keep_spec blk l d p keep d' :
  roots_to_keep blk l d = (Ret (p, keep), d') →
  d' = d ∧ p = values_to_prune blk l ∧
  ∀ key v acc h, (key, v) ∈ l → key ∉ values_to_prune blk l →
    DecodeAccountFromTrie v = Ret acc → db_StorageRootHash acc = Some h → h ∈ keep.
Proof.
  revert p keep d'. induction l as [|[k v] l IH]; intros p keep d' E.
  { injection E as <- <- <-. split_and!; [done..|]. by intros ? ? ? ? ?%not_elem_of_nil. }
  cbn [roots_to_keep] in E. apply bind_ret_inv in E as (acc & d1 & Ea & E).
  injection Ea as Ea <-. apply bind_ret_inv in E as ([p1 keep1] & d2 & E1 & E).
  destruct (IH _ _ _ E1) as (-> & -> & Hkeep).
  set (root := match db_StorageRootHash acc with Some h => [h] | None => [] end) in E.
  assert (∀ acc' h, DecodeAccountFromTrie v = Ret acc' → db_StorageRootHash acc' = Some h → h ∈ root) as Hroot.
  { intros acc' h Ea' Eh. rewrite Ea in Ea'. injection Ea' as <-. unfold root. rewrite Eh. by left. }
  destruct l as [|[k' v'] l]; [|set (l' := (k', v') :: l) in *].
  { injection E as <- <- <-. split_and!; [done..|].
    intros key w acc' h [[= -> ->]|?%not_elem_of_nil]%elem_of_cons _ Ea' Eh; [|done].
    apply elem_of_app. left. by eapply Hroot. }
  change (values_to_prune blk ((k, v) :: l')) with
    ((if bool_decide (prefix_of k = prefix_of k') && (version_of k' <? blk) then [k] else []) ++
     values_to_prune blk l').
  unfold l' in E at 1. destruct (_ && _); injection E as <- <- <-; (split_and!; [done..|]);
    intros key w acc' h Hin Hn Ea' Eh; apply elem_of_cons in Hin as [[= -> ->]|Hin].
  - destruct Hn. by left.
  - eapply Hkeep; [done| |done..]. intros ?. destruct Hn. by right.
  - apply elem_of_app. left. by eapply Hroot.
  - apply elem_of_app. right. eapply Hkeep; [done| |done..]. done.
Qed.

(** * The three tasks *)
Context `{Keccak}.

(** Everything but the database is kept. *)
Definition same_but (c : list cf) (d d' : DB R) : Prop :=
  (∀ c', c' ∉ c → contents (db d') c' = contents (db d) c') ∧ d' = set_db (db d') d.
Lemma same_but_trans c1 c2 d1 d2 d3 : same_but c1 d1 d2 → same_but c2 d2 d3 → same_but (c1 ++ c2) d1 d3.
Proof.
  intros [A1 E1] [A2 E2]. split.
  - intros c Hc. rewrite not_elem_of_app in Hc. rewrite A2, A1; tauto.
  - rewrite E2, E1. done.
Qed.
Lemma delete_all_spec c keys d u d' : delete_all c keys d = (Ret u, d') →
  same_but [c] d d' ∧
  ∀ key, contents (db d') c !! key = if bool_decide (key ∈ keys) then None else contents (db d) c !! key.
Proof.
  intros [= _ <-]. split; [split|].
  - intros c' Hc. rewrite list_elem_of_singleton in Hc. apply map_eq. intros key. simpl.
    rewrite contents_delete_all. by rewrite bool_decide_false by tauto.
  - done.
  - intros key. simpl. rewrite contents_delete_all.
    assert (bool_decide (c = c ∧ key ∈ keys) = bool_decide (key ∈ keys)) as ->; [|done].
    apply bool_decide_ext. tauto.
Qed.
Lemma entries_spec c d l d' : entries_of c d = (Ret l, d') → d' = d ∧ l = Iterate (db d) c.
Proof. unfold entries_of. destruct (Iterate (db d) c); intros [= <- <-]; done. Qed.
Lemma RecreateColumn_spec c nodes d u d' : RecreateColumn c nodes d = (Ret u, d') →
  same_but [cf_col c] d d' ∧
  ∀ h, match contents (db d') (cf_col c) !! h with
       | Some b => (h, b) ∈ nodes | None => ∀ b, (h, b) ∉ nodes end.
Proof.
  intros [= _ <-]. set (r0 := CreateColumnFamily _ _).
  assert (∀ c', contents r0 c' = if bool_decide (c' = cf_col c) then ∅ else contents (db d) c') as H0'.
  { intros c'. unfold r0. apply create_law. }
  clearbody r0. simpl. assert (∀ c', contents (foldl (λ r kv, PutCF (cf_col c) kv.1 kv.2 r) r0 nodes) c' =
    if bool_decide (c' = cf_col c) then foldl (λ m kv, <[kv.1 := kv.2]> m) ∅ nodes else contents (db d) c') as Hc.
  { induction nodes as [|kv nodes IH] using rev_ind; intros c'; [by rewrite H0'|].
    rewrite !foldl_app. simpl. rewrite put_law, IH. by destruct (bool_decide (c' = cf_col c)). }
  split; [split; [|done]|].
  - intros c' Hn. rewrite list_elem_of_singleton in Hn. simpl. rewrite Hc. by rewrite bool_decide_false.
  - intros h. rewrite Hc, bool_decide_true by done. clear. induction nodes as [|[k b] nodes IH] using rev_ind.
    { simpl. rewrite lookup_empty. by intros b ?%not_elem_of_nil. }
    rewrite foldl_app. simpl.
    destruct (decide (h = k)) as [->|Hne].
    { rewrite lookup_insert_eq. apply elem_of_app. right. by left. }
    rewrite lookup_insert_ne by done. destruct (_ !! h) as [b'|]; [by apply elem_of_app; left|].
    intros b' [?|[= ]%list_elem_of_singleton]%elem_of_app; [by eapply IH|done].
Qed.

(** The listing of the nodes gives what the store has under their hashes. *)
Lemma resolve_read `{Schema} {V} (db_tx : Trie.Input) {St} h pre (st st' : St) (n : node V) b :
  resolve db_tx h pre st = (Ret (n, b), st') → GetNode db_tx h = Some b.
Proof.
  unfold resolve. destruct (GetNode db_tx h) as [b'|]; [|done].
  intros ([m r] & s1 & _ & E)%bind_ret_inv. destruct m; try done; by injection E as _ -> _.
Qed.
Lemma nodes_read `{Schema} {V} (db_tx : Trie.Input) {St} fuel : ∀ (n : node V) pre (st st' : St) l,
  for_each_node_hash db_tx fuel n pre st = (Ret l, st') → ∀ h b, (h, b) ∈ l → GetNode db_tx h = Some b.
Proof.
  induction fuel as [|fuel IH]; [done|]. intros n pre st st' l E. destruct n as [|children h|kp val h|h|v]; try done.
  - cbn [for_each_node_hash] in E. revert st st' l E. generalize 0.
    induction children as [|c cs IHc]; intros i st st' l E.
    { injection E as <- _. by intros ? ? ?%not_elem_of_nil. }
    assert (c = nil_node ∨ ∃ l1 s1 l2, for_each_node_hash db_tx fuel c (pre ++ [i]) st = (Ret l1, s1) ∧
      l = l1 ++ l2 ∧ ∀ h b, (h, b) ∈ l2 → GetNode db_tx h = Some b) as [-> |(l1 & s1 & l2 & E1 & -> & Hl2)].
    { destruct c; [by left|..]; right; apply bind_ret_inv in E as (l1 & s1 & E1 & E);
        apply bind_ret_inv in E as (l2 & s2 & E2 & [= <- _]); exists l1, s1, l2;
        (split_and!; [done..|]); by eapply IHc. }
    + by eapply IHc.
    + intros h' b [Hin|Hin]%elem_of_app; [by eapply IH|by apply Hl2].
  - cbn [for_each_node_hash] in E. destruct val; try (by eapply IH).
    injection E as <- _. by intros ? ? ?%not_elem_of_nil.
  - cbn [for_each_node_hash] in E. apply bind_ret_inv in E as ([m b] & s1 & Er & E).
    apply bind_ret_inv in E as (l1 & s2 & El & [= <- _]). intros h' b' [[= -> ->]|Hin]%elem_of_cons.
    + by eapply resolve_read.
    + by eapply IH.
Qed.
Lemma nodes_of_roots_spec f roots : ∀ d l d', nodes_of_roots (R := R) f roots d = (Ret l, d') →
  d' = d ∧ (∀ h, h ∈ roots → ∃ l', f (Some h) = Ret l' ∧ ∀ x, x ∈ l' → x ∈ l) ∧
  ∀ x, x ∈ l → ∃ h l', h ∈ roots ∧ f (Some h) = Ret l' ∧ x ∈ l'.
Proof.
  induction roots as [|h roots IH]; intros d l d' E.
  { injection E as <- <-. split_and!; [done|by intros ? ?%not_elem_of_nil..]. }
  cbn [nodes_of_roots] in E. apply bind_ret_inv in E as (l1 & d1 & [= E1 <-] & E).
  apply bind_ret_inv in E as (l2 & d2 & E2 & [= <- <-]). destruct (IH _ _ _ E2) as (-> & Hin & Hout).
  split_and!; [done| |].
  - intros h' [->|Hh]%elem_of_cons.
    + exists l1. split; [done|]. intros x Hx. apply elem_of_app. by left.
    + destruct (Hin h' Hh) as (l' & El & Hl). exists l'. split; [done|]. intros x Hx.
      apply elem_of_app. right. auto.
  - intros x [Hx|Hx]%elem_of_app.
    + exists h, l1. split_and!; [by left|done..].
    + destruct (Hout x Hx) as (h' & l' & Hh & ? & ?). exists h', l'. split_and!; [by right|done..].
Qed.
Lemma reader_spec blk d get d' : GetBlockStateReader blk d = (Ret get, d') →
  d' = d ∧ get = DB_GetBlockStateReader d blk.
Proof. unfold GetBlockStateReader. by destruct (_ <? _); intros [= <- <-]. Qed.
End prune.

(** * Listings that read the same *)
Lemma decodeNibbles_length nibbles out r : decodeNibbles nibbles out = Ret r → length r = length out.
Proof.
  revert nibbles r. induction out as [|o out IH]; intros [|a [|b l]] r; simpl; try done;
    try (by intros [= <-]).
  destruct (decodeNibbles l out) as [l'| |] eqn:E; try done. intros [= <-]. simpl. f_equal. by eapply IH.
Qed.
Section same_reads.
Context `{Keccak} `{Schema} {V : Type} (db1 db2 : Trie.Input) {St : Type}.
(** The second store has the values of the first. *)
Context (Hval : ∀ k, length k = HashLength → GetValue db2 k = GetValue db1 k).

Lemma resolve_val_same hex_key (st : St) :
  resolve_val_n_by_hex_k (V := V) db2 hex_key st = resolve_val_n_by_hex_k db1 hex_key st.
Proof.
  unfold resolve_val_n_by_hex_k, mbind, M_bind, of_outcome, hex_to_keybytes.
  destruct (negb _); [done|]. destruct (decodeNibbles _ _) as [k| |] eqn:E; try done.
  apply decodeNibbles_length in E. unfold resolve_val_n. by rewrite Hval.
Qed.
Lemma bind_same {A B} (m1 m2 : M St A) (k1 k2 : A → M St B) st :
  m2 st = m1 st → (∀ a s, k2 a s = k1 a s) → (m2 ≫= k2) st = (m1 ≫= k1) st.
Proof. intros E Hk. unfold mbind, M_bind. rewrite E. destruct (m1 st) as [[a| |] s]; [apply Hk|done|done]. Qed.
Lemma dec_leaf_same kp h ext content (st : St) :
  dec_leaf (V := V) db2 kp h ext content st = dec_leaf db1 kp h ext content st.
Proof.
  unfold dec_leaf. destruct content; [|done]. apply bind_same; [apply resolve_val_same|done].
Qed.
Lemma dec_children_same (d1 d2 : bytes → option hash → bytes → M St (node V * bytes)) kp n :
  (∀ p h b s, d2 p h b s = d1 p h b s) →
  ∀ i enc st, dec_children d2 kp i n enc st = dec_children d1 kp i n enc st.
Proof.
  intros Hd. induction n as [|n IH]; intros i enc st; [done|]. cbn [dec_children].
  apply bind_same; [apply Hd|]. intros [c e] s. by apply bind_same.
Qed.
Lemma dec_node_same fuel : ∀ kp h buf (st : St),
  dec_node (V := V) db2 fuel kp h buf st = dec_node db1 fuel kp h buf st.
Proof.
  induction fuel as [|fuel IH]; intros kp h buf st; [done|]. cbn [dec_node].
  apply bind_same; [done|]. intros [[kind tagsize] total] s. destruct kind; [done|done|].
  apply bind_same; [done|]. intros size s'. destruct (_ || _).
  - apply bind_same; [|done]. unfold dec_short. apply bind_same; [done|]. intros [ext content] s1.
    apply bind_same; [done|]. intros k s2. destruct (hasTerm k); [apply dec_leaf_same|].
    apply bind_same; [apply IH|done].
  - destruct (_ =? _); [|done]. apply bind_same; [|done]. unfold dec_full.
    apply bind_same; [|done]. by apply dec_children_same.
Qed.
Lemma resolve_same h pre (st st' : St) (n : node V) b :
  resolve db1 h pre st = (Ret (n, b), st') → GetNode db2 h = Some b →
  resolve db2 h pre st = (Ret (n, b), st').
Proof.
  intros E Hn. pose proof (resolve_read _ _ _ _ _ _ _ E) as Hn1. rewrite <-E. unfold resolve.
  rewrite Hn, Hn1. apply bind_same; [apply dec_node_same|done].
Qed.
(** A listing that runs on the first runs on the second when that has the nodes it lists. *)
Lemma nodes_same fuel : ∀ (n : node V) pre (st st' : St) l,
  for_each_node_hash db1 fuel n pre st = (Ret l, st') →
  (∀ h b, (h, b) ∈ l → GetNode db2 h = Some b) →
  for_each_node_hash db2 fuel n pre st = (Ret l, st').
Proof.
  induction fuel as [|fuel IH]; [done|]. intros n pre st st' l E. destruct n as [|children h|kp val h|h|v]; try done.
  - cbn [for_each_node_hash] in *. revert st st' l E. generalize 0.
    induction children as [|c cs IHc]; intros i st st' l E Hin; [done|].
    destruct c; [by apply IHc|..]; apply bind_ret_inv in E as (l1 & s1 & E1 & E);
      apply bind_ret_inv in E as (l2 & s2 & E2 & [= <- <-]);
      (assert (∀ h b, (h, b) ∈ l1 → GetNode db2 h = Some b) as Hin1
        by (intros h' b' ?; apply Hin, elem_of_app; by left));
      (assert (∀ h b, (h, b) ∈ l2 → GetNode db2 h = Some b) as Hin2
        by (intros h' b' ?; apply Hin, elem_of_app; by right));
      rewrite (bind_run _ _ _ _ _ (IH _ _ _ _ _ E1 Hin1)); cbv beta;
      by rewrite (bind_run _ _ _ _ _ (IHc _ _ _ _ E2 Hin2)).
  - cbn [for_each_node_hash] in *. destruct val; try (by apply IH). done.
  - cbn [for_each_node_hash] in *. apply bind_ret_inv in E as ([m b] & s1 & Er & E).
    apply bind_ret_inv in E as (l1 & s2 & El & [= <- <-]). intros Hin.
    rewrite (bind_run _ _ _ _ _ (resolve_same _ _ _ _ _ _ Er (Hin _ _ ltac:(by left)))). cbv beta iota.
    rewrite (bind_run _ _ _ _ _ (IH _ _ _ _ _ El ltac:(intros h' b' ?; apply Hin; by right))). done.
Qed.
End same_reads.

Section theorem.
Context {R : Type} `{RocksLaws R} `{Keccak}.
Context (Hhash : ∀ b, length (keccak b) = HashLength).
Implicit Types (d : DB R).

(** A column of nodes made anew from listings that ran on the old one. *)
Lemma kept_nodes (f : db_Get → option hash → outcome (list (hash * bytes))) (c : Column)
    (get get' : db_Get) (roots : list hash) (nodes : list (hash * bytes)) :
  (∀ root l, f get (Some root) = Ret l → ∀ h b, (h, b) ∈ l → get c h = Some b) →
  (∀ root l, f get (Some root) = Ret l →
     (∀ h b, (h, b) ∈ l → get' c h = Some b) → f get' (Some root) = Ret l) →
  (∀ h, h ∈ roots → ∃ l', f get (Some h) = Ret l' ∧ ∀ x, x ∈ l' → x ∈ nodes) →
  (∀ x, x ∈ nodes → ∃ h l', h ∈ roots ∧ f get (Some h) = Ret l' ∧ x ∈ l') →
  (∀ h b, (h, b) ∈ nodes → (∀ b', (h, b') ∈ nodes → b' = b) → b ≠ [] → get' c h = Some b) →
  (∀ h b, get c h = Some b → b ≠ []) →
  ∀ root, root ∈ roots → ∃ l, f get (Some root) = Ret l ∧ f get' (Some root) = Ret l.
Proof.
  intros Hread Hsame Hin Hout Hget Hne root Hroot. destruct (Hin root Hroot) as (l & El & Hl).
  exists l. split; [done|]. apply Hsame; [done|]. intros h b Hb.
  assert (∀ b', (h, b') ∈ nodes → get c h = Some b') as Hall.
  { intros b' (root' & l' & _ & El' & Hb')%Hout. by eapply Hread. }
  pose proof (Hall b (Hl _ Hb)) as Eb. apply Hget; [by apply Hl| |by eapply Hne].
  intros b' Hb'%Hall. congruence.
Qed.
Lemma reader_nonempty (r : R) n c k b : block_state_reader_Get r n c k = Some b → b ≠ [].
Proof.
  unfold block_state_reader_Get. destruct (n =? _); [done|]. destruct (versioned c).
  - destruct (SeekForPrev _ _ _) as [[k' v]|]; [|done]. destruct (HasPrefix _ _); [|done].
    destruct v; [done|]. by intros [= <-].
  - destruct (GetCF r c k) as [[|]|]; by intros [= <-].
Qed.
Lemma recreated_get c (nodes : list (hash * bytes)) d d0 n h b :
  versioned (cf_col c) = false → n ≠ BlockNumberNIL →
  (∀ h, match contents (db d) (cf_col c) !! h with
        | Some b => (h, b) ∈ nodes | None => ∀ b, (h, b) ∉ nodes end) →
  contents (db d0) (cf_col c) = contents (db d) (cf_col c) →
  (h, b) ∈ nodes → (∀ b', (h, b') ∈ nodes → b' = b) → b ≠ [] →
  DB_GetBlockStateReader d0 n c h = Some b.
Proof.
  intros Hc Hn Hnodes E Hin Hu Hne. unfold DB_GetBlockStateReader. rewrite read_plain, E by done.
  specialize (Hnodes h). destruct (contents (db d) (cf_col c) !! h) as [b'|].
  - rewrite (Hu b' Hnodes). by destruct b.
  - by destruct (Hnodes b).
Qed.

Lemma run_pure_ret {A} (m : M unit A) a : run_pure m = Ret a ↔ m tt = (Ret a, tt).
Proof. unfold run_pure. destruct (m tt) as [o []]. simpl. split; congruence. Qed.
Lemma ForEachNodeHash_eq `{Schema} {V} (i : Trie.Input) root (st : unit) :
  ForEachNodeHash (V := V) i root st = for_each_node_hash (V := V) i (2 * HexKeyLen + 2) (node_hash root) [] st.
Proof. reflexivity. Qed.
Lemma listing_ret `{Schema} {V} (i : Trie.Input) root l :
  run_pure (ForEachNodeHash (V := V) i root) = Ret l →
  for_each_node_hash (V := V) i (2 * HexKeyLen + 2) (node_hash root) [] tt = (Ret l, tt).
Proof. rewrite run_pure_ret, ForEachNodeHash_eq. exact id. Qed.
Lemma ret_listing `{Schema} {V} (i : Trie.Input) root l :
  for_each_node_hash (V := V) i (2 * HexKeyLen + 2) (node_hash root) [] tt = (Ret l, tt) →
  run_pure (ForEachNodeHash (V := V) i root) = Ret l.
Proof. rewrite run_pure_ret, ForEachNodeHash_eq. exact id. Qed.
Lemma listing_read `{Schema} {V} (i : Trie.Input) root l :
  run_pure (ForEachNodeHash (V := V) i root) = Ret l → ∀ h b, (h, b) ∈ l → GetNode i h = Some b.
Proof. intros E%listing_ret. revert E. generalize (2 * HexKeyLen + 2)%nat. intros fuel E. by eapply nodes_read. Qed.
Lemma listing_same `{Schema} {V} (i i' : Trie.Input) root l :
  (∀ k, length k = HashLength → GetValue i' k = GetValue i k) →
  run_pure (ForEachNodeHash (V := V) i root) = Ret l →
  (∀ h b, (h, b) ∈ l → GetNode i' h = Some b) → run_pure (ForEachNodeHash (V := V) i' root) = Ret l.
Proof.
  intros Hv E%listing_ret Hn. apply ret_listing. revert E. generalize (2 * HexKeyLen + 2)%nat.
  intros fuel E. by eapply nodes_same.
Qed.
Lemma main_listing get root : ForEachMainNodeHashByRoot get (Some root) =
  run_pure (ForEachNodeHash (H0 := MainTrieSchema) (V := DbAccount) (MainTrieInputAdapter get) root).
Proof. reflexivity. Qed.
Lemma acc_listing get root : ForEachAccountNodeHashByRoot get (Some root) =
  run_pure (ForEachNodeHash (H0 := AccountTrieSchema) (V := acc_storage_trie_value)
    (AccountTrieInputAdapter ZeroAddress get) root).
Proof. reflexivity. Qed.
Lemma read_ext r r' c n k : contents r' c = contents r c → (versioned c = true → versioned_keys (contents r c)) →
  length k = HashLength → 0 <= n < BlockNumberNIL →
  block_state_reader_Get r' n c k = block_state_reader_Get (R := R) r n c k.
Proof.
  intros E Hk Hlen Hn. destruct (versioned c) eqn:Ev.
  - destruct (read_versioned r c k n Ev (Hk eq_refl) Hlen Hn) as (o & Ho & ->).
    destruct (read_versioned r' c k n Ev ltac:(rewrite E; auto) Hlen Hn) as (o' & Ho' & ->).
    rewrite E in Ho'. f_equal. by eapply newest_unique.
  - rewrite !read_plain by (done || lia). by rewrite E.
Qed.
(** The columns of values after the deletions of [r]'s entries. *)
Definition deleted_from (col : Column) (blk : Z) (r0 r r' : R) : Prop :=
  contents r (cf_col col) = contents r0 (cf_col col) ∧
  ∀ key, contents r' (cf_col col) !! key =
    if bool_decide (key ∈ values_to_prune blk (Iterate r (cf_col col))) then None
    else contents r (cf_col col) !! key.
Lemma deleted_reads col blk r0 r r' n k :
  deleted_from col blk r0 r r' → versioned (cf_col col) = true → versioned_keys (contents r0 (cf_col col)) →
  length k = HashLength → 0 <= n < BlockNumberNIL → blk <= n + 1 →
  block_state_reader_Get r' n (cf_col col) k = block_state_reader_Get r0 n (cf_col col) k.
Proof.
  intros [E Hr'] Hc Hk Hlen Hn Hblk. rewrite (pruned_reads r r' col blk); try done; [|by rewrite E].
  by apply read_ext.
Qed.

(** What [Prune] has done when it returns: the two databases in between, the nodes put back. *)
Record pruning (d d' : DB R) (roots : list hash) (blk : Z) (r1 r2 : R)
    (main_kept acc_kept : list (hash * bytes)) (storage_roots : list hash) : Prop := {
  pr_rest : d' = set_db (db d') d;
  pr_code : contents (db d') (cf_col COL_code) = contents (db d) (cf_col COL_code);
  pr_acc : deleted_from COL_acc_trie_value blk (db d) (db d) r1;
  pr_main : deleted_from COL_main_trie_value blk (db d) r2 (db d');
  pr_1 c : c ≠ acc_values → contents r1 c = contents (db d) c;
  pr_2 c : c ≠ main_nodes → contents r2 c = contents r1 c;
  pr_3 c : c ≠ main_values → c ≠ acc_nodes → contents (db d') c = contents r2 c;
  pr_main_nodes : ∀ h, match contents (db d') main_nodes !! h with
    | Some b => (h, b) ∈ main_kept | None => ∀ b, (h, b) ∉ main_kept end;
  pr_acc_nodes : ∀ h, match contents (db d') acc_nodes !! h with
    | Some b => (h, b) ∈ acc_kept | None => ∀ b, (h, b) ∉ acc_kept end;
  pr_main_kept :
    let get : db_Get := λ col k, block_state_reader_Get r1 blk (cf_col col) k in
    (∀ h, h ∈ roots → ∃ l', ForEachMainNodeHashByRoot get (Some h) = Ret l' ∧ ∀ x, x ∈ l' → x ∈ main_kept) ∧
    ∀ x, x ∈ main_kept → ∃ h l', h ∈ roots ∧ ForEachMainNodeHashByRoot get (Some h) = Ret l' ∧ x ∈ l';
  pr_acc_kept :
    let get : db_Get := λ col k, block_state_reader_Get r2 blk (cf_col col) k in
    (∀ h, h ∈ storage_roots → ∃ l', ForEachAccountNodeHashByRoot get (Some h) = Ret l' ∧
       ∀ x, x ∈ l' → x ∈ acc_kept) ∧
    ∀ x, x ∈ acc_kept → ∃ h l', h ∈ storage_roots ∧
      ForEachAccountNodeHashByRoot get (Some h) = Ret l' ∧ x ∈ l';
  pr_roots : ∀ key v acc h, (key, v) ∈ Iterate r2 main_values →
    key ∉ values_to_prune blk (Iterate r2 main_values) →
    DecodeAccountFromTrie v = Ret acc → db_StorageRootHash acc = Some h → h ∈ storage_roots
}.
Lemma Prune_does d d' roots blk u :
  Prune roots blk d = (Ret u, d') →
  ∃ r1 r2 main_kept acc_kept storage_roots, pruning d d' roots blk r1 r2 main_kept acc_kept storage_roots.
Proof.
  intros ([] & d1 & E1 & E)%bind_ret_inv. apply bind_ret_inv in E as ([] & d2 & E2 & E3).
  apply bind_ret_inv in E1 as (l1 & x1 & [-> ->]%entries_spec & [[S1 R1] D1]%delete_all_spec).
  apply bind_ret_inv in E2 as (get1 & x2 & [-> ->]%reader_spec & E2).
  apply bind_ret_inv in E2 as (mk & x3 & (-> & K1 & K2)%nodes_of_roots_spec & [[S2 R2] D2]%RecreateColumn_spec).
  apply bind_ret_inv in E3 as (get2 & x4 & [-> ->]%reader_spec & E3).
  apply bind_ret_inv in E3 as (l2 & x5 & [-> ->]%entries_spec & E3).
  apply bind_ret_inv in E3 as ([p keep] & x6 & (-> & -> & Hkeep)%roots_to_keep_spec & E3).
  apply bind_ret_inv in E3 as ([] & d3 & [[S3 R3] D3]%delete_all_spec & E3).
  apply bind_ret_inv in E3 as (ak & x7 & (-> & K3 & K4)%nodes_of_roots_spec & [[S4 R4] D4]%RecreateColumn_spec).
  setoid_rewrite list_elem_of_singleton in S1. setoid_rewrite list_elem_of_singleton in S2.
  setoid_rewrite list_elem_of_singleton in S3. setoid_rewrite list_elem_of_singleton in S4.
  exists (db d1), (db d2), mk, ak, keep. constructor.
  - by rewrite R4, R3, R2, R1.
  - by rewrite S4, S3, S2, S1.
  - by split.
  - split; [by rewrite S2, S1|]. intros key. rewrite S4 by done. apply D3.
  - done.
  - done.
  - intros c H1' H2'. by rewrite S4, S3.
  - intros h'. rewrite S4, S3 by done. apply D2.
  - apply D4.
  - by split.
  - by split.
  - exact Hkeep.
Qed.

Lemma versioned_cases col : versioned (cf_col col) = true →
  col = COL_acc_trie_value ∨ col = COL_main_trie_value.
Proof. destruct col; auto; done. Qed.
Lemma pruning_reads d d' h roots blk r1 r2 mk ak sr n col k :
  stands d h → pruning d d' roots blk r1 r2 mk ak sr → 0 <= n < BlockNumberNIL → blk <= n + 1 →
  col = COL_code ∨ versioned (cf_col col) = true → length k = HashLength →
  DB_GetBlockStateReader d' n col k = DB_GetBlockStateReader d n col k ∧
  DB_GetBlockStateReader (set_db r2 d) n col k = DB_GetBlockStateReader d n col k.
Proof.
  intros Hs [_ Hcode Hacc Hmain H1' H2' H3' _ _ _ _ _] Hn Hblk Hcol Hk.
  pose proof (holds_keys _ _ _ (stands_holds _ _ Hs)) as Hkeys. unfold DB_GetBlockStateReader. cbn [set_db db].
  destruct Hcol as [->|Hv].
  { split; apply read_ext; try done. by rewrite H2', H1'. }
  destruct (versioned_cases col Hv) as [-> | ->].
  - assert (∀ r', contents r' acc_values = contents r1 acc_values →
      block_state_reader_Get r' n acc_values k = block_state_reader_Get (db d) n acc_values k) as Hx.
    { intros r' E. apply (deleted_reads COL_acc_trie_value blk (db d) (db d)); try done; [|by apply Hkeys].
      split; [done|]. rewrite E. by destruct Hacc. }
    split; apply Hx; [by rewrite H3', H2'|by rewrite H2'].
  - split.
    + eapply deleted_reads; eauto.
    + apply read_ext; try done; [by rewrite H2', H1'|]. intros _. by apply Hkeys.
Qed.
Lemma pruning_main_nodes d d' h roots blk r1 r2 mk ak sr :
  stands d h → pruning d d' roots blk r1 r2 mk ak sr → 0 <= blk < BlockNumberNIL →
  ∀ root, root ∈ roots → ∃ l,
    ForEachMainNodeHashByRoot (DB_GetBlockStateReader d blk) (Some root) = Ret l ∧
    ForEachMainNodeHashByRoot (DB_GetBlockStateReader d' blk) (Some root) = Ret l.
Proof.
  intros Hs Hp Hn root Hroot. pose proof (λ col k, pruning_reads d d' h roots blk r1 r2 mk ak sr blk col k Hs Hp Hn
    ltac:(lia)) as Hreads. destruct Hp as [_ _ Hacc _ H1' H2' H3' Hmn _ [Hin Hout] _ _]. cbv zeta in *.
  set (get1 := λ col k, block_state_reader_Get r1 blk (cf_col col) k) in *.
  assert (∀ k, get1 COL_main_trie_node k = DB_GetBlockStateReader d blk COL_main_trie_node k) as Hnode.
  { intros k. unfold get1, DB_GetBlockStateReader. rewrite !read_plain by (done || lia). by rewrite H1'. }
  assert (∀ k, length k = HashLength → get1 COL_main_trie_value k = DB_GetBlockStateReader d blk COL_main_trie_value k)
    as Hval.
  { intros k Hk. unfold get1, DB_GetBlockStateReader. apply read_ext; [by apply H1'|intros _|done|done].
    by apply (holds_keys _ _ _ (stands_holds _ _ Hs)). }
  assert (∃ l, ForEachMainNodeHashByRoot get1 (Some root) = Ret l ∧
    ForEachMainNodeHashByRoot (DB_GetBlockStateReader d' blk) (Some root) = Ret l) as (l & El & El').
  { apply (kept_nodes ForEachMainNodeHashByRoot COL_main_trie_node get1 (DB_GetBlockStateReader d' blk) roots mk);
      [| |exact Hin|exact Hout| | |exact Hroot].
    - intros rt l E. rewrite main_listing in E. exact (listing_read _ _ _ E).
    - intros rt l E Hb. rewrite main_listing in *. eapply listing_same; [|exact E|exact Hb].
      intros k Hk. cbn [GetValue MainTrieInputAdapter]. rewrite Hval by done. by apply Hreads; [right|].
    - intros h' b Hb Hu Hne. eapply (recreated_get COL_main_trie_node mk); [done|lia|exact Hmn|done..].
    - intros h' b. apply reader_nonempty. }
  exists l. split; [|exact El']. rewrite main_listing in *. eapply listing_same; [|exact El|].
  - intros k Hk. cbn [GetValue MainTrieInputAdapter]. by rewrite Hval.
  - intros h' b Hb. cbn [GetNode MainTrieInputAdapter]. rewrite <-Hnode. exact (listing_read _ _ _ El _ _ Hb).
Qed.
Lemma pruning_acc_nodes d d' h roots blk r1 r2 mk ak sr :
  stands d h → pruning d d' roots blk r1 r2 mk ak sr → 0 <= blk < BlockNumberNIL →
  ∀ root, root ∈ sr → ∃ l,
    ForEachAccountNodeHashByRoot (DB_GetBlockStateReader d blk) (Some root) = Ret l ∧
    ForEachAccountNodeHashByRoot (DB_GetBlockStateReader d' blk) (Some root) = Ret l.
Proof.
  intros Hs Hp Hn root Hroot. pose proof (λ col k, pruning_reads d d' h roots blk r1 r2 mk ak sr blk col k Hs Hp Hn
    ltac:(lia)) as Hreads. destruct Hp as [_ _ Hacc _ H1' H2' H3' _ Han _ [Hin Hout] _]. cbv zeta in *.
  set (get2 := λ col k, block_state_reader_Get r2 blk (cf_col col) k) in *.
  assert (∀ k, get2 COL_acc_trie_node k = DB_GetBlockStateReader d blk COL_acc_trie_node k) as Hnode.
  { intros k. unfold get2, DB_GetBlockStateReader. rewrite !read_plain by (done || lia). by rewrite H2', H1'. }
  assert (∀ k, length (acc_trie_db_key ZeroAddress k) = HashLength) as Hlen by (intros k; apply Hhash).
  assert (∀ k, get2 COL_acc_trie_value (acc_trie_db_key ZeroAddress k) =
    DB_GetBlockStateReader d blk COL_acc_trie_value (acc_trie_db_key ZeroAddress k)) as Hval.
  { intros k. exact (proj2 (Hreads COL_acc_trie_value _ (or_intror eq_refl) (Hlen k))). }
  assert (∃ l, ForEachAccountNodeHashByRoot get2 (Some root) = Ret l ∧
    ForEachAccountNodeHashByRoot (DB_GetBlockStateReader d' blk) (Some root) = Ret l) as (l & El & El').
  { apply (kept_nodes ForEachAccountNodeHashByRoot COL_acc_trie_node get2 (DB_GetBlockStateReader d' blk) sr ak);
      [| |exact Hin|exact Hout| | |exact Hroot].
    - intros rt l E. rewrite acc_listing in E. exact (listing_read _ _ _ E).
    - intros rt l E Hb. rewrite acc_listing in *. eapply listing_same; [|exact E|exact Hb].
      intros k Hk. cbn [GetValue AccountTrieInputAdapter]. rewrite Hval. by apply Hreads; [right|].
    - intros h' b Hb Hu Hne. eapply (recreated_get COL_acc_trie_node ak); [done|lia|exact Han|done..].
    - intros h' b. apply reader_nonempty. }
  exists l. split; [|exact El']. rewrite acc_listing in *. eapply listing_same; [|exact El|].
  - intros k Hk. cbn [GetValue AccountTrieInputAdapter]. by rewrite Hval.
  - intros h' b Hb. cbn [GetNode AccountTrieInputAdapter]. rewrite <-Hnode. exact (listing_read _ _ _ El _ _ Hb).
Qed.

(** C15: prune_keeps_blocks.  When [Prune] below block [blk] returns, the descriptor is what it
    was, and a reader at any committed block from the one before [blk] on finds for every key of
    the accounts, of their storage and of the code what it found before; the nodes of the main
    tries of the roots that were to be kept, and of the storage trie of every account that such a
    block has, are listed as before, with the same bytes. *)
Theorem prune_keeps_blocks d h roots blk d' :
  stands d h → Prune roots blk d = (Ret tt, d') → 0 <= blk < Z.of_nat (length h) →
  GetCommittedDescriptor d' = GetCommittedDescriptor d ∧
  (∀ n col k, blk <= Z.of_nat n + 1 → (n < length h)%nat → length k = HashLength →
     col = COL_code ∨ versioned (cf_col col) = true →
     DB_GetBlockStateReader d' (Z.of_nat n) col k = DB_GetBlockStateReader d (Z.of_nat n) col k) ∧
  (∀ root, root ∈ roots → ∃ l,
     ForEachMainNodeHashByRoot (DB_GetBlockStateReader d blk) (Some root) = Ret l ∧
     ForEachMainNodeHashByRoot (DB_GetBlockStateReader d' blk) (Some root) = Ret l) ∧
  (∀ n addr acc root, blk <= Z.of_nat n + 1 → (n < length h)%nat →
     GetAccount (DB_GetBlockStateReader d (Z.of_nat n)) addr = Ret (Some acc) →
     db_StorageRootHash acc = Some root → ∃ l,
     ForEachAccountNodeHashByRoot (DB_GetBlockStateReader d blk) (Some root) = Ret l ∧
     ForEachAccountNodeHashByRoot (DB_GetBlockStateReader d' blk) (Some root) = Ret l).
Proof.
  intros Hs Hp Hblk. apply Prune_does in Hp as (r1 & r2 & mk & ak & sr & Hp).
  assert (∀ n, (n < length h)%nat → 0 <= Z.of_nat n < BlockNumberNIL) as Hn.
  { pose proof (proj1 (stands_ok _ _ Hs)). lia. }
  assert (0 <= blk < BlockNumberNIL) as Hb by (pose proof (proj1 (stands_ok _ _ Hs)); lia).
  split_and!.
  - by rewrite (pr_rest _ _ _ _ _ _ _ _ _ Hp).
  - intros n col k Hbn Hlt Hk Hcol. by apply (pruning_reads d d' h roots blk r1 r2 mk ak sr); auto.
  - by eapply pruning_main_nodes.
  - intros n addr acc root Hbn Hlt Ha Hr. eapply pruning_acc_nodes; eauto.
    unfold GetAccount in Ha. destruct (GetRawAccount _ addr) as [v|] eqn:Ev; [|done].
    destruct (DecodeAccountFromTrie v) as [acc'| |] eqn:Ed; try done. injection Ha as ->.
    change (DB_GetBlockStateReader d (Z.of_nat n) COL_main_trie_value (keccak addr) = Some v) in Ev.
    rewrite <-(proj2 (pruning_reads d d' h roots blk r1 r2 mk ak sr (Z.of_nat n) COL_main_trie_value (keccak addr)
      Hs Hp (Hn n Hlt) Hbn (or_intror eq_refl) (Hhash addr))) in Ev.
    unfold DB_GetBlockStateReader in Ev. cbn [set_db db] in Ev.
    destruct (read_stays r2 COL_main_trie_value blk (Z.of_nat n) (keccak addr) v) as (key & Hin & Hno); auto.
    { rewrite (pr_2 _ _ _ _ _ _ _ _ _ Hp), (pr_1 _ _ _ _ _ _ _ _ _ Hp) by done.
      by apply (holds_keys _ _ _ (stands_holds _ _ Hs)). }
    by eapply (pr_roots _ _ _ _ _ _ _ _ _ Hp).
Qed.
End theorem.

(** * An account that was deleted *)
Lemma roots_to_keep_empty {R} `{RocksLaws R} blk l (d : DB R) key x d' :
  (key, []) ∈ l → roots_to_keep blk l d ≠ (Ret x, d').
Proof.
  revert x d'. induction l as [|[k v] l IH]; intros x d'; [by intros ?%not_elem_of_nil|].
  intros [[= <- <-]|Hin]%elem_of_cons E; cbn [roots_to_keep] in E; [done|].
  apply bind_ret_inv in E as (acc & d1 & [= _ <-] & E). apply bind_ret_inv in E as ([p keep] & d2 & E & _).
  by eapply IH.
Qed.
(** C16: prune_fails_after_deletion.  The deletion of an account leaves an empty value under its
    key in the column of accounts, and pruning decodes every value of the column: from then on,
    whatever the roots and the block, it does not return normally. *)
Theorem prune_fails_after_deletion {R} `{RocksLaws R} `{Keccak} (d : DB R) roots blk key d' :
  contents (db d) (cf_col COL_main_trie_value) !! key = Some [] →
  Prune roots blk d ≠ (Ret tt, d').
Proof.
  intros Hk ([] & d1 & E1 & E)%bind_ret_inv. apply bind_ret_inv in E as ([] & d2 & E2 & E).
  apply bind_ret_inv in E1 as (l1 & x1 & [-> ->]%entries_spec & [[S1 _] _]%delete_all_spec).
  apply bind_ret_inv in E2 as (get1 & x2 & [-> ->]%reader_spec & E2).
  apply bind_ret_inv in E2 as (mk & x3 & (-> & _)%nodes_of_roots_spec & [[S2 _] _]%RecreateColumn_spec).
  apply bind_ret_inv in E as (get2 & x4 & [-> ->]%reader_spec & E).
  apply bind_ret_inv in E as (l2 & x5 & [-> ->]%entries_spec & E).
  apply bind_ret_inv in E as (x & x6 & E & _). eapply roots_to_keep_empty; [|exact E].
  apply iterate_law. rewrite S2, S1; [done|by intros ?%list_elem_of_singleton..].
Qed.
