(* ===== verification/StateDbExamples.v ===== *)
(** Pruning a database of three blocks: two accounts, one with a storage; the older versions go,
    the blocks from the one before the bound on read as before. *)
From S2P Require Import Prelude Codec Rlp RlpEncoder Storage EvmInterface StateEvm TrieEncoding Trie TrieReader TrieSchemas StateDb StateDbFacts StateDbMemory StateDbPrune.

#[local] Instance toy_keccak : Keccak := λ b, replicate 31 (blen b mod 256) ++ [foldl Z.add 0 b mod 256].
Lemma toy_keccak_length b : length (keccak b) = HashLength.
Proof. unfold keccak, toy_keccak. rewrite length_app, length_replicate. done. Qed.
(** The node of a leaf with a hash, as a commit puts it. *)
Definition leaf_node (key h : bytes) : bytes :=
  match hex_to_compact (keybytesToHex key) with
  | Ret c => enc_list (AppendString c ++ AppendString h)
  | _ => []
  end.
Definition alice : address := replicate 20 1.
Definition storage_root : hash := replicate 32 5.
Definition account_of (balance : Z) (root : option hash) : bytes :=
  match Account_EncodeForTrie {| db_Nonce := 1; db_Balance := balance; db_StorageRootHash := root;
    db_CodeHash := None; db_CodeSize := 0 |} with Ret (s, _) => s | _ => [] end.
Definition slot0 : hash := acc_trie_db_key alice (keccak (replicate 32 0)).
Definition block0 : block_puts := {| b_root := replicate 32 10; b_puts := [
  (COL_acc_trie_value, slot0, [9]); (COL_acc_trie_node, storage_root, leaf_node (keccak (replicate 32 0)) storage_root);
  (COL_main_trie_value, keccak alice, account_of 100 (Some storage_root));
  (COL_main_trie_node, replicate 32 10, leaf_node (keccak alice) (replicate 32 10))] |}.
Definition block1 : block_puts := {| b_root := replicate 32 11; b_puts := [
  (COL_acc_trie_value, slot0, [8]); (COL_main_trie_value, keccak alice, account_of 50 (Some storage_root));
  (COL_main_trie_node, replicate 32 11, leaf_node (keccak alice) (replicate 32 11))] |}.
Definition block2 : block_puts := {| b_root := replicate 32 12; b_puts := [
  (COL_main_trie_value, keccak alice, account_of 20 (Some storage_root));
  (COL_main_trie_node, replicate 32 12, leaf_node (keccak alice) (replicate 32 12))] |}.
Definition chain : list block_puts := [block0; block1; block2].
Definition chain_db (l : list block_puts) : DB memory :=
  foldl (λ d b, (run_block b d).2) (opened false (λ _, ∅)) l.
Lemma chain_reachable : reachable (chain_db chain) chain.
Proof.
  exists (λ _, ∅), false, (opened false (λ _, ∅)). split; [done|].
  split; [apply opened_ok; by vm_compute|].
  eapply rtc_l; [apply (step_block _ _ block0 (chain_db [block0]))|].
  { split_and!; [by repeat constructor|done|done]. } { apply pair_of. by vm_compute. }
  eapply rtc_l; [apply (step_block _ _ block1 (chain_db [block0; block1]))|].
  { split_and!; [by repeat constructor|done|done]. } { apply pair_of. by vm_compute. }
  eapply rtc_l; [apply (step_block _ _ block2 (chain_db chain))|].
  { split_and!; [by repeat constructor|done|done]. } { apply pair_of. by vm_compute. }
  constructor.
Qed.
Definition kept_roots : list hash := [replicate 32 11; replicate 32 12].
Definition pruned_db : DB memory := (Prune kept_roots 2 (chain_db chain)).2.
Lemma chain_pruned : Prune kept_roots 2 (chain_db chain) = (Ret tt, pruned_db).
Proof. unfold pruned_db. apply pair_of. by vm_compute. Qed.

(** Block 0 is lost, block 1 and block 2 are there. *)
Lemma prune_keeps_blocks_witness :
  let d := chain_db chain in let d' := pruned_db in
  (stands d chain ∧ Prune kept_roots 2 d = (Ret tt, d') ∧ 0 <= 2 < 3) ∧
  (GetCommittedDescriptor d' = GetCommittedDescriptor d ∧
   (∀ n col k, 2 <= Z.of_nat n + 1 → (n < 3)%nat → length k = HashLength →
      col = COL_code ∨ versioned (cf_col col) = true →
      DB_GetBlockStateReader d' (Z.of_nat n) col k = DB_GetBlockStateReader d (Z.of_nat n) col k) ∧
   (∀ root, root ∈ kept_roots → ∃ l,
      ForEachMainNodeHashByRoot (DB_GetBlockStateReader d 2) (Some root) = Ret l ∧
      ForEachMainNodeHashByRoot (DB_GetBlockStateReader d' 2) (Some root) = Ret l) ∧
   (∀ n addr acc root, 2 <= Z.of_nat n + 1 → (n < 3)%nat →
      GetAccount (DB_GetBlockStateReader d (Z.of_nat n)) addr = Ret (Some acc) →
      db_StorageRootHash acc = Some root → ∃ l,
      ForEachAccountNodeHashByRoot (DB_GetBlockStateReader d 2) (Some root) = Ret l ∧
      ForEachAccountNodeHashByRoot (DB_GetBlockStateReader d' 2) (Some root) = Ret l)) ∧
  DB_GetBlockStateReader d 0 COL_main_trie_value (keccak alice) = Some (account_of 100 (Some storage_root)) ∧
  DB_GetBlockStateReader d' 0 COL_main_trie_value (keccak alice) = None ∧
  DB_GetBlockStateReader d' 1 COL_main_trie_value (keccak alice) = Some (account_of 50 (Some storage_root)).
Proof.
  intros d d'. assert (stands d chain) as Hs by exact (reachable_stands _ _ chain_reachable).
  assert (0 <= 2 < 3) as Hb by lia.
  split; [split; [exact Hs|split; [exact chain_pruned|exact Hb]]|].
  split; [exact (prune_keeps_blocks toy_keccak_length d chain kept_roots 2 d' Hs chain_pruned Hb)|].
  by vm_compute.
Defined.

(** The account is deleted in a fourth block: pruning panics. *)
Definition block3 : block_puts := {| b_root := replicate 32 13; b_puts := [(COL_main_trie_value, keccak alice, [])] |}.
Lemma prune_fails_after_deletion_witness :
  let d := chain_db (chain ++ [block3]) in
  contents (db d) (cf_col COL_main_trie_value) !! vkey (keccak alice) 3 = Some [] ∧
  (Prune kept_roots 2 d).1 = Panic "unexpected EOF" ∧
  ∀ d', Prune kept_roots 2 d ≠ (Ret tt, d').
Proof.
  intros d. assert (contents (db d) (cf_col COL_main_trie_value) !! vkey (keccak alice) 3 = Some []) as Hc
    by by vm_compute.
  split; [exact Hc|]. split; [by vm_compute|]. intros d'.
  exact (prune_fails_after_deletion d kept_roots 2 (vkey (keccak alice) 3) d' Hc).
Defined.
