(* ===== verification/Schedules.v ===== *)
(** Programs with several threads, as the files on goroutines and pools model them.
    A program is a function [step] that does one atomic step and gives None where it is not enabled.  A
    schedule is a list of events: the calls of the clients and the choices of the scheduler.  The
    atomic steps are the sections between [Lock] and [Unlock], the operations on a channel, and what
    a thread does to what it alone can reach.
    A send on a channel blocks while its buffer is full, and hands over to a receiver when the buffer
    is empty; a receive on a closed channel gives nothing once the buffer is empty; a send on it, or a
    second close, panics, and so ends the process ([crashed]). *)
From S2P Require Import Prelude.

Section machine.
Context {E St : Type} (step : E → St → option St).
Fixpoint run (es : list E) (s : St) : option St :=
  match es with
  | [] => Some s
  | e :: es => s ← step e s; run es s
  end.
Lemma run_app es1 es2 s : run (es1 ++ es2) s = (s ← run es1 s; run es2 s).
Proof.
  revert s. induction es1 as [|e es1 IH]; intros s; [done|]. simpl.
  destruct (step e s); simpl; [apply IH|done].
Qed.
Lemma run_invariant (P : St → Prop) :
  (∀ e s s', step e s = Some s' → P s → P s') →
  ∀ es s s', run es s = Some s' → P s → P s'.
Proof.
  intros HP es. induction es as [|e es IH]; intros s s'; simpl; [congruence|].
  destruct (step e s) as [s1|] eqn:E1; simpl; [|done]. eauto.
Qed.
(** A measure that the steps of a kind lower bounds a run of such steps. *)
Lemma run_bounded (ok : E → bool) (P : St → Prop) (work : St → nat) :
  (∀ e s s', ok e → P s → step e s = Some s' → P s' ∧ (work s' < work s)%nat) →
  ∀ es s s', Forall ok es → P s → run es s = Some s' → (length es + work s' ≤ work s)%nat.
Proof.
  intros Hw es. induction es as [|e es IH]; intros s s' Hok Hs; simpl.
  { intros [= ->]. lia. }
  inversion Hok as [|? ? He Hes]; subst.
  destruct (step e s) as [s1|] eqn:E1; simpl; [|done]. intros E2.
  destruct (Hw _ _ _ He Hs E1) as [Hs1 ?]. pose proof (IH s1 s' Hes Hs1 E2). lia.
Qed.
End machine.

(** * Lists of threads *)
(** An element of a list, and the lists that differ at its place. *)
Lemma place_split {A} (l : list A) i x :
  l !! i = Some x → ∃ l1 l2, l = l1 ++ x :: l2 ∧ length l1 = i ∧ ∀ y, <[i := y]> l = l1 ++ y :: l2.
Proof.
  intros E. apply list_elem_of_split_length in E as (l1 & l2 & -> & ->).
  exists l1, l2. split_and!; [done..|]. intros y.
  rewrite insert_app_r_alt by lia. by rewrite Nat.sub_diag.
Qed.
Lemma delete_split {A} (l : list A) i x :
  l !! i = Some x → ∃ l1 l2, l = l1 ++ x :: l2 ∧ delete i l = l1 ++ l2.
Proof.
  intros E. apply list_elem_of_split_length in E as (l1 & l2 & -> & ->).
  exists l1, l2. split; [done|]. by rewrite delete_middle.
Qed.
Lemma sum_insert {A} (f : A → nat) l i x y :
  l !! i = Some x → (sum_list_with f (<[i := y]> l) + f x = sum_list_with f l + f y)%nat.
Proof.
  intros E. destruct (place_split _ _ _ E) as (l1 & l2 & -> & _ & Ins).
  rewrite Ins, !sum_list_with_app. simpl. lia.
Qed.
Lemma length_delete_lt {A} (l : list A) i x : l !! i = Some x → length l = S (length (delete i l)).
Proof.
  intros E. destruct (delete_split _ _ _ E) as (l1 & l2 & -> & ->). rewrite !length_app. simpl. lia.
Qed.

Lemma NoDup_perm {A} (l k : list A) : l ≡ₚ k → NoDup l → NoDup k.
Proof. by intros ->. Qed.
