(* ===== verification/GoroutineGroup.v ===== *)
(** [GoroutineGroup] (ebla/util/goroutines/goroutine_group.go): some goroutines that take tasks from
    one channel, as a program of atomic steps (Schedules.v). *)
From S2P Require Import Prelude Schedules.

Section group.
Context {T : Type} (buffer_size : nat).

(** What the channel carries: a task of a caller, the [m.Unlock] of a [Join], and the function with
    which [JoinAndClose] closes the channel. *)
Inductive task : Type :=
| Task (t : T)
| Unlock (j : nat)
| CloseTasks.
Inductive goroutine : Type :=
| Receiving
| Running (t : task)
| Ended.
(** [blocked] holds the calls of [Submit] that wait to send.  [sent] and [completed] are the history
    of the channel: what was sent, in order, and which tasks have ended, in order. *)
Record GoroutineGroup : Type := {
  tasks : list task;
  num_running : Z;
  goroutines : list goroutine;
  closed : bool;
  crashed : bool;
  blocked : list task;
  sent : list task;
  completed : list task
}.
Definition Init (goroutine_count : nat) : GoroutineGroup := {|
  tasks := []; num_running := Z.of_nat goroutine_count; goroutines := replicate goroutine_count Receiving;
  closed := false; crashed := false; blocked := []; sent := []; completed := [] |}.
Definition InitSingle : GoroutineGroup := Init 1.

Definition crash (s : GoroutineGroup) : GoroutineGroup := {|
  tasks := tasks s; num_running := num_running s; goroutines := goroutines s; closed := closed s;
  crashed := true; blocked := blocked s; sent := sent s; completed := completed s |}.
(** A call of [Submit] begins. *)
Definition Submit (t : task) (s : GoroutineGroup) : GoroutineGroup := {|
  tasks := tasks s; num_running := num_running s; goroutines := goroutines s; closed := closed s;
  crashed := crashed s; blocked := blocked s ++ [t]; sent := sent s; completed := completed s |}.
(** [Join] and [JoinAndClose] begin by submitting; the first returns when its [Unlock] has run. *)
Definition Join (j : nat) : GoroutineGroup → GoroutineGroup := Submit (Unlock j).
Definition JoinAndClose : GoroutineGroup → GoroutineGroup := Submit CloseTasks.
(** The [k]-th of the calls that wait sends its task. *)
Definition send (k : nat) (s : GoroutineGroup) : option GoroutineGroup :=
  t ← blocked s !! k;
  if closed s then Some (crash s)
  else if (length (tasks s) <? buffer_size)%nat then Some {|
    tasks := tasks s ++ [t]; num_running := num_running s; goroutines := goroutines s;
    closed := closed s; crashed := crashed s; blocked := delete k (blocked s);
    sent := sent s ++ [t]; completed := completed s |}
  else None.
Definition hand_over (k i : nat) (s : GoroutineGroup) : option GoroutineGroup :=
  t ← blocked s !! k;
  match goroutines s !! i, tasks s, closed s with
  | Some Receiving, [], false => Some {|
      tasks := []; num_running := num_running s; goroutines := <[i := Running t]> (goroutines s);
      closed := closed s; crashed := crashed s; blocked := delete k (blocked s);
      sent := sent s ++ [t]; completed := completed s |}
  | _, _, _ => None
  end.
(** [task, ok := <-self.tasks] *)
Definition receive (i : nat) (s : GoroutineGroup) : option GoroutineGroup :=
  match goroutines s !! i, tasks s with
  | Some Receiving, t :: ts => Some {|
      tasks := ts; num_running := num_running s; goroutines := <[i := Running t]> (goroutines s);
      closed := closed s; crashed := crashed s; blocked := blocked s; sent := sent s;
      completed := completed s |}
  | Some Receiving, [] =>
      if closed s then Some {|
        tasks := []; num_running := num_running s - 1; goroutines := <[i := Ended]> (goroutines s);
        closed := closed s; crashed := crashed s; blocked := blocked s; sent := sent s;
        completed := completed s |}
      else None
  | _, _ => None
  end.
(** The task of a goroutine ends. *)
Definition complete (i : nat) (s : GoroutineGroup) : option GoroutineGroup :=
  match goroutines s !! i with
  | Some (Running t) =>
      let close := match t with CloseTasks => true | _ => false end in
      Some {|
        tasks := tasks s; num_running := num_running s; goroutines := <[i := Receiving]> (goroutines s);
        closed := closed s || close; crashed := closed s && close; blocked := blocked s;
        sent := sent s; completed := completed s ++ [t] |}
  | _ => None
  end.
(** The loop of [JoinAndClose] ends, and the assertion after it is evaluated. *)
Definition close_returns (s : GoroutineGroup) : option GoroutineGroup :=
  if num_running s =? 0 then
    Some (match tasks s with [] => s | _ => crash s end)
  else None.

Inductive event : Type :=
| ESubmit (t : task)
| ESend (k : nat)
| EHandOver (k i : nat)
| EReceive (i : nat)
| EComplete (i : nat)
| ECloseReturns.
Definition step (e : event) (s : GoroutineGroup) : option GoroutineGroup :=
  if crashed s then None
  else match e with
  | ESubmit t => Some (Submit t s)
  | ESend k => send k s
  | EHandOver k i => hand_over k i s
  | EReceive i => receive i s
  | EComplete i => complete i s
  | ECloseReturns => close_returns s
  end.
End group.
Arguments task : clear implicits.
Arguments goroutine : clear implicits.
Arguments GoroutineGroup : clear implicits.
Arguments event : clear implicits.

(** * The goroutines of a group complete every task, and end when the channel is closed *)
Section facts.
Context {T : Type} (buffer_size : nat).
Implicit Types (s : GoroutineGroup T) (gs : list (goroutine T)).

Definition running gs : list (task T) :=
  omap (λ w, match w with Running t => Some t | _ => None end) gs.
Definition alive gs : nat :=
  sum_list_with (λ w, match w with Ended => 0 | _ => 1 end)%nat gs.
(** No task is lost or done twice, and a goroutine ends only when nothing is left. *)
Record consistent (n : nat) s : Prop := {
  kept : sent s ≡ₚ completed s ++ running (goroutines s) ++ tasks s;
  counted : num_running s = Z.of_nat (alive (goroutines s));
  started : length (goroutines s) = n;
  ended : Ended ∈ goroutines s → closed s = true ∧ tasks s = [];
  one_by_one : n = 1%nat → sent s = completed s ++ running (goroutines s) ++ tasks s;
  crash_closed : (0 < n)%nat → crashed s = true → closed s = true
}.

Lemma running_app gs1 gs2 : running (gs1 ++ gs2) = running gs1 ++ running gs2.
Proof. apply omap_app. Qed.
Lemma alive_app gs1 gs2 : alive (gs1 ++ gs2) = (alive gs1 + alive gs2)%nat.
Proof. apply sum_list_with_app. Qed.
(** A goroutine goes on. *)
Lemma goroutine_moves n s s' i v w :
  goroutines s !! i = Some v → goroutines s' = <[i := w]> (goroutines s) →
  (∀ l1 l2, sent s ≡ₚ completed s ++ (l1 ++ running [v] ++ l2) ++ tasks s →
     sent s' ≡ₚ completed s' ++ (l1 ++ running [w] ++ l2) ++ tasks s') →
  (sent s = completed s ++ running [v] ++ tasks s →
     sent s' = completed s' ++ running [w] ++ tasks s') →
  num_running s' = num_running s - Z.of_nat (alive [v]) + Z.of_nat (alive [w]) →
  (w = Ended ∨ Ended ∈ goroutines s → closed s' = true ∧ tasks s' = []) →
  ((0 < n)%nat → crashed s' = true → closed s' = true) →
  consistent n s → consistent n s'.
Proof.
  intros Ei Eg Hp H1 Hn He Hcr [H2 H3 H4 H5 H6 _].
  destruct (place_split _ _ _ Ei) as (l1 & l2 & El & Hl & Ins).
  rewrite Ins in Eg. change (w :: l2) with ([w] ++ l2) in Eg. change (v :: l2) with ([v] ++ l2) in El.
  rewrite El, !running_app in H2. rewrite El, !alive_app in H3.
  split; [| | | | |done].
  - rewrite Eg, !running_app. by apply Hp.
  - rewrite Hn, H3, Eg, !alive_app. lia.
  - rewrite <-H4, El, Eg. rewrite !length_app. done.
  - rewrite Eg, !elem_of_app, list_elem_of_singleton. intros Hend. apply He.
    rewrite El, !elem_of_app. destruct Hend as [?|[<-|?]]; auto.
  - intros ->. rewrite El, !length_app in H4. simpl in H4.
    destruct l1, l2; simpl in *; try lia. rewrite El in H6. rewrite Eg. simpl.
    simpl in H6. apply H1, H6. done.
Qed.

Lemma none_alive gs : alive gs = 0%nat → (0 < length gs)%nat → Ended ∈ gs.
Proof. destruct gs as [|[| |] gs]; simpl; [lia|done|done|]. intros _ _. by left. Qed.
Lemma group_step_consistent n e s s' :
  step buffer_size e s = Some s' → consistent n s → consistent n s'.
Proof.
  unfold step. intros E Hs. destruct (crashed s) eqn:Ecr in E; [done|].
  destruct e as [t|k|k i|i|i|]; simpl in E.
  - injection E as <-. by destruct Hs; split.
  - unfold send in E. destruct (blocked s !! k) as [t|]; simpl in E; [|done].
    destruct (closed s) eqn:El; [injection E as <-; destruct Hs; by split|].
    destruct (_ <? _)%nat; [|done]. injection E as <-. destruct Hs as [H1 H2 H3 H4 H5 H6].
    split; simpl; try done.
    + rewrite H1. by rewrite <-!app_assoc.
    + intros He. destruct (H4 He). congruence.
    + intros Hn. rewrite H5 by done. by rewrite <-!app_assoc.
    + congruence.
  - unfold hand_over in E. destruct (blocked s !! k) as [t|]; simpl in E; [|done].
    destruct (goroutines s !! i) as [[| |]|] eqn:Ei; try done.
    destruct (tasks s) eqn:Et; [|done]. destruct (closed s) eqn:El; [done|]. injection E as <-.
    eapply (goroutine_moves n s _ i Receiving (Running t)); [done|done| | | | | |done]; simpl.
    + intros l1 l2 ->. rewrite Et. solve_Permutation.
    + intros ->. rewrite Et. by rewrite !app_nil_r.
    + lia.
    + intros [?|He]; [done|]. destruct (ended n s Hs He). congruence.
    + congruence.
  - unfold receive in E. destruct (goroutines s !! i) as [[| |]|] eqn:Ei; try done.
    destruct (tasks s) as [|t ts] eqn:Et.
    + destruct (closed s) eqn:El; [|done]. injection E as <-.
      eapply (goroutine_moves n s _ i Receiving Ended); [done|done| | | | | |done]; simpl; try done.
      * intros l1 l2 ->. by rewrite Et.
      * intros ->. by rewrite Et.
      * lia.
    + injection E as <-.
      eapply (goroutine_moves n s _ i Receiving (Running t)); [done|done| | | | | |done]; simpl; try done.
      * intros l1 l2 ->. rewrite Et. solve_Permutation.
      * intros ->. by rewrite Et.
      * lia.
      * intros [?|He]; [done|]. destruct (ended n s Hs He). congruence.
      * apply Hs.
  - unfold complete in E. destruct (goroutines s !! i) as [[|t|]|] eqn:Ei; try done. injection E as <-.
    eapply (goroutine_moves n s _ i (Running t) Receiving); [done|done| | | | | |done]; simpl.
    + intros l1 l2 ->. solve_Permutation.
    + intros ->. by rewrite <-!app_assoc.
    + lia.
    + intros [?|He]; [done|]. destruct (ended n s Hs He) as [-> ?]. done.
    + by intros _ [-> _]%andb_true_iff.
  - unfold close_returns in E. destruct (num_running s =? 0) eqn:Ez; [|done].
    destruct (tasks s) eqn:Et; injection E as <-; [done|].
    destruct Hs as [H1 H2 H3 H4 H5 H6]. split; simpl; try done.
    intros Hn _. apply H4, none_alive; [|rewrite H3; lia]. apply Z.eqb_eq in Ez. lia.
Qed.
Lemma group_Init_consistent n : consistent n (Init n).
Proof.
  assert (Hr : running (replicate n (@Receiving T)) = []) by (induction n; done).
  split; simpl; try done.
  - by rewrite Hr.
  - f_equal. clear Hr. induction n as [|m IH]; [done|].
    change (alive (replicate (S m) Receiving)) with (S (alive (replicate m (@Receiving T)))).
    by rewrite <-IH.
  - apply length_replicate.
  - intros Hin. by apply elem_of_replicate_inv in Hin.
  - by rewrite Hr.
Qed.
Lemma group_reachable_consistent n es s : run (step buffer_size) es (Init n) = Some s → consistent n s.
Proof.
  intros E. eapply (run_invariant (step buffer_size) (consistent n)); [|exact E|apply group_Init_consistent].
  intros; by eapply group_step_consistent.
Qed.

(** * Progress *)
Definition scheduled (e : event T) : bool :=
  match e with ESubmit _ | ECloseReturns => false | _ => true end.
(** An upper bound of the steps that remain: a task is sent, received and run, and a goroutine ends. *)
Definition steps_left (w : goroutine T) : nat :=
  match w with Running _ => 2 | Receiving => 1 | Ended => 0 end.
Definition work s : nat :=
  (3 * length (blocked s) + 2 * length (tasks s) + sum_list_with steps_left (goroutines s) +
   if crashed s then 0 else 1)%nat.
Lemma group_scheduled_works e s s' :
  scheduled e → step buffer_size e s = Some s' → (work s' < work s)%nat.
Proof.
  unfold step. intros Hi E. destruct (crashed s) eqn:Ec in E; [done|].
  destruct e as [t|k|k i|i|i|]; try done; simpl in E; unfold work.
  - unfold send in E. destruct (blocked s !! k) eqn:Ek; simpl in E; [|done].
    destruct (closed s); [injection E as <-; simpl; rewrite Ec; lia|].
    destruct (_ <? _)%nat; [|done]. injection E as <-. simpl.
    apply length_delete_lt in Ek. rewrite length_app. simpl. lia.
  - unfold hand_over in E. destruct (blocked s !! k) as [t|] eqn:Ek; simpl in E; [|done].
    destruct (goroutines s !! i) as [[| |]|] eqn:Ei; try done.
    destruct (tasks s) eqn:Ep; [|done]. destruct (closed s); [done|]. injection E as <-. simpl.
    apply length_delete_lt in Ek.
    pose proof (sum_insert steps_left _ _ _ (Running t) Ei) as Hb. simpl in Hb. lia.
  - unfold receive in E. destruct (goroutines s !! i) as [[| |]|] eqn:Ei; try done.
    destruct (tasks s) as [|t ts] eqn:Ep; [destruct (closed s); [|done]|]; injection E as <-; simpl.
    + pose proof (sum_insert steps_left _ _ _ Ended Ei) as Hb. simpl in Hb. lia.
    + pose proof (sum_insert steps_left _ _ _ (Running t) Ei) as Hb. simpl in Hb. lia.
  - unfold complete in E. destruct (goroutines s !! i) as [[|t|]|] eqn:Ei; try done.
    injection E as <-. simpl.
    pose proof (sum_insert steps_left _ _ _ Receiving Ei) as Hb. simpl in Hb.
    rewrite Ec. destruct (closed s && _); lia.
Qed.

Lemma group_quiet_is_done n s :
  (0 < n)%nat → consistent n s → crashed s = false →
  (∀ e, scheduled e → step buffer_size e s = None) →
  blocked s = [] ∧ tasks s = [] ∧ completed s ≡ₚ sent s ∧ (closed s → num_running s = 0).
Proof.
  intros Hn Hc Ecr Hq.
  assert (Hi : ∀ i w, goroutines s !! i = Some w → running [w] = [] ∧ (w = Receiving → closed s = false)).
  { intros i [|t|] Ei; [split; [done|]; intros _| |done].
    - specialize (Hq (EReceive i) I). unfold step in Hq. rewrite Ecr in Hq. simpl in Hq.
      unfold receive in Hq. rewrite Ei in Hq. destruct (tasks s), (closed s); done.
    - specialize (Hq (EComplete i) I). unfold step in Hq. rewrite Ecr in Hq. simpl in Hq.
      unfold complete in Hq. by rewrite Ei in Hq. }
  assert (Hr : running (goroutines s) = []).
  { clear -Hi. revert Hi. generalize (goroutines s) as gs. induction gs as [|w gs IH]; [done|].
    intros Hi. change (w :: gs) with ([w] ++ gs). rewrite running_app, (proj1 (Hi 0%nat w eq_refl)).
    apply IH. intros i. apply (Hi (S i)). }
  assert (Ht : tasks s = []).
  { destruct (goroutines s) as [|w gs] eqn:Eg.
    - pose proof (started n s Hc) as Hl. rewrite Eg in Hl. simpl in Hl. lia.
    - destruct w as [|t|].
      + specialize (Hq (EReceive 0) I). unfold step in Hq. rewrite Ecr in Hq. simpl in Hq.
        unfold receive in Hq. rewrite Eg in Hq. simpl in Hq. by destruct (tasks s).
      + by destruct (Hi 0%nat _ eq_refl).
      + apply (ended n s Hc). rewrite Eg. by left. }
  split_and!; [|done| |].
  - destruct (blocked s) as [|t l] eqn:Eb; [done|]. exfalso.
    destruct (closed s) eqn:El.
    + specialize (Hq (ESend 0) I). unfold step in Hq. rewrite Ecr in Hq. simpl in Hq.
      unfold send in Hq. rewrite Eb, El in Hq. done.
    + destruct (goroutines s) as [|w gs] eqn:Eg.
      { pose proof (started n s Hc) as Hl. rewrite Eg in Hl. simpl in Hl. lia. }
      destruct w as [|t'|].
      * specialize (Hq (EHandOver 0 0) I). unfold step in Hq. rewrite Ecr in Hq. simpl in Hq.
        unfold hand_over in Hq. by rewrite Eb, Eg, Ht, El in Hq.
      * by destruct (Hi 0%nat _ eq_refl).
      * destruct (ended n s Hc) as [? _]; [rewrite Eg; by left|congruence].
  - rewrite (kept n s Hc), Hr, Ht. by rewrite !app_nil_r.
  - intros El. rewrite (counted n s Hc). apply Is_true_true in El. clear -Hi El.
    revert Hi. generalize (goroutines s) as gs. induction gs as [|w gs IH]; [done|]. intros Hi.
    change (w :: gs) with ([w] ++ gs). rewrite alive_app, Nat2Z.inj_add, IH by (intros i; apply (Hi (S i))).
    destruct w; [|by destruct (Hi 0%nat _ eq_refl)|done].
    destruct (Hi 0%nat _ eq_refl) as [_ Hx]. rewrite Hx in El by done. done.
Qed.

(** What the scheduler of a group of goroutines does without new
    calls is bounded by [work]; where it can do nothing more and no call has panicked, every task
    that was sent has completed, no call waits, and when the channel was closed every goroutine has
    ended, so that [JoinAndClose] returns. *)
Theorem group_completes_every_task n es s es' s' :
  (0 < n)%nat → run (step buffer_size) es (Init n) = Some s →
  Forall scheduled es' → run (step buffer_size) es' s = Some s' →
  (length es' + work s' ≤ work s)%nat ∧
  (crashed s' = false → (∀ e, scheduled e → step buffer_size e s' = None) →
   blocked s' = [] ∧ tasks s' = [] ∧ completed s' ≡ₚ sent s' ∧ (closed s' → num_running s' = 0)).
Proof.
  intros Hn E Hes E'. split.
  - eapply (run_bounded (step buffer_size) scheduled (λ _, True)); [|done..].
    intros e s1 s2 He _ E1. split; [done|]. by apply (group_scheduled_works e).
  - intros Ecr. apply (group_quiet_is_done n); [done| |done].
    eapply (group_reachable_consistent n (es ++ es')). by rewrite run_app, E.
Qed.

(** When the loop of [JoinAndClose] ends, every task that was ever sent
    has completed and the assertion that the channel is empty holds.  With one goroutine the tasks
    complete in the order in which they were sent, so that a [Join] returns after all of those that
    were sent before it. *)
Theorem close_finds_no_task n es s :
  (0 < n)%nat → run (step buffer_size) es (Init n) = Some s →
  (num_running s = 0 → close_returns s = Some s ∧ completed s ≡ₚ sent s) ∧
  (n = 1%nat → completed s `prefix_of` sent s).
Proof.
  intros Hn E. apply group_reachable_consistent in E as Hc. split.
  - intros Ez. assert (He : Ended ∈ goroutines s).
    { apply none_alive; [|rewrite (started n s Hc); lia]. rewrite (counted n s Hc) in Ez. lia. }
    destruct (ended n s Hc He) as [_ Ht]. unfold close_returns. rewrite Ez, Ht. split; [done|].
    rewrite (kept n s Hc), Ht.
    assert (Hr : running (goroutines s) = []).
    { rewrite (counted n s Hc) in Ez. revert Ez. generalize (goroutines s) as gs.
      induction gs as [|w gs IH]; [done|]. change (w :: gs) with ([w] ++ gs).
      rewrite alive_app, running_app. destruct w; simpl; try lia. intros Ez. apply IH. lia. }
    by rewrite Hr, !app_nil_r.
  - intros ->. rewrite (one_by_one 1 s Hc eq_refl). by eexists.
Qed.

End facts.
