(* ===== verification/TaskGroups.v ===== *)
(** [SequentialTaskGroupExecutor] (ebla/util/goroutines/sequential_group_executor.go): some goroutines
    that serve groups of tasks, each group by at most one goroutine at a time, as a program of atomic
    steps (Schedules.v).  The two slices of a group are swapped, never shared: what is appended to one
    does not reach the other. *)
From S2P Require Import Prelude Schedules.

Section executor.
Context {T : Type} (queue_size : nat).

Inductive task : Type :=
| Task (t : T)
| Unlock (j : nat).
(** [asked] and [ran] are the history of a group: the tasks appended to it and the tasks that have
    run, in order. *)
Record SequentialTaskGroup : Type := {
  pending_tasks : list task;
  tasks_in_execution : list task;
  asked : list task;
  ran : list task
}.
(** A goroutine waits at the channel, or is in [execute_pending] of a group with the tasks of the
    batch that it has not run yet: with none, it is about to lock. *)
Inductive goroutine : Type :=
| Receiving
| Executing (g : nat) (rest : list task)
| Ended.
(** A group is its place in [groups].  [senders] holds the calls of [Submit] that wait to send their
    group. *)
Record Executor : Type := {
  pending_groups : list nat;
  closed : bool;
  crashed : bool;
  goroutines : list goroutine;
  senders : list nat;
  groups : list SequentialTaskGroup
}.
Definition Init (num_goroutines : nat) : Executor := {|
  pending_groups := []; closed := false; crashed := false;
  goroutines := replicate num_goroutines Receiving; senders := []; groups := [] |}.
Definition crash (s : Executor) : Executor := {|
  pending_groups := pending_groups s; closed := closed s; crashed := true;
  goroutines := goroutines s; senders := senders s; groups := groups s |}.
Definition Close (s : Executor) : Executor :=
  if closed s then crash s else {|
  pending_groups := pending_groups s; closed := true; crashed := crashed s;
  goroutines := goroutines s; senders := senders s; groups := groups s |}.
Definition new_group : SequentialTaskGroup :=
  {| pending_tasks := []; tasks_in_execution := []; asked := []; ran := [] |}.
Definition NewGroup (s : Executor) : Executor := {|
  pending_groups := pending_groups s; closed := closed s; crashed := crashed s;
  goroutines := goroutines s; senders := senders s; groups := groups s ++ [new_group] |}.

(** [len(self.pending_tasks) == 0 && len(self.tasks_in_execution) == 0] *)
Definition was_empty (G : SequentialTaskGroup) : bool :=
  match pending_tasks G, tasks_in_execution G with [], [] => true | _, _ => false end.
Definition append (t : task) (G : SequentialTaskGroup) : SequentialTaskGroup := {|
  pending_tasks := pending_tasks G ++ [t]; tasks_in_execution := tasks_in_execution G;
  asked := asked G ++ [t]; ran := ran G |}.
(** The locked part of [Submit]; the call goes on to send the group when it was empty. *)
Definition Submit (g : nat) (t : T) (s : Executor) : option Executor :=
  G ← groups s !! g;
  Some {|
    pending_groups := pending_groups s; closed := closed s; crashed := crashed s;
    goroutines := goroutines s;
    senders := if was_empty G then senders s ++ [g] else senders s;
    groups := <[g := append (Task t) G]> (groups s) |}.
(** The locked part of [Join]; the call returns at once when the group is empty, and else when its
    [Unlock] has run. *)
Definition Join (g j : nat) (s : Executor) : option Executor :=
  G ← groups s !! g;
  if was_empty G then Some s
  else Some {|
    pending_groups := pending_groups s; closed := closed s; crashed := crashed s;
    goroutines := goroutines s; senders := senders s;
    groups := <[g := append (Unlock j) G]> (groups s) |}.
(** [self.host_queue <- self] *)
Definition send (k : nat) (s : Executor) : option Executor :=
  g ← senders s !! k;
  if closed s then Some (crash s)
  else if (length (pending_groups s) <? queue_size)%nat then Some {|
    pending_groups := pending_groups s ++ [g]; closed := closed s; crashed := crashed s;
    goroutines := goroutines s; senders := delete k (senders s); groups := groups s |}
  else None.
Definition hand_over (k i : nat) (s : Executor) : option Executor :=
  g ← senders s !! k;
  match goroutines s !! i, pending_groups s, closed s with
  | Some Receiving, [], false => Some {|
      pending_groups := []; closed := closed s; crashed := crashed s;
      goroutines := <[i := Executing g []]> (goroutines s); senders := delete k (senders s);
      groups := groups s |}
  | _, _, _ => None
  end.
(** [g, still_open := <-self.pending_groups] *)
Definition receive (i : nat) (s : Executor) : option Executor :=
  match goroutines s !! i, pending_groups s with
  | Some Receiving, g :: gs => Some {|
      pending_groups := gs; closed := closed s; crashed := crashed s;
      goroutines := <[i := Executing g []]> (goroutines s); senders := senders s;
      groups := groups s |}
  | Some Receiving, [] =>
      if closed s then Some {|
        pending_groups := []; closed := closed s; crashed := crashed s;
        goroutines := <[i := Ended]> (goroutines s); senders := senders s; groups := groups s |}
      else None
  | _, _ => None
  end.
(** The locked part of a round of [execute_pending]: the batch is cleared, or swapped with the
    pending tasks. *)
Definition take_batch (G : SequentialTaskGroup) : SequentialTaskGroup := {|
  pending_tasks := []; tasks_in_execution := pending_tasks G; asked := asked G; ran := ran G |}.
Definition clear_batch (G : SequentialTaskGroup) : SequentialTaskGroup := {|
  pending_tasks := pending_tasks G; tasks_in_execution := []; asked := asked G; ran := ran G |}.
Definition run_task (t : task) (G : SequentialTaskGroup) : SequentialTaskGroup := {|
  pending_tasks := pending_tasks G; tasks_in_execution := tasks_in_execution G;
  asked := asked G; ran := ran G ++ [t] |}.
(** The next step of [execute_pending]. *)
Definition execute_pending (i : nat) (s : Executor) : option Executor :=
  match goroutines s !! i with
  | Some (Executing g rest) =>
      G ← groups s !! g;
      let '(w, G) :=
        match rest, pending_tasks G with
        | [], [] => (Receiving, clear_batch G)
        | [], ts => (Executing g ts, take_batch G)
        | t :: rest, _ => (Executing g rest, run_task t G)
        end in
      Some {|
        pending_groups := pending_groups s; closed := closed s; crashed := crashed s;
        goroutines := <[i := w]> (goroutines s); senders := senders s;
        groups := <[g := G]> (groups s) |}
  | _ => None
  end.

Inductive event : Type :=
| ENewGroup
| ESubmit (g : nat) (t : T)
| EJoin (g j : nat)
| EClose
| ESend (k : nat)
| EHandOver (k i : nat)
| EReceive (i : nat)
| EExecute (i : nat).
Definition step (e : event) (s : Executor) : option Executor :=
  if crashed s then None
  else match e with
  | ENewGroup => Some (NewGroup s)
  | ESubmit g t => Submit g t s
  | EJoin g j => Join g j s
  | EClose => Some (Close s)
  | ESend k => send k s
  | EHandOver k i => hand_over k i s
  | EReceive i => receive i s
  | EExecute i => execute_pending i s
  end.
End executor.
Arguments task : clear implicits.
Arguments goroutine : clear implicits.
Arguments SequentialTaskGroup : clear implicits.
Arguments Executor : clear implicits.
Arguments event : clear implicits.

(** * The tasks of a group run one at a time, in order and all of them, under every schedule *)
Section facts.
Context {T : Type}.
Implicit Types (s : Executor T) (G : SequentialTaskGroup T) (gs : list (goroutine T)).

(** The groups that the goroutines are at, and the tasks of a group that wait in a batch. *)
Definition at_work gs : list nat :=
  omap (λ w, match w with Executing g _ => Some g | _ => None end) gs.
Definition rest_of (g : nat) gs : list (task T) :=
  concat (map (λ w, match w with
    | Executing g' rest => if bool_decide (g = g') then rest else []
    | _ => []
    end) gs).
(** Who answers for a group: a call that is to send it, the channel, or a goroutine. *)
Definition holders s : list nat := senders s ++ pending_groups s ++ at_work (goroutines s).

(** Somebody answers for a group just when it has tasks, and only one does. *)
Record consistent s : Prop := {
  held_once : NoDup (holders s);
  held : ∀ g, g ∈ holders s ↔ ∃ G, groups s !! g = Some G ∧ was_empty G = false;
  in_order : ∀ g G, groups s !! g = Some G →
    asked G = ran G ++ rest_of g (goroutines s) ++ pending_tasks G
}.

Lemma at_work_app gs1 gs2 : at_work (gs1 ++ gs2) = at_work gs1 ++ at_work gs2.
Proof. apply omap_app. Qed.
Lemma rest_of_app g gs1 gs2 : rest_of g (gs1 ++ gs2) = rest_of g gs1 ++ rest_of g gs2.
Proof. unfold rest_of. by rewrite map_app, concat_app. Qed.
Lemma rest_of_absent g gs : g ∉ at_work gs → rest_of g gs = [].
Proof.
  induction gs as [|w gs IH]; [done|]. intros Hg.
  change (w :: gs) with ([w] ++ gs) in *. rewrite at_work_app in Hg. rewrite rest_of_app.
  rewrite IH by set_solver. rewrite app_nil_r. unfold rest_of. simpl.
  destruct w as [|g' r|]; [done| |done]. rewrite app_nil_r. case_bool_decide; [|done].
  subst. simpl in Hg. set_solver.
Qed.
Lemma at_work_lookup gs i g rest : gs !! i = Some (Executing g rest) → g ∈ at_work gs.
Proof. intros E. apply list_elem_of_omap. exists (Executing g rest). split; [by eapply list_elem_of_lookup_2|done]. Qed.

Lemma executor_moved_consistent s s' :
  holders s' ≡ₚ holders s → groups s' = groups s →
  (∀ g, rest_of g (goroutines s') = rest_of g (goroutines s)) →
  consistent s → consistent s'.
Proof.
  intros Hp Hg Hr [H1 H2 H3]. split.
  - by rewrite Hp.
  - intros g. rewrite Hp, Hg. apply H2.
  - intros g G. rewrite Hg, Hr. apply H3.
Qed.
Lemma was_empty_append t G : was_empty (append t G) = false.
Proof. unfold was_empty. simpl. by destruct (pending_tasks G). Qed.
Lemma consistent_append s s' g G t :
  groups s !! g = Some G → groups s' = <[g := append t G]> (groups s) →
  goroutines s' = goroutines s →
  holders s' ≡ₚ (if was_empty G then g :: holders s else holders s) →
  consistent s → consistent s'.
Proof.
  intros EG Hg Hw Hp [H1 H2 H3].
  assert (Hlt := lookup_lt_Some _ _ _ EG).
  assert (Hin : g ∈ holders s ↔ was_empty G = false).
  { rewrite H2, EG. split; [by intros (? & [= <-] & ?)|eauto]. }
  split.
  - rewrite Hp. destruct (was_empty G); [|done]. constructor; [|done]. rewrite Hin. done.
  - intros g'. rewrite Hp, Hg. destruct (decide (g' = g)) as [->|Hne].
    + rewrite list_lookup_insert_eq by done. split.
      * intros _. exists (append t G). split; [done|apply was_empty_append].
      * intros _. destruct (was_empty G); [by left|]. by apply Hin.
    + rewrite list_lookup_insert_ne by done. rewrite <-H2. destruct (was_empty G); [|done].
      rewrite elem_of_cons. intuition.
  - intros g' G'. rewrite Hg, Hw. destruct (decide (g' = g)) as [->|Hne].
    + rewrite list_lookup_insert_eq by done. intros [= <-]. simpl. rewrite (H3 _ _ EG).
      by rewrite <-!app_assoc.
    + rewrite list_lookup_insert_ne by done. apply H3.
Qed.
(** A goroutine at a group goes on. *)
Lemma consistent_execute s s' i g G rest w G' :
  goroutines s !! i = Some (Executing g rest) → groups s !! g = Some G →
  groups s' = <[g := G']> (groups s) → goroutines s' = <[i := w]> (goroutines s) →
  senders s' = senders s → pending_groups s' = pending_groups s →
  at_work [w] = (if was_empty G' then [] else [g]) →
  asked G' = ran G' ++ rest_of g [w] ++ pending_tasks G' →
  consistent s → consistent s'.
Proof.
  intros Ei EG Hg Hw Hs Hpg Hat Hord [H1 H2 H3].
  assert (Hlt := lookup_lt_Some _ _ _ EG).
  destruct (place_split _ _ _ Ei) as (l1 & l2 & El & _ & Ins).
  assert (Hh : holders s ≡ₚ g :: senders s ++ pending_groups s ++ at_work l1 ++ at_work l2).
  { unfold holders. rewrite El. change (?a :: l2) with ([a] ++ l2). rewrite !at_work_app.
    simpl. solve_Permutation. }
  assert (Hh' : holders s' ≡ₚ at_work [w] ++ senders s ++ pending_groups s ++ at_work l1 ++ at_work l2).
  { unfold holders. rewrite Hw, Ins, Hs, Hpg. change (w :: l2) with ([w] ++ l2).
    rewrite !at_work_app. solve_Permutation. }
  rewrite Hh in H1. apply NoDup_cons in H1 as [Hng Hnd].
  assert (Hng' := Hng). rewrite !not_elem_of_app in Hng'. destruct Hng' as (_ & _ & Hn1 & Hn2).
  assert (Hrest : ∀ g' v, rest_of g' (l1 ++ v :: l2) = rest_of g' l1 ++ rest_of g' [v] ++ rest_of g' l2).
  { intros g' v. change (v :: l2) with ([v] ++ l2). by rewrite !rest_of_app. }
  split.
  - rewrite Hh', Hat. destruct (was_empty G'); [done|]. by constructor.
  - intros g'. rewrite Hh', Hat, Hg. destruct (decide (g' = g)) as [->|Hne].
    + rewrite list_lookup_insert_eq by done. destruct (was_empty G') eqn:EE.
      * split; [by intros ?|]. intros (? & [= <-] & ?). congruence.
      * split; [eauto|]. intros _. by left.
    + rewrite list_lookup_insert_ne by done. rewrite <-H2, Hh.
      destruct (was_empty G'); [|done]. simpl. rewrite elem_of_cons. intuition.
  - intros g' G1. rewrite Hg, Hw, Ins, Hrest. destruct (decide (g' = g)) as [->|Hne].
    + rewrite list_lookup_insert_eq by done. intros [= <-].
      rewrite (rest_of_absent g l1 Hn1), (rest_of_absent g l2 Hn2). simpl. by rewrite app_nil_r.
    + rewrite list_lookup_insert_ne by done. intros E1. rewrite (H3 _ _ E1), El, Hrest.
      assert (Hz : ∀ v, at_work [v] = [] ∨ at_work [v] = [g] → rest_of g' [v] = []).
      { intros v Hv. apply rest_of_absent. destruct Hv as [-> | ->]; [by intros ?%elem_of_nil|].
        by intros ?%list_elem_of_singleton. }
      rewrite (Hz w) by (rewrite Hat; destruct (was_empty G'); auto).
      by rewrite (Hz (Executing g rest)) by by right.
Qed.

(** A call that waits sends its group. *)
Lemma holders_send s k g l :
  senders s !! k = Some g → delete k (senders s) ++ g :: l ≡ₚ senders s ++ l.
Proof.
  intros E. destruct (delete_split _ _ _ E) as (l1 & l2 & -> & ->). solve_Permutation.
Qed.
Lemma receiving_at_work gs i w :
  gs !! i = Some Receiving → at_work (<[i := w]> gs) ≡ₚ at_work [w] ++ at_work gs.
Proof.
  intros E. destruct (place_split _ _ _ E) as (l1 & l2 & -> & _ & Ins). rewrite Ins.
  change (w :: l2) with ([w] ++ l2). change (Receiving :: l2) with ([@Receiving T] ++ l2).
  rewrite !at_work_app. simpl. solve_Permutation.
Qed.
Lemma receiving_rest_of gs i w g :
  gs !! i = Some Receiving → rest_of g [w] = [] → rest_of g (<[i := w]> gs) = rest_of g gs.
Proof.
  intros E Hw. destruct (place_split _ _ _ E) as (l1 & l2 & -> & _ & Ins). rewrite Ins.
  change (w :: l2) with ([w] ++ l2). change (Receiving :: l2) with ([@Receiving T] ++ l2).
  by rewrite !rest_of_app, Hw.
Qed.

Lemma rest_of_at gs i g rest :
  NoDup (at_work gs) → gs !! i = Some (Executing g rest) → rest_of g gs = rest.
Proof.
  intros Hnd E. destruct (place_split _ _ _ E) as (l1 & l2 & -> & _ & _).
  change (?a :: l2) with ([a] ++ l2) in *. rewrite !at_work_app in Hnd. simpl in Hnd.
  rewrite <-Permutation_middle in Hnd. apply NoDup_cons in Hnd as [Hn _].
  rewrite not_elem_of_app in Hn. destruct Hn as [Hn1 Hn2].
  rewrite !rest_of_app, (rest_of_absent g l1 Hn1), (rest_of_absent g l2 Hn2).
  unfold rest_of. simpl. rewrite bool_decide_eq_true_2 by done. by rewrite !app_nil_r.
Qed.
Lemma once_at_work s : consistent s → NoDup (at_work (goroutines s)).
Proof. intros [H _ _]. unfold holders in H. by rewrite !NoDup_app in H; destruct H as (_ & _ & _ & _ & H). Qed.
Lemma executing_group s i g rest :
  consistent s → goroutines s !! i = Some (Executing g rest) →
  ∃ G, groups s !! g = Some G ∧ was_empty G = false ∧ asked G = ran G ++ rest ++ pending_tasks G.
Proof.
  intros Hs E. assert (Hin : g ∈ holders s).
  { unfold holders. rewrite !elem_of_app. right. right. by eapply at_work_lookup. }
  apply (held s Hs) in Hin as (G & EG & Hne). exists G. split_and!; [done|done|].
  rewrite (in_order s Hs g G EG). by rewrite (rest_of_at _ i g rest (once_at_work s Hs) E).
Qed.
Lemma rest_of_one g rest : rest_of g [@Executing T g rest] = rest.
Proof. unfold rest_of. simpl. rewrite bool_decide_eq_true_2 by done. by rewrite app_nil_r. Qed.

Context (queue_size : nat).

Lemma executor_step_consistent e s s' : step queue_size e s = Some s' → consistent s → consistent s'.
Proof.
  unfold step. destruct (crashed s); [done|]. intros E Hs. destruct e as [|g t|g j| |k|k i|i|i].
  - injection E as <-. destruct Hs as [H1 H2 H3]. split; [done| |].
    + intros g. change (holders (NewGroup s)) with (holders s). simpl. rewrite H2. split.
      * intros (G & EG & HG). exists G. split; [|done]. by apply lookup_app_l_Some.
      * intros (G & [EG|[_ EG]]%lookup_app_Some & HG); [by exists G|].
        apply list_lookup_singleton_Some in EG as [_ <-]. done.
    + simpl. intros g G [EG|[Hge EG]]%lookup_app_Some; [by apply H3|].
      apply list_lookup_singleton_Some in EG as [_ <-]. simpl. rewrite app_nil_r.
      rewrite rest_of_absent; [done|]. intros Hg.
      assert (Hin : g ∈ holders s) by (unfold holders; rewrite !elem_of_app; auto).
      apply H2 in Hin as (G & EG & _). apply lookup_lt_Some in EG. lia.
  - unfold Submit in E. destruct (groups s !! g) as [G|] eqn:EG; simpl in E; [|done].
    injection E as <-. apply (consistent_append s _ g G (Task t)); [done..| |exact Hs].
    unfold holders. simpl. destruct (was_empty G); [|done]. solve_Permutation.
  - unfold Join in E. destruct (groups s !! g) as [G|] eqn:EG; simpl in E; [|done].
    destruct (was_empty G) eqn:EE; injection E as <-; [done|].
    apply (consistent_append s _ g G (Unlock j)); [done..| |exact Hs]. by rewrite EE.
  - injection E as <-. unfold Close.
    destruct (closed s); by apply (executor_moved_consistent s).
  - unfold send in E. destruct (senders s !! k) as [g|] eqn:Eg; simpl in E; [|done].
    destruct (closed s); [injection E as <-; by apply (executor_moved_consistent s)|].
    destruct (_ <? _)%nat; [|done]. injection E as <-.
    apply (executor_moved_consistent s); [|done|done|exact Hs]. unfold holders. simpl. rewrite <-!app_assoc.
    simpl. rewrite <-(holders_send s k g _ Eg). solve_Permutation.
  - unfold hand_over in E. destruct (senders s !! k) as [g|] eqn:Eg; simpl in E; [|done].
    destruct (goroutines s !! i) as [[| |]|] eqn:Ei; try done.
    destruct (pending_groups s) eqn:Ep; [|done]. destruct (closed s); [done|]. injection E as <-.
    apply (executor_moved_consistent s); [|done| |exact Hs]; simpl.
    + unfold holders. simpl. rewrite receiving_at_work by done. rewrite Ep. simpl.
      by apply holders_send.
    + intros g'. apply receiving_rest_of; [done|]. unfold rest_of. simpl. by case_bool_decide.
  - unfold receive in E. destruct (goroutines s !! i) as [[| |]|] eqn:Ei; try done.
    destruct (pending_groups s) as [|g gs] eqn:Ep.
    + destruct (closed s); [|done]. injection E as <-.
      apply (executor_moved_consistent s); [|done| |exact Hs]; simpl; [|by intros; apply receiving_rest_of].
      unfold holders. simpl. rewrite receiving_at_work by done. by rewrite Ep.
    + injection E as <-. apply (executor_moved_consistent s); [|done| |exact Hs]; simpl.
      * unfold holders. simpl. rewrite receiving_at_work by done. rewrite Ep. simpl.
        solve_Permutation.
      * intros g'. apply receiving_rest_of; [done|]. unfold rest_of. simpl. by case_bool_decide.
  - unfold execute_pending in E. destruct (goroutines s !! i) as [[|g rest|]|] eqn:Ei; try done.
    destruct (executing_group s i g rest Hs Ei) as (G & EG & Hne & Ho). rewrite EG in E. simpl in E.
    destruct rest as [|t rest]; [destruct (pending_tasks G) as [|t ts] eqn:Et|]; injection E as <-.
    + apply (consistent_execute s _ i g G [] Receiving (clear_batch G)); try done; simpl;
        unfold was_empty; simpl; by rewrite Et.
    + apply (consistent_execute s _ i g G [] (Executing g (t :: ts)) (take_batch G)); try done.
      { unfold was_empty. simpl. by rewrite Et. }
      rewrite rest_of_one. simpl. rewrite app_nil_r. exact Ho.
    + apply (consistent_execute s _ i g G (t :: rest) (Executing g rest) (run_task t G)); try done.
      * change (was_empty (run_task t G)) with (was_empty G). by rewrite Hne.
      * rewrite rest_of_one. simpl. by rewrite Ho, <-!app_assoc.
Qed.
Lemma executor_Init_consistent n : consistent (Init n).
Proof.
  assert (Hw : at_work (replicate n (@Receiving T)) = []) by (induction n; done).
  split.
  - unfold holders. simpl. rewrite Hw. constructor.
  - intros g. unfold holders. simpl. rewrite Hw. split; [by intros ?%elem_of_nil|]. by intros (? & ? & ?).
  - by intros g G.
Qed.
Lemma executor_reachable_consistent n es s : run (step queue_size) es (Init n) = Some s → consistent s.
Proof.
  intros E. eapply (run_invariant (step queue_size) consistent); [|exact E|apply executor_Init_consistent].
  intros; by eapply executor_step_consistent.
Qed.

(** * Progress *)
(** What the scheduler does, as opposed to the callers. *)
Definition scheduled (e : event T) : bool :=
  match e with ESend _ | EHandOver _ _ | EReceive _ | EExecute _ => true | _ => false end.
(** An upper bound of the steps that remain: a group is sent, received and left, a task is taken
    into a batch and run. *)
Definition busy (w : goroutine T) : nat :=
  match w with Executing _ rest => S (length rest) | _ => 0 end.
Definition work s : nat :=
  (3 * length (senders s) + 2 * length (pending_groups s) + sum_list_with busy (goroutines s) +
   sum_list_with (λ G, 2 * length (pending_tasks G)) (groups s))%nat.

(** While the channel is open no goroutine has ended, and no call has panicked. *)
Definition open s : Prop :=
  closed s = false → crashed s = false ∧ Forall (λ w, w ≠ Ended) (goroutines s).
Lemma step_open e s s' : step queue_size e s = Some s' → open s → open s'.
Proof.
  unfold step, open. intros E Hs. destruct (crashed s) eqn:Ec in E; [done|].
  destruct e as [|g t|g j| |k|k i|i|i]; simpl in E.
  - injection E as <-. done.
  - unfold Submit in E. destruct (groups s !! g); simpl in E; [|done]. by injection E as <-.
  - unfold Join in E. destruct (groups s !! g); simpl in E; [|done].
    destruct (was_empty _); by injection E as <-.
  - injection E as <-. unfold Close. by destruct (closed s) eqn:El; simpl; rewrite ?El.
  - unfold send in E. destruct (senders s !! k); simpl in E; [|done].
    destruct (closed s) eqn:El; [injection E as <-; simpl; congruence|].
    destruct (_ <? _)%nat; [|done]. by injection E as <-.
  - unfold hand_over in E. destruct (senders s !! k); simpl in E; [|done].
    destruct (goroutines s !! i) as [[| |]|]; try done. destruct (pending_groups s); [|done].
    destruct (closed s); [done|]. injection E as <-. simpl. intros _. split; [by apply Hs|].
    apply Forall_insert; [by apply Hs|done].
  - unfold receive in E. destruct (goroutines s !! i) as [[| |]|]; try done.
    destruct (pending_groups s); [destruct (closed s); [|done]|]; injection E as <-; simpl; [done|].
    intros El. destruct (Hs El). split; [done|]. by apply Forall_insert.
  - unfold execute_pending in E. destruct (goroutines s !! i) as [[|g rest|]|]; try done.
    destruct (groups s !! g) as [G|]; simpl in E; [|done].
    destruct rest as [|t rest]; [destruct (pending_tasks G)|]; injection E as <-; simpl;
      intros El; destruct (Hs El); (split; [done|]); by apply Forall_insert.
Qed.
Lemma reachable_open n es s : run (step queue_size) es (Init n) = Some s → open s.
Proof.
  intros E. eapply (run_invariant (step queue_size) open); [|exact E|].
  - intros; by eapply step_open.
  - intros _. split; [done|]. simpl. by apply Forall_replicate.
Qed.

Lemma executor_scheduled_works e s s' :
  scheduled e → closed s = false → step queue_size e s = Some s' →
  closed s' = false ∧ (work s' < work s)%nat ∧ asked <$> groups s' = asked <$> groups s ∧
  length (goroutines s') = length (goroutines s).
Proof.
  unfold step. destruct (crashed s) eqn:Ec; [done|]. intros Hi El E.
  destruct e as [|g t|g j| |k|k i|i|i]; try done; simpl in E.
  - unfold send in E. destruct (senders s !! k) eqn:Ek; simpl in E; [|done]. rewrite El in E.
    destruct (_ <? _)%nat; [|done]. injection E as <-. unfold work. simpl.
    apply length_delete_lt in Ek. rewrite length_app. simpl. split_and!; [done|lia|done..].
  - unfold hand_over in E. destruct (senders s !! k) eqn:Ek; simpl in E; [|done].
    destruct (goroutines s !! i) as [[| |]|] eqn:Ei; try done.
    destruct (pending_groups s) eqn:Ep; [|done]. rewrite El in E. injection E as <-.
    unfold work. simpl. apply length_delete_lt in Ek.
    pose proof (sum_insert busy _ _ _ (Executing n []) Ei) as Hb. simpl in Hb. rewrite Ep. simpl.
    rewrite length_insert. split_and!; [done|lia|done..].
  - unfold receive in E. destruct (goroutines s !! i) as [[| |]|] eqn:Ei; try done.
    destruct (pending_groups s) as [|g gs] eqn:Ep; [by rewrite El in E|]. injection E as <-.
    unfold work. simpl. pose proof (sum_insert busy _ _ _ (Executing g []) Ei) as Hb. simpl in Hb.
    rewrite Ep. simpl. rewrite length_insert. split_and!; [done|lia|done..].
  - unfold execute_pending in E. destruct (goroutines s !! i) as [[|g rest|]|] eqn:Ei; try done.
    destruct (groups s !! g) as [G|] eqn:EG; simpl in E; [|done].
    set (f := λ G, (2 * length (pending_tasks G))%nat).
    assert (Hg : ∀ G', asked G' = asked G → asked <$> <[g := G']> (groups s) = asked <$> groups s).
    { intros G' Ea. rewrite list_fmap_insert, Ea. apply list_insert_id.
      by rewrite list_lookup_fmap, EG. }
    destruct rest as [|t rest]; [destruct (pending_tasks G) as [|t ts] eqn:Et|];
      injection E as <-; unfold work; cbn [senders pending_groups goroutines groups closed];
      rewrite length_insert; fold f;
      (split_and!; [done| |by apply Hg|done]).
    + pose proof (sum_insert busy _ _ _ Receiving Ei) as Hb.
      pose proof (sum_insert f _ _ _ (clear_batch G) EG) as Hf. unfold f in Hf at 2 4. simpl in Hb, Hf. lia.
    + pose proof (sum_insert busy _ _ _ (Executing g (t :: ts)) Ei) as Hb.
      pose proof (sum_insert f _ _ _ (take_batch G) EG) as Hf. unfold f in Hf at 2 4. simpl in Hb, Hf.
      rewrite Et in Hf. simpl in Hf. lia.
    + pose proof (sum_insert busy _ _ _ (Executing g rest) Ei) as Hb.
      pose proof (sum_insert f _ _ _ (run_task t G) EG) as Hf. unfold f in Hf at 2 4. simpl in Hb, Hf. lia.
Qed.

(** Where the scheduler can do nothing, nothing is left to do. *)
Lemma executor_quiet_is_done s :
  consistent s → open s → closed s = false → goroutines s ≠ [] →
  (∀ e, scheduled e → step queue_size e s = None) →
  senders s = [] ∧ Forall (λ G, ran G = asked G) (groups s).
Proof.
  intros Hc Ho El Hne Hq. destruct (Ho El) as [Ecr Hend].
  assert (Hstep : ∀ e, step queue_size e s = step queue_size e s) by done.
  assert (Hidle : ∀ i w, goroutines s !! i = Some w → w = Receiving).
  { intros i [|g rest|] Ei; [done| |by eapply Forall_lookup_1 in Hend].
    destruct (executing_group s i g rest Hc Ei) as (G & EG & _).
    specialize (Hq (EExecute i) I). unfold step in Hq. rewrite Ecr in Hq. simpl in Hq.
    unfold execute_pending in Hq. rewrite Ei, EG in Hq. simpl in Hq.
    destruct rest; [destruct (pending_tasks G)|]; done. }
  destruct (goroutines s) as [|w gs] eqn:Eg; [done|].
  assert (w = Receiving) as -> by by apply (Hidle 0%nat).
  assert (Hp : pending_groups s = []).
  { specialize (Hq (EReceive 0) I). unfold step in Hq. rewrite Ecr in Hq. simpl in Hq.
    unfold receive in Hq. rewrite Eg in Hq. simpl in Hq. by destruct (pending_groups s). }
  assert (Hs : senders s = []).
  { specialize (Hq (EHandOver 0 0) I). unfold step in Hq. rewrite Ecr in Hq. simpl in Hq.
    unfold hand_over in Hq. destruct (senders s) as [|g l]; [done|]. simpl in Hq.
    by rewrite Eg, Hp, El in Hq. }
  split; [done|]. apply Forall_lookup. intros g G EG.
  assert (Hw : at_work (goroutines s) = []).
  { rewrite Eg. clear -Hidle. revert Hidle. generalize (Receiving :: gs). intros l.
    induction l as [|w l IH]; intros Hl; [done|]. pose proof (Hl 0%nat w eq_refl) as ->.
    simpl. apply IH. intros i. apply (Hl (S i)). }
  assert (Hh : g ∉ holders s) by (unfold holders; rewrite Hs, Hp, Hw; apply not_elem_of_nil).
  assert (He : was_empty G = true).
  { destruct (was_empty G) eqn:E; [done|]. exfalso. apply Hh, (held s Hc). eauto. }
  rewrite (in_order s Hc g G EG), rest_of_absent by (rewrite Hw; apply not_elem_of_nil).
  unfold was_empty in He. destruct (pending_tasks G); [|done]. simpl. by rewrite app_nil_r.
Qed.
Lemma step_length e s s' :
  step queue_size e s = Some s' → length (goroutines s') = length (goroutines s).
Proof.
  unfold step. intros E. destruct (crashed s) in E; [done|].
  destruct e as [|g t|g j| |k|k i|i|i]; simpl in E.
  - by injection E as <-.
  - unfold Submit in E. destruct (groups s !! g); simpl in E; [|done]. by injection E as <-.
  - unfold Join in E. destruct (groups s !! g); simpl in E; [|done].
    destruct (was_empty _); by injection E as <-.
  - injection E as <-. unfold Close. by destruct (closed s).
  - unfold send in E. destruct (senders s !! k); simpl in E; [|done].
    destruct (closed s); [|destruct (_ <? _)%nat; [|done]]; by injection E as <-.
  - unfold hand_over in E. destruct (senders s !! k); simpl in E; [|done].
    destruct (goroutines s !! i) as [[| |]|]; try done. destruct (pending_groups s); [|done].
    destruct (closed s); [done|]. injection E as <-. apply length_insert.
  - unfold receive in E. destruct (goroutines s !! i) as [[| |]|]; try done.
    destruct (pending_groups s); [destruct (closed s); [|done]|]; injection E as <-; apply length_insert.
  - unfold execute_pending in E. destruct (goroutines s !! i) as [[|g rest|]|]; try done.
    destruct (groups s !! g) as [G|]; simpl in E; [|done].
    destruct rest; [destruct (pending_tasks G)|]; injection E as <-; apply length_insert.
Qed.
Lemma reachable_length n es s :
  run (step queue_size) es (Init n) = Some s → length (goroutines s) = n.
Proof.
  intros E. eapply (run_invariant (step queue_size) (λ s, length (goroutines s) = n)); [|exact E|].
  - intros e s1 s2 E1 <-. by apply step_length in E1.
  - simpl. apply length_replicate.
Qed.
(** What the runs of the scheduler keep. *)
Lemma scheduled_run es s s' :
  Forall scheduled es → closed s = false → run (step queue_size) es s = Some s' →
  closed s' = false ∧ asked <$> groups s' = asked <$> groups s ∧
  length (goroutines s') = length (goroutines s).
Proof.
  revert s. induction es as [|e es IH]; intros s; simpl; [by intros _ ? [= ->]|].
  intros Hf El. inversion Hf as [|? ? He Hes]; subst.
  destruct (step queue_size e s) as [s1|] eqn:E1; simpl; [|done]. intros E2.
  destruct (executor_scheduled_works _ _ _ He El E1) as (El1 & _ & Ea & Eg).
  destruct (IH s1 Hes El1 E2) as (? & ? & ?). split_and!; congruence.
Qed.

(** C17: every_task_runs.  While the executor is open and has a goroutine, no scheduler can avoid
    the tasks: what it does without new calls is bounded by [work], and where it can do nothing
    more, no call waits to send and every group has run all that it was asked, the [Unlock]s of
    the [Join]s included. *)
Theorem every_task_runs n es s es' s' :
  (0 < n)%nat → run (step queue_size) es (Init n) = Some s → closed s = false →
  Forall scheduled es' → run (step queue_size) es' s = Some s' →
  (length es' + work s' ≤ work s)%nat ∧
  ((∀ e, scheduled e → step queue_size e s' = None) →
   senders s' = [] ∧
   ∀ g G, groups s !! g = Some G → ∃ G', groups s' !! g = Some G' ∧ ran G' = asked G).
Proof.
  intros Hn E El Hes E'. assert (Er : run (step queue_size) (es ++ es') (Init n) = Some s').
  { by rewrite run_app, E. }
  destruct (scheduled_run _ _ _ Hes El E') as (El' & Ea & Eg). split.
  - eapply (run_bounded (step queue_size) scheduled (λ s, closed s = false)); [|done..].
    intros e s1 s2 He E1 E2. by destruct (executor_scheduled_works e s1 s2 He E1 E2) as (? & ? & _).
  - intros Hq. destruct (executor_quiet_is_done s') as [Hs Hd]; [by eapply executor_reachable_consistent|
      by eapply reachable_open|done| |done|].
    { rewrite <-(reachable_length _ _ _ Er) in Hn. intros Hz. rewrite Hz in Hn.
      simpl in Hn. lia. }
    split; [done|]. intros g G EG.
    assert (Ha : (asked <$> groups s') !! g = Some (asked G)) by by rewrite Ea, list_lookup_fmap, EG.
    rewrite list_lookup_fmap in Ha. apply fmap_Some in Ha as (G' & EG' & ->).
    exists G'. split; [done|]. by eapply Forall_lookup_1 in Hd.
Qed.

(** C18: tasks_of_a_group_in_order.  At every moment of every schedule: a group is at one goroutine
    at most; its tasks have run in the order of the calls, without gaps; a [Join] that finds the
    group empty finds all of its tasks run, and one that waits returns when all that was asked
    before it has run. *)
Theorem tasks_of_a_group_in_order n es s g G :
  run (step queue_size) es (Init n) = Some s → groups s !! g = Some G →
  (∀ i j r r', goroutines s !! i = Some (Executing g r) → goroutines s !! j = Some (Executing g r') →
     i = j) ∧
  ran G `prefix_of` asked G ∧
  (was_empty G → ran G = asked G) ∧
  (∀ j l1 l2, asked G = l1 ++ Unlock j :: l2 → Unlock j ∉ l1 → Unlock j ∈ ran G →
     l1 `prefix_of` ran G).
Proof.
  intros E EG. apply executor_reachable_consistent in E as Hc. pose proof (in_order s Hc g G EG) as Ho.
  assert (Hpre : ran G `prefix_of` asked G) by (rewrite Ho; by eexists).
  split_and!; [|done| |].
  - intros i j r r' Ei Ej. pose proof (once_at_work s Hc) as Hnd.
    destruct (decide (i = j)) as [|Hij]; [done|].
    destruct (place_split _ _ _ Ei) as (l1 & l2 & El & Hl & Ins). exfalso.
    apply (f_equal (lookup j)) in El as Ej'. rewrite Ej in Ej'.
    rewrite El in Hnd. change (?a :: l2) with ([a] ++ l2) in Hnd. rewrite !at_work_app in Hnd.
    simpl in Hnd. rewrite <-Permutation_middle in Hnd. apply NoDup_cons in Hnd as [Hn _].
    apply Hn. rewrite <-at_work_app. pose proof (list_lookup_insert_ne (goroutines s) i j Receiving Hij) as Hd.
    rewrite Ins, Ej in Hd. apply at_work_lookup in Hd. revert Hd.
    change (Receiving :: l2) with ([@Receiving T] ++ l2). by rewrite !at_work_app.
  - intros He. rewrite Ho, rest_of_absent.
    + unfold was_empty in He. destruct (pending_tasks G); [|done]. simpl. by rewrite app_nil_r.
    + intros Hin. assert (Hh : g ∈ holders s) by (unfold holders; rewrite !elem_of_app; auto).
      apply (held s Hc) in Hh as (G' & EG' & He'). simplify_eq. by rewrite He' in He.
  - intros j l1 l2 Ea Hn Hin. destruct Hpre as [l3 E3]. rewrite E3 in Ea.
    apply app_eq_inv in Ea as [(k & E1 & E2)|(k & E1 & E2)].
    + rewrite E1. by eexists.
    + exfalso. rewrite E1 in Hn. apply Hn. rewrite elem_of_app. by left.
Qed.
End facts.
