(* ===== verification/Pool.v ===== *)
(** [util.Pool] (ebla/util/pool.go), from which the readers of the database take their iterators, as a
    program of atomic steps (Schedules.v): the calls hold the lock of the pool. *)
From S2P Require Import Prelude Schedules.

(** An item is the number of the call of the factory that made it. *)
Record PoolItemHandle : Type := { item : nat; h_generation : Z }.
(** [left_behind] holds the channels that a cleanup has to empty, [out] the handles of the clients.
    [made_at] and [closed_items] are the history: the number of [Invalidate]s before an item was
    made, and the items on which [Close] was called. *)
Record Pool : Type := {
  handles : list PoolItemHandle;
  capacity : nat;
  generation : Z;
  left_behind : list (list PoolItemHandle);
  out : list PoolItemHandle;
  invalidations : nat;
  made_at : list nat;
  closed_items : list nat
}.
Definition Init (capacity : nat) : Pool := {|
  handles := []; capacity := capacity; generation := 0; left_behind := []; out := [];
  invalidations := 0; made_at := []; closed_items := [] |}.
(** [make_handle]: the item, and the generation of the pool. *)
Definition make_handle (s : Pool) : PoolItemHandle :=
  {| item := length (made_at s); h_generation := generation s |}.
Definition Get (s : Pool) : PoolItemHandle * Pool :=
  match handles s with
  | h :: hs => (h, {|
      handles := hs; capacity := capacity s; generation := generation s;
      left_behind := left_behind s; out := out s ++ [h]; invalidations := invalidations s;
      made_at := made_at s; closed_items := closed_items s |})
  | [] => (make_handle s, {|
      handles := []; capacity := capacity s; generation := generation s;
      left_behind := left_behind s; out := out s ++ [make_handle s];
      invalidations := invalidations s; made_at := made_at s ++ [invalidations s];
      closed_items := closed_items s |})
  end.
(** [Return] of the [i]-th handle that is out. *)
Definition Return (i : nat) (s : Pool) : option Pool :=
  h ← out s !! i;
  Some (if negb (h_generation h =? generation s) || negb (length (handles s) <? capacity s)%nat then {|
      handles := handles s; capacity := capacity s; generation := generation s;
      left_behind := left_behind s; out := delete i (out s); invalidations := invalidations s;
      made_at := made_at s; closed_items := closed_items s ++ [item h] |}
    else {|
      handles := handles s ++ [h]; capacity := capacity s; generation := generation s;
      left_behind := left_behind s; out := delete i (out s); invalidations := invalidations s;
      made_at := made_at s; closed_items := closed_items s |}).
Definition Invalidate (s : Pool) : Pool := {|
  handles := []; capacity := capacity s; generation := u32 (generation s + 1);
  left_behind := left_behind s ++ [handles s]; out := out s;
  invalidations := S (invalidations s); made_at := made_at s; closed_items := closed_items s |}.
(** The function that [Invalidate] gave back, for the [j]-th of the channels. *)
Definition cleanup (j : nat) (s : Pool) : option Pool :=
  hs ← left_behind s !! j;
  Some {|
    handles := handles s; capacity := capacity s; generation := generation s;
    left_behind := delete j (left_behind s); out := out s; invalidations := invalidations s;
    made_at := made_at s; closed_items := closed_items s ++ map item hs |}.

Inductive event : Type :=
| EGet
| EReturn (i : nat)
| EInvalidate
| ECleanup (j : nat).
Definition step (e : event) (s : Pool) : option Pool :=
  match e with
  | EGet => Some (Get s).2
  | EReturn i => Return i s
  | EInvalidate => Some (Invalidate s)
  | ECleanup j => cleanup j s
  end.

(** * What [util.Pool] promises to its clients under every schedule *)
(** The items of the handles that somebody has. *)
Definition items (s : Pool) : list nat :=
  map item (handles s) ++ map item (concat (left_behind s)) ++ map item (out s) ++ closed_items s.
(** Every item is at one place, and the generation of a handle tells the age of its item. *)
Record consistent (s : Pool) : Prop := {
  everywhere : items s ≡ₚ seq 0 (length (made_at s));
  current : generation s = u32 (Z.of_nat (invalidations s));
  aged : ∀ h, h ∈ handles s ++ out s → ∃ n, made_at s !! item h = Some n ∧
    (n ≤ invalidations s)%nat ∧ h_generation h = u32 (Z.of_nat n);
  valid : Forall (λ h, h_generation h = generation s) (handles s)
}.

Lemma u32_inj a b : 0 <= a < 2 ^ 32 → 0 <= b < 2 ^ 32 → u32 a = u32 b → a = b.
Proof. intros Ha Hb. unfold u32. rewrite !Z.mod_small; auto. Qed.
Lemma u32_succ n : u32 (u32 (Z.of_nat n) + 1) = u32 (Z.of_nat (S n)).
Proof. unfold u32. rewrite Zplus_mod_idemp_l. f_equal. lia. Qed.

Lemma pool_step_consistent e s s' : step e s = Some s' → consistent s → consistent s'.
Proof.
  intros E [H1 H2 H3 H4]. destruct e as [|i| |j]; simpl in E.
  - injection E as <-. unfold Get. destruct (handles s) as [|h hs] eqn:Eh; simpl.
    + split; simpl; [| |intros h|done].
      * unfold items in *. simpl. rewrite length_app, Nat.add_1_r, seq_S, <-H1, Eh. simpl.
        rewrite map_app. simpl. solve_Permutation.
      * done.
      * rewrite elem_of_app, list_elem_of_singleton. intros [Hh | ->].
        -- destruct (H3 h) as (n & ? & ?); [rewrite elem_of_app; auto|]. exists n.
           split; [|done]. by apply lookup_app_l_Some.
        -- exists (invalidations s). simpl. split_and!; [by apply list_lookup_middle|done|done].
    + split; simpl; [|done| |by inversion H4].
      * unfold items in *. simpl. rewrite <-H1, Eh, map_app. simpl. solve_Permutation.
      * intros h' Hh. apply H3. set_solver.
  - unfold Return in E. destruct (out s !! i) as [h|] eqn:Ei; simpl in E; [|done].
    destruct (delete_split _ _ _ Ei) as (l1 & l2 & El & Ed).
    destruct (_ || _) eqn:Ec; injection E as <-; split; simpl; try done; rewrite ?Ed.
    + unfold items in *. simpl. rewrite <-H1, El, !map_app. simpl. solve_Permutation.
    + intros h' Hh. apply H3. rewrite El. set_solver.
    + unfold items in *. simpl. rewrite <-H1, El, !map_app. simpl. solve_Permutation.
    + intros h' Hh. apply H3. rewrite El. set_solver.
    + apply Forall_app_2; [done|]. apply orb_false_iff in Ec as [Ec _].
      apply negb_false_iff, Z.eqb_eq in Ec. by constructor.
  - injection E as <-. split; simpl; [| | |done].
    + unfold items in *. simpl. rewrite <-H1, concat_app. simpl. rewrite !map_app. simpl.
      solve_Permutation.
    + rewrite H2. apply u32_succ.
    + intros h Hh. destruct (H3 h) as (n & ? & ? & ?); [rewrite elem_of_app; auto|].
      exists n. split_and!; [done|lia|done].
  - unfold cleanup in E. destruct (left_behind s !! j) as [hs|] eqn:Ej; simpl in E; [|done].
    destruct (delete_split _ _ _ Ej) as (l1 & l2 & El & Ed). injection E as <-.
    split; simpl; [|done..]. unfold items in *. simpl.
    rewrite <-H1, Ed, El, !concat_app. simpl. rewrite !map_app. solve_Permutation.
Qed.
Lemma pool_Init_consistent n : consistent (Init n).
Proof. split; simpl; try done. by intros h ?%elem_of_nil. Qed.
Lemma pool_reachable_consistent n es s : run step es (Init n) = Some s → consistent s.
Proof.
  intros E. eapply (run_invariant step consistent); [|exact E|apply pool_Init_consistent].
  intros; by eapply pool_step_consistent.
Qed.

(** C20: pool_gives_current_items.  While fewer than 2^32 invalidations were made, [Get] of the pool
    gives an item that was made after the last of them, that no client has and that was not
    closed; and every item that was ever made is with a client, in a channel or closed, once. *)
Theorem pool_gives_current_items n es s :
  run step es (Init n) = Some s → Z.of_nat (invalidations s) < 2 ^ 32 →
  (items s ≡ₚ seq 0 (length (made_at s))) ∧
  ((made_at (Get s).2) !! (item (Get s).1) = Some (invalidations s)) ∧
  ¬ (item (Get s).1 ∈ map item (out s)) ∧ ¬ (item (Get s).1 ∈ closed_items s).
Proof.
  intros E Hb. apply pool_reachable_consistent in E as [H1 H2 H3 H4]. split; [done|].
  assert (Hnd : NoDup (items s)) by (rewrite H1; apply NoDup_seq).
  unfold Get. destruct (handles s) as [|h hs] eqn:Eh; simpl.
  - split; [by apply list_lookup_middle|].
    assert (Hn : length (made_at s) ∉ items s) by (rewrite H1, elem_of_seq; lia).
    unfold items in Hn. rewrite !elem_of_app in Hn. tauto.
  - split.
    + destruct (H3 h) as (m & Em & Hm & Hg); [by left|]. rewrite Em. f_equal.
      inversion H4 as [|? ? Hh _]; subst. rewrite Hg, H2 in Hh.
      apply u32_inj in Hh; lia.
    + unfold items in Hnd. rewrite Eh in Hnd. simpl in Hnd. apply NoDup_cons in Hnd as [Hnd _].
      rewrite !elem_of_app in Hnd. tauto.
Qed.
