(* ===== verification/HasherPool.v ===== *)
(** The pool of hashers (ebla/util/keccak256/keccak256.go) and the calls of [Hash] that use it, as a
    program of atomic steps (Schedules.v): the operations on a channel and on a hasher.  The program
    begins after [init_pool]. *)
From S2P Require Import Prelude Storage Schedules.

Section hashers.
(** What a sponge that absorbed a string gives in its reads of 32 bytes: the first is the hash. *)
Context (squeeze : bytes → nat → bytes).

Inductive sponge : Type :=
| Absorbing (b : bytes)
| Squeezing (b : bytes) (reads : nat).
(** [result_buf] is the place of a buffer in the memory of the program. *)
Record Hasher : Type := {
  state : sponge;
  result_buf : nat;
  result_buf_escaped : bool;
  from_pool : bool
}.
(** A call of [Hash] or of [HashAndReturnByValue]: the hasher it has, the bytes it has still to write,
    and at the end its result, a buffer or a value. *)
Inductive result : Type :=
| Buffer (b : nat)
| Value (h : bytes).
Inductive call : Type :=
| Writing (hasher : nat) (all rest : list bytes) (by_value : bool)
| Returning (hasher : nat) (all : list bytes) (r : result)
| Done (all : list bytes) (r : result).
(** [cleaner] is the hasher that the goroutine of the pool holds, if any. *)
Record Program : Type := {
  hashers : list nat;
  hashers_expended : list nat;
  cleaner : option nat;
  heap : list Hasher;
  buffers : list bytes;
  calls : list call
}.
Definition num_cap (num_hashers : nat) : nat := num_hashers / 2 + 1.
Definition zero_hash : bytes := replicate 32 0.
(** [new(Hasher).Init()] *)
Definition new_hasher (pool : bool) (buf : nat) : Hasher :=
  {| state := Absorbing []; result_buf := buf; result_buf_escaped := false; from_pool := pool |}.
(** [init_pool] *)
Definition init_pool (num_hashers : nat) : Program := {|
  hashers := seq 0 num_hashers; hashers_expended := []; cleaner := None;
  heap := map (new_hasher true) (seq 0 num_hashers);
  buffers := replicate num_hashers zero_hash; calls := [] |}.
(** [InitPool]: the pool is made once. *)
Definition InitPool (size : nat) (s : option Program) : outcome Program :=
  match s with
  | Some _ => Panic "already initialized: either by you or lazily"
  | None => Ret (init_pool size)
  end.
Definition Write (b : bytes) (h : Hasher) : option Hasher :=
  match state h with
  | Absorbing a => Some {| state := Absorbing (a ++ b); result_buf := result_buf h;
      result_buf_escaped := result_buf_escaped h; from_pool := from_pool h |}
  | Squeezing _ _ => None
  end.
Definition read (h : Hasher) : bytes * Hasher :=
  let '(b, n) := match state h with Absorbing a => (a, 0%nat) | Squeezing a n => (a, n) end in
  (squeeze b n, {| state := Squeezing b (S n); result_buf := result_buf h;
     result_buf_escaped := result_buf_escaped h; from_pool := from_pool h |}).
Definition escape (h : Hasher) : Hasher := {|
  state := state h; result_buf := result_buf h; result_buf_escaped := true; from_pool := from_pool h |}.
(** [Reset], with the place of a buffer that is allocated if the old one has escaped. *)
Definition Reset (fresh : nat) (h : Hasher) : Hasher := {|
  state := Absorbing []; result_buf := if result_buf_escaped h then fresh else result_buf h;
  result_buf_escaped := false; from_pool := from_pool h |}.

Definition set_call (c : nat) (v : call) (s : Program) : Program := {|
  hashers := hashers s; hashers_expended := hashers_expended s; cleaner := cleaner s; heap := heap s;
  buffers := buffers s; calls := <[c := v]> (calls s) |}.
Definition set_hasher (i : nat) (h : Hasher) (s : Program) : Program := {|
  hashers := hashers s; hashers_expended := hashers_expended s; cleaner := cleaner s;
  heap := <[i := h]> (heap s); buffers := buffers s; calls := calls s |}.
Definition set_buffers (b : list bytes) (s : Program) : Program := {|
  hashers := hashers s; hashers_expended := hashers_expended s; cleaner := cleaner s; heap := heap s;
  buffers := b; calls := calls s |}.
(** [GetHasherFromPool] begins a call. *)
Definition GetHasherFromPool (bs : list bytes) (by_value : bool) (s : Program) : Program :=
  match hashers s with
  | i :: l => {|
      hashers := l; hashers_expended := hashers_expended s; cleaner := cleaner s; heap := heap s;
      buffers := buffers s; calls := calls s ++ [Writing i bs bs by_value] |}
  | [] => {|
      hashers := []; hashers_expended := hashers_expended s; cleaner := cleaner s;
      heap := heap s ++ [new_hasher false (length (buffers s))];
      buffers := buffers s ++ [zero_hash];
      calls := calls s ++ [Writing (length (heap s)) bs bs by_value] |}
  end.
(** The next operation of a call: a [Write], the read of the result, or [ReturnHasherToPool], which
    waits while the channel is full. *)
Definition go_on (num_hashers c : nat) (s : Program) : option Program :=
  call ← calls s !! c;
  match call with
  | Writing i all (b :: rest) v =>
      h ← heap s !! i; h ← Write b h;
      Some (set_call c (Writing i all rest v) (set_hasher i h s))
  | Writing i all [] v =>
      h ← heap s !! i;
      let '(r, h) := read h in
      Some (if v then set_call c (Returning i all (Value r)) (set_hasher i h s)
            else set_call c (Returning i all (Buffer (result_buf h)))
                   (set_buffers (<[result_buf h := r]> (buffers s)) (set_hasher i (escape h) s)))
  | Returning i all r =>
      h ← heap s !! i;
      if negb (from_pool h) then Some (set_call c (Done all r) s)
      else if (length (hashers_expended s) <? num_cap num_hashers)%nat then
        Some (set_call c (Done all r) {|
          hashers := hashers s; hashers_expended := hashers_expended s ++ [i];
          cleaner := cleaner s; heap := heap s; buffers := buffers s; calls := calls s |})
      else None
  | Done _ _ => None
  end.
(** The goroutine: it takes a hasher and resets it, then puts it back. *)
Definition clean (num_hashers : nat) (s : Program) : option Program :=
  match cleaner s, hashers_expended s with
  | None, i :: l =>
      h ← heap s !! i;
      Some {|
        hashers := hashers s; hashers_expended := l; cleaner := Some i;
        heap := <[i := Reset (length (buffers s)) h]> (heap s);
        buffers := if result_buf_escaped h then buffers s ++ [zero_hash] else buffers s;
        calls := calls s |}
  | None, [] => None
  | Some i, _ =>
      if (length (hashers s) <? num_hashers)%nat then Some {|
        hashers := hashers s ++ [i]; hashers_expended := hashers_expended s; cleaner := None;
        heap := heap s; buffers := buffers s; calls := calls s |}
      else None
  end.

Inductive event : Type :=
| ECall (bs : list bytes) (by_value : bool)
| EGoOn (c : nat)
| EClean.
Definition step (num_hashers : nat) (e : event) (s : Program) : option Program :=
  match e with
  | ECall bs v => Some (GetHasherFromPool bs v s)
  | EGoOn c => go_on num_hashers c s
  | EClean => clean num_hashers s
  end.
End hashers.

(** * What the pool of hashers promises to its callers under every schedule *)
Section facts.
Context (squeeze : bytes → nat → bytes) (num_hashers : nat).
Implicit Types (s : Program) (cs : list call).

Definition in_call (c : call) : option nat :=
  match c with Writing i _ _ _ | Returning i _ _ => Some i | Done _ _ => None end.
(** The hashers that somebody has. *)
Definition owners s : list nat :=
  hashers s ++ hashers_expended s ++ option_list (cleaner s) ++ omap in_call (calls s).
(** A hasher that a call may take. *)
Definition clean_hasher s (i : nat) : Prop :=
  ∃ h, heap s !! i = Some h ∧ state h = Absorbing [] ∧ result_buf_escaped h = false ∧
    from_pool h = true.
(** A result is the first read of the sponge that absorbed the arguments; no hasher writes to its
    buffer any more. *)
Definition stands s (all : list bytes) (r : result) : Prop :=
  match r with
  | Value v => v = squeeze (concat all) 0
  | Buffer b => buffers s !! b = Some (squeeze (concat all) 0) ∧
      ∀ i h, heap s !! i = Some h → result_buf h = b → result_buf_escaped h = true
  end.
Definition call_ok s (c : call) : Prop :=
  match c with
  | Writing i all rest _ => ∃ before h, all = before ++ rest ∧ heap s !! i = Some h ∧
      state h = Absorbing (concat before) ∧ result_buf_escaped h = false
  | Returning i all r => is_Some (heap s !! i) ∧ stands s all r
  | Done all r => stands s all r
  end.
Record consistent s : Prop := {
  one_owner : NoDup (owners s);
  ready : ∀ i, i ∈ hashers s ++ option_list (cleaner s) → clean_hasher s i;
  known : ∀ i, i ∈ hashers_expended s → ∃ h, heap s !! i = Some h ∧ from_pool h = true;
  own_buffer : ∀ i j h h', heap s !! i = Some h → heap s !! j = Some h' →
    result_buf h = result_buf h' → i = j;
  buffer_known : ∀ i h, heap s !! i = Some h → (result_buf h < length (buffers s))%nat;
  pool_size : ∀ i h, heap s !! i = Some h → from_pool h = true → (i < num_hashers)%nat;
  calls_ok : Forall (call_ok s) (calls s)
}.

(** The hashers that are not the one of call [c]. *)
Definition others s (c : nat) : list nat :=
  hashers s ++ hashers_expended s ++ option_list (cleaner s) ++ omap in_call (delete c (calls s)).
Lemma omap_delete {A B} (f : A → option B) l c v :
  l !! c = Some v → omap f l ≡ₚ option_list (f v) ++ omap f (delete c l).
Proof.
  intros E. destruct (delete_split _ _ _ E) as (l1 & l2 & -> & ->). rewrite !omap_app. simpl.
  destruct (f v); simpl; [|done]. solve_Permutation.
Qed.
Lemma owners_split s c v :
  calls s !! c = Some v → owners s ≡ₚ option_list (in_call v) ++ others s c.
Proof. intros E. unfold owners, others. rewrite (omap_delete _ _ _ _ E). solve_Permutation. Qed.
Lemma delete_insert_same {A} (l : list A) c v : delete c (<[c := v]> l) = delete c l.
Proof. revert c. induction l as [|x l IH]; intros [|c]; simpl; [done..|]. by f_equal. Qed.
(** No other call has the hasher of a call. *)
Lemma other_call s c c' v v' i :
  consistent s → calls s !! c = Some v → in_call v = Some i → calls s !! c' = Some v' → c' ≠ c →
  in_call v' ≠ Some i.
Proof.
  intros Hs E Ei E' Hne Ei'. pose proof (one_owner s Hs) as Hnd. rewrite (owners_split _ _ _ E), Ei in Hnd.
  simpl in Hnd. apply NoDup_cons in Hnd as [Hn _]. apply Hn. unfold others. rewrite !elem_of_app.
  right. right. right. apply list_elem_of_omap. exists v'. split; [|done].
  destruct (decide (c' < c)%nat).
  - apply list_elem_of_lookup_2 with c'. by rewrite list_lookup_delete_lt.
  - apply list_elem_of_lookup_2 with (pred c'). rewrite list_lookup_delete_ge by lia.
    by rewrite Nat.succ_pred by lia.
Qed.
Lemma call_hasher s c i : consistent s → c ∈ calls s → in_call c = Some i → is_Some (heap s !! i).
Proof.
  intros Hs Hc Ei. pose proof (calls_ok s Hs) as Hf. rewrite Forall_forall in Hf. specialize (Hf c Hc).
  destruct c as [j all rest v|j all r|]; simpl in *; simplify_eq; [|by destruct Hf].
  destruct Hf as (? & ? & _ & -> & _). done.
Qed.
Lemma owner_known s i : consistent s → i ∈ owners s → is_Some (heap s !! i).
Proof.
  intros Hs. unfold owners. rewrite !elem_of_app. intros [Hi|[Hi|[Hi|Hi]]].
  - destruct (ready s Hs i) as (h & -> & _); [rewrite elem_of_app; auto|done].
  - destruct (known s Hs i Hi) as (h & -> & _). done.
  - destruct (ready s Hs i) as (h & -> & _); [rewrite elem_of_app; auto|done].
  - apply list_elem_of_omap in Hi as (c & Hc & Ei). by eapply call_hasher.
Qed.

(** What a step may do to the memory so that the results stand: it changes the hasher [i] only,
    writes to no buffer that has escaped, and gives the hasher its buffer or a new one. *)
Record quiet_change s s' (i : nat) (h' : Hasher) : Prop := {
  q_heap : ∀ j, j ≠ i → heap s' !! j = heap s !! j;
  q_this : heap s' !! i = Some h';
  q_buffer : (∃ h, heap s !! i = Some h ∧ result_buf h' = result_buf h ∧
                (result_buf_escaped h → result_buf_escaped h')) ∨
             result_buf h' = length (buffers s) ∧ (length (buffers s) < length (buffers s'))%nat;
  q_buffers : ∀ b v, buffers s !! b = Some v →
    (∀ h, heap s !! i = Some h → result_buf h = b → result_buf_escaped h) → buffers s' !! b = Some v;
  q_length : (length (buffers s) ≤ length (buffers s'))%nat
}.
Lemma stands_quiet s s' i h' all r : quiet_change s s' i h' → stands s all r → stands s' all r.
Proof.
  intros [H1 H2 H3 H4 H5]. destruct r as [b|v]; simpl; [|done]. intros [Eb Hb].
  split; [apply H4; [done|]; intros h Eh Er; by rewrite (Hb i h)|].
  intros j h Ej Er. destruct (decide (j = i)) as [->|Hne]; [|rewrite H1 in Ej by done; by apply (Hb j)].
  rewrite H2 in Ej. injection Ej as <-. destruct H3 as [(h0 & E0 & Er0 & He)|[E0 _]].
  - rewrite Er0 in Er. specialize (Hb i h0 E0 Er). rewrite Hb in He. by apply Is_true_true, He.
  - apply lookup_lt_Some in Eb. lia.
Qed.
Lemma call_ok_quiet s s' i h' c :
  quiet_change s s' i h' → in_call c ≠ Some i → call_ok s c → call_ok s' c.
Proof.
  intros Hq Hi. destruct c as [j all rest v|j all r|all r]; simpl in *.
  - rewrite (q_heap _ _ _ _ Hq) by congruence. done.
  - rewrite (q_heap _ _ _ _ Hq) by congruence. intros [? ?].
    split; [done|]. by eapply stands_quiet.
  - by eapply stands_quiet.
Qed.
Lemma own_buffer_quiet s s' i h' : quiet_change s s' i h' → consistent s →
  (∀ j k h1 h2, heap s' !! j = Some h1 → heap s' !! k = Some h2 → result_buf h1 = result_buf h2 → j = k) ∧
  (∀ j h, heap s' !! j = Some h → (result_buf h < length (buffers s'))%nat).
Proof.
  intros [H1 H2 H3 _ H5] Hs.
  assert (Hk : ∀ j h, j ≠ i → heap s' !! j = Some h → result_buf h ≠ result_buf h' ∧
    (result_buf h < length (buffers s'))%nat).
  { intros j h Hne Ej. rewrite H1 in Ej by done. pose proof (buffer_known s Hs j h Ej).
    split; [|lia]. destruct H3 as [(h0 & E0 & -> & _)|[-> _]]; [|lia].
    intros Er. by apply Hne, (own_buffer s Hs j i h h0). }
  split.
  - intros j k h1 h2 E1 E2 Er. destruct (decide (j = i)) as [->|Hj], (decide (k = i)) as [->|Hne].
    + done.
    + rewrite H2 in E1. injection E1 as <-. by destruct (Hk k h2 Hne E2) as [[] _].
    + rewrite H2 in E2. injection E2 as <-. by destruct (Hk j h1 Hj E1) as [[] _].
    + rewrite H1 in E1, E2 by done. by eapply (own_buffer s Hs).
  - intros j h Ej. destruct (decide (j = i)) as [->|Hne]; [|by destruct (Hk j h Hne Ej)].
    rewrite H2 in Ej. injection Ej as <-. destruct H3 as [(h0 & E0 & -> & _)|[-> ?]]; [|lia].
    pose proof (buffer_known s Hs i h0 E0). lia.
Qed.

(** Steps that move hashers and leave the memory as it is. *)
Lemma hashers_moved_consistent s s' :
  heap s' = heap s → buffers s' = buffers s → NoDup (owners s') →
  (∀ i, i ∈ hashers s' ++ option_list (cleaner s') → clean_hasher s i) →
  (∀ i, i ∈ hashers_expended s' → ∃ h, heap s !! i = Some h ∧ from_pool h = true) →
  Forall (call_ok s) (calls s') → consistent s → consistent s'.
Proof.
  intros Eh Eb Hnd Hr Hk Hf [H1 H2 H3 H4 H5 H6 H7].
  assert (Hst : ∀ all r, stands s all r → stands s' all r).
  { intros all [b|v]; simpl; [|done]. by rewrite Eb, Eh. }
  split; rewrite ?Eh, ?Eb; try done.
  - intros i Hi. destruct (Hr i Hi) as (h & Hx). exists h. by rewrite Eh.
  - eapply Forall_impl; [exact Hf|]. intros [j all rest v|j all r|all r]; simpl; rewrite ?Eh; [done| |apply Hst].
    intros [? ?]. auto.
Qed.
(** A call goes on with its hasher. *)
Lemma consistent_advance s s' c v v' i h h' :
  calls s !! c = Some v → in_call v = Some i → in_call v' = Some i →
  heap s !! i = Some h → quiet_change s s' i h' → from_pool h' = from_pool h →
  hashers s' = hashers s → hashers_expended s' = hashers_expended s → cleaner s' = cleaner s →
  calls s' = <[c := v']> (calls s) → call_ok s' v' → consistent s → consistent s'.
Proof.
  intros Ec Ev Ev' Ei Hq Ef Eh Ee Ecl Ecs Hok Hs.
  assert (Hlt := lookup_lt_Some _ _ _ Ec).
  assert (Ho : owners s' ≡ₚ owners s).
  { rewrite (owners_split s c v Ec), Ev, (owners_split s' c v'), Ev'.
    - unfold others. by rewrite Eh, Ee, Ecl, Ecs, delete_insert_same.
    - rewrite Ecs. by apply list_lookup_insert_eq. }
  assert (Hni : i ∉ hashers s ++ hashers_expended s ++ option_list (cleaner s)).
  { pose proof (one_owner s Hs) as Hnd. rewrite (owners_split s c v Ec), Ev in Hnd. simpl in Hnd.
    apply NoDup_cons in Hnd as [Hn _]. unfold others in Hn. rewrite !elem_of_app in Hn. rewrite !elem_of_app. tauto. }
  rewrite !elem_of_app in Hni. destruct (own_buffer_quiet _ _ _ _ Hq Hs) as [Hb1 Hb2].
  split; [by rewrite Ho; apply Hs| | |done|done| |].
  - rewrite Eh, Ecl. intros j Hj. destruct (ready s Hs j Hj) as (h0 & Hx). exists h0.
    rewrite (q_heap _ _ _ _ Hq); [done|]. intros ->. rewrite elem_of_app in Hj. tauto.
  - rewrite Ee. intros j Hj. rewrite (q_heap _ _ _ _ Hq); [by apply Hs|]. intros ->. tauto.
  - intros j h0 Ej Hp. destruct (decide (j = i)) as [->|Hne].
    + rewrite (q_this _ _ _ _ Hq) in Ej. injection Ej as <-. rewrite Ef in Hp. by eapply (pool_size s Hs).
    + rewrite (q_heap _ _ _ _ Hq) in Ej by done. by eapply (pool_size s Hs).
  - rewrite Ecs. apply Forall_lookup. intros c' w Ec'. destruct (decide (c' = c)) as [->|Hne].
    + rewrite list_lookup_insert_eq in Ec' by done. by injection Ec' as <-.
    + rewrite list_lookup_insert_ne in Ec' by done. eapply call_ok_quiet; [done| |].
      * by apply (other_call s c c' v w i).
      * pose proof (calls_ok s Hs) as Hf. by eapply Forall_lookup_1 in Hf.
Qed.
Lemma quiet_set s i h h' :
  heap s !! i = Some h → result_buf h' = result_buf h → result_buf_escaped h' = result_buf_escaped h →
  ∀ c v, quiet_change s (set_call c v (set_hasher i h' s)) i h'.
Proof.
  intros Ei Er Ee c v. split; simpl; try done.
  - intros j Hj. by rewrite list_lookup_insert_ne.
  - apply list_lookup_insert_eq. by eapply lookup_lt_Some.
  - left. exists h. by rewrite Er, Ee.
Qed.

Lemma go_on_consistent c s s' : go_on squeeze num_hashers c s = Some s' → consistent s → consistent s'.
Proof.
  unfold go_on. intros E Hs. destruct (calls s !! c) as [v|] eqn:Ec; simpl in E; [|done].
  pose proof (calls_ok s Hs) as Hf. eapply Forall_lookup_1 in Hf as Hok; [|exact Ec].
  destruct v as [i all [|b rest] bv|i all r|]; [| | |done].
  - destruct Hok as (before & h & Eall & Ei & Est & Eesc). rewrite Ei in E. simpl in E.
    rewrite app_nil_r in Eall. subst before. unfold read in E. rewrite Est in E.
    set (h1 := {| state := Squeezing (concat all) 1; result_buf := result_buf h;
                  result_buf_escaped := result_buf_escaped h; from_pool := from_pool h |}) in E.
    assert (Hlt := lookup_lt_Some _ _ _ Ei). pose proof (buffer_known s Hs i h Ei) as Hbl.
    destruct bv; injection E as <-.
    + apply (consistent_advance s _ c (Writing i all [] true) (Returning i all (Value (squeeze (concat all) 0)))
        i h h1); try done.
      * by apply (quiet_set s i h).
      * split; [|done]. simpl. rewrite list_lookup_insert_eq by done. done.
    + assert (Hq : quiet_change s (set_call c (Returning i all (Buffer (result_buf h)))
        (set_buffers (<[result_buf h:=squeeze (concat all) 0]> (buffers s)) (set_hasher i (escape h1) s)))
        i (escape h1)).
      { split; simpl; [| |left|intros b v Eb He|].
        - intros j Hj. by rewrite list_lookup_insert_ne.
        - by apply list_lookup_insert_eq.
        - by exists h.
        - rewrite list_lookup_insert_ne; [done|]. intros Er. specialize (He h Ei Er). by rewrite Eesc in He.
        - by rewrite length_insert. }
      apply (consistent_advance s _ c (Writing i all [] false) (Returning i all (Buffer (result_buf h)))
        i h (escape h1)); try done.
      split; [by rewrite (q_this _ _ _ _ Hq)|]. simpl. split; [by apply list_lookup_insert_eq|].
      intros j h0 Ej Er. destruct (decide (j = i)) as [->|Hne].
      { rewrite list_lookup_insert_eq in Ej by done. by injection Ej as <-. }
      rewrite list_lookup_insert_ne in Ej by done. exfalso. by apply Hne, (own_buffer s Hs j i h0 h).
  - destruct Hok as (before & h & Eall & Ei & Est & Eesc). rewrite Ei in E. simpl in E.
    unfold Write in E. rewrite Est in E. simpl in E. injection E as <-.
    assert (Hlt := lookup_lt_Some _ _ _ Ei).
    set (h1 := {| state := Absorbing (concat before ++ b); result_buf := result_buf h;
                  result_buf_escaped := result_buf_escaped h; from_pool := from_pool h |}).
    apply (consistent_advance s _ c (Writing i all (b :: rest) bv) (Writing i all rest bv) i h h1); try done.
    + by apply (quiet_set s i h).
    + exists (before ++ [b]), h1. split_and!.
      * by rewrite <-app_assoc.
      * simpl. by apply list_lookup_insert_eq.
      * simpl. rewrite concat_app. simpl. by rewrite app_nil_r.
      * done.
  - destruct Hok as [[h Ei] Hst]. rewrite Ei in E. simpl in E.
    assert (Hlt := lookup_lt_Some _ _ _ Ec). pose proof (one_owner s Hs) as Hnd.
    rewrite (owners_split s c _ Ec) in Hnd. simpl in Hnd. unfold others in Hnd.
    assert (Hd : omap in_call (<[c:=Done all r]> (calls s)) ≡ₚ omap in_call (delete c (calls s))).
    { rewrite (omap_delete in_call (<[c:=Done all r]> (calls s)) c (Done all r)).
      - simpl. by rewrite delete_insert_same.
      - by apply list_lookup_insert_eq. }
    assert (Hf' : Forall (call_ok s) (<[c:=Done all r]> (calls s))) by by apply Forall_insert.
    destruct (from_pool h) eqn:Ep; simpl in E.
    + destruct (_ <? _)%nat; [|done]. injection E as <-.
      apply (hashers_moved_consistent s); try done.
      * unfold owners. simpl. rewrite Hd. revert Hnd. apply NoDup_perm. solve_Permutation.
      * intros j Hj. by apply Hs.
      * simpl. intros j. rewrite elem_of_app, list_elem_of_singleton. intros [Hj | ->]; [by apply Hs|by exists h].
    + injection E as <-. apply (hashers_moved_consistent s); try done; [|by apply Hs..].
      unfold owners. simpl. rewrite Hd. by apply NoDup_cons in Hnd as [_ Hnd].
Qed.

Lemma clean_consistent s s' : clean num_hashers s = Some s' → consistent s → consistent s'.
Proof.
  unfold clean. intros E Hs. destruct (cleaner s) as [i|] eqn:Ecl.
  - destruct (_ <? _)%nat; [|done]. injection E as <-. apply (hashers_moved_consistent s); try done; try apply Hs.
    + pose proof (one_owner s Hs) as Hnd. revert Hnd. unfold owners. simpl. rewrite Ecl. simpl.
      apply NoDup_perm. solve_Permutation.
    + simpl. intros j Hj. apply (ready s Hs). rewrite Ecl. simpl. by rewrite app_nil_r in Hj.
  - destruct (hashers_expended s) as [|i l] eqn:Ee; [done|].
    destruct (known s Hs i) as (h & Ei & Hp); [rewrite Ee; by left|]. rewrite Ei in E. simpl in E.
    injection E as <-. set (s' := {| hashers := _ |}).
    assert (Hlt := lookup_lt_Some _ _ _ Ei). pose proof (one_owner s Hs) as Hnd.
    unfold owners in Hnd. rewrite Ee, Ecl in Hnd. simpl in Hnd.
    assert (Hni : ¬ (i ∈ hashers s) ∧ ¬ (i ∈ l) ∧ ¬ (i ∈ omap in_call (calls s))).
    { rewrite <-Permutation_middle in Hnd. apply NoDup_cons in Hnd as [Hn _].
      rewrite !elem_of_app in Hn. tauto. }
    assert (Hq : quiet_change s s' i (Reset (length (buffers s)) h)).
    { split; simpl.
      - intros j Hj. by rewrite list_lookup_insert_ne.
      - by apply list_lookup_insert_eq.
      - destruct (result_buf_escaped h) eqn:Eesc; [right|left].
        + split; [done|]. rewrite length_app. simpl. lia.
        + exists h. by rewrite Eesc.
      - intros b v Eb _. destruct (result_buf_escaped h); [by apply lookup_app_l_Some|done].
      - destruct (result_buf_escaped h); [rewrite length_app; lia|done]. }
    destruct (own_buffer_quiet _ _ _ _ Hq Hs) as [Hb1 Hb2]. split; [| | |done|done| |].
    + revert Hnd. apply NoDup_perm. unfold owners. simpl. solve_Permutation.
    + simpl. intros j. rewrite elem_of_app, list_elem_of_singleton. intros [Hj | ->].
      * destruct (ready s Hs j) as (h0 & Hx); [rewrite elem_of_app; auto|]. exists h0.
        rewrite (q_heap _ _ _ _ Hq); [done|]. intros ->. tauto.
      * exists (Reset (length (buffers s)) h). by rewrite (q_this _ _ _ _ Hq).
    + simpl. intros j Hj. rewrite (q_heap _ _ _ _ Hq) by (intros ->; tauto).
      apply (known s Hs). rewrite Ee. by right.
    + intros j h0 Ej Hp0. destruct (decide (j = i)) as [->|Hne]; [by eapply (pool_size s Hs)|].
      rewrite (q_heap _ _ _ _ Hq) in Ej by done. by eapply (pool_size s Hs).
    + apply Forall_lookup. intros c v Ec. simpl in Ec. eapply call_ok_quiet; [done| |].
      * intros Ev. destruct Hni as (_ & _ & Hn). apply Hn, list_elem_of_omap. exists v.
        split; [by eapply list_elem_of_lookup_2|done].
      * pose proof (calls_ok s Hs) as Hf. by eapply Forall_lookup_1 in Hf.
Qed.
Lemma call_consistent bs bv s : consistent s → consistent (GetHasherFromPool bs bv s).
Proof.
  intros Hs. unfold GetHasherFromPool. pose proof (one_owner s Hs) as Hnd. unfold owners in Hnd.
  destruct (hashers s) as [|i l] eqn:Eh.
  - set (s' := {| hashers := _ |}). set (i := length (heap s)).
    assert (Hni : ¬ (i ∈ owners s)).
    { intros Hi. destruct (owner_known s i Hs Hi) as [h Ei]. apply lookup_lt_Some in Ei. unfold i in Ei. lia. }
    assert (Hq : quiet_change s s' i (new_hasher false (length (buffers s)))).
    { split; simpl.
      - intros j Hj. destruct (decide (j < i)%nat); [by apply lookup_app_l|].
        rewrite lookup_app_r, (lookup_ge_None_2 (heap s)) by (unfold i in *; lia).
        apply lookup_ge_None_2. simpl. unfold i in *. lia.
      - by apply list_lookup_middle.
      - right. split; [done|]. rewrite length_app. simpl. lia.
      - intros b v Eb _. by apply lookup_app_l_Some.
      - rewrite length_app. lia. }
    destruct (own_buffer_quiet _ _ _ _ Hq Hs) as [Hb1 Hb2].
    assert (Hold : ∀ j, j ∈ owners s → heap s' !! j = heap s !! j).
    { intros j Hj. apply (q_heap _ _ _ _ Hq). intros ->. done. }
    unfold owners in Hold, Hni. rewrite Eh in Hold, Hni. split; [| | |done|done| |].
    + unfold owners. simpl. rewrite omap_app. simpl. fold i.
      apply (NoDup_perm (i :: (hashers_expended s ++ option_list (cleaner s) ++ omap in_call (calls s)))).
      * solve_Permutation.
      * by constructor.
    + simpl. intros j Hj. destruct (ready s Hs j) as (h0 & Hx); [by rewrite Eh|]. exists h0.
      rewrite Hold; [done|]. simpl. rewrite !elem_of_app. auto.
    + simpl. intros j Hj. rewrite Hold; [by apply Hs|]. simpl. rewrite !elem_of_app. auto.
    + intros j h0 Ej Hp. destruct (decide (j = i)) as [->|Hne].
      { rewrite (q_this _ _ _ _ Hq) in Ej. by injection Ej as <-. }
      rewrite (q_heap _ _ _ _ Hq) in Ej by done. by eapply (pool_size s Hs).
    + simpl. apply Forall_app_2.
      * apply Forall_lookup. intros c v Ec. eapply call_ok_quiet; [done| |].
        -- intros Ev. apply Hni. simpl. rewrite !elem_of_app. right. right. apply list_elem_of_omap.
           exists v. split; [by eapply list_elem_of_lookup_2|done].
        -- pose proof (calls_ok s Hs) as Hf. by eapply Forall_lookup_1 in Hf.
      * apply Forall_singleton. exists [], (new_hasher false (length (buffers s))).
        split_and!; [done| |done|done]. apply (q_this _ _ _ _ Hq).
  - destruct (ready s Hs i) as (h & Ei & Est & Eesc & Hp); [rewrite Eh; by left|].
    apply (hashers_moved_consistent s); try done.
    + revert Hnd. apply NoDup_perm. unfold owners. simpl. rewrite omap_app. simpl. solve_Permutation.
    + simpl. intros j Hj. apply (ready s Hs). rewrite Eh. by right.
    + apply Hs.
    + simpl. apply Forall_app_2; [apply Hs|]. apply Forall_singleton. by exists [], h.
Qed.
Lemma init_consistent : consistent (init_pool num_hashers).
Proof.
  assert (Hh : ∀ i h, heap (init_pool num_hashers) !! i = Some h ↔ (i < num_hashers)%nat ∧ h = new_hasher true i).
  { intros i h. simpl. rewrite list_lookup_fmap. split.
    - intros Ei. apply fmap_Some in Ei as (j & Ej & ->). by apply lookup_seq in Ej as [-> ?].
    - intros [Hi ->]. by rewrite lookup_seq_lt. }
  split.
  - unfold owners. simpl. rewrite !app_nil_r. apply NoDup_seq.
  - simpl. intros i. rewrite app_nil_r, elem_of_seq. intros Hi. exists (new_hasher true i).
    split_and!; [apply Hh; split; [lia|done]|done..].
  - by intros i ?%elem_of_nil.
  - intros i j h h' [Hi ->]%Hh [Hj ->]%Hh. done.
  - intros i h [Hi ->]%Hh. simpl. by rewrite length_replicate.
  - by intros i h [Hi ->]%Hh.
  - constructor.
Qed.
Lemma hashers_step_consistent e s s' : step squeeze num_hashers e s = Some s' → consistent s → consistent s'.
Proof.
  destruct e as [bs bv|c|]; simpl; [intros [= <-]; apply call_consistent|apply go_on_consistent|
    apply clean_consistent].
Qed.
Lemma hashers_reachable_consistent es s :
  run (step squeeze num_hashers) es (init_pool num_hashers) = Some s → consistent s.
Proof.
  intros E. eapply (run_invariant (step squeeze num_hashers) consistent); [|exact E|apply init_consistent].
  intros; by eapply hashers_step_consistent.
Qed.

(** A call that has returned stays so. *)
Lemma step_done e s s' c all r :
  step squeeze num_hashers e s = Some s' → calls s !! c = Some (Done all r) →
  calls s' !! c = Some (Done all r).
Proof.
  intros E Ec. destruct e as [bs bv|c'|]; simpl in E.
  - injection E as <-. unfold GetHasherFromPool. destruct (hashers s); simpl; by apply lookup_app_l_Some.
  - assert (Hset : ∀ v s0, calls s0 = calls s → calls s !! c' ≠ Some (Done all r) →
      calls (set_call c' v s0) !! c = Some (Done all r)).
    { intros v s0 E0 Hv. simpl. rewrite E0. rewrite list_lookup_insert_ne; [done|]. intros ->. done. }
    unfold go_on in E. destruct (calls s !! c') as [v|] eqn:Ec'; simpl in E; [|done].
    destruct v as [i a [|b rest] bv|i a r0|]; [| | |done];
      (destruct (heap s !! i) as [h|]; simpl in E; [|done]).
    + destruct (read squeeze h) as [x h']. injection E as <-. by destruct bv; apply Hset.
    + destruct (Write b h); simpl in E; [|done]. injection E as <-. by apply Hset.
    + destruct (from_pool h); simpl in E; [destruct (_ <? _)%nat; [|done]|]; injection E as <-; by apply Hset.
  - unfold clean in E. destruct (cleaner s).
    + destruct (_ <? _)%nat; [|done]. by injection E as <-.
    + destruct (hashers_expended s); [done|]. destruct (heap s !! _); simpl in E; [|done]. by injection E as <-.
Qed.
(** What the caller sees of a result. *)
Definition result_of s (r : result) : option bytes :=
  match r with Value v => Some v | Buffer b => buffers s !! b end.

(** C19: hash_results_stand.  Whatever the other threads do, a call of [Hash] or of
    [HashAndReturnByValue] that has returned has the hash of its arguments, and has it for ever: a
    buffer that was returned is not written again, though its hasher goes back to the pool. *)
Theorem hash_results_stand es s es' s' c all r :
  run (step squeeze num_hashers) es (init_pool num_hashers) = Some s →
  calls s !! c = Some (Done all r) →
  run (step squeeze num_hashers) es' s = Some s' →
  calls s' !! c = Some (Done all r) ∧ result_of s' r = Some (squeeze (concat all) 0).
Proof.
  intros E Ec E'.
  assert (Ec' : calls s' !! c = Some (Done all r)).
  { eapply (run_invariant (step squeeze num_hashers) (λ s, calls s !! c = Some (Done all r)));
      [|exact E'|exact Ec]. intros e s1 s2 E1. by eapply step_done. }
  split; [done|]. assert (Hs : consistent s').
  { eapply (hashers_reachable_consistent (es ++ es')). by rewrite run_app, E. }
  pose proof (calls_ok s' Hs) as Hf. eapply Forall_lookup_1 in Hf; [|exact Ec'].
  destruct r; simpl in *; [by destruct Hf|by subst].
Qed.

(** * Progress *)
Definition scheduled (e : event) : bool := match e with ECall _ _ => false | _ => true end.
Definition steps_left (c : call) : nat :=
  match c with Writing _ _ rest _ => length rest + 4 | Returning _ _ _ => 3 | Done _ _ => 0 end.
Definition work s : nat :=
  (sum_list_with steps_left (calls s) + 2 * length (hashers_expended s) +
   length (option_list (cleaner s)))%nat.
Lemma hashers_scheduled_works e s s' :
  scheduled e → step squeeze num_hashers e s = Some s' → (work s' < work s)%nat.
Proof.
  unfold work. destruct e as [bs bv|c|]; [done| |]; intros _ E; simpl in E.
  - unfold go_on in E. destruct (calls s !! c) as [v|] eqn:Ec; simpl in E; [|done].
    pose proof (λ w, sum_insert steps_left _ _ _ w Ec) as Hb.
    destruct v as [i all [|b rest] bv|i all r|]; [| | |done];
      (destruct (heap s !! i) as [h|]; simpl in E; [|done]).
    + destruct (read squeeze h) as [x h']. injection E as <-.
      destruct bv; simpl; match goal with |- context [<[c := ?w]> _] => specialize (Hb w) end;
        simpl in Hb; lia.
    + destruct (Write b h); simpl in E; [|done]. injection E as <-. simpl.
      specialize (Hb (Writing i all rest bv)). simpl in Hb. lia.
    + specialize (Hb (Done all r)). simpl in Hb.
      destruct (from_pool h); simpl in E; [destruct (_ <? _)%nat; [|done]|]; injection E as <-; simpl;
        rewrite ?length_app; simpl; lia.
  - unfold clean in E. destruct (cleaner s).
    + destruct (_ <? _)%nat; [|done]. injection E as <-. simpl. lia.
    + destruct (hashers_expended s); [done|]. destruct (heap s !! _); simpl in E; [|done].
      injection E as <-. simpl. lia.
Qed.
(** The goroutine of the pool is never blocked: there is room for every hasher of the pool. *)
Lemma cleaner_has_room s i :
  consistent s → cleaner s = Some i → (length (hashers s) < num_hashers)%nat.
Proof.
  intros Hs Ec. pose proof (one_owner s Hs) as Hnd. unfold owners in Hnd. rewrite Ec in Hnd.
  assert (Hnd' : NoDup (i :: hashers s)).
  { revert Hnd. simpl. rewrite !NoDup_cons, !NoDup_app. set_solver. }
  apply NoDup_submseteq with (k := seq 0 num_hashers) in Hnd'.
  - apply submseteq_length in Hnd'. rewrite length_seq in Hnd'. simpl in Hnd'. lia.
  - intros j Hj. destruct (ready s Hs j) as (h & Ej & _ & _ & Hp).
    + rewrite Ec, elem_of_app. simpl. set_solver.
    + apply elem_of_seq. pose proof (pool_size s Hs j h Ej Hp). lia.
Qed.
(** Where the scheduler can do nothing every call has returned. *)
Lemma hashers_quiet_is_done s :
  consistent s → (∀ e, scheduled e → step squeeze num_hashers e s = None) →
  Forall (λ c, ∃ all r, c = Done all r) (calls s).
Proof.
  intros Hs Hq. assert (Hcl : clean num_hashers s = None) by apply (Hq EClean I).
  assert (Hex : hashers_expended s = []).
  { unfold clean in Hcl. destruct (cleaner s) as [i|] eqn:Ec.
    - pose proof (cleaner_has_room s i Hs Ec) as Hl. apply Nat.ltb_lt in Hl. by rewrite Hl in Hcl.
    - destruct (hashers_expended s) as [|i l] eqn:Ee; [done|].
      destruct (known s Hs i) as (h & Ei & _); [rewrite Ee; by left|]. by rewrite Ei in Hcl. }
  apply Forall_lookup. intros c v Ec. pose proof (calls_ok s Hs) as Hf.
  eapply Forall_lookup_1 in Hf; [|exact Ec]. specialize (Hq (EGoOn c) I). simpl in Hq.
  unfold go_on in Hq. rewrite Ec in Hq. simpl in Hq.
  destruct v as [i all [|b rest] bv|i all r|all r]; [| | |by exists all, r]; exfalso.
  - destruct Hf as (before & h & _ & Ei & _ & _). rewrite Ei in Hq. simpl in Hq.
    revert Hq. by destruct (read squeeze h).
  - destruct Hf as (before & h & _ & Ei & Est & _). rewrite Ei in Hq. simpl in Hq.
    unfold Write in Hq. by rewrite Est in Hq.
  - destruct Hf as [[h Ei] _]. rewrite Ei in Hq. simpl in Hq. rewrite Hex in Hq.
    revert Hq. destruct (from_pool h); simpl; [|done].
    unfold num_cap. destruct (Nat.ltb_spec 0 (num_hashers / 2 + 1)); [done|lia].
Qed.

(** What the scheduler does without new calls is bounded by [work], and where it
    can do nothing more every call of [Hash] has returned: the channels of the pool, of bounded
    size, block no call for ever and never block the goroutine that cleans the hashers. *)
Theorem hash_calls_end es s es' s' :
  run (step squeeze num_hashers) es (init_pool num_hashers) = Some s →
  Forall scheduled es' → run (step squeeze num_hashers) es' s = Some s' →
  (length es' + work s' ≤ work s)%nat ∧
  (∀ i, cleaner s' = Some i → (length (hashers s') < num_hashers)%nat) ∧
  ((∀ e, scheduled e → step squeeze num_hashers e s' = None) →
   Forall (λ c, ∃ all r, c = Done all r) (calls s')).
Proof.
  intros E Hes E'. assert (Hs : consistent s').
  { eapply (hashers_reachable_consistent (es ++ es')). by rewrite run_app, E. }
  split_and!.
  - eapply (run_bounded (step squeeze num_hashers) scheduled (λ _, True)); [|done..].
    intros e s1 s2 He _ E1. split; [done|]. by apply (hashers_scheduled_works e).
  - intros i. by apply cleaner_has_room.
  - by apply hashers_quiet_is_done.
Qed.
End facts.
