(* ===== verification/ConcurrencyExamples.v ===== *)
(** Schedules of the groups of goroutines and of the pools, run. *)
From S2P Require Import Prelude Storage Schedules GoroutineGroup TaskGroups Pool HasherPool.

(** Two groups with three tasks and a [Join], before any goroutine runs; then a whole run. *)
Definition calls : list (TaskGroups.event nat) :=
  [TaskGroups.ENewGroup; TaskGroups.ENewGroup; TaskGroups.ESubmit 0 10%nat; TaskGroups.ESubmit 1 20%nat;
   TaskGroups.ESubmit 0 11%nat; TaskGroups.EJoin 0 7].
Definition choices : list (TaskGroups.event nat) :=
  [TaskGroups.ESend 1; TaskGroups.EReceive 1; TaskGroups.EHandOver 0 0; TaskGroups.EExecute 0;
   TaskGroups.EExecute 1; TaskGroups.EExecute 0; TaskGroups.EExecute 1; TaskGroups.EExecute 1;
   TaskGroups.EExecute 0; TaskGroups.EExecute 0; TaskGroups.EExecute 0].
Definition after_calls : TaskGroups.Executor nat :=
  default (TaskGroups.Init 0) (run (TaskGroups.step 1) calls (TaskGroups.Init 2)).
Definition after_choices : TaskGroups.Executor nat :=
  default (TaskGroups.Init 0) (run (TaskGroups.step 1) choices after_calls).

Lemma every_task_runs_witness :
  (length choices + TaskGroups.work after_choices ≤ TaskGroups.work after_calls)%nat ∧
  map TaskGroups.ran (TaskGroups.groups after_choices) =
    [[TaskGroups.Task 10%nat; TaskGroups.Task 11%nat; TaskGroups.Unlock 7]; [TaskGroups.Task 20%nat]].
Proof.
  split; [|reflexivity].
  refine (proj1 (TaskGroups.every_task_runs 1 2 calls after_calls choices after_choices
    _ _ _ _ _)); [lia|reflexivity|reflexivity| |reflexivity].
  repeat constructor.
Defined.
(** In the middle: group 0 has run one task of its batch, and a [Submit] of [12] has come. *)
Definition in_between : TaskGroups.Executor nat :=
  default (TaskGroups.Init 0) (run (TaskGroups.step 1)
    (calls ++ take 6 choices ++ [TaskGroups.ESubmit 0 12%nat]) (TaskGroups.Init 2)).
Lemma tasks_of_a_group_in_order_witness :
  ∃ G, TaskGroups.groups in_between !! 0%nat = Some G ∧
    TaskGroups.ran G = [TaskGroups.Task 10%nat] ∧ length (TaskGroups.asked G) = 4%nat ∧
    TaskGroups.ran G `prefix_of` TaskGroups.asked G.
Proof.
  exists (default TaskGroups.new_group (TaskGroups.groups in_between !! 0%nat)).
  split_and!; [reflexivity..|].
  exact (proj1 (proj2 (TaskGroups.tasks_of_a_group_in_order 1 2
    (calls ++ take 6 choices ++ [TaskGroups.ESubmit 0 12%nat]) in_between 0 _ eq_refl eq_refl))).
Defined.

(** Two goroutines and two tasks; the second ends first, then the channel is closed. *)
Definition group_calls : list (GoroutineGroup.event nat) :=
  [GoroutineGroup.ESubmit (GoroutineGroup.Task 1%nat); GoroutineGroup.ESubmit (GoroutineGroup.Task 2%nat); GoroutineGroup.ESubmit GoroutineGroup.CloseTasks].
Definition group_choices : list (GoroutineGroup.event nat) :=
  [GoroutineGroup.EHandOver 0 0; GoroutineGroup.EHandOver 0 1; GoroutineGroup.EComplete 1; GoroutineGroup.ESend 0; GoroutineGroup.EReceive 1;
   GoroutineGroup.EComplete 0; GoroutineGroup.EComplete 1; GoroutineGroup.EReceive 1; GoroutineGroup.EReceive 0].
Definition group_after_calls : GoroutineGroup.GoroutineGroup nat :=
  default (GoroutineGroup.Init 0) (run (GoroutineGroup.step 1) group_calls (GoroutineGroup.Init 2)).
Definition group_after_choices : GoroutineGroup.GoroutineGroup nat :=
  default (GoroutineGroup.Init 0) (run (GoroutineGroup.step 1) group_choices group_after_calls).
Lemma group_completes_every_task_witness :
  (length group_choices + GoroutineGroup.work group_after_choices ≤ GoroutineGroup.work group_after_calls)%nat ∧
  GoroutineGroup.completed group_after_choices =
    [GoroutineGroup.Task 2%nat; GoroutineGroup.Task 1%nat; GoroutineGroup.CloseTasks].
Proof.
  split; [|reflexivity].
  refine (proj1 (GoroutineGroup.group_completes_every_task 1 2 group_calls group_after_calls
    group_choices group_after_choices _ _ _ _)); [lia|reflexivity| |reflexivity].
  repeat constructor.
Defined.
Lemma close_finds_no_task_witness :
  GoroutineGroup.close_returns group_after_choices = Some group_after_choices.
Proof.
  refine (proj1 (proj1 (GoroutineGroup.close_finds_no_task 1 2 (group_calls ++ group_choices)
    group_after_choices _ _) _)); [lia|reflexivity|reflexivity].
Defined.
(** [Join] of a group with two goroutines can return while a task that was sent before runs. *)
Example join_of_two :
  option_map (λ s, (GoroutineGroup.completed s, GoroutineGroup.running (GoroutineGroup.goroutines s)))
    (run (GoroutineGroup.step 1)
       [GoroutineGroup.ESubmit (GoroutineGroup.Task 1%nat); GoroutineGroup.EHandOver 0 0; GoroutineGroup.ESubmit (GoroutineGroup.Unlock 0);
        GoroutineGroup.EHandOver 0 1; GoroutineGroup.EComplete 1] (GoroutineGroup.Init 2)) =
  Some ([GoroutineGroup.Unlock 0], [GoroutineGroup.Task 1%nat]).
Proof. reflexivity. Qed.

Definition pool_events : list Pool.event :=
  [Pool.EGet; Pool.EGet; Pool.EReturn 0; Pool.EInvalidate; Pool.EReturn 0; Pool.ECleanup 0; Pool.EGet;
   Pool.EReturn 0].
Definition pool_after : Pool.Pool := default (Pool.Init 0) (run Pool.step pool_events (Pool.Init 2)).
Lemma pool_gives_current_items_witness :
  (Pool.item (Pool.Get pool_after).1 = 2%nat) ∧
  (Pool.made_at (Pool.Get pool_after).2 !! 2%nat = Some 1%nat) ∧
  Pool.closed_items pool_after = [1; 0]%nat.
Proof.
  split_and!; [reflexivity| |reflexivity].
  refine (proj1 (proj2 (Pool.pool_gives_current_items 2 pool_events pool_after _ _)));
    [reflexivity|vm_compute; reflexivity].
Defined.

(** A stand-in for the sponge: the bytes and the number of the read. *)
Definition demo_squeeze (b : bytes) (n : nat) : bytes := Z.of_nat n :: b.
(** A pool of one hasher; the second call makes its own.  The first is done before the third begins. *)
Definition hash_events : list HasherPool.event :=
  [HasherPool.ECall [[1]; [2]] false; HasherPool.ECall [[3]] false; HasherPool.EGoOn 0; HasherPool.EGoOn 1;
   HasherPool.EGoOn 0; HasherPool.EGoOn 0; HasherPool.EGoOn 0].
Definition more_events : list HasherPool.event :=
  [HasherPool.EClean; HasherPool.EClean; HasherPool.EGoOn 1; HasherPool.EGoOn 1].
Definition third_call : list HasherPool.event :=
  [HasherPool.ECall [[9]] false; HasherPool.EGoOn 2; HasherPool.EGoOn 2].
Definition hashes_1 : HasherPool.Program :=
  default (HasherPool.init_pool 0) (run (HasherPool.step demo_squeeze 1) hash_events (HasherPool.init_pool 1)).
Definition hashes_2 : HasherPool.Program :=
  default (HasherPool.init_pool 0)
    (run (HasherPool.step demo_squeeze 1) (more_events ++ third_call) hashes_1).
Lemma hash_results_stand_witness :
  HasherPool.result_of hashes_2 (HasherPool.Buffer 0) = Some [0; 1; 2] ∧
  map HasherPool.result_buf (HasherPool.heap hashes_2) = [2; 1]%nat.
Proof.
  split; [|reflexivity].
  exact (proj2 (HasherPool.hash_results_stand demo_squeeze 1 hash_events hashes_1
    (more_events ++ third_call) hashes_2 0 [[1]; [2]] (HasherPool.Buffer 0) eq_refl eq_refl eq_refl)).
Defined.
Definition hashes_3 : HasherPool.Program :=
  default (HasherPool.init_pool 0) (run (HasherPool.step demo_squeeze 1) more_events hashes_1).
Lemma hash_calls_end_witness :
  (length more_events + HasherPool.work hashes_3 ≤ HasherPool.work hashes_1)%nat ∧
  HasherPool.work hashes_3 = 0%nat.
Proof.
  split; [|reflexivity].
  refine (proj1 (HasherPool.hash_calls_end demo_squeeze 1 hash_events hashes_1 more_events
    hashes_3 _ _ _)); [reflexivity|repeat constructor|reflexivity].
Defined.
